(* ===== verification/_CoqProject ===== *)
-Q . S2P
Prelude.v
Errors.v
Wire.v
CodecTypes.v
Framing.v
MqttV3.v
Version.v
PropsV5.v
PacketV5.v
EncodeV5.v
BodyV5.v
RoundV5.v
SafeV5.v
MqttV5.v
Codec.v
Topic.v
Trie.v
Queue.v
Counter.v
Postcard.v
Hash.v
BrokerTypes.v
Inflight.v
Retain.v
RetainStore.v
Router.v
Routing.v
Shared.v
Acl.v
Alias.v
Hook.v
AclPlugin.v
Delayed.v
SessionSubs.v
ConnInfo.v
Fitter.v
Broker.v
Session.v
SessionLoop.v
Handshake.v
SessionFrame.v
Sample.v
SessionSink.v
SessionQos.v
Delivery.v
Registry.v
Takeover.v
Lifecycle.v
Continuity.v
SessionEnd.v
SessionDeliver.v
Connect.v
SessionOffline.v
SessionSubscribe.v
SessionRetained.v
MessageRam.v
SessionStored.v
ClusterRouter.v
Cluster.v
RaftNode.v
ClusterShared.v
SledKeys.v
Sled.v
SledStore.v
SledRefine.v
SledSafe.v
SledGlob.v
