(* ===== verification/Prelude.v ===== *)
(** * FerroMQ: a verified model of the broker's core

    FerroMQ is an MQTT broker.  Bytes from a client's socket go through a codec
    ([ferromq-codec]) that finds out the protocol version and turns frames into
    packets.  A CONNECT is checked, the client's earlier session is taken over or
    removed, and a task is started for the connection.  That task is a loop over
    packets of its client, messages of other tasks and timers.  Handlers of plugins
    decide, through chains of hooks, whether a client may connect, subscribe or
    publish; the router keeps subscriptions in a trie of topic filters and a map
    from filters to clients, and finds the subscribers of a message, one per shared
    group; the registry of sessions puts the message into their channels; a session
    queues messages and tracks those that its client has not acknowledged in two
    windows; retained messages are kept in a second tree; packets for the client go
    back through the codec.  This library models those parts as Rocq functions that
    follow the Rust code, and proves what they promise to each other and to the
    network.

    ** How code is modelled

    Pure functions are Rocq functions.  Code that reads from or writes to a
    buffer is written in the monad [M] below, whose state is the buffer and whose
    results are a value, an error or a panic ([outcome]); a slice or [get_u8] out
    of range is a [Panic], so that its absence is proved and not assumed.
    Integers are [Z]; a truncation [as u32], a wrap-around or an overflow is
    written out where the code has one, with [checks] saying whether the build
    has overflow checks; [f32] is binary32.  Loops over a buffer take the buffer's length as their
    fuel ([Wire.while_remaining]); running out would be a [Panic], which the
    safety theorems exclude.  The clock is an argument of the operations that
    read it.

    Sessions are shared objects.  A [Node] is a store of sessions with the
    registry, the router, the channels between tasks and a log of the hooks that
    ran; the task of a connection has its own state ([Conn]) and runs on both in
    the monad of [Session].  A method that awaits another task takes what the
    rest of the node does meanwhile as an argument, so that a theorem holds for
    all interleavings at that point; between two events of a loop other tasks may
    do whatever the theorem's relation between nodes allows.  Plugins, the
    message store and the other managers a session calls are an interface
    (the class [Backend] of [Broker]); [Sample] has a concrete one.

    ** Files

    - [Prelude]: outcomes, the monad, its triples ([wp]), byte strings, integer
      ranges, automation.
    - [Errors]: [error.rs], [v5/packet/disconnect.rs]: errors and reason codes.
    - [Wire]: [utils.rs]: integers, strings and variable-length integers.  The
      class [WireOk] is what a type's [Decode] and [Encode] owe the packets:
      exact size, round trip, canonical encoding; each primitive is an instance.
    - [CodecTypes]: [types.rs], [cert.rs]: constants, QoS, flags, [Publish].
    - [Framing]: the loop of [Decoder::decode] in [v3/codec.rs] and
      [v5/codec.rs] as a state machine over any packet decoder, and a connection
      that is fed chunk by chunk.  At most two rounds of the loop are ever
      needed ([frame_loop_total]), and draining a buffer needs no more rounds
      than bytes.
    - [MqttV3]: [v3/packet.rs], [v3/decode.rs], [v3/encode.rs], [v3/codec.rs].
    - [Version]: [version.rs], detection of the protocol version.
    - [PropsV5]: properties of MQTT 5: [v5/encode.rs] and [ack_props] of
      [v5/packet/mod.rs].  The [match] inside a property loop is a table from
      identifiers to handlers.
    - [PacketV5], [EncodeV5]: packets and decoders, sizes and encoders of
      [v5/packet/*.rs], [v5/decode.rs], [v5/encode.rs].
    - [BodyV5], [RoundV5], [SafeV5]: well-formed MQTT 5 packets, the bytes that
      stand for them; encoding writes those bytes, decoding reads them back;
      decoding arbitrary bytes is safe.
    - [MqttV5]: [v5/codec.rs], the codec with its limits and flags.
    - [Codec]: [lib.rs], version detection and the two codecs together.
    - [Topic]: [ferromq/src/topic.rs]: topic filters, parsing, printing, matching.
    - [Trie]: [ferromq/src/trie.rs]: the subscription trie and its lazy iterator.
      The iterator's fuel is the number of levels left plus one.
    - [Queue]: [ferromq/src/queue.rs]: the bounded delivery queue, its sender and
      receiver, alone and interleaved.
    - [Inflight]: [ferromq/src/inflight.rs]: the outbound and inbound windows.  The
      ordered hash map behind the outbound window is third-party code and a
      parameter, the class [DequeMap] with the laws [DequeMapOk]; an instance
      shows that the laws can be met.
    - [Counter]: [ferromq-utils/src/counter.rs], counters at machine width.
    - [Hash]: hash maps.  A map is a finite map; the order in which it is iterated
      is a parameter, the class [HashOrder] with the law [HashOrderOk].
    - [BrokerTypes]: types of [ferromq/src/types.rs] the parts below share:
      identities, messages, values with deadlines, subscription options, and the
      filter of a SUBSCRIBE with its [$share], [$limit] and [$exclusive] prefixes.
    - [Retain], [RetainStore]: [ferromq/src/retain.rs], the tree of retained
      messages and the storage over it, and the in-memory retainer of
      [ferromq-retainer].  The walks take fuel; the height of the tree is enough.
    - [Router], [Routing]: [ferromq/src/router.rs] and the collector of
      [types.rs].  Subscribing and unsubscribing are sequences of atomic steps,
      as the tree and the map have separate locks; [Routing] is about the routing
      of a message.  The choice of a member of a shared group is behind the class
      [SharedSubscription] with the law [SharedSubscriptionOk], as in the code.
      The iterator over the trie yields less than [3 * 2 ^ n] filters for a topic
      of [n] levels, which is its fuel ([Trie.collect_all]).
    - [Shared]: the strategies of [ferromq-shared-subscription], which meet that
      law.  The random source, the hash function and the LRU cache are parameters.
    - [SessionSubs]: the subscriptions of sessions and their statistics, of
      [types.rs].
    - [Acl]: [ferromq/src/acl.rs], rules, decisions and the parser of rules.
    - [Hook]: [ferromq/src/hook.rs], chains of handlers by priority and the
      decisions made of their results.
    - [AclPlugin]: the handler of [ferromq-acl], with the placeholders it fills
      in when clients come and clears when they go.
    - [Alias]: the tables of topic aliases and [Sink::publish], of [types.rs].
    - [Delayed]: [ferromq/src/delayed.rs]; the heap is a parameter with laws.

    - [ConnInfo]: what the broker knows of a connection ([types.rs],
      [ferromq-net/src/error.rs]): CONNECT, DISCONNECT, wills, reasons, flags.
    - [Fitter]: [ferromq/src/fitter.rs] and the listener's configuration.
    - [Broker]: [ferromq/src/shared.rs], the data of sessions, channels, and the
      interfaces to the rest of the broker.  A [Node] is their store.
    - [Session]: [SessionState] of [ferromq/src/session.rs]: PUBLISH, SUBSCRIBE,
      acknowledgements, delivery, retransmission, hand-over, publication.
      The loops that empty the queue or the window take more fuel than there are
      entries; [SessionEnd.clean_reports_all] shows that it is enough.
    - [SessionLoop]: the dispatch of packets and messages, one turn of the online
      and of the offline loop per event, and [run] as its beginning and its end.
    - [Handshake]: [ferromq/src/v3.rs] and [v5.rs], from CONNECT to CONNACK.

    - [Postcard]: values as bytes, the library's encoding as a class with laws.
    - [MessageRam], [SessionStored]: [ram.rs] of [ferromq-message-storage], the
      store of messages in memory, and what a new subscriber gets from it.
    - [ClusterRouter]: [router.rs] and [message.rs] of [ferromq-cluster-raft], the
      state that is replicated: locks of clients, relations, snapshots.
    - [Cluster]: nodes with a log in common, which apply it at their own pace and
      restore snapshots of each other, as a step relation.
    - [RaftNode]: what [raft_node.rs], [message.rs] and [timeout_recorder.rs] of
      [ferromq-raft] do around the consensus: proposals in batches, answers,
      circuit breakers, health.
    - [ClusterShared]: [shared.rs] and [handler.rs] of [ferromq-cluster-raft]:
      forwarding between nodes, the lock of a client, kicking over nodes.
    - [SledKeys], [Sled]: [storage_sled.rs] of [ferromq-storage]; the ordered trees
      of sled are a parameter with laws, and finite maps an instance.
    - [SledStore], [SledRefine], [SledSafe]: what that storage promises, the proof,
      and what clients may rely on.  Names of maps and lists must be kept apart,
      and fewer than [2 ^ 64] elements be pushed.
    - [SledGlob]: patterns and the scan for keys.

    The other files hold theorems: [SessionFrame] (what operations leave
    alone, by relations that compose), [Sample] (a small node at which theorems
    are evaluated), [SessionSink], [SessionQos], [SessionDeliver],
    [SessionSubscribe], [SessionRetained], [SessionEnd], [SessionOffline] (one
    concern of a session each), [Delivery] (from a publication to the channels),
    [Registry], [Takeover], [Lifecycle], [Continuity] (entries of the registry, up to
    the life of all sessions of a node) and [Connect] (the whole handshake).

    ** What the theorems show

    - A message through the broker: publication to channels (C1), delivery to
      the client and its window (C14), QoS 2 from the client as a refinement of the
      receiver of the MQTT standard (C4) and without duplicates (C15), retained
      and stored messages for a new subscriber (C23, C22).
    - The life of a session: registry, router and sessions agree at every moment
      (C2); a client that comes back continues (C3); the handshake touches nothing
      before its checks passed, and what it leaves behind (C9); subscriptions
      (C13); a session ends with every message reported (C18) and at most one
      will (C19); a session without connection hands over all that was on its way
      (C20); what is written to a client is of its protocol (C7).
    - A cluster: nodes that have applied the log have the same subscriptions, in
      every run (C10), and route by them (C28); a message reaches the subscribers
      of every connected node (C12); snapshots are restored as they were written
      (C26); the lock of a client is exclusive (C27); proposals are applied and
      answered in order (C25); when the cluster counts as available (C34).
    - Storage: the store of messages refines a map (C21, [MessageRam.ram_stored_lookup]);
      the storage on disk refines pairs, maps and lists with deadlines (C11); a
      clean-up spares what is not due (C31); scanning finds what a pattern
      describes (C30).
    - The wire (C5, C6, C16, C17, C32): a stream of packets that was encoded and
      cut into reads in any way is delivered exactly; no bytes make a receiver panic
      and what it delivers is well formed.  Further: what failing encoders leave behind
      ([MqttV5.v5_encode_cases]), what a size limit cuts from a packet
      ([MqttV5.v5_truncation]), the detection of versions
      ([Version.version_decode_monotone], [Codec.v5_handshake]), who gets problem
      information ([MqttV5.problem_info_respected]).
    - Topics ([Topic.topic_from_str_iff], [Topic.matches_str_spec]) and the trie (C29,
      [Trie.trie_remove_correct]): parsing and printing are inverse; where matching
      follows the MQTT rules and where it does not; the trie finds exactly what the
      rules ask for.
    - Windows (C40, [Inflight.next_id_fresh], [Inflight.credit_window],
      [Inflight.retransmit_timing], [Inflight.qos_exchange], [Inflight.in_reachable_inv],
      [Inflight.in_add_cases]): invariants of all reachable states, fresh identifiers,
      flow control, timing.
    - The queue (C38, C39, [Queue.send_correct], [Queue.early_lost_wakeup]): bound and
      conservation under every interleaving, and wake-ups, which one of the two
      policies can lose.
    - Retained messages (C24, [Retain.retain_matches_mqtt], [RetainStore.ram_limit]):
      exactly the messages that match; the storage refines a map with deadlines; the
      limit of the retainer.
    - Routing (C8, [Routing.routing_correct], [Router.overlap_with_third]): the router
      refines a map of subscriptions; where concurrent operations are safe (and
      [Router.overlap_loses_subscription], where they are not); a message reaches
      exactly the subscribers it should.
    - Shared groups (C33, [Shared.round_robin_fair]): every strategy serves a group
      with members, and the per-group round robin is fair.
    - Statistics of subscriptions (C35), delayed publishes (C37), topic aliases
      ([Alias.alias_roundtrip]), the negotiated keep-alive ([Fitter.keep_alive_negotiated]).
    - Permissions (C36, [Hook.plugin_lifecycle], [Acl.subscribe_acl_contained]): which
      handlers an event runs; connections do not interfere; what an accepted
      subscription lets a client see.

    ** Not modelled

    Sockets, TLS and WebSocket ([ferromq-net]) and the transport between nodes are
    I/O; the consensus library [raft-rs] is vendored, and what the code relies on
    is that nodes apply prefixes of one log, which is how [Cluster] is defined.
    Of the storages the bindings to redb and Redis only translate calls, and the
    circuit breaker around them is a library's.  Configuration files, bridges to
    other brokers, authentication over services, the HTTP interface, metrics, log
    lines and JSON views are glue around libraries.  The cluster that asks all
    nodes ([ferromq-cluster-broadcast]) repeats the local parts that are modelled
    here.  Of a session, the wait of [Session::process] for its socket is left
    out; of [shared.rs], the listing of sessions for the HTTP interface; of
    [storage_sled.rs], iterating over all maps or lists, statistics and errors of
    the disk; the clean-up, which the code runs beside the commands, is one step
    between two of them. *)

From stdpp Require Import base list numbers option sorting.
From Stdlib Require Import ZArith Lia.

#[local] Open Scope Z_scope.

(** ** Outcomes

    A Rust computation of type [Result<A, E>] ends in a value, in an error
    value, or in a panic (an index out of range, a failed [get_u8], an explicit
    [panic!]).  The three are kept apart, so that the absence of panics is a
    statement of the development and not an assumption of it. *)

Inductive outcome (E A : Type) : Type :=
| Ok (a : A)
| Err (e : E)
| Panic.
Arguments Ok {E A} a.
Arguments Err {E A} e.
Arguments Panic {E A}.

Definition is_ok {E A} (o : outcome E A) : bool :=
  match o with Ok _ => true | _ => false end.

Definition outcome_map {E A B} (f : A → B) (o : outcome E A) : outcome E B :=
  match o with Ok a => Ok (f a) | Err e => Err e | Panic => Panic end.

(** ** The state monad of fallible code

    [M S E A] threads a state [S] (a read buffer, a write buffer) and keeps the
    state reached when the computation fails: an encoder that fails half way
    has already written bytes. *)

Definition M (S E A : Type) : Type := S → outcome E A * S.

#[export] Instance M_ret {S E} : MRet (M S E) := λ A a s, (Ok a, s).
#[export] Instance M_bind {S E} : MBind (M S E) := λ A B f m s,
  match m s with
  | (Ok a, s') => f a s'
  | (Err e, s') => (Err e, s')
  | (Panic, s') => (Panic, s')
  end.

Definition err {S E A} (e : E) : M S E A := λ s, (Err e, s).
Definition panic {S E A} : M S E A := λ s, (Panic, s).
Definition get_state {S E} : M S E S := λ s, (Ok s, s).
Definition lift {S E A} (o : outcome E A) : M S E A := λ s, (o, s).

(** [ensure!(cond, e)]: return [Err(e)] unless the condition holds. *)
Definition ensure {S E} (c : bool) (e : E) : M S E unit :=
  λ s, if c then (Ok tt, s) else (Err e, s).

(** [opt.ok_or(e)?] *)
Definition ok_or {S E A} (o : option A) (e : E) : M S E A :=
  λ s, match o with Some a => (Ok a, s) | None => (Err e, s) end.

(** Reading and writing the state. *)
Definition asks {S E A} (f : S → A) : M S E A := λ s, (Ok (f s), s).
Definition modify {S E} (f : S → S) : M S E unit := λ s, (Ok tt, f s).
(** An operation on the state that cannot fail. *)
Definition state {S E A} (f : S → A * S) : M S E A := λ s, let '(a, s') := f s in (Ok a, s').

(** [m.map_err(f)], and [match m { .. }] on the result of [m]: a panic is not
    caught. *)
Definition map_err {S E E' A} (f : E → E') (m : M S E A) : M S E' A := λ s,
  match m s with
  | (Ok a, s') => (Ok a, s')
  | (Err e, s') => (Err (f e), s')
  | (Panic, s') => (Panic, s')
  end.
Definition attempt {S E E' A} (m : M S E A) : M S E' (outcome E A) := λ s,
  match m s with
  | (Panic, s') => (Panic, s')
  | (o, s') => (Ok o, s')
  end.

(** A computation on a part of the state. *)
Definition zoom {S T E A} (get : S → T) (put : T → S → S) (m : M T E A) : M S E A := λ s,
  let '(o, t) := m (get s) in (o, put t s).

(** [opt.is_some()] *)
Definition is_some {A} (o : option A) : bool :=
  match o with Some _ => true | None => false end.

(** Sequential iteration, [for x in xs { f(x)?; }]. *)
Fixpoint for_each {S E A} (f : A → M S E unit) (xs : list A) : M S E unit :=
  match xs with
  | [] => mret tt
  | x :: xs => f x ;; for_each f xs
  end.

(** Collecting iteration, [xs.map(f).collect::<Result<Vec<_>, _>>()]. *)
Fixpoint map_results {E A B} (f : A → outcome E B) (xs : list A) : outcome E (list B) :=
  match xs with
  | [] => Ok []
  | x :: xs =>
      match f x with
      | Ok y => outcome_map (cons y) (map_results f xs)
      | Err e => Err e
      | Panic => Panic
      end
  end.

(** ** Stepping through monadic code on a known state *)

Section MonadLemmas.
Context {S E : Type}.

Lemma bind_ok {A B} (m : M S E A) (f : A → M S E B) s a s' :
  m s = (Ok a, s') → (m ≫= f) s = f a s'.
Proof. intros H. unfold mbind, M_bind. by rewrite H. Qed.

Lemma bind_err {A B} (m : M S E A) (f : A → M S E B) s e s' :
  m s = (Err e, s') → (m ≫= f) s = (Err e, s').
Proof. intros H. unfold mbind, M_bind. by rewrite H. Qed.

Lemma bind_panic {A B} (m : M S E A) (f : A → M S E B) s s' :
  m s = (Panic, s') → (m ≫= f) s = (Panic, s').
Proof. intros H. unfold mbind, M_bind. by rewrite H. Qed.

(** A computation that succeeds succeeds at each of its steps. *)
Lemma bind_ok_inv {A B} (m : M S E A) (f : A → M S E B) s b s'' :
  (m ≫= f) s = (Ok b, s'') → ∃ a s', m s = (Ok a, s') ∧ f a s' = (Ok b, s'').
Proof. unfold mbind, M_bind. destruct (m s) as [[a|e|] s']; intros; [eauto|done..]. Qed.

Lemma ensure_ok_inv (c : bool) (e : E) (s s' : S) u :
  ensure c e s = (Ok u, s') → c = true ∧ s' = s.
Proof. unfold ensure. destruct c; intros; by simplify_eq. Qed.

Lemma ret_eq {A} (a : A) s : (mret a : M S E A) s = (Ok a, s).
Proof. done. Qed.

Lemma ensure_true (e : E) s : (ensure true e : M S E unit) s = (Ok tt, s).
Proof. done. Qed.

Lemma ensure_holds (c : bool) (e : E) s :
  c = true → (ensure c e : M S E unit) s = (Ok tt, s).
Proof. by intros ->. Qed.

Lemma ensure_fails (c : bool) (e : E) s :
  c = false → (ensure c e : M S E unit) s = (Err e, s).
Proof. by intros ->. Qed.

Lemma for_each_app {A} (f : A → M S E unit) xs ys s s' :
  for_each f xs s = (Ok tt, s') →
  for_each f (xs ++ ys) s = for_each f ys s'.
Proof.
  revert s. induction xs as [|x xs IH]; intros s; simpl.
  - intros [= ->]. done.
  - unfold mbind, M_bind. destruct (f x s) as [[[]| |] s1]; try done. apply IH.
Qed.
End MonadLemmas.

(** ** Collecting results *)

Lemma map_results_ok {E A B} (f : A → outcome E B) xs ys :
  map_results f xs = Ok ys ↔ Forall2 (λ x y, f x = Ok y) xs ys.
Proof.
  revert ys. induction xs as [|x xs IH]; intros ys; simpl.
  - split; [intros [= <-]; constructor|intros H; by inversion H].
  - split.
    + destruct (f x) eqn:Hx; try done. unfold outcome_map.
      destruct (map_results f xs) eqn:Hxs; try done. intros [= <-].
      constructor; [done|]. by apply IH.
    + intros H. inversion H; subst. rewrite H2. unfold outcome_map.
      apply IH in H4. by rewrite H4.
Qed.

Lemma map_results_no_panic {E A B} (f : A → outcome E B) xs :
  (∀ x, f x ≠ Panic) → map_results f xs ≠ Panic.
Proof.
  intros Hf. induction xs as [|x xs IH]; simpl; [done|].
  pose proof (Hf x). destruct (f x); try done. unfold outcome_map. by destruct (map_results f xs).
Qed.

(** ** Partial-correctness triples

    [wp m s Q]: started in [s], [m] does not panic, and when it returns a
    value [a] in state [s'], [Q a s'] holds.  Errors are allowed. *)

Definition wp {S E A} (m : M S E A) (s : S) (Q : A → S → Prop) : Prop :=
  match m s with
  | (Ok a, s') => Q a s'
  | (Err _, _) => True
  | (Panic, _) => False
  end.

Section WpLemmas.
Context {S E : Type}.

Lemma wp_ret {A} (a : A) s Q : Q a s → wp (mret a : M S E A) s Q.
Proof. done. Qed.

Lemma wp_bind {A B} (m : M S E A) (f : A → M S E B) s Q :
  wp m s (λ a s', wp (f a) s' Q) → wp (m ≫= f) s Q.
Proof.
  unfold wp, mbind, M_bind. by destruct (m s) as [[a|e|] s'].
Qed.

Lemma wp_mono {A} (m : M S E A) s (Q Q' : A → S → Prop) :
  wp m s Q → (∀ a s', Q a s' → Q' a s') → wp m s Q'.
Proof. unfold wp. destruct (m s) as [[a|e|] s']; naive_solver. Qed.

Lemma wp_err {A} (e : E) s (Q : A → S → Prop) : wp (err e) s Q.
Proof. done. Qed.

Lemma wp_ensure (c : bool) (e : E) (s : S) Q :
  (c = true → Q tt s) → wp (ensure c e) s Q.
Proof. unfold wp, ensure. destruct c; naive_solver. Qed.

Lemma wp_ok_or {A} (o : option A) (e : E) s (Q : A → S → Prop) :
  (∀ a, o = Some a → Q a s) → wp (ok_or o e) s Q.
Proof. unfold wp, ok_or. destruct o; naive_solver. Qed.

Lemma wp_lift {A} (o : outcome E A) s (Q : A → S → Prop) :
  o ≠ Panic → (∀ a, o = Ok a → Q a s) → wp (lift o) s Q.
Proof. unfold wp, lift. destruct o; naive_solver. Qed.

Lemma wp_if {A} (c : bool) (m1 m2 : M S E A) s Q :
  (c = true → wp m1 s Q) → (c = false → wp m2 s Q) →
  wp (if c then m1 else m2) s Q.
Proof. destruct c; naive_solver. Qed.

Lemma wp_result {A} (m : M S E A) s Q a s' :
  wp m s Q → m s = (Ok a, s') → Q a s'.
Proof. unfold wp. intros H Heq. by rewrite Heq in H. Qed.

Lemma wp_no_panic {A} (m : M S E A) s Q : wp m s Q → (m s).1 ≠ Panic.
Proof. unfold wp. destruct (m s) as [[a|e|] s']; simpl; naive_solver. Qed.
End WpLemmas.

(** ** Frames

    [keeps R m]: whatever [m] returns, its final state is related to its initial
    one.  For a reflexive and transitive relation this composes, so that what
    many operations leave alone is shown one primitive at a time. *)

Definition keeps {S E A} (R : relation S) (m : M S E A) : Prop := ∀ s, R s (m s).2.

Create HintDb keeps.

Section KeepsLemmas.
Context {S : Type} (R : relation S) `{!PreOrder R}.

Lemma keeps_same {E A} (m : M S E A) : (∀ s, (m s).2 = s) → keeps R m.
Proof. intros H s. by rewrite H. Qed.

Lemma keeps_ret {E A} (a : A) : keeps R (mret a : M S E A).
Proof. by apply keeps_same. Qed.
Lemma keeps_err {E A} (e : E) : keeps R (err e : M S E A).
Proof. by apply keeps_same. Qed.
Lemma keeps_panic {E A} : keeps R (panic : M S E A).
Proof. by apply keeps_same. Qed.
Lemma keeps_asks {E A} (f : S → A) : keeps R (asks f : M S E A).
Proof. by apply keeps_same. Qed.
Lemma keeps_get_state {E} : keeps R (get_state : M S E S).
Proof. by apply keeps_same. Qed.
Lemma keeps_lift {E A} (o : outcome E A) : keeps R (lift o).
Proof. by apply keeps_same. Qed.
Lemma keeps_ensure {E} (c : bool) (e : E) : keeps R (ensure c e).
Proof. apply keeps_same. intros s. unfold ensure. by destruct c. Qed.
Lemma keeps_ok_or {E A} (o : option A) (e : E) : keeps R (ok_or o e).
Proof. apply keeps_same. intros s. unfold ok_or. by destruct o. Qed.

Lemma keeps_bind {E A B} (m : M S E A) (f : A → M S E B) :
  keeps R m → (∀ a, keeps R (f a)) → keeps R (m ≫= f).
Proof.
  intros Hm Hf s. unfold mbind, M_bind. specialize (Hm s).
  destruct (m s) as [[a|e|] s']; simpl in *; [|done..]. etrans; [exact Hm|apply Hf].
Qed.

Lemma keeps_modify {E} (f : S → S) : (∀ s, R s (f s)) → keeps R (modify f : M S E unit).
Proof. intros H s. apply H. Qed.
Lemma keeps_state {E A} (f : S → A * S) : (∀ s, R s (f s).2) → keeps R (state f : M S E A).
Proof. intros H s. specialize (H s). unfold state. by destruct (f s). Qed.

Lemma keeps_map_err {E E' A} (f : E → E') (m : M S E A) : keeps R m → keeps R (map_err f m).
Proof. intros H s. specialize (H s). unfold map_err. by destruct (m s) as [[a|e|] s']. Qed.
Lemma keeps_attempt {E E' A} (m : M S E A) : keeps R m → keeps R (attempt m : M S E' _).
Proof. intros H s. specialize (H s). unfold attempt. by destruct (m s) as [[a|e|] s']. Qed.

Lemma keeps_for_each {E A} (f : A → M S E unit) (xs : list A) :
  (∀ x, x ∈ xs → keeps R (f x)) → keeps R (for_each f xs).
Proof.
  intros H. induction xs as [|x xs IH]; simpl; [apply keeps_ret|].
  apply keeps_bind; [apply H; left|]. intros _. apply IH. intros y Hy. apply H. by right.
Qed.
End KeepsLemmas.

Lemma keeps_zoom {S T E A} (R : relation S) get put (m : M T E A) :
  (∀ s, keeps (λ t t', t = get s → R s (put t' s)) m) → keeps R (zoom get put m).
Proof.
  intros H s. specialize (H s (get s) eq_refl). unfold zoom.
  by destruct (m (get s)) as [o t].
Qed.

(** Steps through a computation; what is left are its primitives. *)
Ltac keeps_step :=
  match goal with
  | |- keeps _ (_ ≫= _) => apply keeps_bind; [apply _| |intros ?]
  | |- keeps _ (mret _) => apply keeps_ret, _
  | |- keeps _ (err _) => apply keeps_err, _
  | |- keeps _ panic => apply keeps_panic, _
  | |- keeps _ (asks _) => apply keeps_asks, _
  | |- keeps _ get_state => apply keeps_get_state, _
  | |- keeps _ (lift _) => apply keeps_lift, _
  | |- keeps _ (ensure _ _) => apply keeps_ensure, _
  | |- keeps _ (ok_or _ _) => apply keeps_ok_or, _
  | |- keeps _ (map_err _ _) => apply keeps_map_err
  | |- keeps _ (attempt _) => apply keeps_attempt
  | |- keeps _ (match ?x with _ => _ end) => destruct x
  | |- keeps _ _ => solve [eauto with keeps]
  end.
Ltac keeps := repeat (keeps_step; cbv beta zeta).

(** ** Integers of a machine width *)

Definition u8_range (x : Z) : Prop := 0 ≤ x < 2 ^ 8.
Definition u16_range (x : Z) : Prop := 0 ≤ x < 2 ^ 16.
Definition u32_range (x : Z) : Prop := 0 ≤ x < 2 ^ 32.
Definition nz_u16 (x : Z) : Prop := 1 ≤ x < 2 ^ 16.
Definition nz_u32 (x : Z) : Prop := 1 ≤ x < 2 ^ 32.

(** [as u8], [as u16], [as u32]: truncation. *)
Definition as_u8 (x : Z) : Z := x mod 2 ^ 8.
Definition as_u16 (x : Z) : Z := x mod 2 ^ 16.
Definition as_u32 (x : Z) : Z := x mod 2 ^ 32.

#[export] Instance u8_range_dec x : Decision (u8_range x).
Proof. unfold u8_range. apply _. Defined.
#[export] Instance u16_range_dec x : Decision (u16_range x).
Proof. unfold u16_range. apply _. Defined.
#[export] Instance u32_range_dec x : Decision (u32_range x).
Proof. unfold u32_range. apply _. Defined.
#[export] Instance nz_u16_dec x : Decision (nz_u16 x).
Proof. unfold nz_u16. apply _. Defined.
#[export] Instance nz_u32_dec x : Decision (nz_u32 x).
Proof. unfold nz_u32. apply _. Defined.

(** Byte strings: [Bytes], [BytesMut], [&[u8]]. *)
Abbreviation bytes := (list Z).

Definition bytes_ok (bs : bytes) : Prop := Forall u8_range bs.

(** The length of a slice as an integer, [usize]. *)
Definition len {A} (l : list A) : Z := Z.of_nat (length l).

Lemma len_nonneg {A} (l : list A) : 0 ≤ len l.
Proof. unfold len. lia. Qed.

Lemma len_nil {A} : len (@nil A) = 0.
Proof. done. Qed.

Lemma len_cons {A} (x : A) l : len (x :: l) = 1 + len l.
Proof. unfold len. simpl. lia. Qed.

Lemma len_app {A} (l1 l2 : list A) : len (l1 ++ l2) = len l1 + len l2.
Proof. unfold len. rewrite length_app. lia. Qed.

Lemma len_0_inv {A} (l : list A) : len l = 0 → l = [].
Proof. unfold len. destruct l; simpl; [done|lia]. Qed.

Lemma len_take {A} (n : Z) (l : list A) :
  0 ≤ n ≤ len l → len (take (Z.to_nat n) l) = n.
Proof. unfold len. intros. rewrite length_take. lia. Qed.

Lemma take_len_app {A} (l1 l2 : list A) : take (Z.to_nat (len l1)) (l1 ++ l2) = l1.
Proof. unfold len. rewrite Nat2Z.id. apply take_app_length. Qed.

Lemma drop_len_app {A} (l1 l2 : list A) : drop (Z.to_nat (len l1)) (l1 ++ l2) = l2.
Proof. unfold len. rewrite Nat2Z.id. apply drop_app_length. Qed.

Lemma bytes_ok_app bs1 bs2 : bytes_ok (bs1 ++ bs2) ↔ bytes_ok bs1 ∧ bytes_ok bs2.
Proof. apply Forall_app. Qed.

Lemma bytes_ok_cons b bs : bytes_ok (b :: bs) ↔ u8_range b ∧ bytes_ok bs.
Proof. apply Forall_cons_iff. Qed.

Lemma bytes_ok_take n bs : bytes_ok bs → bytes_ok (take n bs).
Proof. apply Forall_take. Qed.

Lemma bytes_ok_drop n bs : bytes_ok bs → bytes_ok (drop n bs).
Proof. apply Forall_drop. Qed.

(** Keys stay distinct when a list is mapped in part. *)
Lemma NoDup_omap_key {A C K} (f : A → option C) (k : A → K) (k' : C → K) (l : list A) :
  (∀ x y, f x = Some y → k' y = k x) → NoDup (k <$> l) → NoDup (k' <$> omap f l).
Proof.
  intros Hk. induction l as [|x l IH]; cbn; [constructor|]. intros [Hx Hl]%NoDup_cons.
  destruct (f x) as [y|] eqn:Hy; [|auto]. cbn. constructor; [|auto]. rewrite (Hk _ _ Hy).
  intros (z & Hz & (x' & Hin & Hf)%list_elem_of_omap)%list_elem_of_fmap. apply Hx, list_elem_of_fmap.
  exists x'. split; [|done]. rewrite Hz. by apply Hk.
Qed.

Lemma filter_keeps {A} (P : A → Prop) `{!∀ x, Decision (P x)} (l : list A) : Forall P l → filter P l = l.
Proof. induction 1 as [|x l Hx _ IH]; [done|]. by rewrite filter_cons_True, IH. Qed.

Lemma filter_drops {A} (P : A → Prop) `{!∀ x, Decision (P x)} (l : list A) : Forall (λ x, ¬ P x) l → filter P l = [].
Proof. induction 1 as [|x l Hx _ IH]; [done|]. by rewrite filter_cons_False, IH. Qed.

Lemma StronglySorted_filter {A} (R : relation A) (P : A → Prop) `{!∀ x, Decision (P x)} l :
  StronglySorted R l → StronglySorted R (filter P l).
Proof.
  induction 1 as [|x l _ IH Hx]; [constructor|]. rewrite filter_cons. case_decide; [|done].
  constructor; [done|]. rewrite Forall_lookup in Hx |- *. intros i y Hy.
  apply list_elem_of_lookup_2, list_elem_of_filter in Hy as [_ Hy].
  apply list_elem_of_lookup in Hy as [j Hj]. by eapply Hx.
Qed.

(** A boolean fact about every byte holds once it has been evaluated on the
    256 of them. *)
Lemma byte_forall (P : Z → bool) :
  forallb P (seqZ 0 256) = true → ∀ b, u8_range b → P b = true.
Proof.
  intros H b Hb. rewrite forallb_forall in H. apply H.
  apply list_elem_of_In, elem_of_seqZ. unfold u8_range in Hb. lia.
Qed.

(** ** Automation *)

Create HintDb wire.
Create Rewrite HintDb len.
#[export] Hint Resolve wp_ret wp_err : wire.

(** One step of a computation whose head succeeds on the current state. *)
Ltac mstep := erewrite bind_ok; [|solve [eauto with wire | done]]; simpl.
Ltac msteps := repeat mstep.

(** Peel a [wp] goal along the structure of the code. *)
Ltac wp_step :=
  lazymatch goal with
  | |- wp (mbind _ _) _ _ => apply wp_bind
  | |- wp (mret _) _ _ => apply wp_ret
  | |- wp (err _) _ _ => apply wp_err
  | |- wp (ensure _ _) _ _ => apply wp_ensure; intros ?
  | |- wp (ok_or _ _) _ _ => apply wp_ok_or; intros ? ?
  | |- wp (if _ then _ else _) _ _ => apply wp_if; intros ?
  end.

Ltac range_unfold := unfold u8_range, u16_range, u32_range, nz_u16, nz_u32 in *.
Ltac range_lia := range_unfold; lia.
