(* ===== verification/Errors.v ===== *)
(** * Errors of the codec crate

    [ferromq-codec/src/error.rs]: the errors of decoding, encoding and of the
    handshake, and the MQTT 5 reason code with which each is reported to the
    peer; [ferromq-codec/src/v5/packet/disconnect.rs]: the reason codes of a
    DISCONNECT packet with their wire values. *)

From stdpp Require Import base list numbers.
From Stdlib Require Import ZArith Lia.
From S2P Require Import Prelude.

#[local] Open Scope Z_scope.

Inductive DecodeError : Type :=
| InvalidProtocol
| InvalidLength
| MalformedPacket
| UnsupportedProtocolLevel
| ConnectReservedFlagSet
| InvalidConnectFlags
| ConnAckReservedFlagSet
| InvalidClientId
| UnsupportedPacketType
| PacketIdRequired
| MaxSizeExceeded (size max : Z)
| InvalidTopicFilter
| InvalidTopicName
| Utf8Error
| Io (what : bytes).

Inductive EncodeError : Type :=
| OverMaxPacketSize (size max : Z)
| EncInvalidLength
| EncMalformedPacket
| EncPacketIdRequired
| EncUnsupportedVersion
| EncIo (what : bytes).

Inductive ProtocolError : Type :=
| ProtoDecode (e : DecodeError)
| ProtoEncode (e : EncodeError)
| ProtoKeepAliveTimeout.

Inductive HandshakeError : Type :=
| HandshakeProtocol (e : ProtocolError)
| HandshakeTimeout.

Inductive SendPacketError : Type :=
| SendEncode (e : EncodeError).

#[export] Instance DecodeError_eq_dec : EqDecision DecodeError.
Proof. solve_decision. Defined.
#[export] Instance EncodeError_eq_dec : EqDecision EncodeError.
Proof. solve_decision. Defined.

Inductive DisconnectReasonCode : Type :=
| NormalDisconnection | DisconnectWithWillMessage | UnspecifiedError
| DiscMalformedPacket | ProtocolErrorCode | ImplementationSpecificError
| NotAuthorized | ServerBusy | ServerShuttingDown | BadAuthenticationMethod
| KeepAliveTimeout | SessionTakenOver | TopicFilterInvalid | TopicNameInvalid
| ReceiveMaximumExceeded | TopicAliasInvalid | PacketTooLarge
| MessageRateTooHigh | QuotaExceeded | AdministrativeAction
| PayloadFormatInvalid | RetainNotSupported | QosNotSupported
| UseAnotherServer | ServerMoved | SharedSubscriptionNotSupported
| ConnectionRateExceeded | MaximumConnectTime
| SubscriptionIdentifiersNotSupported | WildcardSubscriptionsNotSupported.

#[export] Instance DisconnectReasonCode_eq_dec : EqDecision DisconnectReasonCode.
Proof. solve_decision. Defined.

(** [impl From<DisconnectReasonCode> for u8] *)
Definition disconnect_code (v : DisconnectReasonCode) : Z :=
  match v with
  | NormalDisconnection => 0
  | DisconnectWithWillMessage => 4
  | UnspecifiedError => 128
  | DiscMalformedPacket => 129
  | ProtocolErrorCode => 130
  | ImplementationSpecificError => 131
  | NotAuthorized => 135
  | ServerBusy => 137
  | ServerShuttingDown => 139
  | BadAuthenticationMethod => 140
  | KeepAliveTimeout => 141
  | SessionTakenOver => 142
  | TopicFilterInvalid => 143
  | TopicNameInvalid => 144
  | ReceiveMaximumExceeded => 147
  | TopicAliasInvalid => 148
  | PacketTooLarge => 149
  | MessageRateTooHigh => 150
  | QuotaExceeded => 151
  | AdministrativeAction => 152
  | PayloadFormatInvalid => 153
  | RetainNotSupported => 154
  | QosNotSupported => 155
  | UseAnotherServer => 156
  | ServerMoved => 157
  | SharedSubscriptionNotSupported => 158
  | ConnectionRateExceeded => 159
  | MaximumConnectTime => 160
  | SubscriptionIdentifiersNotSupported => 161
  | WildcardSubscriptionsNotSupported => 162
  end.

(** The [TryFrom<u8>] that [prim_enum!] generates for it. *)
Definition disconnect_try_from (v : Z) : outcome DecodeError DisconnectReasonCode :=
  match v with
  | 0 => Ok NormalDisconnection
  | 4 => Ok DisconnectWithWillMessage
  | 128 => Ok UnspecifiedError
  | 129 => Ok DiscMalformedPacket
  | 130 => Ok ProtocolErrorCode
  | 131 => Ok ImplementationSpecificError
  | 135 => Ok NotAuthorized
  | 137 => Ok ServerBusy
  | 139 => Ok ServerShuttingDown
  | 140 => Ok BadAuthenticationMethod
  | 141 => Ok KeepAliveTimeout
  | 142 => Ok SessionTakenOver
  | 143 => Ok TopicFilterInvalid
  | 144 => Ok TopicNameInvalid
  | 147 => Ok ReceiveMaximumExceeded
  | 148 => Ok TopicAliasInvalid
  | 149 => Ok PacketTooLarge
  | 150 => Ok MessageRateTooHigh
  | 151 => Ok QuotaExceeded
  | 152 => Ok AdministrativeAction
  | 153 => Ok PayloadFormatInvalid
  | 154 => Ok RetainNotSupported
  | 155 => Ok QosNotSupported
  | 156 => Ok UseAnotherServer
  | 157 => Ok ServerMoved
  | 158 => Ok SharedSubscriptionNotSupported
  | 159 => Ok ConnectionRateExceeded
  | 160 => Ok MaximumConnectTime
  | 161 => Ok SubscriptionIdentifiersNotSupported
  | 162 => Ok WildcardSubscriptionsNotSupported
  | _ => Err MalformedPacket
  end.

(** ** [ToReasonCode] *)

Definition decode_error_reason (e : DecodeError) : DisconnectReasonCode :=
  match e with
  | InvalidProtocol => ProtocolErrorCode
  | InvalidLength => DiscMalformedPacket
  | MalformedPacket => DiscMalformedPacket
  | UnsupportedProtocolLevel => ImplementationSpecificError
  | ConnectReservedFlagSet => ProtocolErrorCode
  | InvalidConnectFlags => ProtocolErrorCode
  | ConnAckReservedFlagSet => ProtocolErrorCode
  | InvalidClientId => NotAuthorized
  | UnsupportedPacketType => ImplementationSpecificError
  | PacketIdRequired => ProtocolErrorCode
  | MaxSizeExceeded _ _ => PacketTooLarge
  | InvalidTopicFilter => TopicFilterInvalid
  | InvalidTopicName => TopicNameInvalid
  | Utf8Error => PayloadFormatInvalid
  | Io _ => UnspecifiedError
  end.

Definition encode_error_reason (e : EncodeError) : DisconnectReasonCode :=
  match e with
  | OverMaxPacketSize _ _ => PacketTooLarge
  | EncInvalidLength => DiscMalformedPacket
  | EncMalformedPacket => DiscMalformedPacket
  | EncPacketIdRequired => ProtocolErrorCode
  | EncUnsupportedVersion => ImplementationSpecificError
  | EncIo _ => UnspecifiedError
  end.

Definition protocol_error_reason (e : ProtocolError) : DisconnectReasonCode :=
  match e with
  | ProtoDecode e => decode_error_reason e
  | ProtoEncode e => encode_error_reason e
  | ProtoKeepAliveTimeout => KeepAliveTimeout
  end.

Definition handshake_error_reason (e : HandshakeError) : DisconnectReasonCode :=
  match e with
  | HandshakeProtocol e => protocol_error_reason e
  | HandshakeTimeout => MaximumConnectTime
  end.

Definition send_error_reason (e : SendPacketError) : DisconnectReasonCode :=
  match e with
  | SendEncode e => encode_error_reason e
  end.

(** ** Reason codes on the wire *)

Lemma disconnect_code_range v : u8_range (disconnect_code v).
Proof. destruct v; compute; split; congruence. Qed.

Lemma disconnect_try_from_code v : disconnect_try_from (disconnect_code v) = Ok v.
Proof. by destruct v. Qed.

(** Every error is reported with a code of the error range (128 and above): no
    failure of the codec is announced to the peer as a normal disconnection. *)
Lemma handshake_reason_is_error e : 128 ≤ disconnect_code (handshake_error_reason e).
Proof. destruct e as [[[]|[]|]|]; compute; congruence. Qed.

Lemma send_reason_is_error e : 128 ≤ disconnect_code (send_error_reason e).
Proof. destruct e as [[]]; compute; congruence. Qed.
