(* ===== verification/Wire.v ===== *)
(** * Wire primitives of the codec crate

    [ferromq-codec/src/utils.rs]: the [Decode] and [Encode] traits with their
    implementations for booleans, integers, byte strings, UTF-8 strings and
    pairs, the [Property] trait, and MQTT's variable-length integers.

    A read buffer ([Bytes], [&[u8]]) and a write buffer ([BytesMut]) are byte
    lists; a reader consumes a prefix, a writer appends a suffix. *)

From stdpp Require Import base list numbers option.
From Stdlib Require Import ZArith Lia.
From S2P Require Import Prelude Errors.

#[local] Open Scope Z_scope.

Abbreviation reader := (M bytes DecodeError).
Abbreviation writer := (M bytes EncodeError unit).

(** ** The [Buf] and [BufMut] operations the crate uses

    Reading past the end of the buffer panics. *)

Definition remaining : reader Z := λ s, (Ok (len s), s).
Definition has_remaining : reader bool := λ s, (Ok (0 <? len s), s).

Definition get_u8 : reader Z := λ s,
  match s with b :: s' => (Ok b, s') | [] => (Panic, s) end.

Definition get_u16 : reader Z := λ s,
  match s with b1 :: b0 :: s' => (Ok (b1 * 256 + b0), s') | _ => (Panic, s) end.

Definition get_u32 : reader Z := λ s,
  match s with
  | b3 :: b2 :: b1 :: b0 :: s' =>
      (Ok (((b3 * 256 + b2) * 256 + b1) * 256 + b0), s')
  | _ => (Panic, s)
  end.

Definition advance (n : Z) : reader unit := λ s,
  if n <=? len s then (Ok tt, drop (Z.to_nat n) s) else (Panic, s).

Definition split_to (n : Z) : reader bytes := λ s,
  if n <=? len s then (Ok (take (Z.to_nat n) s), drop (Z.to_nat n) s) else (Panic, s).

(** [src.split_off(0)]: everything that is left. *)
Definition take_rest : reader bytes := λ s, (Ok s, []).

Definition be16 (x : Z) : bytes := [x / 256 mod 256; x mod 256].
Definition be32 (x : Z) : bytes :=
  [x / 256 / 256 / 256 mod 256; x / 256 / 256 mod 256; x / 256 mod 256; x mod 256].

Definition put_slice (bs : bytes) : writer := λ dst, (Ok tt, dst ++ bs).
Definition put_u8 (x : Z) : writer := put_slice [x].
Definition put_u16 (x : Z) : writer := put_slice (be16 x).
Definition put_u32 (x : Z) : writer := put_slice (be32 x).

(** ** UTF-8, as [std::str::from_utf8] accepts it *)

Definition between (lo hi b : Z) : bool := (lo <=? b) && (b <=? hi).
Definition utf8_tail (b : Z) : bool := between 128 191 b.

Fixpoint utf8_valid (s : bytes) : bool :=
  match s with
  | [] => true
  | b0 :: s1 =>
      if between 0 127 b0 then utf8_valid s1 else
      match s1 with
      | [] => false
      | b1 :: s2 =>
          if between 194 223 b0 then utf8_tail b1 && utf8_valid s2 else
          match s2 with
          | [] => false
          | b2 :: s3 =>
              if (b0 =? 224) && between 160 191 b1
                 || between 225 236 b0 && utf8_tail b1
                 || (b0 =? 237) && between 128 159 b1
                 || between 238 239 b0 && utf8_tail b1
              then utf8_tail b2 && utf8_valid s3 else
              match s3 with
              | [] => false
              | b3 :: s4 =>
                  ((b0 =? 240) && between 144 191 b1
                   || between 241 243 b0 && utf8_tail b1
                   || (b0 =? 244) && between 128 143 b1)
                  && utf8_tail b2 && utf8_tail b3 && utf8_valid s4
              end
          end
      end
  end.

(** ** [Decode] *)

Definition decode_bool : reader bool :=
  r ← has_remaining; ensure r InvalidLength ;;
  v ← get_u8;
  ensure (v <=? 1) MalformedPacket ;;
  mret (v =? 1).

Definition decode_u16 : reader Z :=
  r ← remaining; ensure (2 <=? r) InvalidLength ;; get_u16.

Definition decode_u32 : reader Z :=
  r ← remaining; ensure (4 <=? r) InvalidLength ;; get_u32.

(** [NonZeroU16::new], [NonZeroU32::new] *)
Definition non_zero (x : Z) : option Z := if x =? 0 then None else Some x.

Definition decode_nz_u32 : reader Z :=
  x ← decode_u32; ok_or (non_zero x) MalformedPacket.

Definition decode_nz_u16 : reader Z :=
  x ← decode_u16; ok_or (non_zero x) MalformedPacket.

Definition decode_bytes : reader bytes :=
  n ← decode_u16;
  r ← remaining; ensure (n <=? r) InvalidLength ;;
  split_to n.

Definition decode_string : reader bytes :=
  b ← decode_bytes; ensure (utf8_valid b) Utf8Error ;; mret b.

Definition decode_pair : reader (bytes * bytes) :=
  k ← decode_string; v ← decode_string; mret (k, v).

(** ** [Encode] *)

Definition encode_bool (b : bool) : writer := put_u8 (if b then 1 else 0).
Definition encode_u16 (x : Z) : writer := put_u16 x.
Definition encode_u32 (x : Z) : writer := put_u32 x.

(** [u16::try_from(self.len())] guards the length prefix. *)
Definition encode_bytes (b : bytes) : writer :=
  (if len b <? 2 ^ 16 then mret tt else err EncInvalidLength) ;;
  put_u16 (len b) ;;
  put_slice b.

Definition encode_pair (p : bytes * bytes) : writer :=
  encode_bytes p.1 ;; encode_bytes p.2.

(** ** Variable-length integers *)

(** The loop of [decode_variable_length_cursor], from a position of the
    buffer with the [shift] and [len] accumulated so far. *)
Fixpoint dvl_loop (s : bytes) (shift acc : Z) : outcome DecodeError Z * bytes :=
  match s with
  | [] => (Err MalformedPacket, [])
  | val :: s' =>
      let acc := acc + Z.shiftl (Z.land val 127) shift in
      if Z.land val 128 =? 0 then (Ok acc, s')
      else if shift <? 21 then dvl_loop s' (shift + 7) acc
      else (Err InvalidLength, s')
  end.

Definition decode_variable_length_cursor : reader Z := λ s, dvl_loop s 0 0.

(** [Some (value, bytes consumed)], or [None] when the buffer ends first. *)
Definition decode_variable_length (src : bytes) : outcome DecodeError (option (Z * Z)) :=
  match decode_variable_length_cursor src with
  | (Ok n, rest) => Ok (Some (n, len src - len rest))
  | (Err MalformedPacket, _) => Ok None
  | (Err e, _) => Err e
  | (Panic, _) => Panic
  end.

Definition take_properties : reader bytes :=
  n ← decode_variable_length_cursor;
  r ← remaining; ensure (n <=? r) InvalidLength ;;
  split_to n.

Definition cont (x : Z) : Z := as_u8 (Z.lor (Z.land x 127) 128).

Definition write_variable_length (n : Z) : writer :=
  if between 0 127 n then put_u8 (as_u8 n)
  else if between 128 16383 n then
    put_slice [cont n; as_u8 (Z.shiftr n 7)]
  else if between 16384 2097151 n then
    put_slice [cont n; cont (Z.shiftr n 7); as_u8 (Z.shiftr n 14)]
  else if between 2097152 268435455 n then
    put_slice [cont n; cont (Z.shiftr n 7); cont (Z.shiftr n 14); as_u8 (Z.shiftr n 21)]
  else panic.

(** ** A type with its [Decode] and [Encode] implementations *)

Record wire (A : Type) : Type := Wire {
  w_decode : reader A;
  w_encode : A → writer;
  w_size : A → Z;          (** [encoded_size] *)
  w_wf : A → Prop;         (** the values of the Rust type that have an encoding *)
  w_bytes : A → bytes;     (** that encoding *)
}.
Arguments Wire {A}.
Arguments w_decode {A}.
Arguments w_encode {A}.
Arguments w_size {A}.
Arguments w_wf {A}.
Arguments w_bytes {A}.

(** What every implementation owes its clients: encoding appends exactly
    [w_bytes], of the announced size; decoding inverts it whatever follows in
    the buffer; and whatever decodes is well formed and was encoded that way.
    The last law makes the primitive encodings canonical. *)
Class WireOk {A} (w : wire A) : Prop := {
  wire_encode a buf : w_wf w a → w_encode w a buf = (Ok tt, buf ++ w_bytes w a);
  wire_decode a rest : w_wf w a → w_decode w (w_bytes w a ++ rest) = (Ok a, rest);
  wire_size a : w_wf w a → len (w_bytes w a) = w_size w a;
  wire_bytes_ok a : w_wf w a → bytes_ok (w_bytes w a);
  wire_canonical s : bytes_ok s →
    wp (w_decode w) s (λ a s', w_wf w a ∧ s = w_bytes w a ++ s');
}.

Definition string_wf (b : bytes) : Prop :=
  bytes_ok b ∧ len b < 2 ^ 16 ∧ utf8_valid b = true.
Definition blob_wf (b : bytes) : Prop := bytes_ok b ∧ len b < 2 ^ 16.
Definition prefixed (b : bytes) : bytes := be16 (len b) ++ b.

Definition bool_w : wire bool :=
  Wire decode_bool encode_bool (λ _, 1) (λ _, True) (λ b, [if b then 1 else 0]).
Definition u16_w : wire Z := Wire decode_u16 encode_u16 (λ _, 2) u16_range be16.
Definition u32_w : wire Z := Wire decode_u32 encode_u32 (λ _, 4) u32_range be32.
Definition nz_u16_w : wire Z := Wire decode_nz_u16 encode_u16 (λ _, 2) nz_u16 be16.
Definition nz_u32_w : wire Z := Wire decode_nz_u32 encode_u32 (λ _, 4) nz_u32 be32.
Definition bytes_w : wire bytes :=
  Wire decode_bytes encode_bytes (λ b, 2 + len b) blob_wf prefixed.
Definition string_w : wire bytes :=
  Wire decode_string encode_bytes (λ b, 2 + len b) string_wf prefixed.
Definition pair_w : wire (bytes * bytes) :=
  Wire decode_pair encode_pair (λ p, (2 + len p.1) + (2 + len p.2))
       (λ p, string_wf p.1 ∧ string_wf p.2) (λ p, prefixed p.1 ++ prefixed p.2).

(** [impl Property for Option<T>]: a property is read at most once. *)
Definition read_value {A} (w : wire A) (cur : option A) : reader (option A) :=
  ensure (bool_decide (cur = None)) MalformedPacket ;;
  v ← w_decode w; mret (Some v).

(** [impl Encode for Option<T>] *)
Definition encode_opt {A} (w : wire A) (o : option A) : writer :=
  match o with Some v => w_encode w v | None => mret tt end.
Definition opt_size {A} (w : wire A) (o : option A) : Z :=
  match o with Some v => w_size w v | None => 0 end.

(** ** Lemmas on the buffer operations *)

#[global] Arguments utf8_valid : simpl never.

Lemma be16_ok x : bytes_ok (be16 x).
Proof. repeat constructor; range_unfold; apply Z.mod_pos_bound; lia. Qed.

Lemma be32_ok x : bytes_ok (be32 x).
Proof. repeat constructor; range_unfold; apply Z.mod_pos_bound; lia. Qed.

Lemma get_u16_be16 x rest : u16_range x → get_u16 (be16 x ++ rest) = (Ok x, rest).
Proof.
  intros Hx. unfold get_u16, be16; simpl. repeat f_equal. range_unfold.
  rewrite (Z.mod_small (x / 256)) by (split; [apply Z.div_pos|apply Z.div_lt_upper_bound]; lia).
  pose proof (Z.div_mod x 256). lia.
Qed.

Lemma get_u32_be32 x rest : u32_range x → get_u32 (be32 x ++ rest) = (Ok x, rest).
Proof.
  intros Hx. unfold get_u32, be32; simpl. repeat f_equal. range_unfold.
  rewrite (Z.mod_small (x / 256 / 256 / 256)).
  2:{ rewrite !Z.div_div by lia. split; [apply Z.div_pos|apply Z.div_lt_upper_bound]; lia. }
  pose proof (Z.div_mod x 256). pose proof (Z.div_mod (x / 256) 256).
  pose proof (Z.div_mod (x / 256 / 256) 256). lia.
Qed.

Lemma be16_of_bytes b1 b0 :
  u8_range b1 → u8_range b0 → be16 (b1 * 256 + b0) = [b1; b0] ∧ u16_range (b1 * 256 + b0).
Proof.
  intros H1 H0. range_unfold. split; [|lia]. unfold be16.
  rewrite Z.div_add_l, (Z.div_small b0), Z.add_0_r, (Z.mod_small b1) by lia.
  by rewrite Z.add_comm, Z_mod_plus_full, Z.mod_small by lia.
Qed.

Lemma be32_of_bytes b3 b2 b1 b0 :
  u8_range b3 → u8_range b2 → u8_range b1 → u8_range b0 →
  be32 (((b3 * 256 + b2) * 256 + b1) * 256 + b0) = [b3; b2; b1; b0] ∧
  u32_range (((b3 * 256 + b2) * 256 + b1) * 256 + b0).
Proof.
  intros H3 H2 H1 H0. range_unfold. split; [|lia]. unfold be32.
  assert (Hd : ∀ a b, 0 ≤ b < 256 → (a * 256 + b) / 256 = a)
    by (intros; rewrite Z.div_add_l, Z.div_small; lia).
  assert (Hm : ∀ a b, 0 ≤ b < 256 → (a * 256 + b) mod 256 = b)
    by (intros; rewrite Z.add_comm, Z_mod_plus_full, Z.mod_small; lia).
  rewrite !Hd, !Hm, (Z.mod_small b3) by lia. done.
Qed.

Lemma len_be16 x : len (be16 x) = 2.
Proof. done. Qed.

Lemma len_be32 x : len (be32 x) = 4.
Proof. done. Qed.

Lemma len_prefixed b : len (prefixed b) = 2 + len b.
Proof. unfold prefixed. by rewrite len_app, len_be16. Qed.

#[export] Hint Rewrite @len_app @len_cons @len_nil len_be16 len_be32 len_prefixed : len.

Lemma prefixed_ok b : bytes_ok b → bytes_ok (prefixed b).
Proof. intros. apply bytes_ok_app. split; [apply be16_ok|done]. Qed.

Lemma prefixed_app b rest : prefixed b ++ rest = be16 (len b) ++ b ++ rest.
Proof. unfold prefixed. by rewrite <-app_assoc. Qed.

#[global] Opaque be16 be32 prefixed.

Lemma split_to_app b rest : split_to (len b) (b ++ rest) = (Ok b, rest).
Proof.
  unfold split_to. rewrite len_app, (proj2 (Z.leb_le _ _)) by (pose proof (len_nonneg rest); lia).
  by rewrite take_len_app, drop_len_app.
Qed.

(** Symbolic execution of the guards: a length test on a concrete prefix. *)
Ltac len_tac :=
  autorewrite with len;
  repeat match goal with
    | |- context [@len _ ?l] => lazymatch goal with
        | H : 0 ≤ @len _ l |- _ => fail
        | _ => pose proof (len_nonneg l) end
    end.

Lemma wp_remaining (s : bytes) Q : Q (len s) s → wp remaining s Q.
Proof. done. Qed.

Lemma wp_has_remaining (s : bytes) Q : Q (0 <? len s) s → wp has_remaining s Q.
Proof. done. Qed.

Lemma wp_get_u8 (s : bytes) Q : (∀ b s', s = b :: s' → Q b s') → s ≠ [] → wp get_u8 s Q.
Proof. destruct s; naive_solver. Qed.

Lemma has_remaining_cons (s : bytes) : (0 <? len s) = true → ∃ b s', s = b :: s'.
Proof. destruct s; [done|eauto]. Qed.

(** Pass a guard [ensure (n <=? len s) e] whose test is arithmetic on lengths. *)
Ltac guard_leb :=
  erewrite bind_ok by (apply ensure_holds, Z.leb_le; len_tac; lia).

Lemma decode_u16_be16 x rest : u16_range x → decode_u16 (be16 x ++ rest) = (Ok x, rest).
Proof.
  intros Hx. unfold decode_u16. erewrite bind_ok by done. guard_leb.
  by apply get_u16_be16.
Qed.

Lemma decode_u16_canonical s : bytes_ok s →
  wp decode_u16 s (λ x s', u16_range x ∧ s = be16 x ++ s').
Proof.
  intros Hs. unfold decode_u16. apply wp_bind, wp_remaining, wp_bind, wp_ensure.
  intros Hlen. destruct s as [|b1 [|b0 s]]; [done..|].
  apply bytes_ok_cons in Hs as [H1 [H0 ?]%bytes_ok_cons].
  destruct (be16_of_bytes b1 b0) as [Heq ?]; [done..|].
  unfold wp; cbn [get_u16 get_u32 u32_w w_bytes w_wf]. by rewrite Heq.
Qed.

#[export] Instance bool_wire_ok : WireOk bool_w.
Proof.
  split; simpl.
  - done.
  - intros [] rest _; done.
  - done.
  - intros [] _; repeat constructor; range_lia.
  - intros [|b s] Hs; [done|]. apply bytes_ok_cons in Hs as [Hb _].
    unfold wp, decode_bool, mbind, M_bind; simpl. unfold ensure.
    destruct (Z.leb_spec b 1); [|done]. split; [done|].
    assert (b = 0 ∨ b = 1) as [-> | ->] by range_lia; done.
Qed.

#[export] Instance u16_wire_ok : WireOk u16_w.
Proof.
  split; simpl.
  - done.
  - intros. by apply decode_u16_be16.
  - done.
  - intros. apply be16_ok.
  - apply decode_u16_canonical.
Qed.

#[export] Instance u32_wire_ok : WireOk u32_w.
Proof.
  split; simpl.
  - done.
  - intros x rest Hx. unfold decode_u32. erewrite bind_ok by done. guard_leb.
    by apply get_u32_be32.
  - done.
  - intros. apply be32_ok.
  - intros s Hs. unfold decode_u32. apply wp_bind, wp_remaining, wp_bind, wp_ensure.
    intros Hlen. destruct s as [|b3 [|b2 [|b1 [|b0 s]]]]; [done..|].
    rewrite !bytes_ok_cons in Hs. destruct Hs as (?&?&?&?&?).
    destruct (be32_of_bytes b3 b2 b1 b0) as [Heq ?]; [done..|].
    unfold wp; cbn [get_u16 get_u32 u32_w w_bytes w_wf]. by rewrite Heq.
Qed.

Lemma non_zero_Some x y : non_zero x = Some y ↔ x = y ∧ y ≠ 0.
Proof.
  unfold non_zero. destruct (Z.eqb_spec x 0); split; intros; destruct_and?; simplify_eq; auto.
Qed.

Lemma non_zero_nz x : 1 ≤ x → non_zero x = Some x.
Proof. intros. apply non_zero_Some. lia. Qed.

#[export] Instance nz_u16_wire_ok : WireOk nz_u16_w.
Proof.
  split; simpl.
  - done.
  - intros x rest Hx. unfold decode_nz_u16.
    erewrite bind_ok by (apply decode_u16_be16; range_lia).
    unfold ok_or. by rewrite non_zero_nz by range_lia.
  - done.
  - intros. apply be16_ok.
  - intros s Hs. unfold decode_nz_u16. apply wp_bind.
    eapply wp_mono; [by apply decode_u16_canonical|]. intros x s' [Hx ->].
    apply wp_ok_or. intros y [<- ?]%non_zero_Some. split; [range_lia|done].
Qed.

#[export] Instance nz_u32_wire_ok : WireOk nz_u32_w.
Proof.
  split; simpl.
  - done.
  - intros x rest Hx. unfold decode_nz_u32.
    erewrite bind_ok by (apply (wire_decode (w := u32_w)); simpl; range_lia).
    unfold ok_or. by rewrite non_zero_nz by range_lia.
  - done.
  - intros. apply be32_ok.
  - intros s Hs. unfold decode_nz_u32. apply wp_bind.
    eapply wp_mono; [by apply (wire_canonical (w := u32_w))|]. intros x s' [Hx ->].
    apply wp_ok_or. intros y [<- ?]%non_zero_Some. simpl in *. split; [range_lia|done].
Qed.

Lemma encode_bytes_short b buf :
  len b < 2 ^ 16 → encode_bytes b buf = (Ok tt, buf ++ prefixed b).
Proof.
  intros Hb. unfold encode_bytes. rewrite (proj2 (Z.ltb_lt _ _) Hb).
  unfold mbind, M_bind, mret, M_ret, put_u16, put_slice.
  by rewrite <-app_assoc, <-(app_nil_r (prefixed b)), prefixed_app, app_nil_r.
Qed.

Lemma encode_bytes_long b buf :
  2 ^ 16 ≤ len b → encode_bytes b buf = (Err EncInvalidLength, buf).
Proof. intros Hb. unfold encode_bytes. by rewrite (proj2 (Z.ltb_ge _ _) Hb). Qed.

Lemma decode_bytes_prefixed b rest :
  len b < 2 ^ 16 → decode_bytes (prefixed b ++ rest) = (Ok b, rest).
Proof.
  intros Hb. unfold decode_bytes. rewrite prefixed_app.
  erewrite bind_ok by (apply decode_u16_be16; range_unfold; pose proof (len_nonneg b); lia).
  erewrite bind_ok by done. guard_leb. apply split_to_app.
Qed.

Lemma decode_bytes_canonical s : bytes_ok s →
  wp decode_bytes s (λ b s', blob_wf b ∧ s = prefixed b ++ s').
Proof.
  intros Hs. unfold decode_bytes. apply wp_bind.
  eapply wp_mono; [by apply decode_u16_canonical|]. intros n s' [Hn ->].
  apply bytes_ok_app in Hs as [_ Hs'].
  apply wp_bind, wp_remaining, wp_bind, wp_ensure. intros Hle%Z.leb_le.
  unfold wp, split_to. rewrite (proj2 (Z.leb_le _ _) Hle).
  assert (Hlen : len (take (Z.to_nat n) s') = n) by (apply len_take; range_lia).
  split.
  - split; [by apply bytes_ok_take|]. rewrite Hlen. range_lia.
  - by rewrite prefixed_app, Hlen, take_drop.
Qed.

#[export] Instance bytes_wire_ok : WireOk bytes_w.
Proof.
  split; simpl.
  - intros a buf [_ ?]. by apply encode_bytes_short.
  - intros a rest [_ ?]. by apply decode_bytes_prefixed.
  - intros. apply len_prefixed.
  - intros a [? _]. by apply prefixed_ok.
  - apply decode_bytes_canonical.
Qed.

#[export] Instance string_wire_ok : WireOk string_w.
Proof.
  split; simpl.
  - intros a buf (_&?&_). by apply encode_bytes_short.
  - intros a rest (_&?&Hu). unfold decode_string.
    erewrite bind_ok by by apply decode_bytes_prefixed. by rewrite Hu.
  - intros. apply len_prefixed.
  - intros a [? _]. by apply prefixed_ok.
  - intros s Hs. unfold decode_string. apply wp_bind.
    eapply wp_mono; [by apply decode_bytes_canonical|]. intros b s' [[??] ->].
    apply wp_bind, wp_ensure. intros Hu. apply wp_ret. done.
Qed.

#[export] Instance pair_wire_ok : WireOk pair_w.
Proof.
  split; simpl.
  - intros [k v] buf [Hk Hv]; simpl in *. unfold encode_pair; simpl.
    erewrite bind_ok by by apply (wire_encode (w := string_w)).
    rewrite (wire_encode (w := string_w)) by done. simpl. by rewrite <-app_assoc.
  - intros [k v] rest [Hk Hv]; simpl in *. unfold decode_pair. rewrite <-app_assoc.
    erewrite bind_ok by by apply (wire_decode (w := string_w)).
    erewrite bind_ok by by apply (wire_decode (w := string_w)). done.
  - intros [k v] _. simpl. by rewrite len_app, !len_prefixed.
  - intros [k v] [Hk Hv]; simpl in *. apply bytes_ok_app.
    split; [by apply (wire_bytes_ok (w := string_w) k)|by apply (wire_bytes_ok (w := string_w) v)].
  - intros s Hs. unfold decode_pair. apply wp_bind.
    eapply wp_mono; [by apply (wire_canonical (w := string_w))|]. intros k s' [Hk ->].
    apply bytes_ok_app in Hs as [_ Hs]. apply wp_bind.
    eapply wp_mono; [by apply (wire_canonical (w := string_w))|]. intros v s'' [Hv ->].
    apply wp_ret. simpl. split; [done|]. by rewrite <-app_assoc.
Qed.

(** ** Variable-length integers *)

(** The largest value, 268,435,455. *)
Definition VARINT_MAX : Z := 268435455.

(** The encoding, in arithmetic. *)
Definition varint (n : Z) : bytes :=
  if n <=? 127 then [n]
  else if n <=? 16383 then [n mod 128 + 128; n / 128]
  else if n <=? 2097151 then
    [n mod 128 + 128; n / 128 mod 128 + 128; n / 128 / 128]
  else [n mod 128 + 128; n / 128 mod 128 + 128; n / 128 / 128 mod 128 + 128;
        n / 128 / 128 / 128].

Lemma as_u8_small x : 0 ≤ x < 256 → as_u8 x = x.
Proof. apply Z.mod_small. Qed.

Lemma cont_eq x : cont x = x mod 128 + 128.
Proof.
  unfold cont, as_u8. change 127 with (Z.ones 7). rewrite Z.land_ones by lia.
  change (2 ^ 7) with 128. pose proof (Z.mod_pos_bound x 128).
  assert (H' := byte_forall (λ b, negb (b <? 128) || (Z.lor b 128 mod 2 ^ 8 =? b + 128))
                 eq_refl (x mod 128) ltac:(range_lia)).
  apply orb_true_iff in H' as [H'|H'].
  - apply negb_true_iff, Z.ltb_ge in H'. lia.
  - by apply Z.eqb_eq in H'.
Qed.

Lemma land_127_small b : 0 ≤ b < 128 → Z.land b 127 = b.
Proof. intros. change 127 with (Z.ones 7). rewrite Z.land_ones, Z.mod_small; lia. Qed.

Lemma land_128_small b : 0 ≤ b < 128 → Z.land b 128 = 0.
Proof.
  intros. assert (H' := byte_forall (λ b, negb (b <? 128) || (Z.land b 128 =? 0))
                         eq_refl b ltac:(range_lia)).
  apply orb_true_iff in H' as [H'|H'];
    [apply negb_true_iff, Z.ltb_ge in H'; lia|by apply Z.eqb_eq in H'].
Qed.

Lemma land_cont m : 0 ≤ m < 128 → Z.land (m + 128) 127 = m ∧ Z.land (m + 128) 128 ≠ 0.
Proof.
  intros. assert (H' := byte_forall
    (λ b, (b <? 128) || (Z.land b 127 =? b - 128) && negb (Z.land b 128 =? 0))
    eq_refl (m + 128) ltac:(range_lia)).
  apply orb_true_iff in H' as [H'|H']; [apply Z.ltb_lt in H'; lia|].
  apply andb_true_iff in H' as [H1%Z.eqb_eq H2%negb_true_iff%Z.eqb_neq]. lia.
Qed.

(** The two steps of the decoding loop: a last byte and a continued one. *)
Lemma dvl_last b s shift acc :
  0 ≤ b < 128 → dvl_loop (b :: s) shift acc = (Ok (acc + Z.shiftl b shift), s).
Proof. intros. simpl. by rewrite land_128_small, land_127_small by lia. Qed.

Lemma dvl_more m s shift acc :
  0 ≤ m < 128 → shift < 21 →
  dvl_loop (m + 128 :: s) shift acc = dvl_loop s (shift + 7) (acc + Z.shiftl m shift).
Proof.
  intros Hm Hs. cbn [dvl_loop]. destruct (land_cont m) as [-> Hne%Z.eqb_neq]; [lia|].
  by rewrite Hne, (proj2 (Z.ltb_lt _ _) Hs).
Qed.

Ltac div_bounds :=
  rewrite ?Z.div_div by lia;
  repeat match goal with
    | |- context [?a mod ?b] => lazymatch goal with
        | H : 0 ≤ a mod b < b |- _ => fail
        | _ => pose proof (Z.mod_pos_bound a b ltac:(lia)) end
    end.

Lemma varint_cases n : 0 ≤ n ≤ VARINT_MAX →
  (n ≤ 127 ∧ varint n = [n]) ∨
  (128 ≤ n ≤ 16383 ∧ varint n = [n mod 128 + 128; n / 128]) ∨
  (16384 ≤ n ≤ 2097151 ∧
   varint n = [n mod 128 + 128; n / 128 mod 128 + 128; n / 128 / 128]) ∨
  (2097152 ≤ n ∧
   varint n = [n mod 128 + 128; n / 128 mod 128 + 128; n / 128 / 128 mod 128 + 128;
               n / 128 / 128 / 128]).
Proof.
  unfold varint, VARINT_MAX. intros.
  destruct (Z.leb_spec n 127); [left; split; [lia|done]|].
  destruct (Z.leb_spec n 16383); [right; left; split; [lia|done]|].
  destruct (Z.leb_spec n 2097151); [right; right; left|do 3 right]; split; (lia || done).
Qed.

Lemma write_variable_length_spec n buf :
  0 ≤ n ≤ VARINT_MAX → write_variable_length n buf = (Ok tt, buf ++ varint n).
Proof.
  intros Hn. unfold write_variable_length, between.
  destruct (varint_cases n Hn) as [[? ->]|[[? ->]|[[? ->]|[? ->]]]];
    unfold VARINT_MAX in Hn;
    repeat match goal with
      | |- context [?a <=? ?b] =>
          first [rewrite (proj2 (Z.leb_le a b)) by lia | rewrite (proj2 (Z.leb_gt a b)) by lia]
      end; simpl;
    rewrite ?cont_eq, ?Z.shiftr_div_pow2 by lia; unfold put_u8, put_slice;
    change (2 ^ 7) with 128; rewrite ?Z.div_div by lia;
    rewrite as_u8_small; try done; try lia;
    (split; [apply Z.div_pos|apply Z.div_lt_upper_bound]; lia).
Qed.

Lemma decode_varint n rest :
  0 ≤ n ≤ VARINT_MAX → decode_variable_length_cursor (varint n ++ rest) = (Ok n, rest).
Proof.
  intros Hn. unfold decode_variable_length_cursor.
  assert (Hb : ∀ x, 0 ≤ x mod 128 < 128) by (intros; apply Z.mod_pos_bound; lia).
  pose proof (Z.div_mod n 128). pose proof (Z.div_mod (n / 128) 128).
  pose proof (Z.div_mod (n / 128 / 128) 128).
  pose proof (Hb n). pose proof (Hb (n / 128)). pose proof (Hb (n / 128 / 128)).
  destruct (varint_cases n Hn) as [[? ->]|[[? ->]|[[? ->]|[? ->]]]];
    unfold VARINT_MAX in Hn; cbn [app];
    repeat (rewrite dvl_more by (try apply Hb; lia)); rewrite dvl_last by lia;
    rewrite !Z.shiftl_mul_pow2 by lia; repeat f_equal; lia.
Qed.

Lemma varint_ok n : 0 ≤ n ≤ VARINT_MAX → bytes_ok (varint n).
Proof.
  intros Hn. assert (Hb : ∀ x, 0 ≤ x mod 128 < 128) by (intros; apply Z.mod_pos_bound; lia).
  pose proof (Z.div_mod n 128). pose proof (Z.div_mod (n / 128) 128).
  pose proof (Z.div_mod (n / 128 / 128) 128).
  pose proof (Hb n). pose proof (Hb (n / 128)). pose proof (Hb (n / 128 / 128)).
  destruct (varint_cases n Hn) as [[? ->]|[[? ->]|[[? ->]|[? ->]]]];
    unfold VARINT_MAX in Hn; repeat constructor; range_unfold; lia.
Qed.

Lemma varint_length n : 0 ≤ n ≤ VARINT_MAX → 1 ≤ len (varint n) ≤ 4.
Proof. intros Hn. by destruct (varint_cases n Hn) as [[? ->]|[[? ->]|[[? ->]|[? ->]]]]. Qed.

(** The loop does not panic, consumes a prefix, and its value fits in 28 bits:
    the [u32] accumulator cannot overflow. *)
Lemma dvl_loop_result s : bytes_ok s → ∀ k acc,
  0 ≤ k ≤ 3 → 0 ≤ acc < 2 ^ (7 * k) →
  match dvl_loop s (7 * k) acc with
  | (Ok n, s') => 0 ≤ n < 2 ^ 28 ∧ ∃ p, p ≠ [] ∧ s = p ++ s'
  | (Err e, _) => e = MalformedPacket ∨ e = InvalidLength
  | (Panic, _) => False
  end.
Proof.
  induction 1 as [|b s Hb Hs IH]; intros k acc Hk Hacc; [simpl; auto|]. cbn [dvl_loop].
  set (shift := 7 * k) in *.
  assert (Hm : 0 ≤ Z.land b 127 < 128).
  { change 127 with (Z.ones 7). rewrite Z.land_ones by lia. apply Z.mod_pos_bound. lia. }
  assert (Hacc' : 0 ≤ acc + Z.shiftl (Z.land b 127) shift < 2 ^ (shift + 7)).
  { rewrite Z.shiftl_mul_pow2, Z.pow_add_r by lia. nia. }
  destruct (Z.land b 128 =? 0).
  - split; [|by exists [b]].
    split; [apply Hacc'|]. eapply Z.lt_le_trans; [apply Hacc'|].
    apply Z.pow_le_mono_r; lia.
  - destruct (Z.ltb_spec shift 21); [|auto].
    replace (shift + 7) with (7 * (k + 1)) in * by lia.
    specialize (IH (k + 1) (acc + Z.shiftl (Z.land b 127) shift) ltac:(lia) Hacc').
    destruct (dvl_loop s _ _) as [[n|e|] s']; auto.
    destruct IH as (?&p&?&->). split; [done|]. by exists (b :: p).
Qed.

(** The decision taken on a prefix of the stream is kept when more bytes
    arrive: only an exhausted buffer ([MalformedPacket]) is revised. *)
Lemma dvl_loop_mono s t shift acc :
  match dvl_loop s shift acc with
  | (Ok n, s') => dvl_loop (s ++ t) shift acc = (Ok n, s' ++ t)
  | (Err InvalidLength, s') => dvl_loop (s ++ t) shift acc = (Err InvalidLength, s' ++ t)
  | (Err MalformedPacket, s') => s' = []
  | _ => False
  end.
Proof.
  revert shift acc. induction s as [|b s IH]; intros shift acc; simpl; [done|].
  destruct (Z.land b 128 =? 0); [done|]. destruct (shift <? 21); [|done]. apply IH.
Qed.

(** ** Writers that succeed, and what they append *)

Definition writes (w : writer) (bs : bytes) : Prop :=
  ∀ buf, w buf = (Ok tt, buf ++ bs).

Lemma writes_ret : writes (mret tt) [].
Proof. intros buf. by rewrite app_nil_r. Qed.

Lemma writes_bind (w1 : writer) (f : unit → writer) b1 b2 :
  writes w1 b1 → writes (f tt) b2 → writes (w1 ≫= f) (b1 ++ b2).
Proof. intros H1 H2 buf. erewrite bind_ok by apply H1. by rewrite H2, app_assoc. Qed.

Lemma writes_put_slice bs : writes (put_slice bs) bs.
Proof. done. Qed.

Lemma writes_put_u8 b : writes (put_u8 b) [b].
Proof. done. Qed.

Lemma writes_put_u16 x : writes (put_u16 x) (be16 x).
Proof. done. Qed.

Lemma writes_varint n : 0 ≤ n ≤ VARINT_MAX → writes (write_variable_length n) (varint n).
Proof. intros ? buf. by apply write_variable_length_spec. Qed.

Lemma writes_wire {A} (w : wire A) `{!WireOk w} a : w_wf w a → writes (w_encode w a) (w_bytes w a).
Proof. intros ? buf. by apply wire_encode. Qed.

Lemma writes_string b : string_wf b → writes (encode_bytes b) (prefixed b).
Proof. apply (writes_wire string_w). Qed.

Lemma writes_blob b : blob_wf b → writes (encode_bytes b) (prefixed b).
Proof. apply (writes_wire bytes_w). Qed.

Lemma writes_for_each {A} (f : A → writer) (enc : A → bytes) xs :
  Forall (λ x, writes (f x) (enc x)) xs → writes (for_each f xs) (concat (map enc xs)).
Proof.
  induction 1 as [|x xs Hx Hxs IH]; simpl; [apply writes_ret|].
  by apply writes_bind.
Qed.

#[export] Hint Resolve writes_ret writes_put_slice writes_put_u8 writes_put_u16
  writes_varint writes_string writes_blob : wire.

(** ** Reading to the end of the buffer

    [while src.has_remaining() { acc = body(acc, src)?; }].  Every round takes
    at least one byte, so the length of the buffer bounds the rounds; running
    out of rounds would show up as a panic, which the [wp] rule excludes. *)

Fixpoint while_fuel {A} (fuel : nat) (body : A → reader A) (acc : A) : reader A :=
  has_remaining ≫= λ r : bool,
  if r then
    match fuel with
    | O => panic
    | S fuel => body acc ≫= while_fuel fuel body
    end
  else mret acc.

Definition while_remaining {A} (body : A → reader A) (acc : A) : reader A :=
  λ s, while_fuel (length s) body acc s.

Lemma wp_while {A} (body : A → reader A) (I : A → bytes → Prop) acc s :
  (∀ acc s, I acc s → s ≠ [] →
     wp (body acc) s (λ acc' s', I acc' s' ∧ (length s' < length s)%nat)) →
  I acc s →
  wp (while_remaining body acc) s (λ acc' s', s' = [] ∧ I acc' []).
Proof.
  intros Hbody. unfold while_remaining.
  enough (∀ fuel acc s, (length s ≤ fuel)%nat → I acc s →
    wp (while_fuel fuel body acc) s (λ acc' s', s' = [] ∧ I acc' [])) as Hgen by eauto.
  induction fuel as [|fuel IH]; intros acc' s' Hlen HI; simpl; apply wp_bind, wp_has_remaining.
  - destruct s'; [|simpl in Hlen; lia]. by apply wp_ret.
  - destruct s' as [|b s']; [by apply wp_ret|]. apply wp_bind.
    eapply wp_mono; [by apply Hbody|]. intros acc'' s'' [? ?].
    apply IH; [simpl in *; lia|done].
Qed.

(** Reading back a list written element by element. *)
Lemma while_reads {A} (body : list A → reader (list A)) (enc : A → bytes) (xs acc : list A) :
  Forall (λ x, enc x ≠ [] ∧
     ∀ acc rest, body acc (enc x ++ rest) = (Ok (acc ++ [x]), rest)) xs →
  while_remaining body acc (concat (map enc xs)) = (Ok (acc ++ xs), []).
Proof.
  intros Hxs. unfold while_remaining.
  enough (∀ fuel acc, (length (concat (map enc xs)) ≤ fuel)%nat →
    while_fuel fuel body acc (concat (map enc xs)) = (Ok (acc ++ xs), [])) as Hgen by eauto.
  clear acc. induction Hxs as [|x xs [Hne Hx] Hxs IH]; intros fuel acc; simpl; intros Hlen.
  - destruct fuel; simpl; by rewrite app_nil_r.
  - revert Hlen. destruct (enc x) as [|b bs] eqn:Henc; [done|]. simpl. intros Hlen.
    destruct fuel as [|fuel]; [lia|]. cbn [while_fuel].
    rewrite (bind_ok _ _ _ true ((b :: bs) ++ concat (map enc xs))) by done.
    erewrite bind_ok by apply Hx. rewrite IH; [by rewrite <-app_assoc|].
    rewrite length_app in Hlen. lia.
Qed.

(** Clients of a wire type in a [wp] proof. *)
Lemma wp_wire {A} (w : wire A) `{!WireOk w} s (Q : A → bytes → Prop) :
  bytes_ok s →
  (∀ a s', w_wf w a → s = w_bytes w a ++ s' → bytes_ok s' → len s' + w_size w a = len s →
     Q a s') →
  wp (w_decode w) s Q.
Proof.
  intros Hs HQ. eapply wp_mono; [by apply wire_canonical|].
  intros a s' [Ha ->]. apply bytes_ok_app in Hs as [_ ?]. apply HQ; try done.
  rewrite len_app, (wire_size a) by done. lia.
Qed.

(** ** Optional fields, by a flag *)

(** [if c { Some(decode(src)?) } else { None }] *)
Definition decode_if {A} (c : bool) (r : reader A) : reader (option A) :=
  if c then (a ← r; mret (Some a)) else mret None.

Definition opt_prefixed (o : option bytes) : bytes := from_option prefixed [] o.

Lemma writes_opt_bytes o :
  from_option blob_wf True o →
  writes (match o with Some s => encode_bytes s | None => mret tt end) (opt_prefixed o).
Proof. destruct o; simpl; eauto with wire. Qed.

Lemma writes_opt_string o :
  from_option string_wf True o →
  writes (match o with Some s => encode_bytes s | None => mret tt end) (opt_prefixed o).
Proof. destruct o; simpl; eauto with wire. Qed.

Lemma decode_opt_prefixed {w : wire bytes} `{!WireOk w} (o : option bytes) rest :
  (∀ b, w_bytes w b = prefixed b) → from_option (w_wf w) True o →
  decode_if (is_some o) (w_decode w) (opt_prefixed o ++ rest) = (Ok o, rest).
Proof.
  intros Hw Ho. destruct o as [b|]; simpl in *; [|done].
  unfold decode_if. rewrite <-Hw. by erewrite bind_ok by by apply wire_decode.
Qed.

Lemma prefixed_not_nil b rest : prefixed b ++ rest ≠ [].
Proof.
  intros H. assert (H' := f_equal len H). autorewrite with len in H'.
  pose proof (len_nonneg b). pose proof (len_nonneg rest). lia.
Qed.

Lemma wp_decode_if {A} c (r : reader A) s (Q : option A → bytes → Prop) :
  (c = true → wp r s (λ a s', Q (Some a) s')) → (c = false → Q None s) →
  wp (decode_if c r) s Q.
Proof.
  intros H1 H2. unfold decode_if. destruct c; [|by apply wp_ret, H2].
  apply wp_bind. eapply wp_mono; [by apply H1|]. intros. by apply wp_ret.
Qed.

Lemma wp_take_rest s (Q : bytes → bytes → Prop) : Q s [] → wp take_rest s Q.
Proof. done. Qed.

Lemma as_u32_small x : 0 ≤ x < 2 ^ 32 → as_u32 x = x.
Proof. apply Z.mod_small. Qed.
