(* ===== verification/CodecTypes.v ===== *)
(** * Types shared by the protocol versions

    [ferromq-codec/src/types.rs], with [CertInfo] of [cert.rs] and the publish
    properties of [v5/packet/publish.rs], which a publish of either version
    carries as an optional field. *)

From stdpp Require Import base list numbers option.
From Stdlib Require Import ZArith Lia.
From S2P Require Import Prelude Errors Wire.

#[local] Open Scope Z_scope.

(** "MQTT" and "MQIsdp" *)
Definition MQTT : bytes := [77; 81; 84; 84].
Definition MQISDP : bytes := [77; 81; 73; 115; 100; 112].
Definition MQTT_LEVEL_31 : Z := 3.
Definition MQTT_LEVEL_311 : Z := 4.
Definition MQTT_LEVEL_5 : Z := 5.
Definition WILL_QOS_SHIFT : Z := 3.
Definition MAX_PACKET_SIZE : Z := 268435455.

(** [Protocol(u8)]: the protocol level, and the name it is announced with. *)
Record Protocol : Type := mkProtocol { level : Z }.

Definition protocol_name (p : Protocol) : bytes :=
  if level p =? MQTT_LEVEL_311 then MQTT
  else if level p =? MQTT_LEVEL_31 then MQISDP
  else if level p =? MQTT_LEVEL_5 then MQTT
  else MQTT.

Definition default_protocol : Protocol := mkProtocol MQTT_LEVEL_311.

Inductive QoS : Type := AtMostOnce | AtLeastOnce | ExactlyOnce.

#[export] Instance QoS_eq_dec : EqDecision QoS.
Proof. solve_decision. Defined.

Definition qos_try_from (v : Z) : outcome DecodeError QoS :=
  match v with
  | 0 => Ok AtMostOnce
  | 1 => Ok AtLeastOnce
  | 2 => Ok ExactlyOnce
  | _ => Err MalformedPacket
  end.

Definition qos_value (q : QoS) : Z :=
  match q with AtMostOnce => 0 | AtLeastOnce => 1 | ExactlyOnce => 2 end.

Definition less_value (q1 q2 : QoS) : QoS :=
  if qos_value q1 <? qos_value q2 then q1 else q2.

(** The flag sets that [bitflags!] declares: a value is accepted when it has no
    bit outside the declared ones. *)
Definition flags_from_bits (all b : Z) : option Z :=
  if Z.land b (255 - all) =? 0 then Some b else None.
Definition flags_truncate (all b : Z) : Z := Z.land b all.
Definition contains (flags f : Z) : bool := Z.land flags f =? f.
Definition intersects (flags f : Z) : bool := negb (Z.land flags f =? 0).

Definition USERNAME : Z := 128.
Definition PASSWORD : Z := 64.
Definition WILL_RETAIN : Z := 32.
Definition WILL_QOS : Z := 24.
Definition WILL : Z := 4.
Definition CLEAN_START : Z := 2.
Definition CONNECT_FLAGS_ALL : Z :=
  Z.lor (Z.lor (Z.lor USERNAME PASSWORD) (Z.lor WILL_RETAIN WILL_QOS)) (Z.lor WILL CLEAN_START).

Definition SESSION_PRESENT : Z := 1.

(** Packet types: the first byte of the fixed header. *)
Definition CONNECT : Z := 16.
Definition CONNACK : Z := 32.
Definition PUBLISH_START : Z := 48.
Definition PUBLISH_END : Z := 63.
Definition PUBACK : Z := 64.
Definition PUBREC : Z := 80.
Definition PUBREL : Z := 98.
Definition PUBCOMP : Z := 112.
Definition SUBSCRIBE : Z := 130.
Definition SUBACK : Z := 144.
Definition UNSUBSCRIBE : Z := 162.
Definition UNSUBACK : Z := 176.
Definition PINGREQ : Z := 192.
Definition PINGRESP : Z := 208.
Definition DISCONNECT : Z := 224.
Definition AUTH : Z := 240.

Record FixedHeader : Type := mkFixedHeader {
  first_byte : Z;
  remaining_length : Z;
}.

Record CertInfo : Type := mkCertInfo {
  common_name : option bytes;
  subject : bytes;
  serial : option bytes;
  organization : option bytes;
}.

Definition UserProperty : Type := bytes * bytes.
Abbreviation UserProperties := (list (bytes * bytes)).

Record PublishProperties : Type := mkPublishProperties {
  topic_alias : option Z;
  correlation_data : option bytes;
  message_expiry_interval : option Z;
  content_type : option bytes;
  user_properties : UserProperties;
  is_utf8_payload : bool;
  response_topic : option bytes;
  subscription_ids : list Z;
}.

Record Publish : Type := mkPublish {
  dup : bool;
  retain : bool;
  qos : QoS;
  topic : bytes;
  packet_id : option Z;
  payload : bytes;
  properties : option PublishProperties;
}.

(** ** Lemmas *)

Lemma len_MQTT : len MQTT = 4.
Proof. done. Qed.

Lemma len_MQISDP : len MQISDP = 6.
Proof. done. Qed.

#[export] Hint Rewrite len_MQTT len_MQISDP : len.

Lemma qos_try_from_value q : qos_try_from (qos_value q) = Ok q.
Proof. by destruct q. Qed.

Lemma qos_value_range q : 0 ≤ qos_value q ≤ 2.
Proof. destruct q; simpl; lia. Qed.

Lemma qos_try_from_Ok v q : qos_try_from v = Ok q → v = qos_value q.
Proof. destruct v as [|[[]|[]|]|]; simpl; intros; by simplify_eq. Qed.

Lemma qos_try_from_no_panic v : qos_try_from v ≠ Panic.
Proof. destruct v as [|[[]|[]|]|]; done. Qed.

(** The granted QoS is the smaller of the two. *)
Lemma less_value_min q1 q2 :
  qos_value (less_value q1 q2) = Z.min (qos_value q1) (qos_value q2).
Proof. by destruct q1, q2. Qed.

Lemma protocol_name_cases p : protocol_name p = MQTT ∨ protocol_name p = MQISDP.
Proof. unfold protocol_name. repeat case_match; auto. Qed.

Lemma protocol_name_wf p : blob_wf (protocol_name p).
Proof.
  destruct (protocol_name_cases p) as [-> | ->];
    (split; [repeat constructor; range_lia|done]).
Qed.
