(* ===== verification/Framing.v ===== *)
(** * Framing: from a byte stream to packets

    The [Decoder] of both protocol versions ([v3/codec.rs], [v5/codec.rs]) is
    the same two-state machine: read a fixed header, then wait for the whole
    body and hand it to the packet decoder.  It is modelled once, over the
    packet decoder, and instantiated by the version files.

    The receive loop around it (call [decode] until it wants more bytes, append
    what the network delivers, stop at the first error) is the contract of
    [tokio_util]'s [Decoder]; it is modelled to state that the packets
    delivered do not depend on how the stream is cut into reads. *)

From stdpp Require Import base list numbers option.
From Stdlib Require Import ZArith Lia.
From S2P Require Import Prelude Errors Wire CodecTypes.

#[local] Open Scope Z_scope.

Inductive DecodeState : Type :=
| FrameHeader
| Frame (fixed : FixedHeader).

(** What one round of the loop does: return to the caller, or go round again. *)
Inductive round (R : Type) : Type :=
| Return (r : R)
| Continue.
Arguments Return {R} r.
Arguments Continue {R}.

Section Framing.
Context {P : Type}.
Variable decode_packet : Z → reader P.
Variable max_size : Z.

Abbreviation result := (outcome DecodeError (option (P * Z))).

(** The body of [loop { match self.state.get() { .. } }]. *)
Definition frame_round (st : DecodeState) (src : bytes)
    : round result * (DecodeState * bytes) :=
  match st with
  | FrameHeader =>
      if len src <? 2 then (Return (Ok None), (st, src)) else
      match src with
      | [] => (Return Panic, (st, src))
      | first_byte :: tail =>
          match decode_variable_length tail with
          | Ok (Some (remaining_length, consumed)) =>
              if negb (max_size =? 0) && (max_size <? remaining_length) then
                (Return (Err (MaxSizeExceeded remaining_length max_size)), (st, src))
              else
                let src := drop (Z.to_nat (consumed + 1)) src in
                let st := Frame (mkFixedHeader first_byte remaining_length) in
                if len src <? remaining_length then (Return (Ok None), (st, src))
                else (Continue, (st, src))
          | Ok None => (Return (Ok None), (st, src))
          | Err e => (Return (Err e), (st, src))
          | Panic => (Return Panic, (st, src))
          end
      end
  | Frame fixed =>
      let n := remaining_length fixed in
      if len src <? n then (Return (Ok None), (st, src)) else
      let packet_buf := take (Z.to_nat n) src in
      let src := drop (Z.to_nat n) src in
      match fst (decode_packet (first_byte fixed) packet_buf) with
      | Ok packet => (Return (Ok (Some (packet, n))), (FrameHeader, src))
      | Err e => (Return (Err e), (st, src))
      | Panic => (Return Panic, (st, src))
      end
  end.

Fixpoint frame_loop (fuel : nat) (st : DecodeState) (src : bytes)
    : option (result * (DecodeState * bytes)) :=
  match fuel with
  | O => None
  | S fuel =>
      match frame_round st src with
      | (Return r, s) => Some (r, s)
      | (Continue, (st, src)) => frame_loop fuel st src
      end
  end.

(** [Decoder::decode].  Two rounds are enough ([frame_decode_terminates]). *)
Definition frame_decode (st : DecodeState) (src : bytes) : result * (DecodeState * bytes) :=
  match frame_loop 2 st src with
  | Some r => r
  | None => (Panic, (st, src))
  end.

(** The connection as the receive loop sees it. *)
Inductive conn : Type :=
| Live (st : DecodeState) (buf : bytes)
| Closed (e : DecodeError)
| Crashed.

Fixpoint drain (fuel : nat) (st : DecodeState) (buf : bytes) : list (P * Z) * conn :=
  match fuel with
  | O => ([], Crashed)
  | S fuel =>
      match frame_decode st buf with
      | (Ok None, (st, buf)) => ([], Live st buf)
      | (Ok (Some p), (st, buf)) =>
          let '(ps, c) := drain fuel st buf in (p :: ps, c)
      | (Err e, _) => ([], Closed e)
      | (Panic, _) => ([], Crashed)
      end
  end.

(** Deliver a chunk of the stream to a connection. *)
Definition feed (c : conn) (chunk : bytes) : list (P * Z) * conn :=
  match c with
  | Live st buf => drain (S (S (length (buf ++ chunk)))) st (buf ++ chunk)
  | _ => ([], c)
  end.

Fixpoint feed_all (c : conn) (chunks : list bytes) : list (P * Z) * conn :=
  match chunks with
  | [] => ([], c)
  | chunk :: chunks =>
      let '(ps, c) := feed c chunk in
      let '(ps', c) := feed_all c chunks in
      (ps ++ ps', c)
  end.

(** ** The loop ends *)

Lemma frame_round_frame fixed src : (frame_round (Frame fixed) src).1 ≠ Continue.
Proof. simpl. repeat case_match; done. Qed.

Lemma frame_round_continue st src s :
  frame_round st src = (Continue, s) →
  ∃ fixed src', s = (Frame fixed, src') ∧ remaining_length fixed ≤ len src'.
Proof.
  destruct st; simpl; intros; repeat case_match; simplify_eq;
    do 2 eexists; (split; [done|]); simpl; by apply Z.ltb_ge.
Qed.

Lemma frame_loop_total fuel st src :
  frame_loop (S (S fuel)) st src = Some (frame_decode st src).
Proof.
  unfold frame_decode. cbn [frame_loop].
  destruct (frame_round st src) as [[r|] [st' src']] eqn:E; [done|].
  destruct (frame_round_continue _ _ _ E) as (fixed & src'' & [= -> ->] & _).
  pose proof (frame_round_frame fixed src'') as Hf.
  destruct (frame_round (Frame fixed) src'') as [[r|] s]; [done|]. by destruct Hf.
Qed.

(** [decode] on the first round, then on the second if there is one. *)
Lemma frame_decode_unfold st src :
  frame_decode st src =
  match frame_round st src with
  | (Return r, s) => (r, s)
  | (Continue, (st', src')) =>
      match frame_round st' src' with
      | (Return r, s) => (r, s)
      | (Continue, _) => (Panic, (st, src))
      end
  end.
Proof.
  unfold frame_decode. simpl frame_loop.
  destruct (frame_round st src) as [[r|] [st' src']] eqn:E; [done|].
  destruct (frame_round st' src') as [[r|] [??]]; done.
Qed.

(** ** More bytes do not change what was decided *)

Lemma decode_variable_length_app s t :
  match decode_variable_length s with
  | Ok (Some (n, c)) => decode_variable_length (s ++ t) = Ok (Some (n, c)) ∧ 0 ≤ c ≤ len s
  | Ok None => True
  | Err e => decode_variable_length (s ++ t) = Err e
  | Panic => False
  end.
Proof.
  unfold decode_variable_length, decode_variable_length_cursor.
  pose proof (dvl_loop_mono s t 0 0) as H.
  destruct (dvl_loop s 0 0) as [[n|[]|] s'] eqn:E; try done; rewrite H; [|done].
  split.
  { rewrite !len_app. by replace (len s + len t - (len s' + len t)) with (len s - len s') by lia. }
  assert (∀ s shift acc n s', dvl_loop s shift acc = (Ok n, s') → len s' ≤ len s) as Hlen.
  { clear. induction s as [|b s IH]; simpl; intros shift acc n s' Heq; [done|].
    rewrite len_cons. repeat case_match; simplify_eq; [lia|].
    apply IH in Heq. lia. }
  apply Hlen in E. pose proof (len_nonneg s'). lia.
Qed.

Lemma frame_round_app st s t :
  match frame_round st s with
  | (Return (Ok (Some p)), (st', s')) =>
      frame_round st (s ++ t) = (Return (Ok (Some p)), (st', s' ++ t))
  | (Return (Ok None), (st', s')) =>
      (st' = st ∧ s' = s) ∨
      ∃ fixed, st' = Frame fixed ∧
        frame_round st (s ++ t) =
          (if len (s' ++ t) <? remaining_length fixed
           then (Return (Ok None), (st', s' ++ t)) else (Continue, (st', s' ++ t)))
  | (Return (Err e), _) => (frame_round st (s ++ t)).1 = Return (Err e)
  | (Return Panic, _) => (frame_round st (s ++ t)).1 = Return Panic
  | (Continue, (st', s')) => frame_round st (s ++ t) = (Continue, (st', s' ++ t))
  end.
Proof.
  destruct st as [|fixed]; simpl.
  - destruct (Z.ltb_spec (len s) 2) as [?|Hlen]; [by left|].
    destruct s as [|b s]; [by simpl in Hlen|]. simpl app.
    rewrite (proj2 (Z.ltb_ge (len (b :: s ++ t)) 2))
      by (rewrite len_cons, len_app in *; pose proof (len_nonneg t); lia).
    pose proof (decode_variable_length_app s t) as Hv.
    destruct (decode_variable_length s) as [[[n c]|]|e|]; [|by left|by rewrite Hv|done].
    destruct Hv as [-> Hc]. destruct (negb (max_size =? 0) && (max_size <? n)); [done|].
    rewrite !app_comm_cons, drop_app_le by (unfold len in *; simpl; lia).
    destruct (Z.ltb_spec (len (drop (Z.to_nat (c + 1)) (b :: s))) n).
    + right. by eexists.
    + rewrite (proj2 (Z.ltb_ge (len (_ ++ t)) n)); [done|].
      rewrite len_app. pose proof (len_nonneg t). lia.
  - destruct (Z.ltb_spec (len s) (remaining_length fixed)) as [?|Hlen]; [by left|].
    rewrite (proj2 (Z.ltb_ge (len (s ++ t)) _))
      by (rewrite len_app; pose proof (len_nonneg t); lia).
    rewrite take_app_le, drop_app_le by (unfold len in *; lia).
    destruct (decode_packet _ _) as [[p|e|] ?]; done.
Qed.

Lemma frame_decode_frame_short fixed src :
  len src < remaining_length fixed →
  frame_decode (Frame fixed) src = (Ok None, (Frame fixed, src)).
Proof.
  intros H. rewrite frame_decode_unfold. simpl. by rewrite (proj2 (Z.ltb_lt _ _) H).
Qed.

Lemma frame_decode_app st s t :
  match frame_decode st s with
  | (Ok (Some p), (st', s')) => frame_decode st (s ++ t) = (Ok (Some p), (st', s' ++ t))
  | (Ok None, (st', s')) => frame_decode st (s ++ t) = frame_decode st' (s' ++ t)
  | (Err e, _) => (frame_decode st (s ++ t)).1 = Err e
  | (Panic, _) => (frame_decode st (s ++ t)).1 = Panic
  end.
Proof.
  rewrite !frame_decode_unfold. pose proof (frame_round_app st s t) as H1.
  destruct (frame_round st s) as [[[[p|]|e|]|] [st1 s1]] eqn:E1.
  - by rewrite H1.
  - destruct H1 as [[-> ->]|(fixed & -> & ->)]; [by rewrite frame_decode_unfold|].
    destruct (Z.ltb_spec (len (s1 ++ t)) (remaining_length fixed)).
    + by rewrite frame_decode_frame_short.
    + rewrite frame_decode_unfold. pose proof (frame_round_frame fixed (s1 ++ t)) as Hf.
      by destruct (frame_round (Frame fixed) (s1 ++ t)) as [[r|] [??]].
  - by destruct (frame_round st (s ++ t)) as [[r|] ?]; simpl in H1; simplify_eq.
  - by destruct (frame_round st (s ++ t)) as [[r|] ?]; simpl in H1; simplify_eq.
  - rewrite H1. destruct (frame_round_continue _ _ _ E1) as (fixed & s2 & [= -> ->] & Hlen).
    pose proof (frame_round_app (Frame fixed) s2 t) as H2.
    pose proof (frame_round_frame fixed s2) as Hf.
    destruct (frame_round (Frame fixed) s2) as [[[[p|]|e|]|] [st3 s3]] eqn:E2;
      [|exfalso| | |by destruct Hf].
    + by rewrite H2.
    + simpl in E2. rewrite (proj2 (Z.ltb_ge _ _) Hlen) in E2. by repeat case_match.
    + by destruct (frame_round (Frame fixed) (s2 ++ t)) as [[r|] ?]; simpl in H2; simplify_eq.
    + by destruct (frame_round (Frame fixed) (s2 ++ t)) as [[r|] ?]; simpl in H2; simplify_eq.
Qed.

(** ** Every packet consumes input *)

Definition backlog (st : DecodeState) (buf : bytes) : nat :=
  (length buf + match st with FrameHeader => 0 | Frame _ => 1 end)%nat.

Lemma backlog_app st s t : backlog st (s ++ t) = (backlog st s + length t)%nat.
Proof. unfold backlog. rewrite length_app. lia. Qed.

Lemma frame_round_backlog st s :
  match frame_round st s with
  | (Return (Ok (Some _)), (st', s')) => (backlog st' s' < backlog st s)%nat
  | (_, (st', s')) => (backlog st' s' ≤ backlog st s)%nat
  end.
Proof.
  unfold backlog. destruct st as [|fixed]; simpl.
  - destruct (Z.ltb_spec (len s) 2) as [?|Hlen]; [lia|]. destruct s as [|b s]; [simpl; lia|].
    pose proof (decode_variable_length_app s []) as Hv.
    destruct (decode_variable_length s) as [[[n c]|]|e|]; simpl; try lia; [].
    destruct Hv as [_ Hc]. replace (Z.to_nat (c + 1)) with (S (Z.to_nat c)) by lia.
    pose proof (length_drop s (Z.to_nat c)).
    repeat case_match; simplify_eq; simpl in *; lia.
  - pose proof (length_drop s (Z.to_nat (remaining_length fixed))).
    repeat case_match; simplify_eq; simpl in *; lia.
Qed.

Lemma frame_decode_backlog st s :
  match frame_decode st s with
  | (Ok (Some _), (st', s')) => (backlog st' s' < backlog st s)%nat
  | (_, (st', s')) => (backlog st' s' ≤ backlog st s)%nat
  end.
Proof.
  rewrite frame_decode_unfold. pose proof (frame_round_backlog st s) as H1.
  destruct (frame_round st s) as [[[[p|]|e|]|] [st1 s1]]; try done; [].
  pose proof (frame_round_backlog st1 s1) as H2.
  destruct (frame_round st1 s1) as [[[[p|]|e|]|] [st2 s2]]; lia.
Qed.

Lemma drain_backlog fuel st s :
  match (drain fuel st s).2 with
  | Live st' s' => (backlog st' s' ≤ backlog st s)%nat
  | _ => True
  end.
Proof.
  revert st s. induction fuel as [|fuel IH]; intros st s; simpl; [done|].
  pose proof (frame_decode_backlog st s) as H.
  destruct (frame_decode st s) as [[[p|]|e|] [st' s']]; simpl; try done; [].
  specialize (IH st' s'). destruct (drain fuel st' s') as [ps []]; simpl in *; try done; lia.
Qed.

(** The number of rounds does not matter once it exceeds the backlog. *)
Lemma drain_enough fuel fuel' st s :
  (backlog st s < fuel)%nat → (backlog st s < fuel')%nat → drain fuel st s = drain fuel' st s.
Proof.
  revert fuel' st s. induction fuel as [|fuel IH]; intros [|fuel'] st s H H'; simpl; try lia.
  pose proof (frame_decode_backlog st s) as Hd.
  destruct (frame_decode st s) as [[[p|]|e|] [st' s']]; try done; [].
  rewrite (IH fuel'); [done|lia..].
Qed.

Lemma drain_app fuel st s t :
  (backlog st (s ++ t) < fuel)%nat →
  drain fuel st (s ++ t) =
  let '(ps, c) := drain fuel st s in
  match c with
  | Live st' s' => let '(ps', c') := drain fuel st' (s' ++ t) in (ps ++ ps', c')
  | _ => (ps, c)
  end.
Proof.
  revert st s. induction fuel as [|fuel IH]; intros st s Hfuel; [lia|].
  cbn [drain]. pose proof (frame_decode_app st s t) as Happ.
  pose proof (frame_decode_backlog st s) as Hlog. rewrite backlog_app in Hfuel.
  destruct (frame_decode st s) as [[[p|]|e|] [st' s']].
  - rewrite Happ, IH by (rewrite backlog_app; lia).
    pose proof (drain_backlog fuel st' s') as Hlive.
    destruct (drain fuel st' s') as [ps [st'' s''| |]]; try done. simpl in Hlive.
    rewrite (drain_enough fuel (S fuel) st'') by (rewrite backlog_app; lia).
    cbn [drain]. by repeat case_match; simplify_eq.
  - rewrite Happ. by repeat case_match; simplify_eq.
  - by destruct (frame_decode st (s ++ t)) as [??]; simpl in Happ; simplify_eq.
  - by destruct (frame_decode st (s ++ t)) as [??]; simpl in Happ; simplify_eq.
Qed.

Lemma feed_live st buf chunk fuel :
  (backlog st (buf ++ chunk) < fuel)%nat →
  feed (Live st buf) chunk = drain fuel st (buf ++ chunk).
Proof.
  intros. apply drain_enough; [|done]. unfold backlog. destruct st; lia.
Qed.

Lemma feed_app c chunk1 chunk2 :
  feed c (chunk1 ++ chunk2) =
  let '(ps, c) := feed c chunk1 in
  let '(ps', c) := feed c chunk2 in
  (ps ++ ps', c).
Proof.
  destruct c as [st buf| |]; [|done..].
  set (fuel := S (backlog st (buf ++ chunk1 ++ chunk2))).
  rewrite (feed_live _ _ _ fuel) by lia.
  rewrite (feed_live _ _ chunk1 fuel)
    by (unfold fuel; rewrite app_assoc, !backlog_app in *; lia).
  rewrite app_assoc, drain_app by (unfold fuel; rewrite app_assoc; lia).
  pose proof (drain_backlog fuel st (buf ++ chunk1)) as Hlive.
  destruct (drain fuel st (buf ++ chunk1)) as [ps [st' s'| |]];
    [|by simpl; rewrite app_nil_r..]. cbn [snd] in Hlive.
  rewrite <-(feed_live st' s' chunk2 fuel); [done|].
  unfold fuel. rewrite app_assoc, !backlog_app in *. lia.
Qed.

(** The packets and the state reached depend on the bytes received, not on
    how the network cut them into reads. *)
Lemma feed_all_concat c chunk chunks :
  feed_all c (chunk :: chunks) = feed c (concat (chunk :: chunks)).
Proof.
  revert c chunk. induction chunks as [|chunk' chunks IH]; intros c chunk.
  - simpl. rewrite app_nil_r. destruct (feed c chunk) as [ps c']. by rewrite app_nil_r.
  - cbn [feed_all concat]. cbn [feed_all concat] in IH. rewrite feed_app.
    destruct (feed c chunk) as [ps c']. by rewrite <-IH.
Qed.

(** ** One frame *)

Lemma frame_decode_one fb body p rest :
  0 ≤ len body ≤ VARINT_MAX → (max_size = 0 ∨ len body ≤ max_size) →
  fst (decode_packet fb body) = Ok p →
  frame_decode FrameHeader (fb :: varint (len body) ++ body ++ rest) =
    (Ok (Some (p, len body)), (FrameHeader, rest)).
Proof.
  intros Hlen Hmax Hp. rewrite frame_decode_unfold. unfold frame_round at 1.
  pose proof (varint_length _ Hlen) as Hv. pose proof (len_nonneg rest).
  rewrite (proj2 (Z.ltb_ge _ 2)) by (rewrite len_cons, !len_app; lia).
  unfold decode_variable_length. rewrite (decode_varint (len body) (body ++ rest)) by lia.
  replace (negb (max_size =? 0) && (max_size <? len body)) with false.
  2:{ symmetry. apply andb_false_iff. rewrite negb_false_iff, Z.eqb_eq, Z.ltb_ge. lia. }
  replace (len (varint (len body) ++ body ++ rest) - len (body ++ rest) + 1)
    with (len (fb :: varint (len body))) by (rewrite len_cons, len_app; lia).
  rewrite app_comm_cons, drop_len_app.
  rewrite (proj2 (Z.ltb_ge (len (body ++ rest)) _)) by (rewrite len_app; lia).
  simpl. rewrite (proj2 (Z.ltb_ge (len (body ++ rest)) _)) by (rewrite len_app; lia).
  by rewrite take_len_app, drop_len_app, Hp.
Qed.

(** A whole sequence of frames is delivered in order and the connection is
    back between two packets. *)
Lemma feed_frames (frames : list (Z * bytes * P)) :
  Forall (λ '(fb, body, p), 0 ≤ len body ≤ VARINT_MAX ∧
            (max_size = 0 ∨ len body ≤ max_size) ∧
            fst (decode_packet fb body) = Ok p) frames →
  feed (Live FrameHeader [])
       (concat (map (λ '(fb, body, _), fb :: varint (len body) ++ body) frames)) =
    (map (λ '(_, body, p), (p, len body)) frames, Live FrameHeader []).
Proof.
  induction 1 as [|[[fb body] p] frames (Hlen & Hmax & Hp) Hall IH]; [done|].
  cbn [map concat]. rewrite feed_app.
  assert (feed (Live FrameHeader []) (fb :: varint (len body) ++ body) =
            ([(p, len body)], Live FrameHeader [])) as ->; [|by rewrite IH].
  pose proof (frame_decode_one fb body p [] Hlen Hmax Hp) as H1. rewrite app_nil_r in H1.
  unfold feed. rewrite app_nil_l. generalize (length (fb :: varint (len body) ++ body)).
  intros n. cbn [drain]. by rewrite H1.
Qed.

(** ** No crash, and only good packets *)

Variable good : P → Prop.
Hypothesis decode_packet_ok : ∀ fb body, bytes_ok body →
  match fst (decode_packet fb body) with
  | Ok p => good p
  | Err _ => True
  | Panic => False
  end.

Definition round_ok (r : round result) : Prop :=
  match r with
  | Return (Ok (Some (p, _))) => good p
  | Return Panic => False
  | _ => True
  end.

Lemma frame_round_safe st s :
  bytes_ok s → round_ok (frame_round st s).1 ∧ bytes_ok (frame_round st s).2.2.
Proof.
  intros Hs. destruct st as [|fixed]; simpl.
  - case_match; [done|]. destruct s as [|b s]; [done|].
    pose proof (decode_variable_length_app s []) as Hv.
    destruct (decode_variable_length s) as [[[n c]|]|e|]; try done; [].
    repeat case_match; simplify_eq; split; try done; by apply bytes_ok_drop.
  - case_match; [done|].
    pose proof (decode_packet_ok (first_byte fixed)
      (take (Z.to_nat (remaining_length fixed)) s) (bytes_ok_take _ _ Hs)) as Hp.
    destruct (decode_packet _ _) as [[p|e|] ?]; simpl in *; try done;
      (split; [done|by apply bytes_ok_drop]).
Qed.

Lemma frame_decode_safe st s :
  bytes_ok s → round_ok (Return (frame_decode st s).1) ∧ bytes_ok (frame_decode st s).2.2.
Proof.
  intros Hs. rewrite frame_decode_unfold. pose proof (frame_round_safe st s Hs) as [H1 H2].
  destruct (frame_round st s) as [[r|] [st1 s1]] eqn:E1; [done|].
  destruct (frame_round_continue _ _ _ E1) as (fixed & src' & [= -> ->] & _).
  pose proof (frame_round_safe (Frame fixed) src' H2) as [H3 H4].
  pose proof (frame_round_frame fixed src') as Hf.
  destruct (frame_round (Frame fixed) src') as [[r|] ?]; [done|by destruct Hf].
Qed.

(** A connection in use: its buffer holds bytes, and it has not crashed. *)
Definition conn_ok (c : conn) : Prop :=
  match c with Live _ buf => bytes_ok buf | Closed _ => True | Crashed => False end.

Lemma drain_safe fuel st s :
  bytes_ok s → (backlog st s < fuel)%nat →
  Forall (λ '(p, _), good p) (drain fuel st s).1 ∧ conn_ok (drain fuel st s).2.
Proof.
  revert st s. induction fuel as [|fuel IH]; intros st s Hs Hfuel; simpl; [lia|].
  pose proof (frame_decode_safe st s Hs) as [H1 H2].
  pose proof (frame_decode_backlog st s) as Hlog.
  destruct (frame_decode st s) as [[[[p n]|]|e|] [st' s']]; simpl in *;
    [|by split; [constructor|]..].
  destruct (IH st' s' H2 ltac:(lia)). destruct (drain fuel st' s'). simpl in *. auto.
Qed.

Lemma feed_safe c chunk :
  conn_ok c → bytes_ok chunk →
  Forall (λ '(p, _), good p) (feed c chunk).1 ∧ conn_ok (feed c chunk).2.
Proof.
  intros Hc Hchunk. destruct c as [st buf|e|]; [|by split; [constructor|]..].
  unfold feed. apply drain_safe; [by apply bytes_ok_app|]. unfold backlog. destruct st; lia.
Qed.

Lemma feed_all_safe c chunks :
  conn_ok c → Forall bytes_ok chunks →
  Forall (λ '(p, _), good p) (feed_all c chunks).1 ∧ conn_ok (feed_all c chunks).2.
Proof.
  intros Hc Hchunks. revert c Hc.
  induction Hchunks as [|chunk chunks Hchunk _ IH]; intros c Hc; simpl; [auto|].
  pose proof (feed_safe c chunk Hc Hchunk) as [H1 H2].
  destruct (feed c chunk) as [ps c']. specialize (IH c' H2).
  destruct (feed_all c' chunks) as [ps' c'']. simpl in *. rewrite Forall_app. tauto.
Qed.
End Framing.
