(* ===== verification/MqttV3.v ===== *)
(** * The MQTT 3.1 / 3.1.1 codec

    [ferromq-codec/src/v3]: the packets ([packet.rs]), their decoding
    ([decode.rs]), their encoding ([encode.rs]) and the framing codec
    ([codec.rs]).

    The theorems: decoding never panics and produces only well-formed packets;
    encoding a well-formed packet writes exactly the announced number of bytes
    and decoding them gives the packet back. *)

From stdpp Require Import base list numbers option.
From Stdlib Require Import ZArith Lia.
From S2P Require Import Prelude Errors Wire CodecTypes Framing.

#[local] Open Scope Z_scope.

(** ** Packets *)

Inductive ConnectAckReason : Type :=
| ConnectionAccepted | UnacceptableProtocolVersion | IdentifierRejected
| ServiceUnavailable | BadUserNameOrPassword | ConnNotAuthorized | Reserved.

Definition connack_try_from (v : Z) : outcome DecodeError ConnectAckReason :=
  match v with
  | 0 => Ok ConnectionAccepted
  | 1 => Ok UnacceptableProtocolVersion
  | 2 => Ok IdentifierRejected
  | 3 => Ok ServiceUnavailable
  | 4 => Ok BadUserNameOrPassword
  | 5 => Ok ConnNotAuthorized
  | 6 => Ok Reserved
  | _ => Err MalformedPacket
  end.

Definition connack_code (v : ConnectAckReason) : Z :=
  match v with
  | ConnectionAccepted => 0
  | UnacceptableProtocolVersion => 1
  | IdentifierRejected => 2
  | ServiceUnavailable => 3
  | BadUserNameOrPassword => 4
  | ConnNotAuthorized => 5
  | Reserved => 6
  end.

Record LastWill : Type := mkLastWill {
  will_qos : QoS;
  will_retain : bool;
  will_topic : bytes;
  will_message : bytes;
}.

Record Connect : Type := mkConnect {
  protocol : Protocol;
  clean_session : bool;
  keep_alive : Z;
  last_will : option LastWill;
  client_id : bytes;
  username : option bytes;
  password : option bytes;
  cert : option CertInfo;
}.

Record ConnectAck : Type := mkConnectAck {
  return_code : ConnectAckReason;
  session_present : bool;
}.

Inductive SubscribeReturnCode : Type := Success (q : QoS) | Failure.

Inductive Packet : Type :=
| PConnect (c : Connect)
| PConnectAck (a : ConnectAck)
| PPublish (p : Publish)
| PPublishAck (packet_id : Z)
| PPublishReceived (packet_id : Z)
| PPublishRelease (packet_id : Z)
| PPublishComplete (packet_id : Z)
| PSubscribe (packet_id : Z) (topic_filters : list (bytes * QoS))
| PSubscribeAck (packet_id : Z) (status : list SubscribeReturnCode)
| PUnsubscribe (packet_id : Z) (topic_filters : list bytes)
| PUnsubscribeAck (packet_id : Z)
| PPingRequest
| PPingResponse
| PDisconnect.

Definition packet_type (p : Packet) : Z :=
  match p with
  | PConnect _ => CONNECT
  | PConnectAck _ => CONNACK
  | PPublish _ => PUBLISH_START
  | PPublishAck _ => PUBACK
  | PPublishReceived _ => PUBREC
  | PPublishRelease _ => PUBREL
  | PPublishComplete _ => PUBCOMP
  | PSubscribe _ _ => SUBSCRIBE
  | PSubscribeAck _ _ => SUBACK
  | PUnsubscribe _ _ => UNSUBSCRIBE
  | PUnsubscribeAck _ => UNSUBACK
  | PPingRequest => PINGREQ
  | PPingResponse => PINGRESP
  | PDisconnect => DISCONNECT
  end.

(** ** Decoding *)

(** [&src.as_ref()[0..n] == name]: the slice panics out of range. *)
Definition slice_is (n : Z) (name : bytes) : reader bool := λ s,
  if n <=? len s then (Ok (bool_decide (take (Z.to_nat n) s = name)), s) else (Panic, s).

Definition decode_ack (f : Z → Packet) : reader Packet :=
  pid ← decode_nz_u16;
  r ← has_remaining; ensure (negb r) InvalidLength ;;
  mret (f pid).

(** The protocol name: its length has been read, and it must be one of the two. *)
Definition skip_protocol_name (n : Z) : reader unit :=
  is4 ← (if n =? 4 then slice_is 4 MQTT else mret false);
  if is4 : bool then advance 4 else
  is6 ← (if n =? 6 then slice_is 6 MQISDP else mret false);
  if is6 : bool then advance 6 else
  err InvalidProtocol.

Definition decode_will (flags : Z) : reader (option LastWill) :=
  if contains flags WILL then
    topic ← decode_string;
    message ← decode_bytes;
    q ← lift (qos_try_from (Z.shiftr (Z.land flags WILL_QOS) WILL_QOS_SHIFT));
    mret (Some (mkLastWill q (contains flags WILL_RETAIN) topic message))
  else mret None.

Definition decode_connect_packet : reader Packet :=
  r ← remaining; ensure (10 <=? r) InvalidLength ;;
  n ← get_u16;
  skip_protocol_name n ;;
  level ← get_u8;
  ensure ((level =? MQTT_LEVEL_311) || (level =? MQTT_LEVEL_31)) UnsupportedProtocolLevel ;;
  b ← get_u8;
  flags ← ok_or (flags_from_bits CONNECT_FLAGS_ALL b) ConnectReservedFlagSet;
  ensure (contains flags WILL
          || (negb (intersects flags WILL_QOS) && negb (contains flags WILL_RETAIN)))
         InvalidConnectFlags ;;
  keep_alive ← decode_u16;
  client_id ← decode_string;
  ensure (negb (bool_decide (client_id = [])) || contains flags CLEAN_START) InvalidClientId ;;
  last_will ← decode_will flags;
  username ← decode_if (contains flags USERNAME) decode_string;
  password ← decode_if (contains flags PASSWORD) decode_bytes;
  mret (PConnect (mkConnect (mkProtocol level) (contains flags CLEAN_START) keep_alive
                            last_will client_id username password None)).

Definition decode_connect_ack_packet : reader Packet :=
  r ← remaining; ensure (2 <=? r) InvalidLength ;;
  b ← get_u8;
  flags ← ok_or (flags_from_bits SESSION_PRESENT b) ConnAckReservedFlagSet;
  c ← get_u8;
  code ← lift (connack_try_from c);
  mret (PConnectAck (mkConnectAck code (contains flags SESSION_PRESENT))).

Definition decode_publish_packet (packet_flags : Z) : reader Packet :=
  topic ← decode_string;
  ensure (negb (bool_decide (topic = []))) InvalidTopicName ;;
  qos ← lift (qos_try_from (Z.shiftr (Z.land packet_flags 6) 1));
  pid ← decode_if (negb (bool_decide (qos = AtMostOnce))) decode_nz_u16;
  payload ← take_rest;
  mret (PPublish (mkPublish (Z.land packet_flags 8 =? 8) (Z.land packet_flags 1 =? 1)
                            qos topic pid payload None)).

(** One round of the SUBSCRIBE loop. *)
Definition subscribe_entry (acc : list (bytes * QoS)) : reader (list (bytes * QoS)) :=
  topic ← decode_string;
  ensure (negb (bool_decide (topic = []))) InvalidTopicFilter ;;
  r ← remaining; ensure (1 <=? r) InvalidLength ;;
  b ← get_u8;
  qos ← lift (qos_try_from (Z.land b 3));
  mret (acc ++ [(topic, qos)]).

Definition decode_subscribe_packet : reader Packet :=
  pid ← decode_nz_u16;
  topic_filters ← while_remaining subscribe_entry [];
  ensure (negb (bool_decide (topic_filters = []))) InvalidTopicFilter ;;
  mret (PSubscribe pid topic_filters).

Definition return_code_of (code : Z) : outcome DecodeError SubscribeReturnCode :=
  if code =? 128 then Ok Failure else outcome_map Success (qos_try_from code).

Definition decode_subscribe_ack_packet : reader Packet :=
  pid ← decode_nz_u16;
  src ← get_state;
  status ← lift (map_results return_code_of src);
  mret (PSubscribeAck pid status).

(** One round of the UNSUBSCRIBE loop. *)
Definition unsubscribe_entry (acc : list bytes) : reader (list bytes) :=
  topic ← decode_string;
  ensure (negb (bool_decide (topic = []))) InvalidTopicFilter ;;
  mret (acc ++ [topic]).

Definition decode_unsubscribe_packet : reader Packet :=
  pid ← decode_nz_u16;
  topic_filters ← while_remaining unsubscribe_entry [];
  ensure (negb (bool_decide (topic_filters = []))) InvalidTopicFilter ;;
  mret (PUnsubscribe pid topic_filters).

Definition decode_packet (first_byte : Z) : reader Packet :=
  if first_byte =? CONNECT then decode_connect_packet
  else if first_byte =? CONNACK then decode_connect_ack_packet
  else if between PUBLISH_START PUBLISH_END first_byte then
    decode_publish_packet (Z.land first_byte 15)
  else if first_byte =? PUBACK then decode_ack PPublishAck
  else if first_byte =? PUBREC then decode_ack PPublishReceived
  else if first_byte =? PUBREL then decode_ack PPublishRelease
  else if first_byte =? PUBCOMP then decode_ack PPublishComplete
  else if first_byte =? SUBSCRIBE then decode_subscribe_packet
  else if first_byte =? SUBACK then decode_subscribe_ack_packet
  else if first_byte =? UNSUBSCRIBE then decode_unsubscribe_packet
  else if first_byte =? UNSUBACK then decode_ack PUnsubscribeAck
  else if first_byte =? PINGREQ then mret PPingRequest
  else if first_byte =? PINGRESP then mret PPingResponse
  else if first_byte =? DISCONNECT then mret PDisconnect
  else err UnsupportedPacketType.

(** ** Encoding *)

Definition get_encoded_publish_size (p : Publish) : Z :=
  if bool_decide (qos p = AtLeastOnce) || bool_decide (qos p = ExactlyOnce)
  then 4 + len (topic p) + len (payload p)
  else 2 + len (topic p) + len (payload p).

Definition get_encoded_subscribe_size (topic_filters : list (bytes * QoS)) : Z :=
  2 + foldl (λ acc '(filter, _), acc + 2 + len filter + 1) 0 topic_filters.

Definition get_encoded_unsubscribe_size (topic_filters : list bytes) : Z :=
  2 + foldl (λ acc filter, acc + 2 + len filter) 0 topic_filters.

Definition get_encoded_size (packet : Packet) : Z :=
  match packet with
  | PConnect c =>
      1 + 1 + 2
      + (2 + len (protocol_name (protocol c)))
      + (2 + len (client_id c))
      + match last_will c with
        | Some w => 2 + len (will_topic w) + 2 + len (will_message w) | None => 0 end
      + match username c with Some s => 2 + len s | None => 0 end
      + match password c with Some s => 2 + len s | None => 0 end
  | PPublish p => get_encoded_publish_size p
  | PConnectAck _ | PPublishAck _ | PPublishReceived _ | PPublishRelease _
  | PPublishComplete _ | PUnsubscribeAck _ => 2
  | PSubscribe _ topic_filters => get_encoded_subscribe_size topic_filters
  | PSubscribeAck _ status => 2 + len status
  | PUnsubscribe _ topic_filters => get_encoded_unsubscribe_size topic_filters
  | PPingRequest | PPingResponse | PDisconnect => 0
  end.

(** The connect flags byte: the flags that are set, or-ed in the order of the
    code. *)
Definition connect_flags (c : Connect) : Z :=
  let flags := 0 in
  let flags := match username c with Some _ => Z.lor flags USERNAME | None => flags end in
  let flags := match password c with Some _ => Z.lor flags PASSWORD | None => flags end in
  let flags :=
    match last_will c with
    | Some w =>
        let flags := Z.lor flags WILL in
        let flags := if will_retain w then Z.lor flags WILL_RETAIN else flags in
        Z.lor flags (flags_truncate CONNECT_FLAGS_ALL
                       (Z.shiftl (qos_value (will_qos w)) WILL_QOS_SHIFT))
    | None => flags
    end in
  if clean_session c then Z.lor flags CLEAN_START else flags.

Definition encode_connect (c : Connect) : writer :=
  encode_bytes (protocol_name (protocol c)) ;;
  put_slice [MQTT_LEVEL_311; connect_flags c] ;;
  put_u16 (keep_alive c) ;;
  encode_bytes (client_id c) ;;
  match last_will c with
  | Some w => encode_bytes (will_topic w) ;; encode_bytes (will_message w)
  | None => mret tt
  end ;;
  match username c with Some s => encode_bytes s | None => mret tt end ;;
  match password c with Some s => encode_bytes s | None => mret tt end.

Definition publish_first_byte (p : Publish) : Z :=
  Z.lor (Z.lor (Z.lor PUBLISH_START (Z.shiftl (qos_value (qos p)) 1))
               (Z.shiftl (if dup p then 1 else 0) 3))
        (if retain p then 1 else 0).

(** A packet that is just its identifier. *)
Definition encode_ack (ty pid content_size : Z) : writer :=
  put_u8 ty ;; write_variable_length content_size ;; encode_u16 pid.

Definition status_code (s : SubscribeReturnCode) : Z :=
  match s with Success q => qos_value q | Failure => 128 end.

Definition encode (packet : Packet) (content_size : Z) : writer :=
  match packet with
  | PConnect c =>
      put_u8 CONNECT ;; write_variable_length content_size ;; encode_connect c
  | PConnectAck a =>
      put_u8 CONNACK ;; write_variable_length content_size ;;
      put_slice [if session_present a then 1 else 0; connack_code (return_code a)]
  | PPublish p =>
      put_u8 (publish_first_byte p) ;;
      write_variable_length content_size ;;
      encode_bytes (topic p) ;;
      (if bool_decide (qos p = AtMostOnce) then
         match packet_id p with Some _ => err EncMalformedPacket | None => mret tt end
       else
         pid ← ok_or (packet_id p) EncPacketIdRequired; encode_u16 pid) ;;
      put_slice (payload p)
  | PPublishAck pid => encode_ack PUBACK pid content_size
  | PPublishReceived pid => encode_ack PUBREC pid content_size
  | PPublishRelease pid => encode_ack PUBREL pid content_size
  | PPublishComplete pid => encode_ack PUBCOMP pid content_size
  | PSubscribe pid topic_filters =>
      put_u8 SUBSCRIBE ;; write_variable_length content_size ;; encode_u16 pid ;;
      for_each (λ '(filter, qos), encode_bytes filter ;; put_u8 (qos_value qos)) topic_filters
  | PSubscribeAck pid status =>
      put_u8 SUBACK ;; write_variable_length content_size ;; encode_u16 pid ;;
      put_slice (map status_code status)
  | PUnsubscribe pid topic_filters =>
      put_u8 UNSUBSCRIBE ;; write_variable_length content_size ;; encode_u16 pid ;;
      for_each encode_bytes topic_filters
  | PUnsubscribeAck pid => encode_ack UNSUBACK pid content_size
  | PPingRequest => put_slice [PINGREQ; 0]
  | PPingResponse => put_slice [PINGRESP; 0]
  | PDisconnect => put_slice [DISCONNECT; 0]
  end.

(** ** The codec *)

Record Codec : Type := mkCodec {
  state : DecodeState;
  max_size : Z;
}.

Definition codec_new (max_packet_size : Z) : Codec := mkCodec FrameHeader max_packet_size.
Definition set_max_size (c : Codec) (size : Z) : Codec := mkCodec (state c) size.
Definition codec_default : Codec := codec_new 0.

Definition codec_decode (c : Codec) (src : bytes)
    : outcome DecodeError (option (Packet * Z)) * (Codec * bytes) :=
  let '(r, (st, src)) := frame_decode decode_packet (max_size c) (state c) src in
  (r, (mkCodec st (max_size c), src)).

Definition codec_encode (item : Packet) : writer :=
  match item with
  | PPublish p =>
      ensure (negb ((bool_decide (qos p = AtLeastOnce) || bool_decide (qos p = ExactlyOnce))
                    && bool_decide (packet_id p = None))) EncPacketIdRequired
  | _ => mret tt
  end ;;
  let content_size := get_encoded_size item in
  encode item (as_u32 content_size).

(** ** Well-formed packets

    The invariant of the Rust types (integer widths, UTF-8 strings, [NonZero])
    together with what the protocol asks of each packet and the decoder
    enforces. *)

Definition nonempty_string (b : bytes) : Prop := string_wf b ∧ b ≠ [].

Definition will_wf (w : LastWill) : Prop :=
  string_wf (will_topic w) ∧ blob_wf (will_message w).

Definition connect_wf (c : Connect) : Prop :=
  u8_range (level (protocol c)) ∧
  u16_range (keep_alive c) ∧
  string_wf (client_id c) ∧
  (client_id c ≠ [] ∨ clean_session c = true) ∧
  from_option will_wf True (last_will c) ∧
  from_option string_wf True (username c) ∧
  from_option blob_wf True (password c).

Definition publish_wf (p : Publish) : Prop :=
  nonempty_string (topic p) ∧
  match qos p with
  | AtMostOnce => packet_id p = None
  | _ => ∃ pid, packet_id p = Some pid ∧ nz_u16 pid
  end ∧
  bytes_ok (payload p) ∧
  properties p = None.

Definition packet_wf (p : Packet) : Prop :=
  match p with
  | PConnect c => connect_wf c
  | PPublish p => publish_wf p
  | PPublishAck pid | PPublishReceived pid | PPublishRelease pid
  | PPublishComplete pid | PUnsubscribeAck pid | PSubscribeAck pid _ => nz_u16 pid
  | PSubscribe pid fs => nz_u16 pid ∧ fs ≠ [] ∧ Forall (λ f, nonempty_string f.1) fs
  | PUnsubscribe pid fs => nz_u16 pid ∧ fs ≠ [] ∧ Forall nonempty_string fs
  | _ => True
  end.

(** What reaches the other side: the encoder always announces level 4, and the
    certificate is local to a connection. *)
Definition received (p : Packet) : Packet :=
  match p with
  | PConnect c =>
      PConnect (mkConnect (mkProtocol MQTT_LEVEL_311) (clean_session c) (keep_alive c)
                          (last_will c) (client_id c) (username c) (password c) None)
  | _ => p
  end.

(** The bytes of a packet: first byte of the fixed header, and body. *)
Definition first_of (p : Packet) : Z :=
  match p with PPublish p => publish_first_byte p | _ => packet_type p end.

Definition body_of (p : Packet) : bytes :=
  match p with
  | PConnect c =>
      prefixed (protocol_name (protocol c)) ++ [MQTT_LEVEL_311; connect_flags c]
      ++ be16 (keep_alive c) ++ prefixed (client_id c)
      ++ from_option (λ w, prefixed (will_topic w) ++ prefixed (will_message w)) [] (last_will c)
      ++ opt_prefixed (username c) ++ opt_prefixed (password c)
  | PConnectAck a => [if session_present a then 1 else 0; connack_code (return_code a)]
  | PPublish p => prefixed (topic p) ++ from_option be16 [] (packet_id p) ++ payload p
  | PPublishAck pid | PPublishReceived pid | PPublishRelease pid
  | PPublishComplete pid | PUnsubscribeAck pid => be16 pid
  | PSubscribe pid fs => be16 pid ++ concat (map (λ f, prefixed f.1 ++ [qos_value f.2]) fs)
  | PSubscribeAck pid status => be16 pid ++ map status_code status
  | PUnsubscribe pid fs => be16 pid ++ concat (map prefixed fs)
  | PPingRequest | PPingResponse | PDisconnect => []
  end.

(** ** Sizes *)

Lemma subscribe_size_eq fs n :
  foldl (λ acc '(filter, _), acc + 2 + len filter + 1) n fs =
    n + len (concat (map (λ f : bytes * QoS, prefixed f.1 ++ [qos_value f.2]) fs)).
Proof.
  revert n. induction fs as [|[f q] fs IH]; intros n; cbn [foldl map concat].
  - rewrite len_nil. lia.
  - rewrite IH, !len_app, len_prefixed, len_cons, len_nil. simpl. lia.
Qed.

Lemma unsubscribe_size_eq fs n :
  foldl (λ acc filter, acc + 2 + len filter) n fs = n + len (concat (map prefixed fs)).
Proof.
  revert n. induction fs as [|f fs IH]; intros n; cbn [foldl map concat].
  - rewrite len_nil. lia.
  - rewrite IH, !len_app, len_prefixed. lia.
Qed.

Lemma body_of_len p : packet_wf p → len (body_of p) = get_encoded_size p.
Proof.
  intros Hwf. destruct p; simpl; autorewrite with len; try done.
  - unfold opt_prefixed. destruct (last_will c), (username c), (password c); simpl;
      autorewrite with len; lia.
  - destruct Hwf as (_ & Hid & _ & _). unfold get_encoded_publish_size.
    destruct (qos p); simpl;
      [rewrite Hid|destruct Hid as (pid & -> & _)..]; simpl; autorewrite with len; lia.
  - unfold get_encoded_subscribe_size. rewrite subscribe_size_eq. lia.
  - unfold len. by rewrite length_map.
  - unfold get_encoded_unsubscribe_size. rewrite unsubscribe_size_eq. lia.
Qed.

(** ** Encoding writes the announced bytes *)

Lemma writes_connect c : connect_wf c → writes (encode_connect c) (body_of (PConnect c)).
Proof.
  intros (Hlev & Hka & Hid & _ & Hwill & Huser & Hpass).
  unfold encode_connect. cbn [body_of].
  apply writes_bind; [apply writes_blob, protocol_name_wf|].
  apply writes_bind; [apply writes_put_slice|].
  apply writes_bind; [apply writes_put_u16|].
  apply writes_bind; [by apply writes_string|].
  apply writes_bind.
  { destruct (last_will c) as [w|]; simpl; [|apply writes_ret].
    destruct Hwill. apply writes_bind; eauto with wire. }
  apply writes_bind; [by apply writes_opt_string|by apply writes_opt_bytes].
Qed.

Lemma writes_encode p :
  packet_wf p → get_encoded_size p ≤ VARINT_MAX →
  writes (encode p (get_encoded_size p))
         (first_of p :: varint (get_encoded_size p) ++ body_of p).
Proof.
  intros Hwf Hmax. rewrite <-(body_of_len p) in * by done.
  assert (Hv : 0 ≤ len (body_of p) ≤ VARINT_MAX) by (pose proof (len_nonneg (body_of p)); lia).
  destruct p; simpl encode; unfold encode_ack;
    try (apply (writes_bind _ _ [_]); [apply writes_put_u8|];
         apply writes_bind; [by apply writes_varint|]);
    try (apply writes_put_u16 || apply writes_put_slice).
  - by apply writes_connect.
  - destruct Hwf as ([Ht _] & Hid & _ & _). cbn [body_of].
    apply writes_bind; [by apply writes_string|]. apply writes_bind; [|apply writes_put_slice].
    destruct (qos p); simpl; [rewrite Hid; apply writes_ret|
      destruct Hid as (pid & -> & _); apply writes_put_u16..].
  - destruct Hwf as (_ & _ & Hfs). cbn [body_of]. apply writes_bind; [apply writes_put_u16|].
    apply writes_for_each. eapply Forall_impl; [|exact Hfs].
    intros [f q] [Hf _]. apply writes_bind; [by apply writes_string|apply writes_put_u8].
  - apply writes_bind; [apply writes_put_u16|apply writes_put_slice].
  - destruct Hwf as (_ & _ & Hfs). cbn [body_of]. apply writes_bind; [apply writes_put_u16|].
    apply writes_for_each. eapply Forall_impl; [|exact Hfs].
    intros f [Hf _]. by apply writes_string.
Qed.

(** ** Decoding what was encoded *)

Lemma connect_flags_spec c :
  let f := connect_flags c in
  flags_from_bits CONNECT_FLAGS_ALL f = Some f ∧
  contains f WILL = is_some (last_will c) ∧
  (contains f WILL || (negb (intersects f WILL_QOS) && negb (contains f WILL_RETAIN))) = true ∧
  contains f CLEAN_START = clean_session c ∧
  contains f USERNAME = is_some (username c) ∧
  contains f PASSWORD = is_some (password c) ∧
  ∀ w, last_will c = Some w →
    contains f WILL_RETAIN = will_retain w ∧
    qos_try_from (Z.shiftr (Z.land f WILL_QOS) WILL_QOS_SHIFT) = Ok (will_qos w).
Proof.
  destruct c as [? [] ? [[[] [] ??]|] ? [?|] [?|] ?]; vm_compute;
    repeat split; intros; simplify_eq; done.
Qed.

Lemma skip_name p rest :
  skip_protocol_name (len (protocol_name p)) (protocol_name p ++ rest) = (Ok tt, rest).
Proof.
  unfold skip_protocol_name.
  destruct (protocol_name_cases p) as [-> | ->]; simpl Z.eqb; cbn match.
  - erewrite bind_ok.
    2:{ unfold slice_is. rewrite (proj2 (Z.leb_le _ _)) by (len_tac; lia).
        by rewrite (take_app_length' MQTT). }
    rewrite bool_decide_true by done. unfold advance.
    rewrite (proj2 (Z.leb_le _ _)) by (len_tac; lia). by rewrite (drop_app_length' MQTT).
  - erewrite bind_ok by done. cbv beta iota. erewrite bind_ok.
    2:{ unfold slice_is. rewrite (proj2 (Z.leb_le _ _)) by (len_tac; lia).
        by rewrite (take_app_length' MQISDP). }
    rewrite bool_decide_true by done. unfold advance.
    rewrite (proj2 (Z.leb_le _ _)) by (len_tac; lia). by rewrite (drop_app_length' MQISDP).
Qed.

Lemma decode_will_spec c rest :
  from_option will_wf True (last_will c) →
  decode_will (connect_flags c)
    (from_option (λ w, prefixed (will_topic w) ++ prefixed (will_message w)) [] (last_will c)
     ++ rest) = (Ok (last_will c), rest).
Proof.
  intros Hw. destruct (connect_flags_spec c) as (_ & Hwill & _ & _ & _ & _ & Hspec).
  unfold decode_will. rewrite Hwill. destruct (last_will c) as [w|]; [|done].
  destruct Hw as [Ht Hm]. destruct (Hspec w eq_refl) as [Hr Hq]. simpl.
  rewrite <-app_assoc. erewrite bind_ok by by apply (wire_decode (w := string_w)).
  erewrite bind_ok by by apply (wire_decode (w := bytes_w)).
  rewrite Hq, Hr. by destruct w.
Qed.

Lemma decode_connect_body c :
  connect_wf c → fst (decode_connect_packet (body_of (PConnect c))) = Ok (received (PConnect c)).
Proof.
  intros (Hlev & Hka & Hid & Hclean & Hwill & Huser & Hpass).
  destruct (connect_flags_spec c) as (Hbits & _ & Hcons & Hcs & Hu & Hp & _).
  unfold decode_connect_packet. cbn [body_of]. rewrite prefixed_app.
  erewrite bind_ok by done.
  erewrite bind_ok.
  2:{ apply ensure_holds, Z.leb_le.
      destruct (protocol_name_cases (protocol c)) as [-> | ->]; len_tac; lia. }
  erewrite bind_ok.
  2:{ apply get_u16_be16. destruct (protocol_name_wf (protocol c)).
      pose proof (len_nonneg (protocol_name (protocol c))). range_lia. }
  erewrite bind_ok by apply skip_name. cbn [app].
  erewrite bind_ok by done. erewrite bind_ok by done. erewrite bind_ok by done.
  rewrite Hbits. erewrite bind_ok by done.
  erewrite bind_ok by by apply ensure_holds.
  erewrite bind_ok by by apply decode_u16_be16.
  erewrite bind_ok by by apply (wire_decode (w := string_w)).
  erewrite bind_ok.
  2:{ apply ensure_holds. rewrite Hcs. destruct Hclean as [Hne | ->]; [|apply orb_true_r].
      by rewrite bool_decide_false. }
  erewrite bind_ok by by apply decode_will_spec.
  rewrite Hu, Hp. erewrite bind_ok by by apply (decode_opt_prefixed (w := string_w)).
  rewrite <-(app_nil_r (opt_prefixed (password c))).
  erewrite bind_ok by by apply (decode_opt_prefixed (w := bytes_w)).
  simpl. by rewrite Hcs.
Qed.

Lemma decode_ack_body f pid :
  nz_u16 pid → fst (decode_ack f (be16 pid)) = Ok (f pid).
Proof.
  intros. unfold decode_ack. rewrite <-(app_nil_r (be16 pid)).
  by erewrite bind_ok by by apply (wire_decode (w := nz_u16_w)).
Qed.

Lemma publish_first_byte_spec p :
  let b := publish_first_byte p in
  between PUBLISH_START PUBLISH_END b = true ∧
  qos_try_from (Z.shiftr (Z.land (Z.land b 15) 6) 1) = Ok (qos p) ∧
  (Z.land (Z.land b 15) 8 =? 8) = dup p ∧
  (Z.land (Z.land b 15) 1 =? 1) = retain p.
Proof. destruct p as [[] [] [] ????]; done. Qed.

Lemma decode_publish_body p :
  publish_wf p →
  fst (decode_publish_packet (Z.land (publish_first_byte p) 15) (body_of (PPublish p))) =
    Ok (PPublish p).
Proof.
  intros ([Ht Hne] & Hid & _ & Hprops).
  destruct (publish_first_byte_spec p) as (_ & Hq & Hd & Hr).
  unfold decode_publish_packet. cbn [body_of].
  erewrite bind_ok by by apply (wire_decode (w := string_w)).
  erewrite bind_ok by (apply ensure_holds; by rewrite bool_decide_false).
  rewrite Hq, Hd, Hr. erewrite bind_ok by done.
  rewrite (bind_ok _ _ _ (packet_id p) (payload p)).
  - destruct p; simpl in *. by subst.
  - unfold decode_if. destruct (qos p); simpl; [by rewrite Hid|
      destruct Hid as (n & -> & Hn); by erewrite bind_ok by by apply (wire_decode (w := nz_u16_w))..].
Qed.

Lemma subscribe_entry_spec f q acc rest :
  nonempty_string f →
  subscribe_entry acc ((prefixed f ++ [qos_value q]) ++ rest) = (Ok (acc ++ [(f, q)]), rest).
Proof.
  intros [Hf Hne]. unfold subscribe_entry. rewrite <-app_assoc.
  erewrite bind_ok by by apply (wire_decode (w := string_w)).
  erewrite bind_ok by (apply ensure_holds; by rewrite bool_decide_false).
  erewrite bind_ok by done. guard_leb. erewrite bind_ok by done.
  by destruct q.
Qed.

Lemma unsubscribe_entry_spec f acc rest :
  nonempty_string f → unsubscribe_entry acc (prefixed f ++ rest) = (Ok (acc ++ [f]), rest).
Proof.
  intros [Hf Hne]. unfold unsubscribe_entry.
  erewrite bind_ok by by apply (wire_decode (w := string_w)).
  by erewrite bind_ok by (apply ensure_holds; by rewrite bool_decide_false).
Qed.

Lemma map_return_codes status : map_results return_code_of (map status_code status) = Ok status.
Proof. induction status as [|[[]|] status IH]; simpl; rewrite ?IH; done. Qed.

Lemma decode_packet_body p :
  packet_wf p → fst (decode_packet (first_of p) (body_of p)) = Ok (received p).
Proof.
  intros Hwf. destruct p; try (by apply decode_ack_body); try done.
  - by apply decode_connect_body.
  - by destruct a as [[] []].
  - destruct (publish_first_byte_spec p) as (Hb & _).
    unfold decode_packet, first_of.
    rewrite (proj2 (Z.eqb_neq _ CONNECT)), (proj2 (Z.eqb_neq _ CONNACK)), Hb;
      [by apply decode_publish_body|..];
      intros He; rewrite He in Hb; done.
  - destruct Hwf as (Hid & Hne & Hfs). change (decode_packet _) with decode_subscribe_packet.
    unfold decode_subscribe_packet. cbn [body_of].
    erewrite bind_ok by by apply (wire_decode (w := nz_u16_w)).
    erewrite bind_ok.
    2:{ apply while_reads. eapply Forall_impl; [|exact Hfs]. intros [f q] Hf.
        split; [apply prefixed_not_nil|]. intros. by apply subscribe_entry_spec. }
    by erewrite bind_ok by (apply ensure_holds; by rewrite bool_decide_false).
  - change (decode_packet _) with decode_subscribe_ack_packet.
    unfold decode_subscribe_ack_packet. cbn [body_of].
    erewrite bind_ok by by apply (wire_decode (w := nz_u16_w)).
    erewrite bind_ok by done. by rewrite map_return_codes.
  - destruct Hwf as (Hid & Hne & Hfs). change (decode_packet _) with decode_unsubscribe_packet.
    unfold decode_unsubscribe_packet. cbn [body_of].
    erewrite bind_ok by by apply (wire_decode (w := nz_u16_w)).
    erewrite bind_ok.
    2:{ apply while_reads. eapply Forall_impl; [|exact Hfs]. intros f Hf.
        split; [rewrite <-(app_nil_r (prefixed f)); apply prefixed_not_nil|].
        intros. by apply unsubscribe_entry_spec. }
    by erewrite bind_ok by (apply ensure_holds; by rewrite bool_decide_false).
Qed.

(** ** Decoding arbitrary bytes *)

Lemma wp_decode_ack f s :
  bytes_ok s → wp (decode_ack f) s (λ p _, ∃ pid, p = f pid ∧ nz_u16 pid).
Proof.
  intros Hs. unfold decode_ack. apply wp_bind, (wp_wire nz_u16_w); [done|].
  intros pid s' Hpid _ _ _. apply wp_bind, wp_has_remaining, wp_bind, wp_ensure.
  intros _. apply wp_ret. by exists pid.
Qed.

Lemma wp_skip_name n s (Q : unit → bytes → Prop) :
  8 ≤ len s → bytes_ok s →
  (∀ s', 2 ≤ len s' → bytes_ok s' → Q tt s') → wp (skip_protocol_name n) s Q.
Proof.
  intros Hlen Hs HQ. unfold skip_protocol_name, slice_is.
  assert (Hadv : ∀ k, 0 ≤ k ≤ 6 → wp (advance k) s Q).
  { intros k Hk. unfold wp, advance. rewrite (proj2 (Z.leb_le _ _)) by lia.
    apply HQ; [|by apply bytes_ok_drop]. unfold len in *. rewrite length_drop. lia. }
  apply wp_bind. unfold wp at 1. destruct (n =? 4).
  - rewrite (proj2 (Z.leb_le _ _)) by lia. cbv beta.
    destruct (bool_decide _); [apply Hadv; lia|]. apply wp_bind. unfold wp at 1.
    destruct (n =? 6); [|done]. rewrite (proj2 (Z.leb_le _ _)) by lia. cbv beta.
    destruct (bool_decide _); [apply Hadv; lia|done].
  - cbv beta. simpl. apply wp_bind. unfold wp at 1.
    destruct (n =? 6); [|done]. rewrite (proj2 (Z.leb_le _ _)) by lia. cbv beta.
    destruct (bool_decide _); [apply Hadv; lia|done].
Qed.

Lemma wp_decode_will flags s (Q : option LastWill → bytes → Prop) :
  bytes_ok s →
  (∀ w s', from_option will_wf True w → bytes_ok s' → Q w s') →
  wp (decode_will flags) s Q.
Proof.
  intros Hs HQ. unfold decode_will. destruct (contains flags WILL); [|by apply wp_ret, HQ].
  apply wp_bind, (wp_wire string_w); [done|]. intros t s1 Ht _ Hs1 _.
  apply wp_bind, (wp_wire bytes_w); [done|]. intros m s2 Hm _ Hs2 _.
  apply wp_bind, wp_lift; [apply qos_try_from_no_panic|]. intros q _. by apply wp_ret, HQ.
Qed.

Lemma wp_decode_connect s :
  bytes_ok s → wp decode_connect_packet s (λ p _, packet_wf p).
Proof.
  intros Hs. unfold decode_connect_packet.
  apply wp_bind, wp_remaining, wp_bind, wp_ensure. intros Hlen%Z.leb_le.
  destruct s as [|b1 [|b0 s]]; [done..|]. rewrite !len_cons in Hlen.
  rewrite !bytes_ok_cons in Hs. destruct Hs as (_ & _ & Hs).
  apply wp_bind. unfold wp at 1; cbn [get_u16].
  apply wp_bind, wp_skip_name; [lia|done|]. clear s Hlen Hs. intros s Hlen Hs.
  destruct s as [|lev [|b s]]; [done..|]. rewrite !bytes_ok_cons in Hs.
  destruct Hs as (Hlev & _ & Hs). apply wp_bind. unfold wp at 1; cbn [get_u8].
  apply wp_bind, wp_ensure. intros _. apply wp_bind. unfold wp at 1; cbn [get_u8].
  apply wp_bind, wp_ok_or. intros flags _. apply wp_bind, wp_ensure. intros _.
  apply wp_bind, (wp_wire u16_w); [done|]. intros ka s1 Hka _ Hs1 _.
  apply wp_bind, (wp_wire string_w); [done|]. intros cid s2 Hcid _ Hs2 _.
  apply wp_bind, wp_ensure. intros Hclean.
  apply wp_bind, wp_decode_will; [done|]. intros w s3 Hw Hs3.
  apply wp_bind, (wp_mono _ _ (λ o s, from_option string_wf True o ∧ bytes_ok s)).
  { apply wp_decode_if; [|done]. intros _. by apply (wp_wire string_w). }
  intros user s4 [Huser Hs4].
  apply wp_bind, (wp_mono _ _ (λ o s, from_option blob_wf True o ∧ bytes_ok s)).
  { apply wp_decode_if; [|done]. intros _. by apply (wp_wire bytes_w). }
  intros pass s5 [Hpass Hs5]. apply wp_ret. repeat split; simpl; try done; try apply Hlev;
    try apply Hka; try apply Hcid.
  apply orb_true_iff in Hclean as [Hne%negb_true_iff%bool_decide_eq_false| ->]; auto.
Qed.

Lemma connack_try_from_no_panic v : connack_try_from v ≠ Panic.
Proof. unfold connack_try_from. by repeat case_match. Qed.

Lemma wp_decode_connect_ack s : wp decode_connect_ack_packet s (λ p _, packet_wf p).
Proof.
  unfold decode_connect_ack_packet. apply wp_bind, wp_remaining, wp_bind, wp_ensure.
  intros Hlen. destruct s as [|b [|c s]]; [done..|].
  apply wp_bind. unfold wp at 1; cbn [get_u8]. apply wp_bind, wp_ok_or. intros flags _.
  apply wp_bind. unfold wp at 1; cbn [get_u8].
  apply wp_bind, wp_lift; [apply connack_try_from_no_panic|]. intros. by apply wp_ret.
Qed.

Lemma wp_decode_publish flags s :
  bytes_ok s → wp (decode_publish_packet flags) s (λ p _, packet_wf p).
Proof.
  intros Hs. unfold decode_publish_packet.
  apply wp_bind, (wp_wire string_w); [done|]. intros t s1 Ht _ Hs1 _.
  apply wp_bind, wp_ensure. intros Hne%negb_true_iff%bool_decide_eq_false.
  apply wp_bind, wp_lift; [apply qos_try_from_no_panic|]. intros q _.
  apply wp_bind, (wp_mono _ _ (λ o s, bytes_ok s ∧
    match q with AtMostOnce => o = None | _ => ∃ pid, o = Some pid ∧ nz_u16 pid end)).
  { apply wp_decode_if.
    - intros Hq. apply (wp_wire nz_u16_w); [done|]. intros pid s2 Hpid _ Hs2 _.
      split; [done|]. destruct q; [by rewrite bool_decide_true in Hq|eauto..].
    - intros Hq%negb_false_iff%bool_decide_eq_true. by subst q. }
  intros pid s2 [Hs2 Hpid]. apply wp_bind, wp_take_rest, wp_ret.
  split; [by split|]. by split; [|split].
Qed.

Lemma wp_decode_subscribe s :
  bytes_ok s → wp decode_subscribe_packet s (λ p _, packet_wf p).
Proof.
  intros Hs. unfold decode_subscribe_packet.
  apply wp_bind, (wp_wire nz_u16_w); [done|]. intros pid s1 Hpid _ Hs1 _.
  apply wp_bind. eapply wp_mono.
  { apply (wp_while _ (λ fs s, bytes_ok s ∧ Forall (λ f, nonempty_string f.1) fs)); [|done].
    intros acc s2 [Hs2 Hacc] _. unfold subscribe_entry.
    apply wp_bind, (wp_wire string_w); [done|]. intros t s3 Ht _ Hs3 Hlen. simpl in Hlen.
    apply wp_bind, wp_ensure. intros Hne%negb_true_iff%bool_decide_eq_false.
    apply wp_bind, wp_remaining, wp_bind, wp_ensure. intros H1.
    destruct s3 as [|b s3]; [done|]. apply bytes_ok_cons in Hs3 as [_ Hs3].
    apply wp_bind. unfold wp at 1; cbn [get_u8].
    apply wp_bind, wp_lift; [apply qos_try_from_no_panic|]. intros q _. apply wp_ret.
    rewrite len_cons in Hlen. pose proof (len_nonneg t). unfold len in Hlen.
    split; [|lia]. split; [done|]. apply Forall_app. split; [done|]. by apply Forall_singleton. }
  intros fs s' (_ & _ & Hfs). apply wp_bind, wp_ensure.
  intros Hne%negb_true_iff%bool_decide_eq_false. by apply wp_ret.
Qed.

Lemma return_code_of_no_panic c : return_code_of c ≠ Panic.
Proof.
  unfold return_code_of. pose proof (qos_try_from_no_panic c).
  case_match; [done|]. by destruct (qos_try_from c).
Qed.

Lemma wp_decode_subscribe_ack s :
  bytes_ok s → wp decode_subscribe_ack_packet s (λ p _, packet_wf p).
Proof.
  intros Hs. unfold decode_subscribe_ack_packet.
  apply wp_bind, (wp_wire nz_u16_w); [done|]. intros pid s1 Hpid _ Hs1 _.
  apply wp_bind. unfold wp at 1; cbn [get_state].
  apply wp_bind, wp_lift; [apply map_results_no_panic, return_code_of_no_panic|].
  intros. by apply wp_ret.
Qed.

Lemma wp_decode_unsubscribe s :
  bytes_ok s → wp decode_unsubscribe_packet s (λ p _, packet_wf p).
Proof.
  intros Hs. unfold decode_unsubscribe_packet.
  apply wp_bind, (wp_wire nz_u16_w); [done|]. intros pid s1 Hpid _ Hs1 _.
  apply wp_bind. eapply wp_mono.
  { apply (wp_while _ (λ fs s, bytes_ok s ∧ Forall nonempty_string fs)); [|done].
    intros acc s2 [Hs2 Hacc] _. unfold unsubscribe_entry.
    apply wp_bind, (wp_wire string_w); [done|]. intros t s3 Ht _ Hs3 Hlen. simpl in Hlen.
    apply wp_bind, wp_ensure. intros Hne%negb_true_iff%bool_decide_eq_false. apply wp_ret.
    pose proof (len_nonneg t). unfold len in Hlen.
    split; [|lia]. split; [done|]. apply Forall_app. split; [done|]. by apply Forall_singleton. }
  intros fs s' (_ & _ & Hfs). apply wp_bind, wp_ensure.
  intros Hne%negb_true_iff%bool_decide_eq_false. by apply wp_ret.
Qed.

Lemma wp_decode_packet fb s :
  bytes_ok s → wp (decode_packet fb) s (λ p _, packet_wf p).
Proof.
  intros Hs. unfold decode_packet.
  assert (Hack : ∀ f, (∀ pid, nz_u16 pid → packet_wf (f pid)) →
            wp (decode_ack f) s (λ p _, packet_wf p)).
  { intros f Hf. eapply wp_mono; [by apply wp_decode_ack|]. intros p _ (pid & -> & ?). by apply Hf. }
  repeat (apply wp_if; intros ?);
    auto using wp_decode_connect, wp_decode_connect_ack, wp_decode_publish,
      wp_decode_subscribe, wp_decode_subscribe_ack, wp_decode_unsubscribe, wp_ret, wp_err.
  all: try (by apply wp_ret). all: by apply wp_err.
Qed.

(** ** Properties of the codec *)

Definition frame_of (p : Packet) : bytes :=
  first_of p :: varint (get_encoded_size p) ++ body_of p.

Lemma publish_id_check p :
  publish_wf p →
  negb ((bool_decide (qos p = AtLeastOnce) || bool_decide (qos p = ExactlyOnce))
        && bool_decide (packet_id p = None)) = true.
Proof.
  intros (_ & Hid & _). destruct (qos p); simpl; [done|destruct Hid as (? & -> & _); done..].
Qed.

(** The guard of [codec_encode] passes on a well-formed packet. *)
Lemma codec_encode_wf p :
  packet_wf p → get_encoded_size p < 2 ^ 32 →
  ∀ dst, codec_encode p dst = encode p (get_encoded_size p) dst.
Proof.
  intros Hwf Hmax dst. unfold codec_encode.
  rewrite (bind_ok _ _ _ tt dst).
  - rewrite as_u32_small; [done|]. rewrite <-(body_of_len p) in * by done.
    pose proof (len_nonneg (body_of p)). lia.
  - destruct p; try done. apply ensure_holds. by apply publish_id_check.
Qed.

Lemma writes_codec_encode p :
  packet_wf p → get_encoded_size p ≤ VARINT_MAX → writes (codec_encode p) (frame_of p).
Proof.
  intros Hwf Hmax dst. rewrite codec_encode_wf by (unfold VARINT_MAX in *; lia || done).
  by apply writes_encode.
Qed.

(** A frame that the receiver accepts under its size limit. *)
Definition sendable (limit : Z) (p : Packet) : Prop :=
  packet_wf p ∧ get_encoded_size p ≤ VARINT_MAX ∧ (limit = 0 ∨ get_encoded_size p ≤ limit).


Definition example_publish : Packet :=
  PPublish (mkPublish true true ExactlyOnce [116; 111; 112; 105; 99] (Some 17185)
                      [100; 97; 116; 97] None).

Definition example_connect : Packet :=
  PConnect (mkConnect default_protocol false 60
              (Some (mkLastWill ExactlyOnce false [116; 111; 112; 105; 99] [109]))
              [49; 50; 51] (Some [117]) None None).

Lemma example_publish_wf : packet_wf example_publish.
Proof.
  split; [split; [|done]|split; [|split; [|done]]].
  - split; [repeat constructor; range_lia|done].
  - exists 17185. split; [done|range_lia].
  - repeat constructor; range_lia.
Qed.


(** The packet decoder in the form the framing asks for. *)
Lemma decode_packet_ok fb body : bytes_ok body →
  match fst (decode_packet fb body) with
  | Ok p => packet_wf p | Err _ => True | Panic => False
  end.
Proof.
  intros Hb. pose proof (wp_decode_packet fb body Hb) as H. unfold wp in H.
  by destruct (decode_packet fb body) as [[]?].
Qed.

(** C17: no sequence of bytes, however it is cut into reads, makes the MQTT 3
    receiver panic (no slice or [get_u8] out of range), and every packet it
    delivers is well formed: packet identifiers non-zero, strings valid UTF-8,
    topics and filter lists non-empty, a QoS 0 publish without identifier and
    the others with one, an empty client identifier only with a clean session. *)
Theorem v3_receive_safe limit chunks :
  Forall bytes_ok chunks →
  let '(ps, c) := feed_all decode_packet limit (Live FrameHeader []) chunks in
  Forall (λ '(p, _), packet_wf p) ps ∧ c ≠ Crashed.
Proof.
  intros Hc. pose proof (feed_all_safe decode_packet limit packet_wf decode_packet_ok
    (Live FrameHeader []) chunks (Forall_nil_2 _) Hc) as H.
  destruct (feed_all _ _ _ _) as [ps c]. destruct H as [? Hok]. split; [done|].
  by intros ->.
Qed.

Lemma v3_receive_safe_witness :
  let '(ps, c) := feed_all decode_packet 0 (Live FrameHeader []) [[48; 3; 0]; [1; 97]; [16; 2; 0; 4]] in
  Forall (λ '(p, _), packet_wf p) ps ∧ c ≠ Crashed.
Proof.
  apply (v3_receive_safe 0 [[48; 3; 0]; [1; 97]; [16; 2; 0; 4]]).
  repeat constructor; vm_compute; congruence.
Defined.

(** C32: the packets delivered, the final state and the error that closes the
    connection depend only on the bytes received.  From any state of the
    connection, delivering chunk after chunk is the same as delivering their
    concatenation at once, well-formed input or not. *)
Theorem v3_chunking_irrelevant limit c chunk chunks :
  feed_all decode_packet limit c (chunk :: chunks) =
  feed_all decode_packet limit c [concat (chunk :: chunks)].
Proof. rewrite !feed_all_concat. by cbn [concat]; rewrite app_nil_r. Qed.

(** What a failed or oversized encode does to the output buffer.  A QoS 1/2
    publish without identifier is refused before anything is written; a QoS 0
    publish with one, and a publish whose topic exceeds 65535 bytes, are
    refused after the fixed header (and, for the first, the topic) has already
    been appended; a well-formed packet above 268435455 bytes panics. *)
Theorem v3_encode_failures p dst :
  (qos p ≠ AtMostOnce → packet_id p = None →
     codec_encode (PPublish p) dst = (Err EncPacketIdRequired, dst)) ∧
  (qos p = AtMostOnce → is_some (packet_id p) = true → len (topic p) < 2 ^ 16 →
     get_encoded_publish_size p ≤ VARINT_MAX →
     codec_encode (PPublish p) dst =
       (Err EncMalformedPacket,
        dst ++ [publish_first_byte p] ++ varint (get_encoded_publish_size p)
            ++ prefixed (topic p))) ∧
  (qos p = AtMostOnce → 2 ^ 16 ≤ len (topic p) → get_encoded_publish_size p ≤ VARINT_MAX →
     codec_encode (PPublish p) dst =
       (Err EncInvalidLength,
        dst ++ [publish_first_byte p] ++ varint (get_encoded_publish_size p))) ∧
  (∀ pk, packet_wf pk → VARINT_MAX < get_encoded_size pk < 2 ^ 32 →
     codec_encode pk dst = (Panic, dst ++ [first_of pk])).
Proof.
  assert (Hsz : 0 ≤ get_encoded_publish_size p).
  { unfold get_encoded_publish_size. pose proof (len_nonneg (topic p)).
    pose proof (len_nonneg (payload p)). case_match; lia. }
  assert (Hu32 : get_encoded_publish_size p ≤ VARINT_MAX →
    as_u32 (get_encoded_publish_size p) = get_encoded_publish_size p).
  { intros. apply as_u32_small. unfold VARINT_MAX in *. lia. }
  split; [|split; [|split]].
  - intros Hq Hid. unfold codec_encode. apply bind_err. unfold ensure. rewrite Hid.
    by destruct (qos p).
  - intros Hq Hid Ht Hmax. unfold codec_encode. rewrite Hq. erewrite bind_ok by done.
    cbn [get_encoded_size encode]. rewrite Hu32 by done.
    erewrite bind_ok by apply writes_put_u8. erewrite bind_ok by (apply writes_varint; lia).
    erewrite bind_ok by by apply encode_bytes_short. apply bind_err.
    rewrite bool_decide_true by done. destruct (packet_id p); [|done].
    by rewrite <-!app_assoc.
  - intros Hq Ht Hmax. unfold codec_encode. rewrite Hq. erewrite bind_ok by done.
    cbn [get_encoded_size encode]. rewrite Hu32 by done.
    erewrite bind_ok by apply writes_put_u8. erewrite bind_ok by (apply writes_varint; lia).
    rewrite <-app_assoc. apply bind_err. by apply encode_bytes_long.
  - intros pk Hwf Hbig. rewrite codec_encode_wf by (lia || done).
    assert (Hpanic : ∀ b (k : writer), (put_u8 b ;; write_variable_length (get_encoded_size pk) ;; k) dst
                            = (Panic, dst ++ [b])).
    { intros b k. erewrite bind_ok by apply writes_put_u8. apply bind_panic.
      unfold write_variable_length, between, VARINT_MAX in *.
      by rewrite !(proj2 (Z.leb_gt (get_encoded_size pk) _)), !andb_false_r by lia. }
    destruct pk; try apply Hpanic; unfold VARINT_MAX in Hbig; simpl in Hbig; lia.
Qed.

Definition publish_with_id : Publish :=
  mkPublish false false AtMostOnce [97] (Some 7) [98] None.

Lemma v3_encode_failures_witness :
  codec_encode (PPublish publish_with_id) [5] = (Err EncMalformedPacket, [5; 48; 4; 0; 1; 97]).
Proof.
  destruct (v3_encode_failures publish_with_id [5]) as (_ & H & _).
  apply H; vm_compute; congruence.
Defined.
