(* ===== verification/Version.v ===== *)
(** * Protocol version detection

    Models [ferromq-codec/src/version.rs]: the codec that looks at the first
    bytes of a connection and decides between the MQTT 3 and the MQTT 5 codecs.
    [VersionCodec] has no state and [decode] leaves the buffer as it is, so the
    operation is a function of the bytes received so far; an index or a slice
    out of range is a panic. *)

From stdpp Require Import base list numbers option.
From Stdlib Require Import ZArith Lia.
From S2P Require Import Prelude Errors Wire CodecTypes Framing MqttV3.

#[local] Open Scope Z_scope.

Inductive ProtocolVersion : Type := MQTT3 | MQTT5.

(** [src[i..j]] and [src[i]]; [None] is a panic. *)
Definition slice (src : bytes) (i j : Z) : option bytes :=
  if (i <=? j) && (j <=? len src)
  then Some (take (Z.to_nat (j - i)) (drop (Z.to_nat i) src)) else None.

Definition index (src : bytes) (i : Z) : option Z := src !! Z.to_nat i.

(** An indexing operation inside a fallible function. *)
Definition checked {E A B} (o : option A) (f : A → outcome E B) : outcome E B :=
  match o with Some a => f a | None => Panic end.

(** [u16::from_be_bytes], on a slice of length two. *)
Definition from_be_bytes (bs : bytes) : Z :=
  match bs with [b1; b0] => b1 * 256 + b0 | _ => 0 end.

(** The level byte after the protocol name. *)
Definition version_of_level (level : Z) : outcome DecodeError (option ProtocolVersion) :=
  if (level =? MQTT_LEVEL_31) || (level =? MQTT_LEVEL_311) then Ok (Some MQTT3)
  else if level =? MQTT_LEVEL_5 then Ok (Some MQTT5)
  else Err InvalidProtocol.

(** [VersionCodec::decode] *)
Definition version_decode (src : bytes) : outcome DecodeError (option ProtocolVersion) :=
  if len src <? 2 then Ok None else
  checked (index src 0) (λ first_byte,
  checked (slice src 1 (len src)) (λ tail,
  match decode_variable_length tail with
  | Ok (Some (_, c)) =>
      let consumed := c + 1 in
      if first_byte =? CONNECT then
        if len src <=? consumed + 6 then Ok None else
        checked (slice src consumed (consumed + 2)) (λ two,
        let protocol_len := from_be_bytes two in
        let level := checked (index src (consumed + 2 + protocol_len)) version_of_level in
        if protocol_len =? 4 then
          checked (slice src (consumed + 2) (consumed + 6)) (λ name,
          if negb (bool_decide (name = MQTT)) then Err InvalidProtocol else level)
        else if protocol_len =? 6 then
          if len src <=? consumed + 8 then Ok None else
          checked (slice src (consumed + 2) (consumed + 8)) (λ name,
          if negb (bool_decide (name = MQISDP)) then Err InvalidProtocol else level)
        else Err InvalidProtocol)
      else Err UnsupportedPacketType
  | Ok None => Ok None
  | Err e => Err e
  | Panic => Panic
  end)).

(** [VersionCodec::encode] *)
Definition version_encode (_ : ProtocolVersion) : writer := err EncUnsupportedVersion.

Example detects_v311 : version_decode [16; 152; 2; 0; 4; 77; 81; 84; 84; 4; 192] = Ok (Some MQTT3).
Proof. reflexivity. Qed.
Example detects_v5 : version_decode [16; 152; 2; 0; 4; 77; 81; 84; 84; 5] = Ok (Some MQTT5).
Proof. reflexivity. Qed.
Example waits : version_decode [16; 152; 2; 0; 4] = Ok None.
Proof. reflexivity. Qed.

(** ** Reads inside the buffer *)

Lemma slice_in src i j : 0 ≤ i ≤ j → j ≤ len src →
  ∃ bs, slice src i j = Some bs ∧ ∀ t, slice (src ++ t) i j = Some bs.
Proof.
  intros Hi Hj. unfold slice, len in *. eexists. rewrite !(proj2 (Z.leb_le _ _)) by lia.
  split; [done|]. intros t. rewrite length_app, !(proj2 (Z.leb_le _ _)) by lia. simpl.
  rewrite drop_app_le by lia. rewrite take_app_le; [done|]. rewrite length_drop. lia.
Qed.

Lemma index_in src i : 0 ≤ i < len src →
  ∃ b, index src i = Some b ∧ ∀ t, index (src ++ t) i = Some b.
Proof.
  intros Hi. unfold index, len in *.
  destruct (lookup_lt_is_Some_2 src (Z.to_nat i)) as [b Hb]; [lia|].
  exists b. split; [done|]. intros t. by apply lookup_app_l_Some.
Qed.

Lemma slice_app bs1 bs2 bs3 :
  slice (bs1 ++ bs2 ++ bs3) (len bs1) (len bs1 + len bs2) = Some bs2.
Proof.
  pose proof (len_nonneg bs3). unfold slice. rewrite !len_app.
  rewrite !(proj2 (Z.leb_le _ _)) by (pose proof (len_nonneg bs2); lia). simpl.
  by rewrite drop_len_app, Z.add_simpl_l, take_len_app.
Qed.

Lemma index_app bs1 b bs2 : index (bs1 ++ b :: bs2) (len bs1) = Some b.
Proof. unfold index, len. rewrite Nat2Z.id. by apply list_lookup_middle. Qed.

(** Whether a decision has been taken: a version or an error. *)
Definition decided {E A} (r : outcome E (option A)) : bool :=
  match r with Ok None => false | _ => true end.

Ltac rd H := let b := fresh "b" in let H1 := fresh in let H2 := fresh in
  destruct H as (b & H1 & H2); [lia..|]; rewrite H1, ?H2; cbn [checked].

(** Detection is safe to run on every partial read.  It never panics on any
    buffer, and a decision taken on a prefix (a version or an error) is the
    decision on every extension of it, so the codec that is chosen does not
    depend on how the first bytes arrive. *)
Theorem version_decode_monotone s t :
  version_decode s ≠ Panic ∧
  (decided (version_decode s) = true → version_decode (s ++ t) = version_decode s).
Proof.
  pose proof (len_nonneg t) as Ht. unfold version_decode.
  destruct (Z.ltb_spec (len s) 2); [done|]. rewrite len_app.
  rewrite (proj2 (Z.ltb_ge (len s + len t) 2)) by lia.
  destruct s as [|fb s']; [by rewrite len_nil in *|].
  rewrite len_cons in *. pose proof (len_nonneg s') as Hs'.
  assert (Htail : ∀ r, slice (fb :: r) 1 (1 + len r) = Some r).
  { intros r. pose proof (slice_app [fb] r []) as H1. by rewrite app_nil_r in H1. }
  change (index (fb :: s') 0) with (Some fb). change (index ((fb :: s') ++ t) 0) with (Some fb).
  cbn [checked]. rewrite Htail. rewrite <-Z.add_assoc, <-len_app. cbn [app]. rewrite Htail.
  cbn [checked]. pose proof (decode_variable_length_app s' t) as Hv.
  destruct (decode_variable_length s') as [[[n c]|]|e|]; [|done|by rewrite Hv|done].
  destruct Hv as [-> Hc]. destruct (fb =? CONNECT); [|done].
  destruct (Z.leb_spec (1 + len s') (c + 1 + 6)); [done|].
  rewrite len_app, (proj2 (Z.leb_gt (1 + (len s' + len t)) _)) by lia.
  change (fb :: s' ++ t) with ((fb :: s') ++ t).
  rewrite <-(len_cons fb s') in *.
  rd (slice_in (fb :: s') (c + 1) (c + 1 + 2)).
  destruct (Z.eqb_spec (from_be_bytes b) 4) as [->|].
  { rd (slice_in (fb :: s') (c + 1 + 2) (c + 1 + 6)). case_match; [done|].
    rd (index_in (fb :: s') (c + 1 + 2 + 4)). unfold version_of_level.
    by repeat case_match. }
  destruct (Z.eqb_spec (from_be_bytes b) 6) as [->|]; [|done].
  destruct (Z.leb_spec (len (fb :: s')) (c + 1 + 8)); [done|].
  rewrite !len_cons in *. rewrite (proj2 (Z.leb_gt (1 + (len s' + len t)) _)) by lia.
  rewrite <-(len_cons fb s') in *.
  rd (slice_in (fb :: s') (c + 1 + 2) (c + 1 + 8)). case_match; [done|].
  rd (index_in (fb :: s') (c + 1 + 2 + 6)). unfold version_of_level. by repeat case_match.
Qed.

(** ** Detection on a CONNECT frame *)

Lemma from_be_bytes_be16 x : u16_range x → from_be_bytes (be16 x) = x.
Proof.
  intros Hx. pose proof (get_u16_be16 x [] Hx) as H. rewrite app_nil_r in H.
  pose proof (len_be16 x) as Hl. unfold get_u16 in H.
  destruct (be16 x) as [|b1 [|b0 [|]]]; try done. simpl in *. by simplify_eq.
Qed.

(** The bytes that decide: the fixed header, the protocol name and the level. *)
Lemma version_decode_connect n name level rest :
  0 ≤ n ≤ VARINT_MAX → name = MQTT ∨ name = MQISDP →
  version_decode (CONNECT :: varint n ++ be16 (len name) ++ name ++ level :: rest)
    = version_of_level level.
Proof.
  intros Hn Hname. pose proof (varint_length n Hn) as Hvl. pose proof (len_nonneg rest).
  set (body := be16 (len name) ++ name ++ level :: rest).
  assert (Hbody : len body = 3 + len name + len rest).
  { unfold body. rewrite !len_app, len_be16, len_cons. lia. }
  assert (Hlen : len name = 4 ∨ len name = 6) by (destruct Hname as [-> | ->]; auto).
  unfold version_decode. rewrite len_cons, len_app.
  rewrite (proj2 (Z.ltb_ge _ _)) by lia. change (index (CONNECT :: _) 0) with (Some CONNECT).
  cbn [checked]. rewrite <-len_app.
  pose proof (slice_app [CONNECT] (varint n ++ body) []) as Hs. rewrite app_nil_r in Hs.
  cbn [app] in Hs. change (len [CONNECT]) with 1 in Hs. rewrite Hs. cbn [checked].
  unfold decode_variable_length. rewrite decode_varint by done. cbn match.
  rewrite len_app, Z.add_simpl_r, Z.eqb_refl.
  rewrite (proj2 (Z.leb_gt _ _)) by lia.
  assert (Hc : len (varint n) + 1 = len (CONNECT :: varint n)) by (rewrite len_cons; lia).
  set (pre := CONNECT :: varint n) in *. rewrite Hc.
  change (CONNECT :: varint n ++ body) with (pre ++ body).
  assert (H1 : slice (pre ++ body) (len pre) (len pre + 2) = Some (be16 (len name))).
  { rewrite <-(len_be16 (len name)). apply slice_app. }
  rewrite H1. cbn [checked]. rewrite from_be_bytes_be16 by (destruct Hlen as [-> | ->]; range_lia).
  set (pre2 := pre ++ be16 (len name)).
  assert (Hp2 : pre ++ body = pre2 ++ name ++ level :: rest).
  { unfold pre2, body. by rewrite <-app_assoc. }
  assert (Hl2 : len pre2 = len pre + 2) by (unfold pre2; by rewrite len_app, len_be16).
  assert (H2 : slice (pre ++ body) (len pre + 2) (len pre + 2 + len name) = Some name).
  { rewrite <-Hl2, Hp2. apply slice_app. }
  assert (H3 : index (pre ++ body) (len pre + 2 + len name) = Some level).
  { rewrite <-Hl2, Hp2, app_assoc, <-len_app. apply index_app. }
  rewrite H3. cbn [checked].
  destruct Hname as [-> | ->].
  - rewrite len_MQTT in * |-. rewrite len_MQTT, Z.eqb_refl.
    replace (len pre + 6) with (len pre + 2 + 4) by lia. by rewrite H2.
  - rewrite len_MQISDP in * |-. rewrite len_MQISDP, Z.eqb_refl.
    rewrite (proj2 (Z.leb_gt _ _)) by lia.
    replace (len pre + 8) with (len pre + 2 + 6) by lia. by rewrite H2.
Qed.

(** A protocol name that was accepted is the one that was announced. *)
Lemma skip_protocol_name_inv n s u s' :
  skip_protocol_name n s = (Ok u, s') →
  ∃ name, (name = MQTT ∨ name = MQISDP) ∧ n = len name ∧ s = name ++ s'.
Proof.
  unfold skip_protocol_name, slice_is, advance, mbind, M_bind, mret, M_ret. intros H.
  assert (Hskip : ∀ k name, take (Z.to_nat k) s = name → drop (Z.to_nat k) s = s' →
                            s = name ++ s').
  { intros k name <- <-. by rewrite take_drop. }
  destruct (Z.eqb_spec n 4) as [->|].
  - destruct (4 <=? len s) eqn:E; [|done]. case_bool_decide as Hname; [|done].
    rewrite E in H. simplify_eq. exists MQTT. eauto.
  - destruct (Z.eqb_spec n 6) as [->|]; [|done].
    destruct (6 <=? len s) eqn:E; [|done]. case_bool_decide as Hname; [|done].
    rewrite E in H. simplify_eq. exists MQISDP. eauto.
Qed.

Ltac bind_inv H :=
  let a := fresh "a" in let s := fresh "s" in let H1 := fresh "Hb" in
  apply bind_ok_inv in H as (a & s & H1 & H); cbv beta in H.

Lemma get_u8_inv s b s' : get_u8 s = (Ok b, s') → s = b :: s'.
Proof. unfold get_u8. destruct s; intros; by simplify_eq. Qed.

Lemma get_u16_inv s x s' : bytes_ok s → get_u16 s = (Ok x, s') → s = be16 x ++ s'.
Proof.
  unfold get_u16. destruct s as [|b1 [|b0 s]]; intros Hs H; simplify_eq.
  apply bytes_ok_cons in Hs as [H1 [H0 ?]%bytes_ok_cons].
  by rewrite (proj1 (be16_of_bytes _ _ H1 H0)).
Qed.

Lemma v3_connect_shape body p r : bytes_ok body →
  decode_connect_packet body = (Ok p, r) →
  ∃ name lv rest, (name = MQTT ∨ name = MQISDP) ∧
    (lv = MQTT_LEVEL_31 ∨ lv = MQTT_LEVEL_311) ∧
    body = be16 (len name) ++ name ++ lv :: rest.
Proof.
  intros Hok H. unfold decode_connect_packet in H.
  bind_inv H. unfold remaining in Hb. simplify_eq.
  bind_inv H. apply ensure_ok_inv in Hb as [_ ->].
  bind_inv H. apply get_u16_inv in Hb as ->; [|done].
  bind_inv H. apply skip_protocol_name_inv in Hb as (name & Hname & -> & ->).
  bind_inv H. apply get_u8_inv in Hb as ->.
  bind_inv H. apply ensure_ok_inv in Hb as [Hlv _].
  do 3 eexists. split; [done|]. split; [|done].
  apply orb_true_iff in Hlv as [?%Z.eqb_eq|?%Z.eqb_eq]; auto.
Qed.

(** The version detector and the MQTT 3 codec agree.  A buffer that starts
    with a CONNECT frame the MQTT 3 decoder accepts (protocol name and level
    checked there a second time) is always detected as MQTT 3, whatever follows
    the frame. *)
Theorem v3_connect_detected body c rest :
  bytes_ok body → len body ≤ VARINT_MAX →
  (decode_packet CONNECT body).1 = Ok (PConnect c) →
  version_decode (CONNECT :: varint (len body) ++ body ++ rest) = Ok (Some MQTT3).
Proof.
  intros Hok Hlen H. change (decode_packet CONNECT body) with (decode_connect_packet body) in H.
  destruct (decode_connect_packet body) as [o r] eqn:E. simpl in H. subst o.
  apply v3_connect_shape in E as (name & lv & rest' & Hname & Hlv & Hbody); [|done].
  pose proof (len_nonneg body).
  assert (Hd := version_decode_connect (len body) name lv (rest' ++ rest) ltac:(lia) Hname).
  rewrite Hbody at 2. rewrite <-!app_assoc. cbn [app]. rewrite Hd.
  by destruct Hlv as [-> | ->].
Qed.

Definition v31_connect_body : bytes :=
  [0; 6; 77; 81; 73; 115; 100; 112; 3; 2; 0; 60; 0; 1; 97].

Lemma v3_connect_detected_witness :
  version_decode (CONNECT :: varint (len v31_connect_body) ++ v31_connect_body ++ [192; 0])
    = Ok (Some MQTT3).
Proof.
  apply (v3_connect_detected v31_connect_body
           (mkConnect (mkProtocol 3) true 60 None [97] None None None)).
  - repeat constructor; vm_compute; congruence.
  - vm_compute; congruence.
  - vm_compute. reflexivity.
Defined.

Lemma version_decode_monotone_witness :
  version_decode ([16; 152; 2; 0; 4; 77; 81; 84; 84; 5] ++ [0; 0]) = Ok (Some MQTT5).
Proof. exact (proj2 (version_decode_monotone [16; 152; 2; 0; 4; 77; 81; 84; 84; 5] [0; 0]) eq_refl). Defined.
