(* ===== verification/PropsV5.v ===== *)
(** * MQTT 5 properties

    Models the shared parts of the MQTT 5 codec: the property identifiers and
    acknowledgement properties of [ferromq-codec/src/v5/packet/mod.rs], the
    property and size helpers of [ferromq-codec/src/v5/encode.rs], and the
    [while prop_src.has_remaining() { match prop_src.get_u8() { ... } }] loops
    that every MQTT 5 packet has, as a table from identifiers to handlers. *)

From stdpp Require Import base list numbers option.
From Stdlib Require Import ZArith Lia.
From S2P Require Import Prelude Errors Wire CodecTypes.

#[local] Open Scope Z_scope.

(** ** [property_type] *)

Definition UTF8_PAYLOAD : Z := 1.
Definition MSG_EXPIRY_INT : Z := 2.
Definition CONTENT_TYPE : Z := 3.
Definition RESP_TOPIC : Z := 8.
Definition CORR_DATA : Z := 9.
Definition SUB_ID : Z := 11.
Definition SESS_EXPIRY_INT : Z := 17.
Definition ASSND_CLIENT_ID : Z := 18.
Definition SERVER_KA : Z := 19.
Definition AUTH_METHOD : Z := 21.
Definition AUTH_DATA : Z := 22.
Definition REQ_PROB_INFO : Z := 23.
Definition WILL_DELAY_INT : Z := 24.
Definition REQ_RESP_INFO : Z := 25.
Definition RESP_INFO : Z := 26.
Definition SERVER_REF : Z := 28.
Definition REASON_STRING : Z := 31.
Definition RECEIVE_MAX : Z := 33.
Definition TOPIC_ALIAS_MAX : Z := 34.
Definition TOPIC_ALIAS : Z := 35.
Definition MAX_QOS : Z := 36.
Definition RETAIN_AVAIL : Z := 37.
Definition USER : Z := 38.
Definition MAX_PACKET_SIZE_ID : Z := 39.
Definition WILDCARD_SUB_AVAIL : Z := 40.
Definition SUB_IDS_AVAIL : Z := 41.
Definition SHARED_SUB_AVAIL : Z := 42.

(** ** Pure code that can panic *)

#[export] Instance outcome_ret {E} : MRet (outcome E) := λ A a, Ok a.
#[export] Instance outcome_bind {E} : MBind (outcome E) := λ A B f o,
  match o with Ok a => f a | Err e => Err e | Panic => Panic end.

(** [a - b] on [u32]: an underflow panics in a build with overflow checks and
    wraps around otherwise. *)
Definition u32_sub {E} (checks : bool) (a b : Z) : outcome E Z :=
  if b <=? a then Ok (a - b) else if checks then Panic else Ok (as_u32 (a - b)).

Lemma u32_sub_ok {E} checks a b : b ≤ a → u32_sub checks a b = (Ok (a - b) : outcome E Z).
Proof. intros. unfold u32_sub. by rewrite (proj2 (Z.leb_le _ _)). Qed.

(** ** Lengths of variable-length integers *)

Definition leading_zeros (width val : Z) : Z :=
  if val =? 0 then width else width - 1 - Z.log2 val.

Definition MAP_64 : list Z :=
  [10; 9; 9; 9; 9; 9; 9; 9; 8; 8; 8; 8; 8; 8; 8; 7; 7; 7; 7; 7; 7; 7; 6; 6; 6; 6; 6; 6; 6; 5; 5; 5; 5;
   5; 5; 5; 4; 4; 4; 4; 4; 4; 4; 3; 3; 3; 3; 3; 3; 3; 2; 2; 2; 2; 2; 2; 2; 1; 1; 1; 1; 1; 1; 1; 1].

Definition MAP_32 : list Z :=
  [5; 5; 5; 5; 4; 4; 4; 4; 4; 4; 4; 3; 3; 3; 3; 3; 3; 3; 2; 2; 2; 2; 2; 2; 2; 1; 1; 1; 1; 1; 1; 1; 1].

(** [var_int_len] on a 64-bit platform, and [var_int_len_u32]; both tables cover
    every number of leading zeros. *)
Definition var_int_len (val : Z) : Z := nth (Z.to_nat (leading_zeros 64 val)) MAP_64 0.
Definition var_int_len_u32 (val : Z) : Z := nth (Z.to_nat (leading_zeros 32 val)) MAP_32 0.

Definition var_int_len_from_size {E} (checks : bool) (val : Z) : outcome E Z :=
  let over_size := var_int_len_u32 val in
  u32_sub checks val over_size ≫= λ d,
  let res := d + 1 in
  u32_sub checks val (var_int_len_u32 res).

Definition reduce_limit (limit reduction : Z) : Z :=
  if limit <? reduction then 0 else limit - reduction.

(** ** Encoding properties *)

Definition encoded_property_size {A} (w : wire A) (v : option A) : Z :=
  match v with Some v => 1 + w_size w v | None => 0 end.

Definition encoded_property_size_default {A} `{!EqDecision A} (w : wire A) (v default : A) : Z :=
  if bool_decide (v = default) then 0 else 1 + w_size w v.

Definition encode_property {A} (w : wire A) (v : option A) (prop_type : Z) : writer :=
  match v with Some v => put_u8 prop_type ;; w_encode w v | None => mret tt end.

Definition encode_property_default {A} `{!EqDecision A} (w : wire A) (v default : A)
    (prop_type : Z) : writer :=
  if bool_decide (v = default) then mret tt else put_u8 prop_type ;; w_encode w v.

(** [impl Encode for UserProperties] *)
Definition user_properties_size (ps : UserProperties) : Z :=
  foldl (λ n p, n + (1 + w_size pair_w p)) 0 ps.
Definition encode_user_properties (ps : UserProperties) : writer :=
  for_each (λ p, put_u8 USER ;; encode_pair p) ps.

(** User properties and reason string, as many of them as a limit allows. *)
Fixpoint encoded_size_opt_props (user_props : UserProperties) (reason_str : option bytes)
    (limit n : Z) : Z :=
  match user_props with
  | up :: user_props =>
      let prop_len := 1 + w_size pair_w up in
      if limit <? prop_len then n
      else encoded_size_opt_props user_props reason_str (limit - prop_len) (n + prop_len)
  | [] =>
      match reason_str with
      | Some reason =>
          let reason_len := 1 + w_size string_w reason in
          if reason_len <=? limit then n + reason_len else n
      | None => n
      end
  end.

Fixpoint encode_opt_props (user_props : UserProperties) (reason_str : option bytes)
    (size : Z) : writer :=
  match user_props with
  | up :: user_props =>
      let prop_len := 1 + w_size string_w up.1 + w_size string_w up.2 in
      if size <? prop_len then mret tt
      else
        put_u8 USER ;; encode_pair up ;;
        encode_opt_props user_props reason_str (size - prop_len)
  | [] =>
      match reason_str with
      | Some reason =>
          if len reason <? size then put_u8 REASON_STRING ;; encode_bytes reason else mret tt
      | None => mret tt
      end
  end.

(** ** Decoding properties *)

(** A reader run on a buffer of its own, [prop_src]. *)
Definition run_on {A} (b : bytes) (r : reader A) : reader A := λ s, (fst (r b), s).

(** The arms of a [match prop_src.get_u8()]: [x.read_value(prop_src)?] into one
    of the local variables, and [xs.push(UserProperty::decode(prop_src)?)]. *)
Definition handler (S : Type) : Type := S → reader S.

Definition prop {S A} (w : wire A) (get : S → option A) (set : option A → S → S) : handler S :=
  λ a, x ← read_value w (get a); mret (set x a).

Definition user_prop {S} (get : S → UserProperties) (set : UserProperties → S → S) : handler S :=
  λ a, p ← decode_pair; mret (set (get a ++ [p]) a).

Fixpoint dispatch {S} (id : Z) (table : list (Z * handler S)) : handler S :=
  match table with
  | [] => λ _, err MalformedPacket
  | (k, h) :: table => if id =? k then h else dispatch id table
  end.

Definition prop_loop {S} (table : list (Z * handler S)) (init : S) : reader S :=
  while_remaining (λ a, id ← get_u8; dispatch id table a) init.

Definition parse_properties {S} (table : list (Z * handler S)) (init : S) : reader S :=
  prop_src ← take_properties; run_on prop_src (prop_loop table init).

(** ** Acknowledgement properties ([ack_props]) *)

Record AckProps : Type := mkAckProps { ap_user : UserProperties; ap_reason : option bytes }.

Definition ack_table : list (Z * handler AckProps) :=
  [(REASON_STRING, prop string_w ap_reason (λ v a, mkAckProps (ap_user a) v));
   (USER, user_prop ap_user (λ v a, mkAckProps v (ap_reason a)))].

Definition ack_props_decode : reader AckProps := parse_properties ack_table (mkAckProps [] None).

Definition ack_props_encoded_size (props : UserProperties) (reason : option bytes) (limit : Z) : Z :=
  if limit <? 4 then 1
  else let n := encoded_size_opt_props props reason (limit - 4) 0 in var_int_len n + n.

Definition ack_props_encode (checks : bool) (props : UserProperties) (reason : option bytes)
    (size : Z) : writer :=
  (if checks && negb (0 <? size) then panic else mret tt) ;;
  if size =? 1 then put_u8 0
  else
    lift (var_int_len_from_size checks size) ≫= λ n : Z,
    write_variable_length n ;;
    encode_opt_props props reason n.

Example var_int_len_127 : var_int_len 127 = 1. Proof. reflexivity. Qed.
Example var_int_len_128 : var_int_len 128 = 2. Proof. reflexivity. Qed.
Example from_size_130 : var_int_len_from_size true 130 = (Ok 128 : outcome unit Z).
Proof. reflexivity. Qed.

(** ** Lengths: the tables against the encoding *)

(** Seven bits per byte. *)
Definition vlen (v : Z) : Z :=
  if v <? 128 then 1 else if v <? 16384 then 2 else if v <? 2097152 then 3
  else if v <? 268435456 then 4 else 5.

Lemma vlen_cases v :
  (v < 128 ∧ vlen v = 1) ∨ (128 ≤ v < 16384 ∧ vlen v = 2) ∨ (16384 ≤ v < 2097152 ∧ vlen v = 3) ∨
  (2097152 ≤ v < 268435456 ∧ vlen v = 4) ∨ (268435456 ≤ v ∧ vlen v = 5).
Proof.
  unfold vlen. repeat match goal with |- context [?a <? ?b] => destruct (Z.ltb_spec a b) end; lia.
Qed.

Lemma leading_zeros_log width v : 0 < v → leading_zeros width v = width - 1 - Z.log2 v.
Proof. intros. unfold leading_zeros. by rewrite (proj2 (Z.eqb_neq _ _)) by lia. Qed.

Lemma log2_u32 v : 0 < v < 2 ^ 32 → Z.log2 v < 32.
Proof. intros. apply Z.log2_lt_pow2; lia. Qed.

Lemma vlen_log v : 0 < v < 2 ^ 32 → vlen v =
  if Z.log2 v <? 7 then 1 else if Z.log2 v <? 14 then 2 else if Z.log2 v <? 21 then 3
  else if Z.log2 v <? 28 then 4 else 5.
Proof.
  intros Hv. unfold vlen.
  assert (Hlt : ∀ k, 0 ≤ k → (Z.log2 v <? k) = (v <? 2 ^ k)).
  { intros k Hk. destruct (Z.ltb_spec v (2 ^ k)) as [H|H].
    - apply Z.ltb_lt. apply Z.log2_lt_pow2; lia.
    - apply Z.ltb_ge. apply Z.log2_le_pow2; lia. }
  by rewrite !Hlt by lia.
Qed.

Lemma table_log (k : Z) : 0 ≤ k < 32 →
  nth (Z.to_nat (63 - k)) MAP_64 0 = nth (Z.to_nat (31 - k)) MAP_32 0 ∧
  nth (Z.to_nat (31 - k)) MAP_32 0 =
    if k <? 7 then 1 else if k <? 14 then 2 else if k <? 21 then 3 else if k <? 28 then 4 else 5.
Proof.
  intros Hk. assert (Hin : In k (seqZ 0 32)) by (apply list_elem_of_In, elem_of_seqZ; lia).
  assert (Hall : forallb (λ k, (nth (Z.to_nat (63 - k)) MAP_64 0 =? nth (Z.to_nat (31 - k)) MAP_32 0) &&
    (nth (Z.to_nat (31 - k)) MAP_32 0 =?
     (if k <? 7 then 1 else if k <? 14 then 2 else if k <? 21 then 3 else if k <? 28 then 4 else 5)))
    (seqZ 0 32) = true) by (vm_compute; reflexivity).
  rewrite forallb_forall in Hall. specialize (Hall k Hin).
  apply andb_true_iff in Hall as [?%Z.eqb_eq ?%Z.eqb_eq]. auto.
Qed.

Lemma var_int_len_vlen v : 0 ≤ v < 2 ^ 32 → var_int_len v = vlen v ∧ var_int_len_u32 v = vlen v.
Proof.
  intros Hv. destruct (Z.eq_dec v 0) as [->|]; [done|]. unfold var_int_len, var_int_len_u32.
  rewrite !leading_zeros_log, vlen_log by lia.
  pose proof (log2_u32 v ltac:(lia)). pose proof (Z.log2_nonneg v).
  destruct (table_log (Z.log2 v) ltac:(lia)) as [H1 H2].
  change (64 - 1) with 63. change (32 - 1) with 31. rewrite H1. auto.
Qed.

Lemma vlen_varint n : 0 ≤ n ≤ VARINT_MAX → vlen n = len (varint n).
Proof.
  intros Hn. destruct (varint_cases n Hn) as [[? ->]|[[? ->]|[[? ->]|[? ->]]]];
    unfold vlen, VARINT_MAX in *; rewrite !len_cons, len_nil;
    repeat match goal with |- context [?a <? ?b] => destruct (Z.ltb_spec a b) end; lia.
Qed.

Lemma var_int_len_varint n : 0 ≤ n ≤ VARINT_MAX → var_int_len n = len (varint n).
Proof.
  intros Hn. rewrite (proj1 (var_int_len_vlen n ltac:(unfold VARINT_MAX in *; lia))).
  by apply vlen_varint.
Qed.

Lemma var_int_len_nonneg v : 0 ≤ var_int_len v.
Proof.
  unfold var_int_len. generalize (Z.to_nat (leading_zeros 64 v)). intros n.
  assert (H : Forall (λ x, 0 ≤ x) MAP_64) by (repeat constructor; lia).
  destruct (nth_in_or_default n MAP_64 0) as [Hin| ->]; [|lia].
  rewrite List.Forall_forall in H. by apply H.
Qed.

(** The length is recovered from the size of prefix and content together. *)
Lemma var_int_len_from_size_spec {E} checks n : 0 ≤ n ≤ VARINT_MAX →
  var_int_len_from_size checks (var_int_len n + n) = (Ok n : outcome E Z).
Proof.
  intros Hn. unfold VARINT_MAX in Hn. destruct (var_int_len_vlen n ltac:(lia)) as [-> _].
  assert (Hv : 1 ≤ vlen n ≤ 5) by (unfold vlen; repeat case_match; lia).
  unfold var_int_len_from_size.
  destruct (var_int_len_vlen (vlen n + n) ltac:(lia)) as [_ ->].
  assert (Hov : vlen (vlen n + n) ≤ vlen n + n ∧
                vlen (vlen n + n - vlen (vlen n + n) + 1) = vlen n ∧
                0 ≤ vlen n + n - vlen (vlen n + n) + 1 < 2 ^ 32).
  { pose proof (vlen_cases (vlen n + n)). pose proof (vlen_cases n).
    pose proof (vlen_cases (vlen n + n - vlen (vlen n + n) + 1)). lia. }
  destruct Hov as (H1 & H2 & H3).
  rewrite u32_sub_ok by done. unfold mbind, outcome_bind.
  destruct (var_int_len_vlen (vlen n + n - vlen (vlen n + n) + 1) ltac:(lia)) as [_ ->].
  rewrite H2, u32_sub_ok by lia. f_equal. lia.
Qed.

(** ** Encoded properties *)

Definition prop_bytes {A} (w : wire A) (id : Z) (o : option A) : bytes :=
  match o with Some a => id :: w_bytes w a | None => [] end.

(** A value that is left out when it is the default. *)
Definition nondefault {A} `{!EqDecision A} (v d : A) : option A :=
  if bool_decide (v = d) then None else Some v.

Definition opt_wf {A} (w : wire A) (o : option A) : Prop := from_option (w_wf w) True o.

Definition pair_ok (p : UserProperty) : Prop := w_wf pair_w p.

Definition user_bytes (p : UserProperty) : bytes := USER :: w_bytes pair_w p.
Definition users_bytes (ps : UserProperties) : bytes := concat (map user_bytes ps).

Lemma nondefault_default {A} `{!EqDecision A} (v d : A) : default d (nondefault v d) = v.
Proof. unfold nondefault. by case_bool_decide. Qed.

Lemma nondefault_wf {A} `{!EqDecision A} (w : wire A) v d : w_wf w v → opt_wf w (nondefault v d).
Proof. unfold nondefault. by case_bool_decide. Qed.

Section PropBytes.
Context {A} (w : wire A) `{!WireOk w}.

Lemma writes_property o id : opt_wf w o → writes (encode_property w o id) (prop_bytes w id o).
Proof.
  destruct o as [a|]; simpl; intros Ha; [|apply writes_ret].
  apply (writes_bind _ _ [id]); [apply writes_put_u8|by apply writes_wire].
Qed.

Lemma encode_property_default_eq `{!EqDecision A} v d id :
  encode_property_default w v d id = encode_property w (nondefault v d) id.
Proof. unfold encode_property_default, nondefault. by case_bool_decide. Qed.

Lemma property_size o id : opt_wf w o → encoded_property_size w o = len (prop_bytes w id o).
Proof. destruct o; simpl; intros; [|done]. by rewrite len_cons, wire_size. Qed.

Lemma property_size_default `{!EqDecision A} v d :
  encoded_property_size_default w v d = encoded_property_size w (nondefault v d).
Proof. unfold encoded_property_size_default, nondefault. by case_bool_decide. Qed.

Lemma prop_bytes_ok o id : u8_range id → opt_wf w o → bytes_ok (prop_bytes w id o).
Proof.
  destruct o; simpl; intros; [|constructor].
  apply bytes_ok_cons. split; [done|by apply wire_bytes_ok].
Qed.
End PropBytes.

Lemma user_bytes_len p : pair_ok p → len (user_bytes p) = 1 + w_size pair_w p.
Proof. intros. unfold user_bytes. by rewrite len_cons, (wire_size (w := pair_w)). Qed.

Lemma users_size ps : Forall pair_ok ps → user_properties_size ps = len (users_bytes ps).
Proof.
  intros Hps. unfold user_properties_size.
  enough (∀ n, foldl (λ n p, n + (1 + w_size pair_w p)) n ps = n + len (users_bytes ps)) as H
    by (rewrite H; lia).
  induction Hps as [|p ps Hp _ IH]; intros n; [cbn [foldl]; unfold users_bytes; cbn [map concat]; rewrite len_nil; lia|].
  unfold users_bytes in *. cbn [foldl map concat].
  rewrite IH, len_app, user_bytes_len by done. lia.
Qed.

Lemma writes_user p : pair_ok p → writes (put_u8 USER ;; encode_pair p) (user_bytes p).
Proof.
  intros. apply (writes_bind _ _ [USER]); [apply writes_put_u8|].
  by apply (writes_wire pair_w).
Qed.

Lemma writes_users ps : Forall pair_ok ps → writes (encode_user_properties ps) (users_bytes ps).
Proof.
  intros H. apply writes_for_each. eapply Forall_impl; [|exact H]. apply writes_user.
Qed.

(** *** Diagnostics under a limit *)

(** The user properties and the reason string that fit. *)
Fixpoint fit (us : UserProperties) (reason : option bytes) (limit : Z)
    : UserProperties * option bytes :=
  match us with
  | up :: us =>
      let prop_len := 1 + w_size pair_w up in
      if limit <? prop_len then ([], None)
      else let '(us, r) := fit us reason (limit - prop_len) in (up :: us, r)
  | [] =>
      match reason with
      | Some r => ([], if 1 + w_size string_w r <=? limit then Some r else None)
      | None => ([], None)
      end
  end.

Definition diag_bytes (d : UserProperties * option bytes) : bytes :=
  users_bytes d.1 ++ prop_bytes string_w REASON_STRING d.2.

Definition diag_wf (us : UserProperties) (reason : option bytes) : Prop :=
  Forall pair_ok us ∧ opt_wf string_w reason.

Lemma fit_wf us reason limit : diag_wf us reason → diag_wf (fit us reason limit).1 (fit us reason limit).2.
Proof.
  intros [Hus Hr]. revert limit. induction Hus as [|u us Hu Hus IH]; intros limit; cbn [fit].
  - destruct reason; [|by split]. split; [done|]. simpl. by case_match.
  - case_match; [by split|]. specialize (IH (limit - (1 + w_size pair_w u))).
    destruct (fit us reason _) as [us' r']. destruct IH. split; [by constructor|done].
Qed.

Lemma fit_all us reason limit :
  diag_wf us reason → len (diag_bytes (us, reason)) ≤ limit → fit us reason limit = (us, reason).
Proof.
  intros [Hus Hr]. unfold diag_bytes. cbn [fst snd]. revert limit.
  induction Hus as [|u us Hu Hus IH]; intros limit; cbn [fit].
  - destruct reason as [r|]; [|done]. simpl. rewrite len_cons, len_prefixed. intros.
    by rewrite (proj2 (Z.leb_le _ _)) by lia.
  - unfold users_bytes in *. cbn [map concat]. rewrite <-app_assoc, len_app, user_bytes_len by done.
    pose proof (len_nonneg (concat (map user_bytes us) ++ prop_bytes string_w REASON_STRING reason)).
    intros. rewrite (proj2 (Z.ltb_ge _ _)) by lia. rewrite IH by lia. done.
Qed.

Lemma diag_len_nil : len (diag_bytes ([], None)) = 0.
Proof. done. Qed.

Lemma diag_len_reason r : len (diag_bytes ([], Some r)) = 1 + w_size string_w r.
Proof. unfold diag_bytes. simpl. by rewrite len_cons, len_prefixed. Qed.

Lemma opt_props_size us reason limit n :
  diag_wf us reason → 0 ≤ limit →
  encoded_size_opt_props us reason limit n = n + len (diag_bytes (fit us reason limit)) ∧
  len (diag_bytes (fit us reason limit)) ≤ limit.
Proof.
  intros [Hus Hr]. revert limit n. induction Hus as [|u us Hu Hus IH]; intros limit n Hl;
    cbn [fit encoded_size_opt_props].
  - destruct reason as [r|]; [|rewrite diag_len_nil; lia].
    destruct (Z.leb_spec (1 + w_size string_w r) limit);
      rewrite ?diag_len_reason, ?diag_len_nil; lia.
  - destruct (Z.ltb_spec limit (1 + w_size pair_w u)); [rewrite diag_len_nil; lia|].
    destruct (IH (limit - (1 + w_size pair_w u)) (n + (1 + w_size pair_w u)) ltac:(lia)) as [-> Hb].
    destruct (fit us reason _) as [us' r']. unfold diag_bytes, users_bytes in *. cbn [fst snd map concat] in *.
    rewrite <-app_assoc, (len_app (user_bytes u)), user_bytes_len by done. lia.
Qed.

Lemma writes_opt_props us reason limit :
  diag_wf us reason → 0 ≤ limit →
  writes (encode_opt_props us reason (len (diag_bytes (fit us reason limit))))
         (diag_bytes (fit us reason limit)).
Proof.
  intros [Hus Hr]. revert limit. induction Hus as [|u us Hu Hus IH]; intros limit Hl;
    cbn [fit encode_opt_props].
  - destruct reason as [r|]; [|apply writes_ret].
    pose proof (len_nonneg r). destruct (1 + w_size string_w r <=? limit).
    + rewrite diag_len_reason. rewrite (proj2 (Z.ltb_lt _ _)) by (simpl; lia).
      apply (writes_bind _ _ [REASON_STRING]); [apply writes_put_u8|by apply writes_string].
    + rewrite diag_len_nil, (proj2 (Z.ltb_ge _ _)) by done. apply writes_ret.
  - assert (Hsz : 1 + w_size string_w u.1 + w_size string_w u.2 = 1 + w_size pair_w u)
      by (simpl; lia). rewrite Hsz.
    pose proof (len_nonneg u.1). pose proof (len_nonneg u.2).
    destruct (Z.ltb_spec limit (1 + w_size pair_w u)).
    { rewrite diag_len_nil, (proj2 (Z.ltb_lt _ _)) by (simpl; lia). apply writes_ret. }
    specialize (IH (limit - (1 + w_size pair_w u)) ltac:(lia)).
    destruct (fit us reason _) as [us' r']. unfold diag_bytes, users_bytes in *.
    cbn [fst snd map concat] in *.
    rewrite <-app_assoc, len_app, user_bytes_len by done.
    set (rest := concat (map user_bytes us') ++ prop_bytes string_w REASON_STRING r') in *.
    pose proof (len_nonneg rest). rewrite (proj2 (Z.ltb_ge _ _)) by lia.
    rewrite Z.add_simpl_l. unfold user_bytes. cbn [app].
    apply (writes_bind _ _ [USER]); [apply writes_put_u8|].
    apply writes_bind; [by apply (writes_wire pair_w)|done].
Qed.

(** ** Property loops on what was encoded *)

(** [loop_reads table a s a']: the loop started in [a] on [s] ends in [a']. *)
Inductive loop_reads {S} (table : list (Z * handler S)) : S → bytes → S → Prop :=
| loop_end a : loop_reads table a [] a
| loop_next a id s rest a1 a' :
    dispatch id table a (s ++ rest) = (Ok a1, rest) →
    loop_reads table a1 rest a' → loop_reads table a (id :: s ++ rest) a'.

Lemma loop_reads_sound {S} (table : list (Z * handler S)) a s a' :
  loop_reads table a s a' → prop_loop table a s = (Ok a', []).
Proof.
  intros H. unfold prop_loop, while_remaining.
  enough (∀ fuel, (length s ≤ fuel)%nat →
    while_fuel fuel (λ a, id ← get_u8; dispatch id table a) a s = (Ok a', [])) as Hgen by auto.
  induction H as [a|a id s rest a1 a' Hd _ IH]; intros fuel Hf; [by destruct fuel|].
  destruct fuel as [|fuel]; [simpl in Hf; lia|]. cbn [while_fuel].
  rewrite (bind_ok _ _ _ true (id :: s ++ rest)) by done. cbv iota.
  erewrite bind_ok.
  2:{ erewrite bind_ok by done. exact Hd. }
  apply IH. simpl in Hf. rewrite length_app in Hf. lia.
Qed.

Lemma read_value_none {A} (w : wire A) `{!WireOk w} a rest :
  w_wf w a → read_value w None (w_bytes w a ++ rest) = (Ok (Some a), rest).
Proof.
  intros Ha. unfold read_value. erewrite bind_ok by done.
  by erewrite bind_ok by by apply wire_decode.
Qed.

Section LoopSteps.
Context {S : Type} (table : list (Z * handler S)).

Lemma reads_prop {A} (w : wire A) `{!WireOk w} id get set a o rest a' :
  dispatch id table = prop w get set → opt_wf w o → get a = None → set None a = a →
  loop_reads table (set o a) rest a' → loop_reads table a (prop_bytes w id o ++ rest) a'.
Proof.
  intros Hd Ho Hg Hs Hr. destruct o as [x|]; simpl; [|by rewrite Hs in Hr].
  eapply loop_next; [|exact Hr]. rewrite Hd. unfold prop. rewrite Hg.
  by erewrite bind_ok by by apply read_value_none.
Qed.

Lemma reads_users get set a us rest a' :
  dispatch USER table = user_prop get set → Forall pair_ok us → get a = [] →
  (∀ l l', set l' (set l a) = set l' a) → (∀ l, get (set l a) = l) → set [] a = a →
  loop_reads table (set us a) rest a' → loop_reads table a (users_bytes us ++ rest) a'.
Proof.
  intros Hd Hus Hg Hss Hgs Hs Hr.
  enough (∀ base, loop_reads table (set (base ++ us) a) rest a' →
    loop_reads table (set base a) (users_bytes us ++ rest) a') as Hgen.
  { rewrite <-Hs. by apply Hgen. }
  clear Hr. induction Hus as [|u us Hu _ IH]; intros base Hr.
  { by rewrite app_nil_r in Hr. }
  unfold users_bytes, user_bytes. cbn [map concat app]. rewrite <-app_assoc.
  eapply loop_next.
  - rewrite Hd. unfold user_prop. erewrite bind_ok by by apply (wire_decode (w := pair_w)).
    done.
  - rewrite Hgs, Hss. apply IH. by rewrite <-app_assoc.
Qed.

Lemma reads_end a : loop_reads table a [] a.
Proof. constructor. Qed.
End LoopSteps.

Lemma take_properties_spec b rest :
  len b ≤ VARINT_MAX → take_properties (varint (len b) ++ b ++ rest) = (Ok b, rest).
Proof.
  intros Hb. pose proof (len_nonneg b). pose proof (len_nonneg rest). unfold take_properties.
  erewrite bind_ok by (apply decode_varint; lia). erewrite bind_ok by done.
  erewrite bind_ok by (apply ensure_holds, Z.leb_le; rewrite len_app; lia).
  apply split_to_app.
Qed.

Lemma parse_properties_spec {S} (table : list (Z * handler S)) a b rest a' :
  len b ≤ VARINT_MAX → loop_reads table a b a' →
  parse_properties table a (varint (len b) ++ b ++ rest) = (Ok a', rest).
Proof.
  intros Hb Hl. unfold parse_properties. erewrite bind_ok by by apply take_properties_spec.
  unfold run_on. by rewrite (loop_reads_sound _ _ _ _ Hl).
Qed.

(** ** Property loops on arbitrary bytes *)

(** A handler keeps the invariant of the local variables and does not panic. *)
Definition handler_ok {S} (I : S → Prop) (h : handler S) : Prop :=
  ∀ a s, I a → bytes_ok s → wp (h a) s (λ a' s', I a' ∧ bytes_ok s' ∧ len s' ≤ len s).

Lemma wp_dispatch {S} (I : S → Prop) table id a s :
  Forall (λ kh, handler_ok I kh.2) table → I a → bytes_ok s →
  wp (dispatch id table a) s (λ a' s', I a' ∧ bytes_ok s' ∧ len s' ≤ len s).
Proof.
  intros Ht Ha Hs. induction Ht as [|[k h] table Hh _ IH]; simpl; [by apply wp_err|].
  destruct (id =? k); [by apply Hh|done].
Qed.

Lemma wp_prop_loop {S} (I : S → Prop) table a s :
  Forall (λ kh, handler_ok I kh.2) table → I a → bytes_ok s →
  wp (prop_loop table a) s (λ a' _, I a').
Proof.
  intros Ht Ha Hs. unfold prop_loop. eapply wp_mono.
  { apply (wp_while _ (λ a s, I a ∧ bytes_ok s)); [|done].
    intros a1 s1 [Ha1 Hs1] Hne. destruct s1 as [|id s1]; [done|].
    apply bytes_ok_cons in Hs1 as [_ Hs1]. apply wp_bind. unfold wp at 1; cbn [get_u8].
    eapply wp_mono; [by apply wp_dispatch|]. intros a2 s2 (? & ? & Hl).
    split; [done|]. unfold len in Hl. simpl. lia. }
  by intros a' s' (_ & ? & _).
Qed.

Lemma handler_prop {S A} (w : wire A) `{!WireOk w} (I : S → Prop) get set :
  (∀ a x, I a → w_wf w x → I (set (Some x) a)) → handler_ok I (prop w get set).
Proof.
  intros HI a s Ha Hs. unfold prop, read_value.
  apply wp_bind, wp_bind, wp_ensure. intros _.
  apply wp_bind, (wp_wire w); [done|]. intros x s' Hx -> Hs' _.
  apply wp_ret, wp_ret. split; [by apply HI|]. split; [done|].
  rewrite len_app. pose proof (len_nonneg (w_bytes w x)). lia.
Qed.

Lemma handler_user {S} (I : S → Prop) get set :
  (∀ a p, I a → pair_ok p → I (set (get a ++ [p]) a)) → handler_ok I (user_prop get set).
Proof.
  intros HI a s Ha Hs. unfold user_prop.
  apply wp_bind, (wp_wire pair_w); [done|]. intros x s' Hx -> Hs' _.
  apply wp_ret. split; [by apply HI|]. split; [done|].
  rewrite len_app. pose proof (len_nonneg (w_bytes pair_w x)). lia.
Qed.

Lemma wp_varint s (Q : Z → bytes → Prop) :
  bytes_ok s → (∀ n s', 0 ≤ n ≤ VARINT_MAX → bytes_ok s' → len s' < len s → Q n s') →
  wp decode_variable_length_cursor s Q.
Proof.
  intros Hs HQ. unfold wp, decode_variable_length_cursor.
  pose proof (dvl_loop_result s Hs 0 0 ltac:(lia) ltac:(lia)) as Hr. change (7 * 0) with 0 in Hr.
  destruct (dvl_loop s 0 0) as [[n|e|] s']; [|done..].
  destruct Hr as (Hn & pre & Hne & ->). apply bytes_ok_app in Hs as [_ ?].
  apply HQ; [unfold VARINT_MAX; lia|done|].
  rewrite len_app. destruct pre; [done|]. rewrite len_cons. pose proof (len_nonneg pre). lia.
Qed.

Lemma wp_parse {S} (I : S → Prop) table a s (Q : S → bytes → Prop) :
  Forall (λ kh, handler_ok I kh.2) table → I a → bytes_ok s →
  (∀ a' s', I a' → bytes_ok s' → Q a' s') → wp (parse_properties table a) s Q.
Proof.
  intros Ht Ha Hs HQ. unfold parse_properties, take_properties.
  apply wp_bind, wp_bind, wp_varint; [done|]. intros n s1 Hn Hs1 _.
  apply wp_bind, wp_remaining, wp_bind, wp_ensure. intros Hle%Z.leb_le.
  unfold wp at 1, split_to. rewrite (proj2 (Z.leb_le _ _)) by lia.
  pose proof (wp_prop_loop I table a (take (Z.to_nat n) s1) Ht Ha (bytes_ok_take _ _ Hs1)) as Hl.
  unfold wp, run_on in *. destruct (prop_loop table a _) as [[a'|e|] ?]; simpl in *; try done.
  apply HQ; [done|by apply bytes_ok_drop].
Qed.

(** ** Acknowledgement properties *)

(** What [ack_props] writes under a limit. *)
Definition ack_fit (us : UserProperties) (reason : option bytes) (limit : Z) :=
  if limit <? 4 then ([], None) else fit us reason (limit - 4).

Definition ack_bytes (d : UserProperties * option bytes) : bytes :=
  varint (len (diag_bytes d)) ++ diag_bytes d.

Lemma ack_fit_wf us reason limit :
  diag_wf us reason → diag_wf (ack_fit us reason limit).1 (ack_fit us reason limit).2.
Proof. intros H. unfold ack_fit. case_match; [by split; constructor|by apply fit_wf]. Qed.

Lemma ack_size us reason limit :
  diag_wf us reason → 0 ≤ limit → ack_props_encoded_size us reason limit ≤ VARINT_MAX →
  ack_props_encoded_size us reason limit = len (ack_bytes (ack_fit us reason limit)) ∧
  len (diag_bytes (ack_fit us reason limit)) ≤ VARINT_MAX.
Proof.
  intros Hd Hl. unfold ack_props_encoded_size, ack_fit, ack_bytes.
  destruct (Z.ltb_spec limit 4); [done|].
  destruct (opt_props_size us reason (limit - 4) 0 Hd ltac:(lia)) as [-> Hb].
  pose proof (len_nonneg (diag_bytes (fit us reason (limit - 4)))).
  rewrite Z.add_0_l. set (n := len (diag_bytes _)) in *. pose proof (var_int_len_nonneg n).
  intros. rewrite len_app, var_int_len_varint by lia. fold n. lia.
Qed.

Lemma writes_ack checks us reason limit :
  diag_wf us reason → 0 ≤ limit → len (diag_bytes (ack_fit us reason limit)) ≤ VARINT_MAX →
  writes (ack_props_encode checks us reason (len (ack_bytes (ack_fit us reason limit))))
         (ack_bytes (ack_fit us reason limit)).
Proof.
  intros Hd Hl Hmax. unfold ack_props_encode. set (d := ack_fit us reason limit) in *.
  pose proof (len_nonneg (diag_bytes d)) as Hn.
  pose proof (varint_length (len (diag_bytes d)) ltac:(lia)) as Hvl.
  assert (Hlen : len (ack_bytes d) = len (varint (len (diag_bytes d))) + len (diag_bytes d))
    by apply len_app.
  intros buf. rewrite (bind_ok _ _ _ tt buf).
  2:{ rewrite (proj2 (Z.ltb_lt _ _)) by lia. by rewrite andb_false_r. }
  destruct (Z.eqb_spec (len (ack_bytes d)) 1) as [H1|H1].
  - assert (H0 : len (diag_bytes d) = 0) by lia. unfold ack_bytes. rewrite H0.
    apply len_0_inv in H0. rewrite H0. done.
  - rewrite (bind_ok _ _ _ (len (diag_bytes d)) buf).
    2:{ unfold lift. rewrite Hlen, <-var_int_len_varint by lia.
        by rewrite var_int_len_from_size_spec by lia. }
    cbv beta. revert buf. apply writes_bind; [apply writes_varint; lia|].
    unfold d, ack_fit in *. destruct (Z.ltb_spec limit 4).
    + lia || (exfalso; apply H1; done).
    + apply writes_opt_props; [done|lia].
Qed.

Lemma ack_props_decode_spec us reason rest :
  diag_wf us reason → len (diag_bytes (us, reason)) ≤ VARINT_MAX →
  ack_props_decode (ack_bytes (us, reason) ++ rest) = (Ok (mkAckProps us reason), rest).
Proof.
  intros [Hus Hr] Hmax. unfold ack_props_decode, ack_bytes. rewrite <-app_assoc.
  apply parse_properties_spec; [done|]. unfold diag_bytes. cbn [fst snd].
  eapply (reads_users ack_table); [reflexivity|done|done|done|done|done|].
  rewrite <-(app_nil_r (prop_bytes _ _ _)).
  eapply (reads_prop ack_table string_w); [reflexivity|done|done|done|]. apply reads_end.
Qed.

Definition ack_ok (a : AckProps) : Prop := diag_wf (ap_user a) (ap_reason a).

Lemma wp_ack_props s (Q : AckProps → bytes → Prop) :
  bytes_ok s → (∀ a s', ack_ok a → bytes_ok s' → Q a s') → wp ack_props_decode s Q.
Proof.
  intros Hs HQ. apply (wp_parse ack_ok); [|by split; constructor|done|done].
  repeat apply Forall_cons; try apply Forall_nil; cbn [snd].
  - apply (handler_prop string_w). by intros a x [? ?] ?.
  - apply handler_user. intros a p [? ?] ?. split; [|done]. simpl. apply Forall_app. split; [done|].
    by apply Forall_singleton.
Qed.
