(* ===== verification/PacketV5.v ===== *)
(** * MQTT 5 packets and their decoders

    Models the packet types and [decode] functions of
    [ferromq-codec/src/v5/packet/*.rs] and the dispatcher of
    [ferromq-codec/src/v5/decode.rs].  Every packet's local variables during its
    property loop are a record, with one setter per variable; the arms of the
    loop's [match] are the entries of a table (see [PropsV5]). *)

From stdpp Require Import base list numbers option.
From Stdlib Require Import ZArith Lia.
From S2P Require Import Prelude Errors Wire CodecTypes PropsV5.

#[local] Open Scope Z_scope.

(** ** [prim_enum!]

    The macro derives [TryFrom<u8>] from the list of variants and their codes. *)
Definition prim_try_from {A} (code : A → Z) (all : list A) (v : Z) : outcome DecodeError A :=
  match find (λ a, code a =? v) all with
  | Some a => Ok a
  | None => Err MalformedPacket
  end.

(** PUBACK / PUBREC reason codes *)
Inductive PublishAckReason : Type := PASuccess | PANoMatchingSubscribers | PAUnspecifiedError |
  PAImplementationSpecificError | PANotAuthorized | PATopicNameInvalid |
  PAPacketIdentifierInUse | PAQuotaExceeded | PAPayloadFormatInvalid.

Definition puback_code (v : PublishAckReason) : Z :=
  match v with
  | PASuccess => 0
  | PANoMatchingSubscribers => 16
  | PAUnspecifiedError => 128
  | PAImplementationSpecificError => 131
  | PANotAuthorized => 135
  | PATopicNameInvalid => 144
  | PAPacketIdentifierInUse => 145
  | PAQuotaExceeded => 151
  | PAPayloadFormatInvalid => 153
  end.

Definition puback_all : list PublishAckReason := [PASuccess; PANoMatchingSubscribers;
  PAUnspecifiedError; PAImplementationSpecificError; PANotAuthorized; PATopicNameInvalid;
  PAPacketIdentifierInUse; PAQuotaExceeded; PAPayloadFormatInvalid].
Definition puback_try_from : Z → outcome DecodeError PublishAckReason := prim_try_from puback_code puback_all.

#[export] Instance PublishAckReason_eq_dec : EqDecision PublishAckReason.
Proof. solve_decision. Defined.

(** PUBREL / PUBCOMP reason codes *)
Inductive PublishAck2Reason : Type := PA2Success | PA2PacketIdNotFound.

Definition pubrel_code (v : PublishAck2Reason) : Z :=
  match v with
  | PA2Success => 0
  | PA2PacketIdNotFound => 146
  end.

Definition pubrel_all : list PublishAck2Reason := [PA2Success; PA2PacketIdNotFound].
Definition pubrel_try_from : Z → outcome DecodeError PublishAck2Reason := prim_try_from pubrel_code pubrel_all.

#[export] Instance PublishAck2Reason_eq_dec : EqDecision PublishAck2Reason.
Proof. solve_decision. Defined.

(** CONNACK reason codes *)
Inductive ConnectAckReason : Type := CASuccess | CAUnspecifiedError | CAMalformedPacket |
  CAProtocolError | CAImplementationSpecificError | CAUnsupportedProtocolVersion |
  CAClientIdentifierNotValid | CABadUserNameOrPassword | CANotAuthorized | CAServerUnavailable
  | CAServerBusy | CABanned | CABadAuthenticationMethod | CATopicNameInvalid | CAPacketTooLarge
  | CAQuotaExceeded | CAPayloadFormatInvalid | CARetainNotSupported | CAQosNotSupported |
  CAUseAnotherServer | CAServerMoved | CAConnectionRateExceeded.

Definition connack5_code (v : ConnectAckReason) : Z :=
  match v with
  | CASuccess => 0
  | CAUnspecifiedError => 128
  | CAMalformedPacket => 129
  | CAProtocolError => 130
  | CAImplementationSpecificError => 131
  | CAUnsupportedProtocolVersion => 132
  | CAClientIdentifierNotValid => 133
  | CABadUserNameOrPassword => 134
  | CANotAuthorized => 135
  | CAServerUnavailable => 136
  | CAServerBusy => 137
  | CABanned => 138
  | CABadAuthenticationMethod => 140
  | CATopicNameInvalid => 144
  | CAPacketTooLarge => 149
  | CAQuotaExceeded => 151
  | CAPayloadFormatInvalid => 153
  | CARetainNotSupported => 154
  | CAQosNotSupported => 155
  | CAUseAnotherServer => 156
  | CAServerMoved => 157
  | CAConnectionRateExceeded => 159
  end.

Definition connack5_all : list ConnectAckReason := [CASuccess; CAUnspecifiedError;
  CAMalformedPacket; CAProtocolError; CAImplementationSpecificError;
  CAUnsupportedProtocolVersion; CAClientIdentifierNotValid; CABadUserNameOrPassword;
  CANotAuthorized; CAServerUnavailable; CAServerBusy; CABanned; CABadAuthenticationMethod;
  CATopicNameInvalid; CAPacketTooLarge; CAQuotaExceeded; CAPayloadFormatInvalid;
  CARetainNotSupported; CAQosNotSupported; CAUseAnotherServer; CAServerMoved;
  CAConnectionRateExceeded].
Definition connack5_try_from : Z → outcome DecodeError ConnectAckReason := prim_try_from connack5_code connack5_all.

#[export] Instance ConnectAckReason_eq_dec : EqDecision ConnectAckReason.
Proof. solve_decision. Defined.

(** SUBACK reason codes *)
Inductive SubscribeAckReason : Type := SAGrantedQos0 | SAGrantedQos1 | SAGrantedQos2 |
  SAUnspecifiedError | SAImplementationSpecificError | SANotAuthorized | SATopicFilterInvalid |
  SAPacketIdentifierInUse | SAQuotaExceeded | SASharedSubscriptionNotSupported |
  SASubscriptionIdentifiersNotSupported | SAWildcardSubscriptionsNotSupported.

Definition suback_code (v : SubscribeAckReason) : Z :=
  match v with
  | SAGrantedQos0 => 0
  | SAGrantedQos1 => 1
  | SAGrantedQos2 => 2
  | SAUnspecifiedError => 128
  | SAImplementationSpecificError => 131
  | SANotAuthorized => 135
  | SATopicFilterInvalid => 143
  | SAPacketIdentifierInUse => 145
  | SAQuotaExceeded => 151
  | SASharedSubscriptionNotSupported => 158
  | SASubscriptionIdentifiersNotSupported => 161
  | SAWildcardSubscriptionsNotSupported => 162
  end.

Definition suback_all : list SubscribeAckReason := [SAGrantedQos0; SAGrantedQos1;
  SAGrantedQos2; SAUnspecifiedError; SAImplementationSpecificError; SANotAuthorized;
  SATopicFilterInvalid; SAPacketIdentifierInUse; SAQuotaExceeded;
  SASharedSubscriptionNotSupported; SASubscriptionIdentifiersNotSupported;
  SAWildcardSubscriptionsNotSupported].
Definition suback_try_from : Z → outcome DecodeError SubscribeAckReason := prim_try_from suback_code suback_all.

#[export] Instance SubscribeAckReason_eq_dec : EqDecision SubscribeAckReason.
Proof. solve_decision. Defined.

(** UNSUBACK reason codes *)
Inductive UnsubscribeAckReason : Type := UASuccess | UANoSubscriptionExisted |
  UAUnspecifiedError | UAImplementationSpecificError | UANotAuthorized | UATopicFilterInvalid |
  UAPacketIdentifierInUse.

Definition unsuback_code (v : UnsubscribeAckReason) : Z :=
  match v with
  | UASuccess => 0
  | UANoSubscriptionExisted => 17
  | UAUnspecifiedError => 128
  | UAImplementationSpecificError => 131
  | UANotAuthorized => 135
  | UATopicFilterInvalid => 143
  | UAPacketIdentifierInUse => 145
  end.

Definition unsuback_all : list UnsubscribeAckReason := [UASuccess; UANoSubscriptionExisted;
  UAUnspecifiedError; UAImplementationSpecificError; UANotAuthorized; UATopicFilterInvalid;
  UAPacketIdentifierInUse].
Definition unsuback_try_from : Z → outcome DecodeError UnsubscribeAckReason := prim_try_from unsuback_code unsuback_all.

#[export] Instance UnsubscribeAckReason_eq_dec : EqDecision UnsubscribeAckReason.
Proof. solve_decision. Defined.

(** AUTH reason codes *)
Inductive AuthReasonCode : Type := AUSuccess | AUContinueAuth | AUReAuth.

Definition auth_code (v : AuthReasonCode) : Z :=
  match v with
  | AUSuccess => 0
  | AUContinueAuth => 24
  | AUReAuth => 25
  end.

Definition auth_all : list AuthReasonCode := [AUSuccess; AUContinueAuth; AUReAuth].
Definition auth_try_from : Z → outcome DecodeError AuthReasonCode := prim_try_from auth_code auth_all.

#[export] Instance AuthReasonCode_eq_dec : EqDecision AuthReasonCode.
Proof. solve_decision. Defined.

(** Retain handling of a subscription *)
Inductive RetainHandling : Type := RHAtSubscribe | RHAtSubscribeNew | RHNoAtSubscribe.

Definition retain_handling_code (v : RetainHandling) : Z :=
  match v with
  | RHAtSubscribe => 0
  | RHAtSubscribeNew => 1
  | RHNoAtSubscribe => 2
  end.

Definition retain_handling_all : list RetainHandling := [RHAtSubscribe; RHAtSubscribeNew;
  RHNoAtSubscribe].
Definition retain_handling_try_from : Z → outcome DecodeError RetainHandling := prim_try_from retain_handling_code retain_handling_all.

#[export] Instance RetainHandling_eq_dec : EqDecision RetainHandling.
Proof. solve_decision. Defined.

(** [PublishAckReason::should_disconnect] and [to_reason_code], and those of
    [PublishAck2Reason] *)
Definition puback_should_disconnect (r : PublishAckReason) : bool :=
  match r with
  | PAUnspecifiedError | PAImplementationSpecificError | PANotAuthorized | PATopicNameInvalid => true
  | _ => false
  end.

Definition puback_to_reason_code (r : PublishAckReason) : DisconnectReasonCode :=
  match r with
  | PASuccess | PANoMatchingSubscribers => NormalDisconnection
  | PAUnspecifiedError => UnspecifiedError
  | PAImplementationSpecificError => ImplementationSpecificError
  | PANotAuthorized => NotAuthorized
  | PATopicNameInvalid => TopicNameInvalid
  | PAPacketIdentifierInUse => ProtocolErrorCode
  | PAQuotaExceeded => QuotaExceeded
  | PAPayloadFormatInvalid => PayloadFormatInvalid
  end.

Definition pubrel_should_disconnect (r : PublishAck2Reason) : bool :=
  match r with PA2PacketIdNotFound => true | _ => false end.

Definition pubrel_to_reason_code (r : PublishAck2Reason) : DisconnectReasonCode :=
  match r with
  | PA2Success => NormalDisconnection
  | PA2PacketIdNotFound => ImplementationSpecificError
  end.

(** [LastWill] *)
Record LastWill : Type := mkLastWill {
  lw_qos : QoS;
  lw_retain : bool;
  lw_topic : bytes;
  lw_message : bytes;
  lw_will_delay_interval_sec : option Z;
  lw_correlation_data : option bytes;
  lw_message_expiry_interval : option Z;
  lw_content_type : option bytes;
  lw_user_properties : UserProperties;
  lw_is_utf8_payload : option bool;
  lw_response_topic : option bytes;
}.

(** [Connect] *)
Record Connect : Type := mkConnect {
  c_clean_start : bool;
  c_keep_alive : Z;
  c_session_expiry_interval_secs : Z;
  c_auth_method : option bytes;
  c_auth_data : option bytes;
  c_request_problem_info : bool;
  c_request_response_info : bool;
  c_receive_max : option Z;
  c_topic_alias_max : Z;
  c_user_properties : UserProperties;
  c_max_packet_size : option Z;
  c_last_will : option LastWill;
  c_client_id : bytes;
  c_username : option bytes;
  c_password : option bytes;
  c_cert : option CertInfo;
}.

(** The builders [client_id] and [receive_max] *)
Definition connect_client_id (client_id : bytes) (c : Connect) : Connect :=
  mkConnect (c_clean_start c) (c_keep_alive c) (c_session_expiry_interval_secs c)
    (c_auth_method c) (c_auth_data c) (c_request_problem_info c) (c_request_response_info c)
    (c_receive_max c) (c_topic_alias_max c) (c_user_properties c) (c_max_packet_size c)
    (c_last_will c) client_id (c_username c) (c_password c) (c_cert c).
Definition connect_receive_max (max : Z) (c : Connect) : Connect :=
  mkConnect (c_clean_start c) (c_keep_alive c) (c_session_expiry_interval_secs c)
    (c_auth_method c) (c_auth_data c) (c_request_problem_info c) (c_request_response_info c)
    (non_zero max) (c_topic_alias_max c) (c_user_properties c) (c_max_packet_size c)
    (c_last_will c) (c_client_id c) (c_username c) (c_password c) (c_cert c).

(** [ConnectAck] *)
Record ConnectAck : Type := mkConnectAck {
  ca_session_present : bool;
  ca_reason_code : ConnectAckReason;
  ca_session_expiry_interval_secs : option Z;
  ca_receive_max : Z;
  ca_max_qos : QoS;
  ca_max_packet_size : option Z;
  ca_assigned_client_id : option bytes;
  ca_topic_alias_max : Z;
  ca_retain_available : bool;
  ca_wildcard_subscription_available : bool;
  ca_subscription_identifiers_available : bool;
  ca_shared_subscription_available : bool;
  ca_server_keepalive_sec : option Z;
  ca_response_info : option bytes;
  ca_server_reference : option bytes;
  ca_auth_method : option bytes;
  ca_auth_data : option bytes;
  ca_reason_string : option bytes;
  ca_user_properties : UserProperties;
}.

(** [PublishAck] and [PublishAck2], which differ in their reason codes *)
Record PublishAckOf (R : Type) : Type := mkPublishAck {
  pa_packet_id : Z;
  pa_reason_code : R;
  pa_properties : UserProperties;
  pa_reason_string : option bytes;
}.

Arguments mkPublishAck {R}. Arguments pa_packet_id {R}. Arguments pa_reason_code {R}.
Arguments pa_properties {R}. Arguments pa_reason_string {R}.
Definition PublishAck : Type := PublishAckOf PublishAckReason.
Definition PublishAck2 : Type := PublishAckOf PublishAck2Reason.

(** [SubscriptionOptions] *)
Record SubscriptionOptions : Type := mkSubOptions {
  so_qos : QoS;
  so_no_local : bool;
  so_retain_as_published : bool;
  so_retain_handling : RetainHandling;
}.

(** [Subscribe] *)
Record Subscribe : Type := mkSubscribe {
  sub_packet_id : Z;
  sub_id : option Z;
  sub_user_properties : UserProperties;
  sub_topic_filters : list (bytes * SubscriptionOptions);
}.

(** [SubscribeAck] *)
Record SubscribeAck : Type := mkSubscribeAck {
  sa_packet_id : Z;
  sa_properties : UserProperties;
  sa_reason_string : option bytes;
  sa_status : list SubscribeAckReason;
}.

(** [Unsubscribe] *)
Record Unsubscribe : Type := mkUnsubscribe {
  un_packet_id : Z;
  un_user_properties : UserProperties;
  un_topic_filters : list bytes;
}.

(** [UnsubscribeAck] *)
Record UnsubscribeAck : Type := mkUnsubscribeAck {
  ua_packet_id : Z;
  ua_properties : UserProperties;
  ua_reason_string : option bytes;
  ua_status : list UnsubscribeAckReason;
}.

(** [Disconnect] *)
Record Disconnect : Type := mkDisconnect {
  d_reason_code : DisconnectReasonCode;
  d_session_expiry_interval_secs : option Z;
  d_server_reference : option bytes;
  d_reason_string : option bytes;
  d_user_properties : UserProperties;
}.

(** [Auth] *)
Record Auth : Type := mkAuth {
  au_reason_code : AuthReasonCode;
  au_auth_method : option bytes;
  au_auth_data : option bytes;
  au_reason_string : option bytes;
  au_user_properties : UserProperties;
}.

(** [Packet] *)
Inductive Packet : Type :=
| V5Connect (c : Connect)
| V5ConnectAck (a : ConnectAck)
| V5Publish (p : Publish)
| V5PublishAck (a : PublishAck)
| V5PublishReceived (a : PublishAck)
| V5PublishRelease (a : PublishAck2)
| V5PublishComplete (a : PublishAck2)
| V5Subscribe (s : Subscribe)
| V5SubscribeAck (a : SubscribeAck)
| V5Unsubscribe (u : Unsubscribe)
| V5UnsubscribeAck (a : UnsubscribeAck)
| V5PingRequest
| V5PingResponse
| V5Disconnect (d : Disconnect)
| V5Auth (a : Auth).

Definition packet_type (p : Packet) : Z :=
  match p with
  | V5Connect _ => CONNECT
  | V5ConnectAck _ => CONNACK
  | V5Publish _ => PUBLISH_START
  | V5PublishAck _ => PUBACK
  | V5PublishReceived _ => PUBREC
  | V5PublishRelease _ => PUBREL
  | V5PublishComplete _ => PUBCOMP
  | V5Subscribe _ => SUBSCRIBE
  | V5SubscribeAck _ => SUBACK
  | V5Unsubscribe _ => UNSUBSCRIBE
  | V5UnsubscribeAck _ => UNSUBACK
  | V5PingRequest => PINGREQ
  | V5PingResponse => PINGRESP
  | V5Disconnect _ => DISCONNECT
  | V5Auth _ => AUTH
  end.

Definition RECEIVE_MAX_DEFAULT : Z := 65535.

(** [Default] *)
Definition connect_default : Connect :=
  mkConnect false 0 0 None None true false None 0 [] None None [] None None None.
Definition connect_ack_default : ConnectAck :=
  mkConnectAck false CASuccess None RECEIVE_MAX_DEFAULT ExactlyOnce None None 0 true true true true
               None None None None None None [].
Definition publish_ack_default : PublishAck := mkPublishAck 1 PASuccess [] None.
Definition publish_ack2_default : PublishAck2 := mkPublishAck 1 PA2Success [] None.
Definition sub_options_default : SubscriptionOptions :=
  mkSubOptions AtMostOnce false false RHAtSubscribe.
Definition disconnect_new (reason_code : DisconnectReasonCode) : Disconnect :=
  mkDisconnect reason_code None None None [].
Definition disconnect_default : Disconnect := disconnect_new NormalDisconnection.
Definition auth_default : Auth := mkAuth AUSuccess None None None [].
Definition publish_properties_default : PublishProperties :=
  mkPublishProperties None None None None [] false None [].

(** The byte of a [QoS], as the CONNACK property reads and writes it. *)
Definition decode_qos : reader QoS :=
  r ← has_remaining; ensure r InvalidLength ;;
  b ← get_u8; lift (qos_try_from b).
Definition qos_w : wire QoS :=
  Wire decode_qos (λ q, put_u8 (qos_value q)) (λ _, 1) (λ _, True) (λ q, [qos_value q]).

(** [NonZeroU32::new(decode_variable_length_cursor(src)?)] *)
Definition decode_varint_nz : reader Z :=
  n ← decode_variable_length_cursor; ok_or (non_zero n) MalformedPacket.

(** The local variables of [Connect::decode] *)
Record ConnectProps : Type := mkConnectProps {
  cp_session_expiry_interval_secs : option Z;
  cp_auth_method : option bytes;
  cp_auth_data : option bytes;
  cp_request_problem_info : option bool;
  cp_request_response_info : option bool;
  cp_receive_max : option Z;
  cp_topic_alias_max : option Z;
  cp_user_properties : UserProperties;
  cp_max_packet_size : option Z;
}.

Definition set_cp_session_expiry_interval_secs (v : option Z) (a : ConnectProps) : ConnectProps :=
  mkConnectProps v (cp_auth_method a) (cp_auth_data a) (cp_request_problem_info a)
    (cp_request_response_info a) (cp_receive_max a) (cp_topic_alias_max a) (cp_user_properties
    a) (cp_max_packet_size a).
Definition set_cp_auth_method (v : option bytes) (a : ConnectProps) : ConnectProps :=
  mkConnectProps (cp_session_expiry_interval_secs a) v (cp_auth_data a)
    (cp_request_problem_info a) (cp_request_response_info a) (cp_receive_max a)
    (cp_topic_alias_max a) (cp_user_properties a) (cp_max_packet_size a).
Definition set_cp_auth_data (v : option bytes) (a : ConnectProps) : ConnectProps :=
  mkConnectProps (cp_session_expiry_interval_secs a) (cp_auth_method a) v
    (cp_request_problem_info a) (cp_request_response_info a) (cp_receive_max a)
    (cp_topic_alias_max a) (cp_user_properties a) (cp_max_packet_size a).
Definition set_cp_request_problem_info (v : option bool) (a : ConnectProps) : ConnectProps :=
  mkConnectProps (cp_session_expiry_interval_secs a) (cp_auth_method a) (cp_auth_data a) v
    (cp_request_response_info a) (cp_receive_max a) (cp_topic_alias_max a) (cp_user_properties
    a) (cp_max_packet_size a).
Definition set_cp_request_response_info (v : option bool) (a : ConnectProps) : ConnectProps :=
  mkConnectProps (cp_session_expiry_interval_secs a) (cp_auth_method a) (cp_auth_data a)
    (cp_request_problem_info a) v (cp_receive_max a) (cp_topic_alias_max a) (cp_user_properties
    a) (cp_max_packet_size a).
Definition set_cp_receive_max (v : option Z) (a : ConnectProps) : ConnectProps :=
  mkConnectProps (cp_session_expiry_interval_secs a) (cp_auth_method a) (cp_auth_data a)
    (cp_request_problem_info a) (cp_request_response_info a) v (cp_topic_alias_max a)
    (cp_user_properties a) (cp_max_packet_size a).
Definition set_cp_topic_alias_max (v : option Z) (a : ConnectProps) : ConnectProps :=
  mkConnectProps (cp_session_expiry_interval_secs a) (cp_auth_method a) (cp_auth_data a)
    (cp_request_problem_info a) (cp_request_response_info a) (cp_receive_max a) v
    (cp_user_properties a) (cp_max_packet_size a).
Definition set_cp_user_properties (v : UserProperties) (a : ConnectProps) : ConnectProps :=
  mkConnectProps (cp_session_expiry_interval_secs a) (cp_auth_method a) (cp_auth_data a)
    (cp_request_problem_info a) (cp_request_response_info a) (cp_receive_max a)
    (cp_topic_alias_max a) v (cp_max_packet_size a).
Definition set_cp_max_packet_size (v : option Z) (a : ConnectProps) : ConnectProps :=
  mkConnectProps (cp_session_expiry_interval_secs a) (cp_auth_method a) (cp_auth_data a)
    (cp_request_problem_info a) (cp_request_response_info a) (cp_receive_max a)
    (cp_topic_alias_max a) (cp_user_properties a) v.

Definition connect_init : ConnectProps :=
  mkConnectProps None None None None None None None [] None.

Definition connect_table : list (Z * handler ConnectProps) :=
  [(SESS_EXPIRY_INT, prop u32_w cp_session_expiry_interval_secs set_cp_session_expiry_interval_secs);
   (AUTH_METHOD, prop string_w cp_auth_method set_cp_auth_method);
   (AUTH_DATA, prop bytes_w cp_auth_data set_cp_auth_data);
   (REQ_PROB_INFO, prop bool_w cp_request_problem_info set_cp_request_problem_info);
   (REQ_RESP_INFO, prop bool_w cp_request_response_info set_cp_request_response_info);
   (RECEIVE_MAX, prop nz_u16_w cp_receive_max set_cp_receive_max);
   (TOPIC_ALIAS_MAX, prop u16_w cp_topic_alias_max set_cp_topic_alias_max);
   (USER, user_prop cp_user_properties set_cp_user_properties);
   (MAX_PACKET_SIZE_ID, prop nz_u32_w cp_max_packet_size set_cp_max_packet_size)].

(** The local variables of [decode_last_will] *)
Record WillProps : Type := mkWillProps {
  wp_will_delay_interval_sec : option Z;
  wp_correlation_data : option bytes;
  wp_message_expiry_interval : option Z;
  wp_content_type : option bytes;
  wp_user_properties : UserProperties;
  wp_is_utf8_payload : option bool;
  wp_response_topic : option bytes;
}.

Definition set_wp_will_delay_interval_sec (v : option Z) (a : WillProps) : WillProps :=
  mkWillProps v (wp_correlation_data a) (wp_message_expiry_interval a) (wp_content_type a)
    (wp_user_properties a) (wp_is_utf8_payload a) (wp_response_topic a).
Definition set_wp_correlation_data (v : option bytes) (a : WillProps) : WillProps :=
  mkWillProps (wp_will_delay_interval_sec a) v (wp_message_expiry_interval a) (wp_content_type
    a) (wp_user_properties a) (wp_is_utf8_payload a) (wp_response_topic a).
Definition set_wp_message_expiry_interval (v : option Z) (a : WillProps) : WillProps :=
  mkWillProps (wp_will_delay_interval_sec a) (wp_correlation_data a) v (wp_content_type a)
    (wp_user_properties a) (wp_is_utf8_payload a) (wp_response_topic a).
Definition set_wp_content_type (v : option bytes) (a : WillProps) : WillProps :=
  mkWillProps (wp_will_delay_interval_sec a) (wp_correlation_data a)
    (wp_message_expiry_interval a) v (wp_user_properties a) (wp_is_utf8_payload a)
    (wp_response_topic a).
Definition set_wp_user_properties (v : UserProperties) (a : WillProps) : WillProps :=
  mkWillProps (wp_will_delay_interval_sec a) (wp_correlation_data a)
    (wp_message_expiry_interval a) (wp_content_type a) v (wp_is_utf8_payload a)
    (wp_response_topic a).
Definition set_wp_is_utf8_payload (v : option bool) (a : WillProps) : WillProps :=
  mkWillProps (wp_will_delay_interval_sec a) (wp_correlation_data a)
    (wp_message_expiry_interval a) (wp_content_type a) (wp_user_properties a) v
    (wp_response_topic a).
Definition set_wp_response_topic (v : option bytes) (a : WillProps) : WillProps :=
  mkWillProps (wp_will_delay_interval_sec a) (wp_correlation_data a)
    (wp_message_expiry_interval a) (wp_content_type a) (wp_user_properties a)
    (wp_is_utf8_payload a) v.

Definition will_init : WillProps :=
  mkWillProps None None None None [] None None.

Definition will_table : list (Z * handler WillProps) :=
  [(WILL_DELAY_INT, prop u32_w wp_will_delay_interval_sec set_wp_will_delay_interval_sec);
   (CORR_DATA, prop bytes_w wp_correlation_data set_wp_correlation_data);
   (MSG_EXPIRY_INT, prop nz_u32_w wp_message_expiry_interval set_wp_message_expiry_interval);
   (CONTENT_TYPE, prop string_w wp_content_type set_wp_content_type);
   (UTF8_PAYLOAD, prop bool_w wp_is_utf8_payload set_wp_is_utf8_payload);
   (RESP_TOPIC, prop string_w wp_response_topic set_wp_response_topic);
   (USER, user_prop wp_user_properties set_wp_user_properties)].

(** The local variables of [ConnectAck::decode] *)
Record ConnectAckProps : Type := mkConnectAckProps {
  kp_session_expiry_interval_secs : option Z;
  kp_receive_max : option Z;
  kp_max_qos : option QoS;
  kp_retain_available : option bool;
  kp_max_packet_size : option Z;
  kp_assigned_client_id : option bytes;
  kp_topic_alias_max : option Z;
  kp_reason_string : option bytes;
  kp_user_properties : UserProperties;
  kp_wildcard_sub_avail : option bool;
  kp_sub_ids_avail : option bool;
  kp_shared_sub_avail : option bool;
  kp_server_ka_sec : option Z;
  kp_response_info : option bytes;
  kp_server_reference : option bytes;
  kp_auth_method : option bytes;
  kp_auth_data : option bytes;
}.

Definition set_kp_session_expiry_interval_secs (v : option Z) (a : ConnectAckProps) : ConnectAckProps :=
  mkConnectAckProps v (kp_receive_max a) (kp_max_qos a) (kp_retain_available a)
    (kp_max_packet_size a) (kp_assigned_client_id a) (kp_topic_alias_max a) (kp_reason_string
    a) (kp_user_properties a) (kp_wildcard_sub_avail a) (kp_sub_ids_avail a)
    (kp_shared_sub_avail a) (kp_server_ka_sec a) (kp_response_info a) (kp_server_reference a)
    (kp_auth_method a) (kp_auth_data a).
Definition set_kp_receive_max (v : option Z) (a : ConnectAckProps) : ConnectAckProps :=
  mkConnectAckProps (kp_session_expiry_interval_secs a) v (kp_max_qos a) (kp_retain_available
    a) (kp_max_packet_size a) (kp_assigned_client_id a) (kp_topic_alias_max a)
    (kp_reason_string a) (kp_user_properties a) (kp_wildcard_sub_avail a) (kp_sub_ids_avail a)
    (kp_shared_sub_avail a) (kp_server_ka_sec a) (kp_response_info a) (kp_server_reference a)
    (kp_auth_method a) (kp_auth_data a).
Definition set_kp_max_qos (v : option QoS) (a : ConnectAckProps) : ConnectAckProps :=
  mkConnectAckProps (kp_session_expiry_interval_secs a) (kp_receive_max a) v
    (kp_retain_available a) (kp_max_packet_size a) (kp_assigned_client_id a)
    (kp_topic_alias_max a) (kp_reason_string a) (kp_user_properties a) (kp_wildcard_sub_avail
    a) (kp_sub_ids_avail a) (kp_shared_sub_avail a) (kp_server_ka_sec a) (kp_response_info a)
    (kp_server_reference a) (kp_auth_method a) (kp_auth_data a).
Definition set_kp_retain_available (v : option bool) (a : ConnectAckProps) : ConnectAckProps :=
  mkConnectAckProps (kp_session_expiry_interval_secs a) (kp_receive_max a) (kp_max_qos a) v
    (kp_max_packet_size a) (kp_assigned_client_id a) (kp_topic_alias_max a) (kp_reason_string
    a) (kp_user_properties a) (kp_wildcard_sub_avail a) (kp_sub_ids_avail a)
    (kp_shared_sub_avail a) (kp_server_ka_sec a) (kp_response_info a) (kp_server_reference a)
    (kp_auth_method a) (kp_auth_data a).
Definition set_kp_max_packet_size (v : option Z) (a : ConnectAckProps) : ConnectAckProps :=
  mkConnectAckProps (kp_session_expiry_interval_secs a) (kp_receive_max a) (kp_max_qos a)
    (kp_retain_available a) v (kp_assigned_client_id a) (kp_topic_alias_max a)
    (kp_reason_string a) (kp_user_properties a) (kp_wildcard_sub_avail a) (kp_sub_ids_avail a)
    (kp_shared_sub_avail a) (kp_server_ka_sec a) (kp_response_info a) (kp_server_reference a)
    (kp_auth_method a) (kp_auth_data a).
Definition set_kp_assigned_client_id (v : option bytes) (a : ConnectAckProps) : ConnectAckProps :=
  mkConnectAckProps (kp_session_expiry_interval_secs a) (kp_receive_max a) (kp_max_qos a)
    (kp_retain_available a) (kp_max_packet_size a) v (kp_topic_alias_max a) (kp_reason_string
    a) (kp_user_properties a) (kp_wildcard_sub_avail a) (kp_sub_ids_avail a)
    (kp_shared_sub_avail a) (kp_server_ka_sec a) (kp_response_info a) (kp_server_reference a)
    (kp_auth_method a) (kp_auth_data a).
Definition set_kp_topic_alias_max (v : option Z) (a : ConnectAckProps) : ConnectAckProps :=
  mkConnectAckProps (kp_session_expiry_interval_secs a) (kp_receive_max a) (kp_max_qos a)
    (kp_retain_available a) (kp_max_packet_size a) (kp_assigned_client_id a) v
    (kp_reason_string a) (kp_user_properties a) (kp_wildcard_sub_avail a) (kp_sub_ids_avail a)
    (kp_shared_sub_avail a) (kp_server_ka_sec a) (kp_response_info a) (kp_server_reference a)
    (kp_auth_method a) (kp_auth_data a).
Definition set_kp_reason_string (v : option bytes) (a : ConnectAckProps) : ConnectAckProps :=
  mkConnectAckProps (kp_session_expiry_interval_secs a) (kp_receive_max a) (kp_max_qos a)
    (kp_retain_available a) (kp_max_packet_size a) (kp_assigned_client_id a)
    (kp_topic_alias_max a) v (kp_user_properties a) (kp_wildcard_sub_avail a) (kp_sub_ids_avail
    a) (kp_shared_sub_avail a) (kp_server_ka_sec a) (kp_response_info a) (kp_server_reference
    a) (kp_auth_method a) (kp_auth_data a).
Definition set_kp_user_properties (v : UserProperties) (a : ConnectAckProps) : ConnectAckProps :=
  mkConnectAckProps (kp_session_expiry_interval_secs a) (kp_receive_max a) (kp_max_qos a)
    (kp_retain_available a) (kp_max_packet_size a) (kp_assigned_client_id a)
    (kp_topic_alias_max a) (kp_reason_string a) v (kp_wildcard_sub_avail a) (kp_sub_ids_avail
    a) (kp_shared_sub_avail a) (kp_server_ka_sec a) (kp_response_info a) (kp_server_reference
    a) (kp_auth_method a) (kp_auth_data a).
Definition set_kp_wildcard_sub_avail (v : option bool) (a : ConnectAckProps) : ConnectAckProps :=
  mkConnectAckProps (kp_session_expiry_interval_secs a) (kp_receive_max a) (kp_max_qos a)
    (kp_retain_available a) (kp_max_packet_size a) (kp_assigned_client_id a)
    (kp_topic_alias_max a) (kp_reason_string a) (kp_user_properties a) v (kp_sub_ids_avail a)
    (kp_shared_sub_avail a) (kp_server_ka_sec a) (kp_response_info a) (kp_server_reference a)
    (kp_auth_method a) (kp_auth_data a).
Definition set_kp_sub_ids_avail (v : option bool) (a : ConnectAckProps) : ConnectAckProps :=
  mkConnectAckProps (kp_session_expiry_interval_secs a) (kp_receive_max a) (kp_max_qos a)
    (kp_retain_available a) (kp_max_packet_size a) (kp_assigned_client_id a)
    (kp_topic_alias_max a) (kp_reason_string a) (kp_user_properties a) (kp_wildcard_sub_avail
    a) v (kp_shared_sub_avail a) (kp_server_ka_sec a) (kp_response_info a) (kp_server_reference
    a) (kp_auth_method a) (kp_auth_data a).
Definition set_kp_shared_sub_avail (v : option bool) (a : ConnectAckProps) : ConnectAckProps :=
  mkConnectAckProps (kp_session_expiry_interval_secs a) (kp_receive_max a) (kp_max_qos a)
    (kp_retain_available a) (kp_max_packet_size a) (kp_assigned_client_id a)
    (kp_topic_alias_max a) (kp_reason_string a) (kp_user_properties a) (kp_wildcard_sub_avail
    a) (kp_sub_ids_avail a) v (kp_server_ka_sec a) (kp_response_info a) (kp_server_reference a)
    (kp_auth_method a) (kp_auth_data a).
Definition set_kp_server_ka_sec (v : option Z) (a : ConnectAckProps) : ConnectAckProps :=
  mkConnectAckProps (kp_session_expiry_interval_secs a) (kp_receive_max a) (kp_max_qos a)
    (kp_retain_available a) (kp_max_packet_size a) (kp_assigned_client_id a)
    (kp_topic_alias_max a) (kp_reason_string a) (kp_user_properties a) (kp_wildcard_sub_avail
    a) (kp_sub_ids_avail a) (kp_shared_sub_avail a) v (kp_response_info a) (kp_server_reference
    a) (kp_auth_method a) (kp_auth_data a).
Definition set_kp_response_info (v : option bytes) (a : ConnectAckProps) : ConnectAckProps :=
  mkConnectAckProps (kp_session_expiry_interval_secs a) (kp_receive_max a) (kp_max_qos a)
    (kp_retain_available a) (kp_max_packet_size a) (kp_assigned_client_id a)
    (kp_topic_alias_max a) (kp_reason_string a) (kp_user_properties a) (kp_wildcard_sub_avail
    a) (kp_sub_ids_avail a) (kp_shared_sub_avail a) (kp_server_ka_sec a) v (kp_server_reference
    a) (kp_auth_method a) (kp_auth_data a).
Definition set_kp_server_reference (v : option bytes) (a : ConnectAckProps) : ConnectAckProps :=
  mkConnectAckProps (kp_session_expiry_interval_secs a) (kp_receive_max a) (kp_max_qos a)
    (kp_retain_available a) (kp_max_packet_size a) (kp_assigned_client_id a)
    (kp_topic_alias_max a) (kp_reason_string a) (kp_user_properties a) (kp_wildcard_sub_avail
    a) (kp_sub_ids_avail a) (kp_shared_sub_avail a) (kp_server_ka_sec a) (kp_response_info a) v
    (kp_auth_method a) (kp_auth_data a).
Definition set_kp_auth_method (v : option bytes) (a : ConnectAckProps) : ConnectAckProps :=
  mkConnectAckProps (kp_session_expiry_interval_secs a) (kp_receive_max a) (kp_max_qos a)
    (kp_retain_available a) (kp_max_packet_size a) (kp_assigned_client_id a)
    (kp_topic_alias_max a) (kp_reason_string a) (kp_user_properties a) (kp_wildcard_sub_avail
    a) (kp_sub_ids_avail a) (kp_shared_sub_avail a) (kp_server_ka_sec a) (kp_response_info a)
    (kp_server_reference a) v (kp_auth_data a).
Definition set_kp_auth_data (v : option bytes) (a : ConnectAckProps) : ConnectAckProps :=
  mkConnectAckProps (kp_session_expiry_interval_secs a) (kp_receive_max a) (kp_max_qos a)
    (kp_retain_available a) (kp_max_packet_size a) (kp_assigned_client_id a)
    (kp_topic_alias_max a) (kp_reason_string a) (kp_user_properties a) (kp_wildcard_sub_avail
    a) (kp_sub_ids_avail a) (kp_shared_sub_avail a) (kp_server_ka_sec a) (kp_response_info a)
    (kp_server_reference a) (kp_auth_method a) v.

Definition connack_init : ConnectAckProps :=
  mkConnectAckProps None None None None None None None None [] None None None None None None None None.

Definition connack_table : list (Z * handler ConnectAckProps) :=
  [(SESS_EXPIRY_INT, prop u32_w kp_session_expiry_interval_secs set_kp_session_expiry_interval_secs);
   (RECEIVE_MAX, prop nz_u16_w kp_receive_max set_kp_receive_max);
   (MAX_QOS, prop qos_w kp_max_qos set_kp_max_qos);
   (RETAIN_AVAIL, prop bool_w kp_retain_available set_kp_retain_available);
   (MAX_PACKET_SIZE_ID, prop u32_w kp_max_packet_size set_kp_max_packet_size);
   (ASSND_CLIENT_ID, prop string_w kp_assigned_client_id set_kp_assigned_client_id);
   (TOPIC_ALIAS_MAX, prop u16_w kp_topic_alias_max set_kp_topic_alias_max);
   (REASON_STRING, prop string_w kp_reason_string set_kp_reason_string);
   (USER, user_prop kp_user_properties set_kp_user_properties);
   (WILDCARD_SUB_AVAIL, prop bool_w kp_wildcard_sub_avail set_kp_wildcard_sub_avail);
   (SUB_IDS_AVAIL, prop bool_w kp_sub_ids_avail set_kp_sub_ids_avail);
   (SHARED_SUB_AVAIL, prop bool_w kp_shared_sub_avail set_kp_shared_sub_avail);
   (SERVER_KA, prop u16_w kp_server_ka_sec set_kp_server_ka_sec);
   (RESP_INFO, prop string_w kp_response_info set_kp_response_info);
   (SERVER_REF, prop string_w kp_server_reference set_kp_server_reference);
   (AUTH_METHOD, prop string_w kp_auth_method set_kp_auth_method);
   (AUTH_DATA, prop bytes_w kp_auth_data set_kp_auth_data)].

(** The arm of [SUB_ID] in a PUBLISH, where it may repeat, and in a SUBSCRIBE,
    where it may not. *)
Definition sub_ids_push {S} (get : S → list Z) (set : list Z → S → S) : handler S :=
  λ a, id ← decode_varint_nz; mret (set (get a ++ [id]) a).
Definition sub_id_once {S} (get : S → option Z) (set : option Z → S → S) : handler S :=
  λ a, ensure (bool_decide (get a = None)) MalformedPacket ;;
       id ← decode_varint_nz; mret (set (Some id) a).

(** The local variables of [parse_publish_properties] *)
Record PublishProps : Type := mkPublishProps {
  pp_message_expiry_interval : option Z;
  pp_topic_alias : option Z;
  pp_content_type : option bytes;
  pp_correlation_data : option bytes;
  pp_subscription_ids : list Z;
  pp_response_topic : option bytes;
  pp_is_utf8_payload : option bool;
  pp_user_props : UserProperties;
}.

Definition set_pp_message_expiry_interval (v : option Z) (a : PublishProps) : PublishProps :=
  mkPublishProps v (pp_topic_alias a) (pp_content_type a) (pp_correlation_data a)
    (pp_subscription_ids a) (pp_response_topic a) (pp_is_utf8_payload a) (pp_user_props a).
Definition set_pp_topic_alias (v : option Z) (a : PublishProps) : PublishProps :=
  mkPublishProps (pp_message_expiry_interval a) v (pp_content_type a) (pp_correlation_data a)
    (pp_subscription_ids a) (pp_response_topic a) (pp_is_utf8_payload a) (pp_user_props a).
Definition set_pp_content_type (v : option bytes) (a : PublishProps) : PublishProps :=
  mkPublishProps (pp_message_expiry_interval a) (pp_topic_alias a) v (pp_correlation_data a)
    (pp_subscription_ids a) (pp_response_topic a) (pp_is_utf8_payload a) (pp_user_props a).
Definition set_pp_correlation_data (v : option bytes) (a : PublishProps) : PublishProps :=
  mkPublishProps (pp_message_expiry_interval a) (pp_topic_alias a) (pp_content_type a) v
    (pp_subscription_ids a) (pp_response_topic a) (pp_is_utf8_payload a) (pp_user_props a).
Definition set_pp_subscription_ids (v : list Z) (a : PublishProps) : PublishProps :=
  mkPublishProps (pp_message_expiry_interval a) (pp_topic_alias a) (pp_content_type a)
    (pp_correlation_data a) v (pp_response_topic a) (pp_is_utf8_payload a) (pp_user_props a).
Definition set_pp_response_topic (v : option bytes) (a : PublishProps) : PublishProps :=
  mkPublishProps (pp_message_expiry_interval a) (pp_topic_alias a) (pp_content_type a)
    (pp_correlation_data a) (pp_subscription_ids a) v (pp_is_utf8_payload a) (pp_user_props a).
Definition set_pp_is_utf8_payload (v : option bool) (a : PublishProps) : PublishProps :=
  mkPublishProps (pp_message_expiry_interval a) (pp_topic_alias a) (pp_content_type a)
    (pp_correlation_data a) (pp_subscription_ids a) (pp_response_topic a) v (pp_user_props a).
Definition set_pp_user_props (v : UserProperties) (a : PublishProps) : PublishProps :=
  mkPublishProps (pp_message_expiry_interval a) (pp_topic_alias a) (pp_content_type a)
    (pp_correlation_data a) (pp_subscription_ids a) (pp_response_topic a) (pp_is_utf8_payload
    a) v.

Definition publish_init : PublishProps :=
  mkPublishProps None None None None [] None None [].

Definition publish_table : list (Z * handler PublishProps) :=
  [(UTF8_PAYLOAD, prop bool_w pp_is_utf8_payload set_pp_is_utf8_payload);
   (MSG_EXPIRY_INT, prop nz_u32_w pp_message_expiry_interval set_pp_message_expiry_interval);
   (CONTENT_TYPE, prop string_w pp_content_type set_pp_content_type);
   (RESP_TOPIC, prop string_w pp_response_topic set_pp_response_topic);
   (CORR_DATA, prop bytes_w pp_correlation_data set_pp_correlation_data);
   (SUB_ID, sub_ids_push pp_subscription_ids set_pp_subscription_ids);
   (TOPIC_ALIAS, prop nz_u16_w pp_topic_alias set_pp_topic_alias);
   (USER, user_prop pp_user_props set_pp_user_props)].

(** The local variables of [Subscribe::decode] *)
Record SubscribeProps : Type := mkSubscribeProps {
  sp_sub_id : option Z;
  sp_user_properties : UserProperties;
}.

Definition set_sp_sub_id (v : option Z) (a : SubscribeProps) : SubscribeProps :=
  mkSubscribeProps v (sp_user_properties a).
Definition set_sp_user_properties (v : UserProperties) (a : SubscribeProps) : SubscribeProps :=
  mkSubscribeProps (sp_sub_id a) v.

Definition subscribe_init : SubscribeProps :=
  mkSubscribeProps None [].

Definition subscribe_table : list (Z * handler SubscribeProps) :=
  [(SUB_ID, sub_id_once sp_sub_id set_sp_sub_id);
   (USER, user_prop sp_user_properties set_sp_user_properties)].

(** [Unsubscribe::decode] has user properties only. *)
Definition unsubscribe_table : list (Z * handler UserProperties) :=
  [(USER, user_prop id (λ v _, v))].

(** The local variables of [Disconnect::decode] *)
Record DisconnectProps : Type := mkDisconnectProps {
  dp_session_exp_secs : option Z;
  dp_server_reference : option bytes;
  dp_reason_string : option bytes;
  dp_user_properties : UserProperties;
}.

Definition set_dp_session_exp_secs (v : option Z) (a : DisconnectProps) : DisconnectProps :=
  mkDisconnectProps v (dp_server_reference a) (dp_reason_string a) (dp_user_properties a).
Definition set_dp_server_reference (v : option bytes) (a : DisconnectProps) : DisconnectProps :=
  mkDisconnectProps (dp_session_exp_secs a) v (dp_reason_string a) (dp_user_properties a).
Definition set_dp_reason_string (v : option bytes) (a : DisconnectProps) : DisconnectProps :=
  mkDisconnectProps (dp_session_exp_secs a) (dp_server_reference a) v (dp_user_properties a).
Definition set_dp_user_properties (v : UserProperties) (a : DisconnectProps) : DisconnectProps :=
  mkDisconnectProps (dp_session_exp_secs a) (dp_server_reference a) (dp_reason_string a) v.

Definition disconnect_init : DisconnectProps :=
  mkDisconnectProps None None None [].

Definition disconnect_table : list (Z * handler DisconnectProps) :=
  [(SESS_EXPIRY_INT, prop u32_w dp_session_exp_secs set_dp_session_exp_secs);
   (REASON_STRING, prop string_w dp_reason_string set_dp_reason_string);
   (USER, user_prop dp_user_properties set_dp_user_properties);
   (SERVER_REF, prop string_w dp_server_reference set_dp_server_reference)].

(** The local variables of [Auth::decode] *)
Record AuthProps : Type := mkAuthProps {
  xp_auth_method : option bytes;
  xp_auth_data : option bytes;
  xp_reason_string : option bytes;
  xp_user_properties : UserProperties;
}.

Definition set_xp_auth_method (v : option bytes) (a : AuthProps) : AuthProps :=
  mkAuthProps v (xp_auth_data a) (xp_reason_string a) (xp_user_properties a).
Definition set_xp_auth_data (v : option bytes) (a : AuthProps) : AuthProps :=
  mkAuthProps (xp_auth_method a) v (xp_reason_string a) (xp_user_properties a).
Definition set_xp_reason_string (v : option bytes) (a : AuthProps) : AuthProps :=
  mkAuthProps (xp_auth_method a) (xp_auth_data a) v (xp_user_properties a).
Definition set_xp_user_properties (v : UserProperties) (a : AuthProps) : AuthProps :=
  mkAuthProps (xp_auth_method a) (xp_auth_data a) (xp_reason_string a) v.

Definition auth_init : AuthProps :=
  mkAuthProps None None None [].

Definition auth_table : list (Z * handler AuthProps) :=
  [(AUTH_METHOD, prop string_w xp_auth_method set_xp_auth_method);
   (AUTH_DATA, prop bytes_w xp_auth_data set_xp_auth_data);
   (REASON_STRING, prop string_w xp_reason_string set_xp_reason_string);
   (USER, user_prop xp_user_properties set_xp_user_properties)].

(** ** [decode] *)

Definition no_more : reader unit := r ← has_remaining; ensure (negb r) InvalidLength.

Definition decode_last_will (flags : Z) : reader LastWill :=
  p ← parse_properties will_table will_init;
  topic ← decode_string;
  message ← decode_bytes;
  qos ← lift (qos_try_from (Z.shiftr (Z.land flags WILL_QOS) WILL_QOS_SHIFT));
  mret (mkLastWill qos (contains flags WILL_RETAIN) topic message
          (wp_will_delay_interval_sec p) (wp_correlation_data p) (wp_message_expiry_interval p)
          (wp_content_type p) (wp_user_properties p) (wp_is_utf8_payload p) (wp_response_topic p)).

(** [len == 4 && &src.as_ref()[0..4] == MQTT]: the slice is taken only after the
    length has been compared, and panics out of range. *)
Definition is_mqtt (n : Z) : reader bool := λ s,
  if n =? 4 then
    if 4 <=? len s then (Ok (bool_decide (take 4 s = MQTT)), s) else (Panic, s)
  else (Ok false, s).

Definition connect_decode : reader Connect :=
  r ← remaining; ensure (10 <=? r) InvalidLength ;;
  n ← get_u16;
  same ← is_mqtt n; ensure same InvalidProtocol ;;
  advance 4 ;;
  level ← get_u8;
  ensure (level =? MQTT_LEVEL_5) UnsupportedProtocolLevel ;;
  b ← get_u8;
  flags ← ok_or (flags_from_bits CONNECT_FLAGS_ALL b) ConnectReservedFlagSet;
  keep_alive ← get_u16;
  p ← parse_properties connect_table connect_init;
  client_id ← decode_string;
  ensure (negb (bool_decide (client_id = [])) || contains flags CLEAN_START) InvalidClientId ;;
  last_will ← decode_if (contains flags WILL) (decode_last_will flags);
  username ← decode_if (contains flags USERNAME) decode_string;
  password ← decode_if (contains flags PASSWORD) decode_bytes;
  mret (mkConnect (contains flags CLEAN_START) keep_alive
          (default 0 (cp_session_expiry_interval_secs p)) (cp_auth_method p) (cp_auth_data p)
          (default true (cp_request_problem_info p)) (default false (cp_request_response_info p))
          (cp_receive_max p) (default 0 (cp_topic_alias_max p)) (cp_user_properties p)
          (cp_max_packet_size p) last_will client_id username password None).

Definition connect_ack_decode : reader ConnectAck :=
  r ← remaining; ensure (2 <=? r) InvalidLength ;;
  b ← get_u8;
  flags ← ok_or (flags_from_bits SESSION_PRESENT b) ConnAckReservedFlagSet;
  c ← get_u8;
  reason_code ← lift (connack5_try_from c);
  p ← parse_properties connack_table connack_init;
  no_more ;;
  mret (mkConnectAck (contains flags SESSION_PRESENT) reason_code
          (kp_session_expiry_interval_secs p) (default RECEIVE_MAX_DEFAULT (kp_receive_max p))
          (default ExactlyOnce (kp_max_qos p)) (kp_max_packet_size p) (kp_assigned_client_id p)
          (default 0 (kp_topic_alias_max p)) (default true (kp_retain_available p))
          (default true (kp_wildcard_sub_avail p)) (default true (kp_sub_ids_avail p))
          (default true (kp_shared_sub_avail p)) (kp_server_ka_sec p) (kp_response_info p)
          (kp_server_reference p) (kp_auth_method p) (kp_auth_data p) (kp_reason_string p)
          (kp_user_properties p)).

Definition parse_publish_properties : reader PublishProperties :=
  p ← parse_properties publish_table publish_init;
  mret (mkPublishProperties (pp_topic_alias p) (pp_correlation_data p)
          (pp_message_expiry_interval p) (pp_content_type p) (pp_user_props p)
          (default false (pp_is_utf8_payload p)) (pp_response_topic p) (pp_subscription_ids p)).

Definition publish_decode (packet_flags : Z) : reader Publish :=
  topic ← decode_string;
  qos ← lift (qos_try_from (Z.shiftr (Z.land packet_flags 6) 1));
  packet_id ← decode_if (negb (bool_decide (qos = AtMostOnce))) decode_nz_u16;
  properties ← parse_publish_properties;
  payload ← take_rest;
  mret (mkPublish (Z.land packet_flags 8 =? 8) (Z.land packet_flags 1 =? 1) qos topic packet_id
                  payload (Some properties)).

(** [PublishAck::decode] and [PublishAck2::decode], the same code at two types. *)
Definition publish_ack_decode {R} (try_from : Z → outcome DecodeError R) (success : R)
    : reader (PublishAckOf R) :=
  packet_id ← decode_nz_u16;
  r ← has_remaining;
  if r : bool then
    b ← get_u8;
    reason_code ← lift (try_from b);
    r ← has_remaining;
    if r : bool then
      p ← ack_props_decode;
      no_more ;;
      mret (mkPublishAck packet_id reason_code (ap_user p) (ap_reason p))
    else mret (mkPublishAck packet_id reason_code [] None)
  else mret (mkPublishAck packet_id success [] None).

Definition decode_puback : reader PublishAck := publish_ack_decode puback_try_from PASuccess.
Definition decode_pubrel : reader PublishAck2 := publish_ack_decode pubrel_try_from PA2Success.

Definition sub_options_decode : reader SubscriptionOptions :=
  r ← has_remaining; ensure r InvalidLength ;;
  val ← get_u8;
  qos ← lift (qos_try_from (Z.land val 3));
  retain_handling ← lift (retain_handling_try_from (Z.shiftr (Z.land val 48) 4));
  mret (mkSubOptions qos (negb (Z.land val 4 =? 0)) (negb (Z.land val 8 =? 0)) retain_handling).

Definition subscribe_filter (acc : list (bytes * SubscriptionOptions))
    : reader (list (bytes * SubscriptionOptions)) :=
  topic ← decode_string;
  opts ← sub_options_decode;
  mret (acc ++ [(topic, opts)]).

Definition subscribe_decode : reader Subscribe :=
  packet_id ← decode_nz_u16;
  p ← parse_properties subscribe_table subscribe_init;
  topic_filters ← while_remaining subscribe_filter [];
  ensure (negb (bool_decide (topic_filters = []))) InvalidTopicFilter ;;
  mret (mkSubscribe packet_id (sp_sub_id p) (sp_user_properties p) topic_filters).

(** [for code in src.as_ref().iter().copied() { status.push(code.try_into()?) }] *)
Definition decode_status {R} (try_from : Z → outcome DecodeError R) : reader (list R) :=
  src ← get_state; lift (map_results try_from src).

Definition subscribe_ack_decode : reader SubscribeAck :=
  packet_id ← decode_nz_u16;
  p ← ack_props_decode;
  status ← decode_status suback_try_from;
  mret (mkSubscribeAck packet_id (ap_user p) (ap_reason p) status).

Definition unsubscribe_filter (acc : list bytes) : reader (list bytes) :=
  topic ← decode_string; mret (acc ++ [topic]).

Definition unsubscribe_decode : reader Unsubscribe :=
  packet_id ← decode_nz_u16;
  user_properties ← parse_properties unsubscribe_table [];
  topic_filters ← while_remaining unsubscribe_filter [];
  ensure (negb (bool_decide (topic_filters = []))) InvalidTopicFilter ;;
  mret (mkUnsubscribe packet_id user_properties topic_filters).

Definition unsubscribe_ack_decode : reader UnsubscribeAck :=
  packet_id ← decode_nz_u16;
  p ← ack_props_decode;
  status ← decode_status unsuback_try_from;
  mret (mkUnsubscribeAck packet_id (ap_user p) (ap_reason p) status).

Definition disconnect_decode : reader Disconnect :=
  r ← has_remaining;
  if r : bool then
    b ← get_u8;
    reason_code ← lift (disconnect_try_from b);
    r ← has_remaining;
    if r : bool then
      p ← parse_properties disconnect_table disconnect_init;
      no_more ;;
      mret (mkDisconnect reason_code (dp_session_exp_secs p) (dp_server_reference p)
                         (dp_reason_string p) (dp_user_properties p))
    else mret (disconnect_new reason_code)
  else mret disconnect_default.

(** The inner test of [Auth::decode] repeats [has_remaining]. *)
Definition auth_decode : reader Auth :=
  r ← has_remaining;
  if r : bool then
    b ← get_u8;
    reason_code ← lift (auth_try_from b);
    r ← has_remaining;
    if r : bool then
      p ← (if negb (bool_decide (reason_code = AUSuccess)) || r then
             p ← parse_properties auth_table auth_init; no_more ;; mret p
           else mret auth_init);
      mret (mkAuth reason_code (xp_auth_method p) (xp_auth_data p) (xp_reason_string p)
                   (xp_user_properties p))
    else mret (mkAuth reason_code None None None [])
  else mret auth_default.

Definition packet_of {A} (f : A → Packet) (r : reader A) : reader Packet := a ← r; mret (f a).

(** [decode_packet] *)
Definition decode_packet (first_byte : Z) : reader Packet :=
  if between PUBLISH_START PUBLISH_END first_byte then
    packet_of V5Publish (publish_decode (Z.land first_byte 15))
  else if first_byte =? PUBACK then packet_of V5PublishAck decode_puback
  else if first_byte =? PINGREQ then mret V5PingRequest
  else if first_byte =? PINGRESP then mret V5PingResponse
  else if first_byte =? SUBSCRIBE then packet_of V5Subscribe subscribe_decode
  else if first_byte =? SUBACK then packet_of V5SubscribeAck subscribe_ack_decode
  else if first_byte =? UNSUBSCRIBE then packet_of V5Unsubscribe unsubscribe_decode
  else if first_byte =? UNSUBACK then packet_of V5UnsubscribeAck unsubscribe_ack_decode
  else if first_byte =? CONNECT then packet_of V5Connect connect_decode
  else if first_byte =? CONNACK then packet_of V5ConnectAck connect_ack_decode
  else if first_byte =? DISCONNECT then packet_of V5Disconnect disconnect_decode
  else if first_byte =? AUTH then packet_of V5Auth auth_decode
  else if first_byte =? PUBREC then packet_of V5PublishReceived decode_puback
  else if first_byte =? PUBREL then packet_of V5PublishRelease decode_pubrel
  else if first_byte =? PUBCOMP then packet_of V5PublishComplete decode_pubrel
  else err UnsupportedPacketType.

(** The byte strings of the project's own decoding tests. *)
Example decode_puback_all :
  fst (decode_puback [0; 255; 128; 13; 38; 0; 1; 97; 0; 1; 98; 31; 0; 3; 49; 50; 51]) =
  Ok (mkPublishAck 255 PAUnspecifiedError [([97], [98])] (Some [49; 50; 51])).
Proof. reflexivity. Qed.
Example decode_puback_short : fst (decode_puback [1; 1; 0]) = Ok (mkPublishAck 257 PASuccess [] None).
Proof. reflexivity. Qed.
