(* ===== verification/EncodeV5.v ===== *)
(** * Encoding MQTT 5 packets

    Models the [EncodeLtd] implementations of [ferromq-codec/src/v5/packet/*.rs]
    and of [Packet] in [ferromq-codec/src/v5/encode.rs]: [encoded_size] under a
    size limit, which leaves out user properties and reason strings that do not
    fit, and [encode], which is given the size so computed. *)

From stdpp Require Import base list numbers option.
From Stdlib Require Import ZArith Lia.
From S2P Require Import Prelude Errors Wire CodecTypes PropsV5 PacketV5.

#[local] Open Scope Z_scope.

(** [buf.len()] *)
Definition buf_len : M bytes EncodeError Z := λ buf, (Ok (len buf), buf).

(** [a + b] on [u32]: an overflow panics in a build with overflow checks and
    wraps around otherwise. *)
Definition u32_add {E} (checks : bool) (a b : Z) : outcome E Z :=
  if a + b <? 2 ^ 32 then Ok (a + b) else if checks then Panic else Ok (as_u32 (a + b)).

Definition USIZE_MAX : Z := 2 ^ 64 - 1.
Definition U32_MAX : Z := 2 ^ 32 - 1.

(** ** CONNECT *)

Definition will_properties_len (w : LastWill) : Z :=
  encoded_property_size u32_w (lw_will_delay_interval_sec w)
  + encoded_property_size bytes_w (lw_correlation_data w)
  + encoded_property_size nz_u32_w (lw_message_expiry_interval w)
  + encoded_property_size string_w (lw_content_type w)
  + encoded_property_size bool_w (lw_is_utf8_payload w)
  + encoded_property_size string_w (lw_response_topic w)
  + user_properties_size (lw_user_properties w).

Definition connect_properties_len (c : Connect) : Z :=
  encoded_property_size string_w (c_auth_method c)
  + encoded_property_size bytes_w (c_auth_data c)
  + encoded_property_size_default u32_w (c_session_expiry_interval_secs c) 0
  + encoded_property_size_default bool_w (c_request_problem_info c) true
  + encoded_property_size_default bool_w (c_request_response_info c) false
  + encoded_property_size nz_u16_w (c_receive_max c)
  + encoded_property_size nz_u32_w (c_max_packet_size c)
  + encoded_property_size_default u16_w (c_topic_alias_max c) 0
  + user_properties_size (c_user_properties c).

Definition connect_encoded_size (c : Connect) : Z :=
  let prop_len := connect_properties_len c in
  6 + 1 + 1 + 2 + var_int_len prop_len + prop_len
  + w_size string_w (c_client_id c)
  + match c_last_will c with
    | Some will =>
        let prop_len := will_properties_len will in
        var_int_len prop_len + prop_len + w_size string_w (lw_topic will)
        + w_size bytes_w (lw_message will)
    | None => 0
    end
  + match c_username c with Some v => w_size string_w v | None => 0 end
  + match c_password c with Some v => w_size bytes_w v | None => 0 end.

Definition connect_flags (c : Connect) : Z :=
  let flags := 0 in
  let flags := if is_some (c_username c) then Z.lor flags USERNAME else flags in
  let flags := if is_some (c_password c) then Z.lor flags PASSWORD else flags in
  let flags :=
    match c_last_will c with
    | Some will =>
        let flags := Z.lor flags WILL in
        let flags := if lw_retain will then Z.lor flags WILL_RETAIN else flags in
        Z.lor flags (flags_truncate CONNECT_FLAGS_ALL
                       (Z.shiftl (qos_value (lw_qos will)) WILL_QOS_SHIFT))
    | None => flags
    end in
  if c_clean_start c then Z.lor flags CLEAN_START else flags.

Definition encode_last_will (will : LastWill) : writer :=
  write_variable_length (as_u32 (will_properties_len will)) ;;
  encode_property u32_w (lw_will_delay_interval_sec will) WILL_DELAY_INT ;;
  encode_property bool_w (lw_is_utf8_payload will) UTF8_PAYLOAD ;;
  encode_property nz_u32_w (lw_message_expiry_interval will) MSG_EXPIRY_INT ;;
  encode_property string_w (lw_content_type will) CONTENT_TYPE ;;
  encode_property string_w (lw_response_topic will) RESP_TOPIC ;;
  encode_property bytes_w (lw_correlation_data will) CORR_DATA ;;
  encode_user_properties (lw_user_properties will) ;;
  encode_bytes (lw_topic will) ;;
  encode_bytes (lw_message will).

Definition connect_encode (c : Connect) : writer :=
  encode_bytes MQTT ;;
  put_slice [MQTT_LEVEL_5; connect_flags c] ;;
  encode_u16 (c_keep_alive c) ;;
  write_variable_length (as_u32 (connect_properties_len c)) ;;
  encode_property_default u32_w (c_session_expiry_interval_secs c) 0 SESS_EXPIRY_INT ;;
  encode_property string_w (c_auth_method c) AUTH_METHOD ;;
  encode_property bytes_w (c_auth_data c) AUTH_DATA ;;
  encode_property_default bool_w (c_request_problem_info c) true REQ_PROB_INFO ;;
  encode_property_default bool_w (c_request_response_info c) false REQ_RESP_INFO ;;
  encode_property nz_u16_w (c_receive_max c) RECEIVE_MAX ;;
  encode_property nz_u32_w (c_max_packet_size c) MAX_PACKET_SIZE_ID ;;
  encode_property_default u16_w (c_topic_alias_max c) 0 TOPIC_ALIAS_MAX ;;
  encode_user_properties (c_user_properties c) ;;
  encode_bytes (c_client_id c) ;;
  match c_last_will c with Some will => encode_last_will will | None => mret tt end ;;
  match c_username c with Some s => encode_bytes s | None => mret tt end ;;
  match c_password c with Some pwd => encode_bytes pwd | None => mret tt end.

(** ** CONNACK *)

Definition below_exactly_once (q : QoS) : bool := qos_value q <? qos_value ExactlyOnce.

Definition connack_fixed_len (a : ConnectAck) : Z :=
  encoded_property_size u32_w (ca_session_expiry_interval_secs a)
  + encoded_property_size_default nz_u16_w (ca_receive_max a) RECEIVE_MAX_DEFAULT
  + (if below_exactly_once (ca_max_qos a) then 1 + 1 else 0)
  + encoded_property_size u32_w (ca_max_packet_size a)
  + encoded_property_size string_w (ca_assigned_client_id a)
  + encoded_property_size_default bool_w (ca_retain_available a) true
  + encoded_property_size_default bool_w (ca_wildcard_subscription_available a) true
  + encoded_property_size_default bool_w (ca_subscription_identifiers_available a) true
  + encoded_property_size_default bool_w (ca_shared_subscription_available a) true
  + encoded_property_size u16_w (ca_server_keepalive_sec a)
  + encoded_property_size string_w (ca_response_info a)
  + encoded_property_size string_w (ca_server_reference a)
  + encoded_property_size string_w (ca_auth_method a)
  + encoded_property_size bytes_w (ca_auth_data a)
  + (if 0 <? ca_topic_alias_max a then 1 + w_size u16_w (ca_topic_alias_max a) else 0).

Definition connect_ack_encoded_size (a : ConnectAck) (limit : Z) : Z :=
  let prop_len := connack_fixed_len a in
  let diag_len := encoded_size_opt_props (ca_user_properties a) (ca_reason_string a)
                    (reduce_limit limit (2 + 4 + prop_len)) 0 in
  let prop_len := prop_len + diag_len in
  2 + var_int_len prop_len + prop_len.

(** The part of [ConnectAck::encode] before the diagnostics. *)
Definition connack_fixed_part (checks : bool) (a : ConnectAck) (size : Z) : writer :=
  put_slice [if ca_session_present a then 1 else 0; connack5_code (ca_reason_code a)] ;;
  lift (u32_sub checks size 2) ≫= λ size,
  lift (var_int_len_from_size checks size) ≫= λ prop_len,
  write_variable_length prop_len ;;
  encode_property u32_w (ca_session_expiry_interval_secs a) SESS_EXPIRY_INT ;;
  encode_property_default nz_u16_w (ca_receive_max a) RECEIVE_MAX_DEFAULT RECEIVE_MAX ;;
  (if below_exactly_once (ca_max_qos a) then put_slice [MAX_QOS; qos_value (ca_max_qos a)]
   else mret tt) ;;
  encode_property_default bool_w (ca_retain_available a) true RETAIN_AVAIL ;;
  encode_property u32_w (ca_max_packet_size a) MAX_PACKET_SIZE_ID ;;
  encode_property string_w (ca_assigned_client_id a) ASSND_CLIENT_ID ;;
  encode_property_default u16_w (ca_topic_alias_max a) 0 TOPIC_ALIAS_MAX ;;
  encode_property_default bool_w (ca_wildcard_subscription_available a) true WILDCARD_SUB_AVAIL ;;
  encode_property_default bool_w (ca_subscription_identifiers_available a) true SUB_IDS_AVAIL ;;
  encode_property_default bool_w (ca_shared_subscription_available a) true SHARED_SUB_AVAIL ;;
  encode_property u16_w (ca_server_keepalive_sec a) SERVER_KA ;;
  encode_property string_w (ca_response_info a) RESP_INFO ;;
  encode_property string_w (ca_server_reference a) SERVER_REF ;;
  encode_property string_w (ca_auth_method a) AUTH_METHOD ;;
  encode_property bytes_w (ca_auth_data a) AUTH_DATA.

(** [encode_opt_props(.., size - (buf.len() - start_len) as u32)] after [w]. *)
Definition encode_then_diag (checks : bool) (w : writer) (us : UserProperties)
    (reason : option bytes) (size : Z) : writer :=
  buf_len ≫= λ start_len,
  w ;;
  buf_len ≫= λ end_len,
  lift (u32_sub checks size (as_u32 (end_len - start_len))) ≫= λ size,
  encode_opt_props us reason size.

Definition connect_ack_encode (checks : bool) (a : ConnectAck) (size : Z) : writer :=
  encode_then_diag checks (connack_fixed_part checks a size)
    (ca_user_properties a) (ca_reason_string a) size.

(** ** PUBLISH *)

Definition publish_properties_len (p : PublishProperties) : Z :=
  encoded_property_size nz_u16_w (topic_alias p)
  + encoded_property_size bytes_w (correlation_data p)
  + encoded_property_size nz_u32_w (message_expiry_interval p)
  + encoded_property_size string_w (content_type p)
  + encoded_property_size_default bool_w (is_utf8_payload p) false
  + encoded_property_size string_w (response_topic p)
  + foldl (λ acc id, acc + 1 + var_int_len id) 0 (subscription_ids p)
  + user_properties_size (user_properties p).

Definition publish_properties_encoded_size (p : PublishProperties) : Z :=
  let prop_len := publish_properties_len p in prop_len + var_int_len prop_len.

Definition publish_properties_encode (checks : bool) (p : PublishProperties) (size : Z) : writer :=
  lift (var_int_len_from_size checks size) ≫= λ prop_len,
  write_variable_length prop_len ;;
  encode_property nz_u16_w (topic_alias p) TOPIC_ALIAS ;;
  encode_property bytes_w (correlation_data p) CORR_DATA ;;
  encode_property nz_u32_w (message_expiry_interval p) MSG_EXPIRY_INT ;;
  encode_property string_w (content_type p) CONTENT_TYPE ;;
  encode_property_default bool_w (is_utf8_payload p) false UTF8_PAYLOAD ;;
  encode_property string_w (response_topic p) RESP_TOPIC ;;
  for_each (λ sub_id, put_u8 SUB_ID ;; write_variable_length sub_id) (subscription_ids p) ;;
  encode_user_properties (user_properties p).

Definition publish_encoded_size (p : Publish) : Z :=
  let packet_id_size := if bool_decide (qos p = AtMostOnce) then 0 else 2 in
  w_size string_w (topic p) + packet_id_size
  + publish_properties_encoded_size (default publish_properties_default (properties p))
  + len (payload p).

Definition publish_encode (checks : bool) (p : Publish) (size : Z) : writer :=
  buf_len ≫= λ start_len,
  encode_bytes (topic p) ;;
  (if bool_decide (qos p = AtMostOnce) then
     if is_some (packet_id p) then err EncMalformedPacket else mret tt
   else pid ← ok_or (packet_id p) EncPacketIdRequired; encode_u16 pid) ;;
  buf_len ≫= λ end_len,
  lift (u32_sub checks size (as_u32 (end_len - start_len + len (payload p)))) ≫= λ size,
  publish_properties_encode checks (default publish_properties_default (properties p)) size ;;
  put_slice (payload p).

Definition publish_first_byte (p : Publish) : Z :=
  Z.lor (Z.lor (Z.lor PUBLISH_START (Z.shiftl (qos_value (qos p)) 1))
               (Z.shiftl (if dup p then 1 else 0) 3))
        (if retain p then 1 else 0).

(** ** PUBACK, PUBREC, PUBREL, PUBCOMP *)

Definition HEADER_LEN : Z := 2 + 1.

Definition publish_ack_encoded_size {R} (checks : bool) (a : PublishAckOf R) (limit : Z)
    : outcome EncodeError Z :=
  u32_sub checks limit HEADER_LEN ≫= λ limit,
  u32_sub checks limit 4 ≫= λ limit,
  Ok (HEADER_LEN + ack_props_encoded_size (pa_properties a) (pa_reason_string a) limit).

Definition publish_ack_encode {R} (checks : bool) (code : R → Z) (a : PublishAckOf R) (size : Z)
    : writer :=
  encode_u16 (pa_packet_id a) ;;
  put_u8 (code (pa_reason_code a)) ;;
  lift (u32_sub checks size HEADER_LEN) ≫= λ size,
  ack_props_encode checks (pa_properties a) (pa_reason_string a) size.

(** ** SUBSCRIBE, SUBACK, UNSUBSCRIBE, UNSUBACK *)

Definition subscribe_properties_len (s : Subscribe) : Z :=
  match sub_id s with Some v => 1 + var_int_len v | None => 0 end
  + user_properties_size (sub_user_properties s).

Definition subscribe_encoded_size (s : Subscribe) : Z :=
  let prop_len := subscribe_properties_len s in
  let payload_len :=
    foldl (λ acc '(filter, _), acc + w_size string_w filter + 1) 0 (sub_topic_filters s) in
  2 + var_int_len prop_len + prop_len + payload_len.

Definition sub_options_byte (o : SubscriptionOptions) : Z :=
  Z.lor (Z.lor (Z.lor (qos_value (so_qos o)) (Z.shiftl (if so_no_local o then 1 else 0) 2))
               (Z.shiftl (if so_retain_as_published o then 1 else 0) 3))
        (Z.shiftl (retain_handling_code (so_retain_handling o)) 4).

Definition subscribe_encode (checks : bool) (s : Subscribe) : writer :=
  encode_u16 (sub_packet_id s) ;;
  lift (u32_add checks (match sub_id s with Some v => 1 + var_int_len v | None => 0 end)
          (as_u32 (user_properties_size (sub_user_properties s)))) ≫= λ prop_len,
  write_variable_length prop_len ;;
  match sub_id s with
  | Some id => put_u8 SUB_ID ;; write_variable_length id
  | None => mret tt
  end ;;
  encode_user_properties (sub_user_properties s) ;;
  for_each (λ '(filter, opts), encode_bytes filter ;; put_u8 (sub_options_byte opts))
           (sub_topic_filters s).

Definition subscribe_ack_encoded_size (checks : bool) (a : SubscribeAck) (limit : Z)
    : outcome EncodeError Z :=
  let n := len (sa_status a) in
  if U32_MAX - 2 <? n then Ok USIZE_MAX
  else
    u32_sub checks limit 2 ≫= λ limit,
    u32_sub checks limit n ≫= λ limit,
    Ok (2 + ack_props_encoded_size (sa_properties a) (sa_reason_string a) limit + n).

Definition subscribe_ack_encode (checks : bool) (a : SubscribeAck) (size : Z) : writer :=
  encode_u16 (sa_packet_id a) ;;
  lift (u32_sub checks size 2) ≫= λ size,
  lift (u32_sub checks size (as_u32 (len (sa_status a)))) ≫= λ size,
  ack_props_encode checks (sa_properties a) (sa_reason_string a) size ;;
  for_each (λ reason, put_u8 (suback_code reason)) (sa_status a).

Definition unsubscribe_encoded_size (u : Unsubscribe) : Z :=
  let prop_len := user_properties_size (un_user_properties u) in
  2 + var_int_len prop_len + prop_len
  + foldl (λ acc filter, acc + 2 + len filter) 0 (un_topic_filters u).

Definition unsubscribe_encode (u : Unsubscribe) : writer :=
  encode_u16 (un_packet_id u) ;;
  write_variable_length (as_u32 (user_properties_size (un_user_properties u))) ;;
  encode_user_properties (un_user_properties u) ;;
  for_each encode_bytes (un_topic_filters u).

Definition unsubscribe_ack_encoded_size (a : UnsubscribeAck) (limit : Z) : Z :=
  let n := len (ua_status a) in
  2 + n + ack_props_encoded_size (ua_properties a) (ua_reason_string a) (reduce_limit limit (2 + n)).

Definition unsubscribe_ack_encode (checks : bool) (a : UnsubscribeAck) (size : Z) : writer :=
  encode_u16 (ua_packet_id a) ;;
  lift (u32_sub checks size 2) ≫= λ size,
  lift (u32_sub checks size (as_u32 (len (ua_status a)))) ≫= λ size,
  ack_props_encode checks (ua_properties a) (ua_reason_string a) size ;;
  for_each (λ reason, put_u8 (unsuback_code reason)) (ua_status a).

(** ** DISCONNECT and AUTH *)

Definition disconnect_fixed_len (d : Disconnect) : Z :=
  encoded_property_size u32_w (d_session_expiry_interval_secs d)
  + encoded_property_size string_w (d_server_reference d).

Definition disconnect_encoded_size (d : Disconnect) (limit : Z) : Z :=
  let prop_len := disconnect_fixed_len d in
  let diag_len := encoded_size_opt_props (d_user_properties d) (d_reason_string d)
                    (reduce_limit limit (prop_len + 1 + 4)) 0 in
  let prop_len := prop_len + diag_len in
  1 + var_int_len prop_len + prop_len.

Definition disconnect_fixed_part (checks : bool) (d : Disconnect) (size : Z) : writer :=
  put_u8 (disconnect_code (d_reason_code d)) ;;
  lift (u32_sub checks size 1) ≫= λ size,
  lift (var_int_len_from_size checks size) ≫= λ prop_len,
  write_variable_length prop_len ;;
  encode_property u32_w (d_session_expiry_interval_secs d) SESS_EXPIRY_INT ;;
  encode_property string_w (d_server_reference d) SERVER_REF.

Definition disconnect_encode (checks : bool) (d : Disconnect) (size : Z) : writer :=
  encode_then_diag checks (disconnect_fixed_part checks d size)
    (d_user_properties d) (d_reason_string d) size.

Definition auth_fixed_len (a : Auth) : Z :=
  encoded_property_size string_w (au_auth_method a) + encoded_property_size bytes_w (au_auth_data a).

Definition auth_encoded_size (a : Auth) (limit : Z) : Z :=
  let prop_len := auth_fixed_len a in
  let diag_len := encoded_size_opt_props (au_user_properties a) (au_reason_string a)
                    (reduce_limit limit (prop_len + 1 + 4)) 0 in
  let prop_len := prop_len + diag_len in
  1 + var_int_len prop_len + prop_len.

Definition auth_fixed_part (checks : bool) (a : Auth) (size : Z) : writer :=
  put_u8 (auth_code (au_reason_code a)) ;;
  lift (u32_sub checks size 1) ≫= λ size,
  lift (var_int_len_from_size checks size) ≫= λ prop_len,
  write_variable_length prop_len ;;
  encode_property string_w (au_auth_method a) AUTH_METHOD ;;
  encode_property bytes_w (au_auth_data a) AUTH_DATA.

Definition auth_encode (checks : bool) (a : Auth) (size : Z) : writer :=
  encode_then_diag checks (auth_fixed_part checks a size)
    (au_user_properties a) (au_reason_string a) size.

(** ** [EncodeLtd for Packet] *)

Definition encoded_size (checks : bool) (p : Packet) (limit : Z) : outcome EncodeError Z :=
  match p with
  | V5Connect c => Ok (connect_encoded_size c)
  | V5Publish p => Ok (publish_encoded_size p)
  | V5ConnectAck a => Ok (connect_ack_encoded_size a limit)
  | V5PublishAck a | V5PublishReceived a => publish_ack_encoded_size checks a limit
  | V5PublishRelease a | V5PublishComplete a => publish_ack_encoded_size checks a limit
  | V5Subscribe s => Ok (subscribe_encoded_size s)
  | V5SubscribeAck a => subscribe_ack_encoded_size checks a limit
  | V5Unsubscribe u => Ok (unsubscribe_encoded_size u)
  | V5UnsubscribeAck a => Ok (unsubscribe_ack_encoded_size a limit)
  | V5PingRequest | V5PingResponse => Ok 0
  | V5Disconnect d => Ok (disconnect_encoded_size d limit)
  | V5Auth a => Ok (auth_encoded_size a limit)
  end.

Definition encode (checks : bool) (p : Packet) (check_size : Z) : writer :=
  let header first_byte := put_u8 first_byte ;; write_variable_length check_size in
  match p with
  | V5Connect c => header CONNECT ;; connect_encode c
  | V5ConnectAck a => header CONNACK ;; connect_ack_encode checks a check_size
  | V5Publish p => header (publish_first_byte p) ;; publish_encode checks p check_size
  | V5PublishAck a => header PUBACK ;; publish_ack_encode checks puback_code a check_size
  | V5PublishReceived a => header PUBREC ;; publish_ack_encode checks puback_code a check_size
  | V5PublishRelease a => header PUBREL ;; publish_ack_encode checks pubrel_code a check_size
  | V5PublishComplete a => header PUBCOMP ;; publish_ack_encode checks pubrel_code a check_size
  | V5Subscribe s => header SUBSCRIBE ;; subscribe_encode checks s
  | V5SubscribeAck a => header SUBACK ;; subscribe_ack_encode checks a check_size
  | V5Unsubscribe u => header UNSUBSCRIBE ;; unsubscribe_encode u
  | V5UnsubscribeAck a => header UNSUBACK ;; unsubscribe_ack_encode checks a check_size
  | V5PingRequest => put_slice [PINGREQ; 0]
  | V5PingResponse => put_slice [PINGRESP; 0]
  | V5Disconnect d => header DISCONNECT ;; disconnect_encode checks d check_size
  | V5Auth a => header AUTH ;; auth_encode checks a check_size
  end.

(** The byte strings of the project's own encoding tests. *)
Example encode_puback_all :
  encode true (V5PublishAck (mkPublishAck 255 PAUnspecifiedError [([97], [98])] (Some [49; 50; 51])))
         17 [] =
  (Ok tt, [64; 17; 0; 255; 128; 13; 38; 0; 1; 97; 0; 1; 98; 31; 0; 3; 49; 50; 51]).
Proof. reflexivity. Qed.
Example encode_disconnect_short :
  encode true (V5Disconnect (disconnect_new ServerBusy)) 2 [] = (Ok tt, [224; 2; 137; 0]).
Proof. reflexivity. Qed.
