(* ===== verification/BodyV5.v ===== *)
(** * The bytes of MQTT 5 packets

    Well-formed MQTT 5 packets, the body that stands for each on the wire, and
    the encoding half of the round trip: under a size limit, [encoded_size] is
    the length of the body of the packet cut down to that limit, and [encode]
    writes that body. *)

From stdpp Require Import base list numbers option.
From Stdlib Require Import ZArith Lia.
From S2P Require Import Prelude Errors Wire CodecTypes PropsV5 PacketV5 EncodeV5.

#[local] Open Scope Z_scope.

(** ** Well-formed packets

    The invariants of the Rust types: integer widths, [NonZero], UTF-8 strings.
    Strings and byte strings have a 16-bit length and subscription identifiers
    are variable-length integers, as the protocol asks. *)

Definition users_wf (us : UserProperties) : Prop := Forall pair_ok us.
Definition sub_id_wf (n : Z) : Prop := 1 ≤ n ≤ VARINT_MAX.

Record will_wf (w : LastWill) : Prop := {
  wwf_delay : opt_wf u32_w (lw_will_delay_interval_sec w);
  wwf_corr : opt_wf bytes_w (lw_correlation_data w);
  wwf_expiry : opt_wf nz_u32_w (lw_message_expiry_interval w);
  wwf_content : opt_wf string_w (lw_content_type w);
  wwf_utf8 : opt_wf bool_w (lw_is_utf8_payload w);
  wwf_resp : opt_wf string_w (lw_response_topic w);
  wwf_users : users_wf (lw_user_properties w);
  wwf_topic : string_wf (lw_topic w);
  wwf_message : blob_wf (lw_message w);
}.

Record connect_wf (c : Connect) : Prop := {
  cwf_keep_alive : u16_range (c_keep_alive c);
  cwf_session : w_wf u32_w (c_session_expiry_interval_secs c);
  cwf_method : opt_wf string_w (c_auth_method c);
  cwf_data : opt_wf bytes_w (c_auth_data c);
  cwf_receive : opt_wf nz_u16_w (c_receive_max c);
  cwf_alias : w_wf u16_w (c_topic_alias_max c);
  cwf_users : users_wf (c_user_properties c);
  cwf_max : opt_wf nz_u32_w (c_max_packet_size c);
  cwf_will : from_option will_wf True (c_last_will c);
  cwf_client : string_wf (c_client_id c);
  cwf_clean : c_client_id c ≠ [] ∨ c_clean_start c = true;
  cwf_username : from_option string_wf True (c_username c);
  cwf_password : from_option blob_wf True (c_password c);
}.

Record connack_wf (a : ConnectAck) : Prop := {
  kwf_session : opt_wf u32_w (ca_session_expiry_interval_secs a);
  kwf_receive : w_wf nz_u16_w (ca_receive_max a);
  kwf_max : opt_wf u32_w (ca_max_packet_size a);
  kwf_client : opt_wf string_w (ca_assigned_client_id a);
  kwf_alias : w_wf u16_w (ca_topic_alias_max a);
  kwf_ka : opt_wf u16_w (ca_server_keepalive_sec a);
  kwf_info : opt_wf string_w (ca_response_info a);
  kwf_ref : opt_wf string_w (ca_server_reference a);
  kwf_method : opt_wf string_w (ca_auth_method a);
  kwf_data : opt_wf bytes_w (ca_auth_data a);
  kwf_diag : diag_wf (ca_user_properties a) (ca_reason_string a);
}.

Record publish_props_wf (p : PublishProperties) : Prop := {
  pwf_alias : opt_wf nz_u16_w (topic_alias p);
  pwf_corr : opt_wf bytes_w (correlation_data p);
  pwf_expiry : opt_wf nz_u32_w (message_expiry_interval p);
  pwf_content : opt_wf string_w (content_type p);
  pwf_users : users_wf (user_properties p);
  pwf_resp : opt_wf string_w (response_topic p);
  pwf_ids : Forall sub_id_wf (subscription_ids p);
}.

Definition publish_wf (p : Publish) : Prop :=
  string_wf (topic p) ∧
  match qos p with
  | AtMostOnce => packet_id p = None
  | _ => ∃ pid, packet_id p = Some pid ∧ nz_u16 pid
  end ∧
  bytes_ok (payload p) ∧
  from_option publish_props_wf True (properties p).

Definition publish_ack_wf {R} (a : PublishAckOf R) : Prop :=
  nz_u16 (pa_packet_id a) ∧ diag_wf (pa_properties a) (pa_reason_string a).

Definition subscribe_wf (s : Subscribe) : Prop :=
  nz_u16 (sub_packet_id s) ∧ from_option sub_id_wf True (sub_id s) ∧
  users_wf (sub_user_properties s) ∧ sub_topic_filters s ≠ [] ∧
  Forall (λ f, string_wf f.1) (sub_topic_filters s).

Definition unsubscribe_wf (u : Unsubscribe) : Prop :=
  nz_u16 (un_packet_id u) ∧ users_wf (un_user_properties u) ∧
  un_topic_filters u ≠ [] ∧ Forall string_wf (un_topic_filters u).

Definition disconnect_wf (d : Disconnect) : Prop :=
  opt_wf u32_w (d_session_expiry_interval_secs d) ∧ opt_wf string_w (d_server_reference d) ∧
  diag_wf (d_user_properties d) (d_reason_string d).

Definition auth_wf (a : Auth) : Prop :=
  opt_wf string_w (au_auth_method a) ∧ opt_wf bytes_w (au_auth_data a) ∧
  diag_wf (au_user_properties a) (au_reason_string a).

Definition packet_wf (p : Packet) : Prop :=
  match p with
  | V5Connect c => connect_wf c
  | V5ConnectAck a => connack_wf a
  | V5Publish p => publish_wf p
  | V5PublishAck a | V5PublishReceived a => publish_ack_wf a
  | V5PublishRelease a | V5PublishComplete a => publish_ack_wf a
  | V5Subscribe s => subscribe_wf s
  | V5SubscribeAck a => nz_u16 (sa_packet_id a) ∧ diag_wf (sa_properties a) (sa_reason_string a)
  | V5Unsubscribe u => unsubscribe_wf u
  | V5UnsubscribeAck a => nz_u16 (ua_packet_id a) ∧ diag_wf (ua_properties a) (ua_reason_string a)
  | V5PingRequest | V5PingResponse => True
  | V5Disconnect d => disconnect_wf d
  | V5Auth a => auth_wf a
  end.

(** ** Bodies *)

(** Properties with their length in front. *)
Definition framed (b : bytes) : bytes := varint (len b) ++ b.

Definition connect_props_bytes (c : Connect) : bytes :=
  prop_bytes u32_w SESS_EXPIRY_INT (nondefault (c_session_expiry_interval_secs c) 0)
  ++ prop_bytes string_w AUTH_METHOD (c_auth_method c)
  ++ prop_bytes bytes_w AUTH_DATA (c_auth_data c)
  ++ prop_bytes bool_w REQ_PROB_INFO (nondefault (c_request_problem_info c) true)
  ++ prop_bytes bool_w REQ_RESP_INFO (nondefault (c_request_response_info c) false)
  ++ prop_bytes nz_u16_w RECEIVE_MAX (c_receive_max c)
  ++ prop_bytes nz_u32_w MAX_PACKET_SIZE_ID (c_max_packet_size c)
  ++ prop_bytes u16_w TOPIC_ALIAS_MAX (nondefault (c_topic_alias_max c) 0)
  ++ users_bytes (c_user_properties c).

Definition will_props_bytes (w : LastWill) : bytes :=
  prop_bytes u32_w WILL_DELAY_INT (lw_will_delay_interval_sec w)
  ++ prop_bytes bool_w UTF8_PAYLOAD (lw_is_utf8_payload w)
  ++ prop_bytes nz_u32_w MSG_EXPIRY_INT (lw_message_expiry_interval w)
  ++ prop_bytes string_w CONTENT_TYPE (lw_content_type w)
  ++ prop_bytes string_w RESP_TOPIC (lw_response_topic w)
  ++ prop_bytes bytes_w CORR_DATA (lw_correlation_data w)
  ++ users_bytes (lw_user_properties w).

Definition will_bytes (w : LastWill) : bytes :=
  framed (will_props_bytes w) ++ prefixed (lw_topic w) ++ prefixed (lw_message w).

Definition connack_fixed_bytes (a : ConnectAck) : bytes :=
  prop_bytes u32_w SESS_EXPIRY_INT (ca_session_expiry_interval_secs a)
  ++ prop_bytes nz_u16_w RECEIVE_MAX (nondefault (ca_receive_max a) RECEIVE_MAX_DEFAULT)
  ++ prop_bytes qos_w MAX_QOS (nondefault (ca_max_qos a) ExactlyOnce)
  ++ prop_bytes bool_w RETAIN_AVAIL (nondefault (ca_retain_available a) true)
  ++ prop_bytes u32_w MAX_PACKET_SIZE_ID (ca_max_packet_size a)
  ++ prop_bytes string_w ASSND_CLIENT_ID (ca_assigned_client_id a)
  ++ prop_bytes u16_w TOPIC_ALIAS_MAX (nondefault (ca_topic_alias_max a) 0)
  ++ prop_bytes bool_w WILDCARD_SUB_AVAIL (nondefault (ca_wildcard_subscription_available a) true)
  ++ prop_bytes bool_w SUB_IDS_AVAIL (nondefault (ca_subscription_identifiers_available a) true)
  ++ prop_bytes bool_w SHARED_SUB_AVAIL (nondefault (ca_shared_subscription_available a) true)
  ++ prop_bytes u16_w SERVER_KA (ca_server_keepalive_sec a)
  ++ prop_bytes string_w RESP_INFO (ca_response_info a)
  ++ prop_bytes string_w SERVER_REF (ca_server_reference a)
  ++ prop_bytes string_w AUTH_METHOD (ca_auth_method a)
  ++ prop_bytes bytes_w AUTH_DATA (ca_auth_data a).

Definition sub_id_bytes (id : Z) : bytes := SUB_ID :: varint id.

Definition publish_props_bytes (p : PublishProperties) : bytes :=
  prop_bytes nz_u16_w TOPIC_ALIAS (topic_alias p)
  ++ prop_bytes bytes_w CORR_DATA (correlation_data p)
  ++ prop_bytes nz_u32_w MSG_EXPIRY_INT (message_expiry_interval p)
  ++ prop_bytes string_w CONTENT_TYPE (content_type p)
  ++ prop_bytes bool_w UTF8_PAYLOAD (nondefault (is_utf8_payload p) false)
  ++ prop_bytes string_w RESP_TOPIC (response_topic p)
  ++ concat (map sub_id_bytes (subscription_ids p))
  ++ users_bytes (user_properties p).

Definition subscribe_props_bytes (s : Subscribe) : bytes :=
  from_option sub_id_bytes [] (sub_id s) ++ users_bytes (sub_user_properties s).

Definition disconnect_fixed_bytes (d : Disconnect) : bytes :=
  prop_bytes u32_w SESS_EXPIRY_INT (d_session_expiry_interval_secs d)
  ++ prop_bytes string_w SERVER_REF (d_server_reference d).

Definition auth_fixed_bytes (a : Auth) : bytes :=
  prop_bytes string_w AUTH_METHOD (au_auth_method a)
  ++ prop_bytes bytes_w AUTH_DATA (au_auth_data a).

Definition publish_ack_bytes {R} (code : R → Z) (a : PublishAckOf R) : bytes :=
  be16 (pa_packet_id a) ++ [code (pa_reason_code a)]
  ++ ack_bytes (pa_properties a, pa_reason_string a).

Definition body_of (p : Packet) : bytes :=
  match p with
  | V5Connect c =>
      prefixed MQTT ++ [MQTT_LEVEL_5; connect_flags c] ++ be16 (c_keep_alive c)
      ++ framed (connect_props_bytes c) ++ prefixed (c_client_id c)
      ++ from_option will_bytes [] (c_last_will c)
      ++ opt_prefixed (c_username c) ++ opt_prefixed (c_password c)
  | V5ConnectAck a =>
      [if ca_session_present a then 1 else 0; connack5_code (ca_reason_code a)]
      ++ framed (connack_fixed_bytes a ++ diag_bytes (ca_user_properties a, ca_reason_string a))
  | V5Publish p =>
      prefixed (topic p) ++ from_option be16 [] (packet_id p)
      ++ framed (publish_props_bytes (default publish_properties_default (properties p)))
      ++ payload p
  | V5PublishAck a | V5PublishReceived a => publish_ack_bytes puback_code a
  | V5PublishRelease a | V5PublishComplete a => publish_ack_bytes pubrel_code a
  | V5Subscribe s =>
      be16 (sub_packet_id s) ++ framed (subscribe_props_bytes s)
      ++ concat (map (λ f, prefixed f.1 ++ [sub_options_byte f.2]) (sub_topic_filters s))
  | V5SubscribeAck a =>
      be16 (sa_packet_id a) ++ ack_bytes (sa_properties a, sa_reason_string a)
      ++ map suback_code (sa_status a)
  | V5Unsubscribe u =>
      be16 (un_packet_id u) ++ framed (users_bytes (un_user_properties u))
      ++ concat (map prefixed (un_topic_filters u))
  | V5UnsubscribeAck a =>
      be16 (ua_packet_id a) ++ ack_bytes (ua_properties a, ua_reason_string a)
      ++ map unsuback_code (ua_status a)
  | V5PingRequest | V5PingResponse => []
  | V5Disconnect d =>
      [disconnect_code (d_reason_code d)]
      ++ framed (disconnect_fixed_bytes d ++ diag_bytes (d_user_properties d, d_reason_string d))
  | V5Auth a =>
      [auth_code (au_reason_code a)]
      ++ framed (auth_fixed_bytes a ++ diag_bytes (au_user_properties a, au_reason_string a))
  end.

Definition first_of (p : Packet) : Z :=
  match p with V5Publish p => publish_first_byte p | _ => packet_type p end.

(** What the other side sees: a PUBLISH always carries properties, and the
    certificate of a CONNECT is local to a connection. *)
Definition received (p : Packet) : Packet :=
  match p with
  | V5Connect c =>
      V5Connect (mkConnect (c_clean_start c) (c_keep_alive c) (c_session_expiry_interval_secs c)
        (c_auth_method c) (c_auth_data c) (c_request_problem_info c) (c_request_response_info c)
        (c_receive_max c) (c_topic_alias_max c) (c_user_properties c) (c_max_packet_size c)
        (c_last_will c) (c_client_id c) (c_username c) (c_password c) None)
  | V5Publish p =>
      V5Publish (mkPublish (dup p) (retain p) (qos p) (topic p) (packet_id p) (payload p)
        (Some (default publish_properties_default (properties p))))
  | _ => p
  end.

(** ** Cutting down to a limit

    User properties are kept from the front while they fit, and the reason
    string if all of them did and it fits too. *)

Definition cut_publish_ack {R} (limit : Z) (a : PublishAckOf R) : PublishAckOf R :=
  let d := ack_fit (pa_properties a) (pa_reason_string a) (limit - 7) in
  mkPublishAck (pa_packet_id a) (pa_reason_code a) d.1 d.2.

Definition truncate (limit : Z) (p : Packet) : Packet :=
  match p with
  | V5ConnectAck a =>
      let d := fit (ca_user_properties a) (ca_reason_string a)
                   (reduce_limit limit (2 + 4 + len (connack_fixed_bytes a))) in
      V5ConnectAck (mkConnectAck (ca_session_present a) (ca_reason_code a)
        (ca_session_expiry_interval_secs a) (ca_receive_max a) (ca_max_qos a)
        (ca_max_packet_size a) (ca_assigned_client_id a) (ca_topic_alias_max a)
        (ca_retain_available a) (ca_wildcard_subscription_available a)
        (ca_subscription_identifiers_available a) (ca_shared_subscription_available a)
        (ca_server_keepalive_sec a) (ca_response_info a) (ca_server_reference a)
        (ca_auth_method a) (ca_auth_data a) d.2 d.1)
  | V5PublishAck a => V5PublishAck (cut_publish_ack limit a)
  | V5PublishReceived a => V5PublishReceived (cut_publish_ack limit a)
  | V5PublishRelease a => V5PublishRelease (cut_publish_ack limit a)
  | V5PublishComplete a => V5PublishComplete (cut_publish_ack limit a)
  | V5SubscribeAck a =>
      let d := ack_fit (sa_properties a) (sa_reason_string a) (limit - 2 - len (sa_status a)) in
      V5SubscribeAck (mkSubscribeAck (sa_packet_id a) d.1 d.2 (sa_status a))
  | V5UnsubscribeAck a =>
      let d := ack_fit (ua_properties a) (ua_reason_string a)
                       (reduce_limit limit (2 + len (ua_status a))) in
      V5UnsubscribeAck (mkUnsubscribeAck (ua_packet_id a) d.1 d.2 (ua_status a))
  | V5Disconnect d =>
      let g := fit (d_user_properties d) (d_reason_string d)
                   (reduce_limit limit (len (disconnect_fixed_bytes d) + 1 + 4)) in
      V5Disconnect (mkDisconnect (d_reason_code d) (d_session_expiry_interval_secs d)
        (d_server_reference d) g.2 g.1)
  | V5Auth a =>
      let g := fit (au_user_properties a) (au_reason_string a)
                   (reduce_limit limit (len (auth_fixed_bytes a) + 1 + 4)) in
      V5Auth (mkAuth (au_reason_code a) (au_auth_method a) (au_auth_data a) g.2 g.1)
  | _ => p
  end.

(** The limits for which the subtractions of [encoded_size] do not underflow. *)
Definition limit_ok (limit : Z) (p : Packet) : Prop :=
  match p with
  | V5PublishAck _ | V5PublishReceived _ | V5PublishRelease _ | V5PublishComplete _ => 7 ≤ limit
  | V5SubscribeAck a => 2 + len (sa_status a) ≤ limit
  | _ => 0 ≤ limit
  end.

(** ** Sizes *)

Lemma framed_size b : len b ≤ VARINT_MAX → len (framed b) = var_int_len (len b) + len b.
Proof.
  intros. pose proof (len_nonneg b). unfold framed. rewrite len_app, var_int_len_varint by lia. done.
Qed.

#[export] Instance qos_wire_ok : WireOk qos_w.
Proof.
  split; simpl.
  - done.
  - by intros [] rest _.
  - done.
  - intros q _. apply bytes_ok_cons. pose proof (qos_value_range q). split; [range_lia|constructor].
  - intros [|b s] Hs; [done|]. unfold wp, decode_qos, mbind, M_bind; simpl. unfold lift.
    pose proof (qos_try_from_no_panic b) as Hp. pose proof (qos_try_from_Ok b) as Hq.
    destruct (qos_try_from b) as [q|e|]; [|done|done].
    split; [done|]. by rewrite (Hq q).
Qed.

(** Every property of a packet, by its place in the record. *)
Lemma len_prop {A} (w : wire A) `{!WireOk w} o id :
  opt_wf w o → len (prop_bytes w id o) = encoded_property_size w o.
Proof. intros. by rewrite (property_size w o id). Qed.

Lemma len_prop_default {A} (w : wire A) `{!WireOk w} `{!EqDecision A} v d id :
  w_wf w v → len (prop_bytes w id (nondefault v d)) = encoded_property_size_default w v d.
Proof. intros. rewrite property_size_default. apply len_prop; [done|by apply nondefault_wf]. Qed.

Lemma bool_wf b : w_wf bool_w b.
Proof. done. Qed.

Lemma opt_bool_wf o : opt_wf bool_w o.
Proof. by destruct o. Qed.

#[export] Hint Resolve bool_wf opt_bool_wf nondefault_wf : wire.

Ltac prop_lengths :=
  rewrite ?len_app;
  repeat (rewrite len_prop_default by first [typeclasses eauto | eauto with wire]);
  repeat (rewrite len_prop by first [typeclasses eauto | eauto with wire]);
  rewrite <-?users_size by done.

Lemma connect_props_len c : connect_wf c → len (connect_props_bytes c) = connect_properties_len c.
Proof. intros []. unfold connect_props_bytes, connect_properties_len. prop_lengths. lia. Qed.

Lemma will_props_len w : will_wf w → len (will_props_bytes w) = will_properties_len w.
Proof. intros []. unfold will_props_bytes, will_properties_len. prop_lengths. lia. Qed.

Lemma max_qos_len q :
  len (prop_bytes qos_w MAX_QOS (nondefault q ExactlyOnce)) = if below_exactly_once q then 1 + 1 else 0.
Proof. by destruct q. Qed.

Lemma alias_len v :
  u16_range v → encoded_property_size_default u16_w v 0 = if 0 <? v then 1 + w_size u16_w v else 0.
Proof.
  intros Hv. unfold encoded_property_size_default. case_bool_decide.
  - by subst.
  - by rewrite (proj2 (Z.ltb_lt _ _)) by range_lia.
Qed.

Lemma connack_fixed_bytes_len a : connack_wf a → len (connack_fixed_bytes a) = connack_fixed_len a.
Proof.
  intros []. unfold connack_fixed_bytes, connack_fixed_len.
  rewrite !len_app, max_qos_len, <-alias_len by done. prop_lengths. lia.
Qed.

Lemma sub_ids_len ids n :
  Forall sub_id_wf ids →
  foldl (λ acc id, acc + 1 + var_int_len id) n ids = n + len (concat (map sub_id_bytes ids)).
Proof.
  intros H. revert n. induction H as [|id ids Hid _ IH]; intros n; cbn [foldl map concat].
  - rewrite len_nil. lia.
  - unfold sub_id_wf in Hid. rewrite IH, len_app. unfold sub_id_bytes.
    rewrite len_cons, var_int_len_varint by lia. lia.
Qed.

Lemma publish_props_len p : publish_props_wf p → len (publish_props_bytes p) = publish_properties_len p.
Proof.
  intros []. unfold publish_props_bytes, publish_properties_len. prop_lengths.
  rewrite sub_ids_len by done. lia.
Qed.

Lemma subscribe_props_len s :
  subscribe_wf s → len (subscribe_props_bytes s) = subscribe_properties_len s.
Proof.
  intros (_ & Hid & Hus & _). unfold subscribe_props_bytes, subscribe_properties_len.
  rewrite len_app, <-users_size by done. f_equal. destruct (sub_id s) as [id|]; [|done].
  simpl in Hid. unfold sub_id_wf in Hid. simpl. unfold sub_id_bytes.
  by rewrite len_cons, var_int_len_varint by lia.
Qed.

Lemma disconnect_fixed_bytes_len d :
  disconnect_wf d → len (disconnect_fixed_bytes d) = disconnect_fixed_len d.
Proof. intros (? & ? & _). unfold disconnect_fixed_bytes, disconnect_fixed_len. prop_lengths. lia. Qed.

Lemma auth_fixed_bytes_len a : auth_wf a → len (auth_fixed_bytes a) = auth_fixed_len a.
Proof. intros (? & ? & _). unfold auth_fixed_bytes, auth_fixed_len. prop_lengths. lia. Qed.

Lemma reduce_limit_range limit n : 0 ≤ limit → 0 ≤ n → 0 ≤ reduce_limit limit n ≤ limit.
Proof. intros. unfold reduce_limit. destruct (Z.ltb_spec limit n); lia. Qed.

(** Fixed properties and diagnostics together, behind a header. *)
Lemma diag_size fixed us reason limit header :
  diag_wf us reason → 0 ≤ limit → 0 ≤ header →
  let l := reduce_limit limit (header + 4 + len fixed) in
  let n := len fixed + encoded_size_opt_props us reason l 0 in
  header + var_int_len n + n ≤ VARINT_MAX →
  header + var_int_len n + n = header + len (framed (fixed ++ diag_bytes (fit us reason l))).
Proof.
  intros Hd Hl Hh l n Hmax. pose proof (len_nonneg fixed) as Hf.
  destruct (opt_props_size us reason l 0 Hd) as [Hsz _]; [apply reduce_limit_range; lia|].
  assert (Hn : n = len (fixed ++ diag_bytes (fit us reason l))).
  { unfold n. rewrite Hsz, len_app. lia. }
  pose proof (var_int_len_nonneg n). rewrite framed_size; [|rewrite <-Hn; lia].
  rewrite <-Hn. lia.
Qed.

Lemma filters_size fs n :
  foldl (λ acc '(filter, _), acc + w_size string_w filter + 1) n fs =
  n + len (concat (map (λ f : bytes * SubscriptionOptions, prefixed f.1 ++ [sub_options_byte f.2]) fs)).
Proof.
  revert n. induction fs as [|[f o] fs IH]; intros n; cbn [foldl map concat].
  - rewrite len_nil. lia.
  - rewrite IH, !len_app, len_prefixed, len_cons, len_nil. simpl. lia.
Qed.

Lemma topics_size fs n :
  foldl (λ acc filter, acc + 2 + len filter) n fs = n + len (concat (map prefixed fs)).
Proof.
  revert n. induction fs as [|f fs IH]; intros n; cbn [foldl map concat].
  - rewrite len_nil. lia.
  - rewrite IH, !len_app, len_prefixed. lia.
Qed.

Lemma connect_size c :
  connect_wf c → connect_encoded_size c ≤ VARINT_MAX →
  connect_encoded_size c = len (body_of (V5Connect c)).
Proof.
  intros Hwf Hmax. unfold connect_encoded_size in *. rewrite <-connect_props_len in * by done.
  destruct Hwf. pose proof (var_int_len_nonneg (len (connect_props_bytes c))).
  pose proof (len_nonneg (c_client_id c)).
  set (wsz := match c_last_will c with Some _ => _ | None => _ end) in *.
  set (us := match c_username c with Some v => w_size string_w v | None => 0 end) in *.
  set (ps := match c_password c with Some v => w_size bytes_w v | None => 0 end) in *.
  assert (Hu : us = len (opt_prefixed (c_username c))) by
    (unfold us; destruct (c_username c); simpl; rewrite ?len_prefixed; done).
  assert (Hp : ps = len (opt_prefixed (c_password c))) by
    (unfold ps; destruct (c_password c); simpl; rewrite ?len_prefixed; done).
  pose proof (len_nonneg (opt_prefixed (c_username c))).
  pose proof (len_nonneg (opt_prefixed (c_password c))).
  assert (Hw : (wsz ≤ VARINT_MAX → wsz = len (from_option will_bytes [] (c_last_will c))) ∧ 0 ≤ wsz).
  { unfold wsz. destruct (c_last_will c) as [w|]; [|by simpl].
    cbn [from_option]. unfold will_bytes. simpl w_size.
    rewrite !len_app, !len_prefixed, <-will_props_len by done.
    pose proof (var_int_len_nonneg (len (will_props_bytes w))).
    pose proof (len_nonneg (lw_topic w)). pose proof (len_nonneg (lw_message w)).
    pose proof (len_nonneg (will_props_bytes w)). split; [|lia].
    intros. rewrite framed_size by lia. lia. }
  destruct Hw as [Hw Hw0]. cbn [body_of]. simpl w_size in *.
  pose proof (len_nonneg (connect_props_bytes c)).
  rewrite !len_app, !len_prefixed, framed_size, len_be16, <-Hw by lia.
  rewrite len_cons, len_cons, len_nil, len_MQTT. lia.
Qed.

Lemma publish_props_default_wf : publish_props_wf publish_properties_default.
Proof. split; done || constructor. Qed.

Lemma publish_props_wf_default p :
  publish_wf p → publish_props_wf (default publish_properties_default (properties p)).
Proof.
  intros (_ & _ & _ & Hp). destruct (properties p); [done|apply publish_props_default_wf].
Qed.

Lemma publish_size p :
  publish_wf p → publish_encoded_size p ≤ VARINT_MAX →
  publish_encoded_size p = len (body_of (V5Publish p)).
Proof.
  intros Hwf. pose proof (publish_props_wf_default p Hwf) as Hprops.
  destruct Hwf as (_ & Hid & _). unfold publish_encoded_size, publish_properties_encoded_size.
  cbn [body_of]. rewrite <-publish_props_len by done.
  set (b := publish_props_bytes _). pose proof (var_int_len_nonneg (len b)).
  pose proof (len_nonneg (topic p)). pose proof (len_nonneg (payload p)).
  rewrite !len_app, len_prefixed. simpl w_size.
  assert (Hids : (if bool_decide (qos p = AtMostOnce) then 0 else 2) =
                 len (from_option be16 [] (packet_id p))).
  { destruct (qos p); [by rewrite Hid|destruct Hid as (? & -> & _); done..]. }
  rewrite Hids. pose proof (len_nonneg (from_option be16 [] (packet_id p))).
  intros. rewrite framed_size by lia. lia.
Qed.

Lemma ack_bytes_framed d : ack_bytes d = framed (diag_bytes d).
Proof. done. Qed.

Lemma ack_part_size us reason limit n :
  diag_wf us reason → 0 ≤ limit → 0 ≤ n →
  n + ack_props_encoded_size us reason limit ≤ VARINT_MAX →
  n + ack_props_encoded_size us reason limit = n + len (ack_bytes (ack_fit us reason limit)).
Proof. intros Hd Hl Hn Hmax. by rewrite (proj1 (ack_size us reason limit Hd Hl ltac:(lia))). Qed.

Lemma publish_ack_size {R} checks (code : R → Z) (a : PublishAckOf R) limit :
  publish_ack_wf a → 7 ≤ limit →
  ∃ n, publish_ack_encoded_size checks a limit = Ok n ∧
       (n ≤ VARINT_MAX → n = len (publish_ack_bytes code (cut_publish_ack limit a))).
Proof.
  intros [_ Hd] Hl. unfold publish_ack_encoded_size, HEADER_LEN.
  rewrite u32_sub_ok by lia. unfold mbind, outcome_bind. rewrite u32_sub_ok by lia.
  replace (limit - (2 + 1) - 4) with (limit - 7) by lia.
  eexists; split; [done|]. intros Hmax. rewrite ack_part_size by (done || lia).
  unfold publish_ack_bytes, cut_publish_ack. cbn [pa_packet_id pa_properties pa_reason_string].
  rewrite <-surjective_pairing, !len_app, len_be16, len_cons, len_nil. lia.
Qed.

Lemma map_len {A B} (f : A → B) l : len (map f l) = len l.
Proof. unfold len. by rewrite length_map. Qed.

(** The body of a packet whose diagnostics have been cut. *)
Lemma body_connack limit a :
  body_of (truncate limit (V5ConnectAck a)) =
  [if ca_session_present a then 1 else 0; connack5_code (ca_reason_code a)]
  ++ framed (connack_fixed_bytes a ++ diag_bytes (fit (ca_user_properties a) (ca_reason_string a)
               (reduce_limit limit (2 + 4 + len (connack_fixed_bytes a))))).
Proof. cbn [truncate body_of]. by destruct (fit _ _ _). Qed.

Lemma body_disconnect limit d :
  body_of (truncate limit (V5Disconnect d)) =
  [disconnect_code (d_reason_code d)]
  ++ framed (disconnect_fixed_bytes d ++ diag_bytes (fit (d_user_properties d) (d_reason_string d)
               (reduce_limit limit (len (disconnect_fixed_bytes d) + 1 + 4)))).
Proof. cbn [truncate body_of]. by destruct (fit _ _ _). Qed.

Lemma body_auth limit a :
  body_of (truncate limit (V5Auth a)) =
  [auth_code (au_reason_code a)]
  ++ framed (auth_fixed_bytes a ++ diag_bytes (fit (au_user_properties a) (au_reason_string a)
               (reduce_limit limit (len (auth_fixed_bytes a) + 1 + 4)))).
Proof. cbn [truncate body_of]. by destruct (fit _ _ _). Qed.

(** [encoded_size] is the length of the body of what fits. *)
Lemma body_size checks limit p :
  packet_wf p → limit_ok limit p → limit < 2 ^ 32 →
  ∃ n, encoded_size checks p limit = Ok n ∧
       (n ≤ VARINT_MAX → n = len (body_of (truncate limit p))).
Proof.
  intros Hwf Hl Hmax. destruct p; cbn [encoded_size packet_wf limit_ok] in *.
  - eexists; split; [done|]. by apply connect_size.
  - eexists; split; [done|]. unfold connect_ack_encoded_size. destruct (id Hwf).
    rewrite <-connack_fixed_bytes_len, body_connack, len_app by done. intros Hn.
    by rewrite (diag_size _ _ _ limit 2) by (done || lia).
  - eexists; split; [done|]. by apply publish_size.
  - by apply publish_ack_size.
  - by apply publish_ack_size.
  - by apply publish_ack_size.
  - by apply publish_ack_size.
  - eexists; split; [done|]. unfold subscribe_encoded_size. cbn [truncate body_of].
    rewrite <-subscribe_props_len, filters_size, !len_app, len_be16 by done.
    pose proof (var_int_len_nonneg (len (subscribe_props_bytes s))).
    set (b := concat _). pose proof (len_nonneg b).
    intros. rewrite framed_size by lia. lia.
  - destruct Hwf as [_ Hd]. pose proof (len_nonneg (sa_status a)).
    unfold subscribe_ack_encoded_size. rewrite (proj2 (Z.ltb_ge _ _)) by (unfold U32_MAX; lia).
    rewrite u32_sub_ok by lia. unfold mbind, outcome_bind. rewrite u32_sub_ok by lia.
    eexists; split; [done|]. intros Hn.
    cbn [truncate body_of sa_packet_id sa_properties sa_reason_string sa_status].
    rewrite ack_part_size by (done || lia).
    rewrite <-surjective_pairing, !len_app, map_len, len_be16. lia.
  - eexists; split; [done|]. destruct Hwf as (_ & Hus & _). unfold unsubscribe_encoded_size.
    cbn [truncate body_of]. rewrite users_size, topics_size, !len_app, len_be16 by done.
    pose proof (var_int_len_nonneg (len (users_bytes (un_user_properties u)))).
    set (b := concat _). pose proof (len_nonneg b).
    intros. rewrite framed_size by lia. lia.
  - eexists; split; [done|]. destruct Hwf as [_ Hd]. unfold unsubscribe_ack_encoded_size. intros Hn.
    pose proof (len_nonneg (ua_status a)).
    pose proof (reduce_limit_range limit (2 + len (ua_status a)) ltac:(lia) ltac:(lia)).
    cbn [truncate body_of ua_packet_id ua_properties ua_reason_string ua_status].
    rewrite ack_part_size by (done || lia).
    rewrite <-surjective_pairing, !len_app, map_len, len_be16. lia.
  - by exists 0.
  - by exists 0.
  - eexists; split; [done|]. unfold disconnect_encoded_size.
    rewrite <-disconnect_fixed_bytes_len, body_disconnect, len_app by done. destruct Hwf as (_ & _ & Hd).
    replace (len (disconnect_fixed_bytes d) + 1 + 4) with (1 + 4 + len (disconnect_fixed_bytes d)) by lia.
    intros Hn. by rewrite (diag_size _ _ _ limit 1) by (done || lia).
  - eexists; split; [done|]. unfold auth_encoded_size.
    rewrite <-auth_fixed_bytes_len, body_auth, len_app by done. destruct Hwf as (_ & _ & Hd).
    replace (len (auth_fixed_bytes a) + 1 + 4) with (1 + 4 + len (auth_fixed_bytes a)) by lia.
    intros Hn. by rewrite (diag_size _ _ _ limit 1) by (done || lia).
Qed.

(** ** Encoding writes the body *)

Lemma writes_lift {A} (o : outcome EncodeError A) v (k : A → writer) b :
  o = Ok v → writes (k v) b → writes (lift o ≫= k) b.
Proof. intros -> H buf. by rewrite (bind_ok _ _ _ v buf). Qed.

Lemma writes_property_default {A} (w : wire A) `{!WireOk w} `{!EqDecision A} v d id :
  w_wf w v → writes (encode_property_default w v d id) (prop_bytes w id (nondefault v d)).
Proof.
  intros. rewrite encode_property_default_eq. apply writes_property; [done|by apply nondefault_wf].
Qed.

#[export] Hint Extern 1 (writes (encode_property _ _ _) _) =>
  (apply writes_property; [typeclasses eauto|eauto with wire]) : wire.
#[export] Hint Extern 1 (writes (encode_property_default _ _ _ _) _) =>
  (apply writes_property_default; [typeclasses eauto|eauto with wire]) : wire.
#[export] Hint Extern 1 (writes (encode_user_properties _) _) =>
  (apply writes_users; assumption) : wire.
#[export] Hint Extern 1 (writes (encode_u16 _) _) => apply writes_put_u16 : wire.

(** One writer after the other, each leaving its bytes. *)
Ltac writes_seq :=
  repeat (apply writes_bind; [solve [eauto with wire]|]); try solve [eauto with wire].

(** The properties' length, recovered from the size that was announced. *)
Lemma from_size_framed {E} checks b :
  len b ≤ VARINT_MAX → var_int_len_from_size checks (len (framed b)) = (Ok (len b) : outcome E Z).
Proof.
  intros. pose proof (len_nonneg b). rewrite framed_size by done.
  apply var_int_len_from_size_spec. lia.
Qed.

Lemma framed_len_bound (b : bytes) : len b ≤ len (framed b).
Proof. unfold framed. rewrite len_app. pose proof (len_nonneg (varint (len b))). lia. Qed.

Lemma writes_len (b : bytes) : len b ≤ VARINT_MAX → writes (write_variable_length (len b)) (varint (len b)).
Proof. intros. apply writes_varint. pose proof (len_nonneg b). lia. Qed.
#[export] Hint Resolve writes_len : wire.

Lemma writes_then_diag checks (w : writer) b us reason limit size :
  writes w b → diag_wf us reason → 0 ≤ limit →
  size = len b + len (diag_bytes (fit us reason limit)) → size ≤ VARINT_MAX →
  writes (encode_then_diag checks w us reason size) (b ++ diag_bytes (fit us reason limit)).
Proof.
  intros Hw Hd Hl -> Hmax buf. unfold encode_then_diag.
  pose proof (len_nonneg b). pose proof (len_nonneg (diag_bytes (fit us reason limit))).
  erewrite bind_ok by done. erewrite bind_ok by apply Hw. erewrite bind_ok by done.
  rewrite len_app, Z.add_simpl_l, as_u32_small by (unfold VARINT_MAX in *; lia).
  rewrite u32_sub_ok, Z.add_simpl_l by lia. erewrite bind_ok by done.
  rewrite (writes_opt_props us reason limit) by done. by rewrite app_assoc.
Qed.

Lemma writes_will w :
  will_wf w → len (will_props_bytes w) ≤ VARINT_MAX → writes (encode_last_will w) (will_bytes w).
Proof.
  intros Hwf Hmax. unfold encode_last_will, will_bytes, framed.
  pose proof (len_nonneg (will_props_bytes w)).
  rewrite <-will_props_len, as_u32_small by first [done | unfold VARINT_MAX in *; lia].
  destruct Hwf. rewrite <-app_assoc. apply writes_bind; [by apply writes_len|].
  unfold will_props_bytes. rewrite <-!app_assoc. writes_seq.
Qed.

Lemma writes_v5_connect c :
  connect_wf c → len (body_of (V5Connect c)) ≤ VARINT_MAX →
  writes (connect_encode c) (body_of (V5Connect c)).
Proof.
  intros Hwf Hmax. unfold connect_encode. cbn [body_of] in *.
  rewrite !len_app in Hmax. pose proof (framed_len_bound (connect_props_bytes c)).
  pose proof (len_nonneg (connect_props_bytes c)). 
  pose proof (len_nonneg (opt_prefixed (c_username c))).
  pose proof (len_nonneg (opt_prefixed (c_password c))).
  pose proof (len_nonneg (from_option will_bytes [] (c_last_will c))).
  rewrite len_be16, !len_prefixed in Hmax. pose proof (len_nonneg (c_client_id c)).
  pose proof (len_nonneg [MQTT_LEVEL_5; connect_flags c]). rewrite len_MQTT in Hmax.
  rewrite <-connect_props_len, as_u32_small by first [done | unfold VARINT_MAX in *; lia].
  destruct Hwf. apply writes_bind; [apply writes_blob; split; [repeat constructor; range_lia|done]|].
  unfold framed. rewrite <-!app_assoc. apply writes_bind; [apply writes_put_slice|].
  apply writes_bind; [apply writes_put_u16|]. apply writes_bind; [apply writes_len; lia|].
  unfold connect_props_bytes. rewrite <-!app_assoc. writes_seq.
  apply writes_bind; [|apply writes_bind; [by apply writes_opt_string|by apply writes_opt_bytes]].
  destruct (c_last_will c) as [w|]; cbn [from_option] in *; [|apply writes_ret].
  apply writes_will; [done|]. unfold will_bytes in *. rewrite !len_app, !len_prefixed in *.
  pose proof (framed_len_bound (will_props_bytes w)). pose proof (len_nonneg (lw_topic w)).
  pose proof (len_nonneg (lw_message w)). lia.
Qed.

Lemma writes_max_qos q :
  writes (if below_exactly_once q then put_slice [MAX_QOS; qos_value q] else mret tt)
         (prop_bytes qos_w MAX_QOS (nondefault q ExactlyOnce)).
Proof. destruct q; apply writes_put_slice || apply writes_ret. Qed.
#[export] Hint Resolve writes_max_qos : wire.

(** [header], the length of the properties, the fixed properties, the
    diagnostics that fit: the shape of CONNACK, DISCONNECT and AUTH. *)
Lemma writes_diag_packet checks (part : Z → writer) header fixed us reason limit :
  let d := fit us reason limit in
  let props := fixed ++ diag_bytes d in
  diag_wf us reason → 0 ≤ limit → len (header ++ framed props) ≤ VARINT_MAX →
  (var_int_len_from_size checks (len (framed props)) = (Ok (len props) : outcome EncodeError Z) →
   writes (part (len (header ++ framed props))) (header ++ varint (len props) ++ fixed)) →
  writes (encode_then_diag checks (part (len (header ++ framed props))) us reason
            (len (header ++ framed props)))
         (header ++ framed props).
Proof.
  intros d props Hd Hl Hmax Hpart.
  assert (Hp : len props ≤ VARINT_MAX).
  { rewrite len_app in Hmax. pose proof (len_nonneg header). pose proof (framed_len_bound props). lia. }
  specialize (Hpart (from_size_framed checks props Hp)).
  replace (header ++ framed props) with ((header ++ varint (len props) ++ fixed) ++ diag_bytes d)
    in * by (unfold framed, props; by rewrite <-!app_assoc).
  apply writes_then_diag; try done. by rewrite (len_app (header ++ _)).
Qed.

(** The subtraction of the header from the announced size. *)
Lemma header_sub {E} checks (header b : bytes) k :
  len header = k → u32_sub checks (len (header ++ b)) k = (Ok (len b) : outcome E Z).
Proof.
  intros <-. pose proof (len_nonneg b). rewrite u32_sub_ok by (rewrite len_app; lia).
  by rewrite len_app, Z.add_simpl_l.
Qed.

Lemma framed_bound (header b rest : bytes) :
  len (header ++ framed b ++ rest) ≤ VARINT_MAX → len b ≤ VARINT_MAX.
Proof.
  rewrite !len_app. pose proof (framed_len_bound b). pose proof (len_nonneg header).
  pose proof (len_nonneg rest). lia.
Qed.

Lemma writes_connack checks a limit :
  connack_wf a → 0 ≤ limit →
  let b := body_of (truncate limit (V5ConnectAck a)) in
  len b ≤ VARINT_MAX → writes (connect_ack_encode checks a (len b)) b.
Proof.
  intros Hwf Hl. rewrite body_connack. intros b Hmax. unfold b in *. clear b.
  unfold connect_ack_encode.
  set (l := reduce_limit limit _) in *.
  assert (0 ≤ l) by (apply reduce_limit_range; pose proof (len_nonneg (connack_fixed_bytes a)); lia).
  destruct Hwf.
  apply (writes_diag_packet checks (connack_fixed_part checks a)); [done..|].
  intros Hsize. unfold connack_fixed_part.
  apply writes_bind; [apply writes_put_slice|].
  eapply writes_lift; [by apply header_sub|]. eapply writes_lift; [exact Hsize|].
  rewrite <-(app_nil_r (framed _)) in Hmax. pose proof (framed_bound _ _ _ Hmax).
  apply writes_bind; [by apply writes_len|]. unfold connack_fixed_bytes. writes_seq.
Qed.

Lemma writes_disconnect checks d limit :
  disconnect_wf d → 0 ≤ limit →
  let b := body_of (truncate limit (V5Disconnect d)) in
  len b ≤ VARINT_MAX → writes (disconnect_encode checks d (len b)) b.
Proof.
  intros (? & ? & ?) Hl. rewrite body_disconnect. intros b Hmax. unfold b in *. clear b.
  unfold disconnect_encode.
  set (l := reduce_limit limit _) in *.
  assert (0 ≤ l) by (apply reduce_limit_range; pose proof (len_nonneg (disconnect_fixed_bytes d)); lia).
  apply (writes_diag_packet checks (disconnect_fixed_part checks d)); [done..|].
  intros Hsize. unfold disconnect_fixed_part. apply writes_bind; [apply writes_put_u8|].
  eapply writes_lift; [by apply header_sub|]. eapply writes_lift; [exact Hsize|].
  rewrite <-(app_nil_r (framed _)) in Hmax. pose proof (framed_bound _ _ _ Hmax).
  apply writes_bind; [by apply writes_len|]. unfold disconnect_fixed_bytes. writes_seq.
Qed.

Lemma writes_auth checks a limit :
  auth_wf a → 0 ≤ limit →
  let b := body_of (truncate limit (V5Auth a)) in
  len b ≤ VARINT_MAX → writes (auth_encode checks a (len b)) b.
Proof.
  intros (? & ? & ?) Hl. rewrite body_auth. intros b Hmax. unfold b in *. clear b.
  unfold auth_encode.
  set (l := reduce_limit limit _) in *.
  assert (0 ≤ l) by (apply reduce_limit_range; pose proof (len_nonneg (auth_fixed_bytes a)); lia).
  apply (writes_diag_packet checks (auth_fixed_part checks a)); [done..|].
  intros Hsize. unfold auth_fixed_part. apply writes_bind; [apply writes_put_u8|].
  eapply writes_lift; [by apply header_sub|]. eapply writes_lift; [exact Hsize|].
  rewrite <-(app_nil_r (framed _)) in Hmax. pose proof (framed_bound _ _ _ Hmax).
  apply writes_bind; [by apply writes_len|]. unfold auth_fixed_bytes. writes_seq.
Qed.

Lemma writes_publish checks p :
  publish_wf p → len (body_of (V5Publish p)) ≤ VARINT_MAX →
  writes (publish_encode checks p (len (body_of (V5Publish p)))) (body_of (V5Publish p)).
Proof.
  intros Hwf Hmax. pose proof (publish_props_wf_default p Hwf) as Hprops.
  destruct Hwf as (Ht & Hid & _ & _). cbn [body_of] in *.
  set (pp := default _ _) in *. set (pid := from_option be16 [] (packet_id p)) in *.
  intros buf. unfold publish_encode. fold pp.
  erewrite bind_ok by done. erewrite bind_ok by by apply writes_string.
  rewrite (bind_ok _ _ _ tt ((buf ++ prefixed (topic p)) ++ pid)).
  2:{ unfold pid. destruct (qos p); simpl; [rewrite Hid; apply writes_ret|
      destruct Hid as (? & -> & _); apply writes_put_u16..]. }
  erewrite bind_ok by done.
  rewrite !len_app in Hmax. pose proof (len_nonneg (framed (publish_props_bytes pp))).
  pose proof (len_nonneg (prefixed (topic p))). pose proof (len_nonneg pid).
  pose proof (len_nonneg (payload p)). pose proof (framed_len_bound (publish_props_bytes pp)).
  rewrite (bind_ok _ _ _ (len (framed (publish_props_bytes pp))) ((buf ++ prefixed (topic p)) ++ pid)).
  2:{ unfold lift. rewrite !len_app, as_u32_small by (unfold VARINT_MAX in *; lia).
      rewrite u32_sub_ok by lia. repeat f_equal. lia. }
  rewrite (bind_ok _ _ _ tt (((buf ++ prefixed (topic p)) ++ pid) ++ framed (publish_props_bytes pp))).
  - unfold put_slice. by rewrite <-!app_assoc.
  - revert buf. enough (writes (publish_properties_encode checks pp (len (framed (publish_props_bytes pp))))
      (framed (publish_props_bytes pp))) as H' by (intros; apply H').
    unfold publish_properties_encode. eapply writes_lift; [apply from_size_framed; lia|].
    unfold framed at 1. apply writes_bind; [apply writes_len; lia|].
    destruct Hprops. unfold publish_props_bytes. writes_seq.
    apply writes_bind; [|by apply writes_users]. apply writes_for_each.
    eapply Forall_impl; [|exact pwf_ids0]. intros id Hid'. unfold sub_id_wf in Hid'.
    apply (writes_bind _ _ [SUB_ID]); [apply writes_put_u8|apply writes_varint; lia].
Qed.

Lemma ack_bytes_bound d : len (diag_bytes d) ≤ len (ack_bytes d).
Proof. rewrite ack_bytes_framed. apply framed_len_bound. Qed.

Lemma writes_publish_ack {R} checks (code : R → Z) (a : PublishAckOf R) limit :
  publish_ack_wf a → 7 ≤ limit →
  let b := publish_ack_bytes code (cut_publish_ack limit a) in
  len b ≤ VARINT_MAX → writes (publish_ack_encode checks code a (len b)) b.
Proof.
  intros [_ Hd] Hl b. unfold publish_ack_encode, b, publish_ack_bytes, cut_publish_ack.
  cbn [pa_packet_id pa_reason_code pa_properties pa_reason_string].
  rewrite <-surjective_pairing. set (d := ack_fit _ _ _). intros Hmax.
  pose proof (ack_bytes_bound d). rewrite !len_app, len_be16, len_cons, len_nil in Hmax.
  apply writes_bind; [apply writes_put_u16|].
  apply writes_bind; [apply writes_put_u8|]. rewrite app_assoc.
  eapply writes_lift; [by apply header_sub|]. apply writes_ack; [done|lia|]. fold d. lia.
Qed.

Lemma writes_codes {R} (code : R → Z) l :
  writes (for_each (λ r, put_u8 (code r)) l) (map code l).
Proof.
  induction l as [|r l IH]; cbn [for_each map]; [apply writes_ret|].
  apply (writes_bind _ _ [_]); [apply writes_put_u8|done].
Qed.

(** Identifier, acknowledgement properties, one byte per filter. *)
Lemma writes_status_ack {R} checks (code : R → Z) pid us reason l (status : list R) :
  let d := ack_fit us reason l in
  let b := be16 pid ++ ack_bytes d ++ map code status in
  diag_wf us reason → 0 ≤ l → len b ≤ VARINT_MAX →
  writes
    (encode_u16 pid ;;
     lift (u32_sub checks (len b) 2) ≫= λ size,
     lift (u32_sub checks size (as_u32 (len status))) ≫= λ size,
     ack_props_encode checks us reason size ;;
     for_each (λ r, put_u8 (code r)) status) b.
Proof.
  intros d b Hd Hl Hmax. unfold b in *. rewrite !len_app, map_len, len_be16 in Hmax.
  pose proof (len_nonneg status). pose proof (len_nonneg (ack_bytes d)).
  pose proof (ack_bytes_bound d).
  apply writes_bind; [apply writes_put_u16|]. eapply writes_lift; [by apply header_sub|].
  rewrite as_u32_small by (unfold VARINT_MAX in *; lia).
  eapply writes_lift.
  { rewrite u32_sub_ok; [done|]. rewrite len_app, map_len. lia. }
  rewrite len_app, map_len, Z.add_simpl_r.
  apply writes_bind; [apply writes_ack; [done|done|fold d; lia]|apply writes_codes].
Qed.

Lemma writes_subscribe checks s :
  subscribe_wf s → len (body_of (V5Subscribe s)) ≤ VARINT_MAX →
  writes (subscribe_encode checks s) (body_of (V5Subscribe s)).
Proof.
  intros Hwf Hmax. cbn [body_of] in *. pose proof (framed_bound _ _ _ Hmax) as Hp.
  pose proof (len_nonneg (users_bytes (sub_user_properties s))) as Hu.
  unfold subscribe_encode. pose proof (subscribe_props_len s Hwf) as Hlen.
  destruct Hwf as (Hpid & Hid & Hus & Hne & Hfs). unfold subscribe_properties_len in Hlen.
  unfold VARINT_MAX in Hp.
  assert (0 ≤ match sub_id s with Some v => 1 + var_int_len v | None => 0 end)
    by (destruct (sub_id s) as [v|]; [pose proof (var_int_len_nonneg v)|]; lia).
  apply writes_bind; [apply writes_put_u16|].
  eapply writes_lift.
  { rewrite as_u32_small by (rewrite users_size in * by done; lia).
    unfold u32_add. rewrite <-Hlen. by rewrite (proj2 (Z.ltb_lt _ _)) by lia. }
  unfold framed. rewrite <-app_assoc.
  apply writes_bind; [apply writes_len; unfold VARINT_MAX; lia|].
  unfold subscribe_props_bytes. rewrite <-app_assoc. apply writes_bind.
  { destruct (sub_id s) as [v|]; simpl in *; [|apply writes_ret]. unfold sub_id_wf in Hid.
    apply (writes_bind _ _ [SUB_ID]); [apply writes_put_u8|apply writes_varint; lia]. }
  apply writes_bind; [by apply writes_users|]. apply writes_for_each.
  eapply Forall_impl; [|exact Hfs]. intros [f o] Hf.
  apply writes_bind; [by apply writes_string|apply writes_put_u8].
Qed.

Lemma writes_unsubscribe u :
  unsubscribe_wf u → len (body_of (V5Unsubscribe u)) ≤ VARINT_MAX →
  writes (unsubscribe_encode u) (body_of (V5Unsubscribe u)).
Proof.
  intros (_ & Hus & _ & Hfs) Hmax. cbn [body_of] in *. pose proof (framed_bound _ _ _ Hmax) as Hp.
  pose proof (len_nonneg (users_bytes (un_user_properties u))) as Hu.
  unfold unsubscribe_encode. rewrite users_size, as_u32_small by first [done | unfold VARINT_MAX in *; lia].
  apply writes_bind; [apply writes_put_u16|]. unfold framed. rewrite <-app_assoc.
  apply writes_bind; [by apply writes_len|]. apply writes_bind; [by apply writes_users|].
  apply writes_for_each. eapply Forall_impl; [|exact Hfs]. intros f Hf. by apply writes_string.
Qed.

(** The frame that stands for [p] under [limit], of the announced length. *)
Definition frame_of (limit : Z) (p : Packet) : bytes :=
  first_of p :: framed (body_of (truncate limit p)).

Lemma writes_header fb (w : writer) b :
  len b ≤ VARINT_MAX → writes w b →
  writes ((put_u8 fb ;; write_variable_length (len b)) ;; w) (fb :: framed b).
Proof.
  intros Hb Hw. change (fb :: framed b) with (([fb] ++ varint (len b)) ++ b).
  apply writes_bind; [|done]. apply writes_bind; [apply writes_put_u8|by apply writes_len].
Qed.

Lemma writes_v5_encode checks limit p :
  packet_wf p → limit_ok limit p →
  len (body_of (truncate limit p)) ≤ VARINT_MAX →
  writes (encode checks p (len (body_of (truncate limit p)))) (frame_of limit p).
Proof.
  intros Hwf Hl Hb. unfold frame_of.
  destruct p; cbn [encode limit_ok packet_wf] in *; try apply writes_put_slice;
    (apply writes_header; [done|]).
  - by apply writes_v5_connect.
  - by apply writes_connack.
  - by apply writes_publish.
  - by apply (writes_publish_ack checks puback_code).
  - by apply (writes_publish_ack checks puback_code).
  - by apply (writes_publish_ack checks pubrel_code).
  - by apply (writes_publish_ack checks pubrel_code).
  - by apply writes_subscribe.
  - destruct Hwf as [_ Hd]. pose proof (len_nonneg (sa_status a)).
    cbn [truncate body_of sa_packet_id sa_properties sa_reason_string sa_status] in *.
    rewrite <-surjective_pairing in *. apply (writes_status_ack checks suback_code); [done|lia|done].
  - by apply writes_unsubscribe.
  - destruct Hwf as [_ Hd]. pose proof (len_nonneg (ua_status a)).
    cbn [truncate body_of ua_packet_id ua_properties ua_reason_string ua_status] in *.
    rewrite <-surjective_pairing in *. apply (writes_status_ack checks unsuback_code); [done| |done].
    apply reduce_limit_range; lia.
  - by apply writes_disconnect.
  - by apply writes_auth.
Qed.
