(* ===== verification/RoundV5.v ===== *)
(** * Decoding MQTT 5 packets: round trip

    [decode_packet] reads the body of every well-formed packet back: property
    loops on the properties that were written, then packet by packet. *)

From stdpp Require Import base list numbers option.
From Stdlib Require Import ZArith Lia.
From S2P Require Import Prelude Errors Wire CodecTypes PropsV5 PacketV5 EncodeV5 BodyV5.

#[local] Open Scope Z_scope.

(** ** Enumerations *)

Section PrimEnum.
Context {A} (code : A → Z) (all : list A).

Lemma prim_try_from_Ok v a : prim_try_from code all v = Ok a → code a = v.
Proof.
  unfold prim_try_from. destruct (find _ all) as [a'|] eqn:Hf; [|done].
  intros [= <-]. apply find_some in Hf as [_ Hf]. by apply Z.eqb_eq.
Qed.

Lemma prim_no_panic v : prim_try_from code all v ≠ Panic.
Proof. unfold prim_try_from. by destruct (find _ all). Qed.
End PrimEnum.

Lemma puback_code_ok r : puback_try_from (puback_code r) = Ok r.
Proof. by destruct r. Qed.
Lemma pubrel_code_ok r : pubrel_try_from (pubrel_code r) = Ok r.
Proof. by destruct r. Qed.
Lemma connack_code_ok r : connack5_try_from (connack5_code r) = Ok r.
Proof. by destruct r. Qed.
Lemma suback_code_ok r : suback_try_from (suback_code r) = Ok r.
Proof. by destruct r. Qed.
Lemma unsuback_code_ok r : unsuback_try_from (unsuback_code r) = Ok r.
Proof. by destruct r. Qed.
Lemma auth_code_ok r : auth_try_from (auth_code r) = Ok r.
Proof. by destruct r. Qed.

Lemma map_results_codes {R} (code : R → Z) (try_from : Z → outcome DecodeError R) l :
  (∀ r, try_from (code r) = Ok r) → map_results try_from (map code l) = Ok l.
Proof. intros H. induction l as [|r l IH]; simpl; [done|]. by rewrite H, IH. Qed.

(** ** Property loops *)

Lemma decode_varint_nz_spec n rest :
  sub_id_wf n → decode_varint_nz (varint n ++ rest) = (Ok n, rest).
Proof.
  intros Hn. unfold sub_id_wf in Hn. unfold decode_varint_nz.
  erewrite bind_ok by (apply decode_varint; lia). by rewrite non_zero_nz by lia.
Qed.

Section SubIds.
Context {S : Type} (table : list (Z * handler S)).

Lemma reads_sub_ids get set a ids rest a' :
  dispatch SUB_ID table = sub_ids_push get set → Forall sub_id_wf ids → get a = [] →
  (∀ l l', set l' (set l a) = set l' a) → (∀ l, get (set l a) = l) → set [] a = a →
  loop_reads table (set ids a) rest a' →
  loop_reads table a (concat (map sub_id_bytes ids) ++ rest) a'.
Proof.
  intros Hd Hids Hg Hss Hgs Hs Hr.
  enough (∀ base, loop_reads table (set (base ++ ids) a) rest a' →
    loop_reads table (set base a) (concat (map sub_id_bytes ids) ++ rest) a') as Hgen.
  { rewrite <-Hs. by apply Hgen. }
  clear Hr. induction Hids as [|u ids Hu _ IH]; intros base Hr.
  { by rewrite app_nil_r in Hr. }
  unfold sub_id_bytes. cbn [map concat app]. rewrite <-app_assoc.
  eapply loop_next.
  - rewrite Hd. unfold sub_ids_push. by erewrite bind_ok by by apply decode_varint_nz_spec.
  - rewrite Hgs, Hss. apply IH. by rewrite <-app_assoc.
Qed.

Lemma reads_sub_id get set a o rest a' :
  dispatch SUB_ID table = sub_id_once get set → from_option sub_id_wf True o → get a = None →
  set None a = a → loop_reads table (set o a) rest a' →
  loop_reads table a (from_option sub_id_bytes [] o ++ rest) a'.
Proof.
  intros Hd Ho Hg Hs Hr. destruct o as [n|]; simpl; [|by rewrite Hs in Hr].
  eapply loop_next; [|exact Hr]. rewrite Hd. unfold sub_id_once. rewrite Hg.
  erewrite bind_ok by done. by erewrite bind_ok by by apply decode_varint_nz_spec.
Qed.
End SubIds.

(** The variables as a record of their values, after one more of them was set. *)
Ltac settle :=
  lazymatch goal with |- loop_reads ?t ?a ?b ?a' =>
    let r := eval hnf in a in let r := eval cbn in r in change (loop_reads t r b a')
  end.

(** Property after property, in the order they were written. *)
Ltac reads_chain :=
  settle; repeat (first
    [ eapply reads_prop;
        [typeclasses eauto|reflexivity|solve [eauto with wire]|reflexivity|reflexivity|]
    | eapply reads_users;
        [reflexivity|eassumption|reflexivity|reflexivity|reflexivity|reflexivity|]
    | eapply reads_sub_ids;
        [reflexivity|eassumption|reflexivity|reflexivity|reflexivity|reflexivity|]
    | eapply reads_sub_id; [reflexivity|eassumption|reflexivity|reflexivity|] ]; settle);
  apply reads_end.

Lemma loop_app_nil {S} (table : list (Z * handler S)) a b a' :
  loop_reads table a (b ++ []) a' → loop_reads table a b a'.
Proof. by rewrite app_nil_r. Qed.

Lemma connect_reads c : connect_wf c →
  loop_reads connect_table connect_init (connect_props_bytes c)
    (mkConnectProps (nondefault (c_session_expiry_interval_secs c) 0) (c_auth_method c)
       (c_auth_data c) (nondefault (c_request_problem_info c) true)
       (nondefault (c_request_response_info c) false) (c_receive_max c)
       (nondefault (c_topic_alias_max c) 0) (c_user_properties c) (c_max_packet_size c)).
Proof.
  intros []. apply loop_app_nil. unfold connect_props_bytes. rewrite <-!app_assoc. reads_chain.
Qed.

Lemma will_reads w : will_wf w →
  loop_reads will_table will_init (will_props_bytes w)
    (mkWillProps (lw_will_delay_interval_sec w) (lw_correlation_data w)
       (lw_message_expiry_interval w) (lw_content_type w) (lw_user_properties w)
       (lw_is_utf8_payload w) (lw_response_topic w)).
Proof.
  intros []. apply loop_app_nil. unfold will_props_bytes. rewrite <-!app_assoc. reads_chain.
Qed.

Lemma qos_wf q : opt_wf qos_w q.
Proof. by destruct q. Qed.
#[local] Hint Resolve qos_wf : wire.

Lemma connack_reads a : connack_wf a →
  loop_reads connack_table connack_init
    (connack_fixed_bytes a ++ diag_bytes (ca_user_properties a, ca_reason_string a))
    (mkConnectAckProps (ca_session_expiry_interval_secs a)
       (nondefault (ca_receive_max a) RECEIVE_MAX_DEFAULT) (nondefault (ca_max_qos a) ExactlyOnce)
       (nondefault (ca_retain_available a) true) (ca_max_packet_size a) (ca_assigned_client_id a)
       (nondefault (ca_topic_alias_max a) 0) (ca_reason_string a) (ca_user_properties a)
       (nondefault (ca_wildcard_subscription_available a) true)
       (nondefault (ca_subscription_identifiers_available a) true)
       (nondefault (ca_shared_subscription_available a) true) (ca_server_keepalive_sec a)
       (ca_response_info a) (ca_server_reference a) (ca_auth_method a) (ca_auth_data a)).
Proof.
  intros [??????????[??]]. apply loop_app_nil. unfold connack_fixed_bytes, diag_bytes.
  cbn [fst snd]. rewrite <-!app_assoc. reads_chain.
Qed.

Lemma publish_reads p : publish_props_wf p →
  loop_reads publish_table publish_init (publish_props_bytes p)
    (mkPublishProps (message_expiry_interval p) (topic_alias p) (content_type p)
       (correlation_data p) (subscription_ids p) (response_topic p)
       (nondefault (is_utf8_payload p) false) (user_properties p)).
Proof.
  intros []. apply loop_app_nil. unfold publish_props_bytes. rewrite <-!app_assoc. reads_chain.
Qed.

Lemma subscribe_reads s : subscribe_wf s →
  loop_reads subscribe_table subscribe_init (subscribe_props_bytes s)
    (mkSubscribeProps (sub_id s) (sub_user_properties s)).
Proof.
  intros (? & ? & ? & ?). apply loop_app_nil. unfold subscribe_props_bytes.
  rewrite <-!app_assoc. reads_chain.
Qed.

Lemma unsubscribe_reads us : users_wf us →
  loop_reads unsubscribe_table [] (users_bytes us) us.
Proof.
  intros. apply loop_app_nil.
  eapply (reads_users _ (λ x, x) (λ v _, v)); [reflexivity|done|done|done|done|done|apply reads_end].
Qed.

Lemma disconnect_reads d : disconnect_wf d →
  loop_reads disconnect_table disconnect_init
    (disconnect_fixed_bytes d ++ diag_bytes (d_user_properties d, d_reason_string d))
    (mkDisconnectProps (d_session_expiry_interval_secs d) (d_server_reference d)
       (d_reason_string d) (d_user_properties d)).
Proof.
  intros (? & ? & [? ?]). apply loop_app_nil. unfold disconnect_fixed_bytes, diag_bytes.
  cbn [fst snd]. rewrite <-!app_assoc. reads_chain.
Qed.

Lemma auth_reads a : auth_wf a →
  loop_reads auth_table auth_init
    (auth_fixed_bytes a ++ diag_bytes (au_user_properties a, au_reason_string a))
    (mkAuthProps (au_auth_method a) (au_auth_data a) (au_reason_string a) (au_user_properties a)).
Proof.
  intros (? & ? & [? ?]). apply loop_app_nil. unfold auth_fixed_bytes, diag_bytes.
  cbn [fst snd]. rewrite <-!app_assoc. reads_chain.
Qed.

(** ** Decoding a body *)

Lemma parse_framed {S} (table : list (Z * handler S)) a b rest a' :
  len b ≤ VARINT_MAX → loop_reads table a b a' →
  parse_properties table a (framed b ++ rest) = (Ok a', rest).
Proof. unfold framed. rewrite <-app_assoc. apply parse_properties_spec. Qed.

Lemma v5_connect_flags_spec c :
  let f := connect_flags c in
  flags_from_bits CONNECT_FLAGS_ALL f = Some f ∧
  contains f WILL = is_some (c_last_will c) ∧
  contains f CLEAN_START = c_clean_start c ∧
  contains f USERNAME = is_some (c_username c) ∧
  contains f PASSWORD = is_some (c_password c) ∧
  ∀ w, c_last_will c = Some w →
    contains f WILL_RETAIN = lw_retain w ∧
    qos_try_from (Z.shiftr (Z.land f WILL_QOS) WILL_QOS_SHIFT) = Ok (lw_qos w).
Proof.
  unfold connect_flags.
  destruct (c_clean_start c), (c_username c), (c_password c),
    (c_last_will c) as [[[] [] ?????????]|];
    (split; [done|]); repeat split; intros; simplify_eq; done.
Qed.

Lemma decode_last_will_spec c w rest :
  c_last_will c = Some w → will_wf w → len (will_props_bytes w) ≤ VARINT_MAX →
  decode_last_will (connect_flags c) (will_bytes w ++ rest) = (Ok w, rest).
Proof.
  intros Hc Hwf Hmax. destruct (v5_connect_flags_spec c) as (_ & _ & _ & _ & _ & Hw).
  destruct (Hw w Hc) as [Hr Hq]. unfold decode_last_will, will_bytes. rewrite <-!app_assoc.
  erewrite bind_ok by (apply parse_framed; [done|by apply will_reads]).
  destruct Hwf. erewrite bind_ok by by apply (wire_decode (w := string_w)).
  erewrite bind_ok by by apply (wire_decode (w := bytes_w)).
  rewrite Hq, Hr. by destruct w.
Qed.

Lemma decode_opt_will c rest :
  from_option will_wf True (c_last_will c) →
  len (from_option will_bytes [] (c_last_will c)) ≤ VARINT_MAX →
  decode_if (is_some (c_last_will c)) (decode_last_will (connect_flags c))
    (from_option will_bytes [] (c_last_will c) ++ rest) = (Ok (c_last_will c), rest).
Proof.
  intros Hwf Hmax. destruct (c_last_will c) as [w|] eqn:Hc; [|done]. unfold decode_if. simpl in *.
  erewrite bind_ok; [done|]. apply decode_last_will_spec; [done..|].
  unfold will_bytes in Hmax. by apply (framed_bound [] _ _) in Hmax.
Qed.

Lemma read_mqtt rest : is_mqtt 4 (MQTT ++ rest) = (Ok true, MQTT ++ rest).
Proof.
  unfold is_mqtt. simpl Z.eqb. cbv iota. pose proof (len_nonneg rest).
  rewrite (proj2 (Z.leb_le _ _)) by (rewrite len_app, len_MQTT; lia).
  by rewrite (take_app_length' MQTT).
Qed.

Lemma skip_mqtt rest : advance 4 (MQTT ++ rest) = (Ok tt, rest).
Proof.
  unfold advance. pose proof (len_nonneg rest).
  rewrite (proj2 (Z.leb_le _ _)) by (rewrite len_app, len_MQTT; lia).
  by rewrite (drop_app_length' MQTT).
Qed.

Lemma v5_decode_connect_body c :
  connect_wf c → len (body_of (V5Connect c)) ≤ VARINT_MAX →
  packet_of V5Connect connect_decode (body_of (V5Connect c)) = (Ok (received (V5Connect c)), []).
Proof.
  intros Hwf Hmax. destruct (v5_connect_flags_spec c) as (Hbits & Hwill & Hcs & Hu & Hp & _).
  pose proof (connect_reads c Hwf) as Hreads. pose proof (cwf_clean c Hwf) as Hclean.
  unfold packet_of. cbn [body_of] in *.
  rewrite !len_app in Hmax. pose proof (framed_len_bound (connect_props_bytes c)).
  pose proof (len_nonneg (framed (connect_props_bytes c))).
  pose proof (len_nonneg (opt_prefixed (c_username c))).
  pose proof (len_nonneg (opt_prefixed (c_password c))).
  pose proof (len_nonneg (from_option will_bytes [] (c_last_will c))).
  rewrite len_be16, !len_prefixed, len_MQTT, !len_cons, len_nil in Hmax.
  pose proof (len_nonneg (c_client_id c)). destruct Hwf.
  erewrite bind_ok; [done|]. unfold connect_decode.
  erewrite bind_ok by done. erewrite bind_ok.
  2:{ apply ensure_holds, Z.leb_le.
      rewrite !len_app, len_be16, !len_prefixed, len_MQTT, !len_cons, len_nil. lia. }
  change (prefixed MQTT) with ([0; 4] ++ MQTT). rewrite <-!app_assoc. cbn [app].
  erewrite bind_ok by done. change (256 * 0 + 4) with 4.
  erewrite bind_ok by apply read_mqtt. erewrite bind_ok by done.
  erewrite bind_ok by apply skip_mqtt. erewrite bind_ok by done. erewrite bind_ok by done. erewrite bind_ok by done.
  rewrite Hbits. erewrite bind_ok by done. erewrite bind_ok by by apply get_u16_be16.
  erewrite bind_ok by (apply parse_framed; [lia|exact Hreads]).
  erewrite bind_ok by by apply (wire_decode (w := string_w)).
  erewrite bind_ok.
  2:{ apply ensure_holds. rewrite Hcs. destruct Hclean as [Hne | ->]; [|apply orb_true_r].
      by rewrite bool_decide_false. }
  rewrite Hwill. erewrite bind_ok by (apply decode_opt_will; [done|lia]).
  rewrite Hu, Hp. erewrite bind_ok by by apply (decode_opt_prefixed (w := string_w)).
  rewrite <-(app_nil_r (opt_prefixed (c_password c))).
  erewrite bind_ok by by apply (decode_opt_prefixed (w := bytes_w)).
  cbn [cp_session_expiry_interval_secs cp_request_problem_info cp_request_response_info
       cp_topic_alias_max cp_auth_method cp_auth_data cp_receive_max cp_user_properties
       cp_max_packet_size]. by rewrite !nondefault_default, Hcs.
Qed.

Lemma no_more_nil : no_more [] = (Ok tt, []).
Proof. done. Qed.

Lemma decode_connack_body a :
  connack_wf a → len (body_of (V5ConnectAck a)) ≤ VARINT_MAX →
  packet_of V5ConnectAck connect_ack_decode (body_of (V5ConnectAck a)) = (Ok (V5ConnectAck a), []).
Proof.
  intros Hwf Hmax. pose proof (connack_reads a Hwf) as Hreads. cbn [body_of] in *.
  rewrite <-(app_nil_r (framed _)) in *. pose proof (framed_bound _ _ _ Hmax).
  unfold packet_of. erewrite bind_ok; [done|]. unfold connect_ack_decode.
  erewrite bind_ok by done. erewrite bind_ok.
  2:{ apply ensure_holds, Z.leb_le. cbn [app]. rewrite !len_cons.
      match goal with |- context [len ?x] => pose proof (len_nonneg x) end. lia. }
  cbn [app]. erewrite bind_ok by done.
  rewrite (bind_ok _ _ _ (if ca_session_present a then 1 else 0)
    (connack5_code (ca_reason_code a) :: framed _ ++ [])) by by destruct (ca_session_present a).
  erewrite bind_ok by done. rewrite connack_code_ok. erewrite bind_ok by done.
  erewrite bind_ok by (apply parse_framed; [done|exact Hreads]).
  erewrite bind_ok by apply no_more_nil.
  cbn [kp_session_expiry_interval_secs kp_receive_max kp_max_qos kp_retain_available
       kp_max_packet_size kp_assigned_client_id kp_topic_alias_max kp_reason_string
       kp_user_properties kp_wildcard_sub_avail kp_sub_ids_avail kp_shared_sub_avail
       kp_server_ka_sec kp_response_info kp_server_reference kp_auth_method kp_auth_data].
  rewrite !nondefault_default. destruct a as [[] ??????????????????]; done.
Qed.

Lemma v5_publish_first_byte_spec p :
  let b := publish_first_byte p in
  between PUBLISH_START PUBLISH_END b = true ∧
  qos_try_from (Z.shiftr (Z.land (Z.land b 15) 6) 1) = Ok (qos p) ∧
  (Z.land (Z.land b 15) 8 =? 8) = dup p ∧
  (Z.land (Z.land b 15) 1 =? 1) = retain p.
Proof. destruct p as [[] [] [] ????]; done. Qed.

Lemma v5_decode_publish_body p :
  publish_wf p → len (body_of (V5Publish p)) ≤ VARINT_MAX →
  packet_of V5Publish (publish_decode (Z.land (publish_first_byte p) 15)) (body_of (V5Publish p)) =
    (Ok (received (V5Publish p)), []).
Proof.
  intros Hwf Hmax. pose proof (publish_reads _ (publish_props_wf_default p Hwf)) as Hreads.
  destruct Hwf as (Ht & Hid & _ & _). cbn [body_of] in *. rewrite app_assoc in Hmax.
  pose proof (framed_bound _ _ _ Hmax). destruct (v5_publish_first_byte_spec p) as (_ & Hq & Hd & Hr).
  unfold packet_of. erewrite bind_ok; [done|]. unfold publish_decode.
  erewrite bind_ok by by apply (wire_decode (w := string_w)).
  rewrite Hq, Hd, Hr. erewrite bind_ok by done.
  rewrite (bind_ok _ _ _ (packet_id p)
    (framed (publish_props_bytes (default publish_properties_default (properties p))) ++ payload p)).
  2:{ unfold decode_if. destruct (qos p); simpl; [by rewrite Hid|
      destruct Hid as (n & -> & Hn); by erewrite bind_ok by by apply (wire_decode (w := nz_u16_w))..]. }
  erewrite bind_ok.
  2:{ unfold parse_publish_properties. by erewrite bind_ok by (apply parse_framed; [done|exact Hreads]). }
  cbn [pp_message_expiry_interval pp_topic_alias pp_content_type pp_correlation_data
       pp_subscription_ids pp_response_topic pp_is_utf8_payload pp_user_props].
  rewrite nondefault_default. erewrite bind_ok by done. by destruct (default _ (properties p)).
Qed.

Lemma decode_publish_ack_body {R} (code : R → Z) try_from success (f : PublishAckOf R → Packet) a :
  (∀ r, try_from (code r) = Ok r) → publish_ack_wf a →
  len (publish_ack_bytes code a) ≤ VARINT_MAX →
  packet_of f (publish_ack_decode try_from success) (publish_ack_bytes code a) = (Ok (f a), []).
Proof.
  intros Hcode [Hid Hd] Hmax. unfold packet_of. erewrite bind_ok; [done|].
  unfold publish_ack_decode, publish_ack_bytes in *. rewrite ack_bytes_framed in *.
  set (d := (pa_properties a, pa_reason_string a)) in *.
  rewrite <-(app_nil_r (framed _)), app_assoc in Hmax. apply framed_bound in Hmax.
  assert (Hne : 1 ≤ len (framed (diag_bytes d))).
  { unfold framed. rewrite len_app. pose proof (len_nonneg (diag_bytes d)).
    pose proof (varint_length (len (diag_bytes d)) ltac:(lia)). lia. }
  erewrite bind_ok by by apply (wire_decode (w := nz_u16_w)).
  erewrite bind_ok by done. cbn [app]. rewrite (proj2 (Z.ltb_lt _ _)) by (rewrite len_cons; lia).
  erewrite bind_ok by done. rewrite Hcode. erewrite bind_ok by done. erewrite bind_ok by done.
  rewrite (proj2 (Z.ltb_lt _ _)) by lia. rewrite <-(app_nil_r (framed _)), <-ack_bytes_framed.
  unfold d in *. erewrite bind_ok by by apply ack_props_decode_spec.
  erewrite bind_ok by apply no_more_nil. by destruct a.
Qed.

Lemma sub_options_spec o rest :
  sub_options_decode (sub_options_byte o :: rest) = (Ok o, rest).
Proof.
  unfold sub_options_decode. pose proof (len_nonneg rest).
  rewrite (bind_ok _ _ _ true (sub_options_byte o :: rest)).
  2:{ unfold has_remaining. by rewrite (proj2 (Z.ltb_lt _ _)) by (rewrite len_cons; lia). }
  erewrite bind_ok by done. erewrite bind_ok by done. by destruct o as [[] [] [] []].
Qed.

Lemma subscribe_filter_spec f o acc rest :
  string_wf f →
  subscribe_filter acc ((prefixed f ++ [sub_options_byte o]) ++ rest) = (Ok (acc ++ [(f, o)]), rest).
Proof.
  intros Hf. unfold subscribe_filter. rewrite <-app_assoc.
  erewrite bind_ok by by apply (wire_decode (w := string_w)).
  cbn [app]. by erewrite bind_ok by apply sub_options_spec.
Qed.

Lemma decode_subscribe_body s :
  subscribe_wf s → len (body_of (V5Subscribe s)) ≤ VARINT_MAX →
  packet_of V5Subscribe subscribe_decode (body_of (V5Subscribe s)) = (Ok (V5Subscribe s), []).
Proof.
  intros Hwf Hmax. pose proof (subscribe_reads s Hwf) as Hreads. cbn [body_of] in *.
  pose proof (framed_bound _ _ _ Hmax). destruct Hwf as (Hid & _ & _ & Hne & Hfs).
  unfold packet_of. erewrite bind_ok; [done|]. unfold subscribe_decode.
  erewrite bind_ok by by apply (wire_decode (w := nz_u16_w)).
  erewrite bind_ok by (apply parse_framed; [done|exact Hreads]).
  erewrite bind_ok.
  2:{ apply (while_reads subscribe_filter). eapply Forall_impl; [|exact Hfs]. intros [f o] Hf.
      split; [apply prefixed_not_nil|]. intros. by apply subscribe_filter_spec. }
  erewrite bind_ok by (apply ensure_holds; by rewrite bool_decide_false). by destruct s.
Qed.

Lemma decode_unsubscribe_body u :
  unsubscribe_wf u → len (body_of (V5Unsubscribe u)) ≤ VARINT_MAX →
  packet_of V5Unsubscribe unsubscribe_decode (body_of (V5Unsubscribe u)) = (Ok (V5Unsubscribe u), []).
Proof.
  intros (Hid & Hus & Hne & Hfs) Hmax. cbn [body_of] in *.
  pose proof (framed_bound _ _ _ Hmax). unfold packet_of. erewrite bind_ok; [done|].
  unfold unsubscribe_decode. erewrite bind_ok by by apply (wire_decode (w := nz_u16_w)).
  erewrite bind_ok by (apply parse_framed; [done|by apply unsubscribe_reads]).
  erewrite bind_ok.
  2:{ apply (while_reads unsubscribe_filter). eapply Forall_impl; [|exact Hfs]. intros f Hf.
      split; [rewrite <-(app_nil_r (prefixed f)); apply prefixed_not_nil|].
      intros. unfold unsubscribe_filter. by erewrite bind_ok by by apply (wire_decode (w := string_w)). }
  erewrite bind_ok by (apply ensure_holds; by rewrite bool_decide_false). by destruct u.
Qed.

(** Identifier, acknowledgement properties, and a reason code per filter. *)
Lemma decode_status_body {R} (code : R → Z) try_from pid us reason status :
  (∀ r, try_from (code r) = Ok r) → nz_u16 pid → diag_wf us reason →
  len (be16 pid ++ ack_bytes (us, reason) ++ map code status) ≤ VARINT_MAX →
  decode_nz_u16 (be16 pid ++ ack_bytes (us, reason) ++ map code status) =
    (Ok pid, ack_bytes (us, reason) ++ map code status) ∧
  ack_props_decode (ack_bytes (us, reason) ++ map code status) =
    (Ok (mkAckProps us reason), map code status) ∧
  decode_status try_from (map code status) = (Ok status, map code status).
Proof.
  intros Hcode Hid Hd Hmax. rewrite ack_bytes_framed in Hmax. apply framed_bound in Hmax.
  split; [by apply (wire_decode (w := nz_u16_w))|].
  split; [by apply ack_props_decode_spec|].
  unfold decode_status. erewrite bind_ok by done. by rewrite (map_results_codes code).
Qed.

Lemma decode_suback_body a :
  nz_u16 (sa_packet_id a) → diag_wf (sa_properties a) (sa_reason_string a) →
  len (body_of (V5SubscribeAck a)) ≤ VARINT_MAX →
  fst (packet_of V5SubscribeAck subscribe_ack_decode (body_of (V5SubscribeAck a))) =
    Ok (V5SubscribeAck a).
Proof.
  intros Hid Hd Hmax. cbn [body_of] in *. unfold packet_of, subscribe_ack_decode.
  destruct (decode_status_body suback_code suback_try_from _ _ _ _ suback_code_ok Hid Hd Hmax)
    as (H1 & H2 & H3).
  erewrite bind_ok; [done|]. erewrite bind_ok by exact H1. erewrite bind_ok by exact H2.
  erewrite bind_ok by exact H3. by destruct a.
Qed.

Lemma decode_unsuback_body a :
  nz_u16 (ua_packet_id a) → diag_wf (ua_properties a) (ua_reason_string a) →
  len (body_of (V5UnsubscribeAck a)) ≤ VARINT_MAX →
  fst (packet_of V5UnsubscribeAck unsubscribe_ack_decode (body_of (V5UnsubscribeAck a))) =
    Ok (V5UnsubscribeAck a).
Proof.
  intros Hid Hd Hmax. cbn [body_of] in *. unfold packet_of, unsubscribe_ack_decode.
  destruct (decode_status_body unsuback_code unsuback_try_from _ _ _ _ unsuback_code_ok Hid Hd Hmax)
    as (H1 & H2 & H3).
  erewrite bind_ok; [done|]. erewrite bind_ok by exact H1. erewrite bind_ok by exact H2.
  erewrite bind_ok by exact H3. by destruct a.
Qed.

Lemma framed_not_empty (b : bytes) : len b ≤ VARINT_MAX → (0 <? len (framed b)) = true.
Proof.
  intros. apply Z.ltb_lt. unfold framed. rewrite len_app. pose proof (len_nonneg b).
  pose proof (varint_length (len b) ltac:(lia)). lia.
Qed.

Lemma decode_disconnect_body d :
  disconnect_wf d → len (body_of (V5Disconnect d)) ≤ VARINT_MAX →
  packet_of V5Disconnect disconnect_decode (body_of (V5Disconnect d)) = (Ok (V5Disconnect d), []).
Proof.
  intros Hwf Hmax. pose proof (disconnect_reads d Hwf) as Hreads. cbn [body_of] in *.
  set (props := disconnect_fixed_bytes d ++ _) in *.
  assert (Hp : len props ≤ VARINT_MAX).
  { rewrite <-(app_nil_r (framed _)) in Hmax. by apply framed_bound in Hmax. }
  unfold packet_of. erewrite bind_ok; [done|]. unfold disconnect_decode.
  erewrite bind_ok by done. cbn [app]. pose proof (len_nonneg (framed props)).
  rewrite (proj2 (Z.ltb_lt _ _)) by (rewrite len_cons; lia).
  erewrite bind_ok by done. rewrite disconnect_try_from_code. erewrite bind_ok by done.
  erewrite bind_ok by done. rewrite framed_not_empty by done.
  rewrite <-(app_nil_r (framed _)). erewrite bind_ok by (apply parse_framed; [done|exact Hreads]).
  erewrite bind_ok by apply no_more_nil. by destruct d.
Qed.

Lemma decode_auth_body a :
  auth_wf a → len (body_of (V5Auth a)) ≤ VARINT_MAX →
  packet_of V5Auth auth_decode (body_of (V5Auth a)) = (Ok (V5Auth a), []).
Proof.
  intros Hwf Hmax. pose proof (auth_reads a Hwf) as Hreads. cbn [body_of] in *.
  set (props := auth_fixed_bytes a ++ _) in *.
  assert (Hp : len props ≤ VARINT_MAX).
  { rewrite <-(app_nil_r (framed _)) in Hmax. by apply framed_bound in Hmax. }
  unfold packet_of. erewrite bind_ok; [done|]. unfold auth_decode.
  erewrite bind_ok by done. cbn [app]. pose proof (len_nonneg (framed props)).
  rewrite (proj2 (Z.ltb_lt _ _)) by (rewrite len_cons; lia).
  erewrite bind_ok by done. rewrite auth_code_ok. erewrite bind_ok by done.
  erewrite bind_ok by done. rewrite framed_not_empty by done. rewrite orb_true_r.
  erewrite bind_ok.
  2:{ rewrite <-(app_nil_r (framed _)).
      erewrite bind_ok by (apply parse_framed; [done|exact Hreads]).
      by erewrite bind_ok by apply no_more_nil. }
  by destruct a.
Qed.

(** Every body is read back as the packet it stands for. *)
Lemma v5_decode_packet_body p :
  packet_wf p → len (body_of p) ≤ VARINT_MAX →
  fst (decode_packet (first_of p) (body_of p)) = Ok (received p).
Proof.
  intros Hwf Hmax. destruct p; cbn [packet_wf] in Hwf; try done.
  - change (decode_packet _) with (packet_of V5Connect connect_decode). by rewrite v5_decode_connect_body.
  - change (decode_packet _) with (packet_of V5ConnectAck connect_ack_decode).
    by rewrite decode_connack_body.
  - cbn [first_of]. unfold decode_packet. rewrite (proj1 (v5_publish_first_byte_spec p)).
    by rewrite v5_decode_publish_body.
  - change (decode_packet _) with (packet_of V5PublishAck decode_puback). unfold decode_puback.
    cbn [body_of]. by rewrite (decode_publish_ack_body puback_code) by (done || apply puback_code_ok).
  - change (decode_packet _) with (packet_of V5PublishReceived decode_puback). unfold decode_puback.
    cbn [body_of]. by rewrite (decode_publish_ack_body puback_code) by (done || apply puback_code_ok).
  - change (decode_packet _) with (packet_of V5PublishRelease decode_pubrel). unfold decode_pubrel.
    cbn [body_of]. by rewrite (decode_publish_ack_body pubrel_code) by (done || apply pubrel_code_ok).
  - change (decode_packet _) with (packet_of V5PublishComplete decode_pubrel). unfold decode_pubrel.
    cbn [body_of]. by rewrite (decode_publish_ack_body pubrel_code) by (done || apply pubrel_code_ok).
  - change (decode_packet _) with (packet_of V5Subscribe subscribe_decode).
    by rewrite decode_subscribe_body.
  - change (decode_packet _) with (packet_of V5SubscribeAck subscribe_ack_decode).
    destruct Hwf. by apply decode_suback_body.
  - change (decode_packet _) with (packet_of V5Unsubscribe unsubscribe_decode).
    by rewrite decode_unsubscribe_body.
  - change (decode_packet _) with (packet_of V5UnsubscribeAck unsubscribe_ack_decode).
    destruct Hwf. by apply decode_unsuback_body.
  - change (decode_packet _) with (packet_of V5Disconnect disconnect_decode).
    by rewrite decode_disconnect_body.
  - change (decode_packet _) with (packet_of V5Auth auth_decode). by rewrite decode_auth_body.
Qed.
