(* ===== verification/SafeV5.v ===== *)
(** * Decoding MQTT 5 packets from arbitrary bytes

    No input makes a packet decoder panic, and what it returns is well formed.
    Every property loop keeps an invariant on its local variables, shown arm by
    arm of the loop's table. *)

From stdpp Require Import base list numbers option.
From Stdlib Require Import ZArith Lia.
From S2P Require Import Prelude Errors Wire CodecTypes PropsV5 PacketV5 EncodeV5 BodyV5 RoundV5.

#[local] Open Scope Z_scope.

(** ** Invariants of the property loops *)

Record connect_props_ok (a : ConnectProps) : Prop := {
  cpo_session : opt_wf u32_w (cp_session_expiry_interval_secs a);
  cpo_method : opt_wf string_w (cp_auth_method a);
  cpo_data : opt_wf bytes_w (cp_auth_data a);
  cpo_receive : opt_wf nz_u16_w (cp_receive_max a);
  cpo_alias : opt_wf u16_w (cp_topic_alias_max a);
  cpo_users : users_wf (cp_user_properties a);
  cpo_max : opt_wf nz_u32_w (cp_max_packet_size a);
}.

Record will_props_ok (a : WillProps) : Prop := {
  wpo_delay : opt_wf u32_w (wp_will_delay_interval_sec a);
  wpo_corr : opt_wf bytes_w (wp_correlation_data a);
  wpo_expiry : opt_wf nz_u32_w (wp_message_expiry_interval a);
  wpo_content : opt_wf string_w (wp_content_type a);
  wpo_users : users_wf (wp_user_properties a);
  wpo_resp : opt_wf string_w (wp_response_topic a);
}.

Record connack_props_ok (a : ConnectAckProps) : Prop := {
  kpo_session : opt_wf u32_w (kp_session_expiry_interval_secs a);
  kpo_receive : opt_wf nz_u16_w (kp_receive_max a);
  kpo_max : opt_wf u32_w (kp_max_packet_size a);
  kpo_client : opt_wf string_w (kp_assigned_client_id a);
  kpo_alias : opt_wf u16_w (kp_topic_alias_max a);
  kpo_reason : opt_wf string_w (kp_reason_string a);
  kpo_users : users_wf (kp_user_properties a);
  kpo_ka : opt_wf u16_w (kp_server_ka_sec a);
  kpo_info : opt_wf string_w (kp_response_info a);
  kpo_ref : opt_wf string_w (kp_server_reference a);
  kpo_method : opt_wf string_w (kp_auth_method a);
  kpo_data : opt_wf bytes_w (kp_auth_data a);
}.

Record publish_loop_ok (a : PublishProps) : Prop := {
  ppo_expiry : opt_wf nz_u32_w (pp_message_expiry_interval a);
  ppo_alias : opt_wf nz_u16_w (pp_topic_alias a);
  ppo_content : opt_wf string_w (pp_content_type a);
  ppo_corr : opt_wf bytes_w (pp_correlation_data a);
  ppo_ids : Forall sub_id_wf (pp_subscription_ids a);
  ppo_resp : opt_wf string_w (pp_response_topic a);
  ppo_users : users_wf (pp_user_props a);
}.

Record subscribe_props_ok (a : SubscribeProps) : Prop := {
  spo_id : from_option sub_id_wf True (sp_sub_id a);
  spo_users : users_wf (sp_user_properties a);
}.

Record disconnect_props_ok (a : DisconnectProps) : Prop := {
  dpo_session : opt_wf u32_w (dp_session_exp_secs a);
  dpo_ref : opt_wf string_w (dp_server_reference a);
  dpo_reason : opt_wf string_w (dp_reason_string a);
  dpo_users : users_wf (dp_user_properties a);
}.

Record auth_props_ok (a : AuthProps) : Prop := {
  xpo_method : opt_wf string_w (xp_auth_method a);
  xpo_data : opt_wf bytes_w (xp_auth_data a);
  xpo_reason : opt_wf string_w (xp_reason_string a);
  xpo_users : users_wf (xp_user_properties a);
}.

(** ** Handlers *)

Lemma users_snoc us p : users_wf us → pair_ok p → users_wf (us ++ [p]).
Proof. intros. apply Forall_app. split; [done|]. by apply Forall_singleton. Qed.

Lemma wp_varint_nz s (Q : Z → bytes → Prop) :
  bytes_ok s → (∀ n s', sub_id_wf n → bytes_ok s' → len s' < len s → Q n s') →
  wp decode_varint_nz s Q.
Proof.
  intros Hs HQ. unfold decode_varint_nz. apply wp_bind, wp_varint; [done|].
  intros n s' Hn Hs' Hl. apply wp_ok_or. intros m [-> Hm]%non_zero_Some.
  apply HQ; [unfold sub_id_wf; lia|done..].
Qed.

Lemma handler_sub_ids {S} (I : S → Prop) get set :
  (∀ a n, I a → sub_id_wf n → I (set (get a ++ [n]) a)) → handler_ok I (sub_ids_push get set).
Proof.
  intros HI a s Ha Hs. unfold sub_ids_push. apply wp_bind, wp_varint_nz; [done|].
  intros n s' Hn Hs' Hl. apply wp_ret. split; [by apply HI|]. split; [done|lia].
Qed.

Lemma handler_sub_id {S} (I : S → Prop) get set :
  (∀ a n, I a → sub_id_wf n → I (set (Some n) a)) → handler_ok I (sub_id_once get set).
Proof.
  intros HI a s Ha Hs. unfold sub_id_once. apply wp_bind, wp_ensure. intros _.
  apply wp_bind, wp_varint_nz; [done|].
  intros n s' Hn Hs' Hl. apply wp_ret. split; [by apply HI|]. split; [done|lia].
Qed.

Lemma sub_ids_snoc l n : Forall sub_id_wf l → sub_id_wf n → Forall sub_id_wf (l ++ [n]).
Proof. intros. apply Forall_app. split; [done|]. by apply Forall_singleton. Qed.

(** Every arm of a table keeps the invariant. *)
Ltac table_ok :=
  repeat apply Forall_cons; try apply Forall_nil; cbn [snd];
  first [apply handler_prop; [typeclasses eauto|] | apply handler_user
        | apply handler_sub_ids | apply handler_sub_id];
  intros ? ? [] ?; split; simpl; auto using users_snoc, sub_ids_snoc.

Lemma connect_table_ok : Forall (λ kh, handler_ok connect_props_ok kh.2) connect_table.
Proof. table_ok. Qed.
Lemma will_table_ok : Forall (λ kh, handler_ok will_props_ok kh.2) will_table.
Proof. table_ok. Qed.
Lemma connack_table_ok : Forall (λ kh, handler_ok connack_props_ok kh.2) connack_table.
Proof. table_ok. Qed.
Lemma publish_table_ok : Forall (λ kh, handler_ok publish_loop_ok kh.2) publish_table.
Proof. table_ok. Qed.
Lemma subscribe_table_ok : Forall (λ kh, handler_ok subscribe_props_ok kh.2) subscribe_table.
Proof. table_ok. Qed.
Lemma disconnect_table_ok : Forall (λ kh, handler_ok disconnect_props_ok kh.2) disconnect_table.
Proof. table_ok. Qed.
Lemma auth_table_ok : Forall (λ kh, handler_ok auth_props_ok kh.2) auth_table.
Proof. table_ok. Qed.

Lemma unsubscribe_table_ok : Forall (λ kh, handler_ok users_wf kh.2) unsubscribe_table.
Proof.
  apply Forall_cons; [|apply Forall_nil]. apply handler_user. intros. by apply users_snoc.
Qed.

(** ** Packets *)

Lemma wp_u8 s (Q : Z → bytes → Prop) :
  bytes_ok s → (0 <? len s) = true → (∀ b s', u8_range b → bytes_ok s' → Q b s') → wp get_u8 s Q.
Proof.
  intros Hs Hne HQ. destruct s as [|b s]; [done|]. apply bytes_ok_cons in Hs as [? ?]. by apply HQ.
Qed.

Lemma wp_no_more s (Q : unit → bytes → Prop) : (s = [] → Q tt s) → wp no_more s Q.
Proof.
  intros HQ. unfold no_more. apply wp_bind, wp_has_remaining, wp_ensure.
  intros H%negb_true_iff%Z.ltb_ge. apply HQ. destruct s; [done|]. rewrite len_cons in H.
  pose proof (len_nonneg s). lia.
Qed.

Lemma wp_packet_of {A} (f : A → Packet) (r : reader A) s (Q : A → Prop) :
  wp r s (λ a _, Q a) → (∀ a, Q a → packet_wf (f a)) → wp (packet_of f r) s (λ p _, packet_wf p).
Proof.
  intros Hr HQ. unfold packet_of. apply wp_bind. eapply wp_mono; [exact Hr|].
  intros a s' Ha. by apply wp_ret, HQ.
Qed.

Lemma wp_last_will flags s (Q : LastWill → bytes → Prop) :
  bytes_ok s → (∀ w s', will_wf w → bytes_ok s' → Q w s') → wp (decode_last_will flags) s Q.
Proof.
  intros Hs HQ. unfold decode_last_will.
  apply wp_bind, (wp_parse will_props_ok); [apply will_table_ok|by split; try constructor|done|].
  intros p s1 [] Hs1. apply wp_bind, (wp_wire string_w); [done|]. intros t s2 Ht _ Hs2 _.
  apply wp_bind, (wp_wire bytes_w); [done|]. intros m s3 Hm _ Hs3 _.
  apply wp_bind, wp_lift; [apply qos_try_from_no_panic|]. intros q _. apply wp_ret, HQ; [|done].
  split; simpl; auto with wire.
Qed.

Lemma wp_is_mqtt n s (Q : bool → bytes → Prop) :
  4 ≤ len s → (∀ b, Q b s) → wp (is_mqtt n) s Q.
Proof.
  intros Hl HQ. unfold wp, is_mqtt. destruct (n =? 4); [|apply HQ].
  rewrite (proj2 (Z.leb_le _ _)) by done. apply HQ.
Qed.

Lemma opt_default_wf {A} (w : wire A) o d : opt_wf w o → w_wf w d → w_wf w (default d o).
Proof. by destruct o. Qed.

Lemma wp_connect s : bytes_ok s → wp connect_decode s (λ c _, connect_wf c).
Proof.
  intros Hs. unfold connect_decode.
  apply wp_bind, wp_remaining, wp_bind, wp_ensure. intros Hlen%Z.leb_le.
  destruct s as [|b1 [|b0 s]]; [done..|]. rewrite !len_cons in Hlen.
  rewrite !bytes_ok_cons in Hs. destruct Hs as (_ & _ & Hs).
  apply wp_bind. unfold wp at 1; cbn [get_u16].
  apply wp_bind, wp_is_mqtt; [lia|]. intros same. apply wp_bind, wp_ensure. intros _.
  apply wp_bind. unfold wp at 1, advance. rewrite (proj2 (Z.leb_le _ _)) by lia.
  assert (Hl4 : 4 ≤ len (drop (Z.to_nat 4) s)) by (unfold len in *; rewrite length_drop; lia).
  apply (bytes_ok_drop (Z.to_nat 4)) in Hs. revert Hl4 Hs. generalize (drop (Z.to_nat 4) s).
  clear. intros s Hlen Hs.
  destruct s as [|lev [|b [|k1 [|k0 s]]]]; [done..|]. rewrite !bytes_ok_cons in Hs.
  destruct Hs as (_ & _ & Hk1 & Hk0 & Hs). apply wp_bind. unfold wp at 1; cbn [get_u8].
  apply wp_bind, wp_ensure. intros _. apply wp_bind. unfold wp at 1; cbn [get_u8].
  apply wp_bind, wp_ok_or. intros flags _. apply wp_bind. unfold wp at 1; cbn [get_u16].
  destruct (be16_of_bytes k1 k0 Hk1 Hk0) as [_ Hka].
  apply wp_bind, (wp_parse connect_props_ok); [apply connect_table_ok|by split; try constructor|done|].
  intros p s1 [] Hs1. apply wp_bind, (wp_wire string_w); [done|]. intros cid s2 Hcid _ Hs2 _.
  apply wp_bind, wp_ensure. intros Hclean.
  apply wp_bind, (wp_mono _ _ (λ o s, from_option will_wf True o ∧ bytes_ok s)).
  { apply wp_decode_if; [|done]. intros _. by apply wp_last_will. }
  intros will s3 [Hwill Hs3].
  apply wp_bind, (wp_mono _ _ (λ o s, from_option string_wf True o ∧ bytes_ok s)).
  { apply wp_decode_if; [|done]. intros _. by apply (wp_wire string_w). }
  intros user s4 [Huser Hs4].
  apply wp_bind, (wp_mono _ _ (λ o s, from_option blob_wf True o ∧ bytes_ok s)).
  { apply wp_decode_if; [|done]. intros _. by apply (wp_wire bytes_w). }
  intros pass s5 [Hpass Hs5]. apply wp_ret. split; cbn; try done.
  - by apply (opt_default_wf u32_w).
  - by apply (opt_default_wf u16_w).
  - apply orb_true_iff in Hclean as [Hne%negb_true_iff%bool_decide_eq_false| ->]; auto.
Qed.

Lemma wp_connack s : bytes_ok s → wp connect_ack_decode s (λ a _, connack_wf a).
Proof.
  intros Hs. unfold connect_ack_decode. apply wp_bind, wp_remaining, wp_bind, wp_ensure.
  intros Hlen. destruct s as [|b [|c s]]; [done..|]. rewrite !bytes_ok_cons in Hs.
  destruct Hs as (_ & _ & Hs). apply wp_bind. unfold wp at 1; cbn [get_u8].
  apply wp_bind, wp_ok_or. intros flags _. apply wp_bind. unfold wp at 1; cbn [get_u8].
  apply wp_bind, wp_lift; [apply prim_no_panic|]. intros r _.
  apply wp_bind, (wp_parse connack_props_ok); [apply connack_table_ok|by split; try constructor|done|].
  intros p s1 [] Hs1. apply wp_bind, wp_no_more. intros _. apply wp_ret. split; cbn; try done.
  - apply (opt_default_wf nz_u16_w); [done|change (nz_u16 65535); range_lia].
  - by apply (opt_default_wf u16_w).
Qed.

Lemma wp_publish flags s : bytes_ok s → wp (publish_decode flags) s (λ p _, publish_wf p).
Proof.
  intros Hs. unfold publish_decode.
  apply wp_bind, (wp_wire string_w); [done|]. intros t s1 Ht _ Hs1 _.
  apply wp_bind, wp_lift; [apply qos_try_from_no_panic|]. intros q _.
  apply wp_bind, (wp_mono _ _ (λ o s, bytes_ok s ∧
    match q with AtMostOnce => o = None | _ => ∃ pid, o = Some pid ∧ nz_u16 pid end)).
  { apply wp_decode_if.
    - intros Hq. apply (wp_wire nz_u16_w); [done|]. intros pid s2 Hpid _ Hs2 _.
      split; [done|]. destruct q; [by rewrite bool_decide_true in Hq|eauto..].
    - intros Hq%negb_false_iff%bool_decide_eq_true. by subst q. }
  intros pid s2 [Hs2 Hpid]. unfold parse_publish_properties.
  apply wp_bind, wp_bind, (wp_parse publish_loop_ok); [apply publish_table_ok|by split; try constructor|done|].
  intros p s3 [] Hs3. apply wp_ret, wp_bind, wp_take_rest, wp_ret. by repeat split; try apply Ht.
Qed.

Lemma wp_publish_ack {R} (try_from : Z → outcome DecodeError R) success s :
  (∀ v, try_from v ≠ Panic) → bytes_ok s →
  wp (publish_ack_decode try_from success) s (λ a _, publish_ack_wf a).
Proof.
  intros Htry Hs. unfold publish_ack_decode.
  apply wp_bind, (wp_wire nz_u16_w); [done|]. intros pid s1 Hpid _ Hs1 _.
  apply wp_bind, wp_has_remaining, wp_if; intros Hr; [|by apply wp_ret; repeat split; try apply Hpid; constructor].
  apply wp_bind, wp_u8; [done..|]. intros b s2 _ Hs2.
  apply wp_bind, wp_lift; [done|]. intros r _.
  apply wp_bind, wp_has_remaining, wp_if; intros Hr2; [|by apply wp_ret; repeat split; try apply Hpid; constructor].
  apply wp_bind, wp_ack_props; [done|]. intros a s3 Ha Hs3. apply wp_bind, wp_no_more.
  intros _. by apply wp_ret.
Qed.

Lemma wp_sub_options s (Q : SubscriptionOptions → bytes → Prop) :
  bytes_ok s → (∀ o s', bytes_ok s' → (length s' < length s)%nat → Q o s') → wp sub_options_decode s Q.
Proof.
  intros Hs HQ. unfold sub_options_decode. apply wp_bind, wp_has_remaining, wp_bind, wp_ensure.
  intros Hr. destruct s as [|b s]; [done|]. apply bytes_ok_cons in Hs as [_ Hs].
  apply wp_bind. unfold wp at 1; cbn [get_u8].
  apply wp_bind, wp_lift; [apply qos_try_from_no_panic|]. intros q _.
  apply wp_bind, wp_lift; [apply prim_no_panic|]. intros h _. apply wp_ret, HQ; [done|simpl; lia].
Qed.

Lemma wp_subscribe s : bytes_ok s → wp subscribe_decode s (λ a _, subscribe_wf a).
Proof.
  intros Hs. unfold subscribe_decode.
  apply wp_bind, (wp_wire nz_u16_w); [done|]. intros pid s1 Hpid _ Hs1 _.
  apply wp_bind, (wp_parse subscribe_props_ok); [apply subscribe_table_ok|by split; try constructor|done|].
  intros p s2 [] Hs2. apply wp_bind. eapply wp_mono.
  { apply (wp_while _ (λ fs s, bytes_ok s ∧ Forall (λ f, string_wf f.1) fs)); [|done].
    intros acc s3 [Hs3 Hacc] _. unfold subscribe_filter.
    apply wp_bind, (wp_wire string_w); [done|]. intros t s4 Ht _ Hs4 Hlen. simpl in Hlen.
    apply wp_bind, wp_sub_options; [done|]. intros o s5 Hs5 Hl. apply wp_ret.
    pose proof (len_nonneg t). unfold len in Hlen. split; [|lia]. split; [done|].
    apply Forall_app. split; [done|]. by apply Forall_singleton. }
  intros fs s' (_ & _ & Hfs). apply wp_bind, wp_ensure.
  intros Hne%negb_true_iff%bool_decide_eq_false. apply wp_ret. by repeat split; try apply Hpid.
Qed.

Lemma wp_unsubscribe s : bytes_ok s → wp unsubscribe_decode s (λ a _, unsubscribe_wf a).
Proof.
  intros Hs. unfold unsubscribe_decode.
  apply wp_bind, (wp_wire nz_u16_w); [done|]. intros pid s1 Hpid _ Hs1 _.
  apply wp_bind, (wp_parse users_wf); [apply unsubscribe_table_ok|by constructor|done|].
  intros us s2 Hus Hs2. apply wp_bind. eapply wp_mono.
  { apply (wp_while _ (λ fs s, bytes_ok s ∧ Forall string_wf fs)); [|done].
    intros acc s3 [Hs3 Hacc] _. unfold unsubscribe_filter.
    apply wp_bind, (wp_wire string_w); [done|]. intros t s4 Ht _ Hs4 Hlen. simpl in Hlen.
    apply wp_ret. pose proof (len_nonneg t). unfold len in Hlen. split; [|lia]. split; [done|].
    apply Forall_app. split; [done|]. by apply Forall_singleton. }
  intros fs s' (_ & _ & Hfs). apply wp_bind, wp_ensure.
  intros Hne%negb_true_iff%bool_decide_eq_false. apply wp_ret. by repeat split; try apply Hpid.
Qed.

Lemma wp_status {R} (try_from : Z → outcome DecodeError R) s (Q : list R → bytes → Prop) :
  (∀ v, try_from v ≠ Panic) → (∀ l, Q l s) → wp (decode_status try_from) s Q.
Proof.
  intros Ht HQ. unfold decode_status. apply wp_bind. unfold wp at 1; cbn [get_state].
  apply wp_lift; [by apply map_results_no_panic|]. intros l _. apply HQ.
Qed.

Lemma wp_suback s : bytes_ok s → wp subscribe_ack_decode s
  (λ a _, nz_u16 (sa_packet_id a) ∧ diag_wf (sa_properties a) (sa_reason_string a)).
Proof.
  intros Hs. unfold subscribe_ack_decode.
  apply wp_bind, (wp_wire nz_u16_w); [done|]. intros pid s1 Hpid _ Hs1 _.
  apply wp_bind, wp_ack_props; [done|]. intros a s2 Ha Hs2.
  apply wp_bind, wp_status; [apply prim_no_panic|]. intros l. by apply wp_ret.
Qed.

Lemma wp_unsuback s : bytes_ok s → wp unsubscribe_ack_decode s
  (λ a _, nz_u16 (ua_packet_id a) ∧ diag_wf (ua_properties a) (ua_reason_string a)).
Proof.
  intros Hs. unfold unsubscribe_ack_decode.
  apply wp_bind, (wp_wire nz_u16_w); [done|]. intros pid s1 Hpid _ Hs1 _.
  apply wp_bind, wp_ack_props; [done|]. intros a s2 Ha Hs2.
  apply wp_bind, wp_status; [apply prim_no_panic|]. intros l. by apply wp_ret.
Qed.

Lemma disconnect_no_panic v : disconnect_try_from v ≠ Panic.
Proof. unfold disconnect_try_from. by repeat case_match. Qed.

Lemma wp_disconnect s : bytes_ok s → wp disconnect_decode s (λ d _, disconnect_wf d).
Proof.
  intros Hs. unfold disconnect_decode.
  apply wp_bind, wp_has_remaining, wp_if; intros Hr; [|by apply wp_ret; repeat split; constructor].
  apply wp_bind, wp_u8; [done..|]. intros b s1 _ Hs1.
  apply wp_bind, wp_lift; [apply disconnect_no_panic|]. intros r _.
  apply wp_bind, wp_has_remaining, wp_if; intros Hr2; [|by apply wp_ret; repeat split; constructor].
  apply wp_bind, (wp_parse disconnect_props_ok); [apply disconnect_table_ok|by split; try constructor|done|].
  intros p s2 [] Hs2. apply wp_bind, wp_no_more. intros _. by apply wp_ret.
Qed.

Lemma wp_auth s : bytes_ok s → wp auth_decode s (λ a _, auth_wf a).
Proof.
  intros Hs. unfold auth_decode.
  apply wp_bind, wp_has_remaining, wp_if; intros Hr; [|by apply wp_ret; repeat split; constructor].
  apply wp_bind, wp_u8; [done..|]. intros b s1 _ Hs1.
  apply wp_bind, wp_lift; [apply prim_no_panic|]. intros r _.
  apply wp_bind, wp_has_remaining, wp_if; intros Hr2; [|by apply wp_ret; repeat split; constructor].
  rewrite Hr2, orb_true_r. apply wp_bind, wp_bind.
  apply (wp_parse auth_props_ok); [apply auth_table_ok|by split; try constructor|done|].
  intros p s2 [] Hs2. apply wp_bind, wp_no_more. intros _. by apply wp_ret, wp_ret.
Qed.

Lemma wp_v5_decode_packet fb s : bytes_ok s → wp (decode_packet fb) s (λ p _, packet_wf p).
Proof.
  intros Hs. unfold decode_packet, decode_puback, decode_pubrel.
  repeat (apply wp_if; intros ?); try (by apply wp_ret || by apply wp_err);
    (eapply wp_packet_of;
      [first [by apply wp_publish | apply wp_publish_ack; [apply prim_no_panic|done]
             | by apply wp_subscribe | by apply wp_suback | by apply wp_unsubscribe
             | by apply wp_unsuback | by apply wp_connect | by apply wp_connack
             | by apply wp_disconnect | by apply wp_auth]|done]).
Qed.

(** The decoder in the form the framing asks for. *)
Lemma v5_decode_packet_ok fb body : bytes_ok body →
  match fst (decode_packet fb body) with
  | Ok p => packet_wf p | Err _ => True | Panic => False
  end.
Proof.
  intros Hb. pose proof (wp_v5_decode_packet fb body Hb) as H. unfold wp in H.
  by destruct (decode_packet fb body) as [[]?].
Qed.
