(* ===== verification/MqttV5.v ===== *)
(** * The MQTT 5 codec

    Models [Codec] of [ferromq-codec/src/v5/codec.rs]: framing on the way in with
    the inbound size limit, the negotiated flags, and encoding on the way out
    with the outbound limit and the client's wish about problem information. *)

From stdpp Require Import base list numbers option.
From Stdlib Require Import ZArith Lia.
From S2P Require Import Prelude Errors Wire CodecTypes Framing PropsV5 PacketV5 EncodeV5 BodyV5 RoundV5 SafeV5.

#[local] Open Scope Z_scope.

(** ** The codec *)

Definition NO_PROBLEM_INFO : Z := 1.
Definition NO_RETAIN : Z := 2.
Definition NO_SUB_IDS : Z := 8.

Record Codec : Type := mkCodec {
  state : DecodeState;
  max_in_size : Z;
  max_out_size : Z;
  flags : Z;
}.

Definition codec_new (max_in_size max_out_size : Z) : Codec :=
  mkCodec FrameHeader max_in_size max_out_size 0.
Definition codec_default : Codec := codec_new 0 0.

Definition set_max_inbound_size (c : Codec) (size : Z) : Codec :=
  mkCodec (state c) size (max_out_size c) (flags c).

(** Five bytes are kept for the fixed header. *)
Definition set_max_outbound_size (c : Codec) (size : Z) : Codec :=
  mkCodec (state c) (max_in_size c) (if 5 <? size then size - 5 else size) (flags c).

(** [flags.set(f, val)] of [bitflags] *)
Definition flags_set (fs f : Z) (val : bool) : Z := if val then Z.lor fs f else Z.ldiff fs f.

Definition with_flags (c : Codec) (fs : Z) : Codec :=
  mkCodec (state c) (max_in_size c) (max_out_size c) fs.

Definition retain_available (c : Codec) : bool := negb (contains (flags c) NO_RETAIN).
Definition sub_ids_available (c : Codec) : bool := negb (contains (flags c) NO_SUB_IDS).
Definition set_retain_available (c : Codec) (val : bool) : Codec :=
  with_flags c (flags_set (flags c) NO_RETAIN (negb val)).
Definition set_sub_ids_available (c : Codec) (val : bool) : Codec :=
  with_flags c (flags_set (flags c) NO_SUB_IDS (negb val)).

Definition codec_decode (c : Codec) (src : bytes)
    : outcome DecodeError (option (Packet * Z)) * (Codec * bytes) :=
  let '(r, (st, src)) := frame_decode decode_packet (max_in_size c) (state c) src in
  let fs :=
    match r with
    | Ok (Some (V5Connect pkt, _)) =>
        flags_set (flags c) NO_PROBLEM_INFO (negb (c_request_problem_info pkt))
    | _ => flags c
    end in
  (r, (mkCodec st (max_in_size c) (max_out_size c) fs, src)).

(** [pkt.properties.clear(); let _ = pkt.reason_string.take();] *)
Definition clear_publish_ack {R} (a : PublishAckOf R) : PublishAckOf R :=
  mkPublishAck (pa_packet_id a) (pa_reason_code a) [] None.

Definition clear_diagnostics (item : Packet) : Packet :=
  match item with
  | V5PublishAck pkt => V5PublishAck (clear_publish_ack pkt)
  | V5PublishReceived pkt => V5PublishReceived (clear_publish_ack pkt)
  | V5PublishRelease pkt => V5PublishRelease (clear_publish_ack pkt)
  | V5PublishComplete pkt => V5PublishComplete (clear_publish_ack pkt)
  | V5Subscribe pkt =>
      V5Subscribe (mkSubscribe (sub_packet_id pkt) (sub_id pkt) [] (sub_topic_filters pkt))
  | V5SubscribeAck pkt => V5SubscribeAck (mkSubscribeAck (sa_packet_id pkt) [] None (sa_status pkt))
  | V5Unsubscribe pkt =>
      V5Unsubscribe (mkUnsubscribe (un_packet_id pkt) [] (un_topic_filters pkt))
  | V5UnsubscribeAck pkt =>
      V5UnsubscribeAck (mkUnsubscribeAck (ua_packet_id pkt) [] None (ua_status pkt))
  | V5Auth pkt =>
      V5Auth (mkAuth (au_reason_code pkt) (au_auth_method pkt) (au_auth_data pkt) None [])
  | _ => item
  end.

(** The packet as the codec sends it, and the limit in force. *)
Definition prepared (c : Codec) (item : Packet) : Packet :=
  if contains (flags c) NO_PROBLEM_INFO then clear_diagnostics item else item.
Definition out_limit (c : Codec) : Z :=
  if max_out_size c =? 0 then MAX_PACKET_SIZE else max_out_size c.

Definition codec_encode (checks : bool) (c : Codec) (item : Packet) : writer :=
  let item := prepared c item in
  let max_size := out_limit c in
  lift (encoded_size checks item max_size) ≫= λ content_size,
  ensure (content_size <=? max_size) (OverMaxPacketSize (as_u32 content_size) max_size) ;;
  encode checks item (as_u32 content_size).

(** ** What is sent *)

Definition sent (c : Codec) (p : Packet) : Packet := truncate (out_limit c) (prepared c p).

Lemma clear_wf p : packet_wf p → packet_wf (clear_diagnostics p).
Proof.
  destruct p; simpl; try done; unfold publish_ack_wf, subscribe_wf, unsubscribe_wf, auth_wf, diag_wf;
    simpl; intuition; constructor.
Qed.

Lemma prepared_wf c p : packet_wf p → packet_wf (prepared c p).
Proof. unfold prepared. case_match; [apply clear_wf|done]. Qed.

Lemma prepared_limit_ok c limit p : limit_ok limit p → limit_ok limit (prepared c p).
Proof. unfold prepared. case_match; [by destruct p|done]. Qed.

Lemma first_of_prepared c p : first_of (prepared c p) = first_of p.
Proof. unfold prepared. case_match; [by destruct p|done]. Qed.

Lemma first_of_truncate limit p : first_of (truncate limit p) = first_of p.
Proof. by destruct p. Qed.

Lemma truncate_wf limit p : packet_wf p → packet_wf (truncate limit p).
Proof.
  destruct p; cbn [truncate packet_wf]; try done; unfold cut_publish_ack, publish_ack_wf,
    disconnect_wf, auth_wf; cbn.
  - intros []. split; cbn; try done. by apply fit_wf.
  - intros [? ?]. split; [done|]. by apply ack_fit_wf.
  - intros [? ?]. split; [done|]. by apply ack_fit_wf.
  - intros [? ?]. split; [done|]. by apply ack_fit_wf.
  - intros [? ?]. split; [done|]. by apply ack_fit_wf.
  - intros [? ?]. split; [done|]. by apply ack_fit_wf.
  - intros [? ?]. split; [done|]. by apply ack_fit_wf.
  - intros (? & ? & ?). split; [done|]. split; [done|]. by apply fit_wf.
  - intros (? & ? & ?). split; [done|]. split; [done|]. by apply fit_wf.
Qed.

Lemma sent_wf c p : packet_wf p → packet_wf (sent c p).
Proof. intros. by apply truncate_wf, prepared_wf. Qed.

Lemma out_limit_range c : 0 ≤ max_out_size c < 2 ^ 32 → 1 ≤ out_limit c < 2 ^ 32.
Proof. intros. unfold out_limit, MAX_PACKET_SIZE. destruct (Z.eqb_spec (max_out_size c) 0); lia. Qed.

(** A size above what a fixed header can announce. *)
Lemma encode_too_long checks p n dst :
  VARINT_MAX < n → p ≠ V5PingRequest → p ≠ V5PingResponse →
  encode checks p n dst = (Panic, dst ++ [first_of p]).
Proof.
  intros Hn H1 H2.
  assert (Hpanic : ∀ b (k : writer), ((put_u8 b ;; write_variable_length n) ;; k) dst
                            = (Panic, dst ++ [b])).
  { intros b k. apply bind_panic. erewrite bind_ok by apply writes_put_u8.
    unfold write_variable_length, between, VARINT_MAX in *.
    by rewrite !(proj2 (Z.leb_gt n _)), !andb_false_r by lia. }
  destruct p; try done; apply Hpanic.
Qed.

(** A packet whose size is within the limit becomes one frame. *)
Lemma codec_encode_ok checks c p n :
  packet_wf p → limit_ok (out_limit c) p → 0 ≤ max_out_size c < 2 ^ 32 →
  encoded_size checks (prepared c p) (out_limit c) = Ok n → n ≤ out_limit c → n ≤ VARINT_MAX →
  n = len (body_of (sent c p)) ∧
  writes (codec_encode checks c p) (frame_of (out_limit c) (prepared c p)).
Proof.
  intros Hwf Hlim Hout Hn Hle Hmax. pose proof (out_limit_range c Hout).
  apply (prepared_wf c) in Hwf. apply (prepared_limit_ok c) in Hlim.
  destruct (body_size checks (out_limit c) (prepared c p) Hwf Hlim) as (n' & Hn' & Hlen); [lia|].
  rewrite Hn in Hn'. simplify_eq. specialize (Hlen Hmax). fold (sent c p) in Hlen.
  split; [done|]. intros dst. unfold codec_encode. rewrite Hn. erewrite bind_ok by done. cbv beta.
  erewrite bind_ok by (apply ensure_holds, Z.leb_le; lia).
  pose proof (len_nonneg (body_of (sent c p))).
  rewrite as_u32_small by (unfold VARINT_MAX in *; lia). rewrite Hlen.
  apply writes_v5_encode; [done|done|]. fold (sent c p). lia.
Qed.

Lemma codec_encode_inv checks c p dst out :
  packet_wf p → limit_ok (out_limit c) p → 0 ≤ max_out_size c < 2 ^ 32 →
  codec_encode checks c p dst = (Ok tt, out) →
  out = dst ++ frame_of (out_limit c) (prepared c p) ∧
  len (body_of (sent c p)) ≤ out_limit c ∧ len (body_of (sent c p)) ≤ VARINT_MAX.
Proof.
  intros Hwf Hlim Hout He. pose proof (out_limit_range c Hout). pose proof He as He'.
  unfold codec_encode in He. apply bind_ok_inv in He as (n & s1 & Hn & He).
  unfold lift in Hn. destruct (encoded_size _ _ _) as [n'| |] eqn:Hsz; simplify_eq. cbv beta in He.
  apply bind_ok_inv in He as (u & s2 & [Hle%Z.leb_le ->]%ensure_ok_inv & He).
  destruct (Z.le_gt_cases n VARINT_MAX) as [Hmax|Hmax].
  - destruct (codec_encode_ok checks c p n) as [Hlen Hw]; [done..|].
    rewrite Hw in He'. injection He' as <-. rewrite <-Hlen. auto.
  - rewrite as_u32_small in He by (unfold VARINT_MAX in *; lia).
    rewrite encode_too_long in He; [done|lia|..]; intros Hp; rewrite Hp in Hsz;
      unfold VARINT_MAX in Hmax; simpl in Hsz; simplify_eq; lia.
Qed.

(** A packet that the codec [c] accepts, and a receiver with limit [max_in]. *)
Definition sendable (checks : bool) (c : Codec) (max_in : Z) (p : Packet) : Prop :=
  packet_wf p ∧ limit_ok (out_limit c) p ∧
  ∃ n, encoded_size checks (prepared c p) (out_limit c) = Ok n ∧
       n ≤ out_limit c ∧ n ≤ VARINT_MAX ∧ (max_in = 0 ∨ n ≤ max_in).

(** C5: a stream of MQTT 5 packets survives the network.  Encode any sequence
    of well-formed packets, each within the codec's outbound limit, one after
    the other; cut the bytes into reads in any way: the receiver delivers, in
    order and with their lengths, exactly the packets that were sent, and is
    left between two packets with an empty buffer.  [sent] is the packet
    without the diagnostics that the peer does not want or that do not fit (see
    [v5_truncation]); [received] adds the empty properties of a PUBLISH without any and
    drops the sender's certificate. *)
Theorem v5_stream_roundtrip checks c max_in ps :
  0 ≤ max_out_size c < 2 ^ 32 → Forall (sendable checks c max_in) ps →
  let frames := concat (map (λ p, frame_of (out_limit c) (prepared c p)) ps) in
  for_each (codec_encode checks c) ps [] = (Ok tt, frames) ∧
  ∀ chunk chunks, concat (chunk :: chunks) = frames →
    feed_all decode_packet max_in (Live FrameHeader []) (chunk :: chunks) =
      (map (λ p, (received (sent c p), len (body_of (sent c p)))) ps, Live FrameHeader []).
Proof.
  intros Hout Hps frames. split.
  - apply (writes_for_each (codec_encode checks c)
      (λ p, frame_of (out_limit c) (prepared c p)) ps). eapply Forall_impl; [|exact Hps].
    intros p (? & ? & n & ? & ? & ? & _). by apply (codec_encode_ok checks c p n).
  - intros chunk chunks Hcat. rewrite feed_all_concat, Hcat.
    pose proof (feed_frames decode_packet max_in
      (map (λ p, (first_of p, body_of (sent c p), received (sent c p))) ps)) as Hf.
    rewrite !map_map in Hf. unfold frames.
    rewrite (map_ext _ (λ p, first_of p :: varint (len (body_of (sent c p))) ++ body_of (sent c p))).
    + rewrite Hf; [done|]. apply Forall_map. eapply Forall_impl; [|exact Hps].
      intros p (Hwf & Hl & n & Hn & Hle & Hmax & Hin).
      destruct (codec_encode_ok checks c p n) as [-> _]; [done..|].
      pose proof (len_nonneg (body_of (sent c p))). split; [lia|]. split; [done|].
      rewrite <-(first_of_prepared c p), <-(first_of_truncate (out_limit c)).
      apply v5_decode_packet_body; [by apply sent_wf|done].
    + intros p. unfold frame_of. by rewrite first_of_prepared.
Qed.

Definition example_codec : Codec := set_max_outbound_size (codec_new 0 0) 29.

(** A PUBACK of 19 bytes under a limit of 24: the encoder sets eight bytes aside
    for lengths, so the reason string is left out. *)
Definition example_puback : Packet :=
  V5PublishAck (mkPublishAck 255 PAUnspecifiedError [([97], [98])] (Some [49; 50; 51; 52; 53])).

Definition example_disconnect : Packet := V5Disconnect (disconnect_new ServerBusy).

Lemma example_puback_wf : packet_wf example_puback.
Proof.
  assert (Hs : ∀ s : bytes, Forall u8_range s → len s < 2 ^ 16 → utf8_valid s = true → string_wf s)
    by (intros; by split).
  split; [by vm_compute|]. split; [apply Forall_singleton; split|]; apply Hs;
    try (by vm_compute); repeat constructor; range_lia.
Qed.

Lemma v5_stream_roundtrip_witness :
  feed_all decode_packet 1024 (Live FrameHeader [])
    [[64; 11; 0; 255; 128; 7]; [38; 0; 1; 97; 0; 1; 98; 224]; [2; 137; 0]] =
    ([(V5PublishAck (mkPublishAck 255 PAUnspecifiedError [([97], [98])] None), 11);
      (example_disconnect, 2)], Live FrameHeader []).
Proof.
  apply (v5_stream_roundtrip true example_codec 1024 [example_puback; example_disconnect]);
    [by split| |reflexivity].
  repeat apply Forall_cons; [| |done].
  - split; [apply example_puback_wf|]. split; [by vm_compute|]. exists 11.
    split; [reflexivity|]. split; [by vm_compute|]. split; [by vm_compute|]. right. by vm_compute.
  - split; [by repeat split; constructor|]. split; [by vm_compute|]. exists 2.
    split; [reflexivity|]. split; [by vm_compute|]. split; [by vm_compute|]. right. by vm_compute.
Defined.

(** What [encode] does to the output buffer, in every case.  For a
    well-formed packet and a limit that [encoded_size] can subtract from, the
    size is computed without overflow.  Above the limit the packet is refused
    and nothing is written; otherwise exactly one frame is appended, whose
    announced length is the length of its body and within the limit; only a
    limit above 268435455 lets a longer packet through, and then the encoder
    panics after the first byte. *)
Theorem v5_encode_cases checks c p dst :
  packet_wf p → limit_ok (out_limit c) p → 0 ≤ max_out_size c < 2 ^ 32 →
  ∃ n, encoded_size checks (prepared c p) (out_limit c) = Ok n ∧
    codec_encode checks c p dst =
      (if out_limit c <? n then (Err (OverMaxPacketSize (as_u32 n) (out_limit c)), dst)
       else if n <=? VARINT_MAX then (Ok tt, dst ++ frame_of (out_limit c) (prepared c p))
       else (Panic, dst ++ [first_of p])) ∧
    (n ≤ VARINT_MAX → n = len (body_of (sent c p))).
Proof.
  intros Hwf Hlim Hout. pose proof (out_limit_range c Hout).
  destruct (body_size checks (out_limit c) (prepared c p)) as (n & Hn & Hlen);
    [by apply prepared_wf|by apply prepared_limit_ok|lia|].
  exists n. split; [done|]. split; [|done].
  destruct (Z.ltb_spec (out_limit c) n).
  { unfold codec_encode. rewrite Hn. erewrite bind_ok by done. cbv beta.
    apply bind_err. unfold ensure. by rewrite (proj2 (Z.leb_gt _ _)) by lia. }
  destruct (Z.leb_spec n VARINT_MAX) as [Hmax|Hmax].
  - by apply (codec_encode_ok checks c p n).
  - unfold codec_encode. rewrite Hn. erewrite bind_ok by done. cbv beta.
    erewrite bind_ok by (apply ensure_holds, Z.leb_le; lia).
    rewrite as_u32_small by (unfold VARINT_MAX in *; lia). rewrite <-(first_of_prepared c p).
    apply encode_too_long; [done|..]; intros He; rewrite He in Hn; unfold VARINT_MAX in Hmax;
      simpl in Hn; simplify_eq; lia.
Qed.

Lemma v5_encode_cases_witness :
  ∃ n, encoded_size true example_puback 24 = Ok n ∧
    codec_encode true example_codec example_puback [7] =
      (if 24 <? n then (Err (OverMaxPacketSize (as_u32 n) 24), [7])
       else if n <=? VARINT_MAX
       then (Ok tt, [7; 64; 11; 0; 255; 128; 7; 38; 0; 1; 97; 0; 1; 98])
       else (Panic, [7; 64])) ∧
    (n ≤ VARINT_MAX → n = 11).
Proof.
  apply (v5_encode_cases true example_codec example_puback [7]);
    [apply example_puback_wf|by vm_compute|by vm_compute].
Defined.

(** ** Diagnostics: user properties and reason string *)

Definition diagnostics (p : Packet) : UserProperties * option bytes :=
  match p with
  | V5ConnectAck a => (ca_user_properties a, ca_reason_string a)
  | V5PublishAck a | V5PublishReceived a => (pa_properties a, pa_reason_string a)
  | V5PublishRelease a | V5PublishComplete a => (pa_properties a, pa_reason_string a)
  | V5SubscribeAck a => (sa_properties a, sa_reason_string a)
  | V5UnsubscribeAck a => (ua_properties a, ua_reason_string a)
  | V5Disconnect d => (d_user_properties d, d_reason_string d)
  | V5Auth a => (au_user_properties a, au_reason_string a)
  | _ => ([], None)
  end.

(** [p] with the diagnostics [d] in place of its own. *)
Definition with_diagnostics (d : UserProperties * option bytes) (p : Packet) : Packet :=
  match p with
  | V5ConnectAck a =>
      V5ConnectAck (mkConnectAck (ca_session_present a) (ca_reason_code a)
        (ca_session_expiry_interval_secs a) (ca_receive_max a) (ca_max_qos a)
        (ca_max_packet_size a) (ca_assigned_client_id a) (ca_topic_alias_max a)
        (ca_retain_available a) (ca_wildcard_subscription_available a)
        (ca_subscription_identifiers_available a) (ca_shared_subscription_available a)
        (ca_server_keepalive_sec a) (ca_response_info a) (ca_server_reference a)
        (ca_auth_method a) (ca_auth_data a) d.2 d.1)
  | V5PublishAck a => V5PublishAck (mkPublishAck (pa_packet_id a) (pa_reason_code a) d.1 d.2)
  | V5PublishReceived a =>
      V5PublishReceived (mkPublishAck (pa_packet_id a) (pa_reason_code a) d.1 d.2)
  | V5PublishRelease a =>
      V5PublishRelease (mkPublishAck (pa_packet_id a) (pa_reason_code a) d.1 d.2)
  | V5PublishComplete a =>
      V5PublishComplete (mkPublishAck (pa_packet_id a) (pa_reason_code a) d.1 d.2)
  | V5SubscribeAck a => V5SubscribeAck (mkSubscribeAck (sa_packet_id a) d.1 d.2 (sa_status a))
  | V5UnsubscribeAck a => V5UnsubscribeAck (mkUnsubscribeAck (ua_packet_id a) d.1 d.2 (ua_status a))
  | V5Disconnect x =>
      V5Disconnect (mkDisconnect (d_reason_code x) (d_session_expiry_interval_secs x)
        (d_server_reference x) d.2 d.1)
  | V5Auth a => V5Auth (mkAuth (au_reason_code a) (au_auth_method a) (au_auth_data a) d.2 d.1)
  | _ => p
  end.

(** [d'] is [d] cut down: the first user properties, and the reason string only
    with all of them. *)
Definition cut_of (d d' : UserProperties * option bytes) : Prop :=
  d'.1 `prefix_of` d.1 ∧ (d'.2 = None ∨ d' = d).

Lemma fit_cut us reason limit : cut_of (us, reason) (fit us reason limit).
Proof.
  revert limit. induction us as [|u us IH]; intros limit; cbn [fit].
  - destruct reason; [case_match|]; split; simpl; auto.
  - case_match; [split; simpl; [apply prefix_nil|by left]|].
    destruct (IH (limit - (1 + w_size pair_w u))) as [Hp Hr].
    destruct (fit us reason _) as [us' r']. simpl in *. split; [by apply prefix_cons|].
    destruct Hr as [->|[= -> ->]]; simpl; auto.
Qed.

Lemma ack_fit_cut us reason limit : cut_of (us, reason) (ack_fit us reason limit).
Proof. unfold ack_fit. case_match; [split; simpl; [apply prefix_nil|by left]|apply fit_cut]. Qed.

Lemma ack_fit_all us reason limit :
  diag_wf us reason → len (diag_bytes (us, reason)) + 4 ≤ limit → ack_fit us reason limit = (us, reason).
Proof.
  intros Hd Hl. unfold ack_fit. pose proof (len_nonneg (diag_bytes (us, reason))).
  rewrite (proj2 (Z.ltb_ge _ _)) by lia. apply fit_all; [done|lia].
Qed.

Lemma cut_of_refl d : cut_of d d.
Proof. split; [done|by right]. Qed.

(** Truncation changes the diagnostics only. *)
Lemma truncate_diagnostics limit p :
  ∃ d, cut_of (diagnostics p) d ∧ truncate limit p = with_diagnostics d p.
Proof.
  destruct p; cbn [diagnostics truncate];
    first [ eexists; split; [apply cut_of_refl|reflexivity]
          | eexists; split; [apply fit_cut|reflexivity]
          | eexists; split; [apply ack_fit_cut|reflexivity] ].
Qed.

Lemma with_own_diagnostics p : with_diagnostics (diagnostics p) p = p.
Proof. by destruct p as [|[]| |[]|[]|[]|[]| |[]| |[]| | |[]|[]]. Qed.

(** With eight bytes to spare nothing is cut. *)
Lemma truncate_fits limit p :
  packet_wf p → len (body_of p) + 8 ≤ limit → truncate limit p = p.
Proof.
  intros Hwf Hfit. rewrite <-(with_own_diagnostics p) at 2. pose proof (len_nonneg (body_of p)).
  destruct p; try done; cbn [diagnostics truncate packet_wf body_of] in *;
    unfold cut_publish_ack, publish_ack_bytes in *; rewrite ?ack_bytes_framed in Hfit;
    match goal with H : context [framed ?b] |- _ => pose proof (framed_len_bound b) end;
    rewrite ?len_app, ?map_len, ?len_be16, ?len_cons, ?len_nil in *;
    first [rewrite ack_fit_all; [done|by apply Hwf|] | rewrite fit_all; [done|by apply Hwf|]];
    unfold reduce_limit; repeat case_match; try lia.
Qed.

(** What a size limit may change.  When the codec accepts a packet from a
    peer that wants problem information, the frame it appends is that packet
    up to its diagnostics, within the limit, and it is read back as such.  Of
    the diagnostics a prefix of the user properties is kept, and the reason
    string only when all of them are; with eight bytes to spare the packet is
    sent whole. *)
Theorem v5_truncation checks c p dst out :
  packet_wf p → limit_ok (out_limit c) p → 0 ≤ max_out_size c < 2 ^ 32 →
  contains (flags c) NO_PROBLEM_INFO = false →
  codec_encode checks c p dst = (Ok tt, out) →
  ∃ d, cut_of (diagnostics p) d ∧
    let q := with_diagnostics d p in
    out = dst ++ first_of p :: framed (body_of q) ∧
    len (body_of q) ≤ out_limit c ∧
    fst (decode_packet (first_of p) (body_of q)) = Ok (received q) ∧
    (len (body_of p) + 8 ≤ out_limit c → q = p).
Proof.
  intros Hwf Hlim Hout Hinfo He.
  destruct (codec_encode_inv checks c p dst out) as (-> & Hle & Hmax); [done..|].
  unfold sent, prepared, frame_of in *. rewrite Hinfo in *.
  destruct (truncate_diagnostics (out_limit c) p) as (d & Hcut & Heq).
  exists d. split; [done|]. cbv zeta. rewrite <-Heq. split; [done|]. split; [done|].
  split; [|by apply truncate_fits].
  rewrite <-(first_of_truncate (out_limit c) p). apply v5_decode_packet_body; [|done].
  by apply truncate_wf.
Qed.

Lemma v5_truncation_witness :
  ∃ d, cut_of (diagnostics example_puback) d ∧
    let q := with_diagnostics d example_puback in
    [64; 11; 0; 255; 128; 7; 38; 0; 1; 97; 0; 1; 98] = [] ++ 64 :: framed (body_of q) ∧
    len (body_of q) ≤ 24 ∧
    fst (decode_packet 64 (body_of q)) = Ok (received q) ∧
    (len (body_of example_puback) + 8 ≤ 24 → q = example_puback).
Proof.
  apply (v5_truncation true example_codec example_puback []);
    [apply example_puback_wf|by vm_compute|by vm_compute|reflexivity|reflexivity].
Defined.

(** C16: no sequence of bytes, however it is cut into reads, makes the MQTT 5
    receiver panic, and every packet it delivers is well formed: packet and
    subscription identifiers non-zero, strings valid UTF-8, every property
    within its type, filter lists non-empty, a QoS 0 publish without
    identifier and the others with one. *)
Theorem v5_receive_safe c chunks :
  Forall bytes_ok chunks →
  let '(ps, conn) := feed_all decode_packet (max_in_size c) (Live (state c) []) chunks in
  Forall (λ '(p, _), packet_wf p) ps ∧ conn ≠ Crashed.
Proof.
  intros Hc. pose proof (feed_all_safe decode_packet (max_in_size c) packet_wf v5_decode_packet_ok
    (Live (state c) []) chunks (Forall_nil_2 _) Hc) as H.
  destruct (feed_all _ _ _ _) as [ps conn]. destruct H as [? Hok]. split; [done|].
  by intros ->.
Qed.

Lemma v5_receive_safe_witness :
  let '(ps, c) := feed_all decode_packet 0 (Live FrameHeader [])
    [[64; 17; 0; 255; 128; 13; 38; 0; 1]; [97; 0; 1; 98; 31; 0; 3; 49; 50; 51]; [16; 2; 0; 4]] in
  Forall (λ '(p, _), packet_wf p) ps ∧ c ≠ Crashed.
Proof.
  apply (v5_receive_safe codec_default
    [[64; 17; 0; 255; 128; 13; 38; 0; 1]; [97; 0; 1; 98; 31; 0; 3; 49; 50; 51]; [16; 2; 0; 4]]).
  repeat constructor; vm_compute; congruence.
Defined.

(** ** Flags *)

Lemma contains_bit fs k : 0 ≤ k → contains fs (2 ^ k) = Z.testbit fs k.
Proof.
  intros Hk. unfold contains. destruct (Z.testbit fs k) eqn:Hb.
  - apply Z.eqb_eq, Z.bits_inj'. intros i Hi. rewrite Z.land_spec, Z.pow2_bits_eqb by done.
    destruct (Z.eqb_spec k i) as [<-|]; [by rewrite Hb|apply andb_false_r].
  - apply Z.eqb_neq. intros He. apply (f_equal (λ x, Z.testbit x k)) in He.
    by rewrite Z.land_spec, Z.pow2_bits_true, Hb in He.
Qed.

Lemma flags_set_bit fs k val j :
  0 ≤ k → 0 ≤ j → Z.testbit (flags_set fs (2 ^ k) val) j = if k =? j then val else Z.testbit fs j.
Proof.
  intros Hk Hj. unfold flags_set. destruct val;
    rewrite ?Z.lor_spec, ?Z.ldiff_spec, Z.pow2_bits_eqb by done;
    destruct (k =? j); by rewrite ?orb_true_r, ?orb_false_r, ?andb_false_r, ?andb_true_r.
Qed.

Lemma codec_decode_connect c con rest :
  connect_wf con → len (body_of (V5Connect con)) ≤ VARINT_MAX →
  max_in_size c = 0 ∨ len (body_of (V5Connect con)) ≤ max_in_size c → state c = FrameHeader →
  codec_decode c (CONNECT :: framed (body_of (V5Connect con)) ++ rest) =
    (Ok (Some (received (V5Connect con), len (body_of (V5Connect con)))),
     (with_flags c (flags_set (flags c) NO_PROBLEM_INFO (negb (c_request_problem_info con))), rest)).
Proof.
  intros Hwf Hmax Hin Hst. unfold codec_decode. rewrite Hst.
  unfold framed. rewrite <-app_assoc.
  rewrite (frame_decode_one decode_packet (max_in_size c) CONNECT _ (received (V5Connect con)) rest).
  - unfold with_flags. by rewrite Hst.
  - pose proof (len_nonneg (body_of (V5Connect con))). lia.
  - done.
  - by apply (v5_decode_packet_body (V5Connect con)).
Qed.

Lemma clear_diagnostics_none limit p :
  match p with
  | V5ConnectAck _ | V5Disconnect _ => True
  | _ => diagnostics (truncate limit (clear_diagnostics p)) = ([], None)
  end.
Proof.
  destruct p; try done; cbn; unfold ack_fit, fit; by repeat case_match.
Qed.

(** Problem information is sent only to clients that asked for it.  After
    a CONNECT has been decoded, the codec drops the user properties and reason
    strings of everything it sends but CONNACK, DISCONNECT and PUBLISH exactly
    when that CONNECT set Request Problem Information to 0; the other
    negotiated flags keep their values. *)
Theorem problem_info_respected c con rest :
  connect_wf con → len (body_of (V5Connect con)) ≤ VARINT_MAX →
  max_in_size c = 0 ∨ len (body_of (V5Connect con)) ≤ max_in_size c → state c = FrameHeader →
  let '(r, (c', src)) := codec_decode c (CONNECT :: framed (body_of (V5Connect con)) ++ rest) in
  r = Ok (Some (received (V5Connect con), len (body_of (V5Connect con)))) ∧ src = rest ∧
  (∀ p, prepared c' p = if c_request_problem_info con then p else clear_diagnostics p) ∧
  (c_request_problem_info con = false → ∀ p,
     match p with
     | V5ConnectAck _ | V5Disconnect _ => True
     | _ => diagnostics (sent c' p) = ([], None)
     end) ∧
  retain_available c' = retain_available c ∧ sub_ids_available c' = sub_ids_available c.
Proof.
  intros Hwf Hmax Hin Hst. rewrite codec_decode_connect by done.
  set (c' := with_flags _ _).
  assert (Hprep : ∀ p, prepared c' p = if c_request_problem_info con then p else clear_diagnostics p).
  { intros p. unfold prepared, c'. cbn [flags with_flags]. change NO_PROBLEM_INFO with (2 ^ 0).
    rewrite contains_bit, flags_set_bit by done. simpl. by destruct (c_request_problem_info con). }
  split; [done|]. split; [done|]. split; [done|]. split.
  - intros Hp p. unfold sent. rewrite Hprep, Hp. apply clear_diagnostics_none.
  - unfold retain_available, sub_ids_available, c'. cbn [flags with_flags].
    change NO_RETAIN with (2 ^ 1). change NO_SUB_IDS with (2 ^ 3). change NO_PROBLEM_INFO with (2 ^ 0).
    by rewrite !contains_bit, !flags_set_bit by done.
Qed.

Definition example_connect : Connect :=
  mkConnect true 60 0 None None false false None 0 [] None None [97] None None None.

Lemma example_connect_wf : connect_wf example_connect.
Proof.
  split; first [done | by vm_compute | by left | by apply Forall_nil
               | split; [repeat constructor; range_lia|done]].
Qed.

Lemma problem_info_respected_witness :
  let '(r, (c', src)) := codec_decode (codec_new 0 0)
    ([16; 16; 0; 4; 77; 81; 84; 84; 5; 2; 0; 60; 2; 23; 0; 0; 1; 97] ++ [192]) in
  r = Ok (Some (V5Connect example_connect, 16)) ∧ src = [192] ∧
  (∀ p, prepared c' p = clear_diagnostics p) ∧
  (false = false → ∀ p,
     match p with
     | V5ConnectAck _ | V5Disconnect _ => True
     | _ => diagnostics (sent c' p) = ([], None)
     end) ∧
  retain_available c' = true ∧ sub_ids_available c' = true.
Proof.
  apply (problem_info_respected (codec_new 0 0) example_connect [192]);
    [apply example_connect_wf|by vm_compute|by left|reflexivity].
Defined.

(** A client that announces a Maximum Packet Size of at most 11 bytes makes
    a build with overflow checks panic on the first PUBACK, PUBREC, PUBREL or
    PUBCOMP, before anything is written; so does, for any limit, a SUBACK with
    more reason codes than the limit leaves room for. *)
Theorem v5_small_limit c m dst :
  1 ≤ m →
  (m ≤ 11 →
   (∀ a, codec_encode true (set_max_outbound_size c m) (V5PublishAck a) dst = (Panic, dst)) ∧
   (∀ a, codec_encode true (set_max_outbound_size c m) (V5PublishReceived a) dst = (Panic, dst)) ∧
   (∀ a, codec_encode true (set_max_outbound_size c m) (V5PublishRelease a) dst = (Panic, dst)) ∧
   (∀ a, codec_encode true (set_max_outbound_size c m) (V5PublishComplete a) dst = (Panic, dst))) ∧
  (∀ a, out_limit (set_max_outbound_size c m) < 2 + len (sa_status a) → len (sa_status a) ≤ U32_MAX - 2 →
   codec_encode true (set_max_outbound_size c m) (V5SubscribeAck a) dst = (Panic, dst)).
Proof.
  intros Hm. set (c' := set_max_outbound_size c m).
  assert (Hl : out_limit c' = if 5 <? m then m - 5 else m).
  { unfold out_limit, c'. cbn [max_out_size set_max_outbound_size].
    destruct (Z.ltb_spec 5 m); by rewrite (proj2 (Z.eqb_neq _ _)) by lia. }
  assert (Hack : m ≤ 11 → ∀ {R} (a : PublishAckOf R), publish_ack_encoded_size true a (out_limit c') = Panic).
  { intros Hm11 R a. rewrite Hl. unfold publish_ack_encoded_size, HEADER_LEN, u32_sub, mbind, outcome_bind.
    destruct (Z.ltb_spec 5 m).
    - destruct (Z.leb_spec (2 + 1) (m - 5)); [|done]. by rewrite (proj2 (Z.leb_gt _ _)) by lia.
    - destruct (Z.leb_spec (2 + 1) m); [|done]. by rewrite (proj2 (Z.leb_gt _ _)) by lia. }
  assert (Henc : ∀ p, encoded_size true (prepared c' p) (out_limit c') = Panic →
            codec_encode true c' p dst = (Panic, dst)).
  { intros p Hp. unfold codec_encode. rewrite Hp. by apply bind_panic. }
  split.
  - intros Hm11. repeat split; intros a; apply Henc; unfold prepared;
      destruct (contains _ _); by apply Hack.
  - intros a Ha Hlen. apply Henc.
    assert (Hs : ∀ us r, subscribe_ack_encoded_size true
              (mkSubscribeAck (sa_packet_id a) us r (sa_status a)) (out_limit c') = Panic).
    { intros us r. unfold subscribe_ack_encoded_size, u32_sub, mbind, outcome_bind. cbn [sa_status].
      rewrite (proj2 (Z.ltb_ge _ _)) by lia.
      destruct (Z.leb_spec 2 (out_limit c')); [|done]. by rewrite (proj2 (Z.leb_gt _ _)) by lia. }
    unfold prepared. destruct (contains _ _); [apply Hs|]. destruct a. apply Hs.
Qed.

Lemma v5_small_limit_witness :
  (∀ a, codec_encode true (set_max_outbound_size codec_default 10) (V5PublishAck a) [] = (Panic, [])) ∧
  codec_encode true (set_max_outbound_size codec_default 10)
    (V5SubscribeAck (mkSubscribeAck 1 [] None [SAGrantedQos0; SAGrantedQos0; SAGrantedQos0; SAGrantedQos0]))
    [] = (Panic, []).
Proof.
  destruct (v5_small_limit codec_default 10 [] ltac:(lia)) as [H1 H2]. split.
  - apply H1. lia.
  - apply H2; by vm_compute.
Defined.
