(* ===== verification/Codec.v ===== *)
(** * The codec of a connection

    Models [MqttCodec] and [MqttPacket] of [ferromq-codec/src/lib.rs]: a
    connection starts by detecting its protocol version and goes on with the
    codec of that version. *)

From stdpp Require Import base list numbers option.
From Stdlib Require Import ZArith Lia.
From S2P Require Import Prelude Errors Wire CodecTypes Framing MqttV3 Version PropsV5 PacketV5 EncodeV5 BodyV5 RoundV5 SafeV5 MqttV5.

#[local] Open Scope Z_scope.

Inductive MqttCodec : Type :=
| CodecV3 (codec : MqttV3.Codec)
| CodecV5 (codec : MqttV5.Codec)
| CodecVersion.

Inductive MqttPacket : Type :=
| PacketV3 (p : MqttV3.Packet)
| PacketV5 (p : PacketV5.Packet)
| PacketVersion (v : ProtocolVersion).

Definition mqtt_encode (checks : bool) (self : MqttCodec) (item : MqttPacket) : writer :=
  match self with
  | CodecV3 _ =>
      match item with PacketV3 p => MqttV3.codec_encode p | _ => err EncMalformedPacket end
  | CodecV5 codec =>
      match item with PacketV5 p => MqttV5.codec_encode checks codec p | _ => err EncMalformedPacket end
  | CodecVersion => err EncUnsupportedVersion
  end.

(** [Option::map] on what a codec delivers, with the codec put back. *)
Definition delivered {P C} (f : P → MqttPacket) (g : C → MqttCodec)
    (x : outcome DecodeError (option (P * Z)) * (C * bytes))
    : outcome DecodeError (option (MqttPacket * Z)) * (MqttCodec * bytes) :=
  let '(r, (c, src)) := x in
  (outcome_map (fmap (λ '(p, remaining), (f p, remaining))) r, (g c, src)).

Definition mqtt_decode (self : MqttCodec) (src : bytes)
    : outcome DecodeError (option (MqttPacket * Z)) * (MqttCodec * bytes) :=
  match self with
  | CodecV3 codec => delivered PacketV3 CodecV3 (MqttV3.codec_decode codec src)
  | CodecV5 codec => delivered PacketV5 CodecV5 (MqttV5.codec_decode codec src)
  | CodecVersion => 
      (outcome_map (fmap (λ v, (PacketVersion v, 0))) (version_decode src), (CodecVersion, src))
  end.

(** ** Connecting *)

Lemma is_mqtt_inv n s s' : is_mqtt n s = (Ok true, s') → n = 4 ∧ s' = s ∧ ∃ rest, s = MQTT ++ rest.
Proof.
  unfold is_mqtt. destruct (Z.eqb_spec n 4); [|done]. destruct (4 <=? len s); [|done].
  intros H. injection H as Hb <-. apply bool_decide_eq_true in Hb. split; [done|]. split; [done|].
  exists (drop 4 s). by rewrite <-Hb, take_drop.
Qed.

(** A body that either decoder takes for a CONNECT names its protocol and level. *)
Lemma v5_connect_shape body c r : bytes_ok body →
  connect_decode body = (Ok c, r) →
  ∃ rest, body = be16 (len MQTT) ++ MQTT ++ MQTT_LEVEL_5 :: rest.
Proof.
  intros Hok H. unfold connect_decode in H.
  bind_inv H. unfold remaining in Hb. simplify_eq.
  bind_inv H. apply ensure_ok_inv in Hb as [_ ->].
  bind_inv H. apply get_u16_inv in Hb as ->; [|done].
  bind_inv H. rename a0 into same. rename Hb into Hm.
  bind_inv H. apply ensure_ok_inv in Hb as [-> ->].
  apply is_mqtt_inv in Hm as (-> & -> & rest & ->).
  bind_inv H. rewrite skip_mqtt in Hb. simplify_eq.
  bind_inv H. apply get_u8_inv in Hb as ->.
  bind_inv H. apply ensure_ok_inv in Hb as [->%Z.eqb_eq _].
  by eexists.
Qed.

Lemma packet_of_connect body c :
  (PacketV5.decode_packet CONNECT body).1 = Ok (V5Connect c) → ∃ r, connect_decode body = (Ok c, r).
Proof.
  change (PacketV5.decode_packet CONNECT) with (packet_of V5Connect connect_decode).
  unfold packet_of, mbind, M_bind. destruct (connect_decode body) as [[c'| |] r]; simpl; intros; simplify_eq.
  by eexists.
Qed.

Lemma v5_version body c rest :
  bytes_ok body → len body ≤ VARINT_MAX →
  (PacketV5.decode_packet CONNECT body).1 = Ok (V5Connect c) →
  version_decode (CONNECT :: varint (len body) ++ body ++ rest) = Ok (Some MQTT5).
Proof.
  intros Hok Hlen [r Hc]%packet_of_connect.
  apply v5_connect_shape in Hc as (rest' & Hbody); [|done].
  pose proof (len_nonneg body).
  assert (Hd := version_decode_connect (len body) MQTT MQTT_LEVEL_5 (rest' ++ rest) ltac:(lia)
                  (or_introl eq_refl)).
  rewrite Hbody at 2. rewrite <-!app_assoc. cbn [app]. by rewrite Hd.
Qed.

(** The MQTT 5 handshake.  On a buffer that starts with a CONNECT frame the
    MQTT 5 decoder accepts, version detection answers MQTT 5 without touching
    the buffer, whatever follows; the MQTT 5 codec then takes exactly that
    frame off the same buffer and delivers the CONNECT, with the client's wish
    about problem information noted; the MQTT 3 codec would have refused it. *)
Theorem v5_handshake max_in max_out body c rest :
  bytes_ok body → len body ≤ VARINT_MAX → max_in = 0 ∨ len body ≤ max_in →
  (PacketV5.decode_packet CONNECT body).1 = Ok (V5Connect c) →
  let src := CONNECT :: varint (len body) ++ body ++ rest in
  mqtt_decode CodecVersion src = (Ok (Some (PacketVersion MQTT5, 0)), (CodecVersion, src)) ∧
  mqtt_decode (CodecV5 (MqttV5.codec_new max_in max_out)) src =
    (Ok (Some (PacketV5 (V5Connect c), len body)),
     (CodecV5 (MqttV5.mkCodec FrameHeader max_in max_out
                 (if c_request_problem_info c then 0 else NO_PROBLEM_INFO)), rest)) ∧
  ∀ c3, (MqttV3.decode_packet CONNECT body).1 ≠ Ok (PConnect c3).
Proof.
  intros Hok Hlen Hin Hdec src. pose proof (len_nonneg body). split; [|split].
  - unfold mqtt_decode, src. by rewrite (v5_version body c rest).
  - unfold mqtt_decode, MqttV5.codec_decode, src.
    cbn [MqttV5.state MqttV5.max_in_size MqttV5.codec_new].
    rewrite (frame_decode_one _ _ CONNECT body (V5Connect c) rest) by first [lia | done].
    unfold delivered, MqttV5.flags_set. by destruct (c_request_problem_info c).
  - intros c3 H3. apply packet_of_connect in Hdec as [r Hc].
    apply v5_connect_shape in Hc as (rest5 & H5); [|done].
    change (MqttV3.decode_packet CONNECT body) with (decode_connect_packet body) in H3.
    destruct (decode_connect_packet body) as [o r3] eqn:E3. simpl in H3. subst o.
    apply v3_connect_shape in E3 as (name & lv & rest3 & Hname & Hlv & H3); [|done].
    rewrite H5 in H3. destruct Hname as [-> | ->]; [|done]. simplify_eq. by destruct Hlv.
Qed.

Definition v5_connect_body : bytes := [0; 4; 77; 81; 84; 84; 5; 2; 0; 60; 2; 23; 0; 0; 1; 97].

Lemma v5_handshake_witness :
  let src := CONNECT :: varint (len v5_connect_body) ++ v5_connect_body ++ [192; 0] in
  mqtt_decode CodecVersion src = (Ok (Some (PacketVersion MQTT5, 0)), (CodecVersion, src)) ∧
  mqtt_decode (CodecV5 (MqttV5.codec_new 0 0)) src =
    (Ok (Some (PacketV5 (V5Connect MqttV5.example_connect), 16)),
     (CodecV5 (MqttV5.mkCodec FrameHeader 0 0 NO_PROBLEM_INFO), [192; 0])) ∧
  ∀ c3, (MqttV3.decode_packet CONNECT v5_connect_body).1 ≠ Ok (PConnect c3).
Proof.
  apply (v5_handshake 0 0 v5_connect_body MqttV5.example_connect [192; 0]).
  - repeat constructor; vm_compute; congruence.
  - by vm_compute.
  - by left.
  - reflexivity.
Defined.
