(* ===== verification/Topic.v ===== *)
(** * Topics and topic filters

    Models [ferromq/src/topic.rs]: the levels of a topic, parsing and printing,
    validation, and the two instances of the [matches!] macro ([Topic::matches]
    on parsed topics and [Topic::matches_str] on strings).  A [str] is its
    UTF-8 bytes; the characters the code looks for are ASCII, so splitting and
    searching bytes is splitting and searching characters. *)

From stdpp Require Import base list numbers option countable strings.
From Stdlib Require Import ZArith Lia.
From S2P Require Import Prelude.

#[local] Open Scope Z_scope.

Abbreviation str := (list Z).

(** The bytes of a literal. *)
Definition lit (s : string) : str :=
  map (λ a, Z.of_N (Ascii.N_of_ascii a)) (String.list_ascii_of_string s).

Definition SLASH : Z := 47.
Definition PLUS : Z := 43.
Definition HASH : Z := 35.
Definition DOLLAR : Z := 36.

(** ** Strings *)

(** [s.split('/')]: at least one piece. *)
Fixpoint split (sep : Z) (s : str) : list str :=
  match s with
  | [] => [[]]
  | c :: s =>
      if c =? sep then [] :: split sep s
      else match split sep s with p :: ps => (c :: p) :: ps | [] => [[c]] end
  end.

(** [pieces.join("/")] *)
Fixpoint join (sep : Z) (pieces : list str) : str :=
  match pieces with
  | [] => []
  | [p] => p
  | p :: ps => p ++ sep :: join sep ps
  end.

Definition starts_with (s : str) (c : Z) : bool :=
  match s with c' :: _ => c' =? c | [] => false end.

(** [s.contains(['+', '#'])] *)
Definition contains_wildcard (s : str) : bool :=
  existsb (λ c, (c =? PLUS) || (c =? HASH)) s.

Definition is_metadata (s : str) : bool := starts_with s DOLLAR.

(** ** Levels *)

Inductive TopicError : Type :=
| InvalidTopic (s : str)
| InvalidLevel (s : str).

Inductive Level : Type :=
| Normal (s : str)
| Metadata (s : str)
| Blank
| SingleWildcard
| MultiWildcard.

#[export] Instance Level_eq_dec : EqDecision Level.
Proof. solve_decision. Defined.

#[export] Instance Level_countable : Countable Level.
Proof.
  refine (inj_countable'
    (λ l, match l with
          | Normal s => inl s
          | Metadata s => inr (inl s)
          | Blank => inr (inr 0%nat)
          | SingleWildcard => inr (inr 1%nat)
          | MultiWildcard => inr (inr 2%nat)
          end)
    (λ x, match x with
          | inl s => Normal s
          | inr (inl s) => Metadata s
          | inr (inr 0%nat) => Blank
          | inr (inr 1%nat) => SingleWildcard
          | inr (inr _) => MultiWildcard
          end) _).
  by intros [].
Defined.

Definition invalid_level (what s why : str) : TopicError :=
  InvalidLevel (lit "invalid " ++ what ++ lit "level `" ++ s ++ lit "` " ++ why).

(** [Level::normal] and [Level::metadata] *)
Definition normal (s : str) : outcome TopicError Level :=
  if contains_wildcard s then Err (invalid_level (lit "normal ") s (lit "contains +|#"))
  else if starts_with s DOLLAR then Err (invalid_level (lit "normal ") s (lit "starts with $"))
  else Ok (Normal s).

Definition metadata (s : str) : outcome TopicError Level :=
  if contains_wildcard s then Err (invalid_level (lit "metadata ") s (lit "contains +|#"))
  else if negb (starts_with s DOLLAR)
  then Err (invalid_level (lit "metadata ") s (lit "not starts with $"))
  else Ok (Metadata s).

(** [Level::value], [Level::is_normal], [Level::is_metadata], [Level::is_valid] *)
Definition value (l : Level) : option str :=
  match l with Normal s | Metadata s => Some s | _ => None end.

Definition level_is_normal (l : Level) : bool :=
  match l with Normal _ => true | _ => false end.

Definition level_is_metadata (l : Level) : bool :=
  match l with Metadata _ => true | _ => false end.

Definition level_is_valid (l : Level) : bool :=
  match l with
  | Normal s => negb (starts_with s DOLLAR) && negb (contains_wildcard s)
  | Metadata s => starts_with s DOLLAR && negb (contains_wildcard s)
  | _ => true
  end.

(** [FromStr for Level] *)
Definition level_from_str (s : str) : outcome TopicError Level :=
  if bool_decide (s = [PLUS]) then Ok SingleWildcard
  else if bool_decide (s = [HASH]) then Ok MultiWildcard
  else if bool_decide (s = []) then Ok Blank
  else if contains_wildcard s then Err (invalid_level [] s (lit "contains +|#"))
  else if is_metadata s then Ok (Metadata s)
  else Ok (Normal s).

(** [Level::parse] *)
Definition level_parse (s : str) : outcome TopicError Level := level_from_str s.

(** [Display for Level] *)
Definition level_to_string (l : Level) : str :=
  match l with
  | Normal s | Metadata s => s
  | Blank => []
  | SingleWildcard => [PLUS]
  | MultiWildcard => [HASH]
  end.

(** ** Topics *)

Definition Topic : Type := list Level.

(** [Topic::is_valid]: the first search is for a level that is not valid on its
    own, the second for a level in the wrong position. *)
Definition misplaced (n pos : nat) (l : Level) : bool :=
  match l with
  | MultiWildcard => negb (Nat.eqb pos (n - 1))
  | Metadata _ => negb (Nat.eqb pos 0)
  | _ => false
  end.

(** [iter().enumerate().position(f)] *)
Fixpoint position {A} (f : nat → A → bool) (pos : nat) (xs : list A) : option nat :=
  match xs with
  | [] => None
  | x :: xs => if f pos x then Some pos else position f (S pos) xs
  end.

Definition topic_is_valid (t : Topic) : bool :=
  negb (is_some
    (match position (λ _ l, negb (level_is_valid l)) 0 t with
     | Some i => Some i
     | None => position (misplaced (length t)) 0 t
     end)).

(** [FromStr for Topic] *)
Definition topic_from_str (s : str) : outcome TopicError Topic :=
  match map_results level_from_str (split SLASH s) with
  | Ok t => if topic_is_valid t then Ok t
            else Err (InvalidTopic (lit "invalid topic `" ++ s ++ lit "`"))
  | Err e => Err e
  | Panic => Panic
  end.

(** [Display for Topic]: a slash before every level but the first. *)
Fixpoint display_levels (first : bool) (t : Topic) : str :=
  match t with
  | [] => []
  | l :: t =>
      (if first then [] else [SLASH]) ++ level_to_string l ++ display_levels false t
  end.

Definition topic_to_string (t : Topic) : str := display_levels true t.

(** [Topic::to_string_skip] *)
Definition to_string_skip (t : Topic) (skip : nat) : str :=
  join SLASH (map level_to_string (drop skip t)).

(** [WriteTopicExt] over a growing buffer: the number of bytes written. *)
Definition write_slice (b : str) : M str TopicError Z := λ out, (Ok (len b), out ++ b).

Definition write_level (l : Level) : M str TopicError Z :=
  match l with
  | Normal s | Metadata s => write_slice s
  | Blank => mret 0
  | SingleWildcard => write_slice [PLUS]
  | MultiWildcard => write_slice [HASH]
  end.

Fixpoint write_levels (first : bool) (n : Z) (t : Topic) : M str TopicError Z :=
  match t with
  | [] => mret n
  | l :: t =>
      (if first then mret n else write_slice [SLASH] ≫= λ k : Z, mret (n + k)) ≫= λ n : Z,
      write_level l ≫= λ k : Z, write_levels false (n + k) t
  end.

Definition write_topic (t : Topic) : M str TopicError Z := write_levels true 0 t.

(** ** Matching *)

(** [trait MatchLevel] and its two implementations. *)
Class MatchLevel (R : Type) := match_level : R → Level → bool.

#[export] Instance Level_match_level : MatchLevel Level := λ self level,
  match level with
  | Normal lhs => match self with Normal rhs => bool_decide (lhs = rhs) | _ => false end
  | Metadata lhs => match self with Metadata rhs => bool_decide (lhs = rhs) | _ => false end
  | Blank => true
  | SingleWildcard | MultiWildcard => negb (level_is_metadata self)
  end.

#[export] Instance str_match_level : MatchLevel str := λ self level,
  match level with
  | Normal lhs => negb (is_metadata self) && bool_decide (lhs = self)
  | Metadata lhs => is_metadata self && bool_decide (lhs = self)
  | Blank => bool_decide (self = [])
  | SingleWildcard | MultiWildcard => negb (is_metadata self)
  end.

(** The [match lhs.next()] after the loop of [matches!]. *)
Definition match_end (lhs : list Level) : bool :=
  match lhs with MultiWildcard :: _ => true | _ :: _ => false | [] => true end.

(** The loop of [matches!] over the levels of the right-hand side; [break]
    leaves it for [match_end] with the filter advanced by one level. *)
Fixpoint match_loop {R} `{!MatchLevel R} (lhs : list Level) (levels : list R)
    {struct levels} : bool :=
  match levels with
  | [] => match_end lhs
  | rhs :: levels =>
      match lhs with
      | SingleWildcard :: lhs =>
          if negb (match_level rhs SingleWildcard) then match_end lhs
          else match_loop lhs levels
      | MultiWildcard :: _ => match_level rhs MultiWildcard
      | level :: lhs => if match_level rhs level then match_loop lhs levels else false
      | [] => false
      end
  end.

(** [Topic::matches] and [Topic::matches_str] *)
Definition topic_matches (t topic : Topic) : bool := match_loop t topic.
Definition matches_str (t : Topic) (topic : str) : bool := match_loop t (split SLASH topic).

Example parse_1 : topic_from_str (lit "sport/+/#") =
  Ok [Normal (lit "sport"); SingleWildcard; MultiWildcard].
Proof. reflexivity. Qed.
Example parse_2 : is_ok (topic_from_str (lit "sport/$SYS")) = false.
Proof. reflexivity. Qed.
Example matches_1 : matches_str [Normal (lit "sport"); MultiWildcard] (lit "sport") = true.
Proof. reflexivity. Qed.

(** ** Splitting and joining *)

Lemma split_not_nil sep s : split sep s ≠ [].
Proof. destruct s as [|c s]; simpl; [done|]. repeat case_match; done. Qed.

Lemma join_cons sep p ps : ps ≠ [] → join sep (p :: ps) = p ++ sep :: join sep ps.
Proof. by destruct ps. Qed.

Lemma join_split sep s : join sep (split sep s) = s.
Proof.
  induction s as [|c s IH]; [done|]. simpl.
  pose proof (split_not_nil sep s) as Hn. destruct (Z.eqb_spec c sep) as [->|].
  - rewrite join_cons by done. by rewrite IH.
  - destruct (split sep s) as [|p ps]; [done|]. rewrite <-IH.
    by destruct ps.
Qed.

Lemma split_pieces sep s : Forall (λ p, sep ∉ p) (split sep s).
Proof.
  induction s as [|c s IH]; simpl; [by repeat constructor; apply not_elem_of_nil|].
  destruct (Z.eqb_spec c sep) as [->|Hc].
  - constructor; [apply not_elem_of_nil|done].
  - pose proof (split_not_nil sep s). destruct (split sep s) as [|p ps]; [done|].
    apply Forall_cons_iff in IH as [? ?].
    constructor; [|done]. rewrite not_elem_of_cons. split; [congruence|done].
Qed.

Lemma split_piece sep p : sep ∉ p → split sep p = [p].
Proof.
  induction p as [|c p IH]; [done|]. intros [Hc Hp]%not_elem_of_cons. simpl.
  destruct (Z.eqb_spec c sep); [congruence|]. by rewrite IH.
Qed.

Lemma split_app sep p s : sep ∉ p → split sep (p ++ sep :: s) = p :: split sep s.
Proof.
  induction p as [|c p IH]; simpl; [by rewrite Z.eqb_refl|].
  intros [Hc Hp]%not_elem_of_cons. destruct (Z.eqb_spec c sep); [congruence|].
  by rewrite IH.
Qed.

Lemma split_join sep ps : ps ≠ [] → Forall (λ p, sep ∉ p) ps → split sep (join sep ps) = ps.
Proof.
  intros Hne Hps. induction Hps as [|p ps Hp Hps IH]; [done|].
  destruct ps as [|q ps]; [by apply split_piece|].
  rewrite join_cons by done. rewrite split_app by done. by rewrite IH.
Qed.

(** ** Levels: parsing and printing *)

(** The levels that are written in one way only: an empty [Normal] prints like
    [Blank]. *)
Definition level_canon (l : Level) : Prop := level_is_valid l = true ∧ l ≠ Normal [].

Lemma level_from_str_spec s l :
  level_from_str s = Ok l ↔ level_canon l ∧ level_to_string l = s.
Proof.
  unfold level_from_str, level_canon. split.
  - repeat case_bool_decide; subst; try (intros [= <-]; by repeat split).
    destruct (contains_wildcard s) eqn:Hw; [done|].
    destruct (is_metadata s) eqn:Hm; intros [= <-]; simpl; unfold is_metadata in Hm;
      rewrite Hm, Hw; repeat split; congruence.
  - intros [[Hv Hne] <-]. destruct l as [s|s| | |]; simpl in *; try done;
      apply andb_true_iff in Hv as [H1 H2]; rewrite negb_true_iff in H2.
    + apply negb_true_iff in H1. unfold is_metadata.
      rewrite !bool_decide_false; [by rewrite H2, H1|congruence|by intros ->..].
    + unfold is_metadata. rewrite !bool_decide_false; [by rewrite H2, H1|by intros ->..].
Qed.

(** Canonical levels that print alike are the same. *)
Lemma level_to_string_inj l x :
  level_canon l → level_canon x → level_to_string l = level_to_string x → l = x.
Proof.
  intros Hl Hx Heq.
  pose proof (proj2 (level_from_str_spec _ l) (conj Hl eq_refl)) as H1.
  pose proof (proj2 (level_from_str_spec _ x) (conj Hx eq_refl)) as H2.
  rewrite Heq, H2 in H1. congruence.
Qed.

Lemma level_from_str_no_panic s : level_from_str s ≠ Panic.
Proof. unfold level_from_str. by repeat case_match. Qed.

(** ** Validity *)

Lemma position_None {A} (f : nat → A → bool) k xs :
  position f k xs = None ↔ ∀ i x, xs !! i = Some x → f (k + i)%nat x = false.
Proof.
  revert k. induction xs as [|y xs IH]; intros k; simpl; [done|].
  destruct (f k y) eqn:Hy; split.
  - done.
  - intros H. specialize (H 0%nat y eq_refl). rewrite Nat.add_0_r in H. congruence.
  - rewrite IH. intros H [|i] x Hi; simpl in Hi; simplify_eq.
    + by rewrite Nat.add_0_r.
    + rewrite Nat.add_succ_r. by apply H.
  - rewrite IH. intros H i x Hi. specialize (H (S i) x Hi). by rewrite Nat.add_succ_r in H.
Qed.

(** What [Topic::is_valid] decides, in the words of its documentation. *)
Definition placed (t : Topic) : Prop :=
  (∀ i, t !! i = Some MultiWildcard → S i = length t) ∧
  (∀ i s, t !! i = Some (Metadata s) → i = 0%nat).

Lemma topic_is_valid_spec t :
  topic_is_valid t = true ↔ Forall (λ l, level_is_valid l = true) t ∧ placed t.
Proof.
  unfold topic_is_valid.
  assert (Hlv : position (λ _ l, negb (level_is_valid l)) 0 t = None ↔
                Forall (λ l, level_is_valid l = true) t).
  { rewrite position_None, Forall_lookup. split; intros H i l Hi.
    - apply H in Hi. by apply negb_false_iff.
    - apply negb_false_iff. by eapply H. }
  assert (Hpl : position (misplaced (length t)) 0 t = None ↔ placed t).
  { rewrite position_None. unfold placed. split.
    - intros H. split; [intros i Hi|intros i s Hi]; pose proof (lookup_lt_Some _ _ _ Hi);
        apply H in Hi; simpl in Hi; apply negb_false_iff, Nat.eqb_eq in Hi; lia.
    - intros [H1 H2] i l Hi. destruct l; simpl; try done; apply negb_false_iff, Nat.eqb_eq.
      + by eapply H2.
      + apply H1 in Hi. lia. }
  rewrite <-Hlv, <-Hpl. destruct (position (λ _ l, _) 0 t); simpl.
  { by split; [|intros [? ?]]. }
  by destruct (position (misplaced _) 0 t); simpl; split; [|intros [? ?]| |].
Qed.

Lemma topic_to_string_join t : topic_to_string t = join SLASH (map level_to_string t).
Proof.
  destruct t as [|l t]; [done|]. unfold topic_to_string. simpl.
  revert l. induction t as [|l' t IH]; intros l; simpl; [by rewrite app_nil_r|].
  f_equal. f_equal. by rewrite IH.
Qed.

(** The topics that parsing produces. *)
Definition topic_canon (t : Topic) : Prop :=
  t ≠ [] ∧ Forall (λ l, level_canon l ∧ SLASH ∉ level_to_string l) t ∧ placed t.

Lemma Forall2_from_str ps t :
  Forall2 (λ p l, level_from_str p = Ok l) ps t ↔
  Forall level_canon t ∧ map level_to_string t = ps.
Proof.
  split.
  - intros H. induction H as [|p l ps t Hp _ [IH1 IH2]]; [by repeat constructor|].
    apply level_from_str_spec in Hp as [? <-]. simpl. rewrite IH2. split; [by constructor|done].
  - intros [H <-]. induction H as [|l t Hl _ IH]; simpl; constructor; [|done].
    by apply level_from_str_spec.
Qed.

(** Parsing accepts exactly the printed forms of the canonical topics. *)
Lemma topic_from_str_spec s t :
  topic_from_str s = Ok t ↔ topic_canon t ∧ topic_to_string t = s.
Proof.
  rewrite topic_to_string_join. unfold topic_from_str, topic_canon. split.
  - destruct (map_results _ _) as [t'| |] eqn:Hm; [|done..].
    apply map_results_ok, Forall2_from_str in Hm as [Hc Hs].
    destruct (topic_is_valid t') eqn:Hv; [|done]. intros [= ->].
    apply topic_is_valid_spec in Hv as [_ Hp]. split; [split; [|split; [|done]]|].
    + intros ->. by destruct (split_not_nil SLASH s).
    + pose proof (split_pieces SLASH s) as Hf. rewrite <-Hs in Hf.
      rewrite Forall_map in Hf. apply Forall_and. by split.
    + by rewrite Hs, join_split.
  - intros [(Hne & Hall & Hp) <-]. apply Forall_and in Hall as [Hc Hs].
    rewrite split_join; [|by destruct t|by rewrite Forall_map].
    replace (map_results level_from_str (map level_to_string t))
      with (Ok t : outcome TopicError Topic).
    2:{ symmetry. apply map_results_ok, Forall2_from_str. by split. }
    rewrite (proj2 (topic_is_valid_spec t)); [done|]. split; [|done].
    eapply Forall_impl; [exact Hc|]. by intros l [? _].
Qed.

Lemma topic_from_str_no_panic s : topic_from_str s ≠ Panic.
Proof.
  unfold topic_from_str. pose proof (map_results_no_panic level_from_str (split SLASH s)
    level_from_str_no_panic). repeat case_match; done.
Qed.

(** ** Writing *)

Lemma write_levels_spec first n t out :
  write_levels first n t out =
  (Ok (n + len (display_levels first t)), out ++ display_levels first t).
Proof.
  revert first n out. induction t as [|l t IH]; intros first n out; simpl.
  { rewrite len_nil, Z.add_0_r, app_nil_r. done. }
  set (pre := if first then [] else [SLASH]).
  rewrite (bind_ok _ _ _ (n + len pre) (out ++ pre)).
  2:{ unfold pre. destruct first; [|done]. by rewrite len_nil, Z.add_0_r, app_nil_r. }
  rewrite (bind_ok _ _ _ (len (level_to_string l)) ((out ++ pre) ++ level_to_string l)).
  2:{ destruct l; try done. simpl. by rewrite app_nil_r. }
  rewrite IH. rewrite <-!app_assoc, !len_app. do 2 f_equal. lia.
Qed.

(** ** Matching against the specification

    The matching rules of the MQTT specification (section 4.7) on the levels of
    a topic name: [+] stands for one level, a final [#] for any number of them
    (the parent included), every other level for itself; and a filter that
    starts with a wildcard does not match a topic that starts with [$]. *)
Fixpoint filter_matches (f : list Level) (t : list str) : bool :=
  match f, t with
  | [MultiWildcard], _ => true
  | [], [] => true
  | SingleWildcard :: f, _ :: t => filter_matches f t
  | l :: f, x :: t => bool_decide (level_to_string l = x) && filter_matches f t
  | _, _ => false
  end.

Definition is_wildcard (l : Level) : bool :=
  match l with SingleWildcard | MultiWildcard => true | _ => false end.

Definition mqtt_matches (f : list Level) (t : list str) : bool :=
  match f, t with
  | l :: _, x :: _ => negb (is_wildcard l && is_metadata x) && filter_matches f t
  | _, _ => filter_matches f t
  end.

Lemma placed_cons l t : placed (l :: t) →
  (l = MultiWildcard → t = []) ∧ placed t ∧ Forall (λ l, level_is_metadata l = false) t.
Proof.
  intros [H1 H2]. split; [|split; [split|]].
  - intros ->. specialize (H1 0%nat eq_refl). by destruct t.
  - intros i Hi. specialize (H1 (S i) Hi). simpl in H1. lia.
  - intros i s Hi. by specialize (H2 (S i) s Hi).
  - apply Forall_lookup. intros i l' Hi. destruct l'; try done.
    by specialize (H2 (S i) _ Hi).
Qed.

Lemma match_end_placed f : placed f → match_end f = filter_matches f [].
Proof.
  destruct f as [|l f]; [done|]. intros [Hm _]%placed_cons.
  destruct l; simpl; destruct f; try done. by specialize (Hm eq_refl).
Qed.

(** A level that is not a wildcard matches the string it prints to. *)
Lemma str_match_literal l x :
  level_is_valid l = true → is_wildcard l = false →
  match_level x l = bool_decide (level_to_string l = x).
Proof.
  unfold match_level, str_match_level, is_metadata.
  destruct l as [s|s| | |]; simpl; intros Hv Hw; try done;
    [apply andb_true_iff in Hv as [Hd _]..|].
  - apply negb_true_iff in Hd.
    destruct (decide (s = x)) as [->|]; [by rewrite Hd|].
    by rewrite bool_decide_false, andb_false_r.
  - destruct (decide (s = x)) as [->|]; [by rewrite Hd|].
    by rewrite bool_decide_false, andb_false_r.
  - apply bool_decide_ext. naive_solver.
Qed.

Lemma match_loop_filter f levels :
  Forall (λ l, level_is_valid l = true) f → placed f →
  Forall (λ x, is_metadata x = false) levels →
  match_loop f levels = filter_matches f levels.
Proof.
  revert f. induction levels as [|x levels IH]; intros f Hv Hp Hx; cbn [match_loop].
  { by apply match_end_placed. }
  destruct f as [|l f]; [done|].
  apply Forall_cons_iff in Hv as [Hl Hv], Hx as [Hx Hxs]. apply placed_cons in Hp as (Hm & Hp & _).
  destruct (is_wildcard l) eqn:Hw.
  - destruct l; try done.
    + unfold match_level at 1, str_match_level. rewrite Hx. simpl. by apply IH.
    + rewrite Hm by done. unfold match_level, str_match_level. by rewrite Hx.
  - pose proof (str_match_literal l x Hl Hw) as Hlit. specialize (IH f Hv Hp Hxs).
    destruct l; try done; rewrite Hlit, IH; simpl; by destruct (bool_decide _).
Qed.

Lemma matches_str_exact f s :
  topic_is_valid f = true →
  Forall (λ x, is_metadata x = false) (tail (split SLASH s)) →
  matches_str f s =
    if is_metadata s && bool_decide (head f = Some SingleWildcard)
    then bool_decide (tail f = [] ∨ tail f = [MultiWildcard])
    else mqtt_matches f (split SLASH s).
Proof.
  intros [Hv Hp]%topic_is_valid_spec Hs. unfold matches_str.
  assert (Hm : is_metadata s = match split SLASH s with x :: _ => is_metadata x | [] => false end).
  { rewrite <-(join_split SLASH s) at 1. destruct (split SLASH s) as [|x [|y xs]]; [done|done|].
    rewrite join_cons by done. destruct x; [done|]. done. }
  rewrite Hm. clear Hm. destruct (split SLASH s) as [|x xs] eqn:Hsplit.
  { by destruct (split_not_nil SLASH s). }
  simpl in Hs. destruct f as [|l f]; [by rewrite andb_false_r|].
  destruct (is_metadata x) eqn:Hx.
  2:{ cbn [andb]. rewrite match_loop_filter by (done || by constructor).
      unfold mqtt_matches. by rewrite Hx, andb_false_r. }
  apply Forall_cons_iff in Hv as [Hl Hv]. pose proof (placed_cons _ _ Hp) as (Hlast & Hpf & _).
  cbn [head tail]. unfold mqtt_matches. rewrite Hx.
  pose proof (str_match_literal l x Hl) as Hlit.
  pose proof (match_loop_filter f xs Hv Hpf Hs) as Hrec. cbn [match_loop].
  destruct l; cbn [is_wildcard andb negb] in *.
  4:{ unfold match_level, str_match_level. rewrite Hx. rewrite bool_decide_true by done. simpl.
      rewrite match_end_placed by done. destruct f as [|l' f]; [done|].
      destruct l'; try (by rewrite bool_decide_false by by intros [|]).
      apply placed_cons in Hpf as [Hf _]. by rewrite Hf, bool_decide_true by auto. }
  4:{ rewrite bool_decide_false by done. unfold match_level, str_match_level. by rewrite Hx. }
  all: rewrite bool_decide_false, Hlit, Hrec by done; cbn [andb]; simpl;
       by destruct (bool_decide (_ = x)).
Qed.

(** [matches_str] against the MQTT rules, exactly.  For a filter that passes
    [Topic::is_valid] and a topic name in which only the first level may start
    with [$], the code decides the specification in every case but one: a filter
    that starts with [+] matches a [$] topic as soon as nothing or only [#]
    follows the [+], where the specification says it matches none. *)
Theorem matches_str_spec f s :
  topic_is_valid f = true →
  Forall (λ x, is_metadata x = false) (tail (split SLASH s)) →
  matches_str f s =
    if is_metadata s && bool_decide (head f = Some SingleWildcard)
    then bool_decide (tail f = [] ∨ tail f = [MultiWildcard])
    else mqtt_matches f (split SLASH s).
Proof. apply matches_str_exact. Qed.

Lemma matches_str_spec_witness :
  matches_str [SingleWildcard] (lit "$SYS/x") = true ∧
  mqtt_matches [SingleWildcard] (split SLASH (lit "$SYS/x")) = false.
Proof.
  split; [|reflexivity].
  rewrite (matches_str_spec [SingleWildcard] (lit "$SYS/x")).
  - reflexivity.
  - reflexivity.
  - repeat constructor.
Defined.

(** What writing a topic does.  [write_topic] on a growing buffer appends
    exactly the printed topic and returns the number of bytes it appended; and
    skipping no level prints the topic. *)
Theorem write_topic_spec t out :
  write_topic t out = (Ok (len (topic_to_string t)), out ++ topic_to_string t) ∧
  to_string_skip t 0 = topic_to_string t.
Proof.
  unfold write_topic. rewrite write_levels_spec. split; [done|].
  unfold to_string_skip. by rewrite topic_to_string_join.
Qed.

(** On the level a string parses to, the two implementations of [MatchLevel]
    decide the same for every valid filter level but [Blank]. *)
Lemma match_level_agree l f :
  level_canon l → level_canon f → f ≠ Blank →
  match_level l f = match_level (level_to_string l) f.
Proof.
  unfold match_level, Level_match_level, str_match_level, is_metadata.
  intros [Hl Hne] [Hf Hfe] Hb.
  destruct f as [a|a| | |]; try done; destruct l as [b|b| | |]; simpl in *; try done;
    repeat match goal with
    | H : _ && _ = true |- _ => apply andb_true_iff in H as [? ?]
    | H : negb _ = true |- _ => apply negb_true_iff in H
    end; repeat match goal with H : starts_with _ _ = _ |- _ => rewrite H; clear H end; try done.
  all: symmetry; apply bool_decide_false; intros ->; simpl in *; congruence.
Qed.

(** The two matchers agree.  For a filter and a topic that both come from
    parsing, matching the parsed topic and matching its string are the same when
    the filter has no [Blank] level. *)
Theorem topic_matches_agree f t :
  topic_canon f → Blank ∉ f → topic_canon t →
  topic_matches f t = matches_str f (topic_to_string t).
Proof.
  intros (_ & [Hv _]%Forall_and & _) Hb (Hne & [Hc Hs]%Forall_and & _).
  unfold topic_matches, matches_str.
  rewrite topic_to_string_join, split_join; [|by destruct t|by rewrite Forall_map].
  clear Hne Hs. revert f Hv Hb.
  induction Hc as [|l t Hl _ IH]; intros f Hv Hb; [done|].
  destruct f as [|l' f]; [done|]. apply not_elem_of_cons in Hb as [Hb Hbs].
  apply Forall_cons_iff in Hv as [Hl' Hv]. cbn [match_loop map].
  rewrite <-!(match_level_agree l) by done. by rewrite IH.
Qed.

Lemma topic_matches_agree_witness :
  topic_matches [Normal (lit "a"); MultiWildcard] [Normal (lit "a"); Normal (lit "b")] =
  matches_str [Normal (lit "a"); MultiWildcard] (lit "a/b").
Proof.
  apply (topic_matches_agree [Normal (lit "a"); MultiWildcard] [Normal (lit "a"); Normal (lit "b")]).
  - split; [done|]. split; [repeat constructor; done || (by apply (bool_decide_eq_true_1 _))|].
    split; [intros [|[|[|i]]]|intros [|[|[|i]]] s]; done.
  - by apply (bool_decide_eq_true_1 _).
  - split; [done|]. split; [repeat constructor; done || (by apply (bool_decide_eq_true_1 _))|].
    split; [intros [|[|[|i]]]|intros [|[|[|i]]] s]; done.
Defined.

(** With a [Blank] level they differ: as a parsed topic ["a"] matches the filter
    [""], as a string it does not. *)
Lemma topic_matches_blank :
  topic_matches [Blank] [Normal (lit "a")] = true ∧ matches_str [Blank] (lit "a") = false.
Proof. by split. Qed.

(** Parsing and printing are inverse to each other.  A string parses to a
    topic exactly when the topic is canonical (at least one level, every level
    valid and without a slash, no empty [Normal], [#] only last, [$] levels only
    first) and prints to that string: print after parse is the identity on the
    accepted strings, parse after print on the canonical topics, and nothing
    else is accepted, the rest being errors and never a panic. *)
Theorem topic_from_str_iff s t :
  (topic_from_str s = Ok t ↔ topic_canon t ∧ topic_to_string t = s) ∧
  topic_from_str s ≠ Panic.
Proof. split; [apply topic_from_str_spec|apply topic_from_str_no_panic]. Qed.
