(* ===== verification/Trie.v ===== *)
(** * The subscription tree

    Models [ferromq/src/trie.rs]: the tree of topic filters in which the router
    keeps its subscribers, and the lazy iterator that finds the filters matching
    a topic.  A [BTreeSet] is a finite set that is iterated in ascending order;
    the branches of a node, a [HashMap], are a finite map that the modelled code
    only looks keys up in or sums over. *)

From stdpp Require Import base list numbers option gmap sorting strings.
From Stdlib Require Import ZArith Lia.
From S2P Require Import Prelude Topic.

(** ** Data *)

Inductive Node (V : Type) `{Countable V} : Type :=
| mkNode (values : gset V) (branches : gmap Level (Node V)).
Arguments mkNode {V _ _} values branches.

Section Trie.
Context {V : Type} `{Countable V}.
(** The order of the values, [V : Ord]. *)
Context (le : relation V) `{!∀ x y, Decision (le x y)}.

#[local] Abbreviation node := (Node V).
#[local] Abbreviation Item := ((list Level * list V)%type).

Definition values (n : node) : gset V := let 'mkNode vs _ := n in vs.
Definition branches (n : node) : gmap Level node := let 'mkNode _ bs := n in bs.

(** [Node::default] *)
Definition node_default : node := mkNode ∅ ∅.

(** [v_set.iter().collect()] *)
Definition btree_iter (vs : gset V) : list V := merge_sort le (elements vs).

(** ** Updates *)

(** [_insert]: the code pops the levels off the reversed path; the entry that
    is missing is created.  [BTreeSet::insert] says whether the value is new. *)
Fixpoint _insert (n : node) (path : list Level) (value : V) : bool * node :=
  match path with
  | first :: path =>
      let x := default node_default (branches n !! first) in
      let '(res, x) := _insert x path value in
      (res, mkNode (values n) (<[first := x]> (branches n)))
  | [] => (bool_decide (value ∉ values n), mkNode ({[value]} ∪ values n) (branches n))
  end.

Definition insert (n : node) (topic_filter : Topic) (value : V) : bool * node :=
  _insert n topic_filter value.

(** [x.values.is_empty() && x.branches.is_empty()] *)
Definition node_is_empty (x : node) : bool :=
  bool_decide (values x = ∅) && bool_decide (branches x = ∅).

(** [_remove] *)
Fixpoint _remove (n : node) (path : list Level) (value : V) : bool * node :=
  match path with
  | [] => (bool_decide (value ∈ values n), mkNode (values n ∖ {[value]}) (branches n))
  | t :: path =>
      match branches n !! t with
      | Some x =>
          let '(res, x) := _remove x path value in
          (res, mkNode (values n)
                  (if node_is_empty x then delete t (branches n) else <[t := x]> (branches n)))
      | None => (false, n)
      end
  end.

Definition remove (n : node) (topic_filter : Topic) (value : V) : bool * node :=
  _remove n topic_filter value.

(** [values_size], [nodes_size], [child] *)
Fixpoint values_size (n : node) : nat :=
  match n with
  | mkNode vs bs => size vs + map_fold (λ _ x acc, values_size x + acc) 0 bs
  end.

Fixpoint nodes_size (n : node) : nat :=
  match n with
  | mkNode _ bs => size bs + map_fold (λ _ x acc, nodes_size x + acc) 0 bs
  end.

Definition child (n : node) (l : Level) : option node := branches n !! l.

(** ** The matching iterator *)

Inductive MatchedIter : Type :=
| mkIter (it_node : node) (path : list Level) (sub_path : option (list Level))
         (curr_items : list Item) (sub_iters : list MatchedIter).

Definition it_node (it : MatchedIter) := let 'mkIter n _ _ _ _ := it in n.
Definition it_path (it : MatchedIter) := let 'mkIter _ p _ _ _ := it in p.
Definition it_sub_path (it : MatchedIter) := let 'mkIter _ _ sp _ _ := it in sp.

(** [MatchedIter::new] *)
Definition iter_new (n : node) (path sub_path : list Level) : MatchedIter :=
  mkIter n path (Some sub_path) [] [].

(** Methods on [&mut self]; [Err ()] is the [None] that a [?] returns early. *)
#[local] Abbreviation iterM := (M MatchedIter unit).

(** [self.sub_path.clone()?] and [self.sub_path.as_ref()?] *)
Definition sub_path_clone : iterM (list Level) := λ it,
  match it_sub_path it with Some sp => (Ok sp, it) | None => (Err tt, it) end.

(** [self.sub_path.take()], and with [?] *)
Definition sub_path_take : iterM (option (list Level)) := λ it,
  let 'mkIter n p sp ci si := it in (Ok sp, mkIter n p None ci si).
Definition sub_path_take_q : iterM (list Level) :=
  sub_path_take ≫= λ sp, ok_or sp tt.

(** [add_to_items] *)
Definition add_to_items (levels : list Level) (v_set : gset V) : iterM unit := λ it,
  let 'mkIter n p sp ci si := it in
  (Ok tt, if bool_decide (v_set = ∅) then it
          else mkIter n p sp (ci ++ [(levels, btree_iter v_set)]) si).

(** [self.sub_iters.push(i)] *)
Definition push_iter (i : MatchedIter) : iterM unit := λ it,
  let 'mkIter n p sp ci si := it in (Ok tt, mkIter n p sp ci (si ++ [i])).

(** The item of a [#] branch, when it has values. *)
Definition multi_item (n : node) : iterM unit :=
  match branches n !! MultiWildcard with
  | Some b_node =>
      if bool_decide (values b_node = ∅) then mret tt else
      sub_path_clone ≫= λ sp, add_to_items (sp ++ [MultiWildcard]) (values b_node)
  | None => mret tt
  end.

(** The condition under which the wildcard branches are skipped. *)
Definition isolated (sp : list Level) (first : Level) (n : node) : bool :=
  bool_decide (sp = []) && negb (bool_decide (first = Blank)) && level_is_metadata first
  && (is_some (branches n !! MultiWildcard) || is_some (branches n !! SingleWildcard)).

(** [prepare] *)
Definition prepare : iterM unit := λ it,
  let n := it_node it in
  (match it_path it with
   | [] =>
       multi_item n ;;
       sub_path_take_q ≫= λ sp, add_to_items sp (values n)
   | first :: rest =>
       (sub_path_clone ≫= λ sp,
        if negb (isolated sp first n) then
          multi_item n ;;
          match branches n !! SingleWildcard with
          | Some b_node =>
              sub_path_clone ≫= λ sp, push_iter (iter_new b_node rest (sp ++ [SingleWildcard]))
          | None => mret tt
          end
        else mret tt) ;;
       match branches n !! first with
       | Some b_node =>
           sub_path_take_q ≫= λ sp, push_iter (iter_new b_node rest (sp ++ [first]))
       | None => mret tt
       end
   end ;;
   sub_path_take ≫= λ _, mret tt) it.

(** [Vec::pop] *)
Definition vec_pop {A} (v : list A) : option (A * list A) :=
  match reverse v with x :: r => Some (x, reverse r) | [] => None end.

(** The loop of [next_item] over the sub-iterators, given their [next];
    [None] outside is fuel that ran out. *)
Fixpoint next_sub (next : MatchedIter → option (option Item * MatchedIter))
    (sub_iters : list MatchedIter) : option (option Item * list MatchedIter) :=
  match sub_iters with
  | [] => Some (None, [])
  | s :: rest =>
      '(r, s) ← next s;
      match r with
      | Some item => Some (Some item, s :: rest)
      | None => next_sub next rest
      end
  end.

Definition next_item (next : MatchedIter → option (option Item * MatchedIter))
    (it : MatchedIter) : option (option Item * MatchedIter) :=
  let 'mkIter n p sp ci si := it in
  match vec_pop ci with
  | Some (item, ci) => Some (Some item, mkIter n p sp ci si)
  | None =>
      '(r, si) ← next_sub next si;
      Some (r, mkIter n p sp ci si)
  end.

(** [Iterator::next].  The recursion is through the sub-iterators, which have a
    shorter path. *)
Fixpoint next (fuel : nat) (it : MatchedIter) : option (option Item * MatchedIter) :=
  match fuel with
  | O => None
  | S fuel =>
      '(r, it) ← next_item (next fuel) it;
      match r with
      | Some item => Some (Some item, it)
      | None =>
          match it_sub_path it with
          | None => Some (None, it)
          | Some _ =>
              match prepare it with
              | (Ok _, it) => next_item (next fuel) it
              | (_, it) => Some (None, it)
              end
          end
      end
  end.

(** [for item in iter]: at most [count] items are asked for. *)
Fixpoint collect (fuel count : nat) (it : MatchedIter) : option (list Item) :=
  match count with
  | O => None
  | S count =>
      '(r, it) ← next fuel it;
      match r with
      | Some item => items ← collect fuel count it; Some (item :: items)
      | None => Some []
      end
  end.

(** [Node::matches(topic).iter()] and [Node::is_match] *)
Definition matches_iter (n : node) (topic : Topic) : MatchedIter := iter_new n topic [].

Definition is_match (n : node) (topic : Topic) : option bool :=
  '(r, _) ← next (S (length topic)) (matches_iter n topic);
  Some (is_some r).

(** ** What a tree stores

    The values under a filter, which is all that clients observe. *)
Fixpoint stored (n : node) (f : list Level) : gset V :=
  match f with
  | [] => values n
  | l :: f => match branches n !! l with Some x => stored x f | None => ∅ end
  end.

(** No node but the root is empty. *)
Fixpoint subnode (n : node) (f : list Level) : option node :=
  match f with
  | [] => Some n
  | l :: f => branches n !! l ≫= λ x, subnode x f
  end.

Definition pruned (n : node) : Prop :=
  ∀ l f x, subnode n (l :: f) = Some x → node_is_empty x = false.

Lemma stored_default f : stored node_default f = ∅.
Proof. destruct f; simpl; [done|]. by rewrite lookup_empty. Qed.

Lemma stored_lookup n l f :
  stored n (l :: f) = stored (default node_default (branches n !! l)) f.
Proof. simpl. destruct (branches n !! l); [done|]. by rewrite stored_default. Qed.

Lemma node_is_empty_true x : node_is_empty x = true → x = node_default.
Proof.
  destruct x as [vs bs]. unfold node_is_empty. simpl.
  intros [->%bool_decide_eq_true ->%bool_decide_eq_true]%andb_true_iff. done.
Qed.

Lemma pruned_child n l x : pruned n → branches n !! l = Some x → pruned x ∧ node_is_empty x = false.
Proof.
  intros Hp Hl. split.
  - intros l' f y Hy. apply (Hp l (l' :: f)). simpl. by rewrite Hl.
  - apply (Hp l []). simpl. by rewrite Hl.
Qed.

Lemma pruned_branches vs bs :
  (∀ l x, bs !! l = Some x → pruned x ∧ node_is_empty x = false) → pruned (mkNode vs bs).
Proof.
  intros Hbs l f y. simpl. destruct (bs !! l) as [x|] eqn:Hl; simpl; [|done].
  destruct (Hbs l x Hl) as [Hp He]. destruct f as [|l' f]; simpl; [by intros [= <-]|].
  apply Hp.
Qed.

Lemma pruned_default : pruned node_default.
Proof. apply pruned_branches. intros l x. by rewrite lookup_empty. Qed.

Lemma default_pruned n l : pruned n → pruned (default node_default (branches n !! l)).
Proof.
  intros Hp. destruct (branches n !! l) eqn:E; simpl; [|apply pruned_default].
  by apply (pruned_child n l).
Qed.

(** *** Insertion *)

Lemma insert_stored n f v g :
  stored (insert n f v).2 g = if decide (g = f) then {[v]} ∪ stored n f else stored n g.
Proof.
  unfold insert. revert n g. induction f as [|l f IH]; intros n g.
  { destruct g; by case_decide. }
  cbn [_insert].
  specialize (IH (default node_default (branches n !! l))).
  destruct (_insert _ f v) as [res x]; simpl in *.
  destruct g as [|l' g]; [by case_decide|].
  destruct (decide (l' = l)) as [->|Hl].
  - cbn [stored branches]. rewrite lookup_insert_eq, IH, <-!stored_lookup.
    repeat case_decide; by simplify_eq.
  - cbn [stored branches]. rewrite lookup_insert_ne by done.
    rewrite decide_False by congruence. done.
Qed.

Lemma insert_result n f v : (insert n f v).1 = bool_decide (v ∉ stored n f).
Proof.
  unfold insert. revert n. induction f as [|l f IH]; intros n; [done|]. cbn [_insert].
  specialize (IH (default node_default (branches n !! l))).
  destruct (_insert _ f v) as [res x]. cbn [fst] in *. by rewrite IH, stored_lookup.
Qed.

Lemma insert_not_empty n f v : node_is_empty (insert n f v).2 = false.
Proof.
  unfold insert, node_is_empty. destruct f as [|l f]; simpl.
  - rewrite bool_decide_false; [done|]. set_solver.
  - destruct (_insert _ f v) as [res x]. simpl.
    apply andb_false_intro2, bool_decide_false, insert_non_empty.
Qed.

Lemma insert_pruned n f v : pruned n → pruned (insert n f v).2.
Proof.
  unfold insert. revert n. induction f as [|l f IH]; intros n Hp; simpl.
  - apply pruned_branches. intros l x. apply (pruned_child n), Hp.
  - pose proof (IH _ (default_pruned n l Hp)) as IHx.
    pose proof (insert_not_empty (default node_default (branches n !! l)) f v) as He.
    unfold insert in He. destruct (_insert _ f v) as [res x]; simpl in *.
    apply pruned_branches. intros l' y Hy.
    destruct (decide (l' = l)) as [->|Hl].
    + rewrite lookup_insert_eq in Hy. by simplify_eq.
    + rewrite lookup_insert_ne in Hy by done. by apply (pruned_child n l').
Qed.

(** *** Removal *)

Lemma remove_stored n f v g :
  stored (remove n f v).2 g = if decide (g = f) then stored n f ∖ {[v]} else stored n g.
Proof.
  unfold remove. revert n g. induction f as [|l f IH]; intros n g.
  { destruct g; by case_decide. }
  cbn [_remove].
  destruct (branches n !! l) as [x|] eqn:Hl; simpl.
  2:{ case_decide as Hg; [|done]. subst g. cbn [stored]. rewrite Hl. apply leibniz_equiv. by intros y; split; [intros []%not_elem_of_empty|intros []%elem_of_difference]. }
  specialize (IH x). destruct (_remove x f v) as [res x']; simpl in *.
  destruct g as [|l' g]; [by case_decide|].
  destruct (decide (l' = l)) as [->|Hne].
  - cbn [stored branches]. rewrite Hl. transitivity (stored x' g).
    + destruct (node_is_empty x') eqn:He; [|by rewrite lookup_insert_eq].
      rewrite lookup_delete_eq. apply node_is_empty_true in He as ->.
      by rewrite stored_default.
    + rewrite IH. repeat case_decide; by simplify_eq.
  - rewrite decide_False by congruence. cbn [stored branches].
    destruct (node_is_empty x'); [by rewrite lookup_delete_ne|by rewrite lookup_insert_ne].
Qed.

Lemma remove_result n f v : (remove n f v).1 = bool_decide (v ∈ stored n f).
Proof.
  unfold remove. revert n. induction f as [|l f IH]; intros n; simpl; [done|].
  destruct (branches n !! l) as [x|]; simpl.
  - rewrite <-IH. by destruct (_remove x f v).
  - symmetry. apply bool_decide_false. set_solver.
Qed.

Lemma remove_pruned n f v : pruned n → pruned (remove n f v).2.
Proof.
  unfold remove. revert n. induction f as [|l f IH]; intros n Hp; simpl.
  - apply pruned_branches. intros l x. apply (pruned_child n), Hp.
  - destruct (branches n !! l) as [x|] eqn:Hl; [|done].
    pose proof (IH x (proj1 (pruned_child n l x Hp Hl))) as IHx.
    destruct (_remove x f v) as [res x']; simpl in *. apply pruned_branches.
    intros l' y Hy. destruct (decide (l' = l)) as [->|Hne].
    + destruct (node_is_empty x') eqn:He.
      * by rewrite lookup_delete_eq in Hy.
      * rewrite lookup_insert_eq in Hy. by simplify_eq.
    + apply (pruned_child n l'); [done|].
      destruct (node_is_empty x'); [by rewrite lookup_delete_ne in Hy|by rewrite lookup_insert_ne in Hy].
Qed.

(** Removing what has just been inserted gives the tree back, nodes included. *)
Lemma remove_insert n f v :
  pruned n → v ∉ stored n f → (remove (insert n f v).2 f v).2 = n.
Proof.
  unfold insert, remove. revert n. induction f as [|l f IH]; intros n Hp Hv; simpl.
  - destruct n as [vs bs]. simpl in *. f_equal. set_solver.
  - rewrite stored_lookup in Hv. specialize (IH _ (default_pruned n l Hp) Hv).
    destruct (_insert _ f v) as [res x]; simpl in *.
    rewrite lookup_insert_eq. destruct (_remove x f v) as [res' x']; simpl in *. subst x'.
    destruct n as [vs bs]; simpl in *. f_equal.
    destruct (bs !! l) as [y|] eqn:Hl; simpl.
    + rewrite (proj2 (pruned_child _ l y Hp Hl)).
      rewrite insert_insert_eq. by apply insert_id.
    + unfold node_is_empty. simpl. rewrite !bool_decide_true by done. simpl.
      rewrite delete_insert_eq. by apply delete_id.
Qed.

(** ** The iterator as a list

    The items under a node for the rest of a topic, in the order in which the
    iterator yields them. *)
Definition item (sp : list Level) (vs : gset V) : list Item :=
  if bool_decide (vs = ∅) then [] else [(sp, btree_iter vs)].

Definition multi (n : node) (sp : list Level) : list Item :=
  match branches n !! MultiWildcard with
  | Some b => item (sp ++ [MultiWildcard]) (values b)
  | None => []
  end.

Fixpoint match_ref (n : node) (path sp : list Level) : list Item :=
  match path with
  | [] => item sp (values n) ++ multi n sp
  | first :: rest =>
      let sub l := match branches n !! l with
                   | Some b => match_ref b rest (sp ++ [l])
                   | None => []
                   end in
      (if isolated sp first n then [] else multi n sp ++ sub SingleWildcard) ++ sub first
  end.

(** What an iterator has still to yield. *)
Fixpoint to_yield (it : MatchedIter) : list Item :=
  match it with
  | mkIter n p sp ci si =>
      (reverse ci ++ flat_map to_yield si)
      ++ match sp with Some sp => match_ref n p sp | None => [] end
  end.

(** The iterators that occur: the sub-iterators have shorter paths, and nothing
    is buffered before [prepare]. *)
Fixpoint iter_wf (k : nat) (it : MatchedIter) : Prop :=
  match k with
  | O => False
  | S k =>
      let 'mkIter n p sp ci si := it in
      length p ≤ k ∧ Forall (iter_wf k) si ∧ (is_some sp = true → ci = [] ∧ si = [])
  end.

(** What a call of [next] does to the list. *)
Definition yields (k : nat) (it : MatchedIter) (r : option (option Item * MatchedIter)) : Prop :=
  ∃ it', r = Some (head (to_yield it), it') ∧ to_yield it' = tail (to_yield it) ∧ iter_wf k it'.

Lemma iter_new_wf n path sp : iter_wf (S (length path)) (iter_new n path sp).
Proof. simpl. split; [lia|]. by split. Qed.

Lemma multi_item_spec n sp n' p ci si :
  multi_item n (mkIter n' p (Some sp) ci si) = (Ok tt, mkIter n' p (Some sp) (ci ++ multi n sp) si).
Proof.
  unfold multi_item, multi, item. destruct (branches n !! MultiWildcard) as [b|].
  - case_bool_decide as Hb; [by rewrite app_nil_r|].
    unfold mbind, M_bind, sub_path_clone, add_to_items. simpl. by rewrite bool_decide_false.
  - by rewrite app_nil_r.
Qed.

Lemma add_to_items_spec sp vs n p sp' ci si :
  add_to_items sp vs (mkIter n p sp' ci si) = (Ok tt, mkIter n p sp' (ci ++ item sp vs) si).
Proof. unfold add_to_items, item. case_bool_decide; [by rewrite app_nil_r|done]. Qed.

Lemma reverse_item sp vs : reverse (item sp vs) = item sp vs.
Proof. unfold item. by case_bool_decide. Qed.

Lemma reverse_multi n sp : reverse (multi n sp) = multi n sp.
Proof. unfold multi. case_match; [apply reverse_item|done]. Qed.

Lemma to_yield_new n path sp : to_yield (iter_new n path sp) = match_ref n path sp.
Proof. done. Qed.

Lemma prepare_spec n p sp : ∃ ci si,
  prepare (mkIter n p (Some sp) [] []) = (Ok tt, mkIter n p None ci si) ∧
  reverse ci ++ flat_map to_yield si = match_ref n p sp ∧
  Forall (iter_wf (length p)) si.
Proof.
  unfold prepare. cbn [it_node it_path]. destruct p as [|first rest].
  { exists (multi n sp ++ item sp (values n)), []. split; [|split; [|done]].
    - rewrite (bind_ok _ _ _ tt (mkIter n [] None (multi n sp ++ item sp (values n)) [])); [done|].
      erewrite bind_ok by apply multi_item_spec. cbv beta.
      erewrite bind_ok by done. apply add_to_items_spec.
    - simpl. rewrite reverse_app, reverse_item, reverse_multi, app_nil_r. done. }
  cbn [match_ref].
  set (s1 := if isolated sp first n then [] else
    match branches n !! SingleWildcard with
    | Some b => [iter_new b rest (sp ++ [SingleWildcard])] | None => [] end).
  set (s2 := match branches n !! first with
             | Some b => [iter_new b rest (sp ++ [first])] | None => [] end).
  set (c1 := if isolated sp first n then [] else multi n sp).
  assert (Hnew : ∀ b l, iter_wf (length (first :: rest)) (iter_new b rest (sp ++ [l])))
    by (intros; apply iter_new_wf).
  exists c1, (s1 ++ s2). split; [|split].
  - rewrite (bind_ok _ _ _ tt (mkIter n (first :: rest)
      (if is_some (branches n !! first) then None else Some sp) c1 (s1 ++ s2))); [done|].
    rewrite (bind_ok _ _ _ tt (mkIter n (first :: rest) (Some sp) c1 s1)).
    2:{ erewrite bind_ok by reflexivity. cbv beta. unfold s1, c1.
        destruct (isolated _ _ _); [done|].
        cbn [negb]. erewrite bind_ok by apply multi_item_spec. cbv beta.
        by destruct (branches n !! SingleWildcard). }
    cbv beta. unfold s2. destruct (branches n !! first) as [b|]; [done|].
    rewrite app_nil_r. done.
  - rewrite flat_map_app. unfold c1, s1, s2.
    destruct (isolated sp first n).
    + simpl. destruct (branches n !! first); simpl; [|done]. by rewrite !app_nil_r.
    + rewrite reverse_multi, <-!app_assoc. f_equal.
      by destruct (branches n !! SingleWildcard), (branches n !! first);
        simpl; rewrite ?app_nil_r.
  - apply Forall_app. unfold s1, s2. split; repeat case_match; by repeat constructor.
Qed.

Lemma vec_pop_spec {A} (v : list A) :
  match vec_pop v with
  | Some (x, v') => reverse v = x :: reverse v'
  | None => v = []
  end.
Proof.
  unfold vec_pop. destruct (reverse v) as [|x r] eqn:E; simpl.
  - by rewrite <-(reverse_involutive v), E.
  - by rewrite reverse_involutive.
Qed.

Lemma next_sub_spec nxt k si :
  Forall (iter_wf k) si → (∀ s, iter_wf k s → yields k s (nxt s)) →
  ∃ si', next_sub nxt si = Some (head (flat_map to_yield si), si') ∧
         flat_map to_yield si' = tail (flat_map to_yield si) ∧ Forall (iter_wf k) si'.
Proof.
  intros Hwf Hnxt. induction Hwf as [|s si Hs Hsi IH]; cbn [next_sub flat_map].
  { exists []. by repeat split. }
  destruct (Hnxt s Hs) as (s' & -> & Hs' & Hwf'). simpl.
  destruct (to_yield s) as [|i items]; simpl in *.
  - destruct IH as (si' & -> & ? & ?). eauto.
  - exists (s' :: si). simpl. rewrite Hs'. split; [done|]. split; [done|]. by constructor.
Qed.

Lemma next_item_spec nxt k n p sp ci si :
  Forall (iter_wf k) si → (∀ s, iter_wf k s → yields k s (nxt s)) →
  ∃ ci' si',
    next_item nxt (mkIter n p sp ci si) =
      Some (head (reverse ci ++ flat_map to_yield si), mkIter n p sp ci' si') ∧
    reverse ci' ++ flat_map to_yield si' = tail (reverse ci ++ flat_map to_yield si) ∧
    Forall (iter_wf k) si'.
Proof.
  intros Hwf Hnxt. unfold next_item. pose proof (vec_pop_spec ci) as Hci.
  destruct (vec_pop ci) as [[x ci']|].
  - rewrite Hci. by exists ci', si.
  - subst ci. destruct (next_sub_spec nxt k si Hwf Hnxt) as (si' & -> & ? & ?).
    by exists [], si'.
Qed.

Lemma iter_wf_mono j k it : iter_wf j it → j ≤ k → iter_wf k it.
Proof.
  revert k it. induction j as [|j IH]; intros [|k] [n p sp ci si]; simpl; try done; try lia.
  intros (Hp & Hsi & Hnew) Hle. split; [lia|]. split; [|done].
  eapply Forall_impl; [exact Hsi|]. intros s Hs. apply IH; [done|lia].
Qed.

Lemma next_spec fuel it : iter_wf fuel it → yields fuel it (next fuel it).
Proof.
  revert it. induction fuel as [|k IH]; intros [n p sp ci si]; [done|].
  intros (Hp & Hsi & Hnew). cbn [next]. unfold yields. destruct sp as [sp|].
  - destruct Hnew as [-> ->]; [done|].
    assert (next_item (next k) (mkIter n p (Some sp) [] []) =
            Some (None, mkIter n p (Some sp) [] [])) as -> by done.
    cbn [mbind option_bind it_sub_path].
    destruct (prepare_spec n p sp) as (ci & si & Hprep & Hlist & Hwf).
    rewrite Hprep.
    assert (Hwf' : Forall (iter_wf k) si).
    { eapply Forall_impl; [exact Hwf|]. intros s Hs. by eapply iter_wf_mono. }
    destruct (next_item_spec (next k) k n p None ci si Hwf' IH) as (ci' & si' & Hn & Ht & Hw).
    change (to_yield (mkIter n p (Some sp) [] [])) with (match_ref n p sp).
    rewrite Hn, <-Hlist. eexists. split; [done|]. simpl. rewrite app_nil_r. split; [done|]. split; [done|]. by split.
  - destruct (next_item_spec (next k) k n p None ci si Hsi IH) as (ci' & si' & -> & Ht & Hw).
    simpl. rewrite !app_nil_r.
    assert (to_yield (mkIter n p None ci' si') = tail (reverse ci ++ flat_map to_yield si) ∧
            iter_wf (S k) (mkIter n p None ci' si')).
    { simpl. rewrite app_nil_r. split; [done|]. by split. }
    destruct (reverse ci ++ flat_map to_yield si) as [|i items]; simpl; eauto.
Qed.

Lemma collect_spec fuel it count :
  iter_wf fuel it → length (to_yield it) < count → collect fuel count it = Some (to_yield it).
Proof.
  revert it. induction count as [|count IH]; intros it Hwf Hc; [lia|]. cbn [collect].
  destruct (next_spec fuel it Hwf) as (it' & -> & Hy & Hwf').
  destruct (to_yield it) as [|i items]; simpl in *; [done|].
  rewrite IH; [by rewrite Hy|done|rewrite Hy; lia].
Qed.

(** ** Which filters match

    A filter against the levels of a topic, without the rule on [$]. *)
Fixpoint level_matches (f t : list Level) {struct t} : bool :=
  match t with
  | [] => bool_decide (f = [] ∨ f = [MultiWildcard])
  | x :: t =>
      match f with
      | [] => false
      | l :: f' =>
          bool_decide (f = [MultiWildcard])
          || (bool_decide (l = SingleWildcard ∨ l = x) && level_matches f' t)
      end
  end.

(** A wildcard in front of a [$] level. *)
Definition shielded (f t : list Level) : bool :=
  match f, t with
  | l :: _, x :: _ => is_wildcard l && level_is_metadata x
  | _, _ => false
  end.

Definition trie_matches (f t : list Level) : bool := negb (shielded f t) && level_matches f t.

(** An entry [(g, vs)] for the filter [sp ++ f]. *)
Definition entry (n : node) (sp f : list Level) (i : Item) : Prop :=
  i = (sp ++ f, btree_iter (stored n f)) ∧ stored n f ≠ ∅.

Lemma elem_of_item i sp vs : i ∈ item sp vs ↔ i = (sp, btree_iter vs) ∧ vs ≠ ∅.
Proof.
  unfold item. case_bool_decide as Hv.
  - split; [by intros ?%not_elem_of_nil|by intros [_ ?]].
  - rewrite list_elem_of_singleton. naive_solver.
Qed.

Lemma elem_of_multi i n sp : i ∈ multi n sp ↔ entry n sp [MultiWildcard] i.
Proof.
  unfold multi, entry. simpl. destruct (branches n !! MultiWildcard); [apply elem_of_item|].
  split; [by intros ?%not_elem_of_nil|by intros [_ ?]].
Qed.

Lemma entry_nil n sp i : entry n sp [] i ↔ i ∈ item sp (values n).
Proof. unfold entry. rewrite elem_of_item, app_nil_r. done. Qed.

Lemma entry_cons n sp l f i :
  entry n sp (l :: f) i ↔ ∃ b, branches n !! l = Some b ∧ entry b (sp ++ [l]) f i.
Proof.
  unfold entry. simpl. rewrite <-app_assoc. simpl.
  destruct (branches n !! l) as [b|]; naive_solver.
Qed.

(** The branches below a level, as entries. *)
Lemma elem_of_branch i n sp l (g : node → list Level → list Item) (P : list Level → Prop) :
  (∀ b, i ∈ g b (sp ++ [l]) ↔ ∃ f, P f ∧ entry b (sp ++ [l]) f i) →
  i ∈ match branches n !! l with Some b => g b (sp ++ [l]) | None => [] end ↔
  ∃ f, P f ∧ entry n sp (l :: f) i.
Proof.
  intros Hg. destruct (branches n !! l) as [b|] eqn:Hl.
  - rewrite Hg. setoid_rewrite entry_cons. rewrite Hl. naive_solver.
  - split; [by intros ?%not_elem_of_nil|]. setoid_rewrite entry_cons. naive_solver.
Qed.

Lemma match_ref_inner n path sp i : sp ≠ [] →
  i ∈ match_ref n path sp ↔ ∃ f, level_matches f path = true ∧ entry n sp f i.
Proof.
  revert n sp. induction path as [|first rest IH]; intros n sp Hsp; cbn [match_ref level_matches].
  - rewrite elem_of_app, <-entry_nil, elem_of_multi.
    split.
    + intros [He|He]; eexists; (split; [|exact He]); by rewrite bool_decide_true by auto.
    + intros (f & [-> | ->]%bool_decide_eq_true & He); auto.
  - assert (isolated sp first n = false) as ->
      by (unfold isolated; by rewrite bool_decide_false).
    rewrite !elem_of_app, elem_of_multi.
    rewrite !(elem_of_branch i n sp _ (λ b s, match_ref b rest s)
                (λ f, level_matches f rest = true)) by (intros; apply IH; by destruct sp).
    split.
    + intros [[He|(f & Hf & He)]|(f & Hf & He)]; eexists; (split; [|exact He]); cbv iota beta.
      * by rewrite bool_decide_true.
      * rewrite (bool_decide_true (_ ∨ _)) by auto. by rewrite Hf, orb_true_r.
      * rewrite (bool_decide_true (_ ∨ _)) by auto. by rewrite Hf, orb_true_r.
    + intros ([|l f] & Hf & He); [done|].
      apply orb_true_iff in Hf as [[= -> ->]%bool_decide_eq_true|Hf]; [auto|].
      apply andb_true_iff in Hf as [[-> | ->]%bool_decide_eq_true Hf]; eauto.
Qed.

(** At the root nothing has been consumed, and [$] levels are shielded. *)
Lemma match_ref_top n path i :
  i ∈ match_ref n path [] ↔ ∃ f, trie_matches f path = true ∧ entry n [] f i.
Proof.
  unfold trie_matches. destruct path as [|first rest]; cbn [match_ref level_matches].
  - rewrite elem_of_app, <-entry_nil, elem_of_multi. split.
    + intros [He|He]; eexists; (split; [|exact He]); by rewrite bool_decide_true by auto.
    + intros (f & [_ [-> | ->]%bool_decide_eq_true]%andb_true_iff & He); auto.
  - set (skip := level_is_metadata first).
    assert (Hguard : i ∈ (if isolated [] first n then [] else
        multi n [] ++ match branches n !! SingleWildcard with
                      | Some b => match_ref b rest ([] ++ [SingleWildcard]) | None => [] end) ↔
      skip = false ∧ (entry n [] [MultiWildcard] i ∨
        ∃ f, level_matches f rest = true ∧ entry n [] (SingleWildcard :: f) i)).
    { rewrite <-(elem_of_branch i n [] _ (λ b s, match_ref b rest s)
        (λ f, level_matches f rest = true)) by (intros; by apply match_ref_inner).
      rewrite <-elem_of_multi, <-elem_of_app. unfold isolated, multi. fold skip.
      assert (first = Blank → skip = false) by (by intros ->).
      destruct skip; [|by rewrite !andb_false_r; split; [|intros [_ ?]]].
      rewrite !(bool_decide_true ([] = _)), bool_decide_false by naive_solver. simpl.
      destruct (branches n !! MultiWildcard), (branches n !! SingleWildcard); simpl;
        (split; [by intros ?%not_elem_of_nil|by intros [? _]]). }
    rewrite elem_of_app, Hguard.
    rewrite (elem_of_branch i n [] _ (λ b s, match_ref b rest s)
        (λ f, level_matches f rest = true)) by (intros; by apply match_ref_inner).
    split.
    + intros [[Hs [He|(f & Hf & He)]]|(f & Hf & He)]; eexists; (split; [|exact He]);
        unfold shielded; cbv iota beta; fold skip.
      * by rewrite Hs, bool_decide_true.
      * rewrite Hs, (bool_decide_true (_ ∨ _)) by auto. by rewrite Hf, orb_true_r.
      * rewrite (bool_decide_true (_ ∨ _)) by auto. rewrite Hf, orb_true_r.
        unfold skip. by destruct first.
    + intros ([|l f] & Hf & He); [done|]. unfold shielded in Hf. fold skip in Hf.
      apply andb_true_iff in Hf as [Hs%negb_true_iff Hf].
      apply orb_true_iff in Hf as [[= -> ->]%bool_decide_eq_true|Hf]; [left; auto|].
      apply andb_true_iff in Hf as [[-> | ->]%bool_decide_eq_true Hf]; [left|right]; eauto.
Qed.

(** No filter is yielded twice for a topic without wildcards. *)
Lemma match_ref_prefix n path sp g vs :
  (g, vs) ∈ match_ref n path sp → ∃ f, g = sp ++ f.
Proof.
  destruct sp as [|l sp]; [by exists g|].
  intros (f & _ & [[= ->] _])%match_ref_inner; [|done]. by exists f.
Qed.

Lemma NoDup_item sp vs : NoDup (item sp vs).*1.
Proof. unfold item. case_bool_decide; [constructor|]. apply NoDup_singleton. Qed.

Lemma NoDup_multi n sp : NoDup (multi n sp).*1.
Proof. unfold multi. case_match; [apply NoDup_item|constructor]. Qed.

Lemma keys_item g sp vs : g ∈ (item sp vs).*1 → g = sp.
Proof. intros ([? ?] & -> & [[= -> ->] _]%elem_of_item)%list_elem_of_fmap. done. Qed.

Lemma keys_multi g n sp : g ∈ (multi n sp).*1 → g = sp ++ [MultiWildcard].
Proof. unfold multi. case_match; [apply keys_item|by intros ?%not_elem_of_nil]. Qed.

Lemma keys_branch g n sp l rest :
  g ∈ (match branches n !! l with
       | Some b => match_ref b rest (sp ++ [l]) | None => [] end).*1 → ∃ f, g = sp ++ l :: f.
Proof.
  case_match; [|by intros ?%not_elem_of_nil].
  intros ([g' vs] & -> & (f & ->)%match_ref_prefix)%list_elem_of_fmap.
  exists f. by rewrite <-app_assoc.
Qed.

Lemma match_ref_NoDup n path sp :
  Forall (λ l, is_wildcard l = false) path → NoDup (match_ref n path sp).*1.
Proof.
  intros Hp. revert n sp. induction Hp as [|first rest Hf Hp IH]; intros n sp; cbn [match_ref].
  - rewrite fmap_app. apply NoDup_app. split; [apply NoDup_item|]. split; [|apply NoDup_multi].
    intros g ->%keys_item Hg%keys_multi. apply (f_equal length) in Hg.
    rewrite length_app in Hg. simpl in Hg. lia.
  - assert (Hb : ∀ l, NoDup (match branches n !! l with
      | Some b => match_ref b rest (sp ++ [l]) | None => [] end).*1)
      by (intros l; case_match; [apply IH|constructor]).
    rewrite fmap_app. apply NoDup_app. split; [|split; [|apply Hb]].
    + case_match; [constructor|]. rewrite fmap_app. apply NoDup_app.
      split; [apply NoDup_multi|]. split; [|apply Hb].
      intros g ->%keys_multi (f & Hg)%keys_branch. by apply app_inv_head in Hg.
    + intros g Hg (f & ->)%keys_branch.
      case_match; [by apply not_elem_of_nil in Hg|].
      rewrite fmap_app, elem_of_app in Hg. destruct Hg as [Hg%keys_multi|(f' & Hg)%keys_branch].
      * apply app_inv_head in Hg. by simplify_eq.
      * apply app_inv_head in Hg. by simplify_eq.
Qed.

(** ** The MQTT rules *)

Lemma level_matches_str f t :
  Forall level_canon f → placed f → Forall level_canon t →
  level_matches f t = filter_matches f (map level_to_string t).
Proof.
  intros Hf Hp Ht. revert f Hf Hp.
  induction Ht as [|x t Hx _ IH]; intros f Hf Hp; cbn [level_matches map].
  - destruct f as [|l f]; [done|]. apply placed_cons in Hp as [Hlast _].
    destruct l; simpl; try done.
    rewrite Hlast by done. by apply bool_decide_true; right.
  - destruct f as [|l f]; [done|]. apply Forall_cons_iff in Hf as [Hl Hf].
    apply placed_cons in Hp as (Hlast & Hp & _).
    rewrite IH by done. destruct (decide (l = MultiWildcard)) as [->|Hm].
    { rewrite Hlast by done. by rewrite bool_decide_true. }
    rewrite (bool_decide_false (_ :: _ = _)) by congruence. cbn [orb].
    destruct (decide (l = SingleWildcard)) as [->|Hs].
    { by rewrite bool_decide_true by auto. }
    assert (bool_decide (l = SingleWildcard ∨ l = x) =
            bool_decide (level_to_string l = level_to_string x)) as ->.
    { apply bool_decide_ext. split; [naive_solver|]. intros ?. right. by apply level_to_string_inj. }
    by destruct l.
Qed.

Lemma shielded_str f t :
  Forall level_canon t →
  shielded f t = match f, map level_to_string t with
                 | l :: _, x :: _ => is_wildcard l && is_metadata x
                 | _, _ => false
                 end.
Proof.
  intros Ht. destruct f as [|l f], Ht as [|x t [Hx _] _]; try done. simpl. f_equal.
  destruct x; simpl in *; try done;
    apply andb_true_iff in Hx as [Hx _]; unfold is_metadata; [by apply negb_true_iff in Hx|done].
Qed.

Lemma trie_matches_str f t :
  topic_canon f → topic_canon t →
  trie_matches f t = mqtt_matches f (split SLASH (topic_to_string t)).
Proof.
  intros (_ & [Hf _]%Forall_and & Hp) (Hne & [Ht Hs]%Forall_and & _).
  rewrite topic_to_string_join, split_join; [|by destruct t|by rewrite Forall_map].
  unfold trie_matches. rewrite level_matches_str, shielded_str by done.
  unfold mqtt_matches. by destruct f, t.
Qed.

(** The trees that the router builds: every stored filter comes from parsing. *)
Definition filters_ok (n : node) : Prop := ∀ f, stored n f ≠ ∅ → topic_canon f.

Lemma filters_ok_default : filters_ok node_default.
Proof. intros f. by rewrite stored_default. Qed.

Lemma filters_ok_insert n f v : filters_ok n → topic_canon f → filters_ok (insert n f v).2.
Proof. intros Hn Hf g. rewrite insert_stored. case_decide; [by subst|apply Hn]. Qed.

Lemma filters_ok_remove n f v : filters_ok n → filters_ok (remove n f v).2.
Proof.
  intros Hn g. rewrite remove_stored. case_decide; [subst|apply Hn].
  intros Hs. apply Hn. intros He. apply Hs. rewrite He. set_solver.
Qed.

Lemma matches_iter_list n topic :
  to_yield (matches_iter n topic) = match_ref n topic [].
Proof. done. Qed.

(** ** Sizes *)

(** The sum over the branches, as [values_size] computes it. *)
Definition branch_sum (bs : gmap Level node) : nat :=
  map_fold (λ _ x acc, values_size x + acc) 0 bs.

Lemma branch_sum_insert bs l x :
  branch_sum (<[l := x]> bs) = values_size x + branch_sum (delete l bs).
Proof.
  rewrite <-insert_delete_eq. unfold branch_sum.
  rewrite map_fold_insert_L; [done|intros; lia|apply lookup_delete_eq].
Qed.

Lemma branch_sum_lookup bs l :
  branch_sum bs = from_option values_size 0 (bs !! l) + branch_sum (delete l bs).
Proof.
  destruct (bs !! l) as [x|] eqn:Hl; simpl.
  - rewrite <-branch_sum_insert. by rewrite insert_id.
  - by rewrite delete_id.
Qed.

Lemma values_size_unfold n : values_size n = size (values n) + branch_sum (branches n).
Proof. by destruct n. Qed.

Lemma values_size_empty x : node_is_empty x = true → values_size x = 0.
Proof. intros ->%node_is_empty_true. done. Qed.

Lemma from_option_default (o : option node) :
  from_option values_size 0 o = values_size (default node_default o).
Proof. by destruct o. Qed.

Lemma values_size_insert n f v :
  values_size (insert n f v).2 = (if (insert n f v).1 then 1 else 0) + values_size n.
Proof.
  unfold insert. revert n. induction f as [|l f IH]; intros n; cbn [_insert].
  - rewrite !values_size_unfold. simpl. case_bool_decide as Hv.
    + rewrite size_union by set_solver. rewrite size_singleton. lia.
    + rewrite subseteq_union_1_L by set_solver. lia.
  - specialize (IH (default node_default (branches n !! l))).
    destruct (_insert _ f v) as [res x]. cbn [fst snd] in *.
    rewrite !values_size_unfold. cbn [values branches]. rewrite branch_sum_insert, IH.
    rewrite (branch_sum_lookup (branches n) l), from_option_default. lia.
Qed.

Lemma values_size_remove n f v :
  values_size n = (if (remove n f v).1 then 1 else 0) + values_size (remove n f v).2.
Proof.
  unfold remove. revert n. induction f as [|l f IH]; intros n; cbn [_remove].
  - rewrite !values_size_unfold. simpl. case_bool_decide as Hv.
    + rewrite (union_difference_singleton_L v (values n)) at 1 by done.
      rewrite size_union by set_solver. rewrite size_singleton. lia.
    + by rewrite difference_disjoint_L by set_solver.
  - destruct (branches n !! l) as [x|] eqn:Hl; [|done].
    specialize (IH x). destruct (_remove x f v) as [res x']. cbn [fst snd] in *.
    rewrite !values_size_unfold. cbn [values branches].
    rewrite (branch_sum_lookup (branches n) l), Hl. simpl. rewrite IH.
    destruct (node_is_empty x') eqn:He; [|rewrite branch_sum_insert; lia].
    rewrite (values_size_empty x') by done. lia.
Qed.

(** The iterator yields less than [3 * 2 ^ n] items for a topic of [n] levels. *)
Lemma multi_length n sp : (length (multi n sp) ≤ 1)%nat.
Proof. unfold multi, item. repeat case_match; simpl; lia. Qed.

Lemma match_ref_length n path sp :
  (length (match_ref n path sp) < 3 * 2 ^ length path)%nat.
Proof.
  revert n sp. induction path as [|first rest IH]; intros n sp; cbn [match_ref length].
  - rewrite length_app. pose proof (multi_length n sp). unfold item. case_match; simpl; lia.
  - rewrite Nat.pow_succ_r'. repeat first [case_match | rewrite length_app]; simpl;
      pose proof (multi_length n sp);
      repeat match goal with
             | |- context [match_ref ?x rest ?q] =>
                 pose proof (IH x q); generalize dependent (match_ref x rest q); intros
             end; pose proof (Nat.pow_nonzero 2 (length rest)); lia.
Qed.

Definition collect_all (n : node) (topic : Topic) : option (list Item) :=
  collect (S (length topic)) (3 * 2 ^ length topic) (matches_iter n topic).

Lemma collect_all_spec n topic : collect_all n topic = Some (match_ref n topic []).
Proof.
  unfold collect_all. rewrite <-matches_iter_list. apply collect_spec; [apply iter_new_wf|].
  apply match_ref_length.
Qed.

(** ** Claims *)

(** C29: the iterator finds exactly the subscriptions the MQTT rules ask for.
    For a tree of parsed filters and a parsed topic, the iterator stops, and the
    items it yields are the pairs of a stored filter that matches the topic
    (section 4.7 of the specification: [+], [#] and the parent level, and no
    leading wildcard on a [$] topic) and all values stored under that filter. *)
Theorem trie_matches_mqtt n topic :
  filters_ok n → topic_canon topic →
  ∃ items,
    (∀ fuel count, length topic < fuel → length items < count →
       collect fuel count (matches_iter n topic) = Some items) ∧
    ∀ f vs, (f, vs) ∈ items ↔
      stored n f ≠ ∅ ∧ vs = btree_iter (stored n f) ∧
      mqtt_matches f (split SLASH (topic_to_string topic)) = true.
Proof.
  intros Hn Ht. exists (match_ref n topic []). split.
  - intros fuel count Hf Hc. apply collect_spec; [|done].
    eapply iter_wf_mono; [apply iter_new_wf|lia].
  - intros f vs. rewrite match_ref_top. unfold entry. split.
    + intros (g & Hg & [= -> ->] & Hs). rewrite <-trie_matches_str by auto. auto.
    + intros (Hs & -> & Hm). exists f. rewrite trie_matches_str by auto. auto.
Qed.

(** A publish topic, which has no wildcard levels, meets every matching
    filter once: no filter is yielded twice. *)
Theorem trie_matches_once n topic items fuel count :
  Forall (λ l, is_wildcard l = false) topic → length topic < fuel →
  length (match_ref n topic []) < count →
  collect fuel count (matches_iter n topic) = Some items → NoDup items.*1.
Proof.
  intros Hw Hf Hc. rewrite collect_spec; [|eapply iter_wf_mono; [apply iter_new_wf|lia]|done].
  intros [= <-]. by apply match_ref_NoDup.
Qed.

(** [is_match] answers whether some stored filter matches. *)
Theorem is_match_iff n topic :
  filters_ok n → topic_canon topic →
  ∃ b, is_match n topic = Some b ∧
    (b = true ↔ ∃ f, stored n f ≠ ∅ ∧
                     mqtt_matches f (split SLASH (topic_to_string topic)) = true).
Proof.
  intros Hn Ht. unfold is_match.
  destruct (next_spec (S (length topic)) (matches_iter n topic) (iter_new_wf _ _ _))
    as (it' & -> & _ & _).
  rewrite matches_iter_list. eexists. split; [done|].
  pose proof (match_ref_top n topic) as Htop. unfold entry in Htop.
  destruct (match_ref n topic []) as [|i items]; simpl; split; try done.
  - intros (f & Hs & Hm). exfalso. rewrite <-trie_matches_str in Hm by auto.
    apply (not_elem_of_nil (f, btree_iter (stored n f))). apply Htop. by exists f.
  - intros _. destruct (proj1 (Htop i)) as (f & Hm & -> & Hs); [by left|].
    exists f. rewrite <-trie_matches_str by auto. auto.
Qed.

(** Insertion.  It changes the values of the one filter, adding the value
    there; it says whether the value was new; it counts one value more exactly
    then; and it keeps the tree free of empty nodes. *)
Theorem trie_insert_correct n f v :
  let '(new, n') := insert n f v in
  (∀ g, stored n' g = if decide (g = f) then {[v]} ∪ stored n f else stored n g) ∧
  (new = true ↔ v ∉ stored n f) ∧
  values_size n' = (if new then 1 else 0) + values_size n ∧
  (pruned n → pruned n').
Proof.
  pose proof (insert_stored n f v). pose proof (insert_result n f v).
  pose proof (values_size_insert n f v). pose proof (insert_pruned n f v).
  destruct (insert n f v) as [new n']. simpl in *. subst new.
  rewrite bool_decide_eq_true. auto.
Qed.

(** Removal.  It changes the values of the one filter, taking the value out
    of them; it says whether the value was there; it counts one value less exactly
    then; and it removes the branches that have become empty. *)
Theorem trie_remove_correct n f v :
  let '(found, n') := remove n f v in
  (∀ g, stored n' g = if decide (g = f) then stored n f ∖ {[v]} else stored n g) ∧
  (found = true ↔ v ∈ stored n f) ∧
  values_size n = (if found then 1 else 0) + values_size n' ∧
  (pruned n → pruned n').
Proof.
  pose proof (remove_stored n f v). pose proof (remove_result n f v).
  pose proof (values_size_remove n f v). pose proof (remove_pruned n f v).
  destruct (remove n f v) as [found n']. simpl in *. subst found.
  rewrite bool_decide_eq_true. auto.
Qed.

(** An unsubscribe undoes a subscribe.  In a tree without empty nodes,
    removing a value that has just been inserted gives back the same tree, node
    for node. *)
Theorem trie_insert_remove n f v :
  pruned n → v ∉ stored n f → remove (insert n f v).2 f v = (true, n).
Proof.
  intros Hp Hv. pose proof (remove_result (insert n f v).2 f v) as Hr.
  pose proof (remove_insert n f v Hp Hv) as Hi. rewrite insert_stored, decide_True in Hr by done.
  rewrite bool_decide_true in Hr by set_solver.
  destruct (remove _ f v). simpl in *. by subst.
Qed.
End Trie.

(** ** A concrete tree *)

Definition sub_a_hash : Topic := [Normal (lit "a"); MultiWildcard].
Definition sub_plus_b : Topic := [SingleWildcard; Normal (lit "b")].
Definition topic_a_b : Topic := [Normal (lit "a"); Normal (lit "b")].

Definition sample_tree : Node Z :=
  (insert (insert (insert node_default sub_a_hash 7%Z).2 sub_plus_b 3%Z).2 sub_a_hash 5%Z).2.

Lemma sub_a_hash_canon : topic_canon sub_a_hash.
Proof. by apply (topic_from_str_spec (lit "a/#")). Qed.
Lemma sub_plus_b_canon : topic_canon sub_plus_b.
Proof. by apply (topic_from_str_spec (lit "+/b")). Qed.
Lemma topic_a_b_canon : topic_canon topic_a_b.
Proof. by apply (topic_from_str_spec (lit "a/b")). Qed.

Lemma sample_tree_ok : filters_ok sample_tree.
Proof.
  repeat apply filters_ok_insert; try apply filters_ok_default;
    auto using sub_a_hash_canon, sub_plus_b_canon.
Qed.

Lemma sample_tree_pruned : pruned sample_tree.
Proof. repeat apply insert_pruned. apply pruned_default. Qed.

Example sample_matches :
  collect Z.le 3 4 (matches_iter sample_tree topic_a_b) =
  Some [(sub_plus_b, [3%Z]); (sub_a_hash, [5%Z; 7%Z])].
Proof. vm_compute. reflexivity. Qed.

Lemma trie_matches_mqtt_witness :
  ∃ items, collect Z.le 3 4 (matches_iter sample_tree topic_a_b) = Some items ∧
           (sub_a_hash, btree_iter Z.le (stored sample_tree sub_a_hash)) ∈ items.
Proof.
  destruct (trie_matches_mqtt Z.le sample_tree topic_a_b sample_tree_ok topic_a_b_canon)
    as (items & Hc & Hin).
  pose proof (Hc 3 (S (S (S (S (length items))))) ltac:(simpl; lia) ltac:(lia)) as Hbig.
  exists items. split.
  - apply Hc; [simpl; lia|].
    assert (length items = 2) as ->; [|lia].
    destruct items as [|? [|? [|? items]]]; vm_compute in Hbig; simplify_eq; done.
  - apply Hin. split; [by vm_compute|]. by split.
Defined.

Lemma trie_matches_once_witness : NoDup [sub_plus_b; sub_a_hash].
Proof.
  apply (trie_matches_once Z.le sample_tree topic_a_b
           [(sub_plus_b, [3%Z]); (sub_a_hash, [5%Z; 7%Z])] 3 4).
  - by repeat constructor.
  - simpl; lia.
  - vm_compute; lia.
  - vm_compute. reflexivity.
Defined.

Lemma is_match_iff_witness :
  ∃ b, is_match Z.le sample_tree topic_a_b = Some b ∧
    (b = true ↔ ∃ f, stored sample_tree f ≠ ∅ ∧
       mqtt_matches f (split SLASH (topic_to_string topic_a_b)) = true).
Proof. apply (is_match_iff Z.le sample_tree topic_a_b sample_tree_ok topic_a_b_canon). Defined.

Lemma trie_insert_correct_witness : pruned (insert sample_tree topic_a_b 9%Z).2.
Proof.
  pose proof (trie_insert_correct sample_tree topic_a_b 9%Z) as Hc.
  destruct (insert sample_tree topic_a_b 9%Z). apply Hc, sample_tree_pruned.
Defined.

Lemma trie_remove_correct_witness : pruned (remove sample_tree sub_a_hash 5%Z).2.
Proof.
  pose proof (trie_remove_correct sample_tree sub_a_hash 5%Z) as Hc.
  destruct (remove sample_tree sub_a_hash 5%Z). apply Hc, sample_tree_pruned.
Defined.

Lemma trie_insert_remove_witness :
  remove (insert sample_tree sub_a_hash 9%Z).2 sub_a_hash 9%Z = (true, sample_tree).
Proof.
  apply trie_insert_remove; [apply sample_tree_pruned|].
  apply (bool_decide_eq_true_1 _). vm_compute. reflexivity.
Defined.
