(* ===== verification/Queue.v ===== *)
(** * The bounded delivery queue

    Models [ferromq/src/queue.rs]: the bounded queue behind a session's outgoing
    messages, the sender with its overflow policy, and the stream that is woken
    by a signal channel.  [Queue::push] and [Queue::pop] hold the lock for their
    whole body and are the atomic steps; [Sender::send] is several of them, so it
    is given both as one function (a sender that runs alone) and as the steps of
    threads that interleave with a receiver.

    The signal channel is a [futures::channel::mpsc] of unit values, of which
    only the number of pending signals matters.  Its capacity gives every sender
    a slot of its own and the code signals through a fresh clone each time, so
    [try_send] succeeds as long as the receiver is alive. *)

From stdpp Require Import base list numbers option relations.
From Stdlib Require Import ZArith Lia.
From S2P Require Import Prelude.

#[local] Open Scope Z_scope.

Inductive Policy : Type := Current | Early.

(** [OnEventFn]: a callback is registered or not, and a log keeps the calls. *)
Inductive Event : Type := Pushed | Popped.

(** Pushes minus pops. *)
Definition balance (l : list Event) : Z :=
  fold_right (λ e n, match e with Pushed => n + 1 | Popped => n - 1 end) 0 l.

Lemma balance_app l1 l2 : balance (l1 ++ l2) = balance l1 + balance l2.
Proof. induction l1 as [|[] l1 IH]; simpl; [done|lia..]. Qed.

(** ** The queue *)

Record Queue (T : Type) : Type := mkQueue {
  q_cap : Z;
  q_inner : list T;
  q_on_push : bool;
  q_on_pop : bool;
  q_log : list Event;
}.
Arguments mkQueue {T}.
Arguments q_cap {T}. Arguments q_inner {T}. Arguments q_on_push {T}. Arguments q_on_pop {T}.
Arguments q_log {T}.

Section Queue.
Context {T : Type}.
Implicit Types (q : Queue T) (v : T).

Definition queue_new (cap : Z) : Queue T := mkQueue cap [] false false [].
Definition queue_set_on_push q : Queue T := mkQueue (q_cap q) (q_inner q) true (q_on_pop q) (q_log q).
Definition queue_set_on_pop q : Queue T := mkQueue (q_cap q) (q_inner q) (q_on_push q) true (q_log q).

Definition called (registered : bool) (e : Event) (l : list Event) : list Event :=
  if registered then l ++ [e] else l.

Definition queue_push q v : outcome T unit * Queue T :=
  if q_cap q <=? len (q_inner q) then (Err v, q)
  else (Ok tt, mkQueue (q_cap q) (q_inner q ++ [v]) (q_on_push q) (q_on_pop q)
                       (called (q_on_push q) Pushed (q_log q))).

Definition queue_pop q : option T * Queue T :=
  match q_inner q with
  | v :: inner => (Some v, mkQueue (q_cap q) inner (q_on_push q) (q_on_pop q)
                                   (called (q_on_pop q) Popped (q_log q)))
  | [] => (None, q)
  end.

Definition queue_capacity q : Z := q_cap q.
Definition queue_len q : Z := len (q_inner q).
Definition queue_is_empty q : bool := queue_len q =? 0.

(** ** The sender, running alone *)

Record Channel : Type := mkChannel {
  ch_queue : Queue T;
  signals : nat;
  policy_fn : T → Policy;
}.

Definition sender_len (c : Channel) : Z := queue_len (ch_queue c).
Definition sender_is_empty (c : Channel) : bool := sender_len c =? 0.
Definition set_policy (c : Channel) (f : T → Policy) : Channel :=
  mkChannel (ch_queue c) (signals c) f.

(** [Sender::send] *)
Definition send (c : Channel) v : outcome T unit * Channel :=
  match queue_push (ch_queue c) v with
  | (Err v, q) =>
      match policy_fn c v with
      | Current => (Err v, mkChannel q (signals c) (policy_fn c))
      | Early =>
          let '(removed, q) := queue_pop q in
          match queue_push q v with
          | (Err v, q) => (Err v, mkChannel q (signals c) (policy_fn c))
          | (_, q) =>
              (match removed with Some r => Err r | None => Ok tt end,
               mkChannel q (signals c) (policy_fn c))
          end
      end
  | (r, q) => (r, mkChannel q (S (signals c)) (policy_fn c))
  end.

(** [Sender::pop] *)
Definition sender_pop (c : Channel) : option T * Channel :=
  let '(r, q) := queue_pop (ch_queue c) in (r, mkChannel q (signals c) (policy_fn c)).

(** [ReceiverStream::poll_next] on a channel that is open: [None] is pending. *)
Definition poll_next (c : Channel) : option (option T) * Channel :=
  match signals c with
  | S n => let '(r, q) := queue_pop (ch_queue c) in (Some r, mkChannel q n (policy_fn c))
  | O => (None, c)
  end.

(** ** The limiter *)

(** [Limiter::new]: nanoseconds per token. *)
Definition limiter_period (replenish_nanos burst : Z) : Z :=
  let period := (replenish_nanos mod 2 ^ 64) / burst in
  if 0 <? period then period else 1.

(** [Limiter::channel]: one signal for every message already in the queue. *)
Definition limiter_channel (q : Queue T) : Channel :=
  mkChannel q (length (q_inner q)) (λ _, Current).
End Queue.
Arguments Channel T : clear implicits.

(** ** Interleaved senders and a receiver *)

(** Where a thread inside [send] stands. *)
Inductive SendPc (T : Type) : Type :=
| SStart (v : T)                          (* before the first push *)
| SSignal                                 (* pushed, before [try_send] *)
| SFull (v : T)                           (* rejected, the policy said [Early] *)
| SPopped (removed : option T) (v : T)    (* after the pop *)
| SDone (r : outcome T unit).
Arguments SStart {T}. Arguments SSignal {T}. Arguments SFull {T}. Arguments SPopped {T}.
Arguments SDone {T}.

(** [tokens] counts the receivers between the signal they have taken and the
    [pop]; [received] is what they got, [lost] what no one holds any more. *)
Record Shared (T : Type) : Type := mkShared {
  sh_queue : Queue T;
  sh_signals : nat;
  sh_threads : list (SendPc T);
  sh_tokens : nat;
  sh_received : list T;
  sh_lost : list T;
}.
Arguments mkShared {T}. Arguments sh_queue {T}. Arguments sh_signals {T}.
Arguments sh_threads {T}. Arguments sh_tokens {T}. Arguments sh_received {T}. Arguments sh_lost {T}.

Section Interleaving.
Context {T : Type} (policy : T → Policy).

(** One atomic step of [send], by the thread at a program counter: the counter
    after it, the queue, the signals and what is dropped. *)
Definition send_step (pc : SendPc T) (q : Queue T) (sig : nat)
    : option (SendPc T * Queue T * nat * list T) :=
  match pc with
  | SStart v =>
      match queue_push q v with
      | (Err v, q) =>
          Some (match policy v with Current => SDone (Err v) | Early => SFull v end, q, sig, [])
      | (_, q) => Some (SSignal, q, sig, [])
      end
  | SSignal => Some (SDone (Ok tt), q, S sig, [])
  | SFull v => let '(removed, q) := queue_pop q in Some (SPopped removed v, q, sig, [])
  | SPopped removed v =>
      match queue_push q v with
      | (Err v, q) => Some (SDone (Err v), q, sig, option_list removed)
      | (_, q) =>
          Some (SDone (match removed with Some r => Err r | None => Ok tt end), q, sig, [])
      end
  | SDone _ => None
  end.

Inductive queue_step : Shared T → Shared T → Prop :=
| step_send q sig ts tok rec lost i pc pc' q' sig' d :
    ts !! i = Some pc → send_step pc q sig = Some (pc', q', sig', d) →
    queue_step (mkShared q sig ts tok rec lost)
               (mkShared q' sig' (<[i := pc']> ts) tok rec (lost ++ d))
| step_take q sig ts tok rec lost :
    queue_step (mkShared q (S sig) ts tok rec lost) (mkShared q sig ts (S tok) rec lost)
| step_deliver q sig ts tok rec lost :
    queue_step (mkShared q sig ts (S tok) rec lost)
               (mkShared (queue_pop q).2 sig ts tok (rec ++ option_list (queue_pop q).1) lost).
End Interleaving.

(** ** Facts about the queue *)

Section QueueLemmas.
Context {T : Type}.
Implicit Types (q : Queue T) (v : T).

Lemma queue_push_spec q v :
  (q_cap q ≤ len (q_inner q) ∧ queue_push q v = (Err v, q)) ∨
  (len (q_inner q) < q_cap q ∧ (queue_push q v).1 = Ok tt ∧
   q_inner (queue_push q v).2 = q_inner q ++ [v] ∧ q_cap (queue_push q v).2 = q_cap q).
Proof. unfold queue_push. destruct (Z.leb_spec (q_cap q) (len (q_inner q))); [left|right]; auto. Qed.

Lemma queue_pop_spec q :
  (queue_pop q).1 = head (q_inner q) ∧ q_inner (queue_pop q).2 = tail (q_inner q) ∧
  q_cap (queue_pop q).2 = q_cap q.
Proof. unfold queue_pop. by destruct (q_inner q) eqn:E. Qed.

Lemma queue_pop_perm q : q_inner q ≡ₚ option_list (queue_pop q).1 ++ q_inner (queue_pop q).2.
Proof. destruct (queue_pop_spec q) as (-> & -> & _). by destruct (q_inner q). Qed.

(** What a caller gets back from a send. *)
Definition rejected (r : outcome T unit) : list T :=
  match r with Err v => [v] | _ => [] end.

(** A send that runs alone.  With room the message goes to the back and one
    signal is added; on a full queue [Current] rejects the new message and
    changes nothing, [Early] rejects the oldest one and appends the new one (a
    queue of capacity 0 rejects the new one).  On every branch the bound holds
    afterwards and each message is in the queue or returned, once. *)
Lemma send_correct (c : Channel T) v :
  0 ≤ q_cap (ch_queue c) → len (q_inner (ch_queue c)) ≤ q_cap (ch_queue c) →
  let old := q_inner (ch_queue c) in
  let '(r, c') := send c v in
  let new := q_inner (ch_queue c') in
  let full := q_cap (ch_queue c) <=? len old in
  len new ≤ q_cap (ch_queue c) ∧ old ++ [v] ≡ₚ rejected r ++ new ∧
  (full = false → r = Ok tt ∧ new = old ++ [v] ∧ signals c' = S (signals c)) ∧
  (full = true → policy_fn c v = Current → r = Err v ∧ c' = c) ∧
  (full = true → policy_fn c v = Early →
     signals c' = signals c ∧
     match old with
     | x :: rest => r = Err x ∧ new = rest ++ [v]
     | [] => r = Err v ∧ new = []
     end).
Proof.
  destruct c as [q sig pol]. intros Hc Hl old.
  unfold send. cbn [ch_queue signals policy_fn] in *.
  destruct (queue_push_spec q v) as [[Hf Heq]|(Hr & H1 & H2 & H3)].
  - rewrite Heq. assert ((q_cap q <=? len old) = true) as Hfull by by apply Z.leb_le.
    destruct (pol v) eqn:Hpol.
    { cbn. rewrite Hfull. split; [done|]. split; [apply Permutation_app_comm|].
      split; [done|]. by split. }
    destruct (queue_pop_spec q) as (P1 & P2 & P3). destruct (queue_pop q) as [removed q1].
    cbn in P1, P2, P3. subst removed. fold old in P2 |- *.
    destruct (queue_push_spec q1 v) as [[Hf2 Heq2]|(Hr2 & H1 & H2 & H3)].
    + rewrite Heq2. cbn. rewrite P2, Hfull. rewrite P2, P3 in Hf2.
      unfold old in *. destruct (q_inner q) as [|x rest]; cbn in *.
      * split; [lia|]. split; [done|]. split; [done|]. split; [done|]. auto.
      * rewrite len_cons in *. lia.
    + destruct (queue_push q1 v) as [o q2]. cbn in H1, H2, H3 |- *. subst o. cbn.
      rewrite P2, P3 in *. rewrite H2, Hfull. unfold old in *.
      destruct (q_inner q) as [|x rest]; cbn in *; [rewrite len_nil in *; lia|].
      rewrite len_app, len_cons in *. rewrite len_nil. split; [lia|]. split; [done|].
      split; [done|]. split; [done|]. auto.
  - destruct (queue_push q v) as [o q1]. cbn in H1, H2, H3 |- *. subst o. cbn. fold old in H2 |- *.
    rewrite H2. rewrite (proj2 (Z.leb_gt _ _)) by done. unfold old in *.
    rewrite len_app, len_cons, len_nil. split; [lia|]. by split.
Qed.
End QueueLemmas.

(** ** Facts about interleavings *)

Section InterleavingLemmas.
Context {T : Type} (policy : T → Policy).

(** The messages a thread still answers for: its own, and what it returned. *)
Definition held (pc : SendPc T) : list T :=
  match pc with
  | SStart v | SFull v => [v]
  | SSignal => []
  | SPopped removed v => option_list removed ++ [v]
  | SDone r => rejected r
  end.

Definition all_held (ts : list (SendPc T)) : list T := concat (map held ts).

Lemma all_held_split ts i pc pc' : ts !! i = Some pc →
  ∃ rest, all_held ts ≡ₚ held pc ++ rest ∧ all_held (<[i := pc']> ts) ≡ₚ held pc' ++ rest.
Proof.
  intros Hi. exists (all_held (take i ts) ++ all_held (drop (S i) ts)).
  assert (Hmid : ∀ p, all_held (take i ts ++ p :: drop (S i) ts) ≡ₚ
                      held p ++ all_held (take i ts) ++ all_held (drop (S i) ts)).
  { intros p. unfold all_held. rewrite map_app, concat_app. simpl. solve_Permutation. }
  split.
  - rewrite <-(take_drop_middle ts i pc Hi) at 1. apply Hmid.
  - rewrite insert_take_drop by by eapply lookup_lt_Some. apply Hmid.
Qed.

Definition all_items (s : Shared T) : list T :=
  q_inner (sh_queue s) ++ sh_received s ++ sh_lost s ++ all_held (sh_threads s).

Lemma send_step_items pc q sig pc' q' sig' d :
  send_step policy pc q sig = Some (pc', q', sig', d) →
  q_cap q' = q_cap q ∧ (len (q_inner q) ≤ q_cap q → len (q_inner q') ≤ q_cap q) ∧
  q_inner q ++ held pc ≡ₚ q_inner q' ++ d ++ held pc'.
Proof.
  unfold send_step. destruct pc as [v| |v|removed v|r]; intros H; [| | | |done].
  - destruct (queue_push_spec q v) as [[_ Heq]|(Hr & H1 & H2 & H3)].
    + rewrite Heq in H. simplify_eq. split; [done|]. split; [done|].
      by destruct (policy v).
    + destruct (queue_push q v) as [o q1]. cbn in H1. subst o. simplify_eq. cbn in *.
      split; [done|]. split; [intros _; rewrite H2, len_app, len_cons, len_nil; lia|].
      by rewrite H2, app_nil_r.
  - by simplify_eq.
  - pose proof (queue_pop_perm q) as Hp. destruct (queue_pop_spec q) as (_ & P2 & P3).
    destruct (queue_pop q) as [r q1]. simplify_eq. cbn in *. split; [done|].
    split; [rewrite P2; destruct (q_inner q); simpl; rewrite ?len_cons; lia|].
    rewrite Hp. solve_Permutation.
  - destruct (queue_push_spec q v) as [[_ Heq]|(Hr & H1 & H2 & H3)].
    + rewrite Heq in H. simplify_eq. done.
    + destruct (queue_push q v) as [o q1]. cbn in H1. subst o. simplify_eq. cbn in *.
      split; [done|]. split; [intros _; rewrite H2, len_app, len_cons, len_nil; lia|].
      rewrite H2. destruct removed; cbn; solve_Permutation.
Qed.

Lemma queue_step_items s s' : queue_step policy s s' →
  q_cap (sh_queue s') = q_cap (sh_queue s) ∧
  (len (q_inner (sh_queue s)) ≤ q_cap (sh_queue s) →
   len (q_inner (sh_queue s')) ≤ q_cap (sh_queue s)) ∧
  all_items s ≡ₚ all_items s'.
Proof.
  intros Hs. unfold all_items.
  destruct Hs as [q sig ts tok rec lost i pc pc' q' sig' d Hi Hst| |q sig ts tok rec lost]; cbn.
  - destruct (send_step_items _ _ _ _ _ _ _ Hst) as (Hc & Hb & Hp).
    split; [done|]. split; [done|].
    destruct (all_held_split ts i pc pc' Hi) as (rest & -> & ->).
    transitivity ((q_inner q ++ held pc) ++ rec ++ lost ++ rest); [solve_Permutation|].
    rewrite Hp. solve_Permutation.
  - done.
  - destruct (queue_pop_spec q) as (_ & P2 & P3). split; [done|]. split.
    + rewrite P2. destruct (q_inner q); simpl; rewrite ?len_cons; lia.
    + rewrite (queue_pop_perm q) at 1. solve_Permutation.
Qed.

(** Senders about to send, on a queue with one signal per message. *)
Definition start (q : Queue T) (vs : list T) : Shared T :=
  mkShared q (length (q_inner q)) (map SStart vs) 0 [] [].

Lemma all_held_start vs : all_held (map SStart vs) = vs.
Proof. unfold all_held. induction vs as [|v vs IH]; simpl; [done|]. by rewrite IH. Qed.

(** What a thread that sends [v] has reached. *)
Definition sends (v : T) (pc : SendPc T) : Prop :=
  match pc with
  | SStart w => w = v
  | SFull w | SPopped _ w => w = v ∧ policy v = Early
  | SSignal | SDone _ => True
  end.

Lemma send_step_sends pc q sig pc' q' sig' d v :
  send_step policy pc q sig = Some (pc', q', sig', d) → sends v pc →
  sends v pc' ∧ (length d ≤ 1)%nat ∧ (d = [] ∨ policy v = Early ∧ pc' = SDone (Err v)).
Proof.
  unfold send_step. destruct pc as [w| |w|removed w|r]; intros H Hv; [| | | |done]; simpl in Hv.
  - subst w. destruct (queue_push_spec q v) as [[_ Heq]|(_ & H1 & _)].
    + rewrite Heq in H. simplify_eq. destruct (policy v) eqn:Hp; simpl; auto.
    + destruct (queue_push q v) as [o q1]. cbn in H1. subst o. simplify_eq. simpl. auto.
  - simplify_eq. simpl. auto.
  - destruct (queue_pop q) as [r q1]. simplify_eq. simpl. auto.
  - destruct Hv as [-> He]. destruct (queue_push_spec q v) as [[_ Heq]|(_ & H1 & _)].
    + rewrite Heq in H. simplify_eq. split; [done|]. split; [by destruct removed; simpl; lia|]. by right.
    + destruct (queue_push q v) as [o q1]. cbn in H1. subst o. simplify_eq. simpl. auto with lia.
Qed.

(** Threads [ids] were refused their own message after they had made room. *)
Definition refused (vs : list T) (ts : list (SendPc T)) (ids : list nat) : Prop :=
  NoDup ids ∧ ∀ i, i ∈ ids → ∃ v, vs !! i = Some v ∧ policy v = Early ∧ ts !! i = Some (SDone (Err v)).

Lemma refused_insert vs ts ids i pc pc' :
  refused vs ts ids → ts !! i = Some pc → (∀ r, pc ≠ SDone r) → i ∉ ids ∧ refused vs (<[i := pc']> ts) ids.
Proof.
  intros [Hnd Hids] Hi Hpc.
  assert (i ∉ ids) as Hn by (intros (v & _ & _ & Hv)%Hids; rewrite Hi in Hv; injection Hv as ->; by eapply Hpc).
  split; [done|]. split; [done|]. intros j Hj. destruct (Hids j Hj) as (v & ? & ? & ?). exists v.
  rewrite list_lookup_insert_ne by congruence. done.
Qed.

(** Every message that is lost is paid for by such a thread. *)
Definition lost_inv (vs : list T) (s : Shared T) : Prop :=
  Forall2 sends vs (sh_threads s) ∧
  ∃ ids, length ids = length (sh_lost s) ∧ refused vs (sh_threads s) ids.

Lemma queue_step_lost vs s s' : queue_step policy s s' → lost_inv vs s → lost_inv vs s'.
Proof.
  intros Hs [Hv (ids & Hlen & Hr)]. destruct Hs as [q sig ts tok rec lost i pc pc' q' sig' d Hi Hst| |]; [|by split; [|exists ids]..].
  simpl in *. destruct (Forall2_lookup_r _ _ _ _ _ Hv Hi) as (v & Hvi & Hvp).
  destruct (send_step_sends _ _ _ _ _ _ _ v Hst Hvp) as (Hv' & Hd & Hcase).
  assert (∀ r, pc ≠ SDone r) as Hpc by (intros r ->; done).
  destruct (refused_insert vs ts ids i pc pc' Hr Hi Hpc) as [Hni Hr'].
  split.
  { rewrite <-(list_insert_id vs i v Hvi). by apply Forall2_insert. }
  destruct d as [|x [|y d]]; [exists ids; by rewrite app_nil_r| |simpl in Hd; lia].
  destruct Hcase as [[=]|[Hearly ->]]. exists (i :: ids). split; [simpl; rewrite length_app; simpl; lia|].
  split; [by constructor; [|apply Hr']|]. intros j [->|Hj]%elem_of_cons; [|by apply Hr'].
  exists v. split; [done|]. split; [done|]. apply list_lookup_insert_eq. by eapply lookup_lt_Some.
Qed.

(** *** One send at a time *)

(** A thread in the midst of [send]; at most one of them is. *)
Definition busy (pc : SendPc T) : Prop :=
  match pc with SSignal | SFull _ | SPopped _ _ => True | SStart _ | SDone _ => False end.
Definition alone (s : Shared T) : Prop :=
  ∀ i j pc pc', sh_threads s !! i = Some pc → sh_threads s !! j = Some pc' → busy pc → busy pc' → i = j.
Definition one_by_one (s s' : Shared T) : Prop := queue_step policy s s' ∧ alone s'.

(** The one that has made room still finds it: receivers only make more. *)
Definition room_inv (s : Shared T) : Prop :=
  alone s ∧ sh_lost s = [] ∧ len (q_inner (sh_queue s)) ≤ q_cap (sh_queue s) ∧
  ∀ i r v, sh_threads s !! i = Some (SPopped (Some r) v) → len (q_inner (sh_queue s)) < q_cap (sh_queue s).

Lemma send_step_room pc q sig pc' q' sig' d :
  send_step policy pc q sig = Some (pc', q', sig', d) → len (q_inner q) ≤ q_cap q →
  (∀ r v, pc = SPopped (Some r) v → len (q_inner q) < q_cap q) →
  d = [] ∧ (∀ r v, pc' = SPopped (Some r) v → len (q_inner q') < q_cap q') ∧
  (len (q_inner q') ≤ len (q_inner q) ∨ pc' = SSignal ∨ busy pc).
Proof.
  unfold send_step. destruct pc as [w| |w|removed w|r]; intros H Hl Hroom; [| | | |done].
  - destruct (queue_push_spec q w) as [[_ Heq]|(_ & H1 & _)].
    + rewrite Heq in H. simplify_eq. split; [done|]. split; [by destruct (policy w)|]. left; lia.
    + destruct (queue_push q w) as [o q1]. cbn in H1. subst o. simplify_eq. split; [done|]. split; [done|]. by auto.
  - simplify_eq. split; [done|]. split; [done|]. left; lia.
  - destruct (queue_pop_spec q) as (P1 & P2 & P3). destruct (queue_pop q) as [r q1]. simplify_eq. cbn in *. split; [done|].
    rewrite P2, P3. split; [|by auto]. intros r' v [= Hr ->].
    destruct (q_inner q); simpl in *; [congruence|]. rewrite len_cons in Hl. lia.
  - destruct (queue_push_spec q w) as [[Hf Heq]|(_ & H1 & _)].
    + rewrite Heq in H. simplify_eq. destruct removed as [r|]; [specialize (Hroom r w eq_refl); lia|]. split; [done|]. split; [done|]. left; lia.
    + destruct (queue_push q w) as [o q1]. cbn in H1. subst o. simplify_eq. split; [done|]. split; [done|]. by right; right.
Qed.

Lemma one_by_one_room s s' : one_by_one s s' → room_inv s → room_inv s'.
Proof.
  intros [Hs Ha'] (Ha & Hl & Hb & Hroom). split; [done|].
  destruct (queue_step_items _ _ Hs) as (Hc & Hb' & _).
  destruct Hs as [q sig ts tok rec lost i pc pc' q' sig' d Hi Hst| |q sig ts tok rec lost]; simpl in *.
  - destruct (send_step_room _ _ _ _ _ _ _ Hst Hb) as (-> & Hpc' & Hcase); [intros r v ->; by eapply Hroom|].
    rewrite app_nil_r. split; [done|]. split; [rewrite Hc; by apply Hb'|]. intros j r v Hj.
    destruct (decide (i = j)) as [<-|Hij].
    { rewrite list_lookup_insert_eq in Hj by (by eapply lookup_lt_Some). injection Hj as ->. by eapply Hpc'. }
    pose proof Hj as Hj'. rewrite list_lookup_insert_ne in Hj by done. specialize (Hroom _ _ _ Hj).
    destruct Hcase as [Hle|[->|Hbusy]]; [lia|exfalso..].
    + destruct Hij. apply (Ha' i j SSignal (SPopped (Some r) v)); [|done..].
      apply list_lookup_insert_eq. by eapply lookup_lt_Some.
    + destruct Hij. by apply (Ha i j pc (SPopped (Some r) v)).
  - done.
  - split; [done|]. split; [rewrite Hc; by apply Hb'|]. intros i r v Hi. specialize (Hroom _ _ _ Hi).
    destruct (queue_pop_spec q) as (_ & -> & ->). destruct (q_inner q); simpl; rewrite ?len_cons in *; lia.
Qed.

Lemma rtc_keeps {A} (R : A → A → Prop) (P : A → Prop) x y :
  (∀ a b, R a b → P a → P b) → rtc R x y → P x → P y.
Proof. intros HR. induction 1; eauto. Qed.

Definition conserved (q : Queue T) (vs : list T) (s : Shared T) : Prop :=
  q_cap (sh_queue s) = q_cap q ∧ len (q_inner (sh_queue s)) ≤ q_cap q ∧ q_inner q ++ vs ≡ₚ all_items s.

Lemma queue_step_conserved q vs s s' : queue_step policy s s' → conserved q vs s → conserved q vs s'.
Proof.
  intros Hs (Hc & Hl & Hp). destruct (queue_step_items _ _ Hs) as (Hc' & Hl' & Hp').
  split; [congruence|]. split; [rewrite <-Hc; apply Hl'; lia|]. by rewrite Hp.
Qed.

Lemma start_sends (vs : list T) i pc : map SStart vs !! i = Some pc → ∃ v, pc = SStart v.
Proof. rewrite list_lookup_fmap. intros (v & _ & ->)%fmap_Some. by exists v. Qed.


(** *** Wake-ups *)

Definition signalling (pc : SendPc T) : nat := match pc with SSignal => 1 | _ => 0 end.
Definition owed (ts : list (SendPc T)) : nat := sum_list_with signalling ts.

(** No thread is on the [Early] path. *)
Definition plain (pc : SendPc T) : Prop :=
  match pc with SFull _ | SPopped _ _ => False | _ => True end.

Lemma owed_split ts i pc pc' : ts !! i = Some pc →
  (owed (<[i := pc']> ts) + signalling pc = owed ts + signalling pc')%nat.
Proof.
  intros Hi. unfold owed. rewrite insert_take_drop by by eapply lookup_lt_Some.
  rewrite <-(take_drop_middle ts i pc Hi) at 3.
  rewrite !sum_list_with_app. simpl. lia.
Qed.

Definition awake (s : Shared T) : Prop :=
  Forall plain (sh_threads s) ∧
  (length (q_inner (sh_queue s)) ≤ sh_signals s + sh_tokens s + owed (sh_threads s))%nat.

Lemma awake_step s s' :
  (∀ v, policy v = Current) → queue_step policy s s' → awake s → awake s'.
Proof.
  intros Hpol Hs [Hpl Hlen].
  destruct Hs as [q sig ts tok rec lost i pc pc' q' sig' d Hi Hst|q sig ts tok rec lost
                 |q sig ts tok rec lost];
    cbn [sh_queue sh_signals sh_tokens sh_threads] in *.
  - pose proof (Forall_lookup_1 _ _ _ _ Hpl Hi) as Hpc.
    pose proof (owed_split ts i pc pc' Hi) as Ho. unfold send_step in Hst.
    destruct pc as [v| |v|r v|r]; try done.
    + destruct (queue_push_spec q v) as [[_ Heq]|(_ & H1 & H2 & _)].
      * rewrite Heq, Hpol in Hst. simplify_eq. split; [by apply Forall_insert|].
        cbn [sh_queue sh_signals sh_tokens sh_threads signalling] in *. lia.
      * destruct (queue_push q v) as [o q1]. cbn in H1. subst o. simplify_eq.
        split; [by apply Forall_insert|].
        cbn [sh_queue sh_signals sh_tokens sh_threads signalling snd] in *.
        rewrite H2, length_app. simpl length. lia.
    + simplify_eq. split; [by apply Forall_insert|].
      cbn [sh_queue sh_signals sh_tokens sh_threads signalling] in *. lia.
  - split; [done|]. cbn [sh_queue sh_signals sh_tokens sh_threads]. lia.
  - split; [done|]. cbn [sh_queue sh_signals sh_tokens sh_threads].
    destruct (queue_pop_spec q) as (_ & -> & _).
    destruct (q_inner q); simpl in *; lia.
Qed.

(** C39: no wake-up is lost under [Policy::Current].  In every reachable state
    there are at least as many signals (pending, taken, or about to be sent) as
    messages in the queue, so a receiver that keeps polling empties it. *)
Theorem current_no_lost_wakeup q vs s :
  (∀ v, policy v = Current) → rtc (queue_step policy) (start q vs) s →
  (length (q_inner (sh_queue s)) ≤ sh_signals s + sh_tokens s + owed (sh_threads s))%nat.
Proof.
  intros Hpol Hr.
  assert (H0 : awake (start q vs)).
  { split; [by apply Forall_map, Forall_true|]. simpl. lia. }
  revert H0. induction Hr as [|s1 s2 s3 Hs _ IH]; [by intros [_ ?]|].
  intros Ha. apply IH. by eapply awake_step.
Qed.
End InterleavingLemmas.

(** Under [Policy::Early] a wake-up can be lost.  A sender finds the queue
    full, a receiver takes the message (and its signal) before the sender evicts
    one, and the sender then appends its message without signalling: no thread
    has anything left to do, no signal is pending, and the message stays in the
    queue until someone else sends. *)
Theorem early_lost_wakeup :
  ∃ s, rtc (queue_step (λ _ : Z, Early)) (start (mkQueue 1 [7] false false []) [8]) s ∧
    sh_threads s = [SDone (Ok tt)] ∧ sh_signals s = 0%nat ∧ sh_tokens s = 0%nat ∧
    q_inner (sh_queue s) = [8] ∧ sh_received s = [7].
Proof.
  set (q0 := mkQueue 1 [7] false false [] : Queue Z).
  eexists. split.
  { eapply rtc_l. { by apply (step_send _ q0 1 [SStart 8] 0 [] [] 0 (SStart 8)). } cbn.
    eapply rtc_l. { apply step_take. } eapply rtc_l. { apply step_deliver. } cbn.
    eapply rtc_l. { eapply (step_send _ _ _ _ _ _ _ 0 (SFull 8)); reflexivity. } cbn.
    eapply rtc_l. { eapply (step_send _ _ _ _ _ _ _ 0 (SPopped None 8)); reflexivity. } cbn.
    apply rtc_refl. }
  by cbn.
Qed.

(** Two senders under [Policy::Early] can drop a message: both evict, one takes
    the slot, and the other returns its own message and forgets the evicted one. *)
Definition full_queue : Queue Z := mkQueue 1 [7] false false [].
Definition early_end : Shared Z :=
  mkShared (mkQueue 1 [9] false false []) 1 [SDone (Err 8); SDone (Ok tt)] 0 [] [7].

Lemma early_lost_message : rtc (queue_step (λ _, Early)) (start full_queue [8; 9]) early_end.
Proof.
  eapply rtc_l. { by apply (step_send _ full_queue 1 [SStart 8; SStart 9] 0 [] [] 0 (SStart 8)). } cbn.
  eapply rtc_l. { eapply (step_send _ _ _ _ _ _ _ 1 (SStart 9)); reflexivity. } cbn.
  eapply rtc_l. { eapply (step_send _ _ _ _ _ _ _ 0 (SFull 8)); reflexivity. } cbn.
  eapply rtc_l. { eapply (step_send _ _ _ _ _ _ _ 1 (SFull 9)); reflexivity. } cbn.
  eapply rtc_l. { eapply (step_send _ _ _ _ _ _ _ 1 (SPopped None 9)); reflexivity. } cbn.
  eapply rtc_l. { eapply (step_send _ _ _ _ _ _ _ 0 (SPopped (Some 7) 8)); reflexivity. } cbn.
  apply rtc_refl.
Qed.

(** A sender that makes room alone, while a receiver takes the signal of the message
    that goes: it finds the new one. *)
Definition alone_end : Shared Z :=
  mkShared (mkQueue 1 [] false false []) 0 [SDone (Err 7)] 0 [8] [].

Lemma alone_singleton (s : Shared Z) pc : sh_threads s = [pc] → alone s.
Proof. intros Hs i j ?? Hi Hj _ _. rewrite Hs in Hi, Hj. by destruct i, j. Qed.

Lemma early_alone : rtc (one_by_one (λ _, Early)) (start full_queue [8]) alone_end.
Proof.
  eapply rtc_l. { split; [by apply (step_send _ full_queue 1 [SStart 8] 0 [] [] 0 (SStart 8))|by eapply alone_singleton]. } cbn.
  eapply rtc_l. { split; [eapply (step_send _ _ _ _ _ _ _ 0 (SFull 8)); reflexivity|by eapply alone_singleton]. } cbn.
  eapply rtc_l. { split; [eapply (step_send _ _ _ _ _ _ _ 0 (SPopped (Some 7) 8)); reflexivity|by eapply alone_singleton]. } cbn.
  eapply rtc_l. { split; [apply step_take|by eapply alone_singleton]. } cbn.
  eapply rtc_l. { split; [apply step_deliver|by eapply alone_singleton]. } cbn.
  apply rtc_refl.
Qed.

(** ** Witnesses *)

Definition sample_channel : Channel Z := mkChannel (mkQueue 2 [1; 2] true true []) 2 (λ _, Early).

Lemma send_correct_witness :
  send sample_channel 3 = (Err 1, mkChannel (mkQueue 2 [2; 3] true true [Popped; Pushed]) 2 (λ _, Early)) ∧
  [1; 2; 3] ≡ₚ [1; 2; 3].
Proof.
  split; [reflexivity|].
  assert (H := send_correct sample_channel 3 ltac:(vm_compute; congruence) ltac:(vm_compute; congruence)).
  cbn in H. apply H.
Defined.


Lemma current_no_lost_wakeup_witness :
  (length (q_inner (mkQueue 2 [7; 8] false false [])) ≤ 1 + 0 + 1)%nat.
Proof.
  apply (current_no_lost_wakeup (λ _ : Z, Current) (mkQueue 2 [7] false false []) [8]
           (mkShared (mkQueue 2 [7; 8] false false []) 1 [SSignal] 0 [] [])); [done|].
  apply rtc_once.
  apply (step_send _ (mkQueue 2 [7] false false []) 1 [SStart 8] 0 [] [] 0 (SStart 8) SSignal
           (mkQueue 2 [7; 8] false false []) 1 []); reflexivity.
Defined.
