(* ===== verification/Counter.v ===== *)
(** * Counters

    [ferromq-utils/src/counter.rs]: a pair of atomic [isize] values, the current
    count and its maximum, with a mode for merging counters of several nodes.
    [fetch_add] and [fetch_sub] wrap; the plain addition [prev + c] of [incs] is
    the one of a release build, which wraps too. *)

From stdpp Require Import base list numbers option.
From Stdlib Require Import ZArith Lia.
From S2P Require Import Prelude.

#[local] Open Scope Z_scope.

(** The value of an [isize] after wrapping. *)
Definition as_isize (x : Z) : Z := (x + 2 ^ 63) mod 2 ^ 64 - 2 ^ 63.

(** [i64 + i64], with or without overflow checks; [TimestampMillis] is [i64]. *)
Definition add_i64 (checks : bool) (a b : Z) : option Z :=
  if bool_decide (- 2 ^ 63 ≤ a + b < 2 ^ 63) then Some (a + b)
  else if checks then None else Some (as_isize (a + b)).

Definition sub_i64 (checks : bool) (a b : Z) : option Z := add_i64 checks a (- b).

(** [usize + usize] and [usize - usize] *)
Definition add_usize (checks : bool) (a b : Z) : option Z :=
  if a + b <? 2 ^ 64 then Some (a + b)
  else if checks then None else Some ((a + b) mod 2 ^ 64).
Definition sub_usize (checks : bool) (a b : Z) : option Z :=
  if b <=? a then Some (a - b)
  else if checks then None else Some ((a - b) mod 2 ^ 64).

Lemma add_usize_fits checks a b : a + b < 2 ^ 64 → add_usize checks a b = Some (a + b).
Proof. intros Hab. unfold add_usize. by rewrite (proj2 (Z.ltb_lt _ _) Hab). Qed.

Lemma sub_usize_fits checks a b : b ≤ a → sub_usize checks a b = Some (a - b).
Proof. intros Hab. unfold sub_usize. by rewrite (proj2 (Z.leb_le _ _) Hab). Qed.

Lemma add_i64_fits checks a b : - 2 ^ 63 ≤ a + b < 2 ^ 63 → add_i64 checks a b = Some (a + b).
Proof. intros H. unfold add_i64. by rewrite bool_decide_true. Qed.

(** [Duration::as_millis() as i64] *)
Definition as_millis_i64 (d : Z) : Z := as_isize (d / 1000000).

Inductive StatsMergeMode : Type := MergeNone | MergeSum | MergeAverage | MergeMax | MergeMin.

Record Counter : Type := mkCounter {
  current : Z;
  maximum : Z;
  merge_mode : StatsMergeMode;
}.

Definition counter_new : Counter := mkCounter 0 0 MergeNone.
Definition counter_new_with (c max : Z) (m : StatsMergeMode) : Counter := mkCounter c max m.

(** [count] and [max] *)
Definition count (c : Counter) : Z := current c.
Definition max (c : Counter) : Z := maximum c.

(** *** Updates *)

Definition incs (k : Z) (c : Counter) : Counter :=
  let prev := current c in
  mkCounter (as_isize (prev + k)) (Z.max (maximum c) (as_isize (prev + k))) (merge_mode c).
Definition inc (c : Counter) : Counter := incs 1 c.

Definition current_incs (k : Z) (c : Counter) : Counter :=
  mkCounter (as_isize (current c + k)) (maximum c) (merge_mode c).
Definition current_inc (c : Counter) : Counter := current_incs 1 c.

Definition current_set (k : Z) (c : Counter) : Counter := mkCounter k (maximum c) (merge_mode c).

Definition sets (k : Z) (c : Counter) : Counter :=
  let c := current_set k c in mkCounter (current c) (Z.max (maximum c) k) (merge_mode c).

Definition decs (k : Z) (c : Counter) : Counter :=
  mkCounter (as_isize (current c - k)) (maximum c) (merge_mode c).
Definition dec (c : Counter) : Counter := decs 1 c.

Definition count_min (k : Z) (c : Counter) : Counter :=
  mkCounter (Z.min (current c) k) (maximum c) (merge_mode c).
Definition count_max (k : Z) (c : Counter) : Counter :=
  mkCounter (Z.max (current c) k) (maximum c) (merge_mode c).
Definition max_max (k : Z) (c : Counter) : Counter :=
  mkCounter (current c) (Z.max (maximum c) k) (merge_mode c).
Definition max_min (k : Z) (c : Counter) : Counter :=
  mkCounter (current c) (Z.min (maximum c) k) (merge_mode c).

(** *** Combining counters *)

Definition add (other c : Counter) : Counter :=
  mkCounter (as_isize (current c + current other)) (as_isize (maximum c + maximum other))
            (merge_mode c).

Definition set (other c : Counter) : Counter :=
  mkCounter (current other) (maximum other) (merge_mode c).

Definition stats_merge (mode : StatsMergeMode) (c o : Counter) : Counter :=
  match mode with
  | MergeNone => c
  | MergeSum => add o c
  | MergeMax => max_max (max o) (count_max (count o) c)
  | MergeMin => max_min (max o) (count_min (count o) c)
  | MergeAverage => c
  end.

Definition merge (other c : Counter) : Counter := stats_merge (merge_mode c) c other.

Arguments count : simpl never.
Arguments inc : simpl never.
Arguments dec : simpl never.

(** ** Lemmas *)

Lemma as_isize_id x : - 2 ^ 63 ≤ x < 2 ^ 63 → as_isize x = x.
Proof. intros. unfold as_isize. rewrite Z.mod_small by lia. lia. Qed.

Lemma as_isize_range x : - 2 ^ 63 ≤ as_isize x < 2 ^ 63.
Proof. unfold as_isize. pose proof (Z.mod_pos_bound (x + 2 ^ 63) (2 ^ 64)). lia. Qed.

(** Wrapping can be left to the end. *)
Lemma as_isize_add x k : as_isize (as_isize x + k) = as_isize (x + k).
Proof.
  unfold as_isize. f_equal.
  replace ((x + 2 ^ 63) mod 2 ^ 64 - 2 ^ 63 + k + 2 ^ 63)
    with ((x + 2 ^ 63) mod 2 ^ 64 + k) by lia.
  rewrite Zplus_mod_idemp_l. f_equal. lia.
Qed.

Lemma as_isize_idemp x : as_isize (as_isize x) = as_isize x.
Proof. apply as_isize_id, as_isize_range. Qed.

Lemma count_inc c n : count c = as_isize n → count (inc c) = as_isize (n + 1).
Proof. intros Hc. change (count (inc c)) with (as_isize (count c + 1)). by rewrite Hc, as_isize_add. Qed.

Lemma count_dec c n : count c = as_isize n → count (dec c) = as_isize (n - 1).
Proof.
  intros Hc. change (count (dec c)) with (as_isize (count c - 1)).
  rewrite Hc, <-!Z.add_opp_r. apply as_isize_add.
Qed.

(** The maximum bounds the count as long as only [inc], [incs] and [dec] with
    a non-negative step are used and nothing wraps. *)
Definition bounded (c : Counter) : Prop := current c ≤ maximum c.

Lemma incs_bounded k c : bounded (incs k c).
Proof. unfold bounded. simpl. lia. Qed.

Lemma decs_bounded k c :
  bounded c → 0 ≤ k → - 2 ^ 63 ≤ current c - k → current c < 2 ^ 63 → bounded (decs k c).
Proof. unfold bounded. simpl. intros. rewrite as_isize_id; lia. Qed.

(** Merging two counters of mode [Max] is a least upper bound in each field. *)
Lemma merge_max_comm c o :
  count (stats_merge MergeMax c o) = count (stats_merge MergeMax o c) ∧
  max (stats_merge MergeMax c o) = max (stats_merge MergeMax o c).
Proof. split; apply Z.max_comm. Qed.
