(* ===== verification/Postcard.v ===== *)
(** * Values as bytes

    The encoding of values that go to a disk or to another node is a library's
    (postcard, through serde): the class [Postcard] has its two functions,
    [PostcardOk] and [PostcardTotal] the laws that the code relies on. *)

From stdpp Require Import base list numbers option countable.
From Stdlib Require Import ZArith.
From S2P Require Import Prelude.

#[local] Open Scope Z_scope.

(** [postcard::to_stdvec] and [postcard::from_bytes] *)
Class Postcard (A : Type) := {
  to_stdvec : A → option bytes;
  from_bytes : bytes → option A;
}.

(** What was encoded decodes to itself. *)
Class PostcardOk (A : Type) `{Postcard A} : Prop :=
  from_to (a : A) b : to_stdvec a = Some b → from_bytes b = Some a.

(** Integers and tuples of them can always be encoded into a vector. *)
Class PostcardTotal (A : Type) `{Postcard A} : Prop :=
  to_total (a : A) : is_Some (to_stdvec a).

(** An encoding that meets the laws: values are encoded by their numbers. *)
Definition counted {A} `{Countable A} : Postcard A := {|
  to_stdvec a := Some [Zpos (encode a)];
  from_bytes b := match b with [Zpos p] => decode p | _ => None end;
|}.

Lemma counted_ok {A} `{Countable A} : @PostcardOk A counted.
Proof. intros a b [= <-]. apply decode_encode. Qed.

Lemma counted_total {A} `{Countable A} : @PostcardTotal A counted.
Proof. intros a. by eexists. Qed.
