(* ===== verification/Hash.v ===== *)
(** * Hash maps

    A [HashMap] or [DashMap] is a finite map.  The order in which it is iterated
    is not specified, so code that iterates takes that order as a parameter: the
    class [HashOrder], of which [HashOrderOk] only says that every entry is
    visited once. *)

From stdpp Require Import base list numbers option gmap.
From Stdlib Require Import ZArith Lia.
From S2P Require Import Prelude.

Class HashOrder (K : Type) `{Countable K} :=
  iter : ∀ {A}, gmap K A → list (K * A).

Class HashOrderOk (K : Type) `{HashOrder K} :=
  iter_perm : ∀ A (m : gmap K A), iter m ≡ₚ map_to_list m.

(** An order that meets the law. *)
Definition map_order (K : Type) `{Countable K} : HashOrder K := λ A m, map_to_list m.

Lemma map_order_ok (K : Type) `{Countable K} : @HashOrderOk K _ _ (map_order K).
Proof. by intros A m. Qed.

(** The opposite order meets it too. *)
Definition rev_order (K : Type) `{Countable K} : HashOrder K := λ A m, reverse (map_to_list m).

Lemma rev_order_ok (K : Type) `{Countable K} : @HashOrderOk K _ _ (rev_order K).
Proof. intros A m. unfold iter, rev_order. by rewrite reverse_Permutation. Qed.

Section Iter.
Context {K : Type} `{HashOrderOk K}.

Lemma elem_of_iter {A} (m : gmap K A) k x : (k, x) ∈ iter m ↔ m !! k = Some x.
Proof. rewrite iter_perm. apply elem_of_map_to_list. Qed.

Lemma NoDup_iter {A} (m : gmap K A) : NoDup (iter m).
Proof. rewrite iter_perm. apply NoDup_map_to_list. Qed.

Lemma NoDup_iter_keys {A} (m : gmap K A) : NoDup (iter m).*1.
Proof. rewrite iter_perm. apply NoDup_fst_map_to_list. Qed.

Lemma length_iter {A} (m : gmap K A) : length (iter m) = size m.
Proof. rewrite iter_perm. apply length_map_to_list. Qed.

Lemma iter_empty {A} : iter (∅ : gmap K A) = [].
Proof. apply Permutation_nil. rewrite (iter_perm A ∅). by rewrite map_to_list_empty. Qed.

(** Inserting the entries one after another. *)
Lemma foldl_insert_lookup {A} (l : list (K * A)) (m : gmap K A) k :
  NoDup l.*1 →
  foldl (λ (m : gmap K A) '(k, x), <[k := x]> m) m l !! k =
  match list_to_map (M := gmap K A) l !! k with Some x => Some x | None => m !! k end.
Proof.
  revert m. induction l as [|[k' x] l IH]; intros m Hnd; simpl; [by rewrite lookup_empty|].
  apply NoDup_cons in Hnd as [Hk Hnd]. rewrite IH by done.
  destruct (decide (k = k')) as [->|Hne].
  - rewrite lookup_insert_eq, not_elem_of_list_to_map_1 by done. by rewrite lookup_insert_eq.
  - by rewrite !lookup_insert_ne by done.
Qed.

Lemma foldl_insert_iter {A} (m : gmap K A) : foldl (λ m '(k, x), <[k := x]> m) ∅ (iter m) = m.
Proof.
  apply map_eq. intros k. rewrite foldl_insert_lookup by apply NoDup_iter_keys.
  rewrite lookup_empty. destruct (m !! k) as [x|] eqn:Hk.
  - apply elem_of_iter, (elem_of_list_to_map_1 (M := gmap K)) in Hk; [by rewrite Hk|apply NoDup_iter_keys].
  - destruct (list_to_map _ !! k) as [x|] eqn:Hl; [|done].
    apply elem_of_list_to_map_2, elem_of_iter in Hl. congruence.
Qed.
End Iter.

(** ** Sums over a map *)

Definition map_sum {K A} `{Countable K} (f : A → nat) (m : gmap K A) : nat :=
  map_fold (λ _ x acc, f x + acc) 0 m.

Arguments map_sum : simpl never.

Section MapSum.
Context {K A : Type} `{Countable K} (f : A → nat).

Lemma map_sum_empty : map_sum f (∅ : gmap K A) = 0.
Proof. apply map_fold_empty. Qed.

Lemma map_sum_insert (m : gmap K A) k x : map_sum f (<[k := x]> m) = f x + map_sum f (delete k m).
Proof.
  rewrite <-insert_delete_eq. unfold map_sum.
  rewrite map_fold_insert_L; [done|lia|apply lookup_delete_eq].
Qed.

Lemma map_sum_delete (m : gmap K A) k :
  map_sum f m = from_option f 0 (m !! k) + map_sum f (delete k m).
Proof.
  destruct (m !! k) as [x|] eqn:Hk; simpl.
  - rewrite <-map_sum_insert. by rewrite insert_id.
  - by rewrite delete_id.
Qed.

Lemma map_sum_list (m : gmap K A) : map_sum f m = sum_list_with (f ∘ snd) (map_to_list m).
Proof.
  unfold map_sum. rewrite map_fold_foldr. induction (map_to_list m) as [|[k x] l IH]; [done|].
  simpl. by rewrite IH.
Qed.

Lemma map_sum_iter `{!HashOrder K, !HashOrderOk K} (m : gmap K A) :
  map_sum f m = sum_list_with (f ∘ snd) (iter m).
Proof. rewrite map_sum_list. by rewrite (iter_perm A m). Qed.

Lemma map_sum_0 (m : gmap K A) : map_sum f m = 0 ↔ map_Forall (λ _ x, f x = 0) m.
Proof.
  induction m as [|k x m Hk IH] using map_ind.
  { rewrite map_sum_empty. split; [|done]. intros _ k x. by rewrite lookup_empty. }
  rewrite map_sum_insert, delete_id, map_Forall_insert by done. split.
  - intros. split; [lia|]. apply IH. lia.
  - intros [? ?%IH]. lia.
Qed.
End MapSum.
