(* ===== verification/BrokerTypes.v ===== *)
(** * Types of the broker

    The parts of [ferromq/src/types.rs] that the storage of retained messages,
    the router, access control and delayed publishes share: identities of
    clients, messages with their origin, values with a deadline, subscription
    options, and the topic filter of a SUBSCRIBE packet with its [$share],
    [$limit] and [$exclusive] prefixes.  The features [shared-subscription] and
    [limit-subscription] are enabled.

    An [Instant] is a number of nanoseconds and a [Duration] a non-negative one;
    an operation that reads the clock takes the time as an argument. *)

From stdpp Require Import base list numbers option gmap countable strings.
From Stdlib Require Import ZArith Lia.
From S2P Require Import Prelude Errors Wire CodecTypes MqttV3 PacketV5 Topic Hash.

#[local] Open Scope Z_scope.

(** ** Identities *)

Abbreviation NodeId := Z (only parsing).
Abbreviation ClientId := str (only parsing).
Abbreviation TopicFilter := str (only parsing).
Abbreviation TopicName := str (only parsing).
Abbreviation SharedGroup := str (only parsing).
Abbreviation SubscriptionIdentifier := Z (only parsing).

Inductive SocketAddr : Type :=
| AddrV4 (ip port : Z)
| AddrV6 (ip port flowinfo scope_id : Z).

#[export] Instance SocketAddr_eq_dec : EqDecision SocketAddr.
Proof. solve_decision. Defined.

(** [_Id]; [Id] is a shared pointer to it. *)
Record Id : Type := mkId {
  id_node_id : NodeId;
  id_lid : Z;
  id_local_addr : option SocketAddr;
  id_remote_addr : option SocketAddr;
  id_client_id : ClientId;
  id_username : option str;
  id_create_time : Z;
}.

(** [PartialEq for Id] compares every field. *)
#[export] Instance Id_eq_dec : EqDecision Id.
Proof. solve_decision. Defined.

(** [Id::from] *)
Definition id_from (now : Z) (node_id : NodeId) (client_id : ClientId) : Id :=
  mkId node_id 0 None None client_id None now.

Inductive FromType : Type := Custom | Admin | System | FromLastWill | Bridge.

Record From : Type := mkFrom { from_typ : FromType; from_id : Id }.

Definition from_custom (id : Id) : From := mkFrom Custom id.
Definition from_admin (id : Id) : From := mkFrom Admin id.
Definition from_bridge (id : Id) : From := mkFrom Bridge id.
Definition from_system (id : Id) : From := mkFrom System id.
Definition from_lastwill (id : Id) : From := mkFrom FromLastWill id.

(** ** Messages *)

(** [Publish]: the packet with what the broker adds to it. *)
Record Publish : Type := mkPublish {
  inner : CodecTypes.Publish;
  target_clientid : option ClientId;
  delay_interval : option Z;
  create_time : option Z;
}.

Definition publish_of (p : CodecTypes.Publish) : Publish := mkPublish p None None None.

(** Updates of the packet, as through [DerefMut]. *)
Definition on_inner (f : CodecTypes.Publish → CodecTypes.Publish) (p : Publish) : Publish :=
  mkPublish (f (inner p)) (target_clientid p) (delay_interval p) (create_time p).

Definition set_dup (b : bool) (p : CodecTypes.Publish) : CodecTypes.Publish :=
  CodecTypes.mkPublish b (retain p) (qos p) (topic p) (packet_id p) (payload p) (properties p).
Definition set_retain (b : bool) (p : CodecTypes.Publish) : CodecTypes.Publish :=
  CodecTypes.mkPublish (dup p) b (qos p) (topic p) (packet_id p) (payload p) (properties p).
Definition set_pub_qos (q : QoS) (p : CodecTypes.Publish) : CodecTypes.Publish :=
  CodecTypes.mkPublish (dup p) (retain p) q (topic p) (packet_id p) (payload p) (properties p).
Definition set_topic (t : TopicName) (p : CodecTypes.Publish) : CodecTypes.Publish :=
  CodecTypes.mkPublish (dup p) (retain p) (qos p) t (packet_id p) (payload p) (properties p).
Definition set_packet_id (i : option Z) (p : CodecTypes.Publish) : CodecTypes.Publish :=
  CodecTypes.mkPublish (dup p) (retain p) (qos p) (topic p) i (payload p) (properties p).
Definition set_properties (pp : option PublishProperties) (p : CodecTypes.Publish) : CodecTypes.Publish :=
  CodecTypes.mkPublish (dup p) (retain p) (qos p) (topic p) (packet_id p) (payload p) pp.
Definition set_subscription_ids (ids : list Z) (pp : PublishProperties) : PublishProperties :=
  mkPublishProperties (topic_alias pp) (correlation_data pp) (message_expiry_interval pp)
    (content_type pp) (user_properties pp) (is_utf8_payload pp) (response_topic pp) ids.

(** [Publish::create_time] and the update of [delay_interval] *)
Definition with_create_time (t : Z) (p : Publish) : Publish :=
  mkPublish (inner p) (target_clientid p) (delay_interval p) (Some t).

Record Retain : Type := mkRetain {
  msg_id : option Z;
  r_from : From;
  r_publish : Publish;
}.

(** ** Values with a deadline *)

Record TimedValue (V : Type) : Type := mkTimed { tv_value : V; tv_deadline : option Z }.
Arguments mkTimed {V}. Arguments tv_value {V}. Arguments tv_deadline {V}.

Definition timed_new {V} (now : Z) (value : V) (timeout_duration : option Z) : TimedValue V :=
  mkTimed value ((λ t, now + t) <$> timeout_duration).

Definition tv_is_expired {V} (now : Z) (tv : TimedValue V) : bool :=
  match tv_deadline tv with Some e => e <=? now | None => false end.

Definition tv_remaining {V} (now : Z) (tv : TimedValue V) : option Z :=
  tv_deadline tv ≫= λ d, if now <? d then Some (d - now) else None.

(** A value that has not expired is not a moment too old, and says how long it
    has left. *)
Lemma tv_new_expired {V} t0 now (v : V) d :
  tv_is_expired now (timed_new t0 v d) = from_option (λ t, t0 + t <=? now) false d.
Proof. by destruct d. Qed.

Lemma tv_remaining_pos {V} now (tv : TimedValue V) r :
  tv_remaining now tv = Some r → 0 < r ∧ tv_is_expired now tv = false.
Proof.
  unfold tv_remaining, tv_is_expired. destruct (tv_deadline tv) as [d|]; simpl; [|done].
  destruct (Z.ltb_spec now d); [|done]. intros [= <-]. split; lia.
Qed.

(** ** Subscription options *)

Record SubOptionsV3 : Type := mkSubOptionsV3 {
  o3_qos : QoS;
  o3_shared_group : option SharedGroup;
  o3_limit_subs : option Z;
}.

Record SubOptionsV5 : Type := mkSubOptionsV5 {
  o5_qos : QoS;
  o5_shared_group : option SharedGroup;
  o5_limit_subs : option Z;
  o5_no_local : bool;
  o5_retain_as_published : bool;
  o5_retain_handling : RetainHandling;
  o5_id : option SubscriptionIdentifier;
}.

Inductive SubscriptionOptions : Type :=
| SubV3 (opts : SubOptionsV3)
| SubV5 (opts : SubOptionsV5).

#[export] Instance SubOptionsV3_eq_dec : EqDecision SubOptionsV3.
Proof. solve_decision. Defined.
#[export] Instance SubOptionsV5_eq_dec : EqDecision SubOptionsV5.
Proof. solve_decision. Defined.
#[export] Instance SubscriptionOptions_eq_dec : EqDecision SubscriptionOptions.
Proof. solve_decision. Defined.

Definition no_local (o : SubscriptionOptions) : option bool :=
  match o with SubV3 _ => None | SubV5 o => Some (o5_no_local o) end.
Definition retain_as_published (o : SubscriptionOptions) : option bool :=
  match o with SubV3 _ => None | SubV5 o => Some (o5_retain_as_published o) end.
Definition retain_handling (o : SubscriptionOptions) : option RetainHandling :=
  match o with SubV3 _ => None | SubV5 o => Some (o5_retain_handling o) end.
Definition subscription_identifier (o : SubscriptionOptions) : option SubscriptionIdentifier :=
  match o with SubV3 _ => None | SubV5 o => o5_id o end.
Definition opts_qos (o : SubscriptionOptions) : QoS :=
  match o with SubV3 o => o3_qos o | SubV5 o => o5_qos o end.
Definition opts_qos_value (o : SubscriptionOptions) : Z := qos_value (opts_qos o).
Definition shared_group (o : SubscriptionOptions) : option SharedGroup :=
  match o with SubV3 o => o3_shared_group o | SubV5 o => o5_shared_group o end.
Definition has_shared_group (o : SubscriptionOptions) : bool := is_some (shared_group o).
Definition limit_subs (o : SubscriptionOptions) : option Z :=
  match o with SubV3 o => o3_limit_subs o | SubV5 o => o5_limit_subs o end.
Definition is_v3 (o : SubscriptionOptions) : bool :=
  match o with SubV3 _ => true | SubV5 _ => false end.
Definition is_v5 (o : SubscriptionOptions) : bool :=
  match o with SubV5 _ => true | SubV3 _ => false end.

Definition set_qos (o : SubscriptionOptions) (q : QoS) : SubscriptionOptions :=
  match o with
  | SubV3 o => SubV3 (mkSubOptionsV3 q (o3_shared_group o) (o3_limit_subs o))
  | SubV5 o => SubV5 (mkSubOptionsV5 q (o5_shared_group o) (o5_limit_subs o) (o5_no_local o)
                        (o5_retain_as_published o) (o5_retain_handling o) (o5_id o))
  end.

(** [SubscriptionOptions::default()] *)
Definition options_default : SubscriptionOptions := SubV3 (mkSubOptionsV3 AtMostOnce None None).

(** The two [From] conversions, from the options of a SUBSCRIBE packet. *)
Definition options_from_v3 (q : QoS) (g : option SharedGroup) (l : option Z)
    : SubscriptionOptions := SubV3 (mkSubOptionsV3 q g l).
Definition options_from_v5 (o : PacketV5.SubscriptionOptions) (g : option SharedGroup)
    (l : option Z) (id : option SubscriptionIdentifier) : SubscriptionOptions :=
  SubV5 (mkSubOptionsV5 (so_qos o) g l (so_no_local o) (so_retain_as_published o)
           (so_retain_handling o) id).

(** ** Strings *)

(** [s.split_once(sep)] and [s.splitn(n, sep)] *)
Fixpoint split_once (sep : Z) (s : str) : option (str * str) :=
  match s with
  | [] => None
  | c :: s =>
      if c =? sep then Some ([], s)
      else match split_once sep s with Some (a, b) => Some (c :: a, b) | None => None end
  end.

Fixpoint splitn (n : nat) (sep : Z) (s : str) : list str :=
  match n with
  | O => []
  | S O => [s]
  | S n => match split_once sep s with Some (a, b) => a :: splitn n sep b | None => [s] end
  end.

(** [s.strip_prefix(p)] *)
Fixpoint strip_prefix (p s : str) : option str :=
  match p, s with
  | [], s => Some s
  | c :: p, c' :: s => if c =? c' then strip_prefix p s else None
  | _ :: _, [] => None
  end.

(** [s.trim_start_matches(p)] removes the prefix as often as it is there. *)
Fixpoint trim_start_matches_loop (fuel : nat) (p s : str) : str :=
  match fuel with
  | O => s
  | S fuel => match strip_prefix p s with
              | Some s => trim_start_matches_loop fuel p s
              | None => s
              end
  end.
Definition trim_start_matches (p s : str) : str := trim_start_matches_loop (length s) p s.

(** [s.parse()] at an unsigned type of [bits] bits: an optional plus sign, then
    at least one digit, and no overflow. *)
Fixpoint parse_digits (bits acc : Z) (s : str) : option Z :=
  match s with
  | [] => Some acc
  | c :: s =>
      if (48 <=? c) && (c <=? 57) then
        let acc := acc * 10 + (c - 48) in
        if acc <? 2 ^ bits then parse_digits bits acc s else None
      else None
  end.

Definition parse_unsigned (bits : Z) (s : str) : option Z :=
  match s with
  | [] => None
  | [c] => parse_digits bits 0 [c]
  | c :: s' => if c =? PLUS then parse_digits bits 0 s' else parse_digits bits 0 s
  end.

(** ** The filter of a subscription *)

Inductive FilterError : Type :=
| IllegalTopicFilter (topic_filter : str)
| SharedNotEnabled (topic_filter : str)
| LimitNotEnabled (topic_filter : str).

Definition parse_topic_filter (topic_filter : str) (shared_subscription limit_subscription : bool)
    : outcome FilterError (TopicFilter * option SharedGroup * option Z) :=
  let invalid_filter := Err (IllegalTopicFilter topic_filter) in
  let parsed :=
    if shared_subscription || limit_subscription then
      let levels := splitn 3 SLASH topic_filter in
      if bool_decide (levels !! 0%nat = Some (lit "$share")) then
        match shared_subscription, levels !! 1%nat, levels !! 2%nat with
        | true, Some group, Some tf => Ok (tf, Some group, None)
        | true, _, _ => invalid_filter
        | false, _, _ => Err (SharedNotEnabled topic_filter)
        end
      else if bool_decide (levels !! 0%nat = Some (lit "$limit")) then
        match limit_subscription, levels !! 1%nat, levels !! 2%nat with
        | true, Some limit, Some tf =>
            match parse_unsigned 64 limit with
            | Some limit => Ok (tf, None, Some limit)
            | None => invalid_filter
            end
        | true, _, _ => invalid_filter
        | false, _, _ => Err (LimitNotEnabled topic_filter)
        end
      else if bool_decide (levels !! 0%nat = Some (lit "$exclusive")) then
        if limit_subscription then
          Ok (trim_start_matches (lit "$exclusive/") topic_filter, None, Some 1)
        else Err (LimitNotEnabled topic_filter)
      else Ok (topic_filter, None, None)
    else Ok (topic_filter, None, None) in
  match parsed with
  | Ok (topic, shared_group, limit_subs) =>
      if bool_decide (topic = []) then invalid_filter else Ok (topic, shared_group, limit_subs)
  | r => r
  end.

Record Subscribe : Type := mkSubscribe {
  s_topic_filter : TopicFilter;
  s_opts : SubscriptionOptions;
}.

Definition subscribe_from_v3 (topic_filter : str) (qos : QoS) (shared limit : bool)
    : outcome FilterError Subscribe :=
  outcome_map (λ '(topic_filter, g, l), mkSubscribe topic_filter (options_from_v3 qos g l))
    (parse_topic_filter topic_filter shared limit).

Definition subscribe_from_v5 (topic_filter : str) (opts : PacketV5.SubscriptionOptions)
    (shared limit : bool) (sub_id : option Z) : outcome FilterError Subscribe :=
  outcome_map (λ '(topic_filter, g, l), mkSubscribe topic_filter (options_from_v5 opts g l sub_id))
    (parse_topic_filter topic_filter shared limit).

Definition is_shared (s : Subscribe) : bool := has_shared_group (s_opts s).

Record Unsubscribe : Type := mkUnsubscribe {
  u_topic_filter : TopicFilter;
  u_shared_group : option SharedGroup;
}.

Definition unsubscribe_from (topic_filter : str) (shared limit : bool)
    : outcome FilterError Unsubscribe :=
  outcome_map (λ '(topic_filter, g, _), mkUnsubscribe topic_filter g)
    (parse_topic_filter topic_filter shared limit).

(** ** What a subscription is answered with *)

Record SubscribeReturn : Type := mkSubscribeReturn {
  ack_reason : SubscribeAckReason;
  prev_opts : option SubscriptionOptions;
}.

Definition new_success (q : QoS) (prev : option SubscriptionOptions) : SubscribeReturn :=
  mkSubscribeReturn
    match q with
    | AtMostOnce => SAGrantedQos0 | AtLeastOnce => SAGrantedQos1 | ExactlyOnce => SAGrantedQos2
    end prev.

Definition new_failure (r : SubscribeAckReason) : SubscribeReturn := mkSubscribeReturn r None.

Definition success (r : SubscribeReturn) : option QoS :=
  match ack_reason r with
  | SAGrantedQos0 => Some AtMostOnce
  | SAGrantedQos1 => Some AtLeastOnce
  | SAGrantedQos2 => Some ExactlyOnce
  | _ => None
  end.

Definition failure (r : SubscribeReturn) : bool := negb (is_some (success r)).

Lemma new_success_success q prev : success (new_success q prev) = Some q.
Proof. by destruct q. Qed.
