(* ===== verification/Inflight.v ===== *)
(** * Inflight windows

    Models [ferromq/src/inflight.rs]: the outbound window ([OutInflight]: packet
    identifiers, acknowledgement status, retransmission timing, credit) and the
    inbound set of QoS 2 identifiers ([InInflight]).

    The queue of the outbound window is a [rust_box::dequemap::DequeBTreeMap],
    which is not part of the repository: it is the interface [DequeMap] with the
    laws [DequeMapOk], and every theorem holds for each implementation of it.
    The clock is an argument; the event callbacks are a log of the calls made. *)

From stdpp Require Import base list numbers option gmap.
From Stdlib Require Import ZArith Lia.
From S2P Require Import Prelude CodecTypes Queue BrokerTypes.

#[local] Open Scope Z_scope.

(** ** The insertion-ordered map *)

(** The value of a key in a list of entries. *)
Fixpoint assoc {V} (k : Z) (l : list (Z * V)) : option V :=
  match l with
  | [] => None
  | (k', v) :: l => if k' =? k then Some v else assoc k l
  end.

Definition without {V} (k : Z) (l : list (Z * V)) : list (Z * V) :=
  filter (λ '(k', _), k' ≠ k) l.

Class DequeMap (V Q : Type) := {
  dq_default : Q;
  dq_iter : Q → list (Z * V);
  dq_get : Q → Z → option V;
  dq_contains_key : Q → Z → bool;
  dq_insert : Q → Z → V → option V * Q;
  dq_remove : Q → Z → option V * Q;
  dq_get_mut : Q → Z → (V → V) → Q;
  dq_front : Q → option (Z * V);
  dq_pop_front : Q → option (Z * V) * Q;
  dq_len : Q → Z;
}.

(** Keys are unique; a new key goes to the back; a key that is there keeps one
    entry, whose position is left open; the front is the head of the iteration. *)
Class DequeMapOk (V Q : Type) `{!DequeMap V Q} : Prop := {
  dq_nodup q : NoDup (dq_iter q).*1;
  dq_default_iter : dq_iter dq_default = [];
  dq_get_assoc q k : dq_get q k = assoc k (dq_iter q);
  dq_contains_get q k : dq_contains_key q k = is_some (dq_get q k);
  dq_insert_old q k v : (dq_insert q k v).1 = dq_get q k;
  dq_insert_new q k v : dq_get q k = None →
    dq_iter (dq_insert q k v).2 = dq_iter q ++ [(k, v)];
  dq_insert_perm q k v :
    dq_iter (dq_insert q k v).2 ≡ₚ (k, v) :: without k (dq_iter q);
  dq_remove_old q k : (dq_remove q k).1 = dq_get q k;
  dq_remove_iter q k : dq_iter (dq_remove q k).2 = without k (dq_iter q);
  dq_get_mut_iter q k f :
    dq_iter (dq_get_mut q k f) =
    map (λ '(k', v), (k', if k' =? k then f v else v)) (dq_iter q);
  dq_front_head q : dq_front q = head (dq_iter q);
  dq_pop_front_head q : (dq_pop_front q).1 = head (dq_iter q);
  dq_pop_front_iter q : dq_iter (dq_pop_front q).2 = tail (dq_iter q);
  dq_len_iter q : dq_len q = len (dq_iter q);
}.

(** ** Messages *)

Inductive MomentStatus : Type := UnAck | UnReceived | UnComplete.

(** The origin of a message is carried along and never inspected here. *)
Record OutInflightMessage {F : Type} : Type := mkOutMsg {
  publish : BrokerTypes.Publish;
  from : F;
  status : MomentStatus;
  update_time : Z;
}.
Arguments OutInflightMessage F : clear implicits.

Section OutInflight.
Context {F Q : Type} `{!DequeMap (OutInflightMessage F) Q}.
#[local] Abbreviation msg := (OutInflightMessage F).

(** [OutInflightMessage::new], [update_status] and [timeout] *)
Definition out_msg_new (now : Z) (s : MomentStatus) (f : F) (p : BrokerTypes.Publish) : msg :=
  mkOutMsg F p f s now.

Definition msg_update_status (now : Z) (s : MomentStatus) (m : msg) : msg :=
  mkOutMsg F (publish m) (from m) s now.

Definition timeout (now : Z) (m : msg) (interval_millis : Z) : bool :=
  (0 <? interval_millis) && (interval_millis <=? now - update_time m).

(** [on_push_fn] and [on_pop_fn] are registered or not; [log] is the calls
    they have received. *)
Record OutInflight : Type := mkOut {
  cap : Z;
  interval : Z;
  next : Z;
  queues : Q;
  on_push_fn : bool;
  on_pop_fn : bool;
  log : list Event;
}.

Definition min_interval (retry_interval expiry_interval : Z) : Z :=
  if (retry_interval =? 0) && (expiry_interval =? 0) then 0
  else if retry_interval =? 0 then expiry_interval
  else if expiry_interval =? 0 then retry_interval
  else Z.min retry_interval expiry_interval.

Definition out_new (cap retry_interval expiry_interval : Z) : OutInflight :=
  mkOut cap (min_interval retry_interval expiry_interval) 1 dq_default false false [].

Definition out_on_push (o : OutInflight) : OutInflight :=
  mkOut (cap o) (interval o) (next o) (queues o) true (on_pop_fn o) (log o).
Definition out_on_pop (o : OutInflight) : OutInflight :=
  mkOut (cap o) (interval o) (next o) (queues o) (on_push_fn o) true (log o).

(** Calling a callback if there is one. *)
Definition call_push (o : OutInflight) : OutInflight :=
  if on_push_fn o
  then mkOut (cap o) (interval o) (next o) (queues o) (on_push_fn o) (on_pop_fn o) (log o ++ [Pushed])
  else o.
Definition call_pop (o : OutInflight) : OutInflight :=
  if on_pop_fn o
  then mkOut (cap o) (interval o) (next o) (queues o) (on_push_fn o) (on_pop_fn o) (log o ++ [Popped])
  else o.
Definition set_queues (o : OutInflight) (q : Q) : OutInflight :=
  mkOut (cap o) (interval o) (next o) q (on_push_fn o) (on_pop_fn o) (log o).
Definition set_next (o : OutInflight) (n : Z) : OutInflight :=
  mkOut (cap o) (interval o) n (queues o) (on_push_fn o) (on_pop_fn o) (log o).

(** [get_timeout], in milliseconds *)
Definition get_timeout (now : Z) (o : OutInflight) : option Z :=
  if interval o =? 0 then None else
  match dq_front (queues o) with
  | Some (_, m) =>
      let t := interval o - (now - update_time m) in
      Some (if t <? 1 then 1 else t)
  | None => None
  end.

Definition front_timeout (now : Z) (o : OutInflight) : bool :=
  if interval o =? 0 then false else
  match dq_front (queues o) with
  | Some (_, m) => timeout now m (interval o)
  | None => false
  end.

Definition out_get (o : OutInflight) (packet_id : Z) : option msg := dq_get (queues o) packet_id.
Definition out_front (o : OutInflight) : option (Z * msg) := dq_front (queues o).

Definition pop_front (o : OutInflight) : option msg * OutInflight :=
  match dq_pop_front (queues o) with
  | (Some (_, m), q) => (Some m, call_pop (set_queues o q))
  | (None, q) => (None, set_queues o q)
  end.

Definition pop_front_timeout (now : Z) (o : OutInflight) : option msg * OutInflight :=
  if front_timeout now o then pop_front o else (None, o).

Definition msg_packet_id (m : msg) : option Z := packet_id (inner (publish m)).

Definition push_back (o : OutInflight) (m : msg) : option Z * OutInflight :=
  match msg_packet_id m with
  | Some pid =>
      let o := call_push o in
      let '(old, q) := dq_insert (queues o) pid m in
      let o := set_queues o q in
      let o := if is_some old then call_pop o else o in
      (old ≫= msg_packet_id, o)
  | None => (None, o)
  end.

Definition out_remove (o : OutInflight) (pid : Z) : option msg * OutInflight :=
  match dq_remove (queues o) pid with
  | (Some m, q) => (Some m, call_pop (set_queues o q))
  | (None, q) => (None, set_queues o q)
  end.

Definition out_update_status (now : Z) (o : OutInflight) (pid : Z) (s : MomentStatus)
    : OutInflight :=
  set_queues o (dq_get_mut (queues o) pid (msg_update_status now s)).

Definition out_len (o : OutInflight) : Z := dq_len (queues o).
Definition out_is_empty (o : OutInflight) : bool := dq_len (queues o) =? 0.
Definition out_exist (o : OutInflight) (pid : Z) : bool := dq_contains_key (queues o) pid.

(** [(self.cap - self.queues.len()) > 0] on [usize]: a negative difference
    panics in a build with overflow checks and wraps otherwise. *)
Definition has_credit (overflow_checks : bool) (o : OutInflight) : outcome unit bool :=
  let d := cap o - dq_len (queues o) in
  if 0 <=? d then Ok (0 <? d)
  else if overflow_checks then Panic
  else Ok (0 <? d mod 2 ^ 64).

(** The loop of [next_id]: at most [k] probes.  [fetch_add] wraps. *)
Fixpoint probe (k : nat) (used : Z → bool) (nxt : Z) : option Z * Z :=
  match k with
  | O => (None, nxt)
  | S k =>
      let nxt' := as_u16 (nxt + 1) in
      if nxt =? 0 then probe k used nxt'
      else if negb (used nxt) then (Some nxt, nxt')
      else probe k used nxt'
  end.

(** [0..u16::MAX] *)
Definition PROBES : nat := Z.to_nat 65535.

Definition next_id (o : OutInflight) : option Z * OutInflight :=
  let '(r, n) := probe PROBES (dq_contains_key (queues o)) (next o) in
  (r, set_next o n).

(** [fetch_max(max_reserved.saturating_add(1))] *)
Definition advance_next_id (o : OutInflight) (max_reserved : Z) : OutInflight :=
  set_next o (Z.max (next o) (Z.min (max_reserved + 1) 65535)).

(** [while let Some(msg) = self.pop_front()] *)
Fixpoint pop_all (fuel : nat) (acc : list msg) (o : OutInflight) : option (list msg * OutInflight) :=
  match fuel with
  | O => None
  | S fuel =>
      match pop_front o with
      | (Some m, o) => pop_all fuel (acc ++ [m]) o
      | (None, o) => Some (acc, o)
      end
  end.

Definition to_inflight_messages (o : OutInflight) : option (list msg * OutInflight) :=
  pop_all (S (Z.to_nat (dq_len (queues o)))) [] o.

Definition clone_inflight_messages (o : OutInflight) : list msg := (dq_iter (queues o)).*2.
End OutInflight.

(** ** The inbound set *)

Inductive AddError : Type :=
| InflightWindowFull
| PacketIdInUse (pid : Z).

(** [in_inflights] is the server-wide counter of [scx.stats]. *)
Record InInflight : Type := mkIn {
  cached : gset Z;
  max_inflight : Z;
  in_inflights : Z;
}.

Definition in_new (stat max_inflight : Z) : InInflight := mkIn ∅ max_inflight stat.

Definition in_add (i : InInflight) (pid : Z) (q : QoS) : outcome AddError bool * InInflight :=
  if max_inflight i <=? Z.of_nat (size (cached i)) then (Err InflightWindowFull, i)
  else if bool_decide (pid ∉ cached i) then
    (Ok true, mkIn ({[pid]} ∪ cached i) (max_inflight i) (in_inflights i + 1))
  else match q with
       | ExactlyOnce => (Err (PacketIdInUse pid), i)
       | _ => (Ok false, i)
       end.

Definition in_exist (i : InInflight) (pid : Z) : bool := bool_decide (pid ∈ cached i).

Definition in_remove (i : InInflight) (pid : Z) : bool * InInflight :=
  if bool_decide (pid ∈ cached i) then
    (true, mkIn (cached i ∖ {[pid]}) (max_inflight i) (in_inflights i - 1))
  else (false, i).

(** [Drop]: the counter after the set is gone. *)
Definition in_drop (i : InInflight) : Z := in_inflights i - Z.of_nat (size (cached i)).

Lemma PROBES_eq : Z.of_nat PROBES = 65535.
Proof. unfold PROBES. by rewrite Z2Nat.id. Qed.

#[global] Opaque PROBES.

(** ** Entries *)

Lemma assoc_Some_elem {V} k (v : V) l : assoc k l = Some v → (k, v) ∈ l.
Proof.
  induction l as [|[k' v'] l IH]; simpl; [done|].
  destruct (Z.eqb_spec k' k) as [->|]; [intros [= ->]; left|right; auto].
Qed.

Lemma assoc_None {V} k (l : list (Z * V)) : assoc k l = None ↔ k ∉ l.*1.
Proof.
  induction l as [|[k' v'] l IH]; simpl.
  - split; [intros _; apply not_elem_of_nil|done].
  - rewrite not_elem_of_cons, <-IH. destruct (Z.eqb_spec k' k); naive_solver.
Qed.

Lemma without_id {V} k (l : list (Z * V)) : k ∉ l.*1 → without k l = l.
Proof.
  unfold without. induction l as [|[k' v] l IH]; [done|].
  simpl. intros [Hk Hl]%not_elem_of_cons. rewrite filter_cons_True by congruence. by rewrite IH.
Qed.

Lemma without_length {V} k (v : V) l :
  NoDup l.*1 → assoc k l = Some v → len l = 1 + len (without k l).
Proof.
  unfold without. induction l as [|[k' v'] l IH]; simpl; [done|].
  intros [Hk Hl]%NoDup_cons. destruct (Z.eqb_spec k' k) as [->|].
  - intros _. rewrite filter_cons_False by naive_solver. fold (without k l).
    by rewrite without_id, len_cons.
  - intros Ha. rewrite filter_cons_True by done. rewrite !len_cons, (IH Hl Ha). lia.
Qed.

Lemma assoc_app {V} k (l1 l2 : list (Z * V)) :
  assoc k (l1 ++ l2) = match assoc k l1 with Some v => Some v | None => assoc k l2 end.
Proof. induction l1 as [|[k' v] l1 IH]; simpl; [done|]. by destruct (k' =? k). Qed.

Lemma assoc_map {V} k k' (f : V → V) l :
  assoc k (map (λ '(k0, v), (k0, if k0 =? k' then f v else v)) l) =
  (if k =? k' then f else id) <$> assoc k l.
Proof.
  induction l as [|[k0 v] l IH]; simpl; [by destruct (k =? k')|].
  destruct (Z.eqb_spec k0 k) as [->|]; simpl; [|done]. by destruct (k =? k').
Qed.

Lemma without_map {V} k (f : V → V) l :
  without k (map (λ '(k0, v), (k0, if k0 =? k then f v else v)) l) = without k l.
Proof.
  unfold without. induction l as [|[k0 v] l IH]; [done|]. cbn [map].
  destruct (decide (k0 = k)) as [->|Hne].
  - rewrite !filter_cons_False by tauto. done.
  - rewrite !filter_cons_True by done. rewrite IH. by rewrite (proj2 (Z.eqb_neq k0 k)).
Qed.

Lemma without_app {V} k (l1 l2 : list (Z * V)) : without k (l1 ++ l2) = without k l1 ++ without k l2.
Proof. apply filter_app. Qed.

Lemma Forall_without {V} (P : Z * V → Prop) k l : Forall P l → Forall P (without k l).
Proof. intros H. apply Forall_forall. intros x [_ Hx]%list_elem_of_filter. by eapply Forall_forall in H. Qed.

(** ** The probing loop *)

Lemma as_u16_range x : 0 ≤ as_u16 x < 2 ^ 16.
Proof. apply Z.mod_pos_bound. lia. Qed.

(** The identifier probed after [i] steps. *)
Definition probed (start : Z) (i : nat) : Z := as_u16 (start + Z.of_nat i).

Lemma probed_S start i : 0 ≤ start < 2 ^ 16 → probed start (S i) = probed (as_u16 (start + 1)) i.
Proof. intros Hs. unfold probed, as_u16. rewrite Zplus_mod_idemp_l. f_equal. lia. Qed.

Lemma probed_0 start : 0 ≤ start < 2 ^ 16 → probed start 0 = start.
Proof. intros. unfold probed, as_u16. rewrite Z.add_0_r. by apply Z.mod_small. Qed.

Lemma probe_Some k used start id n :
  0 ≤ start < 2 ^ 16 → probe k used start = (Some id, n) →
  nz_u16 id ∧ used id = false ∧ n = as_u16 (id + 1) ∧ ∃ i, (i < k)%nat ∧ id = probed start i.
Proof.
  revert start. induction k as [|k IH]; intros start Hs; simpl; [done|].
  assert (Hrec : probe k used (as_u16 (start + 1)) = (Some id, n) →
    nz_u16 id ∧ used id = false ∧ n = as_u16 (id + 1) ∧ ∃ i, (i < S k)%nat ∧ id = probed start i).
  { intros H. destruct (IH _ (as_u16_range _) H) as (? & ? & ? & i & Hi & ->).
    split; [done|]. split; [done|]. split; [done|]. exists (S i). by rewrite probed_S by done; split; [lia|]. }
  destruct (Z.eqb_spec start 0); [done|].
  destruct (used start) eqn:Hu; simpl; [done|]. intros [= <- <-].
  split; [range_lia|]. split; [done|]. split; [done|]. exists 0%nat.
  rewrite probed_0 by done. split; [lia|done].
Qed.

Lemma probe_None k used start n :
  0 ≤ start < 2 ^ 16 → probe k used start = (None, n) →
  ∀ i, (i < k)%nat → probed start i = 0 ∨ used (probed start i) = true.
Proof.
  revert start. induction k as [|k IH]; intros start Hs; simpl; [lia|].
  intros H [|i] Hi.
  - rewrite probed_0 by done. destruct (Z.eqb_spec start 0); [by left|].
    destruct (used start); [by right|done].
  - rewrite probed_S by done. apply IH; [apply as_u16_range| |lia].
    destruct (start =? 0); [done|]. by destruct (used start).
Qed.

Lemma probe_range k used start : 0 ≤ start < 2 ^ 16 → 0 ≤ (probe k used start).2 < 2 ^ 16.
Proof.
  revert start. induction k as [|k IH]; intros start Hs; simpl; [done|].
  pose proof (as_u16_range (start + 1)). repeat case_match; auto.
Qed.

Lemma probed_inj start i j :
  Z.of_nat i < 65536 → Z.of_nat j < 65536 → probed start i = probed start j → i = j.
Proof.
  unfold probed, as_u16. intros Hi Hj Heq.
  assert (Hd : (start + Z.of_nat i - (start + Z.of_nat j)) mod 2 ^ 16 = 0).
  { rewrite Zminus_mod, Heq, Z.sub_diag. done. }
  apply Z.mod_divide in Hd as [q Hq]; [|lia].
  change (2 ^ 16) with 65536 in Hq. assert (q = 0) by lia. lia.
Qed.

(** If [k] probes all fail, at least [k - 1] identifiers are in use. *)
Lemma probe_exhausted k used start n keys :
  0 ≤ start < 2 ^ 16 → Z.of_nat k ≤ 65535 → (∀ id, used id = true → id ∈ keys) →
  probe k used start = (None, n) → (k ≤ S (length keys))%nat.
Proof.
  intros Hs Hk Hkeys Hp. pose proof (probe_None _ _ _ _ Hs Hp) as Hall.
  assert (Hle : (length (probed start <$> seq 0 k) ≤ length (0%Z :: keys))%nat).
  { apply NoDup_incl_length.
    - apply NoDup_ListNoDup, NoDup_fmap_2_strong; [|apply NoDup_seq].
      intros i j Hi%elem_of_seq Hj%elem_of_seq. apply probed_inj; lia.
    - intros x Hx%list_elem_of_In. apply list_elem_of_In.
      apply list_elem_of_fmap in Hx as (i & -> & Hi%elem_of_seq).
      destruct (Hall i ltac:(lia)) as [-> | Hu]; [by left|right; auto]. }
  rewrite length_fmap, length_seq in Hle. done.
Qed.

(** ** Invariants of the outbound window *)

Section OutInvariant.
Context {F Q : Type} `{!DequeMap (OutInflightMessage F) Q, !DequeMapOk (OutInflightMessage F) Q}.
#[local] Abbreviation msg := (OutInflightMessage F).
Implicit Types (o : OutInflight (Q := Q)) (m : msg).

Definition entries o : list (Z * msg) := dq_iter (queues o).

(** Every message sits under its own, valid identifier. *)
Definition own_id (e : Z * msg) : Prop := msg_packet_id e.2 = Some e.1 ∧ nz_u16 e.1.

(** With both callbacks registered, the calls made so far count the messages. *)
Definition counted o : Prop :=
  on_push_fn o = true ∧ on_pop_fn o = true ∧ balance (log o) = len (entries o).

Definition out_inv o : Prop :=
  u16_range (next o) ∧ Forall own_id (entries o) ∧ counted o.

Definition valid_id m : Prop := ∀ pid, msg_packet_id m = Some pid → nz_u16 pid.

Lemma entries_call_push o : entries (call_push o) = entries o.
Proof. unfold call_push. by destruct (on_push_fn o). Qed.
Lemma entries_call_pop o : entries (call_pop o) = entries o.
Proof. unfold call_pop. by destruct (on_pop_fn o). Qed.

Lemma assoc_nil_inv {V} (l : list (Z * V)) : (∀ k, assoc k l = None) → l = [].
Proof.
  destruct l as [|[k v] l]; [done|]. intros H. specialize (H k). simpl in H.
  by rewrite Z.eqb_refl in H.
Qed.

Lemma push_back_entries o m pid : msg_packet_id m = Some pid →
  entries (push_back o m).2 ≡ₚ (pid, m) :: without pid (entries o).
Proof.
  intros Hm. unfold push_back. rewrite Hm.
  pose proof (dq_insert_perm (queues (call_push o)) pid m) as Hp.
  destruct (dq_insert _ _ _) as [old q]. simpl in *.
  rewrite <-(entries_call_push o). unfold entries at 2. rewrite <-Hp.
  destruct old; simpl; [by rewrite entries_call_pop|done].
Qed.

Lemma push_back_fresh o m pid : msg_packet_id m = Some pid → assoc pid (entries o) = None →
  (push_back o m).1 = None ∧ entries (push_back o m).2 = entries o ++ [(pid, m)].
Proof.
  intros Hm Hf. unfold push_back. rewrite Hm.
  assert (Hg : dq_get (queues (call_push o)) pid = None).
  { rewrite dq_get_assoc. fold (entries (call_push o)). by rewrite entries_call_push. }
  pose proof (dq_insert_old (queues (call_push o)) pid m) as Ho.
  pose proof (dq_insert_new (queues (call_push o)) pid m Hg) as Hn.
  destruct (dq_insert _ _ _) as [old q]. simpl in *. rewrite Hg in Ho. subst old.
  split; [done|]. unfold entries at 1. simpl. rewrite Hn.
  fold (entries (call_push o)). by rewrite entries_call_push.
Qed.

Lemma log_call_push o : on_push_fn o = true → balance (log (call_push o)) = balance (log o) + 1.
Proof. unfold call_push. intros ->. simpl. by rewrite balance_app. Qed.
Lemma log_call_pop o : on_pop_fn o = true → balance (log (call_pop o)) = balance (log o) - 1.
Proof. unfold call_pop. intros ->. simpl. by rewrite balance_app. Qed.

Lemma fns_call_push o :
  on_push_fn (call_push o) = on_push_fn o ∧ on_pop_fn (call_push o) = on_pop_fn o ∧
  next (call_push o) = next o.
Proof. unfold call_push. by destruct (on_push_fn o) eqn:E. Qed.
Lemma fns_call_pop o :
  on_push_fn (call_pop o) = on_push_fn o ∧ on_pop_fn (call_pop o) = on_pop_fn o ∧
  next (call_pop o) = next o.
Proof. unfold call_pop. by destruct (on_pop_fn o) eqn:E. Qed.

(** Taking one message out, through a pop or an acknowledgement. *)
Lemma out_inv_take o q :
  out_inv o → len (entries o) = 1 + len (dq_iter q) → Forall own_id (dq_iter q) →
  out_inv (call_pop (set_queues o q)).
Proof.
  intros (Hn & _ & Hpu & Hpo & Hb) Hlen Hids.
  destruct (fns_call_pop (set_queues o q)) as (E1 & E2 & E3).
  split; [by rewrite E3|]. split; [by rewrite entries_call_pop|]. unfold counted.
  rewrite E1, E2, entries_call_pop. split; [done|]. split; [done|].
  rewrite log_call_pop by done. unfold entries in *. simpl in *. lia.
Qed.

(** Replacing the queue by one of the same length. *)
Lemma out_inv_same o q :
  out_inv o → len (dq_iter q) = len (entries o) → Forall own_id (dq_iter q) →
  out_inv (set_queues o q).
Proof.
  intros (Hn & _ & Hpu & Hpo & Hb) Hlen Hids. split; [done|]. split; [done|].
  split; [done|]. split; [done|]. unfold entries in *. simpl. lia.
Qed.

Lemma out_inv_push o m : out_inv o → valid_id m → out_inv (push_back o m).2.
Proof.
  intros (Hn & Hids & Hpu & Hpo & Hb) Hv.
  destruct (msg_packet_id m) as [pid|] eqn:Hm; [|by unfold push_back; rewrite Hm].
  pose proof (push_back_entries o m pid Hm) as Hperm.
  unfold push_back in *. rewrite Hm in *.
  pose proof (dq_insert_old (queues (call_push o)) pid m) as Hold.
  destruct (dq_insert _ _ _) as [old q]. simpl in *.
  set (o1 := set_queues (call_push o) q) in *.
  destruct (fns_call_push o) as (E1 & E2 & E3).
  assert (Hb1 : balance (log o1) = len (entries o) + 1).
  { unfold o1. simpl. rewrite log_call_push by done. lia. }
  rewrite dq_get_assoc in Hold. fold (entries (call_push o)) in Hold.
  rewrite entries_call_push in Hold.
  assert (Hids' : Forall own_id ((pid, m) :: without pid (entries o))).
  { constructor; [split; [done|by apply Hv]|by apply Forall_without]. }
  assert (Hl : len (entries (if is_some old then call_pop o1 else o1)) =
               1 + len (without pid (entries o))).
  { unfold len. rewrite Hperm. simpl. lia. }
  destruct (fns_call_pop o1) as (F1 & F2 & F3).
  split; [destruct (is_some old); rewrite ?F3; unfold o1; simpl; congruence|].
  split; [by rewrite Hperm|]. unfold counted. rewrite Hl. subst old.
  destruct (assoc pid (entries o)) as [v|] eqn:Ha; simpl in *.
  - rewrite F1, F2. rewrite log_call_pop by (unfold o1; simpl; congruence).
    split; [unfold o1; simpl; congruence|]. split; [unfold o1; simpl; congruence|].
    pose proof (without_length pid v (entries o) (dq_nodup _) Ha). simpl. lia.
  - split; [unfold o1; simpl; congruence|]. split; [unfold o1; simpl; congruence|].
    rewrite (without_id pid) by by apply assoc_None. simpl. lia.
Qed.

Lemma pop_front_spec o :
  (pop_front o).1 = snd <$> head (entries o) ∧
  entries (pop_front o).2 = tail (entries o) ∧
  (out_inv o → out_inv (pop_front o).2).
Proof.
  unfold pop_front. pose proof (dq_pop_front_head (queues o)) as Hh.
  pose proof (dq_pop_front_iter (queues o)) as Ht. fold (entries o) in Hh, Ht.
  destruct (dq_pop_front (queues o)) as [r q]. simpl in *. subst r.
  destruct (entries o) as [|[k m] l] eqn:He; simpl in *.
  - split; [done|]. split; [done|]. intros Hi. apply out_inv_same; [done|by rewrite He, Ht|].
    rewrite Ht. constructor.
  - rewrite entries_call_pop. split; [done|]. split; [done|]. intros Hi.
    apply out_inv_take; [done|by rewrite He, Ht, len_cons|].
    rewrite Ht. destruct Hi as (_ & Hids & _). rewrite He in Hids. by inversion Hids.
Qed.

Lemma out_remove_spec o pid :
  (out_remove o pid).1 = assoc pid (entries o) ∧
  entries (out_remove o pid).2 = without pid (entries o) ∧
  (out_inv o → out_inv (out_remove o pid).2).
Proof.
  unfold out_remove. pose proof (dq_remove_old (queues o) pid) as Hh.
  pose proof (dq_remove_iter (queues o) pid) as Ht. rewrite dq_get_assoc in Hh.
  fold (entries o) in Hh, Ht. destruct (dq_remove (queues o) pid) as [r q]. simpl in *. subst r.
  destruct (assoc pid (entries o)) as [m|] eqn:Ha; simpl.
  - rewrite entries_call_pop. split; [done|]. split; [done|]. intros Hi.
    apply out_inv_take; [done| |].
    + rewrite Ht. eapply without_length; [apply dq_nodup|done].
    + rewrite Ht. apply Forall_without, Hi.
  - split; [done|]. split; [done|]. intros Hi. apply out_inv_same; [done| |].
    + rewrite Ht, without_id; [done|]. by apply assoc_None.
    + rewrite Ht. apply Forall_without, Hi.
Qed.

Lemma out_inv_update_status now o pid s : out_inv o → out_inv (out_update_status now o pid s).
Proof.
  intros Hi. apply out_inv_same; [done| |]; rewrite dq_get_mut_iter.
  - unfold len. by rewrite length_map.
  - rewrite Forall_map. destruct Hi as (_ & Hids & _).
    eapply Forall_impl; [exact Hids|]. intros [k m] [Hm Hk]. split; [|done]. simpl in *.
    by destruct (k =? pid).
Qed.

Lemma next_id_spec o : u16_range (next o) →
  let '(r, o') := next_id o in
  entries o' = entries o ∧ u16_range (next o') ∧ (out_inv o → out_inv o') ∧
  match r with
  | Some id => nz_u16 id ∧ assoc id (entries o) = None ∧ next o' = as_u16 (id + 1)
  | None => 65534 ≤ len (entries o)
  end.
Proof.
  intros Hn. unfold next_id.
  pose proof (probe_range PROBES (dq_contains_key (queues o)) (next o) Hn) as Hr.
  destruct (probe _ _ _) as [r n] eqn:Hp. simpl in *.
  split; [done|]. split; [done|]. split; [by intros (? & ? & ?)|].
  destruct r as [id|].
  - apply probe_Some in Hp as (? & Hu & -> & _); [|done]. split; [done|]. split; [|done].
    rewrite dq_contains_get, dq_get_assoc in Hu. fold (entries o) in Hu.
    by destruct (assoc id (entries o)).
  - eapply (probe_exhausted _ _ _ _ (entries o).*1) in Hp; [|done|by rewrite PROBES_eq|].
    + rewrite length_fmap in Hp. pose proof PROBES_eq. unfold len. lia.
    + intros id. rewrite dq_contains_get, dq_get_assoc. fold (entries o).
      destruct (assoc id (entries o)) as [m|] eqn:Ha; [|done]. intros _.
      apply list_elem_of_fmap. exists (id, m). split; [done|]. by apply assoc_Some_elem.
Qed.

Lemma out_inv_advance o k : u16_range k → out_inv o → out_inv (advance_next_id o k).
Proof. intros Hk (Hn & ? & ?). split; [|done]. unfold advance_next_id. simpl. range_lia. Qed.

Lemma pop_all_spec fuel acc o :
  (length (entries o) < fuel)%nat →
  ∃ o', pop_all fuel acc o = Some (acc ++ (entries o).*2, o') ∧ entries o' = [] ∧
        (out_inv o → out_inv o').
Proof.
  revert acc o. induction fuel as [|fuel IH]; intros acc o Hf; [lia|]. cbn [pop_all].
  destruct (pop_front_spec o) as (Hr & He & Hi). destruct (pop_front o) as [r o1].
  simpl in *. subst r. destruct (entries o) as [|[k m] l]; simpl in *.
  - exists o1. by rewrite app_nil_r.
  - destruct (IH (acc ++ [m]) o1) as (o' & -> & ? & ?); [rewrite He; lia|].
    exists o'. rewrite He, <-app_assoc. auto.
Qed.

Lemma to_inflight_messages_spec o :
  ∃ o', to_inflight_messages o = Some ((entries o).*2, o') ∧ entries o' = [] ∧
        (out_inv o → out_inv o').
Proof.
  apply (pop_all_spec _ []). rewrite dq_len_iter. unfold len, entries. lia.
Qed.

(** The operations that change the window. *)
Inductive out_step : OutInflight → OutInflight → Prop :=
| step_push o m : valid_id m → out_step o (push_back o m).2
| step_pop o : out_step o (pop_front o).2
| step_pop_timeout now o : out_step o (pop_front_timeout now o).2
| step_remove o pid : out_step o (out_remove o pid).2
| step_status now o pid s : out_step o (out_update_status now o pid s)
| step_next_id o : out_step o (next_id o).2
| step_advance o k : u16_range k → out_step o (advance_next_id o k)
| step_drain o ms o' : to_inflight_messages o = Some (ms, o') → out_step o o'.

(** A window as the session sets it up, with both callbacks. *)
Definition out_start (cap retry expiry : Z) : OutInflight :=
  out_on_pop (out_on_push (out_new cap retry expiry)).

Lemma out_inv_step o o' : out_step o o' → out_inv o → out_inv o'.
Proof.
  intros Hs Hi. destruct Hs.
  - by apply out_inv_push.
  - by apply pop_front_spec.
  - unfold pop_front_timeout. case_match; [by apply pop_front_spec|done].
  - by apply out_remove_spec.
  - by apply out_inv_update_status.
  - pose proof (next_id_spec o (proj1 Hi)) as Hn. destruct (next_id o). by apply Hn.
  - by apply out_inv_advance.
  - destruct (to_inflight_messages_spec o) as (o2 & Ho & _ & Hi2). rewrite H in Ho.
    simplify_eq. auto.
Qed.

Lemma out_inv_start c r e : out_inv (out_start c r e).
Proof.
  split; [simpl; range_lia|]. unfold counted, entries. simpl. rewrite dq_default_iter. by repeat split.
Qed.

(** C40: in every state the window can reach, each message is stored under its
    own packet identifier, which is between 1 and 65535 and used by no other
    message, the allocator stays a 16-bit counter, and the push and pop
    callbacks that have been called count exactly the messages in the window
    (a replaced message included). *)
Theorem out_reachable_inv c r e o :
  rtc out_step (out_start c r e) o →
  u16_range (next o) ∧ NoDup (entries o).*1 ∧ Forall own_id (entries o) ∧
  balance (log o) = out_len o.
Proof.
  intros Hr.
  assert (Hinv : out_inv o).
  { revert Hr. generalize (out_inv_start c r e). generalize (out_start c r e).
    intros o0 H0 Hr. induction Hr; [done|]. eauto using out_inv_step. }
  destruct Hinv as (Hn & Hids & _ & _ & Hb).
  split; [done|]. split; [apply dq_nodup|]. split; [done|].
  unfold out_len. by rewrite dq_len_iter.
Qed.

(** The packet-identifier allocator.  [next_id] returns an identifier
    between 1 and 65535 that no message of the window uses, and fails only with
    at least 65534 messages in the window; asked twice in a row it does not
    return the same identifier, wrap-around of the 16-bit counter included. *)
Theorem next_id_fresh o :
  u16_range (next o) →
  let '(r1, o1) := next_id o in
  let '(r2, o2) := next_id o1 in
  (len (entries o) < 65534 → ∃ id, r1 = Some id) ∧
  (∀ id, r1 = Some id → nz_u16 id ∧ out_exist o id = false ∧ r2 ≠ Some id).
Proof.
  intros Hn. pose proof (next_id_spec o Hn) as H1.
  destruct (next_id o) as [r1 o1] eqn:E1. destruct H1 as (He & Hn1 & _ & H1).
  unfold next_id at 1. destruct (probe _ _ (next o1)) as [r2 n2] eqn:E2.
  split.
  - intros Hl. destruct r1 as [id|]; [eauto|lia].
  - intros id ->. destruct H1 as (Hid & Ha & Hnext). split; [done|]. split.
    + unfold out_exist. rewrite dq_contains_get, dq_get_assoc. fold (entries o). by rewrite Ha.
    + intros ->. apply probe_Some in E2 as (_ & _ & _ & i & Hi & Hp); [|done].
      rewrite Hnext in Hp. rewrite <-probed_S in Hp by range_lia.
      rewrite <-(probed_0 id) in Hp at 1 by range_lia.
      pose proof PROBES_eq. apply probed_inj in Hp; lia.
Qed.

(** *** Credit *)

Lemma len_without {V} k (l : list (Z * V)) : len (without k l) ≤ len l.
Proof. unfold len, without. pose proof (length_filter (λ '(k', _), k' ≠ k) l). lia. Qed.

Lemma cap_call_pop o : cap (call_pop o) = cap o.
Proof. unfold call_pop. by destruct (on_pop_fn o). Qed.
Lemma cap_call_push o : cap (call_push o) = cap o.
Proof. unfold call_push. by destruct (on_push_fn o). Qed.

Lemma cap_push_back o m : cap (push_back o m).2 = cap o.
Proof.
  unfold push_back. destruct (msg_packet_id m); [|done].
  destruct (dq_insert _ _ _) as [[?|] q]; simpl; rewrite ?cap_call_pop; apply cap_call_push.
Qed.

(** A push gives a window at most one message more, every other step none. *)
Lemma out_step_len o o' : out_step o o' → cap o' = cap o ∧
  (len (entries o') ≤ len (entries o) ∨ ∃ m, o' = (push_back o m).2 ∧
   len (entries o') ≤ len (entries o) + 1).
Proof.
  intros Hs. destruct Hs as [o m Hv|o|now o|o pid|now o pid st|o|o k Hk|o ms o' Hd].
  - split; [apply cap_push_back|]. right. exists m. split; [done|].
    destruct (msg_packet_id m) as [pid|] eqn:Hm.
    + pose proof (push_back_entries o m pid Hm) as Hp. pose proof (len_without pid (entries o)).
      unfold len in *. rewrite Hp. simpl. lia.
    + unfold push_back. rewrite Hm. simpl. lia.
  - destruct (pop_front_spec o) as (_ & He & _). rewrite He. split.
    + unfold pop_front. destruct (dq_pop_front _) as [[[]|] ?]; simpl; by rewrite ?cap_call_pop.
    + left. destruct (entries o); simpl; rewrite ?len_cons; lia.
  - unfold pop_front_timeout. case_match; [|by split; [|left]].
    destruct (pop_front_spec o) as (_ & He & _). rewrite He. split.
    + unfold pop_front. destruct (dq_pop_front _) as [[[]|] ?]; simpl; by rewrite ?cap_call_pop.
    + left. destruct (entries o); simpl; rewrite ?len_cons; lia.
  - destruct (out_remove_spec o pid) as (_ & He & _). rewrite He. split.
    + unfold out_remove. destruct (dq_remove _ _) as [[]?]; simpl; by rewrite ?cap_call_pop.
    + left. apply len_without.
  - split; [done|]. left. unfold entries. simpl. rewrite dq_get_mut_iter. unfold len.
    by rewrite length_map.
  - unfold next_id. destruct (probe _ _ _). by split; [|left].
  - by split; [|left].
  - destruct (to_inflight_messages_spec o) as (o2 & Ho & He & _).
    assert (Hcap : ∀ fuel acc (a : OutInflight (Q := Q)) l b,
              pop_all fuel acc a = Some (l, b) → cap b = cap a).
    { clear. induction fuel as [|fuel IH]; intros acc a l b; cbn [pop_all]; [done|].
      unfold pop_front. destruct (dq_pop_front (queues a)) as [[[k m]|] q].
      - intros H%IH. by rewrite H, cap_call_pop.
      - by intros [= <- <-]. }
    split; [by eapply Hcap|]. left. rewrite Hd in Ho. simplify_eq. rewrite He.
    pose proof (len_nonneg (entries o)). by rewrite len_nil.
Qed.

(** Steps in which a message is pushed only when there is credit, as the
    session's select loop does. *)
Definition credited_step (checks : bool) o o' : Prop :=
  out_step o o' ∧
  ((∃ m, o' = (push_back o m).2) → len (entries o) < len (entries o') →
   has_credit checks o = Ok true).

(** Flow control.  As long as a message is added only when [has_credit] says
    so, the window never holds more than [cap] messages and [has_credit] never
    hits the underflow of its subtraction: it answers whether there is room. *)
Theorem credit_window checks c r e o :
  0 ≤ c → rtc (credited_step checks) (out_start c r e) o →
  out_len o ≤ c ∧ has_credit checks o = Ok (out_len o <? c).
Proof.
  intros Hc Hr.
  assert (H : cap o = c ∧ len (entries o) ≤ c).
  { assert (H0 : cap (out_start c r e) = c ∧ len (entries (out_start c r e)) ≤ c).
    { split; [done|]. unfold entries. simpl. by rewrite dq_default_iter. }
    revert H0. induction Hr as [|o1 o2 o3 [Hs Hg] _ IH]; [done|].
    intros [Hc1 Hl1]. apply IH. destruct (out_step_len o1 o2 Hs) as [Hc2 Hl2].
    split; [congruence|]. destruct Hl2 as [|(m & Heq & Hle)]; [lia|].
    destruct (Z.le_gt_cases (len (entries o2)) (len (entries o1))); [lia|].
    specialize (Hg ltac:(eauto) ltac:(lia)). unfold has_credit in Hg.
    rewrite dq_len_iter in Hg. fold (entries o1) in Hg.
    rewrite (proj2 (Z.leb_le 0 _)) in Hg by lia. injection Hg as Hg%Z.ltb_lt. lia. }
  destruct H as [Hcap Hlen]. unfold out_len, has_credit. rewrite dq_len_iter, Hcap.
  fold (entries o). split; [done|]. rewrite (proj2 (Z.leb_le 0 _)) by lia. f_equal.
  destruct (Z.ltb_spec 0 (c - len (entries o))), (Z.ltb_spec (len (entries o)) c); lia || done.
Qed.

(** *** Timing *)

Lemma front_due o later k m :
  dq_front (queues o) = Some (k, m) → 0 < interval o → interval o ≤ later - update_time m →
  front_timeout later o = true ∧ pop_front_timeout later o = pop_front o ∧
  is_some (pop_front_timeout later o).1 = true.
Proof.
  intros Hf Hi Hd.
  assert (Ht : front_timeout later o = true).
  { unfold front_timeout, timeout. rewrite (proj2 (Z.eqb_neq _ _)), Hf by lia.
    by rewrite (proj2 (Z.ltb_lt _ _)), (proj2 (Z.leb_le _ _)) by lia. }
  unfold pop_front_timeout. rewrite Ht. split; [done|]. split; [done|].
  destruct (pop_front_spec o) as (-> & _). rewrite dq_front_head in Hf. unfold entries.
  by rewrite Hf.
Qed.

(** Retransmission timing.  With non-negative intervals, a window that is
    not empty and has an interval set asks to be woken after at least one
    millisecond; when that time has passed (and not less than that, if the
    answer is not the minimum of 1) the front message is due and
    [pop_front_timeout] hands it out; with no interval nothing ever times out. *)
Theorem retransmit_timing o now t :
  0 ≤ interval o →
  get_timeout now o = Some t →
  1 ≤ t ∧
  (∀ later, now + t ≤ later →
     front_timeout later o = true ∧ pop_front_timeout later o = pop_front o ∧
     is_some (pop_front_timeout later o).1 = true) ∧
  (∀ early, 1 < t → early < now + t → front_timeout early o = false).
Proof.
  unfold get_timeout. intros Hint. destruct (Z.eqb_spec (interval o) 0); [done|].
  destruct (dq_front (queues o)) as [[k m]|] eqn:Hf; [|done].
  intros [= Ht]. destruct (Z.ltb_spec (interval o - (now - update_time m)) 1) as [Hlt|Hge].
  - split; [lia|]. split; [|lia]. intros later Hl. apply (front_due _ _ k m); [done|lia..].
  - split; [lia|]. split.
    + intros later Hl. apply (front_due _ _ k m); [done|lia..].
    + intros early _ He. unfold front_timeout, timeout.
      rewrite (proj2 (Z.eqb_neq _ _)), Hf by done. apply andb_false_iff. right.
      apply Z.leb_gt. lia.
Qed.

(** Session hand-over.  [to_inflight_messages] ends, returns every message
    of the window in the order in which it would be popped, and leaves it
    empty; for messages pushed under new identifiers that is the order in which
    they were pushed. *)
Theorem handover_in_order o ms :
  Forall (λ m, ∃ pid, msg_packet_id m = Some pid) ms →
  NoDup (omap msg_packet_id ms) → entries o = [] →
  ∃ o', to_inflight_messages (foldl (λ o m, (push_back o m).2) o ms) = Some (ms, o') ∧
        entries o' = [].
Proof.
  intros Hids Hnd He.
  set (key m := default 0 (msg_packet_id m)).
  assert (Hpush : ∀ ms l o,
    Forall (λ m, ∃ pid, msg_packet_id m = Some pid) ms → NoDup (l.*1 ++ omap msg_packet_id ms) →
    entries o = l → entries (foldl (λ o m, (push_back o m).2) o ms) = l ++ map (λ m, (key m, m)) ms).
  { clear ms o Hids Hnd He.
    induction ms as [|m ms IH]; intros l o Hids Hnd Hl; [by rewrite app_nil_r|].
    apply Forall_cons_iff in Hids as [[pid Hm] Hids]. cbn [foldl]. simpl in Hnd. rewrite Hm in Hnd.
    destruct (push_back_fresh o m pid Hm) as [_ Hp].
    { rewrite Hl. apply assoc_None. intros Hin. apply NoDup_app in Hnd as (_ & Hd & _).
      apply (Hd pid Hin). left. }
    rewrite (IH (l ++ [(pid, m)])); [|done| |by rewrite Hp, Hl].
    - rewrite <-app_assoc. simpl. unfold key. by rewrite Hm.
    - rewrite fmap_app, <-app_assoc. done. }
  destruct (to_inflight_messages_spec (foldl (λ o m, (push_back o m).2) o ms)) as (o' & -> & ? & _).
  assert (Hsnd : ∀ l : list msg, (map (λ m, (key m, m)) l).*2 = l).
  { induction l as [|m l IH]; [done|]. cbn. f_equal. exact IH. }
  exists o'. rewrite (Hpush ms [] o) by done. cbn [app]. by rewrite Hsnd.
Qed.

(** A QoS exchange.  A message pushed under an unused identifier can be
    looked up and moved to the next status (with the time of the change) without
    touching any other message; the final acknowledgement returns it and
    restores the window; a second acknowledgement finds nothing. *)
Theorem qos_exchange o m pid now s :
  msg_packet_id m = Some pid → out_exist o pid = false →
  let o1 := (push_back o m).2 in
  let o2 := out_update_status now o1 pid s in
  let o3 := (out_remove o2 pid).2 in
  out_get o1 pid = Some m ∧
  out_get o2 pid = Some (msg_update_status now s m) ∧
  (∀ k, k ≠ pid → out_get o2 k = out_get o k) ∧
  (out_remove o2 pid).1 = Some (msg_update_status now s m) ∧
  entries o3 = entries o ∧
  (out_remove o3 pid).1 = None.
Proof.
  intros Hm Hex.
  assert (Ha : assoc pid (entries o) = None).
  { unfold out_exist in Hex. rewrite dq_contains_get, dq_get_assoc in Hex.
    unfold entries. by destruct (assoc _ _). }
  destruct (push_back_fresh o m pid Hm Ha) as [_ He1].
  intros o1 o2 o3. fold o1 in He1.
  assert (Hget : ∀ (o' : OutInflight (Q := Q)) k, out_get o' k = assoc k (entries o'))
    by (intros; apply dq_get_assoc).
  assert (He2 : entries o2 = map (λ '(k', v), (k', if k' =? pid then msg_update_status now s v else v))
                                 (entries o1)) by apply dq_get_mut_iter.
  assert (H1 : assoc pid (entries o1) = Some m)
    by (rewrite He1, assoc_app, Ha; simpl; by rewrite Z.eqb_refl).
  assert (H2 : assoc pid (entries o2) = Some (msg_update_status now s m))
    by (rewrite He2, assoc_map, H1, Z.eqb_refl; done).
  destruct (out_remove_spec o2 pid) as (Hr & He3 & _). fold o3 in He3.
  assert (He : entries o3 = entries o).
  { rewrite He3, He2, without_map, He1, without_app, without_id by by apply assoc_None.
    unfold without. rewrite filter_cons_False by naive_solver. apply app_nil_r. }
  rewrite !Hget, Hr, H2. split; [done|]. split; [done|]. split; [|split; [done|split; [done|]]].
  - intros k Hk. rewrite !Hget, He2, assoc_map, (proj2 (Z.eqb_neq k pid)), He1, assoc_app by done.
    simpl. rewrite (proj2 (Z.eqb_neq pid k)) by done. by destruct (assoc k (entries o)).
  - destruct (out_remove_spec o3 pid) as (-> & _). by rewrite He.
Qed.

(** Without the gate the subtraction of [has_credit] underflows: a panic with
    overflow checks, and "there is credit" without them. *)
Lemma has_credit_overfull o : 0 ≤ cap o < out_len o → out_len o < 2 ^ 63 →
  has_credit true o = Panic ∧ has_credit false o = Ok true.
Proof.
  unfold has_credit, out_len. intros H1 H2. rewrite (proj2 (Z.leb_gt _ _)) by lia.
  split; [done|]. f_equal. apply Z.ltb_lt.
  rewrite <-(Z_mod_plus_full _ 1), Z.mod_small by lia. lia.
Qed.
End OutInvariant.

(** ** The inbound set *)

Inductive in_step : InInflight → InInflight → Prop :=
| in_step_add i pid q : in_step i (in_add i pid q).2
| in_step_remove i pid : in_step i (in_remove i pid).2.

(** The inbound window.  Whatever identifiers arrive and are released, the
    set never holds more than [max_inflight] of them, the server-wide counter has
    grown by exactly their number, and dropping the session gives the counter
    back its value from before the session. *)
Theorem in_reachable_inv stat mx i :
  0 ≤ mx → rtc in_step (in_new stat mx) i →
  Z.of_nat (size (cached i)) ≤ mx ∧
  in_inflights i = stat + Z.of_nat (size (cached i)) ∧ in_drop i = stat.
Proof.
  intros Hm Hr.
  assert (H : max_inflight i = mx ∧ Z.of_nat (size (cached i)) ≤ mx ∧
              in_inflights i = stat + Z.of_nat (size (cached i))).
  { assert (H0 : max_inflight (in_new stat mx) = mx ∧
                 Z.of_nat (size (cached (in_new stat mx))) ≤ mx ∧
                 in_inflights (in_new stat mx) = stat + Z.of_nat (size (cached (in_new stat mx)))).
    { cbn [max_inflight cached in_inflights in_new]. rewrite size_empty. lia. }
    revert H0. induction Hr as [|i1 i2 i3 Hs _ IH]; [done|]. intros (Hx & Hsz & Hst). apply IH.
    destruct Hs as [i1 pid q|i1 pid].
    - unfold in_add. destruct (Z.leb_spec (max_inflight i1) (Z.of_nat (size (cached i1)))); [done|].
      case_bool_decide as Hp; [|by destruct q]. simpl.
      rewrite size_union by set_solver. rewrite size_singleton. lia.
    - unfold in_remove. case_bool_decide as Hp; [|done]. simpl.
      assert (size (cached i1) = 1 + size (cached i1 ∖ {[pid]}))%nat as Hsize.
      { rewrite (union_difference_singleton_L pid (cached i1)) at 1 by done.
        rewrite size_union by set_solver. by rewrite size_singleton. }
      lia. }
  unfold in_drop. lia.
Qed.

(** Duplicate detection.  [add] on every branch: a full window refuses any
    identifier, known or not, and changes nothing; below the limit a new
    identifier is tracked from then on, a known one is refused for QoS 2 and
    reported as a repetition otherwise; releasing an identifier makes it new
    again. *)
Theorem in_add_cases i pid q :
  let full := max_inflight i <=? Z.of_nat (size (cached i)) in
  let '(r, i') := in_add i pid q in
  (full = true → r = Err InflightWindowFull ∧ i' = i) ∧
  (full = false → in_exist i pid = false → r = Ok true ∧
     ∀ k, in_exist i' k = bool_decide (k = pid) || in_exist i k) ∧
  (full = false → in_exist i pid = true → i' = i ∧
     r = if bool_decide (q = ExactlyOnce) then Err (PacketIdInUse pid) else Ok false) ∧
  (∀ k, in_exist (in_remove i' pid).2 k = negb (bool_decide (k = pid)) && in_exist i' k).
Proof.
  intros full. unfold in_add. fold full.
  assert (Hrem : ∀ (j : InInflight) k,
    in_exist (in_remove j pid).2 k = negb (bool_decide (k = pid)) && in_exist j k).
  { intros j k. unfold in_exist, in_remove. destruct (decide (pid ∈ cached j)) as [Hp|Hp].
    - rewrite (bool_decide_true (pid ∈ cached j)) by done. simpl.
      repeat case_bool_decide; set_solver.
    - rewrite (bool_decide_false (pid ∈ cached j)) by done. simpl.
      repeat case_bool_decide; set_solver. }
  destruct full; [repeat split; auto; done|].
  destruct (decide (pid ∈ cached i)) as [Hp|Hp].
  - assert (in_exist i pid = true) as -> by by apply bool_decide_true.
    rewrite (bool_decide_false (pid ∉ cached i)) by tauto.
    destruct q; (split; [done|]; split; [done|]; split; [done|]; apply Hrem).
  - assert (in_exist i pid = false) as -> by by apply bool_decide_false.
    rewrite (bool_decide_true (pid ∉ cached i)) by done.
    split; [done|]. split; [|split; [done|apply Hrem]].
    intros _ _. split; [done|]. intros k. unfold in_exist. simpl. repeat case_bool_decide; set_solver.
Qed.

(** ** An implementation of the interface

    Lists of entries with distinct keys; a key that is there keeps its place. *)

Record deque (V : Type) : Type := mkDeque {
  dl : list (Z * V);
  dl_nodup : NoDup dl.*1;
}.
Arguments mkDeque {V} dl dl_nodup.
Arguments dl {V} _.

Lemma keys_map {V} k (f : V → V) l :
  (map (λ '(k', v), (k', if k' =? k then f v else v)) l).*1 = l.*1.
Proof. induction l as [|[k' v] l IH]; [done|]. cbn. f_equal. exact IH. Qed.

Lemma NoDup_without {V} k (l : list (Z * V)) : NoDup l.*1 → NoDup (without k l).*1.
Proof.
  intros H. eapply sublist_NoDup; [exact H|]. apply fmap_sublist, sublist_filter.
Qed.

Lemma NoDup_tail {V} (l : list (Z * V)) : NoDup l.*1 → NoDup (tail l).*1.
Proof. destruct l; [done|]. by intros [_ ?]%NoDup_cons. Qed.

Lemma NoDup_snoc {V} k (v : V) (l : list (Z * V)) : NoDup l.*1 → k ∉ l.*1 → NoDup (l ++ [(k, v)]).*1.
Proof.
  intros H Hk. rewrite fmap_app. apply NoDup_app. split; [done|].
  split; [|apply NoDup_singleton]. intros x Hx ->%list_elem_of_singleton. done.
Qed.

Definition deque_insert {V} (q : deque V) (k : Z) (v : V) : option V * deque V :=
  match decide (k ∉ (dl q).*1) with
  | left H => (None, mkDeque (dl q ++ [(k, v)]) (NoDup_snoc k v (dl q) (dl_nodup _ q) H))
  | right _ =>
      (assoc k (dl q), mkDeque (map (λ '(k', v'), (k', if k' =? k then v else v')) (dl q))
                         (eq_ind_r NoDup (dl_nodup _ q) (keys_map k (λ _, v) (dl q))))
  end.

#[export] Instance deque_ops V : DequeMap V (deque V) := {|
  dq_default := mkDeque [] (NoDup_nil_2);
  dq_iter := dl;
  dq_get q k := assoc k (dl q);
  dq_contains_key q k := is_some (assoc k (dl q));
  dq_insert := deque_insert;
  dq_remove q k := (assoc k (dl q), mkDeque (without k (dl q)) (NoDup_without k _ (dl_nodup _ q)));
  dq_get_mut q k f :=
    mkDeque (map (λ '(k', v), (k', if k' =? k then f v else v)) (dl q))
            (eq_ind_r NoDup (dl_nodup _ q) (keys_map k f (dl q)));
  dq_front q := head (dl q);
  dq_pop_front q := (head (dl q), mkDeque (tail (dl q)) (NoDup_tail _ (dl_nodup _ q)));
  dq_len q := len (dl q);
|}.

Lemma deque_insert_cases {V} (q : deque V) k v :
  (deque_insert q k v).1 = assoc k (dl q) ∧
  dl (deque_insert q k v).2 =
    if is_some (assoc k (dl q))
    then map (λ '(k', v'), (k', if k' =? k then v else v')) (dl q) else dl q ++ [(k, v)].
Proof.
  unfold deque_insert. destruct (decide _) as [H|H]; simpl.
  - apply assoc_None in H. by rewrite H.
  - rewrite <-assoc_None in H. by destruct (assoc k (dl q)).
Qed.

Lemma replace_perm {V} k (v old : V) l :
  NoDup l.*1 → assoc k l = Some old →
  map (λ '(k', v'), (k', if k' =? k then v else v')) l ≡ₚ (k, v) :: without k l.
Proof.
  unfold without. induction l as [|[k' v'] l IH]; [done|]. cbn [map fmap list_fmap assoc].
  intros [Hk Hl]%NoDup_cons. destruct (Z.eqb_spec k' k) as [->|Hne].
  - intros _. rewrite filter_cons_False by tauto. fold (without k l). rewrite without_id by done.
    f_equiv. replace (map _ l) with l; [done|].
    apply assoc_None in Hk. clear -Hk. induction l as [|[k' w] l IH]; [done|]. simpl in *.
    destruct (k' =? k); [done|]. by rewrite <-IH.
  - intros Ha. rewrite filter_cons_True by done. rewrite (IH Hl Ha). by constructor.
Qed.

#[export] Instance deque_ok V : DequeMapOk V (deque V).
Proof.
  split; try done.
  - intros q. apply dl_nodup.
  - intros q k v. apply (deque_insert_cases q k v).
  - intros q k v Hg. simpl in *. by rewrite (proj2 (deque_insert_cases q k v)), Hg.
  - intros q k v. simpl. rewrite (proj2 (deque_insert_cases q k v)).
    destruct (assoc k (dl q)) as [old|] eqn:Ha; simpl.
    + apply (replace_perm k v old); [apply dl_nodup|done].
    + rewrite without_id by by apply assoc_None. by rewrite Permutation_app_comm.
Qed.

(** ** Concrete windows *)

Definition sample_publish (pid : Z) : BrokerTypes.Publish :=
  BrokerTypes.mkPublish (CodecTypes.mkPublish false false AtLeastOnce [97] (Some pid) [] None) None None None.
Definition sample_msg (now pid : Z) : OutInflightMessage unit :=
  out_msg_new now UnAck tt (sample_publish pid).
Abbreviation sample_queue := (deque (OutInflightMessage unit)).

Definition sample_window : OutInflight (Q := sample_queue) :=
  (push_back (push_back (out_start 4 1000 0) (sample_msg 10 1)).2 (sample_msg 20 2)).2.

Lemma sample_msg_valid now pid : nz_u16 pid → valid_id (sample_msg now pid).
Proof. intros H p. unfold msg_packet_id. simpl. by intros [= <-]. Qed.

Lemma out_reachable_inv_witness :
  u16_range (next sample_window) ∧ NoDup (entries sample_window).*1 ∧
  Forall own_id (entries sample_window) ∧ balance (log sample_window) = out_len sample_window.
Proof.
  apply (out_reachable_inv 4 1000 0). unfold sample_window.
  eapply rtc_l; [apply (step_push _ (sample_msg 10 1)), sample_msg_valid; range_lia|].
  apply rtc_once, (step_push _ (sample_msg 20 2)), sample_msg_valid. range_lia.
Defined.

Lemma next_id_fresh_witness :
  (next_id sample_window).1 ≠ None ∧ (next_id (next_id sample_window).2).1 ≠ (next_id sample_window).1.
Proof.
  pose proof (next_id_fresh sample_window ltac:(vm_compute; split; congruence)) as H.
  destruct (next_id sample_window) as [r1 o1]. simpl in *.
  destruct (next_id o1) as [r2 o2]. simpl in *. destruct H as [H1 H2].
  destruct H1 as [id ->]; [vm_compute; congruence|]. split; [done|]. by apply H2.
Defined.

Lemma credit_window_witness :
  out_len sample_window ≤ 4 ∧ has_credit true sample_window = Ok (out_len sample_window <? 4).
Proof.
  apply (credit_window true 4 1000 0); [lia|]. unfold sample_window.
  eapply rtc_l.
  { split; [apply (step_push _ (sample_msg 10 1)), sample_msg_valid; range_lia|]. reflexivity. }
  apply rtc_once.
  split; [apply (step_push _ (sample_msg 20 2)), sample_msg_valid; range_lia|]. reflexivity.
Defined.

Lemma retransmit_timing_witness :
  get_timeout 30 sample_window = Some 980 ∧ front_timeout 1010 sample_window = true ∧
  front_timeout 1009 sample_window = false.
Proof.
  destruct (retransmit_timing sample_window 30 980) as (_ & Hl & He);
    [vm_compute; congruence|reflexivity|].
  split; [reflexivity|]. split; [apply Hl; lia|apply He; lia].
Defined.

Lemma handover_in_order_witness :
  ∃ o', to_inflight_messages sample_window = Some ([sample_msg 10 1; sample_msg 20 2], o') ∧
        entries o' = [].
Proof.
  apply (handover_in_order (out_start (Q := sample_queue) 4 1000 0) [sample_msg 10 1; sample_msg 20 2]).
  - repeat constructor; eexists; reflexivity.
  - apply (bool_decide_eq_true_1 _). reflexivity.
  - reflexivity.
Defined.

Lemma qos_exchange_witness :
  entries (out_remove (out_update_status 40 (push_back sample_window (sample_msg 30 3)).2 3 UnComplete) 3).2
    = entries sample_window.
Proof.
  apply (qos_exchange sample_window (sample_msg 30 3) 3 40 UnComplete); reflexivity.
Defined.

Lemma in_reachable_inv_witness :
  Z.of_nat (size (cached (in_add (in_new 5 1) 9 ExactlyOnce).2)) ≤ 1 ∧
  in_inflights (in_add (in_new 5 1) 9 ExactlyOnce).2 = 5 + 1 ∧
  in_drop (in_add (in_new 5 1) 9 ExactlyOnce).2 = 5.
Proof. apply (in_reachable_inv 5 1); [lia|]. apply rtc_once. constructor. Defined.

Lemma in_add_cases_witness :
  in_add (in_add (in_new 0 2) 9 ExactlyOnce).2 9 ExactlyOnce =
  (Err (PacketIdInUse 9), (in_add (in_new 0 2) 9 ExactlyOnce).2).
Proof.
  pose proof (in_add_cases (in_add (in_new 0 2) 9 ExactlyOnce).2 9 ExactlyOnce) as H. cbv zeta in H.
  destruct (in_add _ 9 ExactlyOnce) as [r i']. destruct H as (_ & _ & H & _).
  destruct H as [-> ->]; reflexivity.
Defined.
