(* ===== verification/Retain.v ===== *)
(** * Retained messages

    [ferromq/src/retain.rs]: the tree of retained messages, the in-memory storage
    [DefaultRetainStorage] over it, and [RamRetainer] of the plugin
    [ferromq-retainer] ([ram.rs]), which adds the limits of the configuration.

    The branches of a node are a [HashMap]; code that iterates over them takes
    the order as a parameter ([Hash.HashOrder]).  The recursion over branches
    goes down the tree; it is bounded by a fuel, and the height of the tree is
    enough ([matches_total], [retain_total]). *)

From stdpp Require Import base list numbers option gmap strings.
From Stdlib Require Import ZArith Lia.
From S2P Require Import Prelude Topic Trie Counter Hash BrokerTypes.

(** ** The tree *)

Inductive Node (V : Type) : Type :=
| mkNode (value : option V) (branches : gmap Level (Node V)).
Arguments mkNode {V} value branches.

Section Tree.
Context {V : Type}.
#[local] Abbreviation node := (Node V).

Definition node_value (n : node) : option V := let 'mkNode v _ := n in v.
Definition branches (n : node) : gmap Level node := let 'mkNode _ bs := n in bs.
Definition child (n : node) (l : Level) : option node := branches n !! l.

Definition node_default : node := mkNode None ∅.

(** [x.value.is_none() && x.branches.is_empty()] *)
Definition node_is_empty (x : node) : bool :=
  negb (is_some (node_value x)) && bool_decide (branches x = ∅).

Fixpoint _insert (n : node) (path : list Level) (value : V) : node :=
  match path with
  | first :: path =>
      mkNode (node_value n)
        (<[first := _insert (default node_default (branches n !! first)) path value]> (branches n))
  | [] => mkNode (Some value) (branches n)
  end.

Definition insert (n : node) (topic : Topic) (value : V) : node := _insert n topic value.

Fixpoint _remove (n : node) (path : list Level) : option V * node :=
  match path with
  | [] => (node_value n, mkNode None (branches n))
  | t :: path =>
      match branches n !! t with
      | Some x =>
          let '(res, x) := _remove x path in
          (res, mkNode (node_value n)
                  (if node_is_empty x then delete t (branches n) else <[t := x]> (branches n)))
      | None => (None, n)
      end
  end.

Definition remove (n : node) (topic : Topic) : option V * node := _remove n topic.

Fixpoint values_size (n : node) : nat :=
  match n with
  | mkNode v bs =>
      let len := map_fold (λ _ x acc, values_size x + acc) 0 bs in
      if is_some v then len + 1 else len
  end.

Fixpoint nodes_size (n : node) : nat :=
  match n with
  | mkNode _ bs => size bs + map_fold (λ _ x acc, nodes_size x + acc) 0 bs
  end.

(** The length of the longest path. *)
Fixpoint height (n : node) : nat :=
  match n with mkNode _ bs => map_fold (λ _ x acc, Nat.max (S (height x)) acc) 0 bs end.

(** ** Matching *)

Section Iteration.
Context `{!HashOrder Level}.

(** A loop that appends to a vector, over calls that may run out of fuel. *)
Fixpoint append_all {A B} (f : A → option (list B)) (xs : list A) : option (list B) :=
  match xs with
  | [] => Some []
  | x :: xs => out ← f x; rest ← append_all f xs; Some (out ++ rest)
  end.

(** The value of a node, pushed to [out] under its path. *)
Definition push_value (sp : list Level) (v : option V) : list (Topic * V) :=
  match v with Some v => [(sp, v)] | None => [] end.

(** [path.len() > 1 && path[1] == Level::MultiWildcard], after [path[0]]. *)
Definition then_multi (rest : list Level) : bool :=
  match rest with MultiWildcard :: _ => true | _ => false end.

(** A level that wildcards at the start of a filter do not match. *)
Definition hidden (sp : list Level) (k : Level) : bool :=
  bool_decide (sp = []) && negb (bool_decide (k = Blank)) && level_is_metadata k.

(** [_matches]: what is appended to [out]. *)
Fixpoint _matches (fuel : nat) (n : node) (path sp : list Level) : option (list (Topic * V)) :=
  match fuel with
  | O => None
  | S fuel =>
      match path with
      | [] => Some (push_value sp (node_value n))
      | first :: rest =>
          if bool_decide (branches n = ∅) then Some [] else
          let descend '(k, x) :=
            let sp := sp ++ [k] in
            out ← _matches fuel x rest sp;
            Some ((if then_multi rest then push_value sp (node_value x) else []) ++ out) in
          let everything '(k, x) :=
            let sp := sp ++ [k] in
            if bool_decide (branches x = ∅) then Some (push_value sp (node_value x))
            else out ← _matches fuel x path sp; Some (push_value sp (node_value x) ++ out) in
          match branches n !! first with
          | Some r => descend (first, r)
          | None =>
              match first with
              | SingleWildcard =>
                  append_all (λ kx, if hidden sp kx.1 then Some [] else descend kx)
                    (iter (branches n))
              | MultiWildcard =>
                  append_all (λ kx, if hidden sp kx.1 then Some [] else everything kx)
                    (iter (branches n))
              | _ => Some []
              end
          end
      end
  end.

(** [Node::matches] *)
Definition matches (fuel : nat) (n : node) (topic : Topic) : option (list (Topic * V)) :=
  _matches fuel n topic [].

(** ** Bulk removal

    [f] is an [FnMut(&mut V) -> bool]: it may change the value and a state [St]
    of its own. *)

Section Retain.
Context {St : Type} (f : V → St → bool * V * St) (max_limit : Z).

(** The closure of [HashMap::retain] on one entry, after the recursive call;
    the entry is dropped when the result is empty. *)
Definition visit (x : node) (removeds : Z) (st : St) : node * Z * St :=
  match node_value x with
  | Some v =>
      let '(keep, v, st) := f v st in
      if keep then (mkNode (Some v) (branches x), removeds, st)
      else (mkNode None (branches x), (removeds + 1)%Z, st)
  | None => (x, removeds, st)
  end.

Fixpoint retain_branches (rec : node → Z → St → option (node * Z * St))
    (kxs : list (Level * node)) (acc : gmap Level node) (removeds : Z) (st : St)
    : option (gmap Level node * Z * St) :=
  match kxs with
  | [] => Some (acc, removeds, st)
  | (k, x) :: kxs =>
      '(x, removeds, st) ← rec x removeds st;
      let '(x, removeds, st) := visit x removeds st in
      retain_branches rec kxs (if node_is_empty x then acc else <[k := x]> acc) removeds st
  end.

Fixpoint _retain (fuel : nat) (n : node) (removeds : Z) (st : St) : option (node * Z * St) :=
  match fuel with
  | O => None
  | S fuel =>
      if (max_limit <=? removeds)%Z then Some (n, removeds, st) else
      '(bs, removeds, st) ← retain_branches (_retain fuel) (iter (branches n)) ∅ removeds st;
      Some (mkNode (node_value n) bs, removeds, st)
  end.

Definition retain (fuel : nat) (n : node) (st : St) : option (node * Z * St) := _retain fuel n 0 st.
End Retain.
End Iteration.

(** ** What a tree stores *)

Fixpoint retained (n : node) (t : list Level) : option V :=
  match t with
  | [] => node_value n
  | l :: t => branches n !! l ≫= λ x, retained x t
  end.

(** No branch is a wildcard, as no topic name has one, and no node but the root
    is empty. *)
Inductive wf_node : node → Prop :=
| wf_mkNode v bs :
    (∀ k x, bs !! k = Some x → is_wildcard k = false ∧ node_is_empty x = false) →
    (∀ k x, bs !! k = Some x → wf_node x) →
    wf_node (mkNode v bs).

Lemma retained_default t : retained node_default t = None.
Proof. destruct t; [done|]. simpl. by rewrite lookup_empty. Qed.

Lemma retained_cons n l t : retained n (l :: t) = retained (default node_default (branches n !! l)) t.
Proof. simpl. destruct (branches n !! l); [done|]. by rewrite retained_default. Qed.

Lemma rnode_is_empty_true x : node_is_empty x = true → x = node_default.
Proof.
  destruct x as [v bs]. unfold node_is_empty. simpl.
  intros [Hv ->%bool_decide_eq_true]%andb_true_iff. by destruct v.
Qed.

Lemma wf_default : wf_node node_default.
Proof. constructor; intros k x; by rewrite lookup_empty. Qed.

Lemma wf_child n k x : wf_node n → branches n !! k = Some x →
  is_wildcard k = false ∧ node_is_empty x = false ∧ wf_node x.
Proof. intros [v bs Hbs Hwf] Hk. simpl in Hk. destruct (Hbs k x Hk). by eauto. Qed.

Lemma wf_default_child n k : wf_node n → wf_node (default node_default (branches n !! k)).
Proof.
  intros Hn. destruct (branches n !! k) eqn:Hk; [|apply wf_default]. by eapply wf_child.
Qed.

Lemma wf_value v n : wf_node n → wf_node (mkNode v (branches n)).
Proof. intros [v' bs Hbs Hwf]. by constructor. Qed.

(** A branch is replaced by a node that is not empty. *)
Lemma wf_set_branch n k x :
  wf_node n → is_wildcard k = false → node_is_empty x = false → wf_node x →
  wf_node (mkNode (node_value n) (<[k := x]> (branches n))).
Proof.
  intros Hn Hk Hx Hwf. constructor; intros k' y;
    (destruct (decide (k' = k)) as [->|Hne];
     [rewrite lookup_insert_eq; intros [= <-]; done
     |rewrite lookup_insert_ne by done; intros Hy; by destruct (wf_child _ _ _ Hn Hy) as (?&?&?)]).
Qed.

Lemma wf_delete_branch n k : wf_node n → wf_node (mkNode (node_value n) (delete k (branches n))).
Proof.
  intros Hn. constructor; intros k' y [_ Hy]%lookup_delete_Some;
    by destruct (wf_child _ _ _ Hn Hy) as (?&?&?).
Qed.

(** *** Insertion and removal *)

Lemma retained_insert n t v u :
  retained (insert n t v) u = if decide (u = t) then Some v else retained n u.
Proof.
  unfold insert. revert n u. induction t as [|l t IH]; intros n u; cbn [_insert].
  { destruct u; by case_decide. }
  destruct u as [|l' u]; [by case_decide|]. cbn [retained branches].
  destruct (decide (l' = l)) as [->|Hl].
  - rewrite lookup_insert_eq. cbn [mbind option_bind]. rewrite IH, <-retained_cons.
    repeat case_decide; by simplify_eq.
  - rewrite lookup_insert_ne by done. rewrite decide_False by congruence. done.
Qed.

Lemma rinsert_not_empty n t v : node_is_empty (insert n t v) = false.
Proof.
  unfold insert, node_is_empty. destruct t as [|l t]; simpl; [done|].
  apply andb_false_intro2, bool_decide_false, insert_non_empty.
Qed.

Lemma wf_insert n t v :
  wf_node n → Forall (λ l, is_wildcard l = false) t → wf_node (insert n t v).
Proof.
  intros Hn Ht. unfold insert. revert n Hn.
  induction Ht as [|l t Hl Ht IH]; intros n Hn; cbn [_insert]; [by apply wf_value|].
  apply wf_set_branch; [done..|apply rinsert_not_empty|]. apply IH. by apply wf_default_child.
Qed.

Lemma remove_retained_result n t : (remove n t).1 = retained n t.
Proof.
  unfold remove. revert n. induction t as [|l t IH]; intros n; cbn [_remove retained]; [done|].
  destruct (branches n !! l) as [x|]; simpl; [|done].
  rewrite <-IH. by destruct (_remove x t).
Qed.

Lemma retained_remove n t u :
  retained (remove n t).2 u = if decide (u = t) then None else retained n u.
Proof.
  unfold remove. revert n u. induction t as [|l t IH]; intros n u; cbn [_remove].
  { destruct u; by case_decide. }
  destruct (branches n !! l) as [x|] eqn:Hl; cbn [snd].
  2: { case_decide as Hu; [subst; simpl; by rewrite Hl|done]. }
  specialize (IH x). destruct (_remove x t) as [res y]. cbn [snd] in *.
  destruct u as [|l' u]; [by case_decide|]. cbn [retained branches].
  destruct (decide (l' = l)) as [->|Hne].
  - rewrite Hl. cbn [mbind option_bind].
    replace (if decide (l :: u = l :: t) then None else retained x u)
      with (if decide (u = t) then None else retained x u)
      by (repeat case_decide; by simplify_eq).
    rewrite <-IH. destruct (node_is_empty y) eqn:Hy.
    + apply rnode_is_empty_true in Hy as ->. by rewrite lookup_delete_eq, retained_default.
    + by rewrite lookup_insert_eq.
  - rewrite decide_False by congruence.
    case_match; by rewrite ?lookup_delete_ne, ?lookup_insert_ne by done.
Qed.

Lemma wf_remove n t : wf_node n → wf_node (remove n t).2.
Proof.
  unfold remove. revert n. induction t as [|l t IH]; intros n Hn; cbn [_remove]; [by apply wf_value|].
  destruct (branches n !! l) as [x|] eqn:Hl; [|done].
  destruct (wf_child _ _ _ Hn Hl) as (Hw & _ & Hx). specialize (IH x Hx).
  destruct (_remove x t) as [res y]. cbn [snd] in *.
  destruct (node_is_empty y) eqn:Hy; [by apply wf_delete_branch|by apply wf_set_branch].
Qed.

(** *** Heights *)

Lemma height_max (bs : gmap Level node) k x :
  bs !! k = Some x → height x < map_fold (λ _ y acc, Nat.max (S (height y)) acc) 0 bs.
Proof.
  revert k x. induction bs as [|k' y bs Hk' IH] using map_ind; intros k x.
  { by rewrite lookup_empty. }
  rewrite map_fold_insert_L; [|intros; lia|done]. intros [[<- <-]|[_ Hk]]%lookup_insert_Some; [lia|].
  specialize (IH k x Hk). lia.
Qed.

Lemma height_child n k x : branches n !! k = Some x → height x < height n.
Proof. destruct n as [v bs]. simpl. apply height_max. Qed.

(** ** Matching *)

Section Matching.
Context `{!HashOrder Level, !HashOrderOk Level}.

(** What a loop appends, when each call appends what [P] says, under distinct
    keys [key]. *)
Lemma append_all_spec {A B C} (f : A → option (list B)) (P : A → B → Prop) (key : B → C) xs :
  NoDup xs →
  (∀ x, x ∈ xs → ∃ out, f x = Some out ∧ NoDup (key <$> out) ∧ ∀ b, b ∈ out ↔ P x b) →
  (∀ x y b b', P x b → P y b' → key b = key b' → x = y) →
  ∃ out, append_all f xs = Some out ∧ NoDup (key <$> out) ∧ ∀ b, b ∈ out ↔ ∃ x, x ∈ xs ∧ P x b.
Proof.
  intros Hnd Hf Hinj. induction Hnd as [|x xs Hx Hnd IH].
  { exists []. split; [done|]. split; [constructor|]. set_solver. }
  destruct (Hf x) as (o1 & E1 & N1 & H1); [set_solver|].
  destruct IH as (o2 & E2 & N2 & H2); [set_solver|].
  exists (o1 ++ o2). simpl. rewrite E1. simpl. rewrite E2. split; [done|]. split.
  - rewrite fmap_app. apply NoDup_app. split; [done|]. split; [|done].
    intros c (b & -> & Hb%H1)%list_elem_of_fmap (b' & Heq & (y & Hy & Hb')%H2)%list_elem_of_fmap.
    assert (x = y) as -> by eauto. done.
  - set_solver.
Qed.

(** The items under a branch [(k, x)]. *)
Definition under (sp : list Level) (P : list Level → bool) (kx : Level * node) (i : Topic * V) : Prop :=
  ∃ g, i.1 = sp ++ kx.1 :: g ∧ retained kx.2 g = Some i.2 ∧ P g = true.

#[local] Instance under_proper sp :
  Proper (pointwise_relation _ (=) ==> (=) ==> (=) ==> iff) (under sp).
Proof.
  intros P Q HPQ kx ? <- i ? <-. unfold under. by setoid_rewrite HPQ.
Qed.

Lemma under_inj sp P Q n kx ky i j :
  under sp P kx i → under sp Q ky j → branches n !! kx.1 = Some kx.2 →
  branches n !! ky.1 = Some ky.2 → i.1 = j.1 → kx = ky.
Proof.
  destruct kx as [k x], ky as [k' y]. intros (g & -> & _) (g' & -> & _). simpl.
  intros Hx Hy [= <- <-]%app_inv_head. by simplify_eq.
Qed.

Lemma elem_of_push sp v (i : Topic * V) : i ∈ push_value sp v ↔ i.1 = sp ∧ v = Some i.2.
Proof.
  destruct v, i; simpl; [|set_solver]. rewrite list_elem_of_singleton. naive_solver.
Qed.

Lemma NoDup_push sp (v : option V) : NoDup (push_value sp v).*1.
Proof. destruct v; simpl; [apply NoDup_singleton|constructor]. Qed.

(** What [_matches] owes: the topics below the node that match the rest of the
    filter.  The node itself is left to the caller when the rest is [#]. *)
Definition found (n : node) (path sp : list Level) (i : Topic * V) : Prop :=
  ∃ g, i.1 = sp ++ g ∧ retained n g = Some i.2 ∧ level_matches path g = true ∧
       (g = [] → path = []) ∧ (sp = [] → shielded path g = false).

Definition finds (n : node) (path sp : list Level) (r : option (list (Topic * V))) : Prop :=
  ∃ out, r = Some out ∧ NoDup out.*1 ∧ ∀ i, i ∈ out ↔ found n path sp i.

Lemma level_matches_multi g : level_matches [MultiWildcard] g = true.
Proof. by destruct g. Qed.

Lemma then_multi_placed rest : placed rest → then_multi rest = true → rest = [MultiWildcard].
Proof.
  destruct rest as [|l rest]; [done|]. intros [Hm _]%placed_cons Hl.
  destruct l; simpl in Hl; try done. by rewrite Hm.
Qed.

(** The value of a node followed by what is found below it. *)
Lemma node_then_below x rest sp k out :
  placed rest → finds x rest (sp ++ [k]) (Some out) →
  let all := (if then_multi rest then push_value (sp ++ [k]) (node_value x) else []) ++ out in
  NoDup all.*1 ∧ ∀ i, i ∈ all ↔ under sp (level_matches rest) (k, x) i.
Proof.
  intros Hp (? & [= <-] & Hnd & Hout). simpl.
  assert (∀ i, i ∈ out ↔ under sp (λ g, level_matches rest g &&
            bool_decide (g = [] → rest = [])) (k, x) i) as Hout'.
  { intros i. rewrite Hout. unfold found, under. simpl.
    setoid_rewrite <-app_assoc. setoid_rewrite andb_true_iff. setoid_rewrite bool_decide_eq_true.
    split; [naive_solver|]. intros (g & ? & ? & ? & ?). exists g. repeat split; try done.
    by intros [_ [=]]%app_nil. }
  destruct (then_multi rest) eqn:Hm.
  - apply then_multi_placed in Hm as ->; [|done]. rewrite fmap_app. split.
    + apply NoDup_app. split; [apply NoDup_push|]. split; [|done].
      intros t (i & Hi & [Hi' _]%elem_of_push)%list_elem_of_fmap
        (j & Hj & (g & Hj' & _ & Hg)%Hout')%list_elem_of_fmap.
      rewrite Hi, Hi', Hj' in Hj. apply app_inv_head in Hj as [= <-]. 
      apply andb_true_iff in Hg as [_ Hg%bool_decide_eq_true]. by specialize (Hg eq_refl).
    + intros i. rewrite elem_of_app, elem_of_push, Hout'. unfold under. simpl. split.
      * intros [[-> Hv]|(g & ? & ? & _)]; [by exists []|]. exists g. by rewrite level_matches_multi.
      * intros (g & Hi & Hg & _). destruct g as [|l g]; [left; by rewrite Hi|].
        right. exists (l :: g). split; [done|]. split; [done|].
        rewrite level_matches_multi. by rewrite bool_decide_true.
  - split; [done|]. intros i. rewrite app_nil_l, Hout'. unfold under.
    split; intros (g & ? & ? & Hg); exists g; (split; [done|]; split; [done|]).
    + by apply andb_true_iff in Hg as [? _].
    + apply andb_true_iff. split; [done|]. apply bool_decide_eq_true. intros ->.
      destruct rest as [|l rest]; [done|]. simpl in Hg. apply bool_decide_eq_true in Hg.
      destruct Hg as [?|[= -> ->]]; [done|]. by simpl in Hm.
Qed.

Lemma found_nil n sp i : found n [] sp i ↔ i ∈ push_value sp (node_value n).
Proof.
  rewrite elem_of_push. unfold found. split.
  - intros ([|l g] & Hi & Hg & Hm & _); [by rewrite Hi, app_nil_r|done].
  - intros [-> Hv]. exists []. by rewrite app_nil_r.
Qed.

Lemma found_cons n first rest sp i :
  found n (first :: rest) sp i ↔
  ∃ kx, branches n !! kx.1 = Some kx.2 ∧ (sp = [] → is_wildcard first && level_is_metadata kx.1 = false) ∧
        under sp (λ g, level_matches (first :: rest) (kx.1 :: g)) kx i.
Proof.
  unfold found, under. split.
  - intros ([|k g] & Hi & Hg & Hm & Hn & Hs); [by specialize (Hn eq_refl)|]. simpl in Hg.
    destruct (branches n !! k) as [x|] eqn:Hk; [|done].
    exists (k, x). split; [done|]. split; [done|]. by exists g.
  - intros ([k x] & Hk & Hs & g & Hi & Hg & Hm). exists (k :: g). cbn [fst snd retained] in *.
    rewrite Hk. by repeat split.
Qed.

Lemma level_matches_literal first rest k g :
  is_wildcard first = false →
  level_matches (first :: rest) (k :: g) = bool_decide (first = k) && level_matches rest g.
Proof.
  intros Hw. simpl. rewrite (bool_decide_false (_ = [MultiWildcard])) by (by destruct first).
  destruct first; try done; simpl; repeat case_bool_decide; naive_solver.
Qed.

Lemma level_matches_plus rest k g :
  level_matches (SingleWildcard :: rest) (k :: g) = level_matches rest g.
Proof. done. Qed.

Lemma hidden_spec sp k :
  hidden sp k = false ↔ (sp = [] → level_is_metadata k = false).
Proof.
  unfold hidden. destruct sp; simpl; [|done]. destruct k; simpl; naive_solver.
Qed.

(** The entries that a wildcard visits. *)
Lemma wildcard_finds n first rest sp f :
  is_wildcard first = true →
  (∀ kx, branches n !! kx.1 = Some kx.2 → ∃ out,
     f kx = Some out ∧ NoDup out.*1 ∧
     ∀ i, i ∈ out ↔ under sp (λ g, level_matches (first :: rest) (kx.1 :: g)) kx i) →
  finds n (first :: rest) sp
    (append_all (λ kx, if hidden sp kx.1 then Some [] else f kx) (iter (branches n))).
Proof.
  intros Hw Hf. unfold finds. setoid_rewrite found_cons. rewrite Hw. simpl.
  setoid_rewrite <-hidden_spec.
  destruct (append_all_spec (λ kx, if hidden sp kx.1 then Some [] else f kx)
    (λ kx i, branches n !! kx.1 = Some kx.2 ∧ hidden sp kx.1 = false ∧
       under sp (λ g, level_matches (first :: rest) (kx.1 :: g)) kx i) fst (iter (branches n)))
    as (out & Hout & Hnd & Hin).
  - apply NoDup_iter.
  - intros [k x] Hk%elem_of_iter. destruct (hidden sp k) eqn:Hh; simpl; rewrite Hh.
    { exists []. split; [done|]. split; [constructor|]. set_solver. }
    destruct (Hf (k, x) Hk) as (out & -> & ? & Hi). exists out. setoid_rewrite Hi. naive_solver.
  - intros kx ky i j (Hx & _ & Ux) (Hy & _ & Uy). by eapply under_inj.
  - exists out. split; [done|]. split; [done|]. intros i. rewrite Hin.
    split; intros (kx & H1); exists kx; [naive_solver|]. split; [|naive_solver].
    destruct kx. apply elem_of_iter. naive_solver.
Qed.

(** A level that is not a wildcard has one branch, if any. *)
Lemma literal_finds n first rest sp r all :
  is_wildcard first = false → branches n !! first = Some r →
  (NoDup all.*1 ∧ ∀ i, i ∈ all ↔ under sp (level_matches rest) (first, r) i) →
  finds n (first :: rest) sp (Some all).
Proof.
  intros Hw Hr [Hnd Hi]. exists all. split; [done|]. split; [done|]. intros i.
  rewrite Hi, found_cons. split.
  - intros (g & ? & ? & ?). exists (first, r). split; [done|]. rewrite Hw. split; [done|].
    exists g. rewrite level_matches_literal by done. by rewrite bool_decide_true.
  - intros ([k x] & Hk & _ & g & ? & ? & Hm). cbn [fst snd] in *.
    rewrite level_matches_literal in Hm by done.
    apply andb_true_iff in Hm as [<-%bool_decide_eq_true Hm]. simplify_eq. by exists g.
Qed.

Lemma literal_absent n first rest sp :
  is_wildcard first = false → branches n !! first = None → finds n (first :: rest) sp (Some []).
Proof.
  intros Hw Hr. exists []. split; [done|]. split; [constructor|]. intros i. rewrite found_cons.
  split; [by intros ?%not_elem_of_nil|].
  intros ([k x] & Hk & _ & g & _ & _ & Hm). cbn [fst snd] in *.
  rewrite level_matches_literal in Hm by done.
  apply andb_true_iff in Hm as [<-%bool_decide_eq_true _]. congruence.
Qed.

Lemma matches_spec fuel n path sp :
  wf_node n → placed path → height n < fuel → finds n path sp (_matches fuel n path sp).
Proof.
  revert n path sp. induction fuel as [|fuel IH]; intros n path sp Hn Hp Hh; [lia|].
  destruct path as [|first rest]; cbn [_matches].
  { eexists. split; [done|]. split; [apply NoDup_push|]. intros i. by rewrite found_nil. }
  destruct (placed_cons _ _ Hp) as (Hlast & Hrest & _).
  case_bool_decide as Hbs.
  { exists []. split; [done|]. split; [constructor|]. intros i. rewrite found_cons.
    split; [by intros ?%not_elem_of_nil|]. intros (kx & Hk & _). by rewrite Hbs, lookup_empty in Hk. }
  assert (∀ k x, branches n !! k = Some x → ∃ out, _matches fuel x rest (sp ++ [k]) = Some out ∧
    finds x rest (sp ++ [k]) (Some out)) as Hrec.
  { intros k x Hk. destruct (IH x rest (sp ++ [k])) as (out & Ho & H1); [|done|..].
    - by eapply wf_child.
    - apply height_child in Hk. lia.
    - exists out. split; [done|]. by exists out. }
  destruct (branches n !! first) as [r|] eqn:Hr.
  { destruct (Hrec _ _ Hr) as (out & -> & Hout). destruct (wf_child _ _ _ Hn Hr) as (Hw & _).
    apply (literal_finds _ _ _ _ r); [done..|]. by apply node_then_below. }
  destruct (is_wildcard first) eqn:Hw.
  2: { destruct first; try done; by apply literal_absent. }
  destruct first; try done; apply wildcard_finds; try done; intros [k x] Hk; cbn [fst snd] in *.
  - destruct (Hrec _ _ Hk) as (out & -> & Hout). eexists. split; [done|].
    exact (node_then_below x rest sp k out Hrest Hout).
  - specialize (Hlast eq_refl) as ->.
    destruct (IH x [MultiWildcard] (sp ++ [k])) as (out & Ho & Hx);
      [by eapply wf_child|done|by apply height_child in Hk; lia|].
    exists (push_value (sp ++ [k]) (node_value x) ++ out). split.
    + rewrite Ho. case_bool_decide as Hb; [|done]. destruct fuel; [done|].
      cbn [_matches] in Ho. rewrite bool_decide_true in Ho by done. injection Ho as <-.
      by rewrite app_nil_r.
    + destruct (node_then_below x [MultiWildcard] sp k out Hp) as [Hnd Hi]; [by exists out|].
      split; [done|]. intros i. rewrite Hi.
      apply under_proper; [|done..]. intros g. by rewrite !level_matches_multi.
Qed.
End Matching.

(** ** Sizes *)

Definition b2n (b : bool) : nat := if b then 1 else 0.

Lemma rvalues_size_unfold n :
  values_size n = map_sum values_size (branches n) + b2n (is_some (node_value n)).
Proof. destruct n as [[v|] bs]; [done|]. symmetry. apply Nat.add_0_r. Qed.

Lemma values_size_default : values_size node_default = 0.
Proof. done. Qed.

Lemma rvalues_size_branch (bs : gmap Level node) k x :
  map_sum values_size (<[k := x]> bs) + values_size (default node_default (bs !! k)) =
  map_sum values_size bs + values_size x.
Proof.
  rewrite map_sum_insert, (map_sum_delete _ bs k).
  destruct (bs !! k); cbn [from_option id]; rewrite ?values_size_default; lia.
Qed.

Lemma values_size_retained_0 n : (∀ t, retained n t = None) → values_size n = 0.
Proof.
  remember (height n) as h eqn:Hh. revert n Hh.
  induction h as [h IH] using (well_founded_induction lt_wf). intros n -> Hn.
  rewrite rvalues_size_unfold. pose proof (Hn []) as Hv. simpl in Hv. rewrite Hv. simpl.
  enough (map_sum values_size (branches n) = 0) by lia.
  apply map_sum_0. intros k x Hk. apply (IH (height x)); [by eapply height_child|done|].
  intros t. specialize (Hn (k :: t)). simpl in Hn. by rewrite Hk in Hn.
Qed.

Lemma rvalues_size_remove n t :
  values_size n = values_size (remove n t).2 + b2n (is_some (retained n t)).
Proof.
  unfold remove. revert n. induction t as [|l t IH]; intros n; cbn [_remove retained].
  { rewrite !rvalues_size_unfold. simpl. lia. }
  destruct (branches n !! l) as [x|] eqn:Hl; simpl; [|lia].
  specialize (IH x). destruct (_remove x t) as [res y]. cbn [snd] in *.
  rewrite !rvalues_size_unfold. cbn [node_value branches].
  destruct (node_is_empty y) eqn:Hy.
  - apply rnode_is_empty_true in Hy as ->. rewrite (map_sum_delete _ (branches n) l), Hl.
    cbn [from_option]. rewrite values_size_default in IH. lia.
  - pose proof (rvalues_size_branch (branches n) l y) as Hs. rewrite Hl in Hs.
    cbn [from_option id] in Hs. lia.
Qed.

(** The number of values is the size of the map that the tree stands for. *)
Lemma values_size_map (n : node) (m : gmap (list Level) V) :
  (∀ t, retained n t = m !! t) → values_size n = size m.
Proof.
  revert n. induction m as [|t v m Ht IH] using map_ind; intros n Hn.
  { rewrite map_size_empty. apply values_size_retained_0. intros t. by rewrite Hn, lookup_empty. }
  rewrite map_size_insert_None by done. rewrite (rvalues_size_remove n t), (IH (remove n t).2).
  - rewrite Hn, lookup_insert_eq. simpl. lia.
  - intros u. rewrite retained_remove, Hn. case_decide as Hu; [by subst|].
    by rewrite lookup_insert_ne.
Qed.

(** ** Bulk removal *)

Section RetainSpec.
Context `{!HashOrder Level, !HashOrderOk Level}.
(** A closure that keeps what [keep] says, and counts what it drops. *)
Context {St : Type} (f : V → St → bool * V * St) (max_limit : Z).
Context (keep : V → bool) (dropped : St → St).
Hypothesis f_keeps : ∀ v st, f v st = (keep v, v, if keep v then st else dropped st).

Definition kept (o : option V) : option V := o ≫= λ v, if keep v then Some v else None.

(** What becomes of a branch. *)
Definition swept (x : node) (o : option node) : Prop :=
  (∀ t, o ≫= (λ y, retained y t) = kept (retained x t)) ∧
  (∀ y, o = Some y → wf_node y ∧ node_is_empty y = false).

Definition sweeps (n : node) (removeds : Z) (st : St) (r : option (node * Z * St)) : Prop :=
  ∃ n' (k : nat), r = Some (n', removeds + Z.of_nat k, Nat.iter k dropped st)%Z ∧
    wf_node n' ∧ node_value n' = node_value n ∧
    (∀ t, t ≠ [] → retained n' t = kept (retained n t)) ∧
    values_size n = values_size n' + k.

Lemma visit_spec x y removeds st :
  wf_node y → node_value y = node_value x →
  (∀ t, t ≠ [] → retained y t = kept (retained x t)) →
  ∃ y' (k : nat), visit f y removeds st = (y', removeds + Z.of_nat k, Nat.iter k dropped st)%Z ∧
    wf_node y' ∧ (∀ t, retained y' t = kept (retained x t)) ∧ values_size y = values_size y' + k.
Proof.
  intros Hy Hv Ht. unfold visit. destruct (node_value y) as [v|] eqn:Hyv.
  - rewrite f_keeps. destruct (keep v) eqn:Hk.
    + exists (mkNode (Some v) (branches y)), 0. rewrite Z.add_0_r. split; [done|].
      split; [by apply wf_value|]. split; [|rewrite !rvalues_size_unfold, Hyv; simpl; lia].
      intros [|l t]; [|by apply (Ht (l :: t))]. simpl. rewrite <-Hv. simpl. by rewrite Hk.
    + exists (mkNode None (branches y)), 1. split; [done|]. split; [by apply wf_value|].
      split; [|rewrite !rvalues_size_unfold, Hyv; simpl; lia].
      intros [|l t]; [|by apply (Ht (l :: t))]. simpl. rewrite <-Hv. simpl. by rewrite Hk.
  - exists y, 0. rewrite Z.add_0_r. split; [done|]. split; [done|]. split; [|lia].
    intros [|l t]; [|by apply (Ht (l :: t))]. simpl. by rewrite Hyv, <-Hv.
Qed.

Lemma iter_dropped a b st : Nat.iter b dropped (Nat.iter a dropped st) = Nat.iter (a + b) dropped st.
Proof. by rewrite Nat.add_comm, Nat.iter_add. Qed.

(** The loop over the branches, given what the recursive call does. *)
Lemma retain_branches_spec rec kxs acc removeds st :
  NoDup kxs.*1 → (∀ k, k ∈ kxs.*1 → acc !! k = None) →
  (∀ kx r s, kx ∈ kxs → (r + Z.of_nat (values_size kx.2) < max_limit)%Z → sweeps kx.2 r s (rec kx.2 r s)) →
  (removeds + Z.of_nat (sum_list_with (values_size ∘ snd) kxs) < max_limit)%Z →
  ∃ bs (k : nat),
    retain_branches f rec kxs acc removeds st =
      Some (bs, removeds + Z.of_nat k, Nat.iter k dropped st)%Z ∧
    (∀ l, l ∉ kxs.*1 → bs !! l = acc !! l) ∧ (∀ l x, (l, x) ∈ kxs → swept x (bs !! l)) ∧
    sum_list_with (values_size ∘ snd) kxs + map_sum values_size acc = map_sum values_size bs + k.
Proof.
  revert acc removeds st. induction kxs as [|[l x] kxs IH]; intros acc removeds st Hnd Hacc Hrec Hlim.
  { exists acc, 0. rewrite Z.add_0_r. simpl. split; [done|]. split; [done|]. split; [|lia]. set_solver. }
  simpl in Hlim, Hnd. apply NoDup_cons in Hnd as [Hl Hnd].
  destruct (Hrec (l, x) removeds st) as (y & k1 & Hy & Hwf & Hv & Ht & Hs); [set_solver|simpl; lia|].
  cbn [snd] in *. cbn [retain_branches]. rewrite Hy. simpl.
  destruct (visit_spec x y (removeds + Z.of_nat k1) (Nat.iter k1 dropped st) Hwf Hv Ht)
    as (y' & k2 & -> & Hwf' & Ht' & Hs').
  set (acc' := if node_is_empty y' then acc else <[l := y']> acc).
  assert (map_sum values_size acc' = map_sum values_size acc + values_size y') as Hacc'.
  { unfold acc'. destruct (node_is_empty y') eqn:He.
    - apply rnode_is_empty_true in He as ->. by rewrite values_size_default, Nat.add_0_r.
    - rewrite map_sum_insert, delete_id; [lia|]. apply Hacc. set_solver. }
  assert (swept x (acc' !! l)) as Hsw.
  { unfold acc'. destruct (node_is_empty y') eqn:He.
    - rewrite Hacc by set_solver. split; [|done]. intros t. rewrite <-Ht'.
      apply rnode_is_empty_true in He as ->. by rewrite retained_default.
    - rewrite lookup_insert_eq. split; [done|]. intros ? [= <-]. done. }
  destruct (IH acc' (removeds + Z.of_nat k1 + Z.of_nat k2)%Z
              (Nat.iter k2 dropped (Nat.iter k1 dropped st))) as (bs & k & Hb & Hout & Hin & Hsum).
  - done.
  - intros l' Hl'. unfold acc'. case_match; [apply Hacc; set_solver|].
    rewrite lookup_insert_ne by set_solver. apply Hacc. set_solver.
  - set_solver.
  - lia.
  - exists bs, (k1 + k2 + k). rewrite Hb, !iter_dropped. split; [rewrite <-!Z.add_assoc, <-!Nat2Z.inj_add; by rewrite Nat.add_assoc|].
    assert (∀ l', l' ≠ l → acc' !! l' = acc !! l') as Hother.
    { intros l' Hne. unfold acc'. case_match; by rewrite ?lookup_insert_ne. }
    split; [|split].
    + intros l' Hl'. rewrite Hout by set_solver. apply Hother. set_solver.
    + intros l' z [[= -> ->]|Hz]%elem_of_cons; [|by apply Hin]. by rewrite Hout.
    + simpl. lia.
Qed.

Lemma retain_spec fuel n removeds st :
  wf_node n → height n < fuel → (removeds + Z.of_nat (values_size n) < max_limit)%Z →
  sweeps n removeds st (_retain f max_limit fuel n removeds st).
Proof.
  revert n removeds st. induction fuel as [|fuel IH]; intros n removeds st Hn Hh Hlim; [lia|].
  cbn [_retain]. rewrite (proj2 (Z.leb_gt _ _)) by lia.
  pose proof (rvalues_size_unfold n) as Hsz. rewrite (map_sum_iter values_size (branches n)) in Hsz.
  destruct (retain_branches_spec (_retain f max_limit fuel) (iter (branches n)) ∅ removeds st)
    as (bs & k & -> & Hout & Hin & Hsum).
  - apply NoDup_iter_keys.
  - intros. apply lookup_empty.
  - intros [l x] r s' Hl%elem_of_iter Hr. apply IH; [by eapply wf_child| |done].
    apply height_child in Hl. simpl. lia.
  - lia.
  - assert (∀ l, from_option (λ x, swept x (bs !! l)) (bs !! l = None) (branches n !! l)) as Hbs.
    { intros l. destruct (branches n !! l) as [x|] eqn:Hl; simpl; [by apply Hin, elem_of_iter|].
      rewrite Hout; [apply lookup_empty|]. intros ([l' x] & -> & Hx%elem_of_iter)%list_elem_of_fmap.
      simpl in Hl. congruence. }
    exists (mkNode (node_value n) bs), k. split; [done|]. split; [|split; [done|split]].
    + constructor; intros l y Hy; specialize (Hbs l); destruct (branches n !! l) as [x|] eqn:Hl;
        simpl in Hbs; try congruence; destruct Hbs as [_ Hwf]; destruct (Hwf y Hy) as [Hw He];
        [|done]. split; [by destruct (wf_child _ _ _ Hn Hl)|done].
    + intros [|l t] Ht; [done|]. simpl. specialize (Hbs l).
      destruct (branches n !! l) as [x|]; simpl in *; [apply Hbs|by rewrite Hbs].
    + rewrite (rvalues_size_unfold (mkNode _ _)). cbn [node_value branches].
      rewrite map_sum_empty in Hsum. lia.
Qed.
End RetainSpec.

(** ** Claims *)

(** The topics in the tree are the parsed ones. *)
Definition names_ok (n : node) : Prop := ∀ t v, retained n t = Some v → topic_canon t.

Lemma matches_mqtt `{!HashOrder Level, !HashOrderOk Level} fuel n f :
  wf_node n → names_ok n → topic_canon f → height n < fuel →
  ∃ out, matches fuel n f = Some out ∧ NoDup out.*1 ∧
    ∀ t v, (t, v) ∈ out ↔
      retained n t = Some v ∧ mqtt_matches f (split SLASH (topic_to_string t)) = true.
Proof.
  intros Hn Hok Hf Hh. destruct Hf as (Hne & Hc & Hp).
  destruct (matches_spec fuel n f [] Hn Hp Hh) as (out & Ho & Hnd & Hi).
  exists out. split; [done|]. split; [done|]. intros t v. rewrite Hi. unfold found. simpl.
  assert (topic_canon t → trie_matches f t = mqtt_matches f (split SLASH (topic_to_string t))) as Ht.
  { intros. by apply trie_matches_str. }
  unfold trie_matches in Ht. split.
  - intros (g & -> & Hg & Hm & Hnil & Hs). split; [done|].
    rewrite <-Ht by eauto. by rewrite Hm, Hs.
  - intros [Hv Hm]. exists t. pose proof (Hok t v Hv) as (Hnt & _).
    rewrite <-Ht in Hm by eauto. apply andb_true_iff in Hm as [Hs Hm].
    apply negb_true_iff in Hs. done.
Qed.

(** A subscriber is sent exactly the retained messages that match its
    filter.  In every order of the hash maps, the recursion of [matches] ends
    within the height of the tree, and for a parsed filter it collects the
    stored topics that match by the MQTT rules ([$] topics included), each once
    and with its message. *)
Theorem retain_matches_mqtt `{!HashOrder Level, !HashOrderOk Level} n f :
  wf_node n → names_ok n → topic_canon f →
  ∃ out, (∀ fuel, height n < fuel → ∃ out', matches fuel n f = Some out' ∧ out' ≡ₚ out) ∧
    NoDup out.*1 ∧
    ∀ t v, (t, v) ∈ out ↔
      retained n t = Some v ∧ mqtt_matches f (split SLASH (topic_to_string t)) = true.
Proof.
  intros Hn Hok Hf.
  destruct (matches_mqtt (S (height n)) n f Hn Hok Hf) as (out & _ & Hnd & Hi); [lia|].
  exists out. split; [|done]. intros fuel Hh.
  destruct (matches_mqtt fuel n f Hn Hok Hf Hh) as (out' & Ho & Hnd' & Hi').
  exists out'. split; [done|]. apply NoDup_Permutation; [by apply (NoDup_fmap_1 fst)..|].
  intros [t v]. by rewrite Hi, Hi'.
Qed.
End Tree.

(** ** A concrete tree *)

#[local] Existing Instances map_order map_order_ok.

Definition topic_of (s : string) : Topic :=
  match topic_from_str (lit s) with Ok t => t | _ => [] end.

Lemma topic_of_canon s : is_ok (topic_from_str (lit s)) = true → topic_canon (topic_of s).
Proof.
  unfold topic_of. destruct (topic_from_str (lit s)) as [t| |] eqn:Ht; [|done..].
  intros _. by apply topic_from_str_spec in Ht as [? _].
Qed.

Definition sample_retained : Node Z :=
  insert (insert (insert (insert node_default (topic_of "a/b") 1%Z) (topic_of "a") 2%Z)
    (topic_of "$SYS/up") 3%Z) (topic_of "c/b/d") 4%Z.

Example retained_plus : matches 4 sample_retained (topic_of "+/b") = Some [(topic_of "a/b", 1%Z)].
Proof. vm_compute. reflexivity. Qed.

Lemma sample_retained_wf : wf_node sample_retained ∧ names_ok sample_retained.
Proof.
  split.
  - repeat (apply wf_insert; [|repeat constructor]). apply wf_default.
  - intros t v. unfold sample_retained. rewrite !retained_insert, retained_default.
    repeat case_decide; try done; intros _; subst; by apply topic_of_canon.
Qed.

Lemma retain_matches_mqtt_witness :
  ∃ out, matches 4 sample_retained (topic_of "#") = Some out ∧ (topic_of "a", 2%Z) ∈ out ∧
         ∀ v, (topic_of "$SYS/up", v) ∉ out.
Proof.
  destruct sample_retained_wf as [Hwf Hok].
  destruct (retain_matches_mqtt sample_retained (topic_of "#") Hwf Hok) as (out & Hall & _ & Hin);
    [by apply topic_of_canon|].
  destruct (Hall 4) as (out' & Ho & Hp); [vm_compute; lia|].
  exists out'. split; [done|]. split.
  - rewrite Hp. apply Hin. split; vm_compute; reflexivity.
  - intros v. rewrite Hp, Hin. intros [_ Hm]. vm_compute in Hm. discriminate.
Defined.

(** A retained message whose topic name is itself a wildcard is not refused when
    it is published.  It hides the others: a subscriber of [+] is then sent that
    message only. *)
Example retained_wildcard_hides :
  let n := insert (insert node_default (topic_of "a") 1%Z) (topic_of "b") 2%Z in
  length <$> matches 3 n (topic_of "+") = Some 2 ∧
  matches 3 (insert n (topic_of "+") 3%Z) (topic_of "+") = Some [(topic_of "+", 3%Z)].
Proof. by vm_compute. Qed.

(** The limit of [retain] is looked at when a node is entered, not before each
    removal: with a limit of one, all the leaves of a node go. *)
Example retain_limit_exceeded :
  let n := insert (insert (insert node_default (topic_of "a") 1%Z) (topic_of "b") 2%Z)
             (topic_of "c") 3%Z in
  retain (λ v (st : unit), (false, v, st)) 1 3 n tt = Some (node_default, 3%Z, tt).
Proof. by vm_compute. Qed.
