(* ===== verification/RetainStore.v ===== *)
(** * Storage of retained messages

    [DefaultRetainStorage] of [ferromq/src/retain.rs] over the tree of [Retain],
    and [RamRetainer] of [ferromq-plugins/ferromq-retainer/src/ram.rs], the
    storage that a broker without a database runs with.  The contract is a finite
    map from topics to messages with a deadline ([spec_step]); the storage
    refines it. *)

From stdpp Require Import base list numbers option gmap strings.
From Stdlib Require Import ZArith Lia.
From S2P Require Import Prelude Errors Wire CodecTypes Topic Trie Counter Hash BrokerTypes Retain.

#[local] Open Scope Z_scope.

Definition USIZE_MAX : Z := 2 ^ 64 - 1.

Record DefaultRetainStorage : Type := mkStorage {
  messages : Node (TimedValue Retain);
  retaineds : Counter;
}.

Definition storage_new : DefaultRetainStorage := mkStorage node_default counter_new.

(** [count] and [max] *)
Definition storage_count (s : DefaultRetainStorage) : Z := count (retaineds s).
Definition storage_max (s : DefaultRetainStorage) : Z := max (retaineds s).

Section Storage.
Context `{!HashOrder Level}.

(** The fuel of a walk over the tree. *)
Definition enough (s : DefaultRetainStorage) : nat := S (height (messages s)).

(** The closure that [remove_expired_messages] passes to [retain]. *)
Definition drop_expired (now : Z) (tv : TimedValue Retain) (retaineds : Counter)
    : bool * TimedValue Retain * Counter :=
  if tv_is_expired now tv then (false, tv, dec retaineds) else (true, tv, retaineds).

Definition remove_expired_messages (now : Z) (s : DefaultRetainStorage)
    : option (Z * DefaultRetainStorage) :=
  '(messages, removeds, retaineds) ←
     retain (drop_expired now) USIZE_MAX (enough s) (messages s) (retaineds s);
  Some (removeds, mkStorage messages retaineds).

Definition set_with_timeout (now : Z) (topic : TopicName) (r : Retain) (timeout : option Z)
    (s : DefaultRetainStorage) : outcome TopicError unit * DefaultRetainStorage :=
  match topic_from_str topic with
  | Ok topic =>
      let '(old, messages) := remove (messages s) topic in
      (Ok tt,
       if negb (bool_decide (payload (inner (r_publish r)) = [])) then
         mkStorage (insert messages topic (timed_new now r timeout))
           (if is_some old then retaineds s else inc (retaineds s))
       else
         mkStorage messages (if is_some old then dec (retaineds s) else retaineds s))
  | Err e => (Err e, s)
  | Panic => (Panic, s)
  end.

(** The [filter_map] of [get_message]. *)
Definition live (now : Z) (tr : Topic * TimedValue Retain) : option (TopicName * Retain) :=
  if tv_is_expired now tr.2 then None else Some (topic_to_string tr.1, tv_value tr.2).

Definition get_message (now : Z) (topic_filter : TopicFilter) (s : DefaultRetainStorage)
    : outcome TopicError (list (TopicName * Retain)) :=
  match topic_from_str topic_filter with
  | Ok topic =>
      match matches (enough s) (messages s) topic with
      | Some out => Ok (omap (live now) out)
      | None => Panic
      end
  | Err e => Err e
  | Panic => Panic
  end.

Definition live_page (now : Z) (tr : Topic * TimedValue Retain)
    : option (TopicName * Retain * option Z) :=
  if tv_is_expired now tr.2 then None
  else Some (topic_to_string tr.1, tv_value tr.2, tv_remaining now tr.2).

Definition get_all_paginated (checks : bool) (now offset limit : Z) (s : DefaultRetainStorage)
    : outcome TopicError (list (TopicName * Retain * option Z) * bool) :=
  match topic_from_str (lit "#") with
  | Ok topic =>
      match matches (enough s) (messages s) topic with
      | Some out =>
          let all := omap (live_page now) out in
          let total := len all in
          match add_usize checks offset limit with
          | Some bound =>
              Ok (take (Z.to_nat limit) (drop (Z.to_nat offset) all), bound <? total)
          | None => Panic
          end
      | None => Panic
      end
  | Err e => Err e
  | Panic => Panic
  end.

(** ** The retainer of the plugin *)

Record PluginConfig : Type := mkPluginConfig {
  max_retained_messages : Z;
  max_payload_size : Z;
  retained_message_ttl : option Z;
}.

Definition ram_set (cfg : PluginConfig) (now : Z) (topic : TopicName) (r : Retain)
    (expiry_interval : option Z) (s : DefaultRetainStorage)
    : outcome TopicError unit * DefaultRetainStorage :=
  if max_payload_size cfg <? len (payload (inner (r_publish r))) then (Ok tt, s)
  else if (0 <? max_retained_messages cfg) && (max_retained_messages cfg <=? storage_count s)
  then (Ok tt, s)
  else
    let expiry_interval :=
      match retained_message_ttl cfg with
      | Some ttl => if ttl =? 0 then None else Some ttl
      | None => expiry_interval
      end in
    set_with_timeout now topic r expiry_interval s.

Definition ram_get (now : Z) (topic_filter : TopicFilter) (s : DefaultRetainStorage)
    : outcome TopicError (list (TopicName * Retain)) := get_message now topic_filter s.

(** ** The contract *)

(** Requests of the broker, with the time at which they are served. *)
Inductive op : Type :=
| OpSet (now : Z) (topic : TopicName) (r : Retain) (timeout : option Z)
| OpGet (now : Z) (topic_filter : TopicFilter)
| OpExpire (now : Z).

Inductive reply : Type :=
| Done
| Refused (e : TopicError)
| Messages (out : list (TopicName * Retain))
| Removed (k : Z)
| Broken.

Definition exec (o : op) (s : DefaultRetainStorage) : reply * DefaultRetainStorage :=
  match o with
  | OpSet now topic r timeout =>
      match set_with_timeout now topic r timeout s with
      | (Ok _, s) => (Done, s)
      | (Err e, s) => (Refused e, s)
      | (Panic, s) => (Broken, s)
      end
  | OpGet now f =>
      (match get_message now f s with
       | Ok out => Messages out
       | Err e => Refused e
       | Panic => Broken
       end, s)
  | OpExpire now =>
      match remove_expired_messages now s with
      | Some (k, s) => (Removed k, s)
      | None => (Broken, s)
      end
  end.

(** The abstract store. *)
Abbreviation store := (gmap (list Level) (TimedValue Retain)).

Definition expired_in (now : Z) (m : store) : store :=
  filter (λ kv, tv_is_expired now kv.2 = false) m.

Inductive spec_step : op → store → reply → store → Prop :=
| spec_set now topic r timeout t m :
    topic_from_str topic = Ok t → payload (inner (r_publish r)) ≠ [] →
    spec_step (OpSet now topic r timeout) m Done (<[t := timed_new now r timeout]> m)
| spec_clear now topic r timeout t m :
    topic_from_str topic = Ok t → payload (inner (r_publish r)) = [] →
    spec_step (OpSet now topic r timeout) m Done (delete t m)
| spec_set_refused now topic r timeout e m :
    topic_from_str topic = Err e → spec_step (OpSet now topic r timeout) m (Refused e) m
| spec_get now topic_filter f out m :
    topic_from_str topic_filter = Ok f → NoDup out.*1 →
    (∀ name r, (name, r) ∈ out ↔ ∃ t tv,
       m !! t = Some tv ∧ tv_is_expired now tv = false ∧ name = topic_to_string t ∧
       r = tv_value tv ∧ mqtt_matches f (split SLASH name) = true) →
    spec_step (OpGet now topic_filter) m (Messages out) m
| spec_get_refused now topic_filter e m :
    topic_from_str topic_filter = Err e → spec_step (OpGet now topic_filter) m (Refused e) m
| spec_expire now m :
    spec_step (OpExpire now) m
      (Removed (Z.of_nat (size m) - Z.of_nat (size (expired_in now m)))) (expired_in now m).

(** ** The refinement *)

(** The tree stands for the map, and the counter for its size. *)
Record rep (s : DefaultRetainStorage) (m : store) : Prop := mkRep {
  rep_wf : wf_node (messages s);
  rep_names : names_ok (messages s);
  rep_lookup : ∀ t, retained (messages s) t = m !! t;
  rep_count : storage_count s = as_isize (Z.of_nat (size m));
}.

(** Topic names have no wildcards. *)
Definition op_ok (o : op) : Prop :=
  match o with OpSet _ topic _ _ => contains_wildcard topic = false | _ => True end.

Context `{!HashOrderOk Level}.

Lemma elem_of_join c sep ps p : p ∈ ps → c ∈ p → c ∈ join sep ps.
Proof.
  induction ps as [|q ps IH]; [by intros ?%not_elem_of_nil|]. intros Hp Hc.
  destruct (decide (ps = [])) as [->|Hne].
  { simpl. set_solver. }
  rewrite join_cons by done. apply elem_of_cons in Hp as [->|Hp]; [set_solver|].
  apply elem_of_app. right. apply elem_of_cons. auto.
Qed.

Lemma no_wildcard_levels topic t :
  topic_from_str topic = Ok t → contains_wildcard topic = false →
  Forall (λ l, is_wildcard l = false) t.
Proof.
  intros [_ Hs]%topic_from_str_spec Hc. rewrite topic_to_string_join in Hs. subst topic.
  apply Forall_forall. intros l Hl. destruct (is_wildcard l) eqn:Hw; [|done].
  rewrite <-Hc. symmetry. unfold contains_wildcard. apply existsb_exists.
  exists (if decide (l = SingleWildcard) then PLUS else HASH). rewrite <-list_elem_of_In. split.
  - apply (elem_of_join _ _ _ (level_to_string l)); [by apply list_elem_of_fmap_2|].
    destruct l; try done; simpl; set_solver.
  - by destruct l.
Qed.

Lemma rep_new : rep storage_new ∅.
Proof.
  split; simpl; [apply wf_default|..|done].
  - intros t v. by rewrite retained_default.
  - intros t. by rewrite retained_default, lookup_empty.
Qed.

Lemma rep_remove s m (t : list Level) :
  rep s m → let '(old, n) := remove (messages s) t in
  old = m !! t ∧ rep (mkStorage n (if is_some old then dec (retaineds s) else retaineds s)) (delete t m).
Proof.
  intros [Hwf Hn Hl Hc]. pose proof (remove_retained_result (messages s) t) as Hold.
  pose proof (retained_remove (messages s) t) as Hr. pose proof (wf_remove (messages s) t Hwf) as Hw.
  destruct (remove (messages s) t) as [old n]. simpl in *. rewrite Hl in Hold. split; [done|].
  split; cbn [messages]; [done|..].
  - intros u v. rewrite Hr. case_decide; [done|]. apply Hn.
  - intros u. rewrite Hr. case_decide; [subst; by rewrite lookup_delete_eq|].
    by rewrite lookup_delete_ne.
  - unfold storage_count in *. cbn [retaineds].
    destruct old; cbn [is_some]; symmetry in Hold.
    + rewrite map_size_delete_Some by eauto. rewrite (count_dec _ _ Hc). f_equal.
      assert (size m ≠ 0%nat) by (intros Hz%map_size_empty_iff; by rewrite Hz, lookup_empty in Hold). lia.
    + by rewrite map_size_delete_None.
Qed.

Lemma rep_insert n c m t tv :
  wf_node n → names_ok n → (∀ u, u ≠ t → retained n u = m !! u) → topic_canon t →
  Forall (λ l, is_wildcard l = false) t →
  count c = as_isize (Z.of_nat (size (<[t := tv]> m))) → rep (mkStorage (insert n t tv) c) (<[t := tv]> m).
Proof.
  intros Hwf Hn Hl Ht Hw Hc. split; simpl; [by apply wf_insert|..|done].
  - intros u v. rewrite retained_insert. case_decide; [by subst|]. apply Hn.
  - intros u. rewrite retained_insert. case_decide; [subst; by rewrite lookup_insert_eq|].
    rewrite lookup_insert_ne by done. by apply Hl.
Qed.

Lemma set_refines now topic r timeout s m :
  rep s m → contains_wildcard topic = false →
  let '(rep', s') := exec (OpSet now topic r timeout) s in
  ∃ m', spec_step (OpSet now topic r timeout) m rep' m' ∧ rep s' m'.
Proof.
  intros Hs Hw. cbn [exec]. unfold set_with_timeout.
  destruct (topic_from_str topic) as [t|e|] eqn:Ht.
  - pose proof (rep_remove s m t Hs) as Hrm. destruct (remove (messages s) t) as [old n].
    destruct Hrm as [Hold Hrm]. case_bool_decide as Hp; simpl.
    + exists (delete t m). split; [by eapply spec_clear|done].
    + exists (<[t := timed_new now r timeout]> m). split; [by apply spec_set|].
      destruct Hrm as [Hwf Hn Hl _]. destruct Hs as [_ _ _ Hc]. simpl in *. apply rep_insert; try done.
      * intros u Hu. by rewrite Hl, lookup_delete_ne.
      * by apply topic_from_str_spec in Ht as [? _].
      * by eapply no_wildcard_levels.
      * unfold storage_count in Hc. destruct old; cbn [is_some]; symmetry in Hold.
        -- by rewrite map_size_insert_Some by eauto.
        -- rewrite map_size_insert_None by done. rewrite (count_inc _ _ Hc). f_equal. lia.
  - exists m. split; [by apply spec_set_refused|done].
  - by destruct (topic_from_str_no_panic topic).
Qed.

Lemma topic_to_string_inj t u :
  topic_canon t → topic_canon u → topic_to_string t = topic_to_string u → t = u.
Proof.
  intros Ht Hu Heq. assert (topic_from_str (topic_to_string u) = Ok t) as H1.
  { by apply topic_from_str_spec. }
  assert (topic_from_str (topic_to_string u) = Ok u) as H2 by (by apply topic_from_str_spec).
  congruence.
Qed.

(** What a walk over the tree finds for a filter, in the map's terms. *)
Lemma rep_matches s m f :
  rep s m → topic_canon f →
  ∃ out, matches (enough s) (messages s) f = Some out ∧ NoDup out.*1 ∧
    (∀ t tv, (t, tv) ∈ out ↔
       m !! t = Some tv ∧ mqtt_matches f (split SLASH (topic_to_string t)) = true) ∧
    (∀ t tv, (t, tv) ∈ out → topic_canon t).
Proof.
  intros [Hwf Hn Hl _] Hf.
  destruct (matches_mqtt (enough s) (messages s) f Hwf Hn Hf) as (out & Ho & Hnd & Hi).
  { unfold enough. lia. }
  exists out. split; [done|]. split; [done|]. split.
  - intros t tv. by rewrite Hi, Hl.
  - intros t tv [Ht _]%Hi. by eapply Hn.
Qed.

(** Names of a [filter_map] over distinct topics are distinct. *)
Lemma NoDup_names {B} (g : Topic * TimedValue Retain → option B) (name : B → TopicName) out :
  (∀ t tv, (t, tv) ∈ out → topic_canon t) → NoDup out.*1 →
  (∀ i b, g i = Some b → name b = topic_to_string i.1) → NoDup (name <$> omap g out).
Proof.
  intros Hc Hnd Hg. induction out as [|[t tv] out IH]; [constructor|]. simpl in *.
  apply NoDup_cons in Hnd as [Ht Hnd].
  assert (NoDup (name <$> omap g out)) as Hrest by (apply IH; [|done]; intros u uv Hu; apply (Hc u uv), elem_of_cons; auto).
  destruct (g (t, tv)) as [nb|] eqn:Hgt; [|done]. simpl. apply NoDup_cons. split; [|done].
  intros (nb' & Heq & ([u uv] & Hu & Hgu)%list_elem_of_omap)%list_elem_of_fmap.
  rewrite (Hg _ _ Hgt), (Hg _ _ Hgu) in Heq. simpl in Heq. apply topic_to_string_inj in Heq as ->.
  - apply Ht. apply list_elem_of_fmap. by exists (u, uv).
  - apply (Hc t tv), elem_of_cons. auto.
  - apply (Hc u uv), elem_of_cons. auto.
Qed.

Lemma get_refines now f s m :
  rep s m →
  let '(r, s') := exec (OpGet now f) s in ∃ m', spec_step (OpGet now f) m r m' ∧ rep s' m'.
Proof.
  intros Hs. cbn [exec]. unfold get_message. exists m. split; [|done].
  destruct (topic_from_str f) as [t|e|] eqn:Hf; [|by apply spec_get_refused|].
  2: { by destruct (topic_from_str_no_panic f). }
  destruct (rep_matches s m t Hs) as (out & -> & Hnd & Hi & Hc).
  { by apply topic_from_str_spec in Hf as [? _]. }
  apply (spec_get _ _ t); [done|..].
  - apply NoDup_names; [done..|]. intros [u uv] b. unfold live. simpl.
    case_match; [done|]. by intros [= <-].
  - intros name r. rewrite list_elem_of_omap. unfold live. split.
    + intros ([u uv] & [Hu Hm]%Hi & Hlive). simpl in Hlive.
      destruct (tv_is_expired now uv) eqn:He; [done|]. simplify_eq. by exists u, uv.
    + intros (u & uv & Hu & He & -> & -> & Hm). exists (u, uv). rewrite Hi. simpl. by rewrite He.
Qed.

Lemma dec_iter c n k : count c = as_isize n → count (Nat.iter k dec c) = as_isize (n - Z.of_nat k).
Proof.
  intros Hc. induction k as [|k IH]; [by rewrite Z.sub_0_r|].
  rewrite Nat.iter_succ, (count_dec _ _ IH). f_equal. lia.
Qed.

Lemma expire_refines now s m :
  rep s m → Z.of_nat (size m) < USIZE_MAX →
  let '(r, s') := exec (OpExpire now) s in ∃ m', spec_step (OpExpire now) m r m' ∧ rep s' m'.
Proof.
  intros [Hwf Hn Hl Hc] Hlt. pose proof (values_size_map _ _ Hl) as Hsz.
  cbn [exec]. unfold remove_expired_messages, retain.
  destruct (retain_spec (drop_expired now) USIZE_MAX (λ tv, negb (tv_is_expired now tv)) dec)
    with (fuel := enough s) (n := messages s) (removeds := 0) (st := retaineds s)
    as (n & k & -> & Hwf' & Hv & Ht & Hk).
  - intros tv st. unfold drop_expired. by destruct (tv_is_expired now tv).
  - done.
  - unfold enough. lia.
  - lia.
  - assert (∀ t, retained n t = expired_in now m !! t) as Hl'.
    { intros t. unfold expired_in. rewrite map_lookup_filter, <-Hl. destruct t as [|l t].
      - simpl. rewrite Hv. destruct (node_value (messages s)) as [tv|] eqn:Hroot; [|done].
        destruct (Hn [] tv Hroot) as [? _]. done.
      - rewrite Ht by done. unfold kept. destruct (retained (messages s) (l :: t)) as [tv|]; simpl; [|done].
        by destruct (tv_is_expired now tv). }
    pose proof (values_size_map _ _ Hl') as Hsz'. exists (expired_in now m). split.
    + replace (0 + Z.of_nat k) with (Z.of_nat (size m) - Z.of_nat (size (expired_in now m))) by lia.
      apply spec_expire.
    + split; simpl; [done|..|done|].
      * intros t tv. rewrite Hl'. unfold expired_in. rewrite map_lookup_filter_Some.
        intros [Hm _]. rewrite <-Hl in Hm. by eapply Hn.
      * unfold storage_count in *. cbn [retaineds]. rewrite (dec_iter _ _ _ Hc). f_equal. lia.
Qed.

Lemma exec_refines o s m :
  rep s m → op_ok o → Z.of_nat (size m) < USIZE_MAX →
  let '(r, s') := exec o s in ∃ m', spec_step o m r m' ∧ rep s' m'.
Proof.
  intros Hs Ho Hlt. destruct o as [now topic r timeout|now f|now].
  - by apply set_refines.
  - by apply get_refines.
  - by apply expire_refines.
Qed.

Lemma spec_step_size o m r m' : spec_step o m r m' → (size m' ≤ S (size m))%nat.
Proof.
  intros []; try lia.
  - rewrite map_size_insert. case_match; simpl; lia.
  - rewrite map_size_delete. case_match; simpl; lia.
  - unfold expired_in. pose proof (map_size_filter (λ kv, tv_is_expired now kv.2 = false) m0). lia.
Qed.

(** *** Sequences of requests *)

Fixpoint exec_all (ops : list op) (s : DefaultRetainStorage) : list reply * DefaultRetainStorage :=
  match ops with
  | [] => ([], s)
  | o :: ops =>
      let '(r, s) := exec o s in
      let '(rs, s) := exec_all ops s in (r :: rs, s)
  end.

Inductive spec_run : list op → store → list reply → store → Prop :=
| run_nil m : spec_run [] m [] m
| run_cons o ops m r m' rs m'' :
    spec_step o m r m' → spec_run ops m' rs m'' → spec_run (o :: ops) m (r :: rs) m''.

Lemma exec_all_refines ops s m :
  rep s m → Forall op_ok ops → Z.of_nat (size m) + len ops < 2 ^ 63 →
  let '(rs, s') := exec_all ops s in
  ∃ m', spec_run ops m rs m' ∧ rep s' m' ∧ Z.of_nat (size m') < 2 ^ 63.
Proof.
  intros Hs Hok. revert s m Hs. induction Hok as [|o ops Ho Hok IH]; intros s m Hs Hlt; simpl.
  { exists m. split; [constructor|]. split; [done|]. by rewrite len_nil, Z.add_0_r in Hlt. }
  rewrite len_cons in Hlt. pose proof (len_nonneg ops).
  pose proof (exec_refines o s m Hs Ho) as Hstep. destruct (exec o s) as [r s1].
  destruct Hstep as (m1 & Hstep & Hs1); [unfold USIZE_MAX; lia|].
  pose proof (spec_step_size _ _ _ _ Hstep).
  specialize (IH s1 m1 Hs1). destruct (exec_all ops s1) as [rs s2].
  destruct IH as (m2 & Hrun & Hs2 & Hsz); [lia|]. exists m2. split; [|done].
  by eapply run_cons.
Qed.

(** *** Pages *)

Lemma split_cons_metadata s : ∃ p ps, split SLASH s = p :: ps ∧ is_metadata p = is_metadata s.
Proof.
  destruct s as [|c s]; [by exists [], []|]. simpl. destruct (Z.eqb_spec c SLASH) as [->|Hc].
  - by exists [], (split SLASH s).
  - destruct (split SLASH s) as [|p ps]; [by exists [c], []|]. by exists (c :: p), ps.
Qed.

Lemma matches_hash s : mqtt_matches [MultiWildcard] (split SLASH s) = negb (is_metadata s).
Proof.
  destruct (split_cons_metadata s) as (p & ps & -> & <-). simpl. by rewrite andb_true_r.
Qed.

(** ** Claims *)


(** The pages that a joining node asks for are the pages of one list of the live
    messages, in the order of the walk; [has_more] says whether there is
    another.  Topics that start with [$] are on no page. *)
Lemma paginated_complete now s m :
  rep s m → ∃ all,
    NoDup all.*1.*1 ∧
    (∀ name r left, (name, r, left) ∈ all ↔ ∃ t tv,
       m !! t = Some tv ∧ tv_is_expired now tv = false ∧ name = topic_to_string t ∧
       r = tv_value tv ∧ left = tv_remaining now tv ∧ is_metadata name = false) ∧
    ∀ checks offset limit, offset + limit < 2 ^ 64 →
      get_all_paginated checks now offset limit s =
      Ok (take (Z.to_nat limit) (drop (Z.to_nat offset) all), offset + limit <? len all).
Proof.
  intros Hs. assert (topic_from_str (lit "#") = Ok [MultiWildcard]) as Hh by done.
  destruct (rep_matches s m [MultiWildcard] Hs) as (out & Ho & Hnd & Hi & Hc).
  { by apply topic_from_str_spec in Hh as [? _]. }
  exists (omap (live_page now) out). split; [|split].
  - rewrite <-list_fmap_compose. apply NoDup_names; [done..|].
    intros [u uv] b. unfold live_page. simpl. case_match; [done|]. by intros [= <-].
  - intros name r left. rewrite list_elem_of_omap. unfold live_page. split.
    + intros ([u uv] & [Hu Hm]%Hi & Hlive). simpl in Hlive.
      destruct (tv_is_expired now uv) eqn:He; [done|]. simplify_eq. exists u, uv.
      rewrite matches_hash in Hm. by apply negb_true_iff in Hm.
    + intros (u & uv & Hu & He & -> & -> & -> & Hm). exists (u, uv). rewrite Hi, matches_hash, Hm.
      simpl. by rewrite He.
  - intros checks offset limit Hlt. unfold get_all_paginated, add_usize. rewrite Hh, Ho.
    by rewrite (proj2 (Z.ltb_lt _ _)) by lia.
Qed.

(** The limits of the in-memory retainer.  While topics have no wildcards,
    the number of messages stays within the configured maximum; but a store that
    has reached it is frozen: every further request is dropped and answered as
    if it had succeeded, also one that replaces or clears a stored message. *)
Theorem ram_limit cfg now topic r expiry s m :
  rep s m → contains_wildcard topic = false →
  0 < max_retained_messages cfg < 2 ^ 63 → Z.of_nat (size m) ≤ max_retained_messages cfg →
  let '(o, s') := ram_set cfg now topic r expiry s in
  (∃ m', rep s' m' ∧ Z.of_nat (size m') ≤ max_retained_messages cfg) ∧ o ≠ Panic ∧
  (Z.of_nat (size m) = max_retained_messages cfg → (o, s') = (Ok tt, s)).
Proof.
  intros Hs Hw Hmax Hle. unfold ram_set.
  destruct (max_payload_size cfg <? _); [split; [by exists m|by split]|].
  pose proof (rep_count s m Hs) as Hc. rewrite as_isize_id in Hc by lia. rewrite Hc.
  destruct (Z.ltb_spec 0 (max_retained_messages cfg)); [|lia]. simpl.
  destruct (Z.leb_spec (max_retained_messages cfg) (Z.of_nat (size m)));
    [split; [by exists m|by split]|].
  set (d := match retained_message_ttl cfg with Some _ => _ | None => _ end).
  pose proof (set_refines now topic r d s m Hs Hw) as Hset. cbn [exec] in Hset.
  assert ((set_with_timeout now topic r d s).1 ≠ Panic) as Hnp.
  { unfold set_with_timeout. pose proof (topic_from_str_no_panic topic).
    repeat case_match; simpl; congruence. }
  destruct (set_with_timeout now topic r d s) as [o s']. split; [|split; [done|lia]].
  destruct o; [|..|done]; destruct Hset as (m' & Hstep & Hs'); exists m';
    (split; [done|]); apply spec_step_size in Hstep; lia.
Qed.
End Storage.

(** ** A concrete run *)

#[local] Existing Instances map_order map_order_ok.

Definition sample_id : Id := mkId 1 0 None None (lit "c1") None 0.

Definition sample_retain (topic : TopicName) (payload : bytes) : Retain :=
  mkRetain None (from_custom sample_id)
    (publish_of (CodecTypes.mkPublish false true AtMostOnce topic None payload None)).

Definition sample_ops : list op :=
  [OpSet 0 (lit "a/b") (sample_retain (lit "a/b") [1]) None;
   OpSet 0 (lit "a/c") (sample_retain (lit "a/c") [2]) (Some 10);
   OpGet 5 (lit "a/+");
   OpExpire 10;
   OpSet 11 (lit "a/b") (sample_retain (lit "a/b") []) None;
   OpGet 12 (lit "#")].

Example sample_run : (exec_all sample_ops storage_new).1 =
  [Done; Done;
   Messages [(lit "a/b", sample_retain (lit "a/b") [1]); (lit "a/c", sample_retain (lit "a/c") [2])];
   Removed 1; Done; Messages []] ∨
  (exec_all sample_ops storage_new).1 =
  [Done; Done;
   Messages [(lit "a/c", sample_retain (lit "a/c") [2]); (lit "a/b", sample_retain (lit "a/b") [1])];
   Removed 1; Done; Messages []].
Proof. first [left; vm_compute; reflexivity | right; vm_compute; reflexivity]. Qed.


(** A retainer for one message, holding it. *)
Definition full_cfg : PluginConfig := mkPluginConfig 1 1000 None.
Definition full_store : DefaultRetainStorage :=
  (exec (OpSet 0 (lit "a") (sample_retain (lit "a") [1]) None) storage_new).2.

Lemma ram_limit_witness :
  ram_set full_cfg 1 (lit "a") (sample_retain (lit "a") []) None full_store = (Ok tt, full_store).
Proof.
  pose proof (set_refines 0 (lit "a") (sample_retain (lit "a") [1]) None storage_new ∅ rep_new eq_refl)
    as Hset.
  assert (full_store = (exec (OpSet 0 (lit "a") (sample_retain (lit "a") [1]) None) storage_new).2)
    as Hfull by reflexivity.
  destruct (exec _ _) as [o s]. cbn [snd] in Hfull. subst s. destruct Hset as (m & Hstep & Hrep).
  assert (size m = 1%nat) as Hsz.
  { pose proof (values_size_map _ _ (rep_lookup _ _ Hrep)) as Hv. rewrite <-Hv. vm_compute. reflexivity. }
  pose proof (ram_limit full_cfg 1 (lit "a") (sample_retain (lit "a") []) None full_store m Hrep eq_refl)
    as Hlim.
  destruct (ram_set full_cfg 1 (lit "a") (sample_retain (lit "a") []) None full_store) as [o' s'].
  destruct Hlim as (_ & _ & Hlim); [vm_compute; by split|rewrite Hsz; vm_compute; congruence|].
  apply Hlim. rewrite Hsz. reflexivity.
Defined.
