(* ===== verification/Router.v ===== *)
(** * The router

    [DefaultRouter] of [ferromq/src/router.rs], with the collector of
    [ferromq/src/types.rs] in which it gathers the subscribers of a message: the
    tree of topic filters ([Trie]), the map from filters to subscribers, and the
    two counters.

    The choice of a subscriber from a shared group is behind the trait
    [SharedSubscription] ([subscribe.rs]), the class [SharedSubscription] here
    with the laws [SharedSubscriptionOk] that the router relies on; [Shared]
    proves them of the strategies.  Whether a client is online is asked of the
    other parts of the broker and is a parameter.  The locks of the tree and of
    the map make each operation atomic; the model takes them one at a time. *)

From stdpp Require Import base list numbers option gmap strings.
From Stdlib Require Import ZArith Lia.
From S2P Require Import Prelude Errors Wire CodecTypes PacketV5 Topic Trie Counter Hash BrokerTypes.

#[local] Open Scope Z_scope.

(** ** Relations found for a message *)

Abbreviation SharedGroupType := (SharedGroup * bool * list ClientId)%type.
Abbreviation SubRelation :=
  (TopicFilter * ClientId * SubscriptionOptions * option (list SubscriptionIdentifier)
   * option SharedGroupType)%type.

Record Collector : Type := mkCollector {
  v3_rels : list SubRelation;
  v5_rels : gmap ClientId (TopicFilter * SubscriptionOptions * option (list SubscriptionIdentifier)
                           * option SharedGroupType);
}.

Definition collector_default : Collector := mkCollector [] ∅.

(** [SubscriptioRelationsCollector::add] *)
Definition collector_add (tf : TopicFilter) (cid : ClientId) (opts : SubscriptionOptions)
    (group : option SharedGroupType) (c : Collector) : Collector :=
  if is_v3 opts then
    mkCollector (v3_rels c ++ [(tf, cid, opts, None, group)]) (v5_rels c)
  else
    mkCollector (v3_rels c)
      (<[cid := match v5_rels c !! cid with
                | Some (tf0, opts0, sub_ids, group0) =>
                    (tf0, opts0,
                     match subscription_identifier opts with
                     | Some sub_id =>
                         match sub_ids with
                         | Some sub_ids => Some (sub_ids ++ [sub_id])
                         | None => Some [sub_id]
                         end
                     | None => sub_ids
                     end, group0)
                | None => (tf, opts, (λ id, [id]) <$> subscription_identifier opts, group)
                end]> (v5_rels c)).

(** [From<SubscriptioRelationsCollector> for SubRelations] *)
Definition collector_into `{!HashOrder str} (c : Collector) : list SubRelation :=
  v3_rels c ++ map (λ '(cid, (tf, opts, sub_ids, group)), (tf, cid, opts, sub_ids, group))
                   (iter (v5_rels c)).

(** ** Shared subscriptions *)

Abbreviation Candidate :=
  (NodeId * ClientId * SubscriptionOptions * option (list SubscriptionIdentifier) * option bool)%type.

Class SharedSubscription (St : Type) :=
  choice : SharedGroup → Id → TopicName → list Candidate → St → option (nat * bool) * St.

(** From a group with members, a member is chosen. *)
Class SharedSubscriptionOk (St : Type) `{SharedSubscription St} :=
  choice_ok : ∀ group publisher topic ncs st, ncs ≠ [] →
    ∃ idx online st', choice group publisher topic ncs st = (Some (idx, online), st') ∧
                      (idx < length ncs)%nat.

(** ** The router *)

Record DefaultRouter : Type := mkRouter {
  topics : Trie.Node unit;
  topics_count : Counter;
  relations : gmap TopicFilter (gmap ClientId (Id * SubscriptionOptions));
  relations_count : Counter;
}.

Definition router_new : DefaultRouter := mkRouter Trie.node_default counter_new ∅ counter_new.

(** *** Subscribing

    The tree and the map have their own locks, so an operation is a sequence of
    steps between which operations of other sessions can run. *)

Definition add_tree (topic : Topic) (r : DefaultRouter) : DefaultRouter :=
  mkRouter (Trie.insert (topics r) topic ()).2 (topics_count r) (relations r) (relations_count r).

Definition add_relation (topic_filter : str) (id : Id) (opts : SubscriptionOptions)
    (r : DefaultRouter) : DefaultRouter :=
  let '(rels, topics_count) :=
    match relations r !! topic_filter with
    | Some rels => (rels, topics_count r)
    | None => (∅, inc (topics_count r))
    end in
  let old := rels !! id_client_id id in
  mkRouter (topics r) topics_count
    (<[topic_filter := <[id_client_id id := (id, opts)]> rels]> (relations r))
    (if is_some old then relations_count r else inc (relations_count r)).

(** [Router::add] *)
Definition router_add (topic_filter : str) (id : Id) (opts : SubscriptionOptions)
    (r : DefaultRouter) : outcome TopicError unit * DefaultRouter :=
  match topic_from_str topic_filter with
  | Ok topic => (Ok tt, add_relation topic_filter id opts (add_tree topic r))
  | Err e => (Err e, r)
  | Panic => (Panic, r)
  end.

(** *** Unsubscribing *)

(** The relation goes only when it belongs to the same session of the client;
    the answer says whether it was the last one of the filter. *)
Definition remove_relation (topic_filter : str) (id : Id) (r : DefaultRouter)
    : option bool * DefaultRouter :=
  match relations r !! topic_filter with
  | Some rels =>
      let remove_enable :=
        match rels !! id_client_id id with
        | Some (s_id, _) => bool_decide (s_id = id)
        | None => false
        end in
      if remove_enable then
        let rels := delete (id_client_id id) rels in
        (Some (bool_decide (rels = ∅)),
         mkRouter (topics r) (topics_count r) (<[topic_filter := rels]> (relations r))
           (dec (relations_count r)))
      else (None, r)
  | None => (None, r)
  end.

Definition remove_filter (topic_filter : str) (r : DefaultRouter) : DefaultRouter :=
  mkRouter (topics r)
    (if is_some (relations r !! topic_filter) then dec (topics_count r) else topics_count r)
    (delete topic_filter (relations r)) (relations_count r).

Definition remove_tree (topic : Topic) (r : DefaultRouter) : DefaultRouter :=
  mkRouter (Trie.remove (topics r) topic ()).2 (topics_count r) (relations r) (relations_count r).

(** [Router::remove] *)
Definition router_remove (topic_filter : str) (id : Id) (r : DefaultRouter)
    : outcome TopicError bool * DefaultRouter :=
  match remove_relation topic_filter id r with
  | (Some true, r) =>
      let r := remove_filter topic_filter r in
      match topic_from_str topic_filter with
      | Ok topic => (Ok true, remove_tree topic r)
      | Err e => (Err e, r)
      | Panic => (Panic, r)
      end
  | (Some false, r) => (Ok true, r)
  | (None, r) => (Ok false, r)
  end.

(** *** Matching *)

(** [self.topics.read().await.matches(&topic).iter()] *)
Definition unit_le : relation unit := λ _ _, True.
#[export] Instance unit_le_dec x y : Decision (unit_le x y) := left I.

Definition matched (n : Trie.Node unit) (topic : Topic) : option (list (list Level * list unit)) :=
  collect_all unit_le n topic.

Definition _has_matches (topic : str) (r : DefaultRouter) : outcome TopicError bool :=
  match topic_from_str topic with
  | Ok topic => match is_match unit_le (topics r) topic with Some b => Ok b | None => Panic end
  | Err e => Err e
  | Panic => Panic
  end.

Section Matching.
Context `{!HashOrder str}.
Context {St : Type} `{!SharedSubscription St}.
(** [Router::is_online] *)
Context (is_online : NodeId → ClientId → bool).
(** The publisher and the topic of the message. *)
Context (this_id : Id) (topic_name : TopicName).

Abbreviation Groups := (gmap SharedGroup (list Candidate)).
Abbreviation CollectorMap := (gmap NodeId Collector).

(** [collector_map.entry(node_id).or_default().add(..)] *)
Definition map_add (node_id : NodeId) (tf : TopicFilter) (cid : ClientId)
    (opts : SubscriptionOptions) (group : option SharedGroupType) (cm : CollectorMap) : CollectorMap :=
  <[node_id := collector_add tf cid opts group (default collector_default (cm !! node_id))]> cm.

(** [opts.no_local()] of the publisher's own subscription. *)
Definition skips (id : Id) (opts : SubscriptionOptions) : bool :=
  match no_local opts with Some no_local => no_local && bool_decide (this_id = id) | None => false end.

(** One subscriber of a filter. *)
Definition on_relation (tf : TopicFilter) (rel : ClientId * (Id * SubscriptionOptions))
    (st : CollectorMap * Groups) : CollectorMap * Groups :=
  let '(client_id, (id, opts)) := rel in
  let '(cm, groups) := st in
  if skips id opts then (cm, groups)
  else match shared_group opts with
       | Some group =>
           (cm, <[group := default [] (groups !! group) ++
                    [(id_node_id id, client_id, opts, None, Some (is_online (id_node_id id) client_id))]]>
                  groups)
       | None => (map_add (id_node_id id) tf client_id opts None cm, groups)
       end.

(** [Vec::remove] on a valid index; the tail is not used. *)
Definition on_group (tf : TopicFilter) (gs : SharedGroup * list Candidate)
    (st : option (CollectorMap * St)) : option (CollectorMap * St) :=
  let '(group, s_subs) := gs in
  '(cm, s) ← st;
  let group_cids := map (λ c : Candidate, c.1.1.1.2) s_subs in
  match choice group this_id topic_name s_subs s with
  | (Some (idx, online), s) =>
      '(node_id, client_id, opts, _, _) ← s_subs !! idx;
      Some (map_add node_id tf client_id opts (Some (group, online, group_cids)) cm, s)
  | (None, s) => Some (cm, s)
  end.

(** One filter that matches. *)
Definition on_filter (r : DefaultRouter) (item : list Level * list unit)
    (st : option (CollectorMap * St)) : option (CollectorMap * St) :=
  '(cm, s) ← st;
  let tf := topic_to_string item.1 in
  let '(cm, groups) :=
    match relations r !! tf with
    | Some rels => foldl (flip (on_relation tf)) (cm, ∅) (iter rels)
    | None => (cm, ∅)
    end in
  foldl (flip (on_group tf)) (Some (cm, s)) (iter groups).

(** [DefaultRouter::_matches]; [None] inside is an index out of range. *)
Definition _matches (r : DefaultRouter) (s : St)
    : outcome TopicError (gmap NodeId (list SubRelation)) * St :=
  match topic_from_str topic_name with
  | Ok topic =>
      match matched (topics r) topic with
      | Some items =>
          match foldl (flip (on_filter r)) (Some (∅, s)) items with
          | Some (cm, s) => (Ok (collector_into <$> cm), s)
          | None => (Panic, s)
          end
      | None => (Panic, s)
      end
  | Err e => (Err e, s)
  | Panic => (Panic, s)
  end.
End Matching.

(** *** Queries *)

(** [unique] of itertools: the first of equal items. *)
Fixpoint unique_from {A} `{EqDecision A} (seen xs : list A) : list A :=
  match xs with
  | [] => []
  | x :: xs => if decide (x ∈ seen) then unique_from seen xs else x :: unique_from (x :: seen) xs
  end.
Definition unique {A} `{EqDecision A} (xs : list A) : list A := unique_from [] xs.

(** The [filter_map] with a counter [curr] that all inner loops share. *)
Fixpoint limited {A} (limit curr : Z) (xs : list A) : list A * Z :=
  match xs with
  | [] => ([], curr)
  | x :: xs =>
      if curr <? limit then let '(out, curr) := limited limit (curr + 1) xs in (x :: out, curr)
      else limited limit curr xs
  end.

Fixpoint limited_all {A} (limit curr : Z) (xss : list (list A)) : list A :=
  match xss with
  | [] => []
  | xs :: xss => let '(out, curr) := limited limit curr xs in out ++ limited_all limit curr xss
  end.

Record Route : Type := mkRoute { route_node_id : NodeId; route_topic : TopicFilter }.

#[export] Instance Route_eq_dec : EqDecision Route.
Proof. solve_decision. Defined.

Record SubsSearchParams : Type := mkSearch {
  q_limit : Z;
  q_clientid : option str;
  q_topic : option str;
  q_qos : option Z;
  q_share : option SharedGroup;
  q_match_topic : option str;
}.

Record SubsSearchResult : Type := mkResult {
  sr_node_id : NodeId;
  sr_clientid : ClientId;
  sr_client_addr : option SocketAddr;
  sr_topic : TopicFilter;
  sr_opts : SubscriptionOptions;
}.

Section Queries.
Context `{!HashOrder str}.

Definition _query_subscriptions_filter (q : SubsSearchParams) (client_id : ClientId)
    (opts : SubscriptionOptions) : bool :=
  match q_clientid q with Some c => bool_decide (c = client_id) | None => true end &&
  match q_qos q with Some v => v =? opts_qos_value opts | None => true end &&
  match q_share q, shared_group opts with
  | Some q_group, Some group => bool_decide (q_group = group)
  | Some _, None => false
  | _, _ => true
  end.

(** The subscribers of a filter that a query asks for. *)
Definition search_results (q : SubsSearchParams) (tf : TopicFilter)
    (rels : gmap ClientId (Id * SubscriptionOptions)) : list SubsSearchResult :=
  map (λ '(client_id, (id, opts)), mkResult (id_node_id id) client_id (id_remote_addr id) tf opts)
    (filter (λ rel, _query_subscriptions_filter q rel.1 rel.2.2 = true) (iter rels)).

Definition _query_subscriptions_for_topic (q : SubsSearchParams) (topic : str) (r : DefaultRouter)
    : list SubsSearchResult :=
  match relations r !! topic with
  | Some rels => (limited (q_limit q) 0 (search_results q topic rels)).1
  | None => []
  end.

(** The filters that match, as strings, without repetition. *)
Definition matched_filters (topic : Topic) (r : DefaultRouter) : list TopicFilter :=
  match matched (topics r) topic with
  | Some items => map (λ i, topic_to_string i.1) (unique items)
  | None => []
  end.

Definition _query_subscriptions_for_matches (q : SubsSearchParams) (match_topic : str)
    (r : DefaultRouter) : list SubsSearchResult :=
  match topic_from_str match_topic with
  | Ok topic =>
      limited_all (q_limit q) 0
        (map (λ tf, match relations r !! tf with
                    | Some rels => search_results q tf rels | None => [] end)
           (matched_filters topic r))
  | _ => []
  end.

Definition _query_subscriptions_for_other (q : SubsSearchParams) (r : DefaultRouter)
    : list SubsSearchResult :=
  limited_all (q_limit q) 0 (map (λ '(tf, rels), search_results q tf rels) (iter (relations r))).

Definition _query_subscriptions (q : SubsSearchParams) (r : DefaultRouter) : list SubsSearchResult :=
  match q_topic q, q_match_topic q with
  | Some topic, _ => _query_subscriptions_for_topic q topic r
  | None, Some match_topic => _query_subscriptions_for_matches q match_topic r
  | None, None => _query_subscriptions_for_other q r
  end.

(** [gets] and [get] *)
Definition gets (limit : Z) (r : DefaultRouter) : list Route :=
  limited_all limit 0
    (map (λ '(tf, rels), unique (map (λ '(_, (id, _)), mkRoute (id_node_id id) tf) (iter rels)))
       (iter (relations r))).

Definition get (topic : str) (r : DefaultRouter) : outcome TopicError (list Route) :=
  match topic_from_str topic with
  | Ok topic =>
      Ok (flat_map (λ tf,
            match relations r !! tf with
            | Some rels =>
                map (λ node_id, mkRoute node_id tf)
                  (unique (map (λ '(_, (id, _)), id_node_id id) (iter rels)))
            | None => []
            end) (matched_filters topic r))
  | Err e => Err e
  | Panic => Panic
  end.

Definition _get_routes (node_id : NodeId) (topic : str) (r : DefaultRouter)
    : outcome TopicError (list Route) :=
  match topic_from_str topic with
  | Ok topic => Ok (map (mkRoute node_id) (matched_filters topic r))
  | Err e => Err e
  | Panic => Panic
  end.
End Queries.

Definition topics_tree (r : DefaultRouter) : nat := Trie.values_size (topics r).

(** [merge_topics] and [merge_routes] *)
Fixpoint merge_rest (c : Counter) (counters : list Counter) : Counter :=
  match counters with
  | [] => c
  | o :: counters => merge_rest (max_max (max o) (count_min (count o) c)) counters
  end.

Definition merge_counters `{!HashOrder Z} (m : gmap NodeId Counter) : Counter :=
  match (iter m).*2 with
  | [] => counter_new
  | o :: counters => merge_rest (set o counter_new) counters
  end.

(** ** The invariant *)

(** What is subscribed: filters and clients to sessions and options. *)
Definition subscribed (r : DefaultRouter) (tf : TopicFilter) (cid : ClientId)
    : option (Id * SubscriptionOptions) := relations r !! tf ≫= λ rels, rels !! cid.

(** The filters of the map parse, have a subscriber, and are the filters of the
    tree; entries are filed under their client; the counters count. *)
Record router_inv (r : DefaultRouter) : Prop := mkInv {
  inv_filters : ∀ tf rels, relations r !! tf = Some rels →
    rels ≠ ∅ ∧ ∃ t, topic_from_str tf = Ok t;
  inv_clients : ∀ tf cid id opts, subscribed r tf cid = Some (id, opts) → id_client_id id = cid;
  inv_tree : ∀ f, stored (topics r) f ≠ ∅ ↔
    topic_canon f ∧ is_Some (relations r !! topic_to_string f);
  inv_pruned : pruned (topics r);
  inv_size : Trie.values_size (topics r) = size (relations r);
  inv_topics : count (topics_count r) = as_isize (Z.of_nat (size (relations r)));
  inv_relations : count (relations_count r) = as_isize (Z.of_nat (map_sum size (relations r)));
}.

Lemma router_new_inv : router_inv router_new.
Proof.
  split; simpl; try done.
  - intros f. rewrite stored_default, lookup_empty. split; [done|]. by intros [_ [? ?]].
Qed.

Lemma unit_set (s : gset unit) : s ≠ ∅ ↔ () ∈ s.
Proof.
  split; [|set_solver]. intros H. destruct (decide (() ∈ s)) as [|Hn]; [done|].
  destruct H. apply elem_of_equiv_empty_L. by intros [].
Qed.

Lemma topic_to_string_canon tf t f :
  topic_from_str tf = Ok t → topic_canon f → topic_to_string f = tf ↔ f = t.
Proof.
  intros Ht Hf. split.
  - intros Heq. assert (topic_from_str tf = Ok f) by (by apply topic_from_str_spec). congruence.
  - intros ->. by apply topic_from_str_spec in Ht as [_ ?].
Qed.

Lemma size_entry (m : gmap str (gmap str (Id * SubscriptionOptions))) tf rels :
  (map_sum size (<[tf := rels]> m) + from_option size 0 (m !! tf) = map_sum size m + size rels)%nat.
Proof. rewrite map_sum_insert, (map_sum_delete size m tf). lia. Qed.

(** *** Adding *)

Lemma subscribed_add tf id opts r tf' cid :
  subscribed (add_relation tf id opts r) tf' cid =
  if decide (tf' = tf ∧ cid = id_client_id id) then Some (id, opts) else subscribed r tf' cid.
Proof.
  unfold subscribed, add_relation. destruct (relations r !! tf) as [rels|] eqn:Hr; simpl;
    (destruct (decide (tf' = tf)) as [->|Hne];
     [rewrite lookup_insert_eq; simpl; destruct (decide (cid = id_client_id id)) as [->|Hc];
      [rewrite lookup_insert_eq; by rewrite decide_True
      |rewrite lookup_insert_ne by done; rewrite decide_False by naive_solver;
       rewrite ?Hr; simpl; by rewrite ?lookup_empty]
     |rewrite lookup_insert_ne by done; by rewrite decide_False by naive_solver]).
Qed.

Lemma router_add_inv tf id opts r t :
  router_inv r → topic_from_str tf = Ok t →
  router_inv (add_relation tf id opts (add_tree t r)).
Proof.
  intros [Hf Hc Ht Hp Hs Htc Hrc] Hpt.
  pose proof (subscribed_add tf id opts (add_tree t r)) as Hsub.
  assert (relations (add_relation tf id opts (add_tree t r)) =
    <[tf := <[id_client_id id := (id, opts)]> (default ∅ (relations r !! tf))]> (relations r)) as Hrel.
  { unfold add_relation. simpl. by destruct (relations r !! tf). }
  assert (topics (add_relation tf id opts (add_tree t r)) = (Trie.insert (topics r) t ()).2) as Htop.
  { unfold add_relation. simpl. by destruct (relations r !! tf). }
  assert (stored (topics r) t ≠ ∅ ↔ is_Some (relations r !! tf)) as Hst.
  { apply topic_from_str_spec in Hpt as [Hcan <-]. rewrite Ht. naive_solver. }
  split; rewrite ?Hrel, ?Htop.
  - intros tf' rels' Hl. destruct (decide (tf' = tf)) as [->|Hne].
    + rewrite lookup_insert_eq in Hl. injection Hl as <-. split; [apply insert_non_empty|by exists t].
    + rewrite lookup_insert_ne in Hl by done. by eapply Hf.
  - intros tf' cid id' opts'. rewrite Hsub. case_decide as Hd; [intros [= <- <-]; by destruct Hd|].
    apply Hc.
  - intros f. rewrite insert_stored. case_decide as Hft.
    + subst f. split; [|set_solver]. intros _. apply topic_from_str_spec in Hpt as [Hcan <-].
      split; [done|]. rewrite lookup_insert_eq. by eexists.
    + rewrite Ht. split; intros [Hcan Hl]; (split; [done|]).
      * rewrite lookup_insert_ne; [done|]. intros Heq. apply Hft.
        by apply (topic_to_string_canon tf t).
      * rewrite lookup_insert_ne in Hl; [done|].
        intros Heq. symmetry in Heq. by apply (topic_to_string_canon tf t) in Heq.
  - by apply insert_pruned.
  - rewrite values_size_insert, insert_result, map_size_insert, Hs. rewrite unit_set in Hst.
    destruct (decide (() ∈ stored (topics r) t)) as [Hin|Hin].
    + rewrite bool_decide_false by (by intros ?). by apply Hst in Hin as [? ->].
    + rewrite bool_decide_true by done. destruct (relations r !! tf) eqn:Hr; [|done].
      destruct Hin. apply Hst. by eexists.
  - unfold add_relation. simpl. destruct (relations r !! tf) eqn:Hr; simpl.
    + by rewrite map_size_insert_Some by eauto.
    + rewrite map_size_insert_None by done. rewrite (count_inc _ _ Htc). f_equal. lia.
  - pose proof (size_entry (relations r) tf
      (<[id_client_id id := (id, opts)]> (default ∅ (relations r !! tf)))) as Hsum.
    rewrite map_size_insert in Hsum. unfold add_relation. simpl.
    destruct (relations r !! tf) as [rels|] eqn:Hr; cbn [from_option Datatypes.id] in *.
    + destruct (rels !! id_client_id id); cbn [is_some relations_count Datatypes.id] in *.
      * rewrite Hrc. do 2 f_equal. lia.
      * rewrite (count_inc _ _ Hrc). f_equal. lia.
    + rewrite lookup_empty in *. cbn [is_some relations_count] in *.
      rewrite (count_inc _ _ Hrc). rewrite map_size_empty in Hsum. f_equal. lia.
Qed.

(** *** Removing *)

(** The subscription is there and belongs to the session. *)
Definition removable (r : DefaultRouter) (tf : TopicFilter) (id : Id) : bool :=
  match subscribed r tf (id_client_id id) with Some (s_id, _) => bool_decide (s_id = id) | None => false end.

Lemma remove_relation_spec tf id r :
  remove_relation tf id r =
  match relations r !! tf with
  | Some rels =>
      if removable r tf id then
        (Some (bool_decide (delete (id_client_id id) rels = ∅)),
         mkRouter (topics r) (topics_count r) (<[tf := delete (id_client_id id) rels]> (relations r))
           (dec (relations_count r)))
      else (None, r)
  | None => (None, r)
  end.
Proof.
  unfold remove_relation, removable, subscribed. by destruct (relations r !! tf).
Qed.

(** A relation that is not the last one of its filter. *)
Lemma remove_some_inv r tf id rels o :
  router_inv r → relations r !! tf = Some rels → rels !! id_client_id id = Some o →
  delete (id_client_id id) rels ≠ ∅ →
  router_inv (mkRouter (topics r) (topics_count r) (<[tf := delete (id_client_id id) rels]> (relations r))
                (dec (relations_count r))).
Proof.
  intros [Hf Hc Ht Hp Hs Htc Hrc] Hr Ho Hne.
  assert (is_Some (relations r !! tf)) as His by eauto. split; simpl.
  - intros tf' rels'. destruct (decide (tf' = tf)) as [->|Hd].
    + rewrite lookup_insert_eq. intros [= <-]. split; [done|]. by eapply Hf.
    + rewrite lookup_insert_ne by done. apply Hf.
  - intros tf' cid id' opts'. unfold subscribed. simpl. destruct (decide (tf' = tf)) as [->|Hd].
    + rewrite lookup_insert_eq. simpl. intros [_ Hl]%lookup_delete_Some.
      apply (Hc tf cid id' opts'). unfold subscribed. by rewrite Hr.
    + rewrite lookup_insert_ne by done. apply Hc.
  - intros f. rewrite Ht. destruct (decide (topic_to_string f = tf)) as [->|Hd].
    + rewrite lookup_insert_eq. split; intros [? _]; split; by eauto.
    + by rewrite lookup_insert_ne by done.
  - done.
  - by rewrite map_size_insert_Some by done.
  - by rewrite map_size_insert_Some by done.
  - pose proof (size_entry (relations r) tf (delete (id_client_id id) rels)) as Hsum.
    rewrite Hr, map_size_delete_Some in Hsum by eauto. simpl in Hsum.
    assert (size rels ≠ 0%nat) by (intros Hz%map_size_empty_iff; by rewrite Hz, lookup_empty in Ho).
    rewrite (count_dec _ _ Hrc). f_equal. lia.
Qed.

(** The last relation of its filter: the filter goes too. *)
Lemma remove_last_inv r tf id rels o t :
  router_inv r → relations r !! tf = Some rels → rels !! id_client_id id = Some o →
  delete (id_client_id id) rels = ∅ → topic_from_str tf = Ok t →
  router_inv (mkRouter (Trie.remove (topics r) t ()).2 (dec (topics_count r))
                (delete tf (relations r)) (dec (relations_count r))).
Proof.
  intros [Hf Hc Ht Hp Hs Htc Hrc] Hr Ho He Hpt.
  assert (topic_canon t ∧ topic_to_string t = tf) as [Hcan Hstr] by by apply topic_from_str_spec.
  assert (() ∈ stored (topics r) t) as Hin by (apply unit_set, Ht; rewrite Hstr; eauto).
  assert (size (relations r) ≠ 0%nat).
  { intros Hz%map_size_empty_iff. by rewrite Hz, lookup_empty in Hr. }
  split; simpl.
  - intros tf' rels' [_ Hl]%lookup_delete_Some. by apply Hf.
  - intros tf' cid id' opts'. unfold subscribed. simpl.
    destruct (decide (tf' = tf)) as [->|Hd]; [by rewrite lookup_delete_eq|].
    rewrite lookup_delete_ne by done. apply Hc.
  - intros f. rewrite remove_stored. case_decide as Hft.
    + subst f. rewrite Hstr, lookup_delete_eq. split; [|by intros [_ [? ?]]].
      intros Hn. destruct Hn. apply elem_of_equiv_empty_L. intros []. set_solver.
    + rewrite Ht. split; intros [Hcf Hl]; (split; [done|]).
      * rewrite lookup_delete_ne; [done|]. intros Heq. apply Hft.
        by apply (topic_to_string_canon tf t).
      * by destruct Hl as [? [_ ?]%lookup_delete_Some]; eauto.
  - by apply remove_pruned.
  - pose proof (values_size_remove (topics r) t ()) as Hv. rewrite remove_result in Hv.
    rewrite bool_decide_true in Hv by done. rewrite map_size_delete_Some by eauto. lia.
  - rewrite map_size_delete_Some by eauto. rewrite (count_dec _ _ Htc). f_equal. lia.
  - pose proof (map_sum_delete size (relations r) tf) as Hsum. rewrite Hr in Hsum. simpl in Hsum.
    assert (size rels = 1%nat) as H1.
    { rewrite <-(insert_delete_id rels _ _ Ho), He. by rewrite insert_empty, map_size_singleton. }
    rewrite (count_dec _ _ Hrc). f_equal. lia.
Qed.

(** *** What routing needs

    The tree has every filter that has subscribers, and perhaps others, and the
    counters can be anything. *)
Record router_routes (r : DefaultRouter) : Prop := mkRoutes {
  rt_filters : ∀ tf rels, relations r !! tf = Some rels → rels ≠ ∅ ∧ ∃ t, topic_from_str tf = Ok t;
  rt_clients : ∀ tf cid id opts, subscribed r tf cid = Some (id, opts) → id_client_id id = cid;
  rt_covers : ∀ f, topic_canon f → is_Some (relations r !! topic_to_string f) → stored (topics r) f ≠ ∅;
  rt_canon : ∀ f, stored (topics r) f ≠ ∅ → topic_canon f;
}.

Lemma router_inv_routes r : router_inv r → router_routes r.
Proof.
  intros [Hf Hc Ht _ _ _ _]. split; [done..| |].
  - intros f Hcan Hr. by apply Ht.
  - intros f Hs. by apply Ht in Hs as [? _].
Qed.

Lemma router_add_routes tf id opts r t :
  router_routes r → topic_from_str tf = Ok t → router_routes (add_relation tf id opts (add_tree t r)).
Proof.
  intros [Hf Hc Hv Hk] Hpt.
  pose proof (subscribed_add tf id opts (add_tree t r)) as Hsub.
  assert (relations (add_relation tf id opts (add_tree t r)) =
    <[tf := <[id_client_id id := (id, opts)]> (default ∅ (relations r !! tf))]> (relations r)) as Hrel.
  { unfold add_relation. simpl. by destruct (relations r !! tf). }
  assert (topics (add_relation tf id opts (add_tree t r)) = (Trie.insert (topics r) t ()).2) as Htop.
  { unfold add_relation. simpl. by destruct (relations r !! tf). }
  pose proof (proj1 (topic_from_str_spec tf t) Hpt) as [Hcan _].
  split; rewrite ?Hrel, ?Htop.
  - intros tf' rels' [[<- <-]|[_ Hl]]%lookup_insert_Some; [|by eapply Hf].
    split; [apply insert_non_empty|by exists t].
  - intros tf' cid id' opts'. rewrite Hsub. case_decide as Hd; [intros [= <- <-]; by destruct Hd|].
    apply Hc.
  - intros f Hcf Hl. rewrite insert_stored. case_decide as Hft; [set_solver|]. apply Hv; [done|].
    rewrite lookup_insert_ne in Hl; [done|]. intros Heq. apply Hft.
    by apply (topic_to_string_canon tf t).
  - intros f. rewrite insert_stored. case_decide as Hft; [by subst f|apply Hk].
Qed.

(** What is subscribed when the relation of one client has gone from a filter. *)
Lemma subscribed_removed r r' tf cid0 rels :
  relations r !! tf = Some rels →
  relations r' = (if decide (delete cid0 rels = ∅) then delete tf (relations r)
                  else <[tf := delete cid0 rels]> (relations r)) →
  ∀ tf' cid, subscribed r' tf' cid =
    if decide (tf' = tf ∧ cid = cid0) then None else subscribed r tf' cid.
Proof.
  intros Hl Hr' tf' cid. unfold subscribed. rewrite Hr'. destruct (decide (tf' = tf)) as [->|Hd].
  2: { rewrite (decide_False (P := _ ∧ _)) by naive_solver.
       case_decide; [by rewrite lookup_delete_ne|by rewrite lookup_insert_ne]. }
  rewrite Hl. simpl. case_decide as He; rewrite ?lookup_delete_eq, ?lookup_insert_eq; simpl;
    (case_decide as Hx; [destruct Hx as (_ & ->)|]).
  - done.
  - symmetry. assert (delete cid0 rels !! cid = None) as Hn by (by rewrite He, lookup_empty).
    rewrite lookup_delete_ne in Hn; [done|]. naive_solver.
  - by rewrite lookup_delete_eq.
  - rewrite lookup_delete_ne; [done|]. naive_solver.
Qed.

(** Fewer relations, with their filters still in the tree. *)
Lemma router_routes_fewer r r' :
  router_routes r →
  (∀ tf rels, relations r' !! tf = Some rels → rels ≠ ∅ ∧ is_Some (relations r !! tf)) →
  (∀ tf cid o, subscribed r' tf cid = Some o → subscribed r tf cid = Some o) →
  (∀ f, topic_canon f → is_Some (relations r' !! topic_to_string f) → stored (topics r') f ≠ ∅) →
  (∀ f, stored (topics r') f ≠ ∅ → topic_canon f) → router_routes r'.
Proof.
  intros Hr H1 H2 H3 H4. split; [|..|done|done].
  - intros tf rels [Hne [x Hx]]%H1. split; [done|]. by eapply (rt_filters r Hr).
  - intros tf cid id opts ?%H2. by eapply (rt_clients r Hr).
Qed.

Lemma router_remove_routes tf id r :
  router_routes r →
  let '(o, r') := router_remove tf id r in
  o = Ok (removable r tf id) ∧ router_routes r' ∧
  ∀ tf' cid, subscribed r' tf' cid =
    if decide (removable r tf id = true ∧ tf' = tf ∧ cid = id_client_id id) then None
    else subscribed r tf' cid.
Proof.
  intros Hr. unfold router_remove. rewrite remove_relation_spec.
  assert (∀ r', (∀ tf' cid, subscribed r' tf' cid =
      if decide (tf' = tf ∧ cid = id_client_id id) then None else subscribed r tf' cid) →
    (∀ tf' cid, subscribed r' tf' cid =
      if decide (true = true ∧ tf' = tf ∧ cid = id_client_id id) then None else subscribed r tf' cid) ∧
    ∀ tf' cid o, subscribed r' tf' cid = Some o → subscribed r tf' cid = Some o) as Hsub.
  { intros r' Hs. split; intros tf' cid; [|intros o]; rewrite Hs; repeat case_decide; naive_solver. }
  destruct (relations r !! tf) as [rels|] eqn:Hl.
  2: { assert (removable r tf id = false) as -> by (unfold removable, subscribed; by rewrite Hl).
       split; [done|]. split; [done|]. intros. by rewrite decide_False by naive_solver. }
  destruct (removable r tf id) eqn:Hrm.
  2: { split; [done|]. split; [done|]. intros. by rewrite decide_False by naive_solver. }
  destruct (rt_filters r Hr tf rels Hl) as [_ [t Ht]].
  case_bool_decide as He; simpl.
  - rewrite Ht. split; [done|]. unfold remove_tree, remove_filter. simpl.
    rewrite lookup_insert_eq, delete_insert_eq. cbn [is_some].
    match goal with |- router_routes ?r' ∧ _ =>
      destruct (Hsub r') as [Hs Hm]; [apply (subscribed_removed r r' tf _ rels Hl); simpl; by rewrite decide_True|] end.
    split; [|exact Hs]. apply (router_routes_fewer r); simpl; [done|..|exact Hm| |].
    + intros tf' rels' [_ Hx]%lookup_delete_Some. split; [by eapply rt_filters|by eexists].
    + intros f Hcf [x [Hne Hx]%lookup_delete_Some]. rewrite remove_stored, decide_False.
      * apply (rt_covers r Hr); [done|by eexists].
      * intros ->. by apply topic_from_str_spec in Ht as [_ ?].
    + intros f. rewrite remove_stored. destruct (decide (f = t)) as [->|]; [|apply (rt_canon r Hr)].
      intros _. by apply topic_from_str_spec in Ht as [? _].
  - split; [done|].
    match goal with |- router_routes ?r' ∧ _ =>
      destruct (Hsub r') as [Hs Hm]; [apply (subscribed_removed r r' tf _ rels Hl); simpl; by rewrite decide_False|] end.
    split; [|exact Hs]. apply (router_routes_fewer r); simpl; [done|..|exact Hm| |apply (rt_canon r Hr)].
    + intros tf' rels' [[<- <-]|[_ Hx]]%lookup_insert_Some; [by split; eauto|].
      split; [by eapply rt_filters|by eexists].
    + intros f Hcf [x Hx]. apply (rt_covers r Hr); [done|].
      apply lookup_insert_Some in Hx as [[<- _]|[_ Hx]]; by eexists.
Qed.

Lemma router_remove_inv tf id r : router_inv r → router_inv (router_remove tf id r).2.
Proof.
  intros Hr. unfold router_remove. rewrite remove_relation_spec.
  destruct (relations r !! tf) as [rels|] eqn:Hl; [|done].
  destruct (removable r tf id) eqn:Hrm; [|done].
  assert (∃ o, rels !! id_client_id id = Some o) as [o Ho].
  { unfold removable, subscribed in Hrm. rewrite Hl in Hrm. simpl in Hrm.
    destruct (rels !! id_client_id id); [by eexists|done]. }
  destruct (inv_filters r Hr tf rels Hl) as [_ [t Ht]].
  case_bool_decide as He; simpl; [|by eapply remove_some_inv].
  rewrite Ht. unfold remove_tree, remove_filter. simpl.
  rewrite lookup_insert_eq, delete_insert_eq. cbn [is_some]. by eapply remove_last_inv.
Qed.

Lemma router_remove_spec tf id r :
  router_inv r →
  let '(o, r') := router_remove tf id r in
  o = Ok (removable r tf id) ∧ router_inv r' ∧
  ∀ tf' cid, subscribed r' tf' cid =
    if decide (removable r tf id = true ∧ tf' = tf ∧ cid = id_client_id id) then None
    else subscribed r tf' cid.
Proof.
  intros Hr. pose proof (router_remove_routes tf id r (router_inv_routes r Hr)) as Hspec.
  pose proof (router_remove_inv tf id r Hr). destruct (router_remove tf id r). naive_solver.
Qed.

(** ** The contract

    A finite map from filters and clients to sessions and options. *)

Abbreviation subs := (gmap (TopicFilter * ClientId) (Id * SubscriptionOptions)).

Inductive rop : Type :=
| RAdd (tf : TopicFilter) (id : Id) (opts : SubscriptionOptions)
| RRemove (tf : TopicFilter) (id : Id).

Definition router_exec (o : rop) (r : DefaultRouter) : outcome TopicError bool * DefaultRouter :=
  match o with
  | RAdd tf id opts => let '(res, r) := router_add tf id opts r in (outcome_map (λ _, true) res, r)
  | RRemove tf id => router_remove tf id r
  end.

Definition subs_exec (o : rop) (m : subs) : outcome TopicError bool * subs :=
  match o with
  | RAdd tf id opts =>
      match topic_from_str tf with
      | Ok _ => (Ok true, <[(tf, id_client_id id) := (id, opts)]> m)
      | Err e => (Err e, m)
      | Panic => (Panic, m)
      end
  | RRemove tf id =>
      match m !! (tf, id_client_id id) with
      | Some (s_id, _) =>
          if decide (s_id = id) then (Ok true, delete (tf, id_client_id id) m) else (Ok false, m)
      | None => (Ok false, m)
      end
  end.

Fixpoint run_ops {S} (exec : rop → S → outcome TopicError bool * S) (ops : list rop) (s : S)
    : list (outcome TopicError bool) * S :=
  match ops with
  | [] => ([], s)
  | o :: ops => let '(a, s) := exec o s in let '(rest, s) := run_ops exec ops s in (a :: rest, s)
  end.

Record subs_rep (r : DefaultRouter) (m : subs) : Prop := mkSubsRep {
  sr_inv : router_inv r;
  sr_lookup : ∀ tf cid, subscribed r tf cid = m !! (tf, cid);
  sr_size : map_sum size (relations r) = size m;
}.

Lemma subs_rep_new : subs_rep router_new ∅.
Proof. split; [apply router_new_inv| |done]. intros. by rewrite lookup_empty. Qed.

Lemma add_relation_size tf id opts r :
  map_sum size (relations (add_relation tf id opts r)) =
  (map_sum size (relations r) + (if is_some (subscribed r tf (id_client_id id)) then 0 else 1))%nat.
Proof.
  pose proof (size_entry (relations r) tf
    (<[id_client_id id := (id, opts)]> (default ∅ (relations r !! tf)))) as Hsum.
  rewrite map_size_insert in Hsum. unfold add_relation, subscribed.
  destruct (relations r !! tf) as [rels|]; cbn [from_option Datatypes.id mbind option_bind] in *.
  - destruct (rels !! id_client_id id); cbn [relations is_some Datatypes.id] in *; lia.
  - rewrite lookup_empty, map_size_empty in *. cbn [relations is_some] in *. lia.
Qed.

Lemma exec_add_refines tf id opts r m :
  subs_rep r m →
  let '(a, r') := router_exec (RAdd tf id opts) r in
  let '(a', m') := subs_exec (RAdd tf id opts) m in a = a' ∧ subs_rep r' m'.
Proof.
  intros [Hinv Hl Hsz]. cbn [router_exec subs_exec]. unfold router_add.
  destruct (topic_from_str tf) as [t|e|] eqn:Ht; [|done..]. simpl. split; [done|]. split.
  - by apply router_add_inv.
  - intros tf' cid. rewrite subscribed_add. case_decide as Hd.
    + destruct Hd as [-> ->]. by rewrite lookup_insert_eq.
    + rewrite lookup_insert_ne by naive_solver. apply Hl.
  - rewrite add_relation_size, map_size_insert. change (subscribed (add_tree t r)) with (subscribed r).
    rewrite Hl. cbn [add_tree relations]. destruct (m !! (tf, id_client_id id)); simpl; lia.
Qed.

Lemma router_remove_size tf id r :
  router_inv r →
  map_sum size (relations r) =
  (map_sum size (relations (router_remove tf id r).2) + (if removable r tf id then 1 else 0))%nat.
Proof.
  intros Hr. unfold router_remove. rewrite remove_relation_spec.
  destruct (relations r !! tf) as [rels|] eqn:Hl.
  2: { assert (removable r tf id = false) as -> by (unfold removable, subscribed; by rewrite Hl).
       simpl. lia. }
  destruct (removable r tf id) eqn:Hrm; [|simpl; lia].
  assert (∃ o, rels !! id_client_id id = Some o) as [o Ho].
  { unfold removable, subscribed in Hrm. rewrite Hl in Hrm. simpl in Hrm.
    destruct (rels !! id_client_id id); [by eexists|done]. }
  destruct (inv_filters r Hr tf rels Hl) as [_ [t Ht]].
  pose proof (size_entry (relations r) tf (delete (id_client_id id) rels)) as Hsum.
  rewrite Hl, map_size_delete_Some in Hsum by eauto. simpl in Hsum.
  assert (size rels ≠ 0%nat) by (intros Hz%map_size_empty_iff; by rewrite Hz, lookup_empty in Ho).
  case_bool_decide as He; simpl; [|lia].
  rewrite Ht. simpl. rewrite delete_insert_eq.
  rewrite map_sum_insert, He, map_size_empty in Hsum. lia.
Qed.

Lemma exec_remove_refines tf id r m :
  subs_rep r m →
  let '(a, r') := router_exec (RRemove tf id) r in
  let '(a', m') := subs_exec (RRemove tf id) m in a = a' ∧ subs_rep r' m'.
Proof.
  intros [Hinv Hl Hsz]. cbn [router_exec subs_exec].
  pose proof (router_remove_spec tf id r Hinv) as Hspec.
  pose proof (router_remove_size tf id r Hinv) as Hsize.
  destruct (router_remove tf id r) as [a r']. destruct Hspec as (-> & Hinv' & Hl').
  unfold removable in *. rewrite Hl in *. cbn [snd] in Hsize.
  destruct (m !! (tf, id_client_id id)) as [[s_id o]|] eqn:Hm.
  - destruct (decide (s_id = id)) as [->|Hne].
    + rewrite bool_decide_true in Hsize by done. split; [by rewrite bool_decide_true|]. split; [done|..].
      * intros tf' cid. rewrite Hl'. destruct (decide (tf' = tf ∧ cid = id_client_id id)) as [[-> ->]|Hd].
        -- rewrite lookup_delete_eq. apply decide_True. by rewrite bool_decide_true.
        -- rewrite lookup_delete_ne by naive_solver. rewrite decide_False by naive_solver. apply Hl.
      * rewrite map_size_delete_Some by eauto. lia.
    + rewrite bool_decide_false in Hsize, Hl' by done. split; [by rewrite bool_decide_false|].
      split; [done|..|lia]. intros tf' cid. rewrite Hl'. rewrite decide_False by naive_solver. apply Hl.
  - split; [done|]. split; [done|..|lia].
    intros tf' cid. rewrite Hl'. rewrite decide_False by naive_solver. apply Hl.
Qed.

Lemma run_ops_refines ops r m :
  subs_rep r m →
  let '(answers, r) := run_ops router_exec ops r in
  let '(answers', m) := run_ops subs_exec ops m in answers = answers' ∧ subs_rep r m.
Proof.
  revert r m. induction ops as [|o ops IH]; intros r m Hr; [done|]. cbn [run_ops].
  assert (let '(a, r') := router_exec o r in
          let '(a', m') := subs_exec o m in a = a' ∧ subs_rep r' m') as Hstep.
  { destruct o; [by apply exec_add_refines|by apply exec_remove_refines]. }
  destruct (router_exec o r) as [a r'], (subs_exec o m) as [a' m']. destruct Hstep as [-> Hr'].
  specialize (IH r' m' Hr'). destruct (run_ops router_exec ops r'), (run_ops subs_exec ops m').
  by destruct IH as [-> ?].
Qed.

(** ** Claims *)

(** C8: the router implements a map from filters and clients to subscriptions.
    After any sequence of subscriptions and unsubscriptions the answers and the
    content are those of the contract (a second subscription replaces the
    first, an older session of the client removes nothing, a filter that does
    not parse is refused), the tree holds exactly the filters that have a
    subscriber, and both counters are right. *)
Theorem router_refines ops :
  let '(answers, r) := run_ops router_exec ops router_new in
  let '(answers', m) := run_ops subs_exec ops ∅ in
  answers = answers' ∧ router_inv r ∧ (∀ tf cid, subscribed r tf cid = m !! (tf, cid)) ∧
  count (topics_count r) = as_isize (Z.of_nat (topics_tree r)) ∧
  count (relations_count r) = as_isize (Z.of_nat (size m)).
Proof.
  pose proof (run_ops_refines ops router_new ∅ subs_rep_new) as Hrun.
  destruct (run_ops router_exec ops router_new) as [a r], (run_ops subs_exec ops ∅) as [a' m].
  destruct Hrun as [-> [Hinv Hl Hsz]]. split; [done|]. split; [done|]. split; [done|]. split.
  - unfold topics_tree. rewrite (inv_size r Hinv). apply Hinv.
  - rewrite <-Hsz. apply Hinv.
Qed.

(** ** Sessions running side by side

    The steps of one operation, between which the locks are free. *)

Inductive rthread : Type :=
| AddTree (tf : TopicFilter) (t : Topic) (id : Id) (opts : SubscriptionOptions)
| AddRelation (tf : TopicFilter) (id : Id) (opts : SubscriptionOptions)
| RemoveRelation (tf : TopicFilter) (t : Topic) (id : Id)
| RemoveFilter (tf : TopicFilter) (t : Topic)
| RemoveTree (t : Topic)
| Finished.

Definition thread_step (th : rthread) (r : DefaultRouter) : option (rthread * DefaultRouter) :=
  match th with
  | AddTree tf t id opts => Some (AddRelation tf id opts, add_tree t r)
  | AddRelation tf id opts => Some (Finished, add_relation tf id opts r)
  | RemoveRelation tf t id =>
      let '(res, r) := remove_relation tf id r in
      Some (match res with Some true => RemoveFilter tf t | _ => Finished end, r)
  | RemoveFilter tf t => Some (RemoveTree t, remove_filter tf r)
  | RemoveTree t => Some (Finished, remove_tree t r)
  | Finished => None
  end.

Inductive system_step : list rthread * DefaultRouter → list rthread * DefaultRouter → Prop :=
| thread_steps i ths th r th' r' :
    ths !! i = Some th → thread_step th r = Some (th', r') →
    system_step (ths, r) (<[i := th']> ths, r').

(** A schedule: the threads in the order in which they take their steps. *)
Fixpoint schedule (turns : list nat) (s : list rthread * DefaultRouter)
    : option (list rthread * DefaultRouter) :=
  match turns with
  | [] => Some s
  | i :: turns =>
      th ← s.1 !! i;
      '(th, r) ← thread_step th s.2;
      schedule turns (<[i := th]> s.1, r)
  end.

Lemma schedule_steps turns s s' : schedule turns s = Some s' → rtc system_step s s'.
Proof.
  revert s. induction turns as [|i turns IH]; intros [ths r]; simpl; [intros [= ->]; apply rtc_refl|].
  destruct (ths !! i) as [th|] eqn:Hi; simpl; [|done].
  destruct (thread_step th r) as [[th' r']|] eqn:Hs; simpl; [|done].
  intros H%IH. eapply rtc_l; [|exact H]. by apply thread_steps with th.
Qed.

(** A subscription and an unsubscription of the same filter. *)
Section TwoSessions.
Context (tf : TopicFilter) (t : Topic) (id1 id2 : Id) (opts : SubscriptionOptions).
Hypothesis tf_parses : topic_from_str tf = Ok t.
Hypothesis other_client : id_client_id id1 ≠ id_client_id id2.

Definition two_sessions : list rthread := [RemoveRelation tf t id1; AddTree tf t id2 opts].

(** The states in which the filter keeps a third subscriber [c3]. *)
Record third_party (c3 : ClientId) (o : option (Id * SubscriptionOptions))
    (ths : list rthread) (r : DefaultRouter) : Prop := mkThird {
  tp_inv : router_inv r;
  tp_c3 : c3 ≠ id_client_id id1 ∧ c3 ≠ id_client_id id2 ∧ is_Some (subscribed r tf c3);
  tp_first : ths !! 0%nat = Some (RemoveRelation tf t id1) ∧ subscribed r tf (id_client_id id1) = o ∨
             ths !! 0%nat = Some Finished ∧
             subscribed r tf (id_client_id id1) =
               match o with Some (s_id, _) => if decide (s_id = id1) then None else o | None => None end;
  tp_second : ths !! 1%nat = Some (AddTree tf t id2 opts) ∨
              ths !! 1%nat = Some (AddRelation tf id2 opts) ∨
              ths !! 1%nat = Some Finished ∧ subscribed r tf (id_client_id id2) = Some (id2, opts);
  tp_two : length ths = 2%nat;
}.

(** Inserting what is already there changes nothing. *)
Lemma insert_present (n : Trie.Node unit) f v : v ∈ stored n f → (Trie.insert n f v).2 = n.
Proof.
  unfold Trie.insert. revert n. induction f as [|l f IH]; intros [vs bs]; simpl.
  { intros Hv. f_equal. set_solver. }
  destruct (bs !! l) as [x|] eqn:Hl; [|by intros ?%elem_of_empty]. intros Hv. simpl.
  specialize (IH x Hv). destruct (Trie._insert x f v) as [res y]. simpl in *. subst y.
  by rewrite insert_id.
Qed.

Lemma add_tree_present r :
  router_inv r → is_Some (relations r !! tf) → add_tree t r = r.
Proof.
  intros Hr His. destruct (proj1 (topic_from_str_spec tf t) tf_parses) as [Hcan Hstr].
  unfold add_tree. rewrite insert_present; [by destruct r|].
  apply unit_set, Hr. by rewrite Hstr.
Qed.

Lemma third_party_filter c3 o ths r : third_party c3 o ths r → is_Some (relations r !! tf).
Proof.
  intros Htp. destruct (tp_c3 _ _ _ _ Htp) as (_ & _ & [x Hx]). unfold subscribed in Hx.
  destruct (relations r !! tf); [by eexists|done].
Qed.

Lemma remove_not_last r c3 :
  c3 ≠ id_client_id id1 → is_Some (subscribed r tf c3) →
  ∃ res, (remove_relation tf id1 r).1 = res ∧ res ≠ Some true.
Proof.
  intros Hne [o Ho]. unfold subscribed in Ho. rewrite remove_relation_spec.
  destruct (relations r !! tf) as [rels|]; [|by exists None]. simpl in Ho.
  destruct (removable r tf id1); [|by exists None]. eexists. split; [done|]. simpl.
  rewrite bool_decide_false; [done|]. intros He.
  assert (delete (id_client_id id1) rels !! c3 = None) as Hn by (by rewrite He, lookup_empty).
  rewrite lookup_delete_ne in Hn by done. congruence.
Qed.

Lemma third_party_step c3 o s s' :
  third_party c3 o s.1 s.2 → system_step s s' → third_party c3 o s'.1 s'.2.
Proof.
  intros Htp Hstep. destruct Hstep as [i ths th r th' r' Hi Hs]. simpl in *.
  pose proof (third_party_filter _ _ _ _ Htp) as His.
  destruct Htp as [Hinv (H1 & H2 & H3) Hfst Hsnd Hlen].
  destruct i as [|[|i]]; [| |by rewrite lookup_ge_None_2 in Hi by lia].
  - destruct Hfst as [[Hth Ho]|[Hth _]]; rewrite Hth in Hi; injection Hi as <-; [|done].
    destruct (remove_not_last r c3 H1 H3) as [res [Hrm Hres]]. cbn [thread_step] in Hs.
    pose proof (router_remove_spec tf id1 r Hinv) as Hspec. unfold router_remove in Hspec.
    destruct (remove_relation tf id1 r) as [res' r'']. simpl in Hrm. subst res'.
    assert (th' = Finished ∧ r' = r'') as [-> ->] by (destruct res as [[]|]; simplify_eq; done).
    assert (router_inv r'' ∧ ∀ tf' cid, subscribed r'' tf' cid =
      if decide (removable r tf id1 = true ∧ tf' = tf ∧ cid = id_client_id id1) then None
      else subscribed r tf' cid) as [Hinv' Hsub].
    { destruct res as [[]|]; [done|..]; by destruct Hspec as (_ & ? & ?). }
    split.
    + done.
    + split; [done|]. split; [done|]. rewrite Hsub. by rewrite decide_False by naive_solver.
    + right. split; [by destruct ths|]. rewrite Hsub, <-Ho. unfold removable.
      destruct (subscribed r tf (id_client_id id1)) as [[s_id o']|] eqn:Hx.
      * destruct (decide (s_id = id1)) as [->|Hne]; [by rewrite decide_True by (by rewrite bool_decide_true)|].
        rewrite decide_False; [done|]. rewrite bool_decide_false by done. naive_solver.
      * by case_decide.
    + rewrite list_lookup_insert_ne by done. destruct Hsnd as [?|[?|[? ?]]]; [auto..|].
      right. right. split; [done|]. rewrite Hsub. by rewrite decide_False by naive_solver.
    + by rewrite length_insert.
  - destruct Hsnd as [Hth|[Hth|[Hth _]]]; rewrite Hth in Hi; injection Hi as <-; [..|done];
      cbn [thread_step] in Hs; injection Hs as <- <-; split; rewrite ?length_insert;
      rewrite ?list_lookup_insert_ne, ?list_lookup_insert_eq by (done || lia); try done; auto.
    + by rewrite add_tree_present.
    + rewrite <-(add_tree_present r Hinv His). by apply router_add_inv.
    + split; [done|]. split; [done|]. rewrite subscribed_add. by rewrite decide_False by naive_solver.
    + by rewrite !subscribed_add, decide_False by naive_solver.
    + right. right. split; [done|]. by rewrite subscribed_add, decide_True.
Qed.

Lemma third_party_start c3 r :
  router_inv r → c3 ≠ id_client_id id1 → c3 ≠ id_client_id id2 → is_Some (subscribed r tf c3) →
  third_party c3 (subscribed r tf (id_client_id id1)) two_sessions r.
Proof. intros. split; simpl; auto. Qed.
End TwoSessions.

(** Where sessions can overlap.  A subscription and an unsubscription of the
    same filter by different clients leave a consistent router with both effects
    in every interleaving of their steps, when the filter has a third subscriber
    throughout. *)
Theorem overlap_with_third tf t id1 id2 opts c3 r s' :
  topic_from_str tf = Ok t → id_client_id id1 ≠ id_client_id id2 →
  router_inv r → c3 ≠ id_client_id id1 → c3 ≠ id_client_id id2 → is_Some (subscribed r tf c3) →
  rtc system_step (two_sessions tf t id1 id2 opts, r) s' → s'.1 = [Finished; Finished] →
  router_inv s'.2 ∧ subscribed s'.2 tf (id_client_id id2) = Some (id2, opts) ∧
  (∀ o, subscribed r tf (id_client_id id1) = Some (id1, o) →
        subscribed s'.2 tf (id_client_id id1) = None).
Proof.
  intros Ht Hne Hr H1 H2 H3 Hsteps Hfin.
  pose proof (third_party_start tf t id1 id2 opts c3 r Hr H1 H2 H3) as Htp.
  assert (third_party tf t id1 id2 opts c3 (subscribed r tf (id_client_id id1)) s'.1 s'.2) as Htp'.
  { remember (two_sessions tf t id1 id2 opts, r) as s eqn:Hs.
    assert (third_party tf t id1 id2 opts c3 (subscribed r tf (id_client_id id1)) s.1 s.2) as H0
      by by subst s. clear Hs Htp Hfin. induction Hsteps as [|s s1 s2 Hstep _ IH]; [done|].
    apply IH. by eapply third_party_step. }
  destruct Htp' as [Hinv _ Hfst Hsnd _]. rewrite Hfin in *. simpl in *. split; [done|]. split.
  - by destruct Hsnd as [?|[?|[_ ?]]].
  - intros o Ho. rewrite Ho in Hfst. destruct Hfst as [[? _]|[_ Hx]]; [done|]. rewrite Hx.
    by rewrite decide_True.
Qed.

(** ** Concrete sessions *)

Definition sample_client (name : string) : Id := mkId 1 0 None None (lit name) None 0.
Definition sample_opts : SubscriptionOptions := options_from_v3 AtLeastOnce None None.
Definition tf_ab : TopicFilter := lit "a/b".
Definition t_ab : Topic := [Normal (lit "a"); Normal (lit "b")].

Definition router_with (names : list string) : DefaultRouter :=
  (run_ops router_exec (map (λ n, RAdd tf_ab (sample_client n) sample_opts) names) router_new).2.

Lemma router_with_inv names : router_inv (router_with names).
Proof.
  unfold router_with. set (ops := map _ _).
  pose proof (run_ops_refines ops router_new ∅ subs_rep_new) as H.
  destruct (run_ops router_exec ops router_new), (run_ops subs_exec ops ∅).
  by destruct H as [_ [? _ _]].
Qed.

Lemma overlap_with_third_witness :
  ∃ s', s'.1 = [Finished; Finished] ∧ router_inv s'.2 ∧
        subscribed s'.2 tf_ab (lit "c2") = Some (sample_client "c2", sample_opts).
Proof.
  set (s0 := (two_sessions tf_ab t_ab (sample_client "c1") (sample_client "c2") sample_opts,
              router_with ["c1"%string; "c3"%string])).
  destruct (schedule [1; 0; 1]%nat s0) as [s'|] eqn:Hs; [|exfalso; vm_compute in Hs; discriminate].
  exists s'. assert (s'.1 = [Finished; Finished]) as Hfin.
  { vm_compute in Hs. injection Hs as <-. reflexivity. }
  split; [done|].
  destruct (overlap_with_third tf_ab t_ab (sample_client "c1") (sample_client "c2") sample_opts
    (lit "c3") (router_with ["c1"%string; "c3"%string]) s') as (Hinv & Hsub & _);
    [reflexivity|vm_compute; discriminate|apply router_with_inv
    |vm_compute; discriminate..| | |done|done].
  - eexists. vm_compute. reflexivity.
  - by apply schedule_steps in Hs.
Defined.

(** Without a third subscriber a subscription can be lost.  The client of a
    filter leaves while another arrives: the newcomer's relation is dropped with
    the filter, or stays while the filter leaves the tree, and no message
    reaches it although its subscription was acknowledged. *)
Theorem overlap_loses_subscription :
  let s0 := (two_sessions tf_ab t_ab (sample_client "c1") (sample_client "c2") sample_opts,
             router_with ["c1"%string]) in
  (∃ r, rtc system_step s0 ([Finished; Finished], r) ∧ subscribed r tf_ab (lit "c2") = None) ∧
  (∃ r, rtc system_step s0 ([Finished; Finished], r) ∧
        subscribed r tf_ab (lit "c2") = Some (sample_client "c2", sample_opts) ∧
        _has_matches tf_ab r = Ok false).
Proof.
  split.
  - eexists. split; [apply (schedule_steps [0; 1; 1; 0; 0]%nat); vm_compute; reflexivity|].
    vm_compute. reflexivity.
  - eexists. split; [apply (schedule_steps [0; 0; 1; 0; 1]%nat); vm_compute; reflexivity|].
    split; vm_compute; reflexivity.
Qed.
