(* ===== verification/Routing.v ===== *)
(** * Who receives a message

    The theorem on [DefaultRouter::_matches] of [ferromq/src/router.rs] as
    modelled in [Router]: every subscriber of a matching filter is served, one
    member of each shared group is, and nobody else.  The loops are first read
    as a sequence of additions to the collectors ([event]); what the collectors
    hold is then read off that sequence. *)

From stdpp Require Import base list numbers option gmap strings.
From Stdlib Require Import ZArith Lia.
From S2P Require Import Prelude Errors Wire CodecTypes PacketV5 Topic Trie Counter Hash BrokerTypes Router.

#[local] Open Scope Z_scope.

(** ** Relations *)

Definition rel_tf (x : SubRelation) : TopicFilter := x.1.1.1.1.
Definition rel_cid (x : SubRelation) : ClientId := x.1.1.1.2.
Definition rel_opts (x : SubRelation) : SubscriptionOptions := x.1.1.2.
Definition rel_ids (x : SubRelation) : option (list SubscriptionIdentifier) := x.1.2.
Definition rel_group (x : SubRelation) : option SharedGroupType := x.2.

(** ** Additions *)

Record event : Type := mkEvent {
  ev_node : NodeId;
  ev_tf : TopicFilter;
  ev_cid : ClientId;
  ev_opts : SubscriptionOptions;
  ev_group : option SharedGroupType;
}.

Abbreviation CollectorMap := (gmap NodeId Collector).

Definition apply_event (cm : CollectorMap) (e : event) : CollectorMap :=
  map_add (ev_node e) (ev_tf e) (ev_cid e) (ev_opts e) (ev_group e) cm.

Definition at_node (cm : CollectorMap) (n : NodeId) : Collector := default collector_default (cm !! n).

(** A relation serves a subscription: on its own for MQTT 3; for MQTT 5 the
    client has one relation, which carries the identifiers of all its
    subscriptions that match. *)
Definition serves (cid : ClientId) (tf : TopicFilter) (opts : SubscriptionOptions) (x : SubRelation)
    : Prop :=
  rel_cid x = cid ∧
  if is_v3 opts then rel_tf x = tf ∧ rel_opts x = opts
  else is_v3 (rel_opts x) = false ∧
       ∀ i, subscription_identifier opts = Some i → ∃ ids, rel_ids x = Some ids ∧ i ∈ ids.

Definition event_served (e : event) (c : Collector) : Prop :=
  if is_v3 (ev_opts e) then (ev_tf e, ev_cid e, ev_opts e, None, ev_group e) ∈ v3_rels c
  else ∃ tf opts ids g, v5_rels c !! ev_cid e = Some (tf, opts, ids, g) ∧
         ∀ i, subscription_identifier (ev_opts e) = Some i → ∃ l, ids = Some l ∧ i ∈ l.

Definition collector_sound (evs : list event) (n : NodeId) (c : Collector) : Prop :=
  (∀ x, x ∈ v3_rels c → ∃ e, e ∈ evs ∧ ev_node e = n ∧ is_v3 (ev_opts e) = true ∧
     x = (ev_tf e, ev_cid e, ev_opts e, None, ev_group e)) ∧
  (∀ cid tf opts ids g, v5_rels c !! cid = Some (tf, opts, ids, g) →
     (∃ e, e ∈ evs ∧ ev_node e = n ∧ is_v3 (ev_opts e) = false ∧
        e = mkEvent n tf cid opts g) ∧
     ∀ l i, ids = Some l → i ∈ l → ∃ e, e ∈ evs ∧ ev_node e = n ∧ ev_cid e = cid ∧
        subscription_identifier (ev_opts e) = Some i).

Lemma at_node_apply cm e n :
  at_node (apply_event cm e) n =
  if decide (n = ev_node e)
  then collector_add (ev_tf e) (ev_cid e) (ev_opts e) (ev_group e) (at_node cm n) else at_node cm n.
Proof.
  unfold at_node, apply_event, map_add. case_decide as Hn.
  - subst n. by rewrite lookup_insert_eq.
  - by rewrite lookup_insert_ne.
Qed.

(** An addition serves its subscription and keeps the others served. *)
Lemma collector_add_serves e c :
  event_served e (collector_add (ev_tf e) (ev_cid e) (ev_opts e) (ev_group e) c).
Proof.
  unfold event_served, collector_add. destruct (is_v3 (ev_opts e)) eqn:Hv; simpl; [set_solver|].
  destruct (v5_rels c !! ev_cid e) as [[[[tf opts] ids] g]|].
  - eexists _, _, _, _. rewrite lookup_insert_eq. split; [done|]. intros i ->.
    destruct ids as [ids|]; eexists; (split; [done|]); set_solver.
  - eexists _, _, _, _. rewrite lookup_insert_eq. split; [done|]. intros i ->.
    eexists. split; [done|]. set_solver.
Qed.

Lemma collector_add_mono e tf cid opts g c :
  event_served e c → event_served e (collector_add tf cid opts g c).
Proof.
  unfold event_served, collector_add. destruct (is_v3 (ev_opts e)), (is_v3 opts); simpl; try done.
  - set_solver.
  - intros (tf0 & opts0 & ids & g0 & Hl & Hi). destruct (decide (ev_cid e = cid)) as [<-|Hne].
    + rewrite Hl, lookup_insert_eq. eexists _, _, _, _. split; [done|]. intros i Hs.
      destruct (Hi i Hs) as (l & -> & Hin). destruct (subscription_identifier opts); eexists;
        (split; [done|]); set_solver.
    + rewrite lookup_insert_ne by done. by eexists _, _, _, _.
Qed.

Lemma collector_sound_mono evs evs' n c :
  collector_sound evs n c → evs ⊆ evs' → collector_sound evs' n c.
Proof.
  intros [H3 H5] Hsub. split; [naive_solver|].
  intros cid tf opts ids g Hl. destruct (H5 cid tf opts ids g Hl) as [He Hi]. split; [naive_solver|].
  intros l i Hl' Hin. destruct (Hi l i Hl' Hin) as (e & ? & ?). exists e. naive_solver.
Qed.

Lemma collector_add_sound evs e c :
  e ∈ evs → collector_sound evs (ev_node e) c →
  collector_sound evs (ev_node e) (collector_add (ev_tf e) (ev_cid e) (ev_opts e) (ev_group e) c).
Proof.
  intros He [H3 H5]. unfold collector_add. destruct (is_v3 (ev_opts e)) eqn:Hv; split; simpl.
  - intros x [Hx| ->%list_elem_of_singleton]%elem_of_app; [auto|]. by exists e.
  - done.
  - done.
  - intros cid tf opts ids g. destruct (decide (cid = ev_cid e)) as [->|Hne].
    2: { rewrite lookup_insert_ne by done. apply H5. }
    rewrite lookup_insert_eq.
    destruct (v5_rels c !! ev_cid e) as [[[[tf0 opts0] ids0] g0]|] eqn:Hl; intros [= <- <- <- <-].
    + destruct (H5 _ _ _ _ _ Hl) as [H1 H2]. split; [done|]. intros l i Hids Hin.
      destruct (subscription_identifier (ev_opts e)) as [j|] eqn:Hj; [|by eapply H2].
      destruct ids0 as [ids0|]; injection Hids as <-.
      * apply elem_of_app in Hin as [Hin| ->%list_elem_of_singleton]; [by eapply H2|]. by exists e.
      * apply list_elem_of_singleton in Hin as ->. by exists e.
    + split; [exists e; by destruct e|]. intros l i Hids Hin.
      destruct (subscription_identifier (ev_opts e)) as [j|] eqn:Hj; [|done].
      injection Hids as <-. apply list_elem_of_singleton in Hin as ->. by exists e.
Qed.

Lemma collected evs :
  let cm := foldl apply_event ∅ evs in
  (∀ e, e ∈ evs → event_served e (at_node cm (ev_node e))) ∧
  (∀ n, collector_sound evs n (at_node cm n)).
Proof.
  induction evs as [|e evs [IH1 IH2]] using rev_ind; simpl.
  { split; [by intros ? ?%not_elem_of_nil|]. intros n. unfold at_node. rewrite lookup_empty.
    split; simpl; [by intros ? ?%not_elem_of_nil|]. intros cid tf opts ids g. by rewrite lookup_empty. }
  rewrite foldl_app. simpl. split.
  - intros e' [He'| ->%list_elem_of_singleton]%elem_of_app; rewrite at_node_apply.
    + case_decide; [apply collector_add_mono|]; by apply IH1.
    + rewrite decide_True by done. apply collector_add_serves.
  - intros n. rewrite at_node_apply. specialize (IH2 n).
    apply (collector_sound_mono _ (evs ++ [e])) in IH2; [|set_solver].
    case_decide; [subst n; apply collector_add_sound; [set_solver|done]|done].
Qed.

(** ** The loops *)

Section Loops.
Context `{!HashOrder str, !HashOrderOk str}.
Context {St : Type} `{!SharedSubscription St, !SharedSubscriptionOk St}.
Context (is_online : NodeId → ClientId → bool) (this_id : Id) (topic_name : TopicName).

Lemma elem_of_into c x :
  x ∈ collector_into c ↔
  x ∈ v3_rels c ∨ v5_rels c !! rel_cid x = Some (rel_tf x, rel_opts x, rel_ids x, rel_group x).
Proof.
  unfold collector_into. rewrite elem_of_app. f_equiv. rewrite list_elem_of_fmap. split.
  - intros ([cid [[[tf opts] ids] g]] & -> & Hl%elem_of_iter). done.
  - intros Hl. exists (rel_cid x, (rel_tf x, rel_opts x, rel_ids x, rel_group x)).
    split; [by destruct x as [[[[]]]]|]. by apply elem_of_iter.
Qed.

Abbreviation relation' := (ClientId * (Id * SubscriptionOptions))%type.

Definition taken (x : relation') : bool := negb (skips this_id x.2.1 x.2.2).

Definition direct (tf : TopicFilter) (x : relation') : option event :=
  if taken x then
    match shared_group x.2.2 with
    | Some _ => None
    | None => Some (mkEvent (id_node_id x.2.1) tf x.1 x.2.2 None)
    end
  else None.

Definition candidate (g : SharedGroup) (x : relation') : option Candidate :=
  if taken x then
    if decide (shared_group x.2.2 = Some g) then
      Some (id_node_id x.2.1, x.1, x.2.2, None, Some (is_online (id_node_id x.2.1) x.1))
    else None
  else None.

(** The loop over the subscribers of a filter. *)
Lemma on_relations_spec tf rels cm gs :
  (∀ g, gs !! g ≠ Some []) →
  let '(cm', gs') := foldl (flip (on_relation is_online this_id tf)) (cm, gs) rels in
  cm' = foldl apply_event cm (omap (direct tf) rels) ∧ (∀ g, gs' !! g ≠ Some []) ∧
  ∀ g, default [] (gs' !! g) = default [] (gs !! g) ++ omap (candidate g) rels.
Proof.
  revert cm gs. induction rels as [|[cid [id opts]] rels IH]; intros cm gs Hgs; simpl.
  { split; [done|]. split; [done|]. intros g. by rewrite app_nil_r. }
  unfold direct, candidate, taken. simpl.
  destruct (skips this_id id opts); simpl; [by apply IH|].
  destruct (shared_group opts) as [g|] eqn:Hg; simpl.
  - set (c := (_, _, opts, None, _)). set (gs1 := <[g := _]> gs).
    specialize (IH cm gs1). destruct (foldl _ (cm, gs1) rels) as [cm' gs'].
    destruct IH as (-> & Hgs' & Hall).
    { intros g'. unfold gs1. destruct (decide (g' = g)) as [->|Hne].
      - rewrite lookup_insert_eq. intros [= Hx]. by apply app_nil in Hx as [_ ?].
      - by rewrite lookup_insert_ne. }
    split; [done|]. split; [done|]. intros g'. rewrite Hall. unfold gs1.
    destruct (decide (g' = g)) as [->|Hne].
    + rewrite lookup_insert_eq, decide_True by done. simpl. by rewrite <-app_assoc.
    + rewrite lookup_insert_ne by done. by rewrite decide_False by congruence.
  - specialize (IH (map_add (id_node_id id) tf cid opts None cm) gs Hgs).
    destruct (foldl _ (map_add _ _ _ _ _ _, gs) rels) as [cm' gs']. destruct IH as (-> & Hgs' & Hall).
    split; [done|]. split; [done|]. intros g'. rewrite Hall. done.
Qed.

(** The event of a shared group: one of its members is chosen. *)
Definition chosen (tf : TopicFilter) (gs : SharedGroup * list Candidate) (e : event) : Prop :=
  ∃ idx c online, gs.2 !! idx = Some c ∧
    e = mkEvent c.1.1.1.1 tf c.1.1.1.2 c.1.1.2
          (Some (gs.1, online, map (λ c : Candidate, c.1.1.1.2) gs.2)).

Lemma on_groups_spec tf gss cm s :
  Forall (λ gs, gs.2 ≠ []) gss →
  ∃ evs s', foldl (flip (on_group this_id topic_name tf)) (Some (cm, s)) gss =
              Some (foldl apply_event cm evs, s') ∧ Forall2 (chosen tf) gss evs.
Proof.
  intros Hne. revert cm s. induction Hne as [|[g subs] gss Hs Hne IH]; intros cm s; simpl.
  { exists [], s. split; [done|constructor]. }
  destruct (choice_ok g this_id topic_name subs s) as (idx & on & s1 & -> & Hidx);
    [done|].
  destruct (lookup_lt_is_Some_2 subs idx Hidx) as [c Hc]. rewrite Hc.
  destruct c as [[[[node cid] opts] x] y] eqn:Hceq. simpl.
  destruct (IH (map_add node tf cid opts (Some (g, on, map (λ c : Candidate, c.1.1.1.2) subs)) cm) s1)
    as (evs & s' & -> & Hevs).
  exists (mkEvent node tf cid opts (Some (g, on, map (λ c : Candidate, c.1.1.1.2) subs)) :: evs), s'.
  split; [done|]. constructor; [|done]. exists idx, (node, cid, opts, x, y), on. done.
Qed.

(** The events of one filter. *)
Definition filter_events (tf : TopicFilter) (rels : list relation') (evs : list event) : Prop :=
  ∃ gss gevs, evs = omap (direct tf) rels ++ gevs ∧ Forall2 (chosen tf) gss gevs ∧
    NoDup gss.*1 ∧ ∀ g subs, (g, subs) ∈ gss ↔ subs ≠ [] ∧ subs = omap (candidate g) rels.

Definition rels_of (r : DefaultRouter) (tf : TopicFilter) : list relation' :=
  match relations r !! tf with Some rels => iter rels | None => [] end.

Definition item_name (item : list Level * list unit) : TopicFilter := topic_to_string item.1.

Definition item_events (r : DefaultRouter) (item : list Level * list unit) : list event → Prop :=
  filter_events (item_name item) (rels_of r (item_name item)).

Lemma on_filter_spec r item cm s :
  ∃ evs s', on_filter is_online this_id topic_name r item (Some (cm, s)) =
              Some (foldl apply_event cm evs, s') ∧
            item_events r item evs.
Proof.
  unfold on_filter, item_events, rels_of, item_name. simpl. set (tf := topic_to_string item.1).
  assert (∃ gs', (match relations r !! tf with
          | Some rels => foldl (flip (on_relation is_online this_id tf)) (cm, ∅) (iter rels)
          | None => (cm, ∅) end) =
          (foldl apply_event cm (omap (direct tf) (rels_of r tf)), gs') ∧
          (∀ g, gs' !! g ≠ Some []) ∧ ∀ g, default [] (gs' !! g) = omap (candidate g) (rels_of r tf))
    as (gs' & -> & Hne & Hgs).
  { unfold rels_of. destruct (relations r !! tf) as [rels|].
    - pose proof (on_relations_spec tf (iter rels) cm ∅) as Hspec.
      destruct (foldl _ (cm, ∅) (iter rels)) as [cm' gs']. destruct Hspec as (-> & Hne & Hgs).
      { intros g. by rewrite lookup_empty. }
      exists gs'. split; [done|]. split; [done|]. intros g. rewrite Hgs, lookup_empty. done.
    - exists ∅. split; [done|]. split; intros g; by rewrite lookup_empty. }
  destruct (on_groups_spec tf (iter gs') (foldl apply_event cm (omap (direct tf) (rels_of r tf))) s)
    as (gevs & s' & -> & Hevs).
  { apply Forall_forall. intros [g subs] Hin%elem_of_iter. simpl. intros ->. by apply (Hne g). }
  exists (omap (direct tf) (rels_of r tf) ++ gevs), s'. rewrite foldl_app. split; [done|].
  exists (iter gs'), gevs. split; [done|]. split; [done|]. split; [apply NoDup_iter_keys|].
  intros g subs. rewrite elem_of_iter. fold (rels_of r tf). rewrite <-Hgs. split.
  - intros Hl. rewrite Hl. split; [|done]. intros ->. by apply (Hne g).
  - intros [Hs ->]. destruct (gs' !! g); [done|]. by destruct Hs.
Qed.

Lemma on_filters_spec r items cm s :
  ∃ evss s', foldl (flip (on_filter is_online this_id topic_name r)) (Some (cm, s)) items =
               Some (foldl apply_event cm (concat evss), s') ∧
    Forall2 (item_events r) items evss.
Proof.
  revert cm s. induction items as [|item items IH]; intros cm s; cbn [foldl].
  { exists [], s. split; [done|constructor]. }
  change (flip ?f (Some (cm, s)) item) with (f item (Some (cm, s))).
  destruct (on_filter_spec r item cm s) as (evs & s1 & -> & Hevs).
  destruct (IH (foldl apply_event cm evs) s1) as (evss & s' & -> & Hevss).
  exists (evs :: evss), s'. simpl. rewrite foldl_app. split; [done|]. by constructor.
Qed.

(** ** Subscriptions that match *)

Definition matches_topic (tf : TopicFilter) : Prop :=
  ∃ f, topic_from_str tf = Ok f ∧ mqtt_matches f (split SLASH topic_name) = true.

(** A subscription that the message goes to. *)
Definition wanted (r : DefaultRouter) (tf : TopicFilter) (cid : ClientId) (id : Id)
    (opts : SubscriptionOptions) : Prop :=
  subscribed r tf cid = Some (id, opts) ∧ matches_topic tf ∧ skips this_id id opts = false.

(** The members of a group that want the message. *)
Definition member (r : DefaultRouter) (tf : TopicFilter) (g : SharedGroup) (cid : ClientId) : Prop :=
  ∃ id opts, wanted r tf cid id opts ∧ shared_group opts = Some g.

Lemma elem_of_rels r tf cid id opts :
  (cid, (id, opts)) ∈ rels_of r tf ↔ subscribed r tf cid = Some (id, opts).
Proof.
  unfold rels_of, subscribed. destruct (relations r !! tf); simpl; [apply elem_of_iter|].
  split; [by intros ?%not_elem_of_nil|done].
Qed.

Lemma matched_spec n topic : matched n topic = Some (match_ref unit_le n topic []).
Proof.
  apply collect_all_spec.
Qed.

(** The items of the walk are the filters that match and have subscribers. *)
Lemma matched_filter r topic tf :
  router_routes r → topic_from_str topic_name = Ok topic → is_Some (relations r !! tf) →
  (∃ item, item ∈ match_ref unit_le (topics r) topic [] ∧ topic_to_string item.1 = tf) ↔
  matches_topic tf.
Proof.
  intros Hr [Hc Hs]%topic_from_str_spec Hrel. unfold matches_topic. rewrite <-Hs. split.
  - intros ([f vs] & (g & Hm & [= -> ->] & Hst)%match_ref_top & <-). simpl.
    apply (rt_canon r Hr) in Hst. exists g.
    split; [by apply topic_from_str_spec|]. by rewrite <-trie_matches_str.
  - intros (f & [Hcan Hf]%topic_from_str_spec & Hm).
    exists (f, btree_iter unit_le (stored (topics r) f)). split; [|done].
    apply match_ref_top. exists f. rewrite trie_matches_str by done. split; [done|].
    split; [done|]. apply (rt_covers r Hr); [done|]. by rewrite Hf.
Qed.

(** *** The events, all filters together *)

Lemma elem_of_Forall2_l {A B} (P : A → B → Prop) l k x :
  Forall2 P l k → x ∈ l → ∃ y, y ∈ k ∧ P x y.
Proof.
  intros HP [i Hi]%list_elem_of_lookup. destruct (Forall2_lookup_l _ _ _ _ _ HP Hi) as (y & Hy & ?).
  exists y. split; [by eapply list_elem_of_lookup_2|done].
Qed.

Lemma elem_of_Forall2_r {A B} (P : A → B → Prop) l k y :
  Forall2 P l k → y ∈ k → ∃ x, x ∈ l ∧ P x y.
Proof. intros HP%Forall2_flip Hy. by apply (elem_of_Forall2_l _ _ _ _ HP). Qed.

Lemma elem_of_concat {A} (ls : list (list A)) x : x ∈ concat ls ↔ ∃ l, l ∈ ls ∧ x ∈ l.
Proof. setoid_rewrite list_elem_of_In. apply in_concat. Qed.

Lemma direct_spec tf (rels : list relation') e :
  e ∈ omap (direct tf) rels ↔ ∃ cid id opts,
    (cid, (id, opts)) ∈ rels ∧ skips this_id id opts = false ∧ shared_group opts = None ∧
    e = mkEvent (id_node_id id) tf cid opts None.
Proof.
  rewrite list_elem_of_omap. unfold direct, taken. split.
  - intros ([cid [id opts]] & Hin & He). simpl in He. exists cid, id, opts.
    destruct (skips this_id id opts); [done|]. simpl in He. destruct (shared_group opts); naive_solver.
  - intros (cid & id & opts & Hin & Hs & Hg & ->). exists (cid, (id, opts)). simpl. by rewrite Hs, Hg.
Qed.

Lemma candidate_spec g (rels : list relation') c :
  c ∈ omap (candidate g) rels ↔ ∃ cid id opts,
    (cid, (id, opts)) ∈ rels ∧ skips this_id id opts = false ∧ shared_group opts = Some g ∧
    c = (id_node_id id, cid, opts, None, Some (is_online (id_node_id id) cid)).
Proof.
  rewrite list_elem_of_omap. unfold candidate, taken. split.
  - intros ([cid [id opts]] & Hin & He). simpl in He. exists cid, id, opts.
    destruct (skips this_id id opts); [done|]. simpl in He. case_decide; naive_solver.
  - intros (cid & id & opts & Hin & Hs & Hg & ->). exists (cid, (id, opts)). simpl.
    rewrite Hs. simpl. by rewrite decide_True.
Qed.

(** The group that a relation names: that of its options, with all members that
    want the message. *)
Definition group_ok (member : SharedGroup → ClientId → Prop) (opts : SubscriptionOptions)
    (group : option SharedGroupType) : Prop :=
  match group, shared_group opts with
  | None, None => True
  | Some (g, _, cids), Some g' => g = g' ∧ NoDup cids ∧ ∀ cid, cid ∈ cids ↔ member g cid
  | _, _ => False
  end.

Lemma group_ok_name member opts group : group_ok member opts group → (λ g, g.1.1) <$> group = shared_group opts.
Proof. unfold group_ok. destruct group as [[[g on] cids]|], (shared_group opts); naive_solver. Qed.

Lemma group_ok_ext (member member' : SharedGroup → ClientId → Prop) opts group :
  (∀ g cid, member g cid ↔ member' g cid) → group_ok member opts group → group_ok member' opts group.
Proof.
  intros Heq. unfold group_ok. destruct group as [[[g on] cids]|], (shared_group opts); try done.
  intros (-> & Hnd & Hm). do 2 (split; [done|]). intros cid. by rewrite Hm.
Qed.

(** The members of a group among the subscribers of a filter. *)
Definition filter_member (r : DefaultRouter) (tf : TopicFilter) (g : SharedGroup) (cid : ClientId) : Prop :=
  ∃ id opts, subscribed r tf cid = Some (id, opts) ∧ skips this_id id opts = false ∧ shared_group opts = Some g.

Lemma candidates_members r tf g :
  let cids := map (λ c : Candidate, c.1.1.1.2) (omap (candidate g) (rels_of r tf)) in
  NoDup cids ∧ ∀ cid, cid ∈ cids ↔ filter_member r tf g cid.
Proof.
  split.
  - apply NoDup_omap_key with (k := fst).
    + intros [cid [id opts]] y Hy. unfold candidate in Hy. simpl in Hy.
      destruct (taken _); [|done]. case_decide; [|done]. by injection Hy as <-.
    + unfold rels_of. destruct (relations r !! tf); [apply NoDup_iter_keys|constructor].
  - intros cid. rewrite list_elem_of_fmap. unfold filter_member. split.
    + intros (c & -> & (cid' & id & opts & Hin%elem_of_rels & Hs & Hg & ->)%candidate_spec). by exists id, opts.
    + intros (id & opts & Hsub & Hs & Hg).
      exists (id_node_id id, cid, opts, None, Some (is_online (id_node_id id) cid)). split; [done|].
      apply candidate_spec. exists cid, id, opts. by rewrite elem_of_rels.
Qed.

(** Every event of a filter comes from one of its subscribers. *)
Lemma filter_event_sound r tf evs e :
  filter_events tf (rels_of r tf) evs → e ∈ evs →
  ∃ id, subscribed r tf (ev_cid e) = Some (id, ev_opts e) ∧ skips this_id id (ev_opts e) = false ∧
        id_node_id id = ev_node e ∧ ev_tf e = tf ∧ group_ok (filter_member r tf) (ev_opts e) (ev_group e).
Proof.
  intros (gss & gevs & -> & Hch & _ & Hgss) [He|He]%elem_of_app.
  - apply direct_spec in He as (cid & id & opts & Hin%elem_of_rels & Hs & Hg & ->). exists id.
    unfold group_ok. simpl. by rewrite Hg.
  - destruct (elem_of_Forall2_r _ _ _ _ Hch He) as ([g subs] & Hgi & idx & c & on & Hc & ->).
    simpl in Hc. apply list_elem_of_lookup_2 in Hc. apply Hgss in Hgi as [_ ->].
    apply candidate_spec in Hc as (cid & id & opts & Hin%elem_of_rels & Hs & Hg & ->). exists id.
    unfold group_ok. simpl. rewrite Hg. do 5 (split; [done|]). apply candidates_members.
Qed.

(** Every subscriber outside groups has its event, and every group one. *)
Lemma filter_event_complete r tf evs :
  filter_events tf (rels_of r tf) evs →
  (∀ cid id opts, subscribed r tf cid = Some (id, opts) → skips this_id id opts = false →
     shared_group opts = None → mkEvent (id_node_id id) tf cid opts None ∈ evs) ∧
  (∀ cid id opts g, subscribed r tf cid = Some (id, opts) → skips this_id id opts = false →
     shared_group opts = Some g → ∃ e, e ∈ evs ∧ (λ g, g.1.1) <$> ev_group e = Some g).
Proof.
  intros (gss & gevs & -> & Hch & _ & Hgss). split.
  - intros cid id opts Hsub Hs Hg. apply elem_of_app. left. apply direct_spec.
    exists cid, id, opts. by rewrite elem_of_rels.
  - intros cid id opts g Hsub Hs Hg.
    set (subs := omap (candidate g) (rels_of r tf)).
    assert ((id_node_id id, cid, opts, None, Some (is_online (id_node_id id) cid)) ∈ subs) as Hin.
    { apply candidate_spec. exists cid, id, opts. by rewrite elem_of_rels. }
    assert ((g, subs) ∈ gss) as Hgs.
    { apply Hgss. split; [|done]. intros He. rewrite He in Hin. by apply not_elem_of_nil in Hin. }
    destruct (elem_of_Forall2_l _ _ _ _ Hch Hgs) as (e & He & idx & c & on & Hc & ->).
    eexists. split; [apply elem_of_app; right; exact He|done].
Qed.

Lemma events_spec r topic evss :
  router_routes r → topic_from_str topic_name = Ok topic →
  Forall2 (item_events r) (match_ref unit_le (topics r) topic []) evss →
  (∀ e, e ∈ concat evss → ∃ id, wanted r (ev_tf e) (ev_cid e) id (ev_opts e) ∧
     id_node_id id = ev_node e ∧ group_ok (member r (ev_tf e)) (ev_opts e) (ev_group e)) ∧
  (∀ tf cid id opts, wanted r tf cid id opts → shared_group opts = None →
     mkEvent (id_node_id id) tf cid opts None ∈ concat evss) ∧
  (∀ tf cid id opts g, wanted r tf cid id opts → shared_group opts = Some g →
     ∃ e, e ∈ concat evss ∧ ev_tf e = tf ∧ (λ g, g.1.1) <$> ev_group e = Some g).
Proof.
  intros Hr Ht Hevs. pose proof (matched_filter r topic) as Hmf.
  assert (∀ tf cid id opts, subscribed r tf cid = Some (id, opts) → is_Some (relations r !! tf)) as Hrel.
  { intros tf cid id opts. unfold subscribed. by destruct (relations r !! tf). }
  assert (∀ tf cid id opts, wanted r tf cid id opts → ∃ evs, evs ∈ evss ∧
    filter_events tf (rels_of r tf) evs) as Hw.
  { intros tf cid id opts (Hsub & Hm & _).
    destruct (proj2 (Hmf tf Hr Ht (Hrel _ _ _ _ Hsub))) as (item & Hi & <-); [done|].
    by apply (elem_of_Forall2_l _ _ _ _ Hevs). }
  split; [|split].
  - intros e (evs & Hin & He)%elem_of_concat.
    destruct (elem_of_Forall2_r _ _ _ _ Hevs Hin) as (item & Hitem & Hf).
    destruct (filter_event_sound _ _ _ _ Hf He) as (id & Hsub & Hs & Hn & Htf & Hg).
    assert (matches_topic (topic_to_string item.1)) as Hmt.
    { apply (Hmf (topic_to_string item.1) Hr Ht); [by eapply Hrel|by exists item]. }
    exists id. rewrite Htf. do 2 (split; [done|]). eapply group_ok_ext; [|exact Hg].
    intros g cid. unfold filter_member, member, wanted. naive_solver.
  - intros tf cid id opts Hwa Hg. destruct (Hw _ _ _ _ Hwa) as (evs & Hin & Hf).
    destruct (filter_event_complete _ _ _ Hf) as [Hd _]. destruct Hwa as (? & _ & ?).
    apply elem_of_concat. exists evs. split; [done|]. by apply Hd.
  - intros tf cid id opts g Hwa Hg. destruct (Hw _ _ _ _ Hwa) as (evs & Hin & Hf).
    destruct (filter_event_complete _ _ _ Hf) as [_ Hd]. destruct Hwa as (? & _ & ?).
    destruct (Hd cid id opts g) as (e & He & Heg); [done..|]. exists e.
    split; [apply elem_of_concat; by exists evs|]. split; [|done].
    by destruct (filter_event_sound _ _ _ _ Hf He) as (? & ? & ? & ? & ? & ?).
Qed.

(** A group has one event in a filter. *)
Lemma group_event_unique tf rels evs e e' g :
  filter_events tf rels evs → e ∈ evs → e' ∈ evs →
  (λ g, g.1.1) <$> ev_group e = Some g → (λ g, g.1.1) <$> ev_group e' = Some g → e = e'.
Proof.
  intros (gss & gevs & -> & Hch & Hnd & _) He He' Hg Hg'.
  assert (∀ e, e ∈ omap (direct tf) rels ++ gevs → (λ g, g.1.1) <$> ev_group e = Some g →
    ∃ i gs, gss !! i = Some gs ∧ gevs !! i = Some e ∧ gs.1 = g) as Hfind.
  { intros e0 [Hd|Hin]%elem_of_app Hg0.
    - apply direct_spec in Hd as (? & ? & ? & _ & _ & _ & ->). done.
    - apply list_elem_of_lookup in Hin as [i Hi].
      destruct (Forall2_lookup_r _ _ _ _ _ Hch Hi) as (gs & Hgs & idx & c & on & _ & ->).
      exists i, gs. split; [done|]. split; [done|]. by injection Hg0. }
  destruct (Hfind e He Hg) as (i & gs & Hi & Hei & Hk), (Hfind e' He' Hg') as (j & gs' & Hj & Hej & Hk').
  assert (i = j) as ->.
  { eapply (NoDup_lookup gss.*1); [done|by rewrite list_lookup_fmap, Hi|].
    rewrite list_lookup_fmap, Hj. simpl. congruence. }
  congruence.
Qed.

(** No filter is met twice. *)
Lemma item_names r topic :
  router_routes r → Forall (λ l, is_wildcard l = false) topic →
  NoDup (item_name <$> match_ref unit_le (topics r) topic []).
Proof.
  intros Hr Hw.
  assert (∀ it, it ∈ match_ref unit_le (topics r) topic [] → topic_canon it.1) as Hcan.
  { intros [f vs] (f' & _ & [= -> ->] & Hst)%match_ref_top. by apply (rt_canon r Hr) in Hst. }
  change (NoDup (topic_to_string ∘ fst <$> match_ref unit_le (topics r) topic [])). rewrite list_fmap_compose.
  apply NoDup_fmap_2_strong; [|by apply match_ref_NoDup].
  intros f g (it & -> & Hit)%list_elem_of_fmap (it' & -> & Hit')%list_elem_of_fmap Heq.
  assert (topic_from_str (topic_to_string it'.1) = Ok it'.1) as Hp by (apply topic_from_str_spec; auto).
  apply (topic_to_string_canon _ _ it.1) in Hp; [|auto]. by apply Hp.
Qed.

Lemma item_events_at r topic evss i evs :
  Forall2 (item_events r) (match_ref unit_le (topics r) topic []) evss → evss !! i = Some evs →
  ∃ tf, (item_name <$> match_ref unit_le (topics r) topic []) !! i = Some tf ∧
    filter_events tf (rels_of r tf) evs ∧ ∀ e, e ∈ evs → ev_tf e = tf.
Proof.
  intros Hevs Hi. destruct (Forall2_lookup_r _ _ _ _ _ Hevs Hi) as (it & Hit & Hf).
  exists (item_name it). rewrite list_lookup_fmap, Hit. do 2 (split; [done|]).
  intros e He. by destruct (filter_event_sound _ _ _ _ Hf He) as (? & ? & ? & ? & ? & ?).
Qed.

Lemma group_events_unique r topic evss e e' g :
  router_routes r → Forall (λ l, is_wildcard l = false) topic →
  Forall2 (item_events r) (match_ref unit_le (topics r) topic []) evss →
  e ∈ concat evss → e' ∈ concat evss → ev_tf e = ev_tf e' →
  (λ g, g.1.1) <$> ev_group e = Some g → (λ g, g.1.1) <$> ev_group e' = Some g → e = e'.
Proof.
  intros Hr Hw Hevs (evs & Hin & He)%elem_of_concat (evs' & Hin' & He')%elem_of_concat Htf Hg Hg'.
  apply list_elem_of_lookup in Hin as [i Hi], Hin' as [j Hj].
  destruct (item_events_at _ _ _ _ _ Hevs Hi) as (tf & Hti & Hf & H1).
  destruct (item_events_at _ _ _ _ _ Hevs Hj) as (tf' & Htj & _ & H2).
  assert (tf = tf') as <- by (rewrite <-(H1 e), <-(H2 e'); done).
  assert (i = j) as -> by (eapply NoDup_lookup; [by apply item_names|done..]).
  assert (evs = evs') as <- by congruence. by eapply group_event_unique.
Qed.

(** A client has one event in a filter. *)
Lemma filter_event_keys r tf evs : filter_events tf (rels_of r tf) evs → NoDup (ev_cid <$> evs).
Proof.
  intros Hf. pose proof (filter_event_sound r tf evs) as Hsound. pose proof Hf as (gss & gevs & -> & Hch & Hnd & _).
  rewrite fmap_app. apply NoDup_app. split; [|split].
  - apply NoDup_omap_key with (k := fst).
    + intros [cid [id opts]] e He. unfold direct in He. simpl in He. destruct (taken _), (shared_group opts); try done.
      by injection He as <-.
    + unfold rels_of. destruct (relations r !! tf); [apply NoDup_iter_keys|constructor].
  - intros cid (e & -> & He)%list_elem_of_fmap (e' & Hcid & He')%list_elem_of_fmap.
    destruct (Hsound e Hf) as (id & Hsub & _); [apply elem_of_app; by left|].
    destruct (Hsound e' Hf) as (id' & Hsub' & _ & _ & _ & Hg); [apply elem_of_app; by right|].
    apply direct_spec in He as (? & ? & ? & _ & _ & Hno & ->). simpl in *.
    destruct (elem_of_Forall2_r _ _ _ _ Hch He') as (gs & _ & idx & c & on & _ & ->).
    apply group_ok_name in Hg. simpl in *. congruence.
  - apply NoDup_alt. intros i j cid Hi Hj. rewrite list_lookup_fmap in Hi, Hj.
    destruct (gevs !! i) as [e|] eqn:Hei, (gevs !! j) as [e'|] eqn:Hej; try done. injection Hi as <-. injection Hj as Hcid.
    destruct (Hsound e Hf) as (id & Hsub & _ & _ & _ & Hg%group_ok_name);
      [apply elem_of_app; right; by eapply list_elem_of_lookup_2|].
    destruct (Hsound e' Hf) as (id' & Hsub' & _ & _ & _ & Hg'%group_ok_name);
      [apply elem_of_app; right; by eapply list_elem_of_lookup_2|].
    destruct (Forall2_lookup_r _ _ _ _ _ Hch Hei) as (gs & Hgi & idx & c & on & _ & ->).
    destruct (Forall2_lookup_r _ _ _ _ _ Hch Hej) as (gs' & Hgj & idx' & c' & on' & _ & ->). simpl in *.
    eapply (NoDup_lookup gss.*1); [done|by rewrite list_lookup_fmap, Hgi|]. rewrite list_lookup_fmap, Hgj. simpl. congruence.
Qed.

(** A client has one event for each of its filters. *)
Lemma event_keys r topic evss :
  router_routes r → Forall (λ l, is_wildcard l = false) topic →
  Forall2 (item_events r) (match_ref unit_le (topics r) topic []) evss →
  NoDup ((λ e, (ev_tf e, ev_cid e)) <$> concat evss).
Proof.
  intros Hr Hw Hevs. pose proof (item_names r topic Hr Hw) as Hn. unfold item_events in Hevs.
  induction Hevs as [|it evs items evss Hf Hevs IH]; [constructor|]. cbn in Hn |- *.
  apply NoDup_cons in Hn as [Hit Hn]. rewrite fmap_app. apply NoDup_app.
  assert (∀ e, e ∈ evs → ev_tf e = item_name it) as Htf.
  { intros e He. by destruct (filter_event_sound _ _ _ _ Hf He) as (? & ? & ? & ? & ? & ?). }
  split; [|split; [|by apply IH]].
  - apply (NoDup_fmap_1 snd). rewrite <-list_fmap_compose. by eapply (filter_event_keys r).
  - intros [tf cid] (e & [= -> ->] & He)%list_elem_of_fmap (e' & [= Heq _] & (evs' & Hin & He')%elem_of_concat)%list_elem_of_fmap.
    apply Hit, list_elem_of_fmap. destruct (elem_of_Forall2_r _ _ _ _ Hevs Hin) as (it' & Hin' & Hf').
    exists it'. split; [|done]. rewrite <-(Htf e He), Heq.
    by destruct (filter_event_sound _ _ _ _ Hf' He') as (? & ? & ? & ? & ? & ?).
Qed.

(** A relation that is returned was added. *)
Lemma into_event evs n c x :
  collector_sound evs n c → x ∈ collector_into c →
  mkEvent n (rel_tf x) (rel_cid x) (rel_opts x) (rel_group x) ∈ evs.
Proof.
  intros [H3 H5]. rewrite elem_of_into. intros [Hx|Hx].
  - destruct (H3 x Hx) as (e & He & <- & _ & ->). by destruct e.
  - by destruct (H5 _ _ _ _ _ Hx) as [(e & He & Hn & _ & <-) _].
Qed.

(** The relations of MQTT 3 are its events, in order. *)
Lemma v3_in_order evs n :
  v3_rels (at_node (foldl apply_event ∅ evs) n) =
  omap (λ e, if decide (ev_node e = n ∧ is_v3 (ev_opts e) = true)
             then Some (ev_tf e, ev_cid e, ev_opts e, None, ev_group e) else None) evs.
Proof.
  induction evs as [|e evs IH] using rev_ind; [done|]. rewrite foldl_app, omap_app, <-IH. cbn [foldl].
  rewrite at_node_apply. cbn [omap list_omap]. destruct (decide (n = ev_node e)) as [Hn|Hn].
  - unfold collector_add. destruct (is_v3 (ev_opts e)).
    + by rewrite decide_True.
    + rewrite decide_False by (by intros [_ ?]). by rewrite app_nil_r.
  - rewrite decide_False by (by intros [<- _]). by rewrite app_nil_r.
Qed.

(** One relation for a client and filter, and one for a client of MQTT 5. *)
Lemma into_once evs n :
  NoDup ((λ e, (ev_tf e, ev_cid e)) <$> evs) →
  let rels := collector_into (at_node (foldl apply_event ∅ evs) n) in
  NoDup ((λ x, (rel_tf x, rel_cid x)) <$> rels) ∧
  NoDup (rel_cid <$> filter (λ x, is_v3 (rel_opts x) = false) rels).
Proof.
  intros Hnd rels. destruct (collected evs) as [_ Hcs]. cbv zeta in Hcs. specialize (Hcs n).
  set (c := at_node (foldl apply_event ∅ evs) n) in *.
  assert (∀ e e', e ∈ evs → e' ∈ evs → ev_tf e = ev_tf e' → ev_cid e = ev_cid e' → e = e') as Huniq.
  { intros e e' [i Hi]%list_elem_of_lookup [j Hj]%list_elem_of_lookup Htf Hcid.
    assert (i = j) as ->; [|congruence]. eapply NoDup_lookup; [exact Hnd|by rewrite list_lookup_fmap, Hi|].
    rewrite list_lookup_fmap, Hj. simpl. congruence. }
  set (v5 := map (λ kv : ClientId * _, let '(cid, (tf, opts, ids, g)) := kv in (tf, cid, opts, ids, g)) (iter (v5_rels c))).
  assert (rels = v3_rels c ++ v5) as -> by done. destruct Hcs as [H3 H5].
  assert (rel_cid <$> v5 = (iter (v5_rels c)).*1) as Hk.
  { unfold v5. induction (iter (v5_rels c)) as [|[cid [[[tf opts] ids] g]] l IH]; [done|]. cbn. by f_equal. }
  assert (∀ x, x ∈ v5 → v5_rels c !! rel_cid x = Some (rel_tf x, rel_opts x, rel_ids x, rel_group x)) as Hv5.
  { intros x Hx. unfold v5 in Hx. apply list_elem_of_fmap in Hx as ([cid [[[tf opts] ids] g]] & -> & Hl%elem_of_iter). done. }
  split.
  - rewrite fmap_app. apply NoDup_app. split; [|split].
    + unfold c. rewrite v3_in_order. eapply NoDup_omap_key; [|exact Hnd]. intros e x He. simpl in He.
      case_decide; [|done]. by injection He as <-.
    + intros k (x & -> & (e & He & Hn & Hv & ->)%H3)%list_elem_of_fmap (y & Hxy & Hy)%list_elem_of_fmap.
      injection Hxy as Htf Hcid. destruct (H5 _ _ _ _ _ (Hv5 y Hy)) as [(e' & He' & _ & Hv' & ->) _].
      specialize (Huniq e _ He He' Htf Hcid). subst e. cbn [ev_opts] in *. congruence.
    + apply (NoDup_fmap_1 snd). rewrite <-list_fmap_compose.
      change (snd ∘ (λ x, (rel_tf x, rel_cid x))) with rel_cid. rewrite Hk. apply NoDup_iter_keys.
  - rewrite filter_app, fmap_app.
    assert (filter (λ x, is_v3 (rel_opts x) = false) (v3_rels c) = []) as ->.
    { apply filter_drops, Forall_forall. intros x (e & _ & _ & Hv & ->)%H3.
      unfold rel_opts. cbn [fst snd]. congruence. }
    simpl. rewrite filter_keeps; [rewrite Hk; apply NoDup_iter_keys|].
    apply Forall_forall. intros x Hx. by destruct (H5 _ _ _ _ _ (Hv5 x Hx)) as [(e' & He' & _ & Hv' & ->) _].
Qed.

(** What is served shows in the relations that are returned. *)
Lemma served_relation e c evs n :
  event_served e c → collector_sound evs n c →
  ∃ x, x ∈ collector_into c ∧ serves (ev_cid e) (ev_tf e) (ev_opts e) x.
Proof.
  intros He [_ H5]. unfold event_served, serves in *. destruct (is_v3 (ev_opts e)) eqn:Hv.
  - eexists. split; [apply elem_of_into; left; exact He|done].
  - destruct He as (tf & opts & ids & g & Hl & Hi).
    exists (tf, ev_cid e, opts, ids, g). split; [apply elem_of_into; by right|]. split; [done|].
    split; [|done]. destruct (H5 _ _ _ _ _ Hl) as [(e' & _ & _ & Hv' & ->) _]. done.
Qed.

(** ** Claims *)

(** One member for each filter and group that has members. *)
Definition is_choice (r : DefaultRouter) (choice : TopicFilter → SharedGroup → option ClientId) : Prop :=
  ∀ tf g, match choice tf g with
          | Some cid => member r tf g cid
          | None => ∀ cid, ¬ member r tf g cid
          end.

(** The subscriptions that are to be served: those outside groups, and of each
    group the one that is chosen. *)
Definition picked (r : DefaultRouter) (choice : TopicFilter → SharedGroup → option ClientId)
    (tf : TopicFilter) (cid : ClientId) (id : Id) (opts : SubscriptionOptions) : Prop :=
  wanted r tf cid id opts ∧ from_option (λ g, choice tf g = Some cid) True (shared_group opts).

(** The relations of the node [n] serve those of its clients, each filter of a
    client once and all filters of a client of MQTT 5 together, and no others. *)
Record routed (r : DefaultRouter) (choice : TopicFilter → SharedGroup → option ClientId) (n : NodeId)
    (rels : list SubRelation) : Prop := mkRouted {
  ro_served : ∀ tf cid id opts, picked r choice tf cid id opts → id_node_id id = n →
    ∃ x, x ∈ rels ∧ serves cid tf opts x;
  ro_sound : ∀ x, x ∈ rels → ∃ id, picked r choice (rel_tf x) (rel_cid x) id (rel_opts x) ∧
    id_node_id id = n ∧ group_ok (member r (rel_tf x)) (rel_opts x) (rel_group x);
  ro_ids : ∀ x l i, x ∈ rels → rel_ids x = Some l → i ∈ l →
    ∃ tf id opts, picked r choice tf (rel_cid x) id opts ∧ id_node_id id = n ∧
      subscription_identifier opts = Some i;
  ro_filters : NoDup ((λ x, (rel_tf x, rel_cid x)) <$> rels);
  ro_v5 : NoDup (rel_cid <$> filter (λ x, is_v3 (rel_opts x) = false) rels);
}.

Lemma choice_of_events r topic evss :
  router_routes r → topic_from_str topic_name = Ok topic → Forall (λ l, is_wildcard l = false) topic →
  Forall2 (item_events r) (match_ref unit_le (topics r) topic []) evss →
  ∃ choice, is_choice r choice ∧
    (∀ e, e ∈ concat evss → ∃ id, picked r choice (ev_tf e) (ev_cid e) id (ev_opts e) ∧ id_node_id id = ev_node e ∧
       group_ok (member r (ev_tf e)) (ev_opts e) (ev_group e)) ∧
    (∀ tf cid id opts, picked r choice tf cid id opts →
       ∃ g, mkEvent (id_node_id id) tf cid opts g ∈ concat evss).
Proof.
  intros Hr Ht Hw Hevs. destruct (events_spec r topic evss Hr Ht Hevs) as (Hsound & Hdir & Hgrp).
  set (is_for tf g e := ev_tf e = tf ∧ (λ g, g.1.1) <$> ev_group e = Some g).
  set (choice tf g := ev_cid <$> head (filter (is_for tf g) (concat evss))).
  assert (∀ e g, e ∈ concat evss → (λ g, g.1.1) <$> ev_group e = Some g → choice (ev_tf e) g = Some (ev_cid e)) as Hchoice.
  { intros e g He Hg. unfold choice. destruct (head _) as [e'|] eqn:Hh.
    - apply head_Some_elem_of, list_elem_of_filter in Hh as [[Htf Hg'] He']. simpl. f_equal.
      by erewrite (group_events_unique r topic evss e' e g).
    - apply head_None in Hh. assert (e ∈ filter (is_for (ev_tf e) g) (concat evss)) as Hin by (by apply list_elem_of_filter).
      rewrite Hh in Hin. by apply not_elem_of_nil in Hin. }
  exists choice. split; [|split].
  - intros tf g. unfold choice. destruct (head _) as [e|] eqn:Hh.
    + apply head_Some_elem_of, list_elem_of_filter in Hh as [[<- Hg] He]. simpl.
      destruct (Hsound e He) as (id & Hwa & _ & Hok%group_ok_name). exists id, (ev_opts e). split; [done|congruence].
    + intros cid (id & opts & Hwa & Hg). destruct (Hgrp tf cid id opts g Hwa Hg) as (e & He & Htf & Heg).
      apply head_None in Hh. assert (e ∈ filter (is_for tf g) (concat evss)) as Hin by (by apply list_elem_of_filter).
      rewrite Hh in Hin. by apply not_elem_of_nil in Hin.
  - intros e He. destruct (Hsound e He) as (id & Hwa & Hn & Hok). exists id. split; [|done]. split; [done|].
    destruct (shared_group (ev_opts e)) as [g|] eqn:Hg; [|done]. apply Hchoice; [done|].
    apply group_ok_name in Hok. congruence.
  - intros tf cid id opts [Hwa Hc]. destruct (shared_group opts) as [g|] eqn:Hg; [|exists None; by apply Hdir].
    destruct (Hgrp tf cid id opts g Hwa Hg) as (e & He & <- & Heg). simpl in Hc.
    rewrite (Hchoice e g He Heg) in Hc. injection Hc as <-. destruct (Hsound e He) as (id' & Hwa' & Hn & _).
    destruct Hwa as (Hs & _), Hwa' as (Hs' & _). assert (id' = id ∧ ev_opts e = opts) as [-> <-] by (split; congruence).
    rewrite Hn. exists (ev_group e). by destruct e.
Qed.

(** Routing.  On a router whose tree has the filters of its subscribers a message
    to a topic without wildcards is routed without a panic, whatever the hash
    orders, the clients online and the state of the shared-subscription strategy.
    For every filter and shared group with members that want it one of them is
    chosen; the relations that each node gets serve its clients whose
    subscriptions match by the MQTT rules, are chosen if they are of a group, and
    are not the publisher's own ones with [no_local]: each of them once, and no
    others. *)
Theorem routing_exact r s topic :
  router_routes r → topic_from_str topic_name = Ok topic → Forall (λ l, is_wildcard l = false) topic →
  ∃ out s' choice, _matches is_online this_id topic_name r s = (Ok out, s') ∧ is_choice r choice ∧
    ∀ n, routed r choice n (default [] (out !! n)).
Proof.
  intros Hr Ht Hw. unfold _matches. rewrite Ht, matched_spec.
  destruct (on_filters_spec r (match_ref unit_le (topics r) topic []) ∅ s) as (evss & s' & -> & Hevs).
  destruct (choice_of_events r topic evss Hr Ht Hw Hevs) as (choice & Hch & Hsound & Hcomplete).
  exists (collector_into <$> foldl apply_event ∅ (concat evss)), s', choice. do 2 (split; [done|]). intros n.
  destruct (collected (concat evss)) as [Hserved Hcs]. cbv zeta in Hserved, Hcs.
  destruct (into_once (concat evss) n (event_keys r topic evss Hr Hw Hevs)) as [Hf H5].
  assert (default [] ((collector_into <$> foldl apply_event ∅ (concat evss)) !! n) =
    collector_into (at_node (foldl apply_event ∅ (concat evss)) n)) as ->.
  { rewrite lookup_fmap. unfold at_node. destruct (_ !! n); simpl; [done|]. unfold collector_into. simpl. by rewrite iter_empty. }
  split; [| | |done|done].
  - intros tf cid id opts Hp <-. destruct (Hcomplete tf cid id opts Hp) as [g He].
    by apply (served_relation _ _ _ _ (Hserved _ He) (Hcs _)).
  - intros x Hx%(into_event _ _ _ _ (Hcs n)). by destruct (Hsound _ Hx) as (id & ? & ? & ?); exists id.
  - intros x l i Hx Hl Hi. destruct (Hcs n) as [H3 H5']. apply elem_of_into in Hx as [(e & _ & _ & _ & ->)%H3|Hx]; [done|].
    destruct (H5' _ _ _ _ _ Hx) as [_ Hids]. destruct (Hids l i Hl Hi) as (e & He & Hn & Hcid & Hsi).
    destruct (Hsound e He) as (id & Hp & Hid & _). exists (ev_tf e), id, (ev_opts e). rewrite <-Hcid, Hid. done.
Qed.
End Loops.

(** ** A concrete router *)

#[local] Existing Instances map_order map_order_ok.

(** The strategy that takes the first member. *)
#[local] Instance first_member : SharedSubscription unit := λ _ _ _ ncs s,
  (match ncs with [] => None | _ => Some (0%nat, true) end, s).

#[local] Instance first_member_ok : SharedSubscriptionOk unit.
Proof. intros g p t ncs s Hne. exists 0%nat, true, s. destruct ncs; [done|]. split; [done|]. simpl. lia. Qed.

Definition publisher : Id := sample_client "p".
Definition shared_opts : SubscriptionOptions := options_from_v3 AtLeastOnce (Some (lit "g")) None.

Definition sample_subscriptions : list rop :=
  [RAdd (lit "a/+") (sample_client "c1") sample_opts;
   RAdd (lit "a/b") (sample_client "c2") shared_opts;
   RAdd (lit "a/b") (sample_client "c3") shared_opts;
   RAdd (lit "x") (sample_client "c4") sample_opts].

Definition sample_router : DefaultRouter := (run_ops router_exec sample_subscriptions router_new).2.

Lemma sample_router_inv : router_inv sample_router.
Proof.
  unfold sample_router. pose proof (run_ops_refines sample_subscriptions router_new ∅ subs_rep_new) as H.
  destruct (run_ops router_exec _ _), (run_ops subs_exec _ _). by destruct H as [_ [? _ _]].
Qed.

Lemma routing_exact_witness :
  ∃ out s' choice, _matches (λ _ _, true) publisher (lit "a/b") sample_router () = (Ok out, s') ∧
    (∃ x, x ∈ default [] (out !! 1) ∧ serves (lit "c1") (lit "a/+") sample_opts x) ∧
    is_Some (choice (lit "a/b") (lit "g")) ∧ routed publisher (lit "a/b") sample_router choice 1 (default [] (out !! 1)).
Proof.
  destruct (routing_exact (λ _ _, true) publisher (lit "a/b") sample_router ()
    [Normal (lit "a"); Normal (lit "b")] (router_inv_routes _ sample_router_inv) eq_refl
    ltac:(repeat constructor))
    as (out & s' & choice & Hm & Hch & Hro).
  exists out, s', choice. split; [exact Hm|]. split; [|split; [|exact (Hro 1)]].
  - apply (ro_served _ _ _ _ _ _ (Hro 1) (lit "a/+") (lit "c1") (sample_client "c1") sample_opts); [|reflexivity].
    split; [|exact I]. split; [vm_compute; reflexivity|]. split; [|vm_compute; reflexivity].
    exists [Normal (lit "a"); SingleWildcard]. split; vm_compute; reflexivity.
  - specialize (Hch (lit "a/b") (lit "g")). destruct (choice _ _); [done|]. exfalso. apply (Hch (lit "c2")).
    exists (sample_client "c2"), shared_opts. split; [|reflexivity].
    split; [vm_compute; reflexivity|]. split; [|vm_compute; reflexivity].
    exists [Normal (lit "a"); Normal (lit "b")]. split; vm_compute; reflexivity.
Defined.

(** A client of MQTT 5 whose subscriptions overlap gets one copy, with the
    options of the filter that the walk meets first and not the highest QoS: here
    QoS 0, although it also subscribed to the very topic with QoS 2. *)
Definition v5_opts (q : QoS) (id : Z) : SubscriptionOptions :=
  options_from_v5 (PacketV5.mkSubOptions q false false RHAtSubscribe) None None (Some id).

Example overlap_first_qos :
  let r := (run_ops router_exec [RAdd (lit "a/b") (sample_client "c1") (v5_opts ExactlyOnce 2);
                                 RAdd (lit "a/+") (sample_client "c1") (v5_opts AtMostOnce 1)]
              router_new).2 in
  (_matches (λ _ _, true) publisher (lit "a/b") r ()).1 =
  Ok {[1 := [(lit "a/+", lit "c1", v5_opts AtMostOnce 1, Some [1; 2], None)]]}.
Proof. vm_compute. reflexivity. Qed.
