(* ===== verification/Shared.v ===== *)
(** * Shared subscriptions

    The strategies of [ferromq-shared-subscription/src/strategies.rs], by which
    one member of a [$share] group is chosen for a message, as instances of the
    router's interface [SharedSubscription].

    Parameters: [rand::random] as a stream of numbers, the standard [Hasher] as
    a function to numbers, the [lru] crate's cache as the class [LruCache] with
    the documented laws [LruCacheOk], and the router's answer to [is_online],
    which does not change while one choice is made.  The counters and the cache
    are behind atomics and mutexes, so choices happen one at a time. *)

From stdpp Require Import base list numbers option gmap strings sorting.
From Stdlib Require Import ZArith Lia.
From S2P Require Import Prelude Errors Wire CodecTypes PacketV5 Topic Trie Counter Hash BrokerTypes Router.

#[local] Open Scope Z_scope.

(** ** The cache of sticky bindings *)

Abbreviation StickyKey := (SharedGroup * ClientId)%type.

Class LruCache (C : Type) := {
  lru_get : StickyKey → C → option ClientId * C;
  lru_put : StickyKey → ClientId → C → C;
  lru_pop : StickyKey → C → C;
}.

(** [get] only changes which entries are recent; [put] keeps its entry, as the
    capacity is not zero, and may drop another one. *)
Class LruCacheOk (C : Type) `{LruCache C} := {
  lru_get_put : ∀ k v c, (lru_get k (lru_put k v c)).1 = Some v;
  lru_get_get : ∀ k k' c, (lru_get k (lru_get k' c).2).1 = (lru_get k c).1;
  lru_get_pop : ∀ k c, (lru_get k (lru_pop k c)).1 = None;
}.

(** ** The strategies *)

Inductive Strategy : Type :=
| Random | RoundRobin | RoundRobinPerGroup | Sticky | Local | HashClientId | HashTopic.

Definition strategy_default : Strategy := RoundRobin.

(** The fields of [SharedSubscriptionImpl] that change, and the source of random
    numbers. *)
Record SharedState (Cache Rng : Type) : Type := mkShared {
  rr_counter : Z;
  rr_group_counters : gmap SharedGroup Z;
  sticky_map : Cache;
  rng : Rng;
}.
Arguments mkShared {Cache Rng}. Arguments rr_counter {Cache Rng}.
Arguments rr_group_counters {Cache Rng}. Arguments sticky_map {Cache Rng}.
Arguments rng {Cache Rng}.

Definition c_node (c : Candidate) : NodeId := c.1.1.1.1.
Definition c_client (c : Candidate) : ClientId := c.1.1.1.2.

(** [find_local_fallback] *)
Definition find_local_fallback (publisher_id : Id) (ncs : list Candidate) : option (nat * bool) :=
  match list_find (λ c, c_node c = id_node_id publisher_id) ncs with
  | Some (idx, _) => Some (idx, false)
  | None => match ncs with [] => None | _ :: _ => Some (0%nat, false) end
  end.

(** [usize::wrapping_add(1)], also of [fetch_add(1)]. *)
Definition wrapping_inc (x : Z) : Z := (x + 1) mod 2 ^ 64.

Section Strategies.
Context {Cache Rng : Type} `{!LruCache Cache}.
Context (random : Rng → Z * Rng) (hash : str → Z).
Context (is_online : NodeId → ClientId → bool).

Abbreviation State := (SharedState Cache Rng).

(** The state of a member: known from the router or asked of it. *)
Definition online (c : Candidate) : bool :=
  match c.2 with Some b => b | None => is_online (c_node c) (c_client c) end.

(** The loop of [choice_random]: a random candidate is removed until one is
    online. *)
Fixpoint random_loop (fuel : nat) (tmp_ncs : list (nat * Candidate)) (r : Rng) : option nat * Rng :=
  match fuel, tmp_ncs with
  | _, [] => (None, r)
  | O, _ => (None, r)
  | S fuel, _ =>
      let '(r_idx, r) :=
        if bool_decide (length tmp_ncs = 1%nat) then (0%nat, r)
        else let '(x, r) := random r in (Z.to_nat (x mod len tmp_ncs), r) in
      match tmp_ncs !! r_idx with
      | Some (idx, c) =>
          if online c then (Some idx, r) else random_loop fuel (delete r_idx tmp_ncs) r
      | None => (None, r)
      end
  end.

Definition set_rng (r : Rng) (st : State) : State :=
  mkShared (rr_counter st) (rr_group_counters st) (sticky_map st) r.

Definition choice_random (publisher_id : Id) (ncs : list Candidate) (st : State)
    : option (nat * bool) * State :=
  let '(found, r) := random_loop (length ncs) (imap pair ncs) (rng st) in
  (match found with
   | Some idx => Some (idx, true)
   | None => find_local_fallback publisher_id ncs
   end, set_rng r st).

(** The loop of both round-robin strategies: [offset] from 0, [idx] from
    [start_idx] around the list. *)
Definition scan (ncs : list Candidate) (start_idx : nat) : option nat :=
  snd <$> list_find (λ idx, from_option online false (ncs !! idx) = true)
                    ((λ offset, (start_idx + offset) mod length ncs)%nat <$> seq 0 (length ncs)).

Definition rotate (counter : Z) (publisher_id : Id) (ncs : list Candidate) : option (nat * bool) :=
  match scan ncs (Z.to_nat (counter mod len ncs)) with
  | Some idx => Some (idx, true)
  | None => find_local_fallback publisher_id ncs
  end.

Definition choice_round_robin (publisher_id : Id) (ncs : list Candidate) (st : State)
    : option (nat * bool) * State :=
  (rotate (rr_counter st) publisher_id ncs,
   mkShared (wrapping_inc (rr_counter st)) (rr_group_counters st) (sticky_map st) (rng st)).

Definition choice_round_robin_per_group (publisher_id : Id) (group : SharedGroup)
    (ncs : list Candidate) (st : State) : option (nat * bool) * State :=
  let counter := default 0 (rr_group_counters st !! group) in
  (rotate counter publisher_id ncs,
   mkShared (rr_counter st) (<[group := wrapping_inc counter]> (rr_group_counters st))
     (sticky_map st) (rng st)).

(** A new binding of [choice_sticky]. *)
Definition bind_sticky (key : StickyKey) (publisher_id : Id) (ncs : list Candidate) (map : Cache)
    : option (nat * bool) * Cache :=
  match list_find (λ c, online c = true) ncs with
  | Some (idx, c) => (Some (idx, true), lru_put key (c_client c) map)
  | None =>
      match find_local_fallback publisher_id ncs with
      | Some (idx, _) =>
          match ncs !! idx with
          | Some c => (Some (idx, false), lru_put key (c_client c) map)
          | None => (None, map)
          end
      | None => (None, map)
      end
  end.

Definition choice_sticky (group : SharedGroup) (publisher_id : Id) (ncs : list Candidate)
    (st : State) : option (nat * bool) * State :=
  let key := (group, id_client_id publisher_id) in
  let '(bound, map) := lru_get key (sticky_map st) in
  let '(res, map) :=
    match bound ≫= λ sticky_cid, list_find (λ c, c_client c = sticky_cid) ncs with
    | Some (idx, c) =>
        if online c then (Some (idx, true), map)
        else bind_sticky key publisher_id ncs (lru_pop key map)
    | None => bind_sticky key publisher_id ncs map
    end in
  (res, mkShared (rr_counter st) (rr_group_counters st) map (rng st)).

Definition choice_local (publisher_id : Id) (ncs : list Candidate) : option (nat * bool) :=
  match list_find (λ c, c_node c = id_node_id publisher_id ∧ online c = true) ncs with
  | Some (idx, _) => Some (idx, true)
  | None =>
      match list_find (λ c, online c = true) ncs with
      | Some (idx, _) => Some (idx, true)
      | None => find_local_fallback publisher_id ncs
      end
  end.

(** [choice_hash_clientid] and [choice_hash_topic], which differ in what is
    hashed. *)
Definition choice_hash (key : str) (publisher_id : Id) (ncs : list Candidate) (st : State)
    : option (nat * bool) * State :=
  match ncs with
  | [] => (None, st)
  | _ :: _ =>
      let idx := Z.to_nat (hash key mod len ncs) in
      if from_option online false (ncs !! idx) then (Some (idx, true), st)
      else choice_random publisher_id ncs st
  end.

(** [SharedSubscription::choice] of [SharedSubscriptionImpl] *)
Definition shared_choice (strategy : Strategy) : SharedSubscription State :=
  λ group publisher_id topic ncs st,
    match ncs with
    | [] => (None, st)
    | _ :: _ =>
        match strategy with
        | Random => choice_random publisher_id ncs st
        | RoundRobin => choice_round_robin publisher_id ncs st
        | RoundRobinPerGroup => choice_round_robin_per_group publisher_id group ncs st
        | Sticky => choice_sticky group publisher_id ncs st
        | Local => (choice_local publisher_id ncs, st)
        | HashClientId => choice_hash (id_client_id publisher_id) publisher_id ncs st
        | HashTopic => choice_hash topic publisher_id ncs st
        end
    end.

(** ** What every strategy promises *)

(** A member is chosen, an online one whenever there is one; when all are
    offline, one on the publisher's node whenever there is one. *)
Definition picks (publisher_id : Id) (ncs : list Candidate) (r : option (nat * bool)) : Prop :=
  ∃ idx c, r = Some (idx, existsb online ncs) ∧ ncs !! idx = Some c ∧
           online c = existsb online ncs ∧
           (existsb online ncs = false →
            ∀ c', c' ∈ ncs → c_node c' = id_node_id publisher_id → c_node c = id_node_id publisher_id).

Lemma existsb_false ncs : existsb online ncs = false ↔ ∀ c, c ∈ ncs → online c = false.
Proof.
  rewrite <- not_true_iff_false, existsb_exists. split.
  - intros H c Hc. apply not_true_iff_false. intros ?. apply H. exists c.
    by rewrite <- list_elem_of_In.
  - intros H (c & Hc & Ho). apply list_elem_of_In, H in Hc. congruence.
Qed.

Lemma existsb_lookup ncs idx c : ncs !! idx = Some c → online c = true → existsb online ncs = true.
Proof.
  intros Hc Ho. apply existsb_exists. exists c. split; [|done].
  by apply list_elem_of_In, list_elem_of_lookup_2 with idx.
Qed.

Lemma picks_online publisher_id ncs idx c :
  ncs !! idx = Some c → online c = true → picks publisher_id ncs (Some (idx, true)).
Proof.
  intros Hc Ho. exists idx, c. rewrite (existsb_lookup _ _ _ Hc Ho). by repeat split.
Qed.

Lemma picks_fallback publisher_id ncs :
  ncs ≠ [] → existsb online ncs = false →
  picks publisher_id ncs (find_local_fallback publisher_id ncs).
Proof.
  intros Hne Hoff. unfold picks. rewrite Hoff. unfold find_local_fallback.
  destruct (list_find _ ncs) as [[idx c]|] eqn:E.
  - apply list_find_Some in E as (Hc & Hn & _). exists idx, c. repeat split; try done.
    by apply (proj1 (existsb_false ncs)), list_elem_of_lookup_2 with idx.
  - apply list_find_None in E. destruct ncs as [|c ncs]; [done|].
    exists 0%nat, c. repeat split; try done.
    + apply (proj1 (existsb_false _) Hoff), list_elem_of_here.
    + intros _ c' Hc' Hl. rewrite Forall_forall in E. by destruct (E c' Hc').
Qed.

(** *** The random loop ends with an online candidate if there is one *)

Lemma random_loop_spec fuel tmp r :
  (length tmp ≤ fuel)%nat →
  match (random_loop fuel tmp r).1 with
  | Some idx => ∃ c, (idx, c) ∈ tmp ∧ online c = true
  | None => ∀ idx c, (idx, c) ∈ tmp → online c = false
  end.
Proof.
  revert tmp r. induction fuel as [|fuel IH]; intros tmp r Hlen.
  { assert (tmp = []) as -> by (apply nil_length_inv; lia). by intros ?? ?%not_elem_of_nil. }
  destruct tmp as [|x tmp']; [by intros ?? ?%not_elem_of_nil|].
  set (tmp := x :: tmp') in *. simpl random_loop. fold tmp.
  set (pick := if bool_decide _ then _ else _).
  assert (pick.1 < length tmp)%nat as Hpick.
  { unfold pick. case_bool_decide as E; [simpl; lia|].
    destruct (random r) as [y r']; simpl fst. unfold len.
    pose proof (Z.mod_pos_bound y (Z.of_nat (length tmp)) ltac:(simpl; lia)). lia. }
  destruct pick as [i r'] eqn:Ep. simpl in Hpick.
  destruct (lookup_lt_is_Some_2 tmp i Hpick) as [[idx c] Hi]. rewrite Hi.
  pose proof (delete_Permutation _ _ _ Hi) as Hperm.
  destruct (online c) eqn:Ho; simpl.
  - exists c. split; [|done]. by apply list_elem_of_lookup_2 with i.
  - specialize (IH (delete i tmp) r').
    assert (length (delete i tmp) ≤ fuel)%nat as Hd.
    { rewrite length_delete by eauto. simpl in *. lia. }
    specialize (IH Hd). destruct (random_loop fuel (delete i tmp) r').1.
    + destruct IH as (c' & Hc' & Ho'). exists c'. split; [|done]. rewrite Hperm. by right.
    + intros idx' c' Hc'. rewrite Hperm in Hc'.
      apply elem_of_cons in Hc' as [[= -> ->]|Hc']; [done|]. by eapply IH.
Qed.

Lemma elem_of_enumerate (ncs : list Candidate) idx c : (idx, c) ∈ imap pair ncs ↔ ncs !! idx = Some c.
Proof.
  rewrite elem_of_lookup_imap. split.
  - intros (i & x & [= -> ->] & Hx). done.
  - intros H. by exists idx, c.
Qed.

Lemma choice_random_picks publisher_id ncs st :
  ncs ≠ [] → picks publisher_id ncs (choice_random publisher_id ncs st).1.
Proof.
  intros Hne. unfold choice_random.
  pose proof (random_loop_spec (length ncs) (imap pair ncs) (rng st)) as H.
  rewrite length_imap in H. specialize (H (le_n _)).
  destruct (random_loop _ _ _) as [[idx|] r]; simpl in *.
  - destruct H as (c & Hc%elem_of_enumerate & Ho). by eapply picks_online.
  - apply picks_fallback; [done|]. apply existsb_false. intros c Hc.
    apply list_elem_of_lookup in Hc as [i Hi]. eapply H. by apply elem_of_enumerate.
Qed.

(** *** The scan goes once around *)

Lemma mod_offset (n s x : nat) : (x < n)%nat → (s < n)%nat →
  ∃ o, (o < n)%nat ∧ ((s + o) mod n = x)%nat.
Proof.
  intros Hx Hs. destruct (le_lt_dec s x).
  - exists (x - s)%nat. split; [lia|]. rewrite Nat.mod_small; lia.
  - exists (n - s + x)%nat. split; [lia|].
    replace (s + (n - s + x))%nat with (x + 1 * n)%nat by lia.
    rewrite Nat.Div0.mod_add. by apply Nat.mod_small.
Qed.

Lemma scan_Some ncs s idx :
  scan ncs s = Some idx → ∃ c, ncs !! idx = Some c ∧ online c = true.
Proof.
  unfold scan. intros ([i x] & E & [= ->])%fmap_Some.
  apply list_find_Some in E as (_ & Ho & _). simpl.
  destruct (ncs !! x) as [c|] eqn:Hc; [|done]. by exists c.
Qed.

Lemma scan_None ncs s : (s < length ncs)%nat → scan ncs s = None → existsb online ncs = false.
Proof.
  unfold scan. intros Hs E%fmap_None%list_find_None. apply existsb_false. intros c Hc.
  apply list_elem_of_lookup in Hc as [i Hi].
  destruct (mod_offset (length ncs) s i) as (o & Ho & Hm); [by eapply lookup_lt_Some|done|].
  rewrite Forall_forall in E. specialize (E i). rewrite Hi in E. simpl in E.
  apply not_true_iff_false, E. apply list_elem_of_fmap. exists o. split; [done|].
  apply elem_of_seq. lia.
Qed.

Lemma start_lt (x : Z) {A} (l : list A) : l ≠ [] → (Z.to_nat (x mod len l) < length l)%nat.
Proof.
  intros Hne. unfold len. destruct l as [|y l]; [done|].
  pose proof (Z.mod_pos_bound x (Z.of_nat (length (y :: l))) ltac:(simpl; lia)). lia.
Qed.

Lemma rotate_picks counter publisher_id ncs :
  ncs ≠ [] → picks publisher_id ncs (rotate counter publisher_id ncs).
Proof.
  intros Hne. unfold rotate. destruct (scan _ _) as [idx|] eqn:E.
  - apply scan_Some in E as (c & Hc & Ho). by eapply picks_online.
  - apply picks_fallback; [done|]. by eapply scan_None, E; apply start_lt.
Qed.

(** *** The others *)

Lemma first_online ncs :
  match list_find (λ c, online c = true) ncs with
  | Some (idx, c) => ncs !! idx = Some c ∧ online c = true
  | None => existsb online ncs = false
  end.
Proof.
  destruct (list_find _ ncs) as [[idx c]|] eqn:E.
  - apply list_find_Some in E. naive_solver.
  - apply list_find_None in E. apply existsb_false. intros c Hc.
    rewrite Forall_forall in E. by apply not_true_iff_false, E.
Qed.

(** The new binding is to the member that was chosen. *)
Lemma bind_sticky_picks key publisher_id ncs map :
  ncs ≠ [] →
  picks publisher_id ncs (bind_sticky key publisher_id ncs map).1 ∧
  ∃ idx b c, (bind_sticky key publisher_id ncs map).1 = Some (idx, b) ∧ ncs !! idx = Some c ∧
             (bind_sticky key publisher_id ncs map).2 = lru_put key (c_client c) map.
Proof.
  intros Hne. unfold bind_sticky. pose proof (first_online ncs) as H.
  destruct (list_find _ ncs) as [[idx c]|]; simpl.
  - destruct H as [Hc Ho]. split; [by eapply picks_online|]. by exists idx, true, c.
  - pose proof (picks_fallback publisher_id ncs Hne H) as Hp.
    destruct Hp as (idx & c & E & Hc & Ho & Hl). rewrite E, Hc. simpl. split.
    + exists idx, c. rewrite H in *. by repeat split.
    + by exists idx, false, c.
Qed.

Lemma choice_sticky_picks group publisher_id ncs st :
  ncs ≠ [] → picks publisher_id ncs (choice_sticky group publisher_id ncs st).1.
Proof.
  intros Hne. unfold choice_sticky.
  destruct (lru_get _ _) as [bound map].
  destruct (bound ≫= _) as [[idx c]|] eqn:E; simpl.
  - destruct (online c) eqn:Ho; simpl.
    + destruct bound as [cid|]; [simpl in E|done].
      apply list_find_Some in E as (Hc & _). by eapply picks_online.
    + destruct (bind_sticky_picks (group, id_client_id publisher_id) publisher_id ncs
                  (lru_pop (group, id_client_id publisher_id) map) Hne) as [Hp _].
      by destruct (bind_sticky _ _ _ _).
  - destruct (bind_sticky_picks (group, id_client_id publisher_id) publisher_id ncs map Hne) as [Hp _].
    by destruct (bind_sticky _ _ _ _).
Qed.

Lemma choice_local_picks publisher_id ncs :
  ncs ≠ [] → picks publisher_id ncs (choice_local publisher_id ncs).
Proof.
  intros Hne. unfold choice_local.
  destruct (list_find (λ c, _ ∧ _) ncs) as [[idx c]|] eqn:E.
  - apply list_find_Some in E as (Hc & [_ Ho] & _). by eapply picks_online.
  - clear E. pose proof (first_online ncs) as H.
    destruct (list_find _ ncs) as [[idx c]|].
    + destruct H. by eapply picks_online.
    + by apply picks_fallback.
Qed.

Lemma choice_hash_picks key publisher_id ncs st :
  ncs ≠ [] → picks publisher_id ncs (choice_hash key publisher_id ncs st).1.
Proof.
  intros Hne. unfold choice_hash. destruct ncs as [|n ncs']; [done|].
  set (ncs := n :: ncs') in *.
  destruct (ncs !! Z.to_nat (hash key mod len ncs)) as [c|] eqn:Hc; simpl.
  - destruct (online c) eqn:Ho; simpl; [by eapply picks_online|by apply choice_random_picks].
  - by apply choice_random_picks.
Qed.

Lemma strategy_picks strategy group publisher_id topic ncs st :
  ncs ≠ [] → picks publisher_id ncs (shared_choice strategy group publisher_id topic ncs st).1.
Proof.
  intros Hne. destruct ncs as [|n ncs']; [done|].
  destruct strategy; unfold shared_choice; cbv iota beta.
  - by apply choice_random_picks.
  - by apply rotate_picks.
  - by apply rotate_picks.
  - by apply choice_sticky_picks.
  - by apply choice_local_picks.
  - by apply choice_hash_picks.
  - by apply choice_hash_picks.
Qed.

(** The law the router relies on. *)
Lemma shared_choice_ok strategy : @SharedSubscriptionOk State (shared_choice strategy).
Proof.
  intros group publisher topic ncs st Hne.
  destruct (strategy_picks strategy group publisher topic ncs st Hne) as (idx & c & E & Hc & _).
  unfold choice. destruct (shared_choice _ _ _ _ _ _) as [r st'] eqn:Er. simpl in E. subst r.
  exists idx, (existsb online ncs), st'. split; [done|]. by eapply lookup_lt_Some.
Qed.

(** ** Round robin *)

(** Successive choices; in each call the members of the group are those that
    [members] gives. *)
Abbreviation Call := (SharedGroup * Id * TopicName)%type.

Fixpoint serve (strategy : Strategy) (members : SharedGroup → list Candidate) (calls : list Call)
    (st : State) : list (SharedGroup * option (nat * bool)) :=
  match calls with
  | [] => []
  | (group, publisher, topic) :: calls =>
      let '(r, st) := shared_choice strategy group publisher topic (members group) st in
      (group, r) :: serve strategy members calls st
  end.

(** The choices made for one group. *)
Definition of_group (group : SharedGroup) (rs : list (SharedGroup * option (nat * bool)))
    : list (option (nat * bool)) :=
  omap (λ '(g, r), if bool_decide (g = group) then Some r else None) rs.

Lemma of_group_cons group g r rs :
  of_group group ((g, r) :: rs) = if bool_decide (g = group) then r :: of_group group rs else of_group group rs.
Proof. unfold of_group. simpl. by case_bool_decide. Qed.

Lemma seq_rotate (n s : nat) : (s < n)%nat →
  ((λ o, (s + o) mod n)%nat <$> seq 0 n) = seq s (n - s) ++ seq 0 s.
Proof.
  intros Hs. assert (seq 0 n = seq 0 (n - s) ++ seq (n - s) s) as ->.
  { change (seq (n - s) s) with (seq (0 + (n - s)) s). rewrite <- seq_app. f_equal. lia. }
  rewrite fmap_app. f_equal.
  - apply list_eq. intros i. rewrite list_lookup_fmap. destruct (decide (i < n - s)%nat).
    + rewrite !lookup_seq_lt by lia. simpl. f_equal. rewrite Nat.mod_small; lia.
    + by rewrite !lookup_seq_ge by lia.
  - apply list_eq. intros i. rewrite list_lookup_fmap. destruct (decide (i < s)%nat).
    + rewrite !lookup_seq_lt by lia. simpl. f_equal.
      replace (s + (n - s + i))%nat with (i + 1 * n)%nat by lia.
      rewrite Nat.Div0.mod_add. rewrite Nat.mod_small; lia.
    + by rewrite !lookup_seq_ge by lia.
Qed.

Lemma seq_rotate_perm (n s : nat) : (0 < n)%nat →
  ((λ o, (s + o) mod n)%nat <$> seq 0 n) ≡ₚ seq 0 n.
Proof.
  intros Hn. pose proof (Nat.mod_upper_bound s n ltac:(lia)) as Hs.
  rewrite (list_fmap_ext _ (λ o, ((s mod n) + o) mod n)%nat).
  2: { intros i x _. by rewrite Nat.Div0.add_mod_idemp_l. }
  rewrite seq_rotate by done. rewrite Permutation_app_comm, <- seq_app. f_equiv. lia.
Qed.

(** With every member online the scan stops where it starts. *)
Lemma rotate_online counter publisher_id ncs :
  ncs ≠ [] → (∀ c, c ∈ ncs → online c = true) →
  rotate counter publisher_id ncs = Some (Z.to_nat (counter mod len ncs), true).
Proof.
  intros Hne Hon. unfold rotate, scan. pose proof (start_lt counter ncs Hne) as Hs.
  set (s := Z.to_nat (counter mod len ncs)) in *.
  destruct (length ncs) as [|n] eqn:Hlen; [lia|].
  cbn [seq fmap list_fmap list_find]. rewrite Nat.add_0_r, Nat.mod_small by lia.
  destruct (lookup_lt_is_Some_2 ncs s) as [c Hc]; [lia|]. rewrite Hc. simpl.
  rewrite (Hon c) by (by apply list_elem_of_lookup_2 with s).
  by rewrite decide_True.
Qed.

Lemma to_nat_mod (c i : Z) (n : nat) : (0 < n)%nat → 0 ≤ c → 0 ≤ i →
  Z.to_nat ((c + i) mod Z.of_nat n) = ((Z.to_nat c + Z.to_nat i) mod n)%nat.
Proof. intros. rewrite <- Z2Nat.inj_add by lia. rewrite Z2Nat.inj_mod by lia. by rewrite Nat2Z.id. Qed.

Section Fair.
Context (members : SharedGroup → list Candidate) (group : SharedGroup).
Context (Hne : ∀ g, members g ≠ []) (Hon : ∀ c, c ∈ members group → online c = true).

(** The counter of [group] after a choice for [g]. *)
Definition bump (g : SharedGroup) (st : State) : State :=
  mkShared (rr_counter st)
    (<[g := wrapping_inc (default 0 (rr_group_counters st !! g))]> (rr_group_counters st))
    (sticky_map st) (rng st).

Lemma serve_per_group g p t calls st :
  serve RoundRobinPerGroup members ((g, p, t) :: calls) st
  = (g, rotate (default 0 (rr_group_counters st !! g)) p (members g))
    :: serve RoundRobinPerGroup members calls (bump g st).
Proof. simpl. specialize (Hne g). by destruct (members g). Qed.

Lemma per_group_sequence calls st c rs :
  default 0 (rr_group_counters st !! group) = c → (0 ≤ c)%Z →
  of_group group (serve RoundRobinPerGroup members calls st) = rs → (c + len rs ≤ 2 ^ 64)%Z →
  rs = (λ i, Some ((Z.to_nat c + i) mod length (members group), true)%nat) <$> seq 0 (length rs).
Proof.
  revert st c rs. induction calls as [|[[g p] t] calls IH]; intros st c rs Hc H0 <- Hlen; [done|].
  rewrite serve_per_group, of_group_cons in *. case_bool_decide as Eg.
  2: { eapply IH; [|done|done|done]. simpl. by rewrite lookup_insert_ne. }
  subst g. rewrite Hc in *. specialize (IH (bump group st) (wrapping_inc c)).
  remember (of_group group _) as rs' eqn:Er. rewrite len_cons in Hlen.
  rewrite rotate_online by done. cbn [length seq fmap list_fmap]. f_equal.
  - do 2 f_equal. rewrite Nat.add_0_r. pose proof (Hne group). unfold len.
    destruct (members group); [done|]. rewrite <- (Z.add_0_r c) at 1.
    rewrite to_nat_mod by (simpl; lia). f_equal. lia.
  - destruct rs' as [|r rs']; [done|]. rewrite len_cons in *. pose proof (len_nonneg rs').
    assert (wrapping_inc c = c + 1)%Z as Hw by (unfold wrapping_inc; rewrite Z.mod_small; lia).
    rewrite Hw in IH.
    rewrite (IH (r :: rs')) at 1; [|simpl; by rewrite lookup_insert_eq, Hc|lia|done|rewrite len_cons; lia].
    rewrite <- (fmap_S_seq 0), <- list_fmap_compose. apply list_fmap_ext. intros i x _. simpl.
    do 3 f_equal. lia.
Qed.
End Fair.

(** ** Sticky bindings *)

(** After a choice the binding is to the member that was chosen. *)
Lemma sticky_bound `{!LruCacheOk Cache} group publisher_id ncs st idx b c :
  ncs ≠ [] → (choice_sticky group publisher_id ncs st).1 = Some (idx, b) → ncs !! idx = Some c →
  (lru_get (group, id_client_id publisher_id)
     (sticky_map (choice_sticky group publisher_id ncs st).2)).1 = Some (c_client c).
Proof.
  intros Hne. unfold choice_sticky. set (key := (group, id_client_id publisher_id)).
  pose proof (lru_get_get key key (sticky_map st)) as Hgg.
  destruct (lru_get key (sticky_map st)) as [bound map]. simpl in Hgg.
  assert (∀ m, (bind_sticky key publisher_id ncs m).1 = Some (idx, b) → ncs !! idx = Some c →
               (lru_get key (bind_sticky key publisher_id ncs m).2).1 = Some (c_client c)) as Hbind.
  { intros m E Hc. destruct (bind_sticky_picks key publisher_id ncs m Hne) as (_ & i & b' & c' & E' & Hc' & ->).
    rewrite E' in E. injection E as -> ->. rewrite Hc in Hc'. injection Hc' as ->. apply lru_get_put. }
  destruct (bound ≫= _) as [[idx' c']|] eqn:E; simpl.
  - destruct (online c'); simpl.
    + intros [= -> <-] Hc. destruct bound as [cid|]; [simpl in E|done].
      apply list_find_Some in E as (Hc' & Hcid & _). rewrite Hc in Hc'. injection Hc' as ->.
      by rewrite Hgg, Hcid.
    + specialize (Hbind (lru_pop key map)). by destruct (bind_sticky _ _ _ (lru_pop key map)).
  - specialize (Hbind map). by destruct (bind_sticky _ _ _ map).
Qed.

Lemma sticky_follows group publisher_id ncs st cid idx c :
  (lru_get (group, id_client_id publisher_id) (sticky_map st)).1 = Some cid →
  list_find (λ c, c_client c = cid) ncs = Some (idx, c) → online c = true →
  (choice_sticky group publisher_id ncs st).1 = Some (idx, true).
Proof.
  intros Hb Hf Ho. unfold choice_sticky. destruct (lru_get _ _) as [bound map]. simpl in Hb. subst bound.
  simpl. by rewrite Hf, Ho.
Qed.

(** ** Properties *)

(** C33: every strategy serves a group that has members.  [choice] answers with
    the index of a member and whether it is online: an online one whenever there
    is one, with [Local] one on the publisher's node whenever an online one is
    there, with the hash strategies the one the hash selects whenever it is
    online; when all members are offline, one on the publisher's node whenever
    there is one. *)
Theorem strategies_serve strategy group publisher_id topic ncs st :
  ncs ≠ [] →
  ∃ idx c st',
    shared_choice strategy group publisher_id topic ncs st = (Some (idx, existsb online ncs), st') ∧
    ncs !! idx = Some c ∧ online c = existsb online ncs ∧
    ((existsb online ncs = false ∨ strategy = Local) →
     ∀ c', c' ∈ ncs → online c' = existsb online ncs → c_node c' = id_node_id publisher_id →
     c_node c = id_node_id publisher_id) ∧
    (∀ key c', strategy = HashClientId ∧ key = id_client_id publisher_id ∨
               strategy = HashTopic ∧ key = topic →
     ncs !! Z.to_nat (hash key mod len ncs) = Some c' → online c' = true → c = c').
Proof.
  intros Hne. destruct (strategy_picks strategy group publisher_id topic ncs st Hne)
    as (idx & c & E & Hc & Ho & Hl).
  destruct (shared_choice _ _ _ _ _ _) as [r st'] eqn:Er. simpl in E. subst r.
  exists idx, c, st'. do 3 (split; [done|]). destruct ncs as [|n ncs']; [done|]. split.
  - intros [Hoff | ->] c' Hc' Ho' Hn'; [by eapply Hl|].
    destruct (existsb online (n :: ncs')) eqn:Hex; [|by eapply Hl].
    unfold shared_choice in Er. injection Er as Er _. unfold choice_local in Er.
    destruct (list_find (λ c, _ ∧ _) _) as [[i d]|] eqn:Ef.
    + injection Er as ->. apply list_find_Some in Ef as (Hd & [Hn _] & _).
      rewrite Hc in Hd. by injection Hd as ->.
    + apply list_find_None in Ef. rewrite Forall_forall in Ef. by destruct (Ef c' Hc').
  - intros key c' Hk Hc' Ho'. unfold shared_choice in Er.
    destruct Hk as [[-> ->]|[-> ->]]; unfold choice_hash in Er; rewrite Hc' in Er; simpl in Er;
      rewrite Ho' in Er; injection Er as <- _ _; rewrite Hc in Hc'; by injection Hc'.
Qed.

(** The per-group round robin is fair.  While all [n] members of a group
    are online, any [n] successive choices for the group take each member
    exactly once, in whatever way choices for other groups come in between, as
    long as the group's counter does not wrap around. *)
Theorem round_robin_fair members group calls st rs i :
  (∀ g, members g ≠ []) → (∀ c, c ∈ members group → online c = true) →
  0 ≤ default 0 (rr_group_counters st !! group) →
  of_group group (serve RoundRobinPerGroup members calls st) = rs →
  default 0 (rr_group_counters st !! group) + len rs ≤ 2 ^ 64 →
  (i + length (members group) ≤ length rs)%nat →
  take (length (members group)) (drop i rs)
  ≡ₚ (λ k, Some (k, true)) <$> seq 0 (length (members group)).
Proof.
  intros Hne Hon H0 Hrs Hlen Hi.
  rewrite (per_group_sequence members group Hne Hon calls st _ rs eq_refl H0 Hrs Hlen).
  set (c := Z.to_nat _). set (n := length (members group)) in *.
  assert (0 < n)%nat by (subst n; pose proof (Hne group); destruct (members group); simpl; [done|lia]).
  rewrite <- fmap_drop, <- fmap_take, drop_seq, take_seq, Nat.min_l by lia.
  replace (0 + i)%nat with i by lia.
  rewrite <- (seq_rotate_perm n (c + i)) by done. rewrite <- list_fmap_compose.
  apply reflexive_eq. replace (seq i n) with (seq (i + 0) n) by (by rewrite Nat.add_0_r).
  rewrite <- (fmap_add_seq i 0 n).
  rewrite <- list_fmap_compose. apply list_fmap_ext. intros j x _. simpl. do 3 f_equal. lia.
Qed.

(** A publisher keeps its subscriber: once a choice was made for a publisher and
    a group, the next ones pick the same client, wherever it is now in the list,
    while it is online and the cache has not dropped the binding. *)
Theorem sticky_keeps `{!LruCacheOk Cache} group publisher_id ncs1 ncs2 topic1 topic2 st1 st2 idx1 b c1 idx2 c2 :
  (shared_choice Sticky group publisher_id topic1 ncs1 st1).1 = Some (idx1, b) →
  ncs1 !! idx1 = Some c1 →
  (lru_get (group, id_client_id publisher_id) (sticky_map st2)).1
  = (lru_get (group, id_client_id publisher_id)
       (sticky_map (shared_choice Sticky group publisher_id topic1 ncs1 st1).2)).1 →
  list_find (λ c, c_client c = c_client c1) ncs2 = Some (idx2, c2) → online c2 = true →
  (shared_choice Sticky group publisher_id topic2 ncs2 st2).1 = Some (idx2, true).
Proof.
  intros E Hc1 Hb Hf Ho. destruct ncs1 as [|n1 ncs1]; [done|].
  unfold shared_choice in E, Hb.
  rewrite (sticky_bound group publisher_id (n1 :: ncs1) st1 idx1 b c1) in Hb; [|done..].
  destruct ncs2 as [|n2 ncs2]; [done|]. unfold shared_choice. by eapply sticky_follows.
Qed.
End Strategies.

(** ** A cache that meets the laws

    The entries with the most recently used first, at most [1 + cap] of them. *)
Section ListLru.
Context (cap : nat).

Definition find_key (k : StickyKey) (c : list (StickyKey * ClientId)) : option ClientId :=
  (λ e : nat * (StickyKey * ClientId), e.2.2) <$> list_find (λ e, e.1 = k) c.

#[local] Instance list_lru : LruCache (list (StickyKey * ClientId)) := {
  lru_get k c := match find_key k c with
                 | Some v => (Some v, (k, v) :: filter (λ e, e.1 ≠ k) c)
                 | None => (None, c)
                 end;
  lru_put k v c := take (S cap) ((k, v) :: filter (λ e, e.1 ≠ k) c);
  lru_pop k c := filter (λ e, e.1 ≠ k) c;
}.

Lemma find_key_cons k k' v c : find_key k ((k', v) :: c) = if decide (k' = k) then Some v else find_key k c.
Proof.
  unfold find_key. simpl. destruct (decide (k' = k)); simpl; [done|].
  by destruct (list_find _ c) as [[? []]|].
Qed.

Lemma find_key_filter k k' c :
  find_key k (filter (λ e, e.1 ≠ k') c) = if decide (k = k') then None else find_key k c.
Proof.
  induction c as [|[q v] c IH]; [by destruct (decide (k = k'))|]. rewrite filter_cons. simpl.
  destruct (decide (q ≠ k')) as [Hq|Hq]; rewrite ?find_key_cons, IH.
  - destruct (decide (q = k)) as [->|]; [by rewrite decide_False|done].
  - apply dec_stable in Hq as ->. destruct (decide (k = k')) as [->|]; [done|].
    by rewrite decide_False.
Qed.

Lemma list_lru_ok : LruCacheOk (list (StickyKey * ClientId)).
Proof.
  assert (∀ k c, (lru_get k c).1 = find_key k c) as Hg.
  { intros k c. simpl. by destruct (find_key k c). }
  split; intros; rewrite !Hg; simpl.
  - rewrite find_key_cons. by rewrite decide_True.
  - destruct (find_key k' c) as [v|] eqn:E; simpl; [|done].
    rewrite find_key_cons, find_key_filter. repeat case_decide; congruence.
  - rewrite find_key_filter. by rewrite decide_True.
Qed.
End ListLru.

(** ** Witnesses *)

Definition ex_member (node : Z) (client : str) (o : option bool) : Candidate :=
  (node, client, SubV3 (mkSubOptionsV3 AtMostOnce (Some [103]) None), None, o).
Definition ex_publisher : Id := id_from 0 2 [112].
(** A generator that counts. *)
Definition ex_random (r : Z) : Z * Z := (r, r + 1).
Definition ex_hash (s : str) : Z := foldr Z.add 0 s.
Definition ex_state : SharedState (list (StickyKey * ClientId)) Z := mkShared 0 ∅ [] 0.
Definition ex_ncs : list Candidate :=
  [ex_member 1 [97] (Some false); ex_member 1 [98] None; ex_member 2 [99] (Some true)].
Definition ex_online : NodeId → ClientId → bool := λ _ _, true.

Lemma strategies_serve_witness :
  ex_ncs ≠ [] ∧
  ∃ idx c st',
    @shared_choice _ _ (list_lru 7) ex_random ex_hash ex_online Local [103] ex_publisher [116] ex_ncs ex_state
    = (Some (idx, true), st') ∧ ex_ncs !! idx = Some c ∧ c_node c = 2.
Proof.
  split; [done|].
  destruct (@strategies_serve _ _ (list_lru 7) ex_random ex_hash ex_online Local [103] ex_publisher [116]
              ex_ncs ex_state ltac:(done)) as (idx & c & st' & E & Hc & _ & Hl & _).
  exists idx, c, st'. split; [exact E|]. split; [exact Hc|].
  apply (Hl (or_intror eq_refl) (ex_member 2 [99] (Some true))); [|reflexivity|reflexivity].
  apply (list_elem_of_lookup_2 _ 2). reflexivity.
Defined.

(** Two groups of two members that are all online, asked in turn. *)
Definition ex_pair : list Candidate := [ex_member 1 [97] (Some true); ex_member 2 [98] (Some true)].
Definition ex_calls : list (SharedGroup * Id * TopicName) :=
  [([103], ex_publisher, [116]); ([104], ex_publisher, [116]); ([103], ex_publisher, [116]);
   ([104], ex_publisher, [116]); ([103], ex_publisher, [116]); ([104], ex_publisher, [116])].

Lemma round_robin_fair_witness :
  take 2 (drop 1 (of_group [103] (@serve _ _ (list_lru 7) ex_random ex_hash ex_online
                                    RoundRobinPerGroup (λ _, ex_pair) ex_calls ex_state)))
  ≡ₚ [Some (0%nat, true); Some (1%nat, true)].
Proof.
  apply (@round_robin_fair _ _ (list_lru 7) ex_random ex_hash ex_online (λ _, ex_pair) [103] ex_calls
           ex_state _ 1).
  - done.
  - intros c [->|[->|[]%not_elem_of_nil]%elem_of_cons]%elem_of_cons; reflexivity.
  - reflexivity.
  - reflexivity.
  - vm_compute. congruence.
  - vm_compute. lia.
Defined.

(** The default strategy has one counter for all groups, and is not fair to
    each: when the messages of two groups of two members alternate, every
    message of the first goes to its first member and every message of the
    second to its second. *)
Example round_robin_starves :
  let rs := @serve _ _ (list_lru 7) ex_random ex_hash ex_online strategy_default (λ _, ex_pair) ex_calls ex_state in
  of_group [103] rs = [Some (0%nat, true); Some (0%nat, true); Some (0%nat, true)] ∧
  of_group [104] rs = [Some (1%nat, true); Some (1%nat, true); Some (1%nat, true)].
Proof. vm_compute. split; reflexivity. Qed.
