(* ===== verification/Acl.v ===== *)
(** * Access control rules

    Models [ferromq/src/acl.rs]: the rules a client carries after it was
    authenticated, the decision on a SUBSCRIBE and on a PUBLISH, the topics of
    rules with their placeholders, and the parser of rules; with the results of
    [types.rs] and [hook.rs] that a decision is made of.

    A [serde_json::Value] is a parameter, known by the accessors the parser calls
    (class [JsonValue]); nothing is assumed of them. *)

From stdpp Require Import base list numbers option gmap strings.
From Stdlib Require Import ZArith Lia.
From S2P Require Import Prelude Errors Wire CodecTypes MqttV3 PacketV5 Topic Trie BrokerTypes.

#[local] Open Scope Z_scope.

#[local] Instance outcome_bind {E} : MBind (outcome E) := λ A B f o,
  match o with Ok a => f a | Err e => Err e | Panic => Panic end.

(** ** Data *)

(** [ConnectInfo] *)
Inductive ConnectInfo : Type :=
| ConnV3 (id : Id) (c : MqttV3.Connect)
| ConnV5 (id : Id) (c : PacketV5.Connect).

Definition ci_id (ci : ConnectInfo) : Id :=
  match ci with ConnV3 id _ | ConnV5 id _ => id end.
Definition ci_client_id (ci : ConnectInfo) : ClientId :=
  match ci with ConnV3 id _ | ConnV5 id _ => id_client_id id end.
Definition ci_username (ci : ConnectInfo) : option str :=
  match ci with ConnV3 _ c => MqttV3.username c | ConnV5 _ c => c_username c end.
Definition ci_password (ci : ConnectInfo) : option bytes :=
  match ci with ConnV3 _ c => MqttV3.password c | ConnV5 _ c => c_password c end.

Inductive Permission : Type := Allow | Deny.
Inductive Action : Type := ActAll | ActPublish | ActSubscribe.

(** [acl::Topic] *)
Record AclTopic : Type := mkAclTopic {
  eq_topic_filter : option str;
  acl_topic_filter : option (list Level);
}.

Record Rule : Type := mkRule {
  permission : Permission;
  rule_action : Action;
  rule_qos : option (list QoS);
  rule_retain : option bool;
  rule_topic : AclTopic;
}.

Record AuthInfo : Type := mkAuthInfo {
  superuser : bool;
  expire_at : option Z;
  rules : list Rule;
}.

(** [PublishResult] and [PublishAclResult] *)
Record PublishResult : Type := mkPublishResult {
  pr_reason_code : PublishAckReason;
  pr_properties : UserProperties;
  pr_reason_string : option str;
  pr_disconnect : bool;
}.

Definition publish_result (reason_code : PublishAckReason) (reason_string : option str)
    (disconnect : bool) : PublishResult := mkPublishResult reason_code [] reason_string disconnect.

Definition acl_allow : PublishResult := publish_result PASuccess None false.

Definition acl_rejected (disconnect : bool) (reason_string : option str) : PublishResult :=
  publish_result PANotAuthorized (Some (default (lit "PublishRefused") reason_string)) disconnect.

Definition is_allow (r : PublishResult) : bool :=
  match pr_reason_code r with PASuccess => true | _ => false end.

Definition is_rejected (r : PublishResult) : bool := negb (is_allow r).

Inductive AuthResult : Type :=
| AuthAllow (superuser : bool) (info : option AuthInfo)
| AuthNotFound
| AuthBadUsernameOrPassword
| AuthNotAuthorized.

(** [ConnectAckReason] of the broker: the reason of either protocol. *)
Inductive ConnAckReason : Type :=
| AckV3 (r : MqttV3.ConnectAckReason)
| AckV5 (r : PacketV5.ConnectAckReason).

(** [HookResult], without the reply to a message between nodes. *)
Inductive HookResult : Type :=
| HRUserProperties (props : UserProperties)
| HRAuthResult (r : AuthResult)
| HRConnectAckReason (r : ConnAckReason)
| HRTopicFilter (tf : option TopicFilter)
| HRSubscribeAclResult (r : SubscribeReturn)
| HRPublishAclResult (r : PublishResult)
| HRPublish (p : BrokerTypes.Publish)
| HRMessageExpiry.

(** [ReturnType]: whether later handlers run, and the result so far. *)
Abbreviation ReturnType := (bool * option HookResult)%type.

(** ** Decisions *)

Definition is_expired (now : Z) (a : AuthInfo) : bool :=
  default false ((λ exp, exp <? now) <$> expire_at a).

Definition acl_is_match (t : AclTopic) (topic : str) : bool :=
  match eq_topic_filter t with
  | Some f => bool_decide (f = topic)
  | None => match acl_topic_filter t with Some f => matches_str f topic | None => false end
  end.

Definition qos_hit (rule : Rule) (q : QoS) : bool :=
  default true ((λ qs, bool_decide (q ∈ qs)) <$> rule_qos rule).

Definition subscribe_hit (rule : Rule) (sub : Subscribe) : bool :=
  if negb (match rule_action rule with ActSubscribe | ActAll => true | _ => false end) then false
  else if negb (qos_hit rule (opts_qos (s_opts sub))) then false
  else if negb (acl_is_match (rule_topic rule) (s_topic_filter sub)) then false
  else true.

Definition publish_hit (rule : Rule) (p : CodecTypes.Publish) : bool :=
  if negb (match rule_action rule with ActPublish | ActAll => true | _ => false end) then false
  else if negb (qos_hit rule (qos p)) then false
  else if negb (acl_is_match (rule_topic rule) (CodecTypes.topic p)) then false
  else true.

Definition publish_allow_hit (rule : Rule) (p : CodecTypes.Publish) : bool :=
  if match rule_retain rule with Some r => negb r && retain p | None => false end then false
  else publish_hit rule p.

Definition publish_deny_hit (rule : Rule) (p : CodecTypes.Publish) : bool :=
  if match rule_retain rule with Some r => negb (Bool.eqb r (retain p)) | None => false end then false
  else publish_hit rule p.

Fixpoint subscribe_rules (rs : list Rule) (sub : Subscribe) : option ReturnType :=
  match rs with
  | [] => None
  | rule :: rs =>
      if negb (subscribe_hit rule sub) then subscribe_rules rs sub
      else match permission rule with
           | Allow => Some (false, Some (HRSubscribeAclResult (new_success (opts_qos (s_opts sub)) None)))
           | Deny => Some (false, Some (HRSubscribeAclResult (new_failure SANotAuthorized)))
           end
  end.

(** [AuthInfo::subscribe_acl] *)
Definition subscribe_acl (a : AuthInfo) (sub : Subscribe) : option ReturnType :=
  if superuser a then
    Some (false, Some (HRSubscribeAclResult (new_success (opts_qos (s_opts sub)) None)))
  else subscribe_rules (rules a) sub.

Fixpoint publish_rules (rs : list Rule) (p : CodecTypes.Publish) (disconnect_if_pub_rejected : bool)
    : option ReturnType :=
  match rs with
  | [] => None
  | rule :: rs =>
      match permission rule with
      | Allow =>
          if publish_allow_hit rule p then Some (false, Some (HRPublishAclResult acl_allow))
          else publish_rules rs p disconnect_if_pub_rejected
      | Deny =>
          if publish_deny_hit rule p then
            Some (false, Some (HRPublishAclResult (acl_rejected disconnect_if_pub_rejected None)))
          else publish_rules rs p disconnect_if_pub_rejected
      end
  end.

(** [AuthInfo::publish_acl] *)
Definition publish_acl (a : AuthInfo) (p : CodecTypes.Publish) (disconnect_if_pub_rejected : bool)
    : option ReturnType :=
  if superuser a then Some (false, Some (HRPublishAclResult acl_allow))
  else publish_rules (rules a) p disconnect_if_pub_rejected.

(** ** Parsing rules *)

Inductive AclError : Type :=
| RuleConfig
| TopicConfig (topic_cfg : str)
| UnknownPermission
| UnknownAction
| UnknownQoS
| QoSError (e : DecodeError)
| NoUsername
| BadTopic (e : TopicError).

(** [s.contains(p)] and [s.replace(p, to)] for a pattern that is not empty. *)
Fixpoint str_contains (p s : str) : bool :=
  is_some (strip_prefix p s) || match s with [] => false | _ :: s => str_contains p s end.

Fixpoint replace_loop (fuel : nat) (p to s : str) : str :=
  match fuel with
  | O => s
  | S fuel =>
      match strip_prefix p s with
      | Some rest => to ++ replace_loop fuel p to rest
      | None => match s with [] => [] | c :: s => c :: replace_loop fuel p to s end
      end
  end.
Definition replace (p to s : str) : str := replace_loop (length s) p to s.

Definition PLACEHOLDER_USERNAME : str := lit "${username}".
Definition PLACEHOLDER_CLIENTID : str := lit "${clientid}".

Definition replaces (topic_cfg : str) (connect_info : ConnectInfo) : outcome AclError str :=
  match str_contains PLACEHOLDER_USERNAME topic_cfg, str_contains PLACEHOLDER_CLIENTID topic_cfg with
  | true, true =>
      match ci_username connect_info with
      | Some username =>
          Ok (replace PLACEHOLDER_CLIENTID (ci_client_id connect_info)
                (replace PLACEHOLDER_USERNAME username topic_cfg))
      | None => Err NoUsername
      end
  | true, false =>
      match ci_username connect_info with
      | Some username => Ok (replace PLACEHOLDER_USERNAME username topic_cfg)
      | None => Err NoUsername
      end
  | false, true => Ok (replace PLACEHOLDER_CLIENTID (ci_client_id connect_info) topic_cfg)
  | false, false => Ok topic_cfg
  end.

(** [TryFrom<(&str, &ConnectInfo)> for Topic] *)
Definition acl_topic_try_from (topic_cfg : str) (connect_info : ConnectInfo)
    : outcome AclError AclTopic :=
  match strip_prefix (lit "eq ") topic_cfg with
  | Some stripped => t ← replaces stripped connect_info; Ok (mkAclTopic (Some t) None)
  | None =>
      if bool_decide (topic_cfg = []) then Err (TopicConfig topic_cfg)
      else t ← replaces topic_cfg connect_info;
           match topic_from_str t with
           | Ok f => Ok (mkAclTopic None (Some f))
           | Err e => Err (BadTopic e)
           | Panic => Panic
           end
  end.

Definition permission_try_from (s : str) : outcome AclError Permission :=
  if bool_decide (s = lit "allow") then Ok Allow
  else if bool_decide (s = lit "deny") then Ok Deny
  else Err UnknownPermission.

Definition action_try_from (s : str) : outcome AclError Action :=
  if bool_decide (s = lit "all") then Ok ActAll
  else if bool_decide (s = lit "publish") then Ok ActPublish
  else if bool_decide (s = lit "subscribe") then Ok ActSubscribe
  else Err UnknownAction.

Class JsonValue (Value : Type) := {
  as_object : Value → option (str → option Value);
  as_str : Value → option str;
  as_array : Value → option (list Value);
  as_u64 : Value → option Z;
  as_bool : Value → option bool;
}.

Definition acl_qos (q : Z) : outcome AclError QoS :=
  match qos_try_from (as_u8 q) with Ok q => Ok q | Err e => Err (QoSError e) | Panic => Panic end.

Section Parse.
Context {Value : Type} `{!JsonValue Value}.

(** [flat_map] keeps the numbers: an element that is none is an [Err], which
    iterates over nothing. *)
Definition rule_qos_from (v : Value) : outcome AclError (list QoS) :=
  match as_array v with
  | Some qs => map_results acl_qos (omap as_u64 qs)
  | None => match as_u64 v with
            | Some q => q ← acl_qos q; Ok [q]
            | None => Err UnknownQoS
            end
  end.

(** [TryFrom<(&serde_json::Value, &ConnectInfo)> for Rule] *)
Definition rule_try_from (acl_cfg : Value) (connect_info : ConnectInfo) : outcome AclError Rule :=
  match as_object acl_cfg with
  | Some obj =>
      permission ← match obj (lit "permission") ≫= as_str with
                   | Some s => permission_try_from s | None => Err RuleConfig end;
      action ← match obj (lit "action") ≫= as_str with
               | Some s => action_try_from s | None => Err RuleConfig end;
      qos ← match obj (lit "qos") with
            | Some v => qs ← rule_qos_from v; Ok (Some qs)
            | None => Ok None
            end;
      let retain := obj (lit "retain") ≫= as_bool in
      topic ← match obj (lit "topic") ≫= as_str with
              | Some t => acl_topic_try_from t connect_info | None => Err RuleConfig end;
      Ok (mkRule permission action qos retain topic)
  | None => Err RuleConfig
  end.
End Parse.

(** ** What a rule lets through *)

(** No [+] of the first filter stands over a [#] of the second. *)
Definition no_plus_over_hash (f g : list Level) : Prop :=
  ∀ i, f !! i = Some SingleWildcard → g !! i ≠ Some MultiWildcard.

Lemma filter_matches_nil f : filter_matches f [] = true → f = [] ∨ f = [MultiWildcard].
Proof. destruct f as [|l f]; [by left|]. destruct l, f; try done. by right. Qed.

(** Apart from that, a filter that matches another one as a string matches all
    that the other one matches. *)
Lemma filter_matches_trans f g t :
  Forall level_canon f → placed f → Forall level_canon g → placed g → no_plus_over_hash f g →
  filter_matches f (map level_to_string g) = true → filter_matches g t = true →
  filter_matches f t = true.
Proof.
  revert g t. induction f as [|l f IH]; intros g t Hf Pf Hg Pg Hno Hfg Hgt.
  { destruct g; [|done]. by destruct t. }
  apply Forall_cons_iff in Hf as [Hl Hf]. apply placed_cons in Pf as (Hlast & Pf & _).
  destruct (decide (l = MultiWildcard)) as [->|Hmw]; [by rewrite Hlast|].
  destruct g as [|x g].
  { simpl in Hfg. by destruct l, f. }
  apply Forall_cons_iff in Hg as [Hx Hg]. apply placed_cons in Pg as (Hxlast & Pg & _).
  assert (no_plus_over_hash f g) as Hno' by (intros i; apply (Hno (S i))).
  destruct (decide (l = SingleWildcard)) as [->|Hsw].
  - assert (x ≠ MultiWildcard) as Hxm by (intros ->; by apply (Hno 0%nat)).
    simpl in Hfg. destruct t as [|y t].
    { apply filter_matches_nil in Hgt as [?|[= ? ?]]; by subst. }
    simpl. apply (IH g t); try done.
    by destruct x; simpl in Hgt; try (apply andb_true_iff in Hgt as [_ Hgt]).
  - assert (level_to_string l = level_to_string x ∧ filter_matches f (map level_to_string g) = true)
      as [E Hfg'].
    { destruct l; try done; simpl in Hfg; apply andb_true_iff in Hfg as [E%bool_decide_eq_true Hfg];
        by split. }
    apply level_to_string_inj in E; [|done..]. subst x.
    destruct t as [|y t].
    { apply filter_matches_nil in Hgt as [?|[= ? ?]]; by subst. }
    assert (level_to_string l = y ∧ filter_matches g t = true) as [<- Hgt'].
    { destruct l; try done; simpl in Hgt; apply andb_true_iff in Hgt as [E%bool_decide_eq_true Hgt];
        by split. }
    specialize (IH g t Hf Pf Hg Pg Hno' Hfg' Hgt').
    destruct l; try done; simpl; by rewrite IH, bool_decide_true.
Qed.

Lemma canon_valid f : topic_canon f → topic_is_valid f = true.
Proof.
  intros (_ & [Hc _]%Forall_and & Hp). apply topic_is_valid_spec. split; [|done].
  eapply Forall_impl; [exact Hc|]. by intros l [? _].
Qed.

(** A canonical level is a metadata level exactly when its string starts with [$]. *)
Lemma metadata_string l : level_canon l → is_metadata (level_to_string l) = level_is_metadata l.
Proof.
  intros [Hv _]. unfold is_metadata. destruct l as [s|s| | |]; simpl in *; try done;
    apply andb_true_iff in Hv as [Hv _]; [by apply negb_true_iff|done].
Qed.

Lemma split_canon g : topic_canon g → split SLASH (topic_to_string g) = map level_to_string g.
Proof.
  intros (Hne & [_ Hs]%Forall_and & _). rewrite topic_to_string_join.
  apply split_join; [by destruct g|by rewrite Forall_map].
Qed.

(** The quirk of [matches_str]: a leading [+] looks through a leading [$]. *)
Definition plus_over_dollar (f g : list Level) : Prop :=
  head f = Some SingleWildcard ∧ is_metadata (topic_to_string g) = true.

Lemma matches_str_mqtt f g :
  topic_canon f → topic_canon g → ¬ plus_over_dollar f g →
  matches_str f (topic_to_string g) = mqtt_matches f (map level_to_string g).
Proof.
  intros Hf Hg Hq. rewrite matches_str_exact.
  - rewrite split_canon by done. destruct (is_metadata (topic_to_string g)) eqn:Hm; simpl; [|done].
    rewrite bool_decide_false; [done|]. intros ?. by apply Hq.
  - by apply canon_valid.
  - rewrite split_canon by done. destruct Hg as (_ & [Hc _]%Forall_and & Hp).
    destruct g as [|l g]; [done|]. apply placed_cons in Hp as (_ & _ & Hmeta).
    apply Forall_cons_iff in Hc as [_ Hc]. simpl. rewrite Forall_map.
    rewrite Forall_forall in Hmeta, Hc |- *. intros x Hx. rewrite metadata_string by auto. auto.
Qed.

(** A filter that matches another filter's text covers it. *)
Lemma matches_str_covers f g t :
  topic_canon f → topic_canon g → no_plus_over_hash f g → ¬ plus_over_dollar f g →
  matches_str f (topic_to_string g) = true →
  mqtt_matches g t = true → mqtt_matches f t = true.
Proof.
  intros Hf Hg Hno Hq. rewrite matches_str_mqtt by done.
  destruct Hf as (Hfne & [Hfc _]%Forall_and & Pf), Hg as (Hgne & [Hgc _]%Forall_and & Pg).
  destruct f as [|l f]; [done|]. destruct g as [|m g]; [done|].
  cbn [map mqtt_matches]. intros [Hsh Hfg]%andb_true_iff Hgt.
  assert (filter_matches (m :: g) t = true) as Hgt'.
  { destruct t; [done|]. cbn [mqtt_matches] in Hgt. by apply andb_true_iff in Hgt as [_ ?]. }
  pose proof (filter_matches_trans (l :: f) (m :: g) t Hfc Pf Hgc Pg Hno Hfg Hgt') as Hft.
  destruct t as [|x t]; [done|]. cbn [mqtt_matches] in Hgt |- *. rewrite Hft, andb_true_r.
  apply andb_true_iff in Hgt as [Hgs _]. apply negb_true_iff in Hsh, Hgs. apply negb_true_iff.
  destruct (is_wildcard l) eqn:Hl; [|done]. simpl in *.
  destruct (is_metadata x) eqn:Hx; [|done]. rewrite andb_true_r in Hgs.
  assert (level_to_string m = x) as Hm.
  { destruct m; try done; simpl in Hgt'; by apply andb_true_iff in Hgt' as [?%bool_decide_eq_true _]. }
  congruence.
Qed.

(** *** The first rule that is hit decides *)

Lemma subscribe_rules_find rs sub :
  subscribe_rules rs sub =
  (λ '(_, rule), (false, Some (HRSubscribeAclResult
     match permission rule with
     | Allow => new_success (opts_qos (s_opts sub)) None
     | Deny => new_failure SANotAuthorized
     end))) <$> list_find (λ rule, subscribe_hit rule sub = true) rs.
Proof.
  induction rs as [|rule rs IH]; [done|]. cbn [subscribe_rules list_find].
  destruct (subscribe_hit rule sub) eqn:Hh; cbn [negb].
  - rewrite decide_True by done. simpl. by destruct (permission rule).
  - rewrite decide_False by done. rewrite IH. by destruct (list_find _ rs) as [[]|].
Qed.

Definition decides (rule : Rule) (p : CodecTypes.Publish) : bool :=
  match permission rule with Allow => publish_allow_hit rule p | Deny => publish_deny_hit rule p end.

Lemma publish_rules_find rs p disconnect :
  publish_rules rs p disconnect =
  (λ '(_, rule), (false, Some (HRPublishAclResult
     match permission rule with Allow => acl_allow | Deny => acl_rejected disconnect None end)))
  <$> list_find (λ rule, decides rule p = true) rs.
Proof.
  induction rs as [|rule rs IH]; [done|].
  transitivity (if decides rule p then
                  Some (false, Some (HRPublishAclResult
                    match permission rule with Allow => acl_allow | Deny => acl_rejected disconnect None end))
                else publish_rules rs p disconnect).
  { cbn [publish_rules]. unfold decides. by destruct (permission rule). }
  rewrite IH. cbn [list_find]. destruct (decides rule p) eqn:Hd.
  - by rewrite decide_True.
  - rewrite decide_False by done. by destruct (list_find _ rs) as [[]|].
Qed.

(** ** Properties *)

(** What the parser guarantees of a rule's topic. *)
Definition rule_ok (rule : Rule) : Prop :=
  match rule_topic rule with
  | mkAclTopic (Some _) None => True
  | mkAclTopic None (Some f) => topic_canon f
  | _ => False
  end.

Lemma rule_try_from_ok {Value} `{!JsonValue Value} (v : Value) ci rule :
  rule_try_from v ci = Ok rule → rule_ok rule.
Proof.
  unfold rule_try_from. destruct (as_object v) as [obj|]; [|done].
  unfold mbind, outcome_bind.
  repeat match goal with |- context [match ?m with Ok _ => _ | Err _ => _ | Panic => _ end] =>
    lazymatch m with
    | context [acl_topic_try_from] => fail
    | _ => destruct m; [|done..]
    end
  end.
  destruct (option_bind _ _ _ _) as [t|]; [|done].
  unfold acl_topic_try_from, mbind, outcome_bind.
  destruct (strip_prefix _ _).
  - by destruct (replaces _ _); [intros [= <-]|..].
  - case_bool_decide; [done|]. destruct (replaces t ci) as [s| |]; [|done..].
    destruct (topic_from_str s) as [f| |] eqn:Hf; [intros [= <-]|done..].
    by apply topic_from_str_spec in Hf as [? _].
Qed.

Lemma subscribe_hit_match rule sub :
  subscribe_hit rule sub = true → acl_is_match (rule_topic rule) (s_topic_filter sub) = true.
Proof. unfold subscribe_hit. destruct (acl_is_match _ _); [done|]. by repeat case_match. Qed.

(** What an accepted subscription lets a client see.  When the rules of a
    client who is no superuser accept a SUBSCRIBE, the first rule that is hit
    allows it, at the QoS that was asked for; and every topic the subscription
    matches is matched by the topic of that rule, unless a [+] of the rule
    stands over a [#] of the subscription or a leading [+] over a leading [$]. *)
Theorem subscribe_acl_contained a sub g r q :
  superuser a = false → Forall rule_ok (rules a) → topic_from_str (s_topic_filter sub) = Ok g →
  subscribe_acl a sub = Some (false, Some (HRSubscribeAclResult r)) → success r = Some q →
  ∃ i rule,
    rules a !! i = Some rule ∧ permission rule = Allow ∧ q = opts_qos (s_opts sub) ∧
    subscribe_hit rule sub = true ∧
    (∀ j rule', rules a !! j = Some rule' → (j < i)%nat → subscribe_hit rule' sub = false) ∧
    match acl_topic_filter (rule_topic rule) with
    | Some f =>
        no_plus_over_hash f g → ¬ plus_over_dollar f g →
        ∀ t, mqtt_matches g (split SLASH t) = true → mqtt_matches f (split SLASH t) = true
    | None => eq_topic_filter (rule_topic rule) = Some (s_topic_filter sub)
    end.
Proof.
  intros Hsu Hok [Hg Hstr]%topic_from_str_spec. unfold subscribe_acl. rewrite Hsu, subscribe_rules_find.
  intros ([i rule] & Hfind & [= ->])%fmap_Some Hq.
  apply list_find_Some in Hfind as (Hrule & Hhit & Hfirst).
  exists i, rule. destruct (permission rule) eqn:Hperm; [|done].
  rewrite new_success_success in Hq. injection Hq as <-.
  do 4 (split; [done|]). split.
  { intros j rule' Hj Hlt. by apply not_true_iff_false, Hfirst with j. }
  rewrite Forall_lookup in Hok. specialize (Hok i rule Hrule). unfold rule_ok in Hok.
  apply subscribe_hit_match in Hhit. unfold acl_is_match in Hhit.
  destruct (rule_topic rule) as [[e|] [f|]]; simpl in *; try done.
  - by apply bool_decide_eq_true in Hhit as ->.
  - intros Hno Hd t. apply matches_str_covers; try done. by rewrite Hstr.
Qed.

Definition ex_sub (f : str) : Subscribe :=
  mkSubscribe f (SubV3 (mkSubOptionsV3 AtLeastOnce None None)).
Definition ex_rule (perm : Permission) (f : list Level) : Rule :=
  mkRule perm ActSubscribe None None (mkAclTopic None (Some f)).
(** [deny a/b/#], [allow a/+/c] *)
Definition ex_auth : AuthInfo :=
  mkAuthInfo false None
    [ex_rule Deny [Normal (lit "a"); Normal (lit "b"); MultiWildcard];
     ex_rule Allow [Normal (lit "a"); SingleWildcard; Normal (lit "c")]].

Lemma ex_auth_ok : Forall rule_ok (rules ex_auth).
Proof.
  constructor; [|constructor; [|constructor]].
  - by apply (topic_from_str_spec (lit "a/b/#")).
  - by apply (topic_from_str_spec (lit "a/+/c")).
Qed.

Lemma subscribe_acl_contained_witness :
  mqtt_matches [Normal (lit "a"); SingleWildcard; Normal (lit "c")] (split SLASH (lit "a/x/c")) = true.
Proof.
  destruct (subscribe_acl_contained ex_auth (ex_sub (lit "a/+/c"))
              [Normal (lit "a"); SingleWildcard; Normal (lit "c")]
              (new_success AtLeastOnce None) AtLeastOnce eq_refl ex_auth_ok
              ltac:(vm_compute; reflexivity) ltac:(vm_compute; reflexivity) eq_refl)
    as (i & rule & Hi & Hp & _ & _ & _ & Hm).
  destruct i as [|[|i]]; [| |vm_compute in Hi; discriminate]; injection Hi as <-; [discriminate|].
  simpl in Hm. apply Hm.
  - intros [|[|[|i]]]; simpl; congruence.
  - intros [? _]. discriminate.
  - vm_compute. reflexivity.
Defined.

(** The first exception is real: a rule for one level below [a] accepts the
    subscription to everything below [a]. *)
Example plus_grants_hash :
  let a := mkAuthInfo false None [ex_rule Allow [Normal (lit "a"); SingleWildcard]] in
  subscribe_acl a (ex_sub (lit "a/#"))
  = Some (false, Some (HRSubscribeAclResult (new_success AtLeastOnce None))) ∧
  mqtt_matches [Normal (lit "a"); MultiWildcard] (split SLASH (lit "a/b/c")) = true ∧
  mqtt_matches [Normal (lit "a"); SingleWildcard] (split SLASH (lit "a/b/c")) = false.
Proof. by vm_compute. Qed.

(** So is the second: [+/#] accepts [$SYS/#]. *)
Example plus_grants_dollar :
  let a := mkAuthInfo false None [ex_rule Allow [SingleWildcard; MultiWildcard]] in
  subscribe_acl a (ex_sub (lit "$SYS/#"))
  = Some (false, Some (HRSubscribeAclResult (new_success AtLeastOnce None))) ∧
  mqtt_matches [SingleWildcard; MultiWildcard] (split SLASH (lit "$SYS/a")) = false.
Proof. by vm_compute. Qed.

(** The decision on a PUBLISH.  A superuser may publish.  For others the first
    rule that decides does: an allowing rule when action, QoS and topic agree
    and it does not exclude a retained message, a denying rule when moreover the
    retain flag is the one it names; a rule with [retain = false] never lets a
    retained message through, and when no rule decides the answer is left to
    others. *)
Theorem publish_acl_first a p disconnect :
  publish_acl a p disconnect =
    (if superuser a then Some (false, Some (HRPublishAclResult acl_allow))
     else (λ '(_, rule), (false, Some (HRPublishAclResult
             match permission rule with Allow => acl_allow | Deny => acl_rejected disconnect None end)))
          <$> list_find (λ rule, decides rule p = true) (rules a)) ∧
  (∀ rule, permission rule = Allow → rule_retain rule = Some false → retain p = true →
   decides rule p = false).
Proof.
  split; [unfold publish_acl; by rewrite publish_rules_find|].
  intros rule Hp Hr Ht. unfold decides, publish_allow_hit. by rewrite Hp, Hr, Ht.
Qed.

(** ** Placeholders *)

(** A client identifier with a wildcard turns the topic of a rule meant for one
    client into one for all. *)
Example placeholder_wildcard :
  let ci := ConnV3 (id_from 0 1 (lit "+")) (MqttV3.mkConnect default_protocol true 0 None [] None None None) in
  acl_topic_try_from (lit "dev/${clientid}/cmd") ci
  = Ok (mkAclTopic None (Some [Normal (lit "dev"); SingleWildcard; Normal (lit "cmd")])).
Proof. by vm_compute. Qed.

(** A QoS list with no number in it gives a rule that is never hit, so that a
    denying rule denies nothing. *)
Lemma qos_strings_ignored {Value} `{!JsonValue Value} (v : Value) qs :
  as_array v = Some qs → (∀ q, q ∈ qs → as_u64 q = None) → rule_qos_from v = Ok [].
Proof.
  intros Ha Hq. unfold rule_qos_from. rewrite Ha.
  replace (omap as_u64 qs) with (@nil Z); [done|]. symmetry.
  clear Ha. induction qs as [|q qs IH]; [done|]. simpl. rewrite Hq by by left.
  apply IH. intros q' ?. apply Hq. by right.
Qed.

Lemma empty_qos_never rule sub :
  rule_qos rule = Some [] → subscribe_hit rule sub = false.
Proof. intros Hq. unfold subscribe_hit, qos_hit. rewrite Hq. simpl. by destruct (rule_action rule). Qed.
