(* ===== verification/Alias.v ===== *)
(** * Topic aliases

    Models the two tables of topic aliases of [ferromq/src/types.rs]: that of
    the aliases the broker assigns to topics it sends on a connection
    ([ServerTopicAliases]) and that of the aliases a client has assigned
    ([ClientTopicAliases]); and [Sink::publish], which writes a message to an
    MQTT 5 connection.  One task owns a connection, so the two locks that [get]
    takes are not interleaved with another [get]. *)

From stdpp Require Import base list numbers option gmap strings.
From Stdlib Require Import ZArith Lia.
From S2P Require Import Prelude Errors Wire CodecTypes PacketV5 Topic BrokerTypes.

#[local] Open Scope Z_scope.

(** ** The tables *)

Record ServerTopicAliases : Type := mkServerAliases {
  sa_max_topic_aliases : Z;
  sa_aliases : gmap TopicName Z;
}.

Definition server_aliases_new (max_topic_aliases : Z) : ServerTopicAliases :=
  mkServerAliases max_topic_aliases ∅.

(** [ServerTopicAliases::get]: the topic, when it has to be written, and the
    alias; the [unreachable!()] is a panic. *)
Definition server_get (topic : TopicName) (s : ServerTopicAliases)
    : outcome unit (option TopicName * option Z) * ServerTopicAliases :=
  if sa_max_topic_aliases s =? 0 then (Ok (Some topic, None), s)
  else
    match sa_aliases s !! topic with
    | Some alias => (Ok (None, Some alias), s)
    | None =>
        let n := Z.of_nat (size (sa_aliases s)) in
        if sa_max_topic_aliases s <=? n then (Ok (Some topic, None), s)
        else
          let alias := as_u16 (n + 1) in
          if alias =? 0 then (Panic, s)
          else (Ok (Some topic, Some alias),
                mkServerAliases (sa_max_topic_aliases s) (<[topic := alias]> (sa_aliases s)))
    end.

Record ClientTopicAliases : Type := mkClientAliases {
  ca_max_topic_aliases : Z;
  ca_aliases : gmap Z TopicName;
}.

Definition client_aliases_new (max_topic_aliases : Z) : ClientTopicAliases :=
  mkClientAliases max_topic_aliases ∅.

(** All are [PublishAckReason::ImplementationSpecificError]. *)
Inductive AliasError : Type := AliasNotFound | TooManyAliases (limit : Z) | NoTopic.

(** [ClientTopicAliases::set_and_get] *)
Definition set_and_get (alias : option Z) (topic : TopicName) (c : ClientTopicAliases)
    : outcome AliasError TopicName * ClientTopicAliases :=
  match alias, topic with
  | Some alias, [] =>
      (match ca_aliases c !! alias with Some t => Ok t | None => Err AliasNotFound end, c)
  | Some alias, _ =>
      match ca_aliases c !! alias with
      | Some _ =>
          (Ok topic, mkClientAliases (ca_max_topic_aliases c) (<[alias := topic]> (ca_aliases c)))
      | None =>
          if ca_max_topic_aliases c <=? Z.of_nat (size (ca_aliases c))
          then (Err (TooManyAliases (ca_max_topic_aliases c)), c)
          else (Ok topic, mkClientAliases (ca_max_topic_aliases c) (<[alias := topic]> (ca_aliases c)))
      end
  | None, [] => (Err NoTopic, c)
  | None, _ => (Ok topic, c)
  end.

(** ** Writing a message *)

Definition set_expiry_alias (expiry alias : option Z) (pp : PublishProperties) : PublishProperties :=
  mkPublishProperties alias (correlation_data pp) expiry (content_type pp) (user_properties pp)
    (is_utf8_payload pp) (response_topic pp) (subscription_ids pp).

(** [Sink::publish] on an MQTT 5 connection: the packet that is sent. *)
Definition sink_publish (p : CodecTypes.Publish) (message_expiry_interval : option Z)
    (server_topic_aliases : option ServerTopicAliases)
    : outcome unit CodecTypes.Publish * option ServerTopicAliases :=
  let '(ta, sa) :=
    match server_topic_aliases with
    | Some sa => let '(r, sa) := server_get (topic p) sa in (r, Some sa)
    | None => (Ok (Some (topic p), None), None)
    end in
  match ta with
  | Ok (topic, alias) =>
      (Ok (CodecTypes.mkPublish (dup p) (retain p) (qos p) (default [] topic) (packet_id p) (payload p)
             (set_expiry_alias message_expiry_interval alias <$> properties p)), sa)
  | Err e => (Err e, sa)
  | Panic => (Panic, sa)
  end.

(** A connection: the packets written for a sequence of messages. *)
Fixpoint send_all (ps : list (CodecTypes.Publish * option Z)) (sa : option ServerTopicAliases)
    : list (outcome unit CodecTypes.Publish) :=
  match ps with
  | [] => []
  | (p, expiry) :: ps => let '(r, sa) := sink_publish p expiry sa in r :: send_all ps sa
  end.

(** The topics a peer with a table of aliases reads from them, as [_publish] of
    the session does. *)
Definition read_topic (p : CodecTypes.Publish) (c : ClientTopicAliases)
    : outcome AliasError TopicName * ClientTopicAliases :=
  set_and_get (properties p ≫= topic_alias) (topic p) c.

Fixpoint read_all (rs : list (outcome unit CodecTypes.Publish)) (c : ClientTopicAliases)
    : list (outcome AliasError TopicName) :=
  match rs with
  | [] => []
  | Ok p :: rs => let '(t, c) := read_topic p c in t :: read_all rs c
  | _ :: rs => Panic :: read_all rs c
  end.

(** ** The tables agree *)

(** The peer knows every alias of the broker, by the same topic; there are as
    many aliases as topics, numbered from one. *)
Definition synced (m : Z) (s : ServerTopicAliases) (c : ClientTopicAliases) : Prop :=
  sa_max_topic_aliases s = m ∧ ca_max_topic_aliases c = m ∧
  size (ca_aliases c) = size (sa_aliases s) ∧ Z.of_nat (size (sa_aliases s)) ≤ m ∧
  (∀ t a, sa_aliases s !! t = Some a → ca_aliases c !! a = Some t) ∧
  (∀ a t, ca_aliases c !! a = Some t → 1 ≤ a ≤ Z.of_nat (size (sa_aliases s))).

Lemma synced_new m : 0 ≤ m → synced m (server_aliases_new m) (client_aliases_new m).
Proof. intros. repeat split; try done; simpl; intros; by rewrite lookup_empty in *. Qed.

Lemma set_and_get_new alias topic c :
  topic ≠ [] → ca_aliases c !! alias = None →
  Z.of_nat (size (ca_aliases c)) < ca_max_topic_aliases c →
  set_and_get (Some alias) topic c
  = (Ok topic, mkClientAliases (ca_max_topic_aliases c) (<[alias := topic]> (ca_aliases c))).
Proof.
  intros Ht Hf Hl. unfold set_and_get. destruct topic; [done|]. rewrite Hf.
  by destruct (Z.leb_spec (ca_max_topic_aliases c) (Z.of_nat (size (ca_aliases c)))); [lia|].
Qed.

Lemma synced_send m s c p expiry :
  0 < m < 2 ^ 16 → synced m s c → topic p ≠ [] → is_some (properties p) = true →
  ∃ p' s' c', sink_publish p expiry (Some s) = (Ok p', Some s') ∧
              read_topic p' c = (Ok (topic p), c') ∧ synced m s' c'.
Proof.
  intros Hm (Hs & Hc & Hsize & Hle & Hsc & Hrange) Ht Hp.
  destruct (properties p) as [pp|] eqn:Epp; [|done].
  unfold sink_publish, server_get. rewrite Hs, Epp. destruct (Z.eqb_spec m 0) as [|_]; [lia|].
  destruct (sa_aliases s !! topic p) as [a|] eqn:Ha.
  { do 3 eexists. split; [done|]. unfold read_topic. cbn [properties topic topic_alias].
    simpl. rewrite (Hsc _ _ Ha). split; [done|]. by repeat split; try apply (Hrange _ _ H). }
  set (n := Z.of_nat (size (sa_aliases s))) in *.
  destruct (Z.leb_spec m n) as [Hmn|Hmn].
  { do 3 eexists. split; [done|]. unfold read_topic. simpl.
    destruct (topic p); [done|]. split; [done|]. by repeat split; try apply (Hrange _ _ H). }
  assert (as_u16 (n + 1) = n + 1) as -> by (unfold as_u16; rewrite Z.mod_small; lia).
  destruct (Z.eqb_spec (n + 1) 0) as [|_]; [lia|].
  assert (ca_aliases c !! (n + 1) = None) as Hfresh.
  { apply eq_None_not_Some. intros [t Hx]. apply Hrange in Hx. lia. }
  do 3 eexists. split; [done|]. unfold read_topic. cbn [properties topic fmap option_fmap option_map mbind
    option_bind set_expiry_alias topic_alias default]. rewrite set_and_get_new by (done || lia).
  split; [done|]. unfold synced. simpl. rewrite !map_size_insert_None by done.
  repeat split; try lia.
  - intros t a. rewrite lookup_insert_Some. intros [[<- <-]|[Hne Hx]].
    + by rewrite lookup_insert_eq.
    + pose proof (Hsc _ _ Hx) as Hy. rewrite lookup_insert_ne; [done|]. intros <-. congruence.
  - apply lookup_insert_Some in H as [[<- <-]|[Hne Hx]]; [lia|]. apply Hrange in Hx. lia.
  - apply lookup_insert_Some in H as [[<- <-]|[Hne Hx]]; [lia|]. apply Hrange in Hx. lia.
Qed.

(** Aliases are transparent.  Whatever messages the broker writes to an
    MQTT 5 connection whose peer keeps a table of the same size, each with its
    properties and a topic, and however many distinct topics there are, the peer
    reads the topic of each; no alias is out of range, none is reused and the
    peer's table is never full. *)
Theorem alias_roundtrip m ps :
  0 < m < 2 ^ 16 →
  Forall (λ '(p, _), topic p ≠ [] ∧ is_some (properties p) = true) ps →
  read_all (send_all ps (Some (server_aliases_new m))) (client_aliases_new m)
  = map (λ '(p, _), Ok (topic p)) ps.
Proof.
  intros Hm Hps. pose proof (synced_new m ltac:(lia)) as Hsync.
  revert Hsync. generalize (server_aliases_new m) as s, (client_aliases_new m) as c.
  induction Hps as [|[p expiry] ps [Ht Hp] _ IH]; intros s c Hsync; [done|].
  destruct (synced_send m s c p expiry Hm Hsync Ht Hp) as (p' & s' & c' & E & Er & Hsync').
  cbn [send_all map]. rewrite E. cbn [read_all]. rewrite Er. f_equal. by apply IH.
Qed.

Definition ex_message (t : str) : CodecTypes.Publish :=
  CodecTypes.mkPublish false false AtMostOnce t None [1]
    (Some (mkPublishProperties None None None None [] false None [])).

Lemma alias_roundtrip_witness :
  read_all (send_all [(ex_message [97], None); (ex_message [98], Some 5); (ex_message [97], None)]
              (Some (server_aliases_new 1))) (client_aliases_new 1)
  = [Ok [97]; Ok [98]; Ok [97]].
Proof.
  apply (alias_roundtrip 1 [(ex_message [97], None); (ex_message [98], Some 5); (ex_message [97], None)]).
  - lia.
  - by repeat constructor.
Defined.

(** ** Messages without properties

    A message from an MQTT 3 client has none, and then the alias is not written:
    once the topic has an alias the packet has neither, and the peer cannot tell
    the topic. *)
Theorem alias_lost m p expiry :
  0 < m < 2 ^ 16 → properties p = None →
  send_all [(p, expiry); (p, expiry)] (Some (server_aliases_new m))
  = [Ok p; Ok (CodecTypes.mkPublish (dup p) (retain p) (qos p) [] (packet_id p) (payload p) None)].
Proof.
  intros Hm Hp. cbn [send_all]. unfold sink_publish, server_get, server_aliases_new. simpl.
  destruct (Z.eqb_spec m 0); [lia|]. rewrite lookup_empty, map_size_empty.
  destruct (Z.leb_spec m (Z.of_nat 0)); [lia|]. simpl.
  destruct (Z.eqb_spec m 0); [lia|]. rewrite lookup_insert_eq, Hp. simpl.
  destruct p. simpl in *. by subst.
Qed.
