(* ===== verification/Hook.v ===== *)
(** * Hooks

    Models [DefaultHookManager], [DefaultHookRegister] and the decisions of
    [DefaultHook] in [ferromq/src/hook.rs]: plugins register handlers for a type
    of event, with a priority; an event runs the enabled handlers from the
    highest priority down, each with the result so far, until one of them stops
    the chain.

    A handler is a function from the event and the result so far; the session an
    event carries and the reason of a disconnection are type parameters, as the
    manager only passes them on.  A [BTreeMap] is a finite map that is iterated
    in ascending order of its keys, pairs of a priority and a UUID; the UUID is
    an argument. *)

From stdpp Require Import sorting countable base list numbers option gmap strings.
From Stdlib Require Import ZArith Lia.
From S2P Require Import Prelude Errors Wire CodecTypes MqttV3 PacketV5 Topic Hash BrokerTypes Acl.

#[local] Open Scope Z_scope.

(** ** Events *)

Inductive HookType : Type :=
| TBeforeStartup
| TSessionCreated | TSessionTerminated | TSessionSubscribed | TSessionUnsubscribed
| TClientAuthenticate | TClientConnect | TClientConnack | TClientConnected | TClientDisconnected
| TClientSubscribe | TClientUnsubscribe | TClientSubscribeCheckAcl | TClientKeepalive
| TMessagePublishCheckAcl | TMessagePublish | TMessageDelivered | TMessageAcked | TMessageDropped
| TMessageExpiryCheck | TMessageNonsubscribed
| TOfflineMessage | TOfflineInflightMessages
| TGrpcMessageReceived.

#[export] Instance HookType_eq_dec : EqDecision HookType.
Proof. solve_decision. Defined.

Definition hook_types : list HookType :=
  [TBeforeStartup; TSessionCreated; TSessionTerminated; TSessionSubscribed; TSessionUnsubscribed;
   TClientAuthenticate; TClientConnect; TClientConnack; TClientConnected; TClientDisconnected;
   TClientSubscribe; TClientUnsubscribe; TClientSubscribeCheckAcl; TClientKeepalive;
   TMessagePublishCheckAcl; TMessagePublish; TMessageDelivered; TMessageAcked; TMessageDropped;
   TMessageExpiryCheck; TMessageNonsubscribed; TOfflineMessage; TOfflineInflightMessages;
   TGrpcMessageReceived].

Definition hook_index (t : HookType) : nat :=
  default 0%nat (fst <$> list_find (λ t', t' = t) hook_types).

#[export] Instance HookType_countable : Countable HookType.
Proof.
  refine (inj_countable' hook_index (λ n, default TBeforeStartup (hook_types !! n)) _).
  by intros [].
Defined.

Section Hooks.
Context {Session Reason Inflights : Type}.

(** [Parameter], without the message from another node. *)
Inductive HookParameter : Type :=
| BeforeStartup
| SessionCreated (s : Session)
| SessionTerminated (s : Session) (r : Reason)
| SessionSubscribed (s : Session) (sub : Subscribe)
| SessionUnsubscribed (s : Session) (topic_filter : TopicFilter) (group : option SharedGroup)
| ClientConnect (ci : ConnectInfo)
| ClientConnack (ci : ConnectInfo) (r : ConnAckReason)
| ClientAuthenticate (ci : ConnectInfo)
| ClientConnected (s : Session)
| ClientDisconnected (s : Session) (r : Reason)
| ClientSubscribe (s : Session) (sub : Subscribe)
| ClientUnsubscribe (s : Session) (topic_filter : TopicFilter) (group : option SharedGroup)
| ClientSubscribeCheckAcl (s : Session) (sub : Subscribe)
| ClientKeepalive (s : Session) (ping : bool)
| MessagePublishCheckAcl (s : Session) (p : BrokerTypes.Publish)
| MessagePublish (s : option Session) (from : From) (p : BrokerTypes.Publish)
| MessageDelivered (s : Session) (from : From) (p : BrokerTypes.Publish)
| MessageAcked (s : Session) (from : From) (p : BrokerTypes.Publish)
| MessageDropped (to : option Id) (from : From) (p : BrokerTypes.Publish) (r : Reason)
| MessageExpiryCheck (s : Session) (from : From) (p : BrokerTypes.Publish)
| MessageNonsubscribed (from : From)
| OfflineMessage (s : Session) (from : From) (p : BrokerTypes.Publish)
| OfflineInflightMessages (s : Session) (msgs : Inflights).

Definition get_type (p : HookParameter) : HookType :=
  match p with
  | BeforeStartup => TBeforeStartup
  | SessionCreated _ => TSessionCreated
  | SessionTerminated _ _ => TSessionTerminated
  | SessionSubscribed _ _ => TSessionSubscribed
  | SessionUnsubscribed _ _ _ => TSessionUnsubscribed
  | ClientConnect _ => TClientConnect
  | ClientConnack _ _ => TClientConnack
  | ClientAuthenticate _ => TClientAuthenticate
  | ClientConnected _ => TClientConnected
  | ClientDisconnected _ _ => TClientDisconnected
  | ClientSubscribe _ _ => TClientSubscribe
  | ClientUnsubscribe _ _ _ => TClientUnsubscribe
  | ClientSubscribeCheckAcl _ _ => TClientSubscribeCheckAcl
  | ClientKeepalive _ _ => TClientKeepalive
  | MessagePublishCheckAcl _ _ => TMessagePublishCheckAcl
  | MessagePublish _ _ _ => TMessagePublish
  | MessageDelivered _ _ _ => TMessageDelivered
  | MessageAcked _ _ _ => TMessageAcked
  | MessageDropped _ _ _ _ => TMessageDropped
  | MessageExpiryCheck _ _ _ => TMessageExpiryCheck
  | MessageNonsubscribed _ => TMessageNonsubscribed
  | OfflineMessage _ _ _ => TOfflineMessage
  | OfflineInflightMessages _ _ => TOfflineInflightMessages
  end.

(** ** The manager *)

(** [trait Handler] *)
Definition Handler : Type := HookParameter → option HookResult → ReturnType.

Abbreviation HandlerKey := (Z * str)%type.

Record HookEntry : Type := mkEntry { handler : Handler; enabled : bool }.

Definition entry_new (h : Handler) : HookEntry := mkEntry h false.

Abbreviation Handlers := (gmap HandlerKey HookEntry).

Record DefaultHookManager : Type := mkManager { handlers : gmap HookType Handlers }.

Definition manager_new : DefaultHookManager := mkManager ∅.

(** The order of the keys: by priority, then by identifier. *)
Fixpoint str_le (s t : str) : bool :=
  match s, t with
  | [], _ => true
  | _ :: _, [] => false
  | a :: s, b :: t => (a <? b) || ((a =? b) && str_le s t)
  end.

Definition key_le (k1 k2 : HandlerKey) : bool :=
  (k1.1 <? k2.1) || ((k1.1 =? k2.1) && str_le k1.2 k2.2).

Definition entry_le : relation (HandlerKey * HookEntry) := λ e1 e2, key_le e1.1 e2.1 = true.
#[local] Instance entry_le_dec e1 e2 : Decision (entry_le e1 e2).
Proof. unfold entry_le. apply _. Defined.

(** [type_handlers.iter()] *)
Definition in_order (hs : Handlers) : list (HandlerKey * HookEntry) :=
  merge_sort entry_le (map_to_list hs).

(** [DefaultHookManager::add]; [Err] when the key is taken. *)
Definition manager_add (typ : HookType) (priority : Z) (id : str) (h : Handler)
    (m : DefaultHookManager) : outcome HandlerKey str * DefaultHookManager :=
  let type_handlers := default ∅ (handlers m !! typ) in
  let key := (priority, id) in
  match type_handlers !! key with
  | Some _ => (Err key, mkManager (<[typ := type_handlers]> (handlers m)))
  | None => (Ok id, mkManager (<[typ := <[key := entry_new h]> type_handlers]> (handlers m)))
  end.

(** [DefaultHookManager::exec] *)
Fixpoint exec_loop (es : list (HandlerKey * HookEntry)) (p : HookParameter) (acc : option HookResult)
    : option HookResult :=
  match es with
  | [] => acc
  | (_, e) :: es =>
      if enabled e then
        let '(proceed, new_acc) := handler e p acc in
        if negb proceed then new_acc else exec_loop es p new_acc
      else exec_loop es p acc
  end.

Definition hook_exec (m : DefaultHookManager) (t : HookType) (p : HookParameter) : option HookResult :=
  match handlers m !! t with
  | Some hs => exec_loop (reverse (in_order hs)) p None
  | None => None
  end.

(** ** The register of a plugin *)

Abbreviation Register := (gset (HookType * HandlerKey)).

(** [add_priority]; [add] is priority 0.  An error is logged. *)
Definition add_priority (typ : HookType) (priority : Z) (id : str) (h : Handler)
    (st : Register * DefaultHookManager) : Register * DefaultHookManager :=
  match manager_add typ priority id h st.2 with
  | (Ok id, m) => ({[(typ, (priority, id))]} ∪ st.1, m)
  | (_, m) => (st.1, m)
  end.

Definition set_enabled (b : bool) (e : HookEntry) : HookEntry := mkEntry (handler e) b.

(** [adjust_status]: every entry of the register, in some order; an entry that
    already has the status is left alone, which is the same. *)
Definition adjust_one (b : bool) (k : HookType * HandlerKey) (m : DefaultHookManager)
    : DefaultHookManager :=
  mkManager (alter (alter (set_enabled b) k.2) k.1 (handlers m)).

Definition adjust_status (b : bool) (st : Register * DefaultHookManager) : DefaultHookManager :=
  set_fold (adjust_one b) st.2 st.1.

Definition start (st : Register * DefaultHookManager) : DefaultHookManager := adjust_status true st.
Definition stop (st : Register * DefaultHookManager) : DefaultHookManager := adjust_status false st.

(** ** Decisions made of the results *)

(** [ok()] and the two refusals of [client_authenticate], by protocol level. *)
Definition proto_ver (ci : ConnectInfo) : Z :=
  match ci with ConnV3 _ c => level (MqttV3.protocol c) | ConnV5 _ _ => MQTT_LEVEL_5 end.

Definition reason_for (ci : ConnectInfo) (v3 : MqttV3.ConnectAckReason)
    (v5 : PacketV5.ConnectAckReason) : ConnAckReason :=
  if proto_ver ci =? MQTT_LEVEL_5 then AckV5 v5 else AckV3 v3.

Definition client_authenticate (m : DefaultHookManager) (ci : ConnectInfo) (allow_anonymous : bool)
    : ConnAckReason * bool * option AuthInfo :=
  let ok := reason_for ci ConnectionAccepted CASuccess in
  if negb (is_some (ci_username ci)) && allow_anonymous then (ok, false, None)
  else
    match hook_exec m TClientAuthenticate (ClientAuthenticate ci) with
    | Some (HRAuthResult AuthBadUsernameOrPassword) =>
        (reason_for ci MqttV3.BadUserNameOrPassword CABadUserNameOrPassword, false, None)
    | Some (HRAuthResult AuthNotAuthorized) =>
        (reason_for ci ConnNotAuthorized CANotAuthorized, false, None)
    | Some (HRAuthResult (AuthAllow superuser auth_info)) => (ok, superuser, auth_info)
    | _ =>
        if allow_anonymous then (ok, false, None)
        else (reason_for ci ConnNotAuthorized CANotAuthorized, false, None)
    end.

Definition client_connack (m : DefaultHookManager) (ci : ConnectInfo) (return_code : ConnAckReason)
    : ConnAckReason :=
  match hook_exec m TClientConnack (ClientConnack ci return_code) with
  | Some (HRConnectAckReason new_return_code) => new_return_code
  | _ => return_code
  end.

Definition message_publish (m : DefaultHookManager) (s : option Session) (from : From)
    (p : BrokerTypes.Publish) : option BrokerTypes.Publish :=
  match hook_exec m TMessagePublish (MessagePublish s from p) with
  | Some (HRPublish p) => Some p
  | _ => None
  end.

(** [self.s.superuser().await.unwrap_or_default()] *)
Context (session_superuser : Session → bool).

Definition client_subscribe_check_acl (m : DefaultHookManager) (s : Session) (sub : Subscribe)
    : option SubscribeReturn :=
  if session_superuser s then Some (new_success (opts_qos (s_opts sub)) None)
  else match hook_exec m TClientSubscribeCheckAcl (ClientSubscribeCheckAcl s sub) with
       | Some (HRSubscribeAclResult r) => Some r
       | _ => None
       end.

Definition message_publish_check_acl (m : DefaultHookManager) (s : Session) (p : BrokerTypes.Publish)
    : PublishResult :=
  if session_superuser s then acl_allow
  else match hook_exec m TMessagePublishCheckAcl (MessagePublishCheckAcl s p) with
       | Some (HRPublishAclResult r) => r
       | _ => acl_allow
       end.

Definition client_subscribe (m : DefaultHookManager) (s : Session) (sub : Subscribe)
    : option TopicFilter :=
  match hook_exec m TClientSubscribe (ClientSubscribe s sub) with
  | Some (HRTopicFilter (Some tf)) => Some tf
  | _ => None
  end.

Definition message_delivered (m : DefaultHookManager) (s : Session) (from : From)
    (p : BrokerTypes.Publish) : option BrokerTypes.Publish :=
  match hook_exec m TMessageDelivered (MessageDelivered s from p) with
  | Some (HRPublish p) => Some p
  | _ => None
  end.

(** *** Expiry *)

Inductive MessageExpiryCheckResult : Type := Expiry | Remaining (i : option Z).

(** The signed and unsigned conversions of the arithmetic; [/] of Rust rounds
    towards zero. *)
Definition as_i64 (x : Z) : Z := (x + 2 ^ 63) mod 2 ^ 64 - 2 ^ 63.

(** [message_expiry_check] at the time [now], with [default_millis] the
    listener's [message_expiry_interval.as_millis()]; [NonZeroU32::new]. *)
Definition message_expiry_check (m : DefaultHookManager) (now default_millis : Z) (s : Session)
    (from : From) (p : BrokerTypes.Publish) : MessageExpiryCheckResult :=
  match hook_exec m TMessageExpiryCheck (MessageExpiryCheck s from p) with
  | Some HRMessageExpiry => Expiry
  | _ =>
      let expiry_interval :=
        default (as_i64 default_millis)
          (properties (inner p) ≫= λ pp, (λ i, i * 1000) <$> message_expiry_interval pp) in
      if expiry_interval =? 0 then Remaining None
      else
        let remaining := now - default now (create_time p) in
        if remaining <? expiry_interval then
          let secs := as_u32 ((expiry_interval - remaining) ÷ 1000) in
          Remaining (if secs =? 0 then None else Some secs)
        else Expiry
  end.

(** ** The order of handlers *)

Lemma str_le_total s t : str_le s t = true ∨ str_le t s = true.
Proof.
  revert t. induction s as [|a s IH]; intros [|b t]; simpl; [by left|by left|by right|].
  destruct (Z.ltb_spec a b); [by left|]. destruct (Z.ltb_spec b a); [by right|].
  assert (a = b) as -> by lia. rewrite Z.eqb_refl. simpl. apply IH.
Qed.

Lemma str_le_trans s t u : str_le s t = true → str_le t u = true → str_le s u = true.
Proof.
  revert t u. induction s as [|a s IH]; intros [|b t] [|c u]; simpl; try done.
  destruct (Z.ltb_spec a b), (Z.ltb_spec b c); simpl.
  - intros _ _. by destruct (Z.ltb_spec a c); [|lia].
  - intros _ [->%Z.eqb_eq _]%andb_true_iff. by destruct (Z.ltb_spec a c); [|lia].
  - intros [->%Z.eqb_eq _]%andb_true_iff _. by destruct (Z.ltb_spec b c); [|lia].
  - intros [->%Z.eqb_eq H1]%andb_true_iff [->%Z.eqb_eq H2]%andb_true_iff.
    rewrite Z.eqb_refl, (IH t u H1 H2). apply orb_true_r.
Qed.

Lemma str_le_antisym s t : str_le s t = true → str_le t s = true → s = t.
Proof.
  revert t. induction s as [|a s IH]; intros [|b t]; simpl; try done.
  destruct (Z.ltb_spec a b), (Z.ltb_spec b a); simpl.
  - lia.
  - intros _ [E%Z.eqb_eq _]%andb_true_iff. lia.
  - intros [E%Z.eqb_eq _]%andb_true_iff _. lia.
  - intros [->%Z.eqb_eq H1]%andb_true_iff [_ H2]%andb_true_iff. f_equal. by apply IH.
Qed.

Lemma key_le_total k1 k2 : key_le k1 k2 = true ∨ key_le k2 k1 = true.
Proof. apply (str_le_total (k1.1 :: k1.2) (k2.1 :: k2.2)). Qed.
Lemma key_le_trans k1 k2 k3 : key_le k1 k2 = true → key_le k2 k3 = true → key_le k1 k3 = true.
Proof. apply (str_le_trans (k1.1 :: k1.2) (k2.1 :: k2.2) (k3.1 :: k3.2)). Qed.
Lemma key_le_antisym k1 k2 : key_le k1 k2 = true → key_le k2 k1 = true → k1 = k2.
Proof.
  intros H1 H2. pose proof (str_le_antisym (k1.1 :: k1.2) (k2.1 :: k2.2) H1 H2) as E.
  destruct k1, k2. simpl in E. congruence.
Qed.

#[local] Instance entry_le_total : Total entry_le.
Proof. intros e1 e2. apply key_le_total. Qed.
#[local] Instance entry_le_trans : Transitive entry_le.
Proof. intros e1 e2 e3. apply key_le_trans. Qed.

Lemma in_order_elem hs k e : (k, e) ∈ in_order hs ↔ hs !! k = Some e.
Proof. unfold in_order. rewrite merge_sort_Permutation. apply elem_of_map_to_list. Qed.

Lemma in_order_NoDup hs : NoDup (in_order hs).*1.
Proof. unfold in_order. rewrite merge_sort_Permutation. apply NoDup_fst_map_to_list. Qed.

Lemma in_order_sorted hs : StronglySorted entry_le (in_order hs).
Proof. apply StronglySorted_merge_sort; apply _. Qed.

(** A sorted list with the entries of the map is the map in order. *)
Lemma in_order_unique hs es :
  StronglySorted entry_le es → NoDup es.*1 → (∀ k e, (k, e) ∈ es ↔ hs !! k = Some e) →
  in_order hs = es.
Proof.
  intros Hs Hnd He. eapply (StronglySorted_unique_strong entry_le).
  - intros [k1 e1] [k2 e2] H1 H2 L1 L2. pose proof (key_le_antisym _ _ L1 L2) as E. simpl in E. subst k2.
    apply in_order_elem in H1. apply He in H2. congruence.
  - apply in_order_sorted.
  - done.
  - apply NoDup_Permutation.
    + eapply NoDup_fmap_1, in_order_NoDup.
    + by eapply NoDup_fmap_1.
    + intros [k e]. by rewrite in_order_elem, He.
Qed.

Lemma NoDup_filter_fst {A B} (P : A * B → Prop) `{!∀ x, Decision (P x)} (l : list (A * B)) :
  NoDup l.*1 → NoDup (filter P l).*1.
Proof.
  induction l as [|x l IH]; [done|]. simpl. intros [Hx Hl]%NoDup_cons. rewrite filter_cons.
  case_decide; [|auto]. simpl. apply NoDup_cons. split; [|auto].
  intros (y & Hy & [_ Hin]%list_elem_of_filter)%list_elem_of_fmap. apply Hx.
  rewrite Hy. by apply list_elem_of_fmap_2.
Qed.

(** ** Chains of handlers *)

(** What running handlers one after the other means. *)
Fixpoint chain (hs : list Handler) (p : HookParameter) (acc : option HookResult) : option HookResult :=
  match hs with
  | [] => acc
  | h :: hs => let '(proceed, acc) := h p acc in if proceed then chain hs p acc else acc
  end.

Lemma exec_loop_chain es p acc :
  exec_loop es p acc = chain (map (λ e, handler e.2) (filter (λ e, enabled e.2 = true) es)) p acc.
Proof.
  revert acc. induction es as [|[k e] es IH]; intros acc; [done|]. rewrite filter_cons. simpl.
  destruct (enabled e) eqn:He; simpl; [|apply IH].
  destruct (handler e p acc) as [[] a]; simpl; [apply IH|done].
Qed.

(** Only the enabled entries matter. *)
Definition active (hs : Handlers) : Handlers := filter (λ '(_, e), enabled e = true) hs.

Lemma filter_reverse {A} (P : A → Prop) `{!∀ x, Decision (P x)} (l : list A) :
  filter P (reverse l) = reverse (filter P l).
Proof.
  induction l as [|x l IH]; [done|]. rewrite reverse_cons, filter_app, IH, !filter_cons, filter_nil.
  case_decide; [by rewrite reverse_cons|by rewrite app_nil_r].
Qed.

Lemma in_order_active hs : in_order (active hs) = filter (λ e, enabled e.2 = true) (in_order hs).
Proof.
  apply in_order_unique.
  - apply StronglySorted_filter, in_order_sorted.
  - apply NoDup_filter_fst, in_order_NoDup.
  - intros k e. rewrite list_elem_of_filter, in_order_elem. unfold active.
    rewrite map_lookup_filter_Some. simpl. naive_solver.
Qed.

Lemma hook_exec_chain m t p :
  hook_exec m t p = chain (map (λ e, handler e.2)
                             (reverse (in_order (active (default ∅ (handlers m !! t)))))) p None.
Proof.
  unfold hook_exec. destruct (handlers m !! t) as [hs|]; simpl.
  - by rewrite exec_loop_chain, filter_reverse, in_order_active.
  - unfold active. rewrite map_filter_empty. unfold in_order. by rewrite map_to_list_empty.
Qed.

(** ** Starting and stopping plugins *)

Definition entry_at (m : DefaultHookManager) (t : HookType) (k : HandlerKey) : option HookEntry :=
  handlers m !! t ≫= λ hs, hs !! k.

Lemma adjust_one_at b k m t k' :
  entry_at (adjust_one b k m) t k'
  = (if decide (k = (t, k')) then set_enabled b else id) <$> entry_at m t k'.
Proof.
  unfold entry_at, adjust_one. simpl. destruct (decide (k.1 = t)) as [<-|Ht].
  - rewrite lookup_alter_eq. destruct (handlers m !! k.1) as [hs|]; simpl; [|done].
    destruct (decide (k.2 = k')) as [<-|Hk].
    + rewrite lookup_alter_eq. by rewrite decide_True by (by destruct k).
    + rewrite lookup_alter_ne by done.
      rewrite decide_False by (intros E; apply Hk; exact (f_equal snd E)).
      by destruct (hs !! k').
  - rewrite lookup_alter_ne by done.
    rewrite decide_False by (intros E; apply Ht; exact (f_equal fst E)).
    destruct (handlers m !! t) as [hs|]; simpl; [|done]. by destruct (hs !! k').
Qed.

Lemma adjust_status_at (b : bool) (r : Register) (m : DefaultHookManager) (t : HookType) (k : HandlerKey) :
  entry_at (adjust_status b (r, m)) t k
  = (if decide ((t, k) ∈ r) then set_enabled b else id) <$> entry_at m t k.
Proof.
  unfold adjust_status. simpl.
  pose (P := λ (m' : DefaultHookManager) (X : Register), entry_at m' t k
    = (if decide ((t, k) ∈ X) then set_enabled b else id) <$> entry_at m t k).
  apply (set_fold_ind_L P); unfold P; clear P.
  - rewrite decide_False by set_solver. by destruct (entry_at m t k).
  - intros x X m' Hx IH. rewrite adjust_one_at, IH.
    destruct (decide (x = (t, k))) as [->|Hne].
    + rewrite (decide_False (P := (t, k) ∈ X)) by done. rewrite decide_True by set_solver.
      by destruct (entry_at m t k).
    + destruct (decide ((t, k) ∈ X)).
      * rewrite decide_True by set_solver. by destruct (entry_at m t k).
      * rewrite decide_False by set_solver. by destruct (entry_at m t k).
Qed.

(** Descending keys. *)
Definition descending (es : list (HandlerKey * Handler)) : Prop :=
  StronglySorted (λ e1 e2, key_le e2.1 e1.1 = true) es ∧ NoDup es.*1.

Lemma StronglySorted_reverse {A} (R : relation A) l :
  StronglySorted R l → StronglySorted (λ x y, R y x) (reverse l).
Proof.
  induction 1 as [|x l _ IH Hx]; [constructor|]. rewrite reverse_cons. apply StronglySorted_app.
  split; [|split; [done|by repeat constructor]].
  intros y z Hy ->%list_elem_of_singleton. rewrite elem_of_reverse in Hy.
  rewrite Forall_forall in Hx. auto.
Qed.

Lemma map_chain_entries (es : list (HandlerKey * Handler)) (b : bool) :
  map (λ e : HandlerKey * HookEntry, handler e.2) (map (λ '(k, h), (k, mkEntry h b)) es) = es.*2.
Proof. induction es as [|[k h] es IH]; [done|]. simpl. f_equal. exact IH. Qed.

(** The chain of an event, from the entries that are enabled. *)
Lemma hook_exec_order m t p es :
  descending es →
  (∀ k h, (k, h) ∈ es ↔ entry_at m t k = Some (mkEntry h true)) →
  hook_exec m t p = chain es.*2 p None.
Proof.
  intros [Hs Hnd] He. rewrite hook_exec_chain.
  rewrite (in_order_unique _ (reverse (map (λ '(k, h), (k, mkEntry h true)) es))).
  - by rewrite reverse_involutive, map_chain_entries.
  - apply StronglySorted_reverse in Hs. rewrite <- fmap_reverse.
    revert Hs. generalize (reverse es) as l. clear. induction l as [|[k h] l IH]; [constructor|].
    intros [Hx Hl]%StronglySorted_cons. simpl. constructor; [auto|]. rewrite Forall_fmap.
    eapply Forall_impl; [exact Hx|]. by intros [k' h'].
  - rewrite <- fmap_reverse, <- list_fmap_compose.
    rewrite (list_fmap_ext _ fst) by (by intros i [] ?). rewrite fmap_reverse.
    by rewrite reverse_Permutation.
  - intros k e. rewrite elem_of_reverse. unfold active. rewrite map_lookup_filter_Some.
    unfold entry_at in He. split.
    + intros ([k' h] & [= <- ->] & Hin)%list_elem_of_fmap. apply He in Hin.
      destruct (handlers m !! t); simpl in *; [|done]. by split.
    + destruct (handlers m !! t) as [hs|]; simpl in *; [|by rewrite lookup_empty; intros []].
      intros [Hk Hen]. destruct e as [h b]. simpl in Hen. subst b.
      apply list_elem_of_fmap. exists (k, h). split; [done|]. by apply He.
Qed.

(** Which handlers an event runs.  After a plugin was started ([b] true) or
    stopped ([b] false) an event runs exactly the enabled handlers of its type:
    those of the plugin when it was started, none of them when it was stopped,
    and those of the other plugins as before; from the highest priority to the
    lowest, each given the result of the one before, until one stops the chain,
    and the result is that of the last one that ran. *)
Theorem plugin_lifecycle (b : bool) (r : Register) (m : DefaultHookManager) (t : HookType) (p : HookParameter)
    (es : list (HandlerKey * Handler)) :
  descending es →
  (∀ k h, (k, h) ∈ es ↔
     ∃ e, entry_at m t k = Some e ∧ handler e = h ∧
          (if decide ((t, k) ∈ r) then b else enabled e) = true) →
  hook_exec (adjust_status b (r, m)) t p = chain es.*2 p None.
Proof.
  intros Hd He. apply hook_exec_order; [done|]. intros k h. rewrite He, adjust_status_at.
  destruct (entry_at m t k) as [[h' b']|]; simpl; [|naive_solver].
  destruct (decide ((t, k) ∈ r)); unfold set_enabled; simpl; naive_solver.
Qed.

(** ** Expiry *)

(** What a subscriber is told of a message's age.  A message is dropped exactly
    when a handler says so or its interval has passed; otherwise the interval it
    is sent with is what is left in whole seconds.  In its last second nothing is
    left, and the message is sent without an interval, as one that never
    expires. *)
Theorem expiry_check_cases m now dm s from p pp i created :
  (∀ r, hook_exec m TMessageExpiryCheck (MessageExpiryCheck s from p) = Some r → r ≠ HRMessageExpiry) →
  properties (inner p) = Some pp → message_expiry_interval pp = Some i → nz_u32 i →
  create_time p = Some created → created ≤ now →
  message_expiry_check m now dm s from p =
    if now - created <? i * 1000 then
      Remaining (if i * 1000 - (now - created) <? 1000 then None
                 else Some ((i * 1000 - (now - created)) / 1000))
    else Expiry.
Proof.
  intros Hh Hp Hi Hnz Hc Hle. range_unfold. unfold message_expiry_check. rewrite Hp, Hc. simpl. rewrite Hi. simpl.
  destruct (Z.eqb_spec (i * 1000) 0); [lia|].
  replace (now - default now (Some created)) with (now - created) by done. simpl.
  destruct (Z.ltb_spec (now - created) (i * 1000)) as [Hlt|].
  - set (left := i * 1000 - (now - created)).
    assert (as_u32 (left ÷ 1000) = left / 1000) as ->.
    { unfold as_u32. rewrite Z.quot_div_nonneg by lia. apply Z.mod_small.
      split; [apply Z.div_pos; lia|]. apply Z.div_lt_upper_bound; lia. }
    assert (left / 1000 = 0 ↔ left < 1000) as Hz.
    { split; intros; [|apply Z.div_small; lia].
      pose proof (Z.mod_pos_bound left 1000 ltac:(lia)). pose proof (Z.div_mod left 1000 ltac:(lia)). lia. }
    destruct (hook_exec _ _ _) as [[]|] eqn:E; try (exfalso; by eapply Hh).
    all: destruct (Z.eqb_spec (left / 1000) 0), (Z.ltb_spec left 1000); (done || lia).
  - destruct (hook_exec _ _ _) as [[]|] eqn:E; try done.
Qed.
End Hooks.

(** ** A manager with the handlers of two plugins *)

Definition ex_first : @Handler unit unit unit := λ _ _, (true, Some HRMessageExpiry).
Definition ex_second : @Handler unit unit unit := λ _ acc,
  (false, match acc with Some _ => Some (HRTopicFilter None) | None => None end).

Definition ex_manager : @DefaultHookManager unit unit unit :=
  mkManager {[TClientSubscribe :=
    <[(10, lit "a") := mkEntry ex_first true]> {[(5, lit "b") := mkEntry ex_second false]}]}.

Lemma ex_manager_at k : entry_at ex_manager TClientSubscribe k =
  if decide (k = (10, lit "a")) then Some (mkEntry ex_first true)
  else if decide (k = (5, lit "b")) then Some (mkEntry ex_second false) else None.
Proof.
  unfold entry_at, ex_manager. simpl handlers. rewrite lookup_singleton_eq. simpl.
  destruct (decide (k = (10, lit "a"))) as [->|Hk]; [by rewrite lookup_insert_eq|].
  rewrite lookup_insert_ne by done. destruct (decide (k = (5, lit "b"))) as [->|Hk'].
  - by rewrite lookup_singleton_eq.
  - by rewrite lookup_singleton_ne.
Qed.

(** When the plugin of the second handler is started both run, in order. *)
Lemma plugin_lifecycle_witness :
  hook_exec (adjust_status true ({[(TClientSubscribe, (5, lit "b"))]}, ex_manager)) TClientSubscribe BeforeStartup
  = Some (HRTopicFilter None).
Proof.
  apply (plugin_lifecycle true {[(TClientSubscribe, (5, lit "b"))]} ex_manager TClientSubscribe BeforeStartup
           [((10, lit "a"), ex_first); ((5, lit "b"), ex_second)]).
  - split; [repeat constructor|]. simpl. apply NoDup_cons. split; [|apply NoDup_singleton].
    by intros [=]%list_elem_of_singleton.
  - intros k h. rewrite ex_manager_at. split.
    + intros [[= -> ->]|[= -> ->]%list_elem_of_singleton]%elem_of_cons.
      * rewrite decide_True by done. eexists. split; [done|]. split; [done|].
        by rewrite decide_False by (by intros [=]%elem_of_singleton).
      * rewrite decide_False, decide_True by done. eexists. split; [done|]. split; [done|].
        by rewrite decide_True by (by apply elem_of_singleton).
    + intros (e & He & <- & _). repeat case_decide; simplify_eq; set_solver.
Defined.
