(* ===== verification/AclPlugin.v ===== *)
(** * The access-control plugin

    Models [ferromq-acl]: the rules of its configuration ([config.rs]) with the
    users and topics they are for, and the handler it registers ([lib.rs]), which
    authenticates clients, decides on SUBSCRIBE and PUBLISH, and on connection
    and disconnection of a client fills in and clears the topics with
    placeholders ([%c], [%u]).

    The rules share their topics behind locks, so the handler of a connection
    changes what later decisions see: the rules are the state.  The task that
    fills in placeholders is spawned; it is one step here.  The text of an IP
    address is a parameter.  The parsing of the configuration is not modelled. *)

From stdpp Require Import base list numbers option gmap strings.
From Stdlib Require Import ZArith Lia.
From S2P Require Import Prelude Errors Wire CodecTypes MqttV3 PacketV5 Topic Trie BrokerTypes Acl Hook.

#[local] Open Scope Z_scope.

(** ** Rules *)

Inductive User : Type :=
| Username (name : str) (password : option bytes) (superuser : bool)
| Clientid (clientid : ClientId)
| Ipaddr (ipaddr : str)
| UProtocol (ver : Z)
| UAll.

Inductive Control : Type := CtlAll | CtlConnect | CtlPublish | CtlSubscribe | CtlPubsub.

Record Topics : Type := mkTopics {
  t_all : bool;
  t_eqs : gset str;
  t_eq_placeholders : list str;
  t_tree : Trie.Node (option str);
  t_placeholders : list str;
}.

(** [Rule] of the plugin; [Access] is [Permission]. *)
Record AclRule : Type := mkAclRule {
  ar_access : Permission;
  ar_users : list User;
  ar_control : Control;
  ar_topics : Topics;
}.

(** The order of [Option<ClientId>], by which a [BTreeSet] is iterated. *)
Definition opt_le : relation (option str) := λ a b,
  match a, b with
  | None, _ => True
  | Some _, None => False
  | Some a, Some b => str_le a b = true
  end.
#[export] Instance opt_le_dec a b : Decision (opt_le a b).
Proof. destruct a, b; simpl; apply _. Defined.

(** ** Who a rule is for *)

Section Users.
Context (ip_to_string : SocketAddr → str).

(** [User::hit]: whether the client is meant, and whether it is a superuser. *)
Definition user_hit (u : User) (id : Id) (password : option bytes) (protocol : option Z) (allow : bool)
    : bool * bool :=
  match u with
  | UAll => (true, false)
  | Username name1 password1 superuser =>
      match id_username id, password, password1, allow with
      | Some name2, Some password2, Some password1, true =>
          (bool_decide (name1 = name2) && bool_decide (password1 = password2), superuser)
      | Some name2, Some _, Some _, false => (bool_decide (name1 = name2), false)
      | Some name2, _, None, true => (bool_decide (name1 = name2), superuser)
      | Some name2, _, None, false => (bool_decide (name1 = name2), false)
      | Some _, None, Some _, _ => (false, false)
      | None, _, _, _ => (false, false)
      end
  | Clientid clientid => (bool_decide (id_client_id id = clientid), false)
  | Ipaddr ipaddr =>
      match id_remote_addr id with
      | Some addr => (bool_decide (ipaddr = ip_to_string addr), false)
      | None => (false, false)
      end
  | UProtocol protocol1 =>
      match protocol with
      | Some protocol => (protocol =? protocol1, false)
      | None => (false, false)
      end
  end.

(** [Rule::hit]: all users of the rule; the last one says whether superuser. *)
Fixpoint users_hit (us : list User) (id : Id) (password : option bytes) (protocol : option Z)
    (allow superuser : bool) : bool * bool :=
  match us with
  | [] => (true, superuser)
  | u :: us =>
      let '(hit, _superuser) := user_hit u id password protocol allow in
      if negb hit then (false, false) else users_hit us id password protocol allow _superuser
  end.

Definition rule_hit (r : AclRule) (id : Id) (password : option bytes) (protocol : option Z)
    (allow : bool) : bool * bool := users_hit (ar_users r) id password protocol allow false.

Definition allows (r : AclRule) : bool := match ar_access r with Allow => true | Deny => false end.

(** ** What a rule is about *)

(** [cid == client_id], or a topic for everyone. *)
Definition for_client (client_id : ClientId) (v : option str) : bool :=
  match v with Some cid => bool_decide (cid = client_id) | None => true end.

(** [Topics::is_match] *)
Definition topics_is_match (t : Topics) (topic_filter : list Level) (topic_filter_str : str)
    (client_id : ClientId) : bool :=
  if t_all t then true
  else if bool_decide (topic_filter_str ∈ t_eqs t) then true
  else match collect_all opt_le (t_tree t) topic_filter with
       | Some items => existsb (λ '(_, values), existsb (for_client client_id) values) items
       | None => false
       end.

(** ** The handler *)

Record AclSession : Type := mkAclSession {
  as_id : Id;
  as_password : option bytes;
  as_protocol : option Z;
  as_cache : list str;
}.

(** [Topic::from_str(..).unwrap_or_else(|_| Topic::from(Vec::new()))] *)
Definition parse_or_empty (s : str) : list Level :=
  match topic_from_str s with Ok t => t | _ => [] end.

(** Which operations a rule is about. *)
Definition for_connect (c : Control) : bool := match c with CtlConnect | CtlAll => true | _ => false end.
Definition for_subscribe (c : Control) : bool :=
  match c with CtlSubscribe | CtlPubsub | CtlAll => true | _ => false end.
Definition for_publish (c : Control) : bool :=
  match c with CtlPublish | CtlPubsub | CtlAll => true | _ => false end.

(** [Parameter::ClientAuthenticate] *)
Fixpoint authenticate_rules (rs : list AclRule) (ci : ConnectInfo) : ReturnType :=
  match rs with
  | [] => (false, Some (HRAuthResult AuthNotAuthorized))
  | r :: rs =>
      if negb (for_connect (ar_control r)) then authenticate_rules rs ci
      else
        let '(hit, superuser) :=
          rule_hit r (ci_id ci) (ci_password ci) (Some (proto_ver ci)) (allows r) in
        if hit then
          (false, Some (HRAuthResult (if allows r then AuthAllow superuser None else AuthNotAuthorized)))
        else authenticate_rules rs ci
  end.

Definition on_authenticate (rs : list AclRule) (ci : ConnectInfo) (acc : option HookResult) : ReturnType :=
  match acc with
  | Some (HRAuthResult AuthBadUsernameOrPassword) | Some (HRAuthResult AuthNotAuthorized) => (false, acc)
  | _ => authenticate_rules rs ci
  end.

(** The loop over the rules for a SUBSCRIBE or a PUBLISH: the first rule about
    the operation, the client and the topic says whether it is allowed. *)
Fixpoint decide_rules (op : Control → bool) (rs : list AclRule) (s : AclSession) (topic : list Level)
    (topic_str : str) : option bool :=
  match rs with
  | [] => None
  | r :: rs =>
      if negb (op (ar_control r)) then decide_rules op rs s topic topic_str
      else if negb (rule_hit r (as_id s) (as_password s) (as_protocol s) (allows r)).1
      then decide_rules op rs s topic topic_str
      else if negb (topics_is_match (ar_topics r) topic topic_str (id_client_id (as_id s)))
      then decide_rules op rs s topic topic_str
      else Some (allows r)
  end.

(** [Parameter::ClientSubscribeCheckAcl] *)
Definition on_subscribe (rs : list AclRule) (s : AclSession) (sub : Subscribe) (acc : option HookResult)
    : ReturnType :=
  let go :=
    match decide_rules for_subscribe rs s (parse_or_empty (s_topic_filter sub)) (s_topic_filter sub) with
    | Some true => (false, Some (HRSubscribeAclResult (new_success (opts_qos (s_opts sub)) None)))
    | _ => (false, Some (HRSubscribeAclResult (new_failure SAUnspecifiedError)))
    end in
  match acc with
  | Some (HRSubscribeAclResult r) => if failure r then (false, acc) else go
  | _ => go
  end.

(** [Parameter::MessagePublishCheckAcl] *)
Definition on_publish (rs : list AclRule) (disconnect_if_pub_rejected : bool) (s : AclSession)
    (topic_str : str) (acc : option HookResult) : ReturnType :=
  let go :=
    match decide_rules for_publish rs s (parse_or_empty topic_str) topic_str with
    | Some true => (false, Some (HRPublishAclResult acl_allow))
    | _ => (false, Some (HRPublishAclResult (acl_rejected disconnect_if_pub_rejected None)))
    end in
  match acc with
  | Some (HRPublishAclResult r) => if is_rejected r then (false, acc) else go
  | _ => go
  end.

(** [AclHandler::hook], the decisions: the other events leave the result. *)
Definition acl_handler {Reason Inflights} (rs : list AclRule) (disconnect_if_pub_rejected : bool)
    : @Handler AclSession Reason Inflights := λ param acc,
  match param with
  | ClientAuthenticate ci => on_authenticate rs ci acc
  | ClientSubscribeCheckAcl s sub => on_subscribe rs s sub acc
  | MessagePublishCheckAcl s p => on_publish rs disconnect_if_pub_rejected s (CodecTypes.topic (inner p)) acc
  | _ => (true, acc)
  end.
End Users.

(** *** Placeholders *)

Definition PH_C : str := lit "%c".
Definition PH_U : str := lit "%u".

Definition fill (client_id : ClientId) (username : option str) (ph : str) : str :=
  replace PH_U (default [] username) (replace PH_C client_id ph).

Definition set_tree (f : Trie.Node (option str) → Trie.Node (option str)) (r : AclRule) : AclRule :=
  let t := ar_topics r in
  mkAclRule (ar_access r) (ar_users r) (ar_control r)
    (mkTopics (t_all t) (t_eqs t) (t_eq_placeholders t) (f (t_tree t)) (t_placeholders t)).

(** [Rule::add_topic_filter]; a filter that does not parse is logged. *)
Definition add_topic_filter (topic_filter : str) (clientid : ClientId) (r : AclRule) : AclRule :=
  match topic_from_str topic_filter with
  | Ok t => set_tree (λ n, (Trie.insert n t (Some clientid)).2) r
  | _ => r
  end.

(** [Rule::remove_topic]: what matches the topic and belongs to the client. *)
Definition remove_topic (topic : str) (clientid : ClientId) (r : AclRule) : AclRule :=
  match topic_from_str topic with
  | Ok t =>
      match collect_all opt_le (t_tree (ar_topics r)) t with
      | Some items =>
          let topics := flat_map (λ '(levels, values),
            omap (λ v : option str, match v with
                     | Some cid => if bool_decide (cid = clientid) then Some levels else None
                     | None => None
                     end) values) items in
          set_tree (λ n, foldl (λ n t, (Trie.remove n t (Some clientid)).2) n topics) r
      | None => r
      end
  | _ => r
  end.

Definition add_topic_to_eqs (topic : str) (r : AclRule) : AclRule :=
  let t := ar_topics r in
  mkAclRule (ar_access r) (ar_users r) (ar_control r)
    (mkTopics (t_all t) ({[topic]} ∪ t_eqs t) (t_eq_placeholders t) (t_tree t) (t_placeholders t)).

(** [Parameter::ClientConnected], for one rule. *)
Definition connect_rule (id : Id) (r : AclRule) : AclRule :=
  let fill := fill (id_client_id id) (id_username id) in
  let r := foldl (λ r ph, add_topic_filter (fill ph) (id_client_id id) r) r (t_placeholders (ar_topics r)) in
  foldl (λ r ph, add_topic_to_eqs (fill ph) r) r (t_eq_placeholders (ar_topics r)).

(** What is pushed to the session's cache for one rule. *)
Definition connect_cache (id : Id) (r : AclRule) : list str :=
  map (fill (id_client_id id) (id_username id)) (t_placeholders (ar_topics r)).

Definition client_connected (s : AclSession) (rs : list AclRule) : AclSession * list AclRule :=
  (mkAclSession (as_id s) (as_password s) (as_protocol s)
     (as_cache s ++ flat_map (connect_cache (as_id s)) rs),
   map (connect_rule (as_id s)) rs).

(** [Parameter::ClientDisconnected] *)
Definition client_disconnected (s : AclSession) (rs : list AclRule) : list AclRule :=
  foldl (λ rs topic_filter, map (remove_topic topic_filter (id_client_id (as_id s))) rs)
        rs (as_cache s).

(** ** What a match sees *)

Definition holds (r : AclRule) (f : list Level) (v : option str) : Prop :=
  v ∈ stored (t_tree (ar_topics r)) f.

Lemma elem_of_values (vs : gset (option str)) v : v ∈ btree_iter opt_le vs ↔ v ∈ vs.
Proof. unfold btree_iter. rewrite sorting.merge_sort_Permutation. apply elem_of_elements. Qed.

Lemma collect_all_entries n topic :
  ∃ items, collect_all opt_le n topic = Some items ∧
    ∀ f vs, (f, vs) ∈ items ↔
      trie_matches f topic = true ∧ vs = btree_iter opt_le (stored n f) ∧ stored n f ≠ ∅.
Proof.
  exists (match_ref opt_le n topic []). split; [apply collect_all_spec|].
  intros f vs. rewrite match_ref_top. unfold entry. naive_solver.
Qed.

(** [Topics::is_match] in terms of the filters that are stored. *)
Lemma topics_is_match_spec r topic s c :
  topics_is_match (ar_topics r) topic s c = true ↔
  t_all (ar_topics r) = true ∨ s ∈ t_eqs (ar_topics r) ∨
  ∃ f v, trie_matches f topic = true ∧ holds r f v ∧ for_client c v = true.
Proof.
  unfold topics_is_match, holds. destruct (t_all (ar_topics r)); [naive_solver|].
  case_bool_decide; [naive_solver|].
  destruct (collect_all_entries (t_tree (ar_topics r)) topic) as (items & -> & Hi).
  rewrite existsb_exists. split.
  - intros ([f vs] & Hin & (v & Hv & Hc)%existsb_exists). right. right.
    apply list_elem_of_In in Hin, Hv. apply Hi in Hin as (Hm & -> & _).
    exists f, v. by rewrite <- elem_of_values.
  - intros [?|[?|(f & v & Hm & Hv & Hc)]]; [done..|].
    exists (f, btree_iter opt_le (stored (t_tree (ar_topics r)) f)). rewrite <- list_elem_of_In. split.
    + apply Hi. split; [done|]. split; [done|]. set_solver.
    + apply existsb_exists. exists v. by rewrite <- list_elem_of_In, elem_of_values.
Qed.

(** Two states of a rule that a client cannot tell apart. *)
Definition same_for (c : ClientId) (r r' : AclRule) : Prop :=
  ar_access r = ar_access r' ∧ ar_users r = ar_users r' ∧ ar_control r = ar_control r' ∧
  t_all (ar_topics r) = t_all (ar_topics r') ∧ t_eqs (ar_topics r) = t_eqs (ar_topics r') ∧
  ∀ f v, for_client c v = true → holds r f v ↔ holds r' f v.

#[export] Instance same_for_preorder c : PreOrder (same_for c).
Proof.
  split; [by repeat split|]. intros r1 r2 r3 (?&?&?&?&?&H) (?&?&?&?&?&H').
  repeat split; try congruence; intros; [by apply H', H|by apply H, H'].
Qed.

Lemma same_for_match c r r' topic s :
  same_for c r r' → topics_is_match (ar_topics r) topic s c = topics_is_match (ar_topics r') topic s c.
Proof.
  intros (_ & _ & _ & Ha & He & Hh). apply eq_true_iff_eq.
  rewrite !topics_is_match_spec, Ha, He. naive_solver.
Qed.

Lemma same_for_decides ip op rs rs' s topic topic_str :
  Forall2 (same_for (id_client_id (as_id s))) rs rs' →
  decide_rules ip op rs s topic topic_str = decide_rules ip op rs' s topic topic_str.
Proof.
  induction 1 as [|r r' rs rs' Hr _ IH]; [done|]. simpl.
  rewrite (same_for_match _ _ _ _ _ Hr). destruct Hr as (Ha & Hu & Hc & _).
  unfold rule_hit, allows. by rewrite Ha, Hu, Hc, IH.
Qed.

(** ** Filling in and clearing placeholders *)

Lemma holds_set_tree g r f v :
  holds (set_tree g r) f v ↔ v ∈ stored (g (t_tree (ar_topics r))) f.
Proof. done. Qed.

Lemma holds_add tf c r f v :
  holds (add_topic_filter tf c r) f v ↔
  holds r f v ∨ (v = Some c ∧ topic_from_str tf = Ok f).
Proof.
  unfold add_topic_filter. destruct (topic_from_str tf) as [t| |]; [|naive_solver..].
  rewrite holds_set_tree, insert_stored. unfold holds. case_decide; [subst|]; set_solver.
Qed.

Lemma same_for_add c c' tf r : c ≠ c' → same_for c' (add_topic_filter tf c r) r.
Proof.
  intros Hne. assert (∀ v, for_client c' v = true → v ≠ Some c) as Hv.
  { intros [cid|] Hc; [|done]. simpl in *. apply bool_decide_eq_true in Hc. congruence. }
  repeat split; try (unfold add_topic_filter; by case_match).
  - rewrite holds_add. intros [?|[? _]]; [done|]. by edestruct Hv.
  - rewrite holds_add. auto.
Qed.

Lemma foldl_remove (n : Trie.Node (option str)) (ts : list (list Level)) (c : str) f (v : option str) :
  v ∈ stored (foldl (λ n t, (Trie.remove n t (Some c)).2) n ts) f ↔
  v ∈ stored n f ∧ ¬ (v = Some c ∧ f ∈ ts).
Proof.
  revert n. induction ts as [|t ts IH]; intros n; simpl; [set_solver|].
  rewrite IH, remove_stored. case_decide; [subst|]; set_solver.
Qed.

Lemma holds_remove tf c r f v :
  holds (remove_topic tf c r) f v ↔
  holds r f v ∧ ¬ (v = Some c ∧ ∃ t, topic_from_str tf = Ok t ∧ trie_matches f t = true).
Proof.
  unfold remove_topic. destruct (topic_from_str tf) as [t| |]; [|naive_solver..].
  destruct (collect_all_entries (t_tree (ar_topics r)) t) as (items & -> & Hi).
  rewrite holds_set_tree, foldl_remove. fold (holds r f v). unfold holds.
  set (ts := flat_map _ items).
  assert (f ∈ ts ↔ trie_matches f t = true ∧ Some c ∈ stored (t_tree (ar_topics r)) f) as Hts.
  { unfold ts. rewrite list_elem_of_In, in_flat_map. split.
    - intros ([g vs] & Hin & Hf). apply list_elem_of_In in Hin, Hf.
      apply Hi in Hin as (Hm & -> & _).
      apply list_elem_of_omap in Hf as ([cid|] & Hv & Hf); [|done].
      case_bool_decide; simplify_eq. by rewrite elem_of_values in Hv.
    - intros [Hm Hc]. exists (f, btree_iter opt_le (stored (t_tree (ar_topics r)) f)).
      rewrite <- !list_elem_of_In. split; [apply Hi; set_solver|].
      apply list_elem_of_omap. exists (Some c). rewrite elem_of_values. by rewrite bool_decide_true. }
  rewrite Hts. naive_solver.
Qed.

(** A filter matches itself, read as a topic. *)
Lemma trie_matches_self f : topic_canon f → trie_matches f f = true.
Proof.
  intros (_ & _ & Hp). unfold trie_matches. apply andb_true_iff. split.
  { destruct f as [|[] f]; done. }
  induction f as [|l f IH]; [done|].
  apply placed_cons in Hp as (Hm & Hp & _). cbn [level_matches].
  rewrite (bool_decide_true (_ ∨ _)) by auto. rewrite IH by done. apply orb_true_r.
Qed.

Lemma holds_connect id r f v :
  t_eq_placeholders (ar_topics r) = [] →
  holds (connect_rule id r) f v ↔
  holds r f v ∨ (v = Some (id_client_id id) ∧ ∃ tf, tf ∈ connect_cache id r ∧ topic_from_str tf = Ok f).
Proof.
  intros He. unfold connect_rule, connect_cache.
  assert (∀ phs r, t_eq_placeholders (ar_topics (foldl (λ r ph, add_topic_filter
            (fill (id_client_id id) (id_username id) ph) (id_client_id id) r) r phs))
          = t_eq_placeholders (ar_topics r)) as Hph.
  { clear. induction phs as [|ph phs IH]; intros r; [done|]. simpl. rewrite IH.
    unfold add_topic_filter. by case_match. }
  rewrite Hph, He. simpl. clear Hph He. generalize (t_placeholders (ar_topics r)) as phs. intros phs.
  revert r. induction phs as [|ph phs IH]; intros r; simpl.
  - split; [auto|]. intros [?|[_ (? & ?%not_elem_of_nil & _)]]; done.
  - rewrite IH, holds_add. set_solver.
Qed.

Lemma connect_rule_same c id r :
  t_eq_placeholders (ar_topics r) = [] → c ≠ id_client_id id → same_for c (connect_rule id r) r.
Proof.
  intros He Hne. unfold connect_rule. generalize (t_placeholders (ar_topics r)) as phs. intros phs.
  assert (∀ r', t_eq_placeholders (ar_topics r') = [] →
    t_eq_placeholders (ar_topics (foldl (λ r ph, add_topic_filter
       (fill (id_client_id id) (id_username id) ph) (id_client_id id) r) r' phs)) = [] ∧
    same_for c (foldl (λ r ph, add_topic_filter
       (fill (id_client_id id) (id_username id) ph) (id_client_id id) r) r' phs) r') as H.
  { induction phs as [|ph phs IH]; intros r' Hr; simpl; [done|].
    destruct (IH (add_topic_filter (fill (id_client_id id) (id_username id) ph) (id_client_id id) r'))
      as [H1 H2]; [unfold add_topic_filter; by case_match|].
    split; [done|]. etrans; [exact H2|]. by apply same_for_add. }
  destruct (H r He) as [H1 H2]. by rewrite H1.
Qed.

Lemma holds_disconnect cache c r f v :
  holds (foldl (λ r tf, remove_topic tf c r) r cache) f v ↔
  holds r f v ∧ ¬ (v = Some c ∧ ∃ tf t, tf ∈ cache ∧ topic_from_str tf = Ok t ∧ trie_matches f t = true).
Proof.
  revert r. induction cache as [|tf cache IH]; intros r; simpl; [set_solver|].
  rewrite IH, holds_remove. set_solver.
Qed.

Lemma disconnect_fields cache c r :
  let r' := foldl (λ r tf, remove_topic tf c r) r cache in
  ar_access r' = ar_access r ∧ ar_users r' = ar_users r ∧ ar_control r' = ar_control r ∧
  t_all (ar_topics r') = t_all (ar_topics r) ∧ t_eqs (ar_topics r') = t_eqs (ar_topics r).
Proof.
  revert r. induction cache as [|tf cache IH]; intros r; simpl; [done|].
  destruct (IH (remove_topic tf c r)) as (-> & -> & -> & -> & ->).
  unfold remove_topic. by repeat case_match.
Qed.

Lemma connect_fields id r :
  t_eq_placeholders (ar_topics r) = [] →
  let r' := connect_rule id r in
  ar_access r' = ar_access r ∧ ar_users r' = ar_users r ∧ ar_control r' = ar_control r ∧
  t_all (ar_topics r') = t_all (ar_topics r) ∧ t_eqs (ar_topics r') = t_eqs (ar_topics r).
Proof.
  intros He. destruct (connect_rule_same (0 :: id_client_id id) id r He) as (?&?&?&?&?&_); [|done].
  intros E. apply (f_equal length) in E. simpl in E. lia.
Qed.

Lemma client_disconnected_map s rs :
  client_disconnected s rs
  = map (λ r, foldl (λ r tf, remove_topic tf (id_client_id (as_id s)) r) r (as_cache s)) rs.
Proof.
  unfold client_disconnected. revert rs. induction (as_cache s) as [|tf cache IH]; intros rs; simpl.
  { by rewrite map_id. }
  rewrite IH. by rewrite map_map.
Qed.

(** ** Properties *)


(** [allow all subscribe ["d/%c"]] and two clients. *)
Definition ex_placeholder_rule : AclRule :=
  mkAclRule Allow [UAll] CtlSubscribe (mkTopics false ∅ [] Trie.node_default [lit "d/%c"]).
Definition ex_session (c : str) : AclSession := mkAclSession (id_from 0 1 c) None None [].
Definition ex_ip : SocketAddr → str := λ _, [].

Example placeholder_grants :
  let d c := decide_rules ex_ip for_subscribe (client_connected (ex_session (lit "x")) [ex_placeholder_rule]).2
               (ex_session c) [Normal (lit "d"); Normal (lit "x")] (lit "d/x") in
  d (lit "x") = Some true ∧ d (lit "y") = None.
Proof. by vm_compute. Qed.


(** Rules that compare for equality with a placeholder do interfere: the topic
    filled in for one client is added for all, and stays when the client goes. *)
Lemma eqs_connect id r ph :
  ph ∈ t_eq_placeholders (ar_topics r) →
  fill (id_client_id id) (id_username id) ph ∈ t_eqs (ar_topics (connect_rule id r)).
Proof.
  intros Hph. unfold connect_rule. set (r1 := foldl _ r _).
  assert (ph ∈ t_eq_placeholders (ar_topics r1)) as Hph1.
  { subst r1. revert Hph. generalize (t_placeholders (ar_topics r)) as phs. intros phs. revert r.
    induction phs as [|p phs IH]; intros r Hph; [done|]. simpl. apply IH.
    unfold add_topic_filter. by case_match. }
  clearbody r1. clear Hph. revert r1 Hph1. intros r1.
  assert (∀ phs r, ph ∈ phs ∨ fill (id_client_id id) (id_username id) ph ∈ t_eqs (ar_topics r) →
    fill (id_client_id id) (id_username id) ph ∈
      t_eqs (ar_topics (foldl (λ r ph, add_topic_to_eqs (fill (id_client_id id) (id_username id) ph) r) r phs)))
    as H; [|auto].
  induction phs as [|p phs IH]; intros r'; simpl; [by intros [?%not_elem_of_nil|]|].
  intros [[->|?]%elem_of_cons|?]; apply IH; [right|left|right]; simpl; set_solver.
Qed.

Theorem eq_placeholder_leaks id r ph cache b topic :
  ph ∈ t_eq_placeholders (ar_topics r) →
  topics_is_match (ar_topics (foldl (λ r tf, remove_topic tf (id_client_id id) r) (connect_rule id r) cache))
    topic (fill (id_client_id id) (id_username id) ph) b = true.
Proof.
  intros Hph. apply topics_is_match_spec. right. left.
  destruct (disconnect_fields cache (id_client_id id) (connect_rule id r)) as (_ & _ & _ & _ & ->).
  by apply eqs_connect.
Qed.

(** ** The plugin in the chain of handlers *)

(** A rejection by a handler of higher priority stands, and what no rule allows
    is refused; so the decision of a broker in which this handler is enabled is
    never left open. *)
Lemma on_publish_closed ip rs d s t acc :
  ∃ r, on_publish ip rs d s t acc = (false, Some (HRPublishAclResult r)) ∧
       (is_allow r = true ↔
        (∀ r', acc = Some (HRPublishAclResult r') → is_allow r' = true) ∧
        decide_rules ip for_publish rs s (parse_or_empty t) t = Some true).
Proof.
  unfold on_publish.
  assert (∃ r, (match decide_rules ip for_publish rs s (parse_or_empty t) t with
          | Some true => (false, Some (HRPublishAclResult acl_allow))
          | _ => (false, Some (HRPublishAclResult (acl_rejected d None)))
          end) = (false, Some (HRPublishAclResult r)) ∧
          (is_allow r = true ↔ decide_rules ip for_publish rs s (parse_or_empty t) t = Some true))
    as (r & -> & Hr).
  { destruct (decide_rules _ _ _ _ _ _) as [[]|]; eexists; (split; [reflexivity|]); naive_solver. }
  destruct acc as [[]|]; try (exists r; split; [done|]; rewrite Hr; naive_solver).
  unfold is_rejected. destruct (is_allow r0) eqn:Ha; simpl.
  - exists r. split; [done|]. rewrite Hr. naive_solver.
  - exists r0. split; [done|]. rewrite Ha. split; [done|]. intros [H _]. by rewrite (H _ eq_refl) in Ha.
Qed.
