(* ===== verification/Delayed.v ===== *)
(** * Delayed publishes

    Models [ferromq/src/delayed.rs] with [DelayedPublish] of [types.rs]: a
    message on [$delayed/<seconds>/<topic>] is held back and published when its
    time has come, by a task that looks every half second.

    The [BinaryHeap] is the class [DelayHeap] with the laws of the standard
    library's: it keeps what is pushed, and its top is a greatest element in the
    order of its elements, here [dp_cmp]; which one among equals is not said.  A
    message that was let go ends in [inner_forwards] of the session, which is not
    part of this file: the task yields the messages it sends. *)

From stdpp Require Import sorting base list numbers option gmap strings.
From Stdlib Require Import ZArith Lia.
From S2P Require Import Prelude Errors Wire CodecTypes PacketV5 Topic BrokerTypes.

#[local] Open Scope Z_scope.

(** ** Messages *)

Record DelayedPublish : Type := mkDelayed {
  expired_time : Z;
  dp_from : From;
  dp_publish : BrokerTypes.Publish;
  message_storage_available : bool;
  dp_message_expiry_interval : option Z;
}.

(** [DelayedPublish::new] at the time [now] *)
Definition delayed_new (now : Z) (from : From) (publish : BrokerTypes.Publish) (storage : bool)
    (expiry : option Z) : DelayedPublish :=
  mkDelayed (default now ((λ di, now + di * 1000) <$> delay_interval publish)) from publish storage expiry.

(** [Ord::cmp]: the greater of two is the one that is due first. *)
Definition dp_cmp (a b : DelayedPublish) : comparison := expired_time b ?= expired_time a.

Definition dp_is_expired (now : Z) (d : DelayedPublish) : bool := expired_time d <? now.

(** ** The topic *)

Inductive DelayError : Type := NotAnInteger (topic : str).

(** [DelayedSender::parse] *)
Definition delayed_parse (p : BrokerTypes.Publish) : outcome DelayError BrokerTypes.Publish :=
  let items := splitn 3 SLASH (topic (inner p)) in
  match items !! 0%nat, items !! 1%nat, items !! 2%nat with
  | Some first, Some interval, Some t =>
      if bool_decide (first = lit "$delayed") then
        match parse_unsigned 32 interval with
        | Some interval_s =>
            let i := inner p in
            Ok (mkPublish (CodecTypes.mkPublish (dup i) (retain i) (qos i) t (packet_id i) (payload i)
                             (properties i))
                  (target_clientid p) (Some interval_s) (create_time p))
        | None => Err (NotAnInteger (topic (inner p)))
        end
      else Ok p
  | _, _, _ => Ok p
  end.

(** ** The heap *)

Class DelayHeap (Q : Type) := {
  h_empty : Q;
  h_push : DelayedPublish → Q → Q;
  h_pop : Q → option (DelayedPublish * Q);
  h_items : Q → list DelayedPublish;
}.

Class DelayHeapOk (Q : Type) `{DelayHeap Q} := {
  h_items_empty : h_items h_empty = [];
  h_items_push : ∀ d q, h_items (h_push d q) ≡ₚ d :: h_items q;
  h_pop_some : ∀ q d q', h_pop q = Some (d, q') →
    h_items q ≡ₚ d :: h_items q' ∧ ∀ e, e ∈ h_items q → dp_cmp e d ≠ Gt;
  h_pop_none : ∀ q, h_pop q = None → h_items q = [];
}.

Section Delayed.
Context {Q : Type} `{DelayHeapOk Q}.
(** [mqtt_delayed_publish_max] *)
Context (max : Z).

Definition h_peek (q : Q) : option DelayedPublish := fst <$> h_pop q.
Definition h_len (q : Q) : Z := len (h_items q).

(** [DelayedSender::delay_publish]: a message that is not taken is given back. *)
Definition delay_publish (now : Z) (from : From) (publish : BrokerTypes.Publish) (storage : bool)
    (expiry : option Z) (q : Q) : option (From * BrokerTypes.Publish) * Q :=
  if h_len q <? max then (None, h_push (delayed_new now from publish storage expiry) q)
  else (Some (from, publish), q).

(** [DefaultDelayedSender::send], up to the forwarding. *)
Definition sent (d : DelayedPublish) : DelayedPublish :=
  let p := dp_publish d in
  mkDelayed (expired_time d) (dp_from d) (mkPublish (inner p) (target_clientid p) None (create_time p))
    (message_storage_available d) (dp_message_expiry_interval d).

(** The inner loop of the task, at the time [now]: [peek] and [pop] are two
    steps. *)
Fixpoint drain (fuel : nat) (now : Z) (q : Q) : option (list DelayedPublish * Q) :=
  match fuel with
  | O => None
  | S fuel =>
      match h_peek q with
      | None => Some ([], q)
      | Some p =>
          if dp_is_expired now p then
            match h_pop q with
            | Some (d, q) => '(ds, q) ← drain fuel now q; Some (sent d :: ds, q)
            | None => Some ([], q)
            end
          else Some ([], q)
      end
  end.

(** ** What the loop does *)

Lemma top_due_first (q : Q) d q' e : h_pop q = Some (d, q') → e ∈ h_items q → expired_time d ≤ expired_time e.
Proof. intros Hp He. exact (proj2 (h_pop_some q d q' Hp) e He). Qed.

Lemma drain_spec fuel now q :
  (length (h_items q) < fuel)%nat →
  ∃ ds q', drain fuel now q = Some (map sent ds, q') ∧
    h_items q ≡ₚ ds ++ h_items q' ∧
    Forall (λ d, expired_time d < now) ds ∧
    Forall (λ d, now ≤ expired_time d) (h_items q') ∧
    StronglySorted (λ d e, expired_time d ≤ expired_time e) ds.
Proof.
  revert q. induction fuel as [|fuel IH]; intros q Hf; [lia|]. simpl. unfold h_peek.
  destruct (h_pop q) as [[d q1]|] eqn:Hp; simpl.
  - destruct (h_pop_some q d q1 Hp) as [Hperm _]. pose proof (λ e, top_due_first q d q1 e Hp) as Hmin.
    unfold dp_is_expired. destruct (Z.ltb_spec (expired_time d) now) as [Hlt|Hge].
    + destruct (IH q1) as (ds & q' & -> & Hp' & Hd & Hq & Hs).
      { rewrite Hperm in Hf. simpl in Hf. lia. }
      exists (d :: ds), q'. split; [done|]. split; [by rewrite Hperm, Hp'|].
      repeat split; try done.
      * by constructor.
      * constructor; [done|]. apply Forall_forall. intros e He. apply Hmin. rewrite Hperm, Hp'. set_solver.
    + exists [], q. repeat split; try done; [|constructor].
      apply Forall_forall. intros e He. specialize (Hmin e He). lia.
  - exists [], q. repeat split; try done; [|constructor]. by rewrite (h_pop_none q Hp).
Qed.

(** ** Histories *)

(** A message that is asked to be held back, with the time. *)
Record DelayRequest : Type := mkRequest {
  rq_time : Z; rq_from : From; rq_publish : BrokerTypes.Publish; rq_storage : bool; rq_expiry : option Z;
}.

Inductive DelayOp : Type := Delay (r : DelayRequest) | Tick (now : Z).

(** What was taken, what was given back and how many were pending then, what was
    sent and when, and the heap. *)
Record DelayTrace : Type := mkTrace {
  taken : list DelayRequest;
  given_back : list (From * BrokerTypes.Publish * Z);
  released : list (Z * DelayedPublish);
  pending : Q;
}.

Definition delay_step (o : DelayOp) (tr : DelayTrace) : option DelayTrace :=
  match o with
  | Delay r =>
      let '(back, q) := delay_publish (rq_time r) (rq_from r) (rq_publish r) (rq_storage r) (rq_expiry r)
                          (pending tr) in
      Some (match back with
            | None => mkTrace (taken tr ++ [r]) (given_back tr) (released tr) q
            | Some m => mkTrace (taken tr) (given_back tr ++ [(m, len (h_items (pending tr)))]) (released tr) q
            end)
  | Tick now =>
      '(ds, q) ← drain (S (length (h_items (pending tr)))) now (pending tr);
      Some (mkTrace (taken tr) (given_back tr) (released tr ++ map (pair now) ds) q)
  end.

Fixpoint delay_run (os : list DelayOp) (tr : DelayTrace) : option DelayTrace :=
  match os with [] => Some tr | o :: os => delay_step o tr ≫= delay_run os end.

(** ** What is promised *)

(** When a message is to be sent: its delay, in seconds, after it was published; at
    once when it has none. *)
Definition promised (r : DelayRequest) : Z :=
  match delay_interval (rq_publish r) with
  | Some seconds => rq_time r + 1000 * seconds
  | None => rq_time r
  end.

(** The entry of a request, before it is sent and as it is sent: sent without its
    delay, otherwise as it came. *)
Definition entry_of (delay : option Z) (r : DelayRequest) (d : DelayedPublish) : Prop :=
  expired_time d = promised r ∧ dp_from d = rq_from r ∧
  message_storage_available d = rq_storage r ∧ dp_message_expiry_interval d = rq_expiry r ∧
  inner (dp_publish d) = inner (rq_publish r) ∧ delay_interval (dp_publish d) = delay ∧
  target_clientid (dp_publish d) = target_clientid (rq_publish r) ∧ create_time (dp_publish d) = create_time (rq_publish r).

Definition waits (r : DelayRequest) (d : DelayedPublish) : Prop :=
  entry_of (delay_interval (rq_publish r)) r d.
Definition comes (r : DelayRequest) (e : Z * DelayedPublish) : Prop :=
  entry_of None r e.2 ∧ promised r < e.1.

Lemma waits_new now from p storage expiry :
  waits (mkRequest now from p storage expiry) (delayed_new now from p storage expiry).
Proof.
  unfold waits, entry_of, promised, delayed_new. simpl. repeat (split; [|done]); try done. destruct (delay_interval p); simpl; [lia|done].
Qed.

Definition requests (os : list DelayOp) : list DelayRequest :=
  omap (λ o, match o with Delay r => Some r | Tick _ => None end) os.
Definition message_of (r : DelayRequest) : From * BrokerTypes.Publish := (rq_from r, rq_publish r).

(** Nothing is lost or sent twice, nothing is sent before its time, the limit is
    kept, and a message is only given back when the limit is reached. *)
Record delay_inv (os : list DelayOp) (tr : DelayTrace) (gone left : list DelayRequest) : Prop := mkDelayInv {
  di_all : map message_of (requests os) ≡ₚ map message_of (taken tr) ++ (given_back tr).*1;
  di_full : Forall (λ e, max ≤ e.2) (given_back tr);
  di_split : taken tr ≡ₚ gone ++ left;
  di_gone : Forall2 comes gone (released tr);
  di_left : ∃ ds, Forall2 waits left ds ∧ ds ≡ₚ h_items (pending tr);
  di_limit : len (h_items (pending tr)) ≤ Z.max 0 max;
}.

Lemma comes_sent now rs ds :
  Forall2 waits rs ds → Forall (λ d, expired_time d < now) ds → Forall2 comes rs (map (pair now) (map sent ds)).
Proof.
  induction 1 as [|r d rs ds Hr _ IH]; intros Hd; [constructor|]. inversion Hd; subst. simpl. constructor; [|by apply IH].
  destruct Hr as (Ht & Hr). split; [|simpl; lia]. split; [done|]. naive_solver.
Qed.

Lemma requests_snoc os o : requests (os ++ [o]) = requests os ++ match o with Delay r => [r] | Tick _ => [] end.
Proof. unfold requests. rewrite omap_app. by destruct o. Qed.

Lemma delay_inv_publish os r tr gone left :
  delay_inv os tr gone left → ∃ tr' left', delay_step (Delay r) tr = Some tr' ∧ delay_inv (os ++ [Delay r]) tr' gone left'.
Proof.
  intros [Hall Hfull Hsp Hgone (ds & Hleft & Hds) Hlim]. destruct r as [now from p storage expiry].
  cbn [delay_step rq_time rq_from rq_publish rq_storage rq_expiry]. unfold delay_publish, h_len.
  destruct (Z.ltb_spec (len (h_items (pending tr))) max) as [Hlt|Hge].
  - eexists _, (mkRequest now from p storage expiry :: left). split; [done|]. split; simpl; try done.
    + rewrite requests_snoc, !map_app, Hall. simpl. by rewrite <-!app_assoc, (Permutation_app_comm [_]).
    + rewrite Hsp, <-app_assoc. f_equiv. by rewrite (Permutation_app_comm left).
    + exists (delayed_new now from p storage expiry :: ds). split; [by constructor; [apply waits_new|]|]. by rewrite h_items_push, Hds.
    + unfold len in *. rewrite h_items_push. simpl. lia.
  - eexists _, left. split; [done|]. split; simpl; try done.
    + rewrite requests_snoc, map_app, fmap_app, Hall. simpl. by rewrite <-app_assoc.
    + apply Forall_app. by split; [|constructor].
    + by exists ds.
Qed.

Lemma delay_inv_tick os now tr gone left :
  delay_inv os tr gone left → ∃ tr' now_gone left', delay_step (Tick now) tr = Some tr' ∧
    delay_inv (os ++ [Tick now]) tr' (gone ++ now_gone) left' ∧
    Forall (λ r, now ≤ promised r) left' ∧ StronglySorted (λ r r', promised r ≤ promised r') now_gone.
Proof.
  intros [Hall Hfull Hsp Hgone (ds0 & Hleft & Hds) Hlim]. cbn [delay_step].
  destruct (drain_spec (S (length (h_items (pending tr)))) now (pending tr) ltac:(lia))
    as (ds & q' & -> & Hp & Hd & Hq & Hs).
  rewrite Hp in Hds. apply Forall2_flip in Hleft.
  destruct (Permutation.Permutation_Forall2 Hds Hleft) as (left0 & Hl0 & Hleft0%Forall2_flip).
  apply Forall2_app_inv_r in Hleft0 as (now_gone & left' & Hg & Hl & ->). simpl.
  eexists _, now_gone, left'. split; [done|]. split; [|split].
  - split; simpl; try done.
    + by rewrite requests_snoc, app_nil_r.
    + by rewrite Hsp, Hl0, app_assoc.
    + by apply Forall2_app; [|apply comes_sent].
    + by exists (h_items q').
    + unfold len in *. rewrite Hp, length_app in Hlim. lia.
  - clear -Hl Hq. induction Hl as [|r d rs ds Hr _ IH]; [constructor|]. inversion Hq; subst. constructor; [|by apply IH].
    by rewrite <-(proj1 Hr).
  - clear -Hg Hs. induction Hg as [|r d rs ds Hr Hrs IH]; [constructor|]. inversion Hs as [|?? Hs' Hall]; subst. constructor; [by apply IH|].
    clear -Hr Hrs Hall. induction Hrs as [|r' d' rs ds Hr' _ IH]; [constructor|]. inversion Hall; subst. constructor; [|by apply IH].
    by rewrite <-(proj1 Hr), <-(proj1 Hr').
Qed.

Lemma delay_run_app os os' tr : delay_run (os ++ os') tr = delay_run os tr ≫= delay_run os'.
Proof. revert tr. induction os as [|o os IH]; intros tr; [done|]. simpl. destruct (delay_step o tr); simpl; auto. Qed.

Lemma delay_run_inv os :
  ∃ tr gone left, delay_run os (mkTrace [] [] [] h_empty) = Some tr ∧ delay_inv os tr gone left.
Proof.
  induction os as [|o os (tr & gone & left & Hr & Hi)] using rev_ind.
  - exists (mkTrace [] [] [] h_empty), [], []. split; [done|]. split; simpl; try done.
    + by exists []; rewrite h_items_empty.
    + rewrite h_items_empty, len_nil. lia.
  - rewrite delay_run_app, Hr. simpl. destruct o as [r|now].
    + destruct (delay_inv_publish os r tr gone left Hi) as (tr' & left' & -> & Hi'). by exists tr', gone, left'.
    + destruct (delay_inv_tick os now tr gone left Hi) as (tr' & g & left' & -> & Hi' & _).
      by exists tr', (gone ++ g), left'.
Qed.

(** C37: delayed messages come, once and in time.  From an empty heap, in any
    history of delayed publishes and looks of the task, with any times: the task
    always ends its loop; every message is taken, or given back while as many as
    the limit allows are pending; those that were taken are, each once, sent or
    pending; what is sent is the message without its delay, and only after its
    delay has passed since it was published; the number pending keeps to the limit;
    and a look at a time sends, those that are due first before the others, all that
    was due before it. *)
Theorem delayed_delivery os now :
  ∃ tr earlier now_gone left,
    delay_run (os ++ [Tick now]) (mkTrace [] [] [] h_empty) = Some tr ∧
    map message_of (requests os) ≡ₚ map message_of (taken tr) ++ (given_back tr).*1 ∧
    Forall (λ e, max ≤ e.2) (given_back tr) ∧
    taken tr ≡ₚ (earlier ++ now_gone) ++ left ∧
    Forall2 comes (earlier ++ now_gone) (released tr) ∧
    (∃ ds, Forall2 waits left ds ∧ ds ≡ₚ h_items (pending tr)) ∧
    len (h_items (pending tr)) ≤ Z.max 0 max ∧
    Forall (λ r, now ≤ promised r) left ∧
    StronglySorted (λ r r', promised r ≤ promised r') now_gone.
Proof.
  destruct (delay_run_inv os) as (tr & gone & left & Hr & Hi).
  destruct (delay_inv_tick os now tr gone left Hi) as (tr' & g & left' & Hs & [Hall Hfull Hsp Hgone Hleft Hlim] & Hl & Hg).
  exists tr', gone, g, left'. rewrite delay_run_app, Hr. cbn [mbind option_bind delay_run]. rewrite Hs.
  rewrite requests_snoc, app_nil_r in Hall. by repeat split.
Qed.
End Delayed.

(** ** A heap that meets the laws *)

Fixpoint pop_min (l : list DelayedPublish) : option (DelayedPublish * list DelayedPublish) :=
  match l with
  | [] => None
  | d :: l =>
      match pop_min l with
      | None => Some (d, l)
      | Some (e, l') => if expired_time d <=? expired_time e then Some (d, l) else Some (e, d :: l')
      end
  end.

#[local] Instance list_heap : DelayHeap (list DelayedPublish) := {
  h_empty := []; h_push := cons; h_pop := pop_min; h_items := id;
}.

Lemma pop_min_spec (l : list DelayedPublish) d l' :
  pop_min l = Some (d, l') → l ≡ₚ d :: l' ∧ ∀ e, e ∈ l → expired_time d ≤ expired_time e.
Proof.
  revert d l'. induction l as [|d l IH]; [done|]. intros e l'. simpl.
  destruct (pop_min l) as [[e' l1]|] eqn:Hp.
  - destruct (IH e' l1 eq_refl) as [Hperm Hmin].
    destruct (Z.leb_spec (expired_time d) (expired_time e')); intros [= <- <-].
    + split; [done|]. intros x [->|Hx]%elem_of_cons; [lia|]. specialize (Hmin x Hx). lia.
    + split; [rewrite Hperm; constructor|]. intros x [->|Hx]%elem_of_cons; [lia|auto].
  - intros [= <- <-]. split; [done|]. intros x [->|Hx]%elem_of_cons; [lia|].
    destruct l as [|y l]; [by apply not_elem_of_nil in Hx|]. simpl in Hp. by repeat case_match.
Qed.

Lemma list_heap_ok : DelayHeapOk (list DelayedPublish).
Proof.
  split; [done|done|exact pop_min_spec|].
  simpl. unfold id. intros [|d q]; [done|]. simpl. by repeat case_match.
Qed.

Definition ex_delayed (n : Z) : DelayRequest :=
  mkRequest 0 (from_custom (id_from 0 1 (lit "c")))
    (mkPublish (CodecTypes.mkPublish false false AtMostOnce (lit "t") None [] None) None (Some n) None) false None.

(** Room for two: the third message is given back; the second is sent at the second
    look, the first is pending. *)
Definition ex_ops : list DelayOp := [Delay (ex_delayed 7); Delay (ex_delayed 3); Delay (ex_delayed 1); Tick 2500].

Lemma delayed_delivery_witness :
  ∃ tr, delay_run 2 (ex_ops ++ [Tick 5000]) (mkTrace [] [] [] h_empty) = Some tr ∧
    taken tr = [ex_delayed 7; ex_delayed 3] ∧
    (given_back tr).*1 = [message_of (ex_delayed 1)] ∧
    (λ e : Z * DelayedPublish, (e.1, expired_time e.2, delay_interval (dp_publish e.2))) <$> released tr = [(5000, 3000, None)] ∧
    len (h_items (pending tr)) ≤ 2.
Proof.
  destruct (@delayed_delivery _ _ list_heap_ok 2 ex_ops 5000) as (tr & e & g & l & Hr & _ & _ & _ & _ & _ & Hl & _).
  exists tr. split; [exact Hr|]. vm_compute in Hr. injection Hr as <-. by repeat split.
Defined.

(** ** The topic scheme *)

Definition on_topic (t : str) : BrokerTypes.Publish :=
  publish_of (CodecTypes.mkPublish false false AtMostOnce t None [] None).

Lemma split_once_app sep a b : sep ∉ a → split_once sep (a ++ sep :: b) = Some (a, b).
Proof.
  induction a as [|c a IH]; simpl; [by rewrite Z.eqb_refl|].
  intros [Hc Ha]%not_elem_of_cons. destruct (Z.eqb_spec c sep); [congruence|]. by rewrite IH.
Qed.

(** A well-formed delayed topic is taken apart; the topic may have levels of its
    own, and may be empty. *)
Lemma delayed_parse_ok p interval n t :
  topic (inner p) = lit "$delayed" ++ SLASH :: interval ++ SLASH :: t →
  SLASH ∉ interval → parse_unsigned 32 interval = Some n →
  ∃ p', delayed_parse p = Ok p' ∧ topic (inner p') = t ∧ delay_interval p' = Some n.
Proof.
  intros Ht Hi Hn. unfold delayed_parse. rewrite Ht. cbn [splitn].
  rewrite split_once_app by (by apply (bool_decide_eq_true_1 _)). cbn [splitn].
  rewrite split_once_app by done. cbn [splitn lookup list_lookup].
  rewrite bool_decide_true by done. rewrite Hn. by eexists.
Qed.

(** Other topics are left alone, and a delay that is no number is refused. *)
Example delayed_parse_cases :
  delayed_parse (on_topic (lit "$delayed/10")) = Ok (on_topic (lit "$delayed/10")) ∧
  delayed_parse (on_topic (lit "a/b/c")) = Ok (on_topic (lit "a/b/c")) ∧
  delayed_parse (on_topic (lit "$delayed/x/a")) = Err (NotAnInteger (lit "$delayed/x/a")) ∧
  delayed_parse (on_topic (lit "$delayed/4294967296/a")) = Err (NotAnInteger (lit "$delayed/4294967296/a")) ∧
  outcome_map (λ p, topic (inner p)) (delayed_parse (on_topic (lit "$delayed/5/"))) = Ok [].
Proof. by vm_compute. Qed.
