(* ===== verification/SessionSubs.v ===== *)
(** * The subscriptions of sessions

    Models [SessionSubs] of [ferromq/src/types.rs]: the map from topic filters to
    options that a session keeps, and the two statistics of the broker that all
    sessions share, the number of subscriptions and of shared ones.  The map has
    a lock, and the counters are atomic; an operation is one step. *)

From stdpp Require Import base list numbers option gmap strings.
From Stdlib Require Import ZArith Lia.
From S2P Require Import Prelude Errors Wire CodecTypes PacketV5 Topic Counter Hash BrokerTypes.

#[local] Open Scope Z_scope.

Abbreviation SessionSubMap := (gmap TopicFilter SubscriptionOptions).

(** [scx.stats.subscriptions] and [scx.stats.subscriptions_shared] *)
Record SubStats : Type := mkSubStats {
  subscriptions : Counter;
  subscriptions_shared : Counter;
}.

Definition stats_new : SubStats := mkSubStats counter_new counter_new.

(** One subscription more or less. *)
Definition stats_inc (opts : SubscriptionOptions) (st : SubStats) : SubStats :=
  mkSubStats (inc (subscriptions st))
    (if has_shared_group opts then inc (subscriptions_shared st) else subscriptions_shared st).
Definition stats_dec (opts : SubscriptionOptions) (st : SubStats) : SubStats :=
  mkSubStats (dec (subscriptions st))
    (if has_shared_group opts then dec (subscriptions_shared st) else subscriptions_shared st).

(** [SessionSubs::_add] *)
Definition subs_add (topic_filter : TopicFilter) (opts : SubscriptionOptions)
    (s : SessionSubMap * SubStats) : option SubscriptionOptions * (SessionSubMap * SubStats) :=
  let '(subs, st) := s in
  let prev := subs !! topic_filter in
  (prev,
   (<[topic_filter := opts]> subs,
    match prev with
    | Some prev_opts =>
        mkSubStats (subscriptions st)
          match has_shared_group prev_opts, has_shared_group opts with
          | true, false => dec (subscriptions_shared st)
          | false, true => inc (subscriptions_shared st)
          | _, _ => subscriptions_shared st
          end
    | None => stats_inc opts st
    end)).

(** [SessionSubs::_remove] *)
Definition subs_remove (topic_filter : TopicFilter) (s : SessionSubMap * SubStats)
    : option (TopicFilter * SubscriptionOptions) * (SessionSubMap * SubStats) :=
  let '(subs, st) := s in
  match subs !! topic_filter with
  | Some opts => (Some (topic_filter, opts), (delete topic_filter subs, stats_dec opts st))
  | None => (None, (subs, st))
  end.

Section Subs.
Context `{!HashOrder str}.

(** [SessionSubs::_drain] *)
Fixpoint drain_keys (tfs : list TopicFilter) (s : SessionSubMap * SubStats)
    : list (TopicFilter * SubscriptionOptions) * (SessionSubMap * SubStats) :=
  match tfs with
  | [] => ([], s)
  | tf :: tfs =>
      let '(removed, s) := subs_remove tf s in
      let '(subs, s) := drain_keys tfs s in
      (match removed with Some sub => sub :: subs | None => subs end, s)
  end.

Definition subs_drain (s : SessionSubMap * SubStats)
    : list (TopicFilter * SubscriptionOptions) * (SessionSubMap * SubStats) :=
  drain_keys (iter s.1).*1 s.

(** [SessionSubs::_extend] *)
Definition subs_extend (subs : list (TopicFilter * SubscriptionOptions)) (s : SessionSubMap * SubStats)
    : SessionSubMap * SubStats :=
  foldl (λ s '(tf, opts), (subs_add tf opts s).2) s subs.

(** [SessionSubs::clear] *)
Definition subs_clear (s : SessionSubMap * SubStats) : SessionSubMap * SubStats :=
  (∅, foldl (λ st opts, stats_dec opts st) s.2 (iter s.1).*2).

Definition subs_len (subs : SessionSubMap) : nat := size subs.
Definition shared_len (subs : SessionSubMap) : nat :=
  length (filter (λ e, has_shared_group e.2 = true) (iter subs)).
Definition to_topic_filters (subs : SessionSubMap) : list TopicFilter := (iter subs).*1.

Context `{!HashOrderOk str}.

(** ** The statistics *)

(** One for a shared subscription. *)
Definition shared1 (opts : SubscriptionOptions) : nat := if has_shared_group opts then 1%nat else 0%nat.

Lemma shared_len_sum subs : shared_len subs = map_sum shared1 subs.
Proof.
  unfold shared_len. rewrite (map_sum_iter shared1 subs). induction (iter subs) as [|[tf opts] l IH]; [done|].
  rewrite filter_cons. simpl. unfold shared1 at 1. destruct (has_shared_group opts); simpl; by rewrite IH.
Qed.

(** The counters say [n] subscriptions and [m] shared ones. *)
Definition counts (st : SubStats) (n m : Z) : Prop :=
  count (subscriptions st) = as_isize n ∧ count (subscriptions_shared st) = as_isize m.

Lemma counts_inc st n m opts :
  counts st n m → counts (stats_inc opts st) (n + 1) (m + Z.of_nat (shared1 opts)).
Proof.
  intros [Hn Hm]. unfold stats_inc, shared1. split; simpl; [by apply count_inc|].
  destruct (has_shared_group opts); [by apply count_inc|]. by rewrite Z.add_0_r.
Qed.

Lemma counts_dec st n m opts :
  counts st n m → counts (stats_dec opts st) (n - 1) (m - Z.of_nat (shared1 opts)).
Proof.
  intros [Hn Hm]. unfold stats_dec, shared1. split; simpl; [by apply count_dec|].
  destruct (has_shared_group opts); [by apply count_dec|]. by rewrite Z.sub_0_r.
Qed.

(** What an operation of one session does: the counters move with its map. *)
Definition moves (s s' : SessionSubMap * SubStats) : Prop :=
  ∀ n m, counts s.2 n m →
    counts s'.2 (n + Z.of_nat (size s'.1) - Z.of_nat (size s.1))
                (m + Z.of_nat (map_sum shared1 s'.1) - Z.of_nat (map_sum shared1 s.1)).

Lemma moves_refl s : moves s s.
Proof. intros n m Hc. by replace (n + _ - _) with n by lia; replace (m + _ - _) with m by lia. Qed.

Lemma moves_trans s1 s2 s3 : moves s1 s2 → moves s2 s3 → moves s1 s3.
Proof.
  intros H12 H23 n m Hc. specialize (H23 _ _ (H12 _ _ Hc)).
  by match goal with H : counts _ ?a ?b |- counts _ ?c ?d => replace c with a by lia; replace d with b by lia end.
Qed.

Lemma subs_add_moves tf opts s : moves s (subs_add tf opts s).2.
Proof.
  destruct s as [subs st]. intros n m Hc. simpl in *. rewrite map_sum_insert.
  rewrite map_size_insert. destruct (subs !! tf) as [prev|] eqn:Hp; simpl.
  - rewrite (map_sum_delete shared1 subs tf), Hp. simpl. destruct Hc as [Hn Hm].
    split; [by replace (n + _ - _) with n by lia|]. unfold shared1. simpl.
    destruct (has_shared_group prev), (has_shared_group opts); simpl.
    + by replace (m + _ - _) with m by lia.
    + replace (m + _ - _) with (m - 1) by lia. by apply count_dec.
    + replace (m + _ - _) with (m + 1) by lia. by apply count_inc.
    + by replace (m + _ - _) with m by lia.
  - rewrite delete_id by done. apply counts_inc with (opts := opts) in Hc.
    by match goal with H : counts _ ?a ?b |- counts _ ?c ?d => replace c with a by lia; replace d with b by lia end.
Qed.

Lemma subs_remove_moves tf s : moves s (subs_remove tf s).2.
Proof.
  destruct s as [subs st]. simpl. destruct (subs !! tf) as [opts|] eqn:Hp; [|apply moves_refl].
  intros n m Hc. simpl in *. rewrite map_size_delete, Hp. simpl.
  rewrite (map_sum_delete shared1 subs tf), Hp. simpl.
  apply counts_dec with (opts := opts) in Hc.
  assert (size subs ≠ 0%nat) by (apply map_size_ne_0_lookup; by eauto).
  by match goal with H : counts _ ?a ?b |- counts _ ?c ?d => replace c with a by lia; replace d with b by lia end.
Qed.

Lemma drain_keys_moves tfs s : moves s (drain_keys tfs s).2.
Proof.
  revert s. induction tfs as [|tf tfs IH]; intros s; simpl; [apply moves_refl|].
  pose proof (subs_remove_moves tf s) as Hr. destruct (subs_remove tf s) as [removed s1].
  specialize (IH s1). destruct (drain_keys tfs s1) as [subs s2]. simpl in *. by eapply moves_trans.
Qed.

Lemma subs_extend_moves subs s : moves s (subs_extend subs s).
Proof.
  unfold subs_extend. revert s. induction subs as [|[tf opts] subs IH]; intros s; simpl; [apply moves_refl|].
  eapply moves_trans; [apply subs_add_moves|apply IH].
Qed.

Lemma foldl_dec l st n m :
  counts st n m →
  counts (foldl (λ st opts, stats_dec opts st) st l) (n - Z.of_nat (length l))
    (m - Z.of_nat (sum_list_with shared1 l)).
Proof.
  revert st n m. induction l as [|opts l IH]; intros st n m Hc; simpl.
  { by rewrite !Z.sub_0_r. }
  apply counts_dec with (opts := opts), IH in Hc.
  by match goal with H : counts _ ?a ?b |- counts _ ?c ?d => replace c with a by lia; replace d with b by lia end.
Qed.

Lemma subs_clear_moves s : moves s (subs_clear s).
Proof.
  destruct s as [subs st]. intros n m Hc. simpl in *. apply foldl_dec with (l := (iter subs).*2) in Hc.
  rewrite length_fmap, length_iter in Hc. rewrite map_sum_empty, map_size_empty.
  rewrite (map_sum_iter shared1 subs).
  replace (sum_list_with shared1 (iter subs).*2) with (sum_list_with (shared1 ∘ snd) (iter subs)) in Hc.
  2: { clear. induction (iter subs) as [|x l IH]; [done|]. simpl. by rewrite IH. }
  by match goal with H : counts _ ?a ?b |- counts _ ?c ?d => replace c with a by lia; replace d with b by lia end.
Qed.

(** ** Hand-over *)

Lemma drain_keys_spec l subs st :
  NoDup l.*1 → (∀ tf opts, (tf, opts) ∈ l ↔ subs !! tf = Some opts) →
  (drain_keys l.*1 (subs, st)).1 = l ∧ (drain_keys l.*1 (subs, st)).2.1 = ∅.
Proof.
  revert subs st. induction l as [|[tf opts] l IH]; intros subs st Hnd Hl; cbn [drain_keys fmap list_fmap].
  { split; [done|]. apply map_empty. intros tf. destruct (subs !! tf) as [opts|] eqn:E; [|done].
    apply Hl in E. by apply not_elem_of_nil in E. }
  apply NoDup_cons in Hnd as [Hx Hnd].
  assert (subs !! tf = Some opts) as Htf by (apply Hl; by left).
  cbn [subs_remove fst]. rewrite Htf. fold (l.*1).
  destruct (IH (delete tf subs) (stats_dec opts st) Hnd) as [H1 H2].
  { intros tf' opts'. rewrite lookup_delete_Some, <- Hl, elem_of_cons. split.
    - intros Hin. split; [|by right]. intros <-. apply Hx. by apply (list_elem_of_fmap_2 fst _ (tf, opts')).
    - intros [Hne [[=]|?]]; [congruence|done]. }
  destruct (drain_keys l.*1 (delete tf subs, stats_dec opts st)) as [out s2]. simpl in *. by rewrite H1.
Qed.

Lemma subs_drain_spec s : (subs_drain s).1 = iter s.1 ∧ (subs_drain s).2.1 = ∅.
Proof.
  destruct s as [subs st]. apply drain_keys_spec; [apply NoDup_iter_keys|]. intros. apply elem_of_iter.
Qed.

Lemma subs_extend_spec l s tf :
  NoDup l.*1 → (subs_extend l s).1 !! tf = match (list_to_map l : SessionSubMap) !! tf with Some o => Some o | None => s.1 !! tf end.
Proof.
  unfold subs_extend. revert s. induction l as [|[k opts] l IH]; intros s Hnd; simpl.
  { by rewrite lookup_empty. }
  apply NoDup_cons in Hnd as [Hx Hnd]. rewrite IH by done. destruct s as [subs st]. simpl.
  destruct (decide (k = tf)) as [->|Hne].
  - rewrite !lookup_insert_eq. by rewrite (not_elem_of_list_to_map_1 _ _ Hx).
  - by rewrite !lookup_insert_ne.
Qed.

(** Taking over the subscriptions of a session gives the same map. *)
Lemma handover_same s st' : (subs_extend (subs_drain s).1 (∅, st')).1 = s.1.
Proof.
  apply map_eq. intros tf. rewrite (proj1 (subs_drain_spec s)).
  rewrite subs_extend_spec by apply NoDup_iter_keys. simpl. rewrite lookup_empty.
  destruct ((list_to_map (iter s.1) : SessionSubMap) !! tf) as [opts|] eqn:E.
  - apply elem_of_list_to_map_2, elem_of_iter in E. done.
  - apply not_elem_of_list_to_map_2 in E. destruct (s.1 !! tf) as [opts|] eqn:Es; [|done].
    apply elem_of_iter in Es. exfalso. apply E. by apply (list_elem_of_fmap_2 fst _ (tf, opts)).
Qed.

(** ** All sessions *)

(** The sessions of the broker, by a number, with the statistics they share. *)
Record SubSystem : Type := mkSystem { sessions : gmap Z SessionSubMap; sys_stats : SubStats }.

Inductive SubOp : Type :=
| OpAdd (k : Z) (tf : TopicFilter) (opts : SubscriptionOptions)
| OpRemove (k : Z) (tf : TopicFilter)
| OpClear (k : Z)
| OpHandover (k k' : Z).

Definition on_session (f : SessionSubMap * SubStats → SessionSubMap * SubStats) (k : Z) (s : SubSystem)
    : SubSystem :=
  let '(subs, st) := f (default ∅ (sessions s !! k), sys_stats s) in
  mkSystem (<[k := subs]> (sessions s)) st.

Definition sub_step (o : SubOp) (s : SubSystem) : SubSystem :=
  match o with
  | OpAdd k tf opts => on_session (λ x, (subs_add tf opts x).2) k s
  | OpRemove k tf => on_session (λ x, (subs_remove tf x).2) k s
  | OpClear k => on_session subs_clear k s
  | OpHandover k k' =>
      let moved := (subs_drain (default ∅ (sessions s !! k), sys_stats s)).1 in
      on_session (subs_extend moved) k' (on_session (λ x, (subs_drain x).2) k s)
  end.

(** The statistics count the subscriptions of all sessions. *)
Definition stats_exact (s : SubSystem) : Prop :=
  counts (sys_stats s) (Z.of_nat (map_sum subs_len (sessions s)))
    (Z.of_nat (map_sum shared_len (sessions s))).

Lemma on_session_lookup f k s :
  sessions (on_session f k s) !! k = Some (f (default ∅ (sessions s !! k), sys_stats s)).1.
Proof. unfold on_session. destruct (f _). simpl. apply lookup_insert_eq. Qed.

Lemma on_session_lookup_ne f k k' s : k ≠ k' → sessions (on_session f k s) !! k' = sessions s !! k'.
Proof. intros. unfold on_session. destruct (f _). simpl. by apply lookup_insert_ne. Qed.

Lemma on_session_exact f k s : (∀ x, moves x (f x)) → stats_exact s → stats_exact (on_session f k s).
Proof.
  intros Hf Hs. unfold on_session, stats_exact in *. specialize (Hf (default ∅ (sessions s !! k), sys_stats s)).
  destruct (f _) as [subs st]. specialize (Hf _ _ Hs). simpl in *.
  rewrite !map_sum_insert. rewrite (map_sum_delete subs_len (sessions s) k), (map_sum_delete shared_len (sessions s) k) in Hf.
  assert (∀ g : SessionSubMap → nat, g ∅ = 0%nat →
          from_option g 0%nat (sessions s !! k) = g (default ∅ (sessions s !! k))) as Hd
    by (intros g Hg; by destruct (sessions s !! k)).
  rewrite (Hd subs_len), (Hd shared_len) in Hf.
  2: { rewrite shared_len_sum. apply map_sum_empty. }
  2: { apply map_size_empty. }
  rewrite !shared_len_sum in *. unfold subs_len at 1 in Hf. unfold subs_len at 1.
  by match goal with H : counts _ ?a ?b |- counts _ ?c ?d => replace c with a by lia; replace d with b by lia end.
Qed.

Lemma sub_step_exact o s : stats_exact s → stats_exact (sub_step o s).
Proof.
  intros Hs. destruct o; simpl; repeat apply on_session_exact; try done; intros x.
  - apply subs_add_moves.
  - apply subs_remove_moves.
  - apply subs_clear_moves.
  - apply subs_extend_moves.
  - apply drain_keys_moves.
Qed.

(** C35: the statistics are exact and a hand-over loses nothing.  After any
    sequence of subscribes, re-subscribes, unsubscribes, clears and hand-overs
    of any sessions, the two counters of the broker say how many subscriptions
    and how many shared ones the sessions have together (as machine integers);
    and a further hand-over from a session to a new one gives it exactly the
    subscriptions the old one had, and leaves that one without. *)
Theorem session_subs_exact (os : list SubOp) k k' :
  let s := foldl (λ s o, sub_step o s) (mkSystem ∅ stats_new) os in
  stats_exact s ∧
  (k ≠ k' → sessions s !! k' = None →
   let s' := sub_step (OpHandover k k') s in
   sessions s' !! k' = Some (default ∅ (sessions s !! k)) ∧ sessions s' !! k = Some ∅ ∧ stats_exact s').
Proof.
  intros s. assert (stats_exact s) as Hs.
  { subst s. assert (stats_exact (mkSystem ∅ stats_new)) as H0.
    { unfold stats_exact. simpl. by rewrite !map_sum_empty. }
    revert H0. generalize (mkSystem ∅ stats_new) as s0.
    induction os as [|o os IH]; intros s0 H0; [done|]. simpl. by apply IH, sub_step_exact. }
  split; [done|]. intros Hne Hnew s'.
  split; [|split; [|by apply sub_step_exact]]; subst s'; clearbody s; cbn [sub_step].
  - rewrite on_session_lookup, on_session_lookup_ne, Hnew by done. simpl. f_equal. apply handover_same.
  - rewrite on_session_lookup_ne, on_session_lookup by done. f_equal. apply subs_drain_spec.
Qed.
End Subs.

Definition ex_opts (g : option SharedGroup) : SubscriptionOptions :=
  SubV3 (mkSubOptionsV3 AtLeastOnce g None).

(** A subscription that becomes shared, one that goes, and a hand-over. *)
Lemma session_subs_exact_witness :
  let step := @sub_step (map_order str) in
  let s := foldl (λ s o, step o s) (mkSystem ∅ stats_new)
             [OpAdd 1 (lit "a") (ex_opts None); OpAdd 1 (lit "b") (ex_opts None);
              OpAdd 1 (lit "a") (ex_opts (Some (lit "g"))); OpRemove 1 (lit "b")] in
  sessions (step (OpHandover 1 2) s) !! 2 = Some (default ∅ (sessions s !! 1)) ∧
  count (subscriptions (sys_stats s)) = 1 ∧ count (subscriptions_shared (sys_stats s)) = 1.
Proof.
  split; [|split; vm_compute; reflexivity].
  apply (@session_subs_exact (map_order str) (map_order_ok str)
    [OpAdd 1 (lit "a") (ex_opts None); OpAdd 1 (lit "b") (ex_opts None);
     OpAdd 1 (lit "a") (ex_opts (Some (lit "g"))); OpRemove 1 (lit "b")] 1 2).
  - lia.
  - vm_compute. reflexivity.
Defined.
