(* ===== verification/ConnInfo.v ===== *)
(** * What the broker knows of a connection

    Models the parts of [ferromq/src/types.rs] and [ferromq-net/src/error.rs]
    that describe a connection and why it ends: the CONNECT packet of either
    protocol with its will ([ConnectInfo], [LastWill]), the DISCONNECT packet
    ([Disconnect], [DisconnectInfo]), the reasons and errors ([Reason],
    [MqttError]) with the MQTT 5 reason code of each, and the flags of a
    session.  The text of an error is kept where the source spells it out.

    The parser of the query part of an MQTT 3 will topic
    ([url::form_urlencoded]) is not part of the repository: it is a parameter of
    [publish_try_from]. *)

From stdpp Require Import base list numbers option strings.
From Stdlib Require Import ZArith Lia.
From S2P Require Import Prelude Errors CodecTypes PacketV5 Topic BrokerTypes Acl.

#[local] Open Scope Z_scope.

(** ** CONNECT *)

Inductive LastWill : Type :=
| WillV3 (lw : MqttV3.LastWill)
| WillV5 (lw : PacketV5.LastWill).

Definition ci_last_will (ci : ConnectInfo) : option LastWill :=
  match ci with
  | ConnV3 _ c => WillV3 <$> MqttV3.last_will c
  | ConnV5 _ c => WillV5 <$> c_last_will c
  end.

Definition ci_keep_alive (ci : ConnectInfo) : Z :=
  match ci with ConnV3 _ c => MqttV3.keep_alive c | ConnV5 _ c => c_keep_alive c end.

Definition ci_ipaddress (ci : ConnectInfo) : option SocketAddr := id_remote_addr (ci_id ci).

Definition ci_clean_start (ci : ConnectInfo) : bool :=
  match ci with ConnV3 _ c => MqttV3.clean_session c | ConnV5 _ c => c_clean_start c end.

Definition ci_max_packet_size (ci : ConnectInfo) : option Z :=
  match ci with ConnV3 _ _ => None | ConnV5 _ c => c_max_packet_size c end.

Definition ci_auth_method (ci : ConnectInfo) : option bytes :=
  match ci with ConnV3 _ _ => None | ConnV5 _ c => c_auth_method c end.

(** [ConnectAckReason::success], [not_authorized] and [success_or_auth_error] *)
Definition ack_success (r : ConnAckReason) : bool :=
  match r with AckV3 MqttV3.ConnectionAccepted | AckV5 CASuccess => true | _ => false end.
Definition ack_not_authorized (r : ConnAckReason) : bool :=
  match r with
  | AckV3 MqttV3.ConnNotAuthorized | AckV3 MqttV3.BadUserNameOrPassword
  | AckV5 CANotAuthorized | AckV5 CABadUserNameOrPassword => true
  | _ => false
  end.
Definition ack_success_or_auth_error (r : ConnAckReason) : bool * bool :=
  match r with
  | AckV3 MqttV3.ConnectionAccepted | AckV5 CASuccess => (true, false)
  | AckV3 MqttV3.ConnNotAuthorized | AckV3 MqttV3.BadUserNameOrPassword
  | AckV5 CANotAuthorized | AckV5 CABadUserNameOrPassword => (false, true)
  | _ => (false, false)
  end.

(** Durations are nanoseconds. *)
Definition from_secs (s : Z) : Z := s * 1000000000.
Definition from_millis (ms : Z) : Z := ms * 1000000.
Definition as_millis (d : Z) : Z := d / 1000000.
Definition as_secs (d : Z) : Z := d / 1000000000.

Definition will_delay_interval (lw : LastWill) : option Z :=
  match lw with
  | WillV3 _ => None
  | WillV5 lw => from_secs <$> lw_will_delay_interval_sec lw
  end.

Definition lastwill_retain (lw : LastWill) : bool :=
  match lw with WillV3 lw => MqttV3.will_retain lw | WillV5 lw => lw_retain lw end.

(** The bytes after the first question mark. *)
Definition QUESTION : Z := 63.
Fixpoint query_of (s : str) : option str :=
  match s with
  | [] => None
  | c :: s => if c =? QUESTION then Some s else query_of s
  end.

(** [Publish::try_from(LastWill)] at the time [now]; it never fails. *)
Definition publish_try_from (form_urlencoded : bytes → UserProperties) (now : Z) (lw : LastWill)
    : BrokerTypes.Publish :=
  let '(retain, qos, topic, payload, props) :=
    match lw with
    | WillV3 lw =>
        let user_properties :=
          match query_of (MqttV3.will_topic lw) with
          | Some query => form_urlencoded query
          | None => []
          end in
        (MqttV3.will_retain lw, MqttV3.will_qos lw, MqttV3.will_topic lw, MqttV3.will_message lw,
         mkPublishProperties None None None None user_properties false None [])
    | WillV5 lw =>
        (lw_retain lw, lw_qos lw, lw_topic lw, lw_message lw,
         mkPublishProperties None (lw_correlation_data lw) (lw_message_expiry_interval lw)
           (lw_content_type lw) (lw_user_properties lw) (default false (lw_is_utf8_payload lw))
           (lw_response_topic lw) [])
    end in
  BrokerTypes.mkPublish (CodecTypes.mkPublish false retain qos topic None payload (Some props))
    None None (Some now).

(** ** DISCONNECT *)

Inductive Disconnect : Type :=
| DiscV3
| DiscV5 (d : PacketV5.Disconnect)
| DiscOther (r : str).

Definition disconnect_reason_code (d : Disconnect) : option DisconnectReasonCode :=
  match d with DiscV5 d => Some (d_reason_code d) | _ => None end.

Definition disconnect_reason (d : Disconnect) : option str :=
  match d with DiscV3 => None | DiscV5 d => d_reason_string d | DiscOther r => Some r end.

(** ** Errors *)

Inductive MqttError : Type :=
| MEHandshake (e : HandshakeError)
| MEProtocol (e : ProtocolError)
| MEDecode (e : DecodeError)
| MEEncode (e : EncodeError)
| MESendPacket (e : SendPacketError)
| MEReadTimeout
| MEWriteTimeout
| MEFlushTimeout
| MECloseTimeout
| MEPublishAckReason (r : PublishAckReason) (s : str)
| MEServiceUnavailable
| MEInvalidProtocol
| METooManySubscriptions
| METooManyTopicLevels
| MESubscribeLimited (s : str)
| MEIdentifierRejected
| MEPacketIdInUse (pid : Z)
| MENone.

Definition mqtt_error_reason (e : MqttError) : DisconnectReasonCode :=
  match e with
  | MEHandshake e => handshake_error_reason e
  | MEProtocol e => protocol_error_reason e
  | MEDecode e => decode_error_reason e
  | MEEncode e => encode_error_reason e
  | MESendPacket e => send_error_reason e
  | MEReadTimeout | MEWriteTimeout | MEFlushTimeout | MECloseTimeout => KeepAliveTimeout
  | MEPublishAckReason _ _ => ImplementationSpecificError
  | MEServiceUnavailable => ServerBusy
  | MEInvalidProtocol => ProtocolErrorCode
  | METooManySubscriptions => QuotaExceeded
  | METooManyTopicLevels => TopicNameInvalid
  | MESubscribeLimited _ => QuotaExceeded
  | MEIdentifierRejected => NotAuthorized
  | MEPacketIdInUse _ => UnspecifiedError
  | MENone => UnspecifiedError
  end.

(** [anyhow::Error]: an MQTT error, or any other with its text. *)
Inductive Error : Type :=
| EMqtt (e : MqttError)
| EOther (what : str).

Definition error_of_topic (e : TopicError) : Error :=
  match e with
  | InvalidTopic s => EOther (lit "InvalidTopic(" ++ s ++ lit ")")
  | InvalidLevel s => EOther (lit "InvalidLevel(" ++ s ++ lit ")")
  end.

(** The [anyhow!] texts of [parse_topic_filter]. *)
Definition error_of_filter (e : FilterError) : Error :=
  match e with
  | IllegalTopicFilter s => EOther (lit "Illegal topic filter, " ++ s)
  | SharedNotEnabled s => EOther (lit "Shared subscription is not enabled, " ++ s)
  | LimitNotEnabled s => EOther (lit "Limit subscription is not enabled, " ++ s)
  end.

Inductive Reason : Type :=
| ConnectDisconnect (d : option Disconnect)
| ConnectReadWriteTimeout
| ConnectReadWriteError
| ConnectRemoteClose
| ConnectKeepaliveTimeout
| ConnectKicked (is_admin : bool)
| HandshakeRateExceeded
| SessionExpiration
| SubscribeFailed (s : option str)
| UnsubscribeFailed (s : option str)
| RPublishResult (r : PublishResult)
| SubscribeRefused
| DelayedPublishRefused
| MessageExpiration
| MessageQueueFull
| RInflightWindowFull
| RProtocolError (s : str)
| RError (s : str)
| RMqttError (e : MqttError)
| Reasons (rs : list Reason)
| RUnknown.

Definition is_kicked (r : Reason) (admin_opt : bool) : bool :=
  match r with ConnectKicked a => Bool.eqb a admin_opt | _ => false end.
Definition is_kicked_by_admin (r : Reason) : bool :=
  match r with ConnectKicked true => true | _ => false end.

(** [From<Error> for Reason] *)
Definition reason_of_error (e : Error) : Reason :=
  match e with EMqtt e => RMqttError e | EOther s => RError s end.

Fixpoint to_reason_code (r : Reason) : DisconnectReasonCode :=
  match r with
  | ConnectDisconnect (Some (DiscV5 d)) => d_reason_code d
  | ConnectDisconnect _ => NormalDisconnection
  | ConnectReadWriteTimeout => KeepAliveTimeout
  | ConnectReadWriteError => UnspecifiedError
  | ConnectRemoteClose => ServerShuttingDown
  | ConnectKeepaliveTimeout => KeepAliveTimeout
  | ConnectKicked is_admin => if is_admin then AdministrativeAction else NotAuthorized
  | HandshakeRateExceeded => ConnectionRateExceeded
  | SessionExpiration => SessionTakenOver
  | SubscribeFailed _ => UnspecifiedError
  | UnsubscribeFailed _ => UnspecifiedError
  | SubscribeRefused => NotAuthorized
  | RPublishResult pubres => puback_to_reason_code (pr_reason_code pubres)
  | DelayedPublishRefused => NotAuthorized
  | MessageExpiration => MessageRateTooHigh
  | MessageQueueFull => QuotaExceeded
  | RInflightWindowFull => ReceiveMaximumExceeded
  | RProtocolError _ => ProtocolErrorCode
  | RError _ => UnspecifiedError
  | RMqttError e => mqtt_error_reason e
  | Reasons (first :: _) => to_reason_code first
  | Reasons [] => UnspecifiedError
  | RUnknown => UnspecifiedError
  end.

(** [From<Reason> for PublishResult] *)
Definition publish_result_of_reason (r : Reason) : PublishResult :=
  match r with
  | RPublishResult r => r
  | MessageQueueFull => publish_result PAQuotaExceeded (Some (lit "Message queue full")) false
  | RInflightWindowFull => publish_result PAQuotaExceeded (Some (lit "Inflight window full")) false
  | SubscribeRefused | DelayedPublishRefused =>
      publish_result PAImplementationSpecificError (Some (lit "Publish refused")) false
  | MessageExpiration => publish_result PAUnspecifiedError (Some (lit "Message expired")) true
  | RProtocolError msg =>
      publish_result PAUnspecifiedError (Some (lit "Protocol error: " ++ msg)) true
  | RError msg => publish_result PAImplementationSpecificError (Some msg) true
  | RMqttError _ => publish_result PAUnspecifiedError (Some (lit "MQTT internal error")) true
  | _ => publish_result PAUnspecifiedError (Some (lit "Connection or session related error")) true
  end.

(** [Display for Reason]; the derived [Debug] texts of a DISCONNECT and of a
    PUBACK reason and the texts of [MqttError] are arguments. *)
Section Display.
Context (show_disconnect : Disconnect → str) (show_puback : PublishAckReason → str)
  (show_mqtt_error : MqttError → str).

Fixpoint reason_display (r : Reason) : str :=
  match r with
  | ConnectDisconnect (Some d) => lit "Disconnect(" ++ show_disconnect d ++ lit ")"
  | ConnectDisconnect None => lit "Disconnect"
  | ConnectReadWriteTimeout => lit "ReadWriteTimeout"
  | ConnectReadWriteError => lit "ReadWriteError"
  | ConnectRemoteClose => lit "RemoteClose"
  | ConnectKeepaliveTimeout => lit "KeepaliveTimeout"
  | ConnectKicked admin_opt => if admin_opt then lit "ByAdminKick" else lit "Kicked"
  | HandshakeRateExceeded => lit "HandshakeRateExceeded"
  | SessionExpiration => lit "SessionExpiration"
  | SubscribeFailed (Some r) => lit "SubscribeFailed(" ++ r ++ lit ")"
  | SubscribeFailed None => lit "SubscribeFailed"
  | UnsubscribeFailed (Some r) => lit "UnsubscribeFailed(" ++ r ++ lit ")"
  | UnsubscribeFailed None => lit "UnsubscribeFailed"
  | SubscribeRefused => lit "SubscribeRefused"
  | RPublishResult pubres =>
      match pr_reason_string pubres with Some rs => rs | None => show_puback (pr_reason_code pubres) end
  | DelayedPublishRefused => lit "DelayedPublishRefused"
  | MessageExpiration => lit "MessageExpiration"
  | MessageQueueFull => lit "MessageQueueFull"
  | RInflightWindowFull => lit "Inflight window is full"
  | RError r => r
  | RMqttError e => show_mqtt_error e
  | RProtocolError r => lit "ProtocolError(" ++ r ++ lit ")"
  | Reasons rs =>
      (fix join (rs : list Reason) : str :=
         match rs with
         | [] => []
         | [r] => reason_display r
         | r :: rs => reason_display r ++ lit "," ++ join rs
         end) rs
  | RUnknown => lit "Unknown"
  end.
End Display.

(** The assertions of [test_reason]. *)
Example test_reason :
  is_kicked (ConnectKicked false) false = true ∧ is_kicked (ConnectKicked false) true = false ∧
  is_kicked (ConnectKicked true) true = true ∧ is_kicked_by_admin (ConnectKicked true) = true ∧
  is_kicked_by_admin (ConnectKicked false) = false ∧ is_kicked (ConnectDisconnect None) false = false ∧
  reason_display (λ _, []) (λ _, []) (λ _, []) (Reasons [ConnectKicked false; MessageExpiration]) =
    lit "Kicked,MessageExpiration".
Proof. done. Qed.

(** ** How a session was disconnected *)

Record DisconnectInfo : Type := mkDisconnectInfo {
  di_disconnected_at : Z;
  di_reasons : list Reason;
  di_mqtt_disconnect : option Disconnect;
}.

Definition di_default : DisconnectInfo := mkDisconnectInfo 0 [] None.
Definition di_new (disconnected_at : Z) : DisconnectInfo := mkDisconnectInfo disconnected_at [] None.
Definition di_is_disconnected (d : DisconnectInfo) : bool := negb (di_disconnected_at d =? 0).

(** ** Flags *)

Definition Kicked : Z := 1.
Definition ByAdminKick : Z := 2.
Definition DisconnectReceived : Z := 4.
Definition CleanStart : Z := 8.
Definition Ping : Z := 16.

Definition SessionPresent : Z := 1.
Definition Superuser : Z := 2.
Definition Connected : Z := 4.

Definition flag_insert (flags f : Z) : Z := Z.lor flags f.
Definition flag_remove (flags f : Z) : Z := Z.ldiff flags f.

(** A flag is in the set exactly when it was there or has just been inserted. *)
Lemma contains_insert flags n m :
  0 ≤ n → 0 ≤ m → contains (flag_insert flags (2 ^ n)) (2 ^ m) = (n =? m) || contains flags (2 ^ m).
Proof.
  intros Hn Hm. unfold contains, flag_insert.
  assert (∀ f k, 0 ≤ k → (Z.land f (2 ^ k) =? 2 ^ k) = Z.testbit f k) as Hbit.
  { intros f k Hk. destruct (Z.testbit f k) eqn:Hf.
    - apply Z.eqb_eq, Z.bits_inj'. intros i Hi. rewrite Z.land_spec, Z.pow2_bits_eqb by done.
      destruct (Z.eqb_spec k i); [subst; by rewrite Hf|]. by rewrite andb_false_r.
    - apply Z.eqb_neq. intros H. apply (f_equal (λ x, Z.testbit x k)) in H.
      rewrite Z.land_spec, Z.pow2_bits_true, Hf in H by done. done. }
  rewrite !Hbit by done. rewrite Z.lor_spec, Z.pow2_bits_eqb by done. by rewrite orb_comm.
Qed.
