(* ===== verification/Fitter.v ===== *)
(** * Parameters of a connection

    Models [ferromq/src/fitter.rs], with the fields of [Builder]
    ([ferromq-net/src/builder.rs]) that the broker reads as the configuration of
    a listener: the keep-alive of a connection, its windows and queues, the
    expiry of its session and messages, and the limits on topic aliases.

    [f32] is binary32 of [SpecFloat]; durations are nanoseconds. *)

From stdpp Require Import base list numbers option strings.
From Stdlib Require Import ZArith Lia SpecFloat.
From S2P Require Import Prelude Errors CodecTypes PacketV5 Topic BrokerTypes Acl Hook ConnInfo.

#[local] Open Scope Z_scope.

(** ** The listener *)

Record ListenerConfig : Type := mkListener {
  lc_max_packet_size : Z;
  lc_allow_anonymous : bool;
  lc_min_keepalive : Z;
  lc_max_keepalive : Z;
  lc_allow_zero_keepalive : bool;
  lc_keepalive_backoff : spec_float;
  lc_max_inflight : Z;
  lc_handshake_timeout : Z;
  lc_max_mqueue_len : Z;
  lc_mqueue_rate_limit : Z * Z;
  lc_max_clientid_len : Z;
  lc_max_qos_allowed : QoS;
  lc_max_topic_levels : Z;
  lc_session_expiry_interval : Z;
  lc_max_session_expiry_interval : Z;
  lc_message_retry_interval : Z;
  lc_message_expiry_interval : Z;
  lc_max_subscriptions : Z;
  lc_max_topic_aliases : Z;
  lc_limit_subscription : bool;
  lc_delayed_publish : bool;
  lc_cert_cn_as_username : bool;
  lc_cert_subject_dn_as_username : bool;
  lc_collect_cert_info : bool;
}.

(** ** Binary32 *)

Definition f32_mul : spec_float → spec_float → spec_float := SFmul 24 128.
(** [x as f32] of an integer. *)
Definition f32_of (x : Z) : spec_float := binary_normalize 24 128 x 0 false.
(** The literals 0.75 and 2.0. *)
Definition f32_0_75 : spec_float := binary_normalize 24 128 3 (-2) false.
Definition f32_2 : spec_float := f32_of 2.

(** [x as u16]: towards zero, saturating, and 0 for NaN. *)
Definition f32_as_u16 (x : spec_float) : Z :=
  match x with
  | S754_finite false m e =>
      Z.min 65535 (if 0 <=? e then Z.pos m * 2 ^ e else Z.pos m / 2 ^ (- e))
  | S754_infinity false => 65535
  | _ => 0
  end.

(** [Builder::new] *)
Definition listener_new : ListenerConfig :=
  mkListener (1024 * 1024) true 0 65535 true f32_0_75 16 (from_secs 30) 1000
    (2 ^ 32 - 1, from_secs 1) 65535 ExactlyOnce 0 (from_secs (2 * 60 * 60)) 0 (from_secs 20)
    (from_secs (5 * 60)) 0 0 false false false false false.

(** ** The fitter *)

Record DefaultFitter : Type := mkFitter {
  f_conn_info : ConnectInfo;
  f_listen_cfg : ListenerConfig;
}.

Inductive KeepAliveError : Type := KeepAliveZero | KeepAliveTooSmall (min : Z) | KeepAliveTooLarge (max : Z).

(** [keep_alive]: the timeout of the connection, and the interval the client is
    told to keep, which MQTT 5 allows the server to change. *)
Definition fitter_keep_alive (f : DefaultFitter) (keep_alive : Z) : outcome KeepAliveError Z * Z :=
  let cfg := f_listen_cfg f in
  let zero := (if lc_allow_zero_keepalive cfg then Ok 0 else Err KeepAliveZero, keep_alive) in
  let timeout keep_alive :=
    if keep_alive <? 6 then keep_alive + 3
    else f32_as_u16 (f32_mul (f32_mul (f32_of keep_alive) (lc_keepalive_backoff cfg)) f32_2) in
  if proto_ver (f_conn_info f) =? MQTT_LEVEL_5 then
    if keep_alive =? 0 then zero
    else
      let keep_alive :=
        if keep_alive <? lc_min_keepalive cfg then lc_min_keepalive cfg
        else if lc_max_keepalive cfg <? keep_alive then lc_max_keepalive cfg
        else keep_alive in
      (Ok (timeout keep_alive), keep_alive)
  else if keep_alive =? 0 then zero
  else if keep_alive <? lc_min_keepalive cfg then (Err (KeepAliveTooSmall (lc_min_keepalive cfg)), keep_alive)
  else if lc_max_keepalive cfg <? keep_alive then (Err (KeepAliveTooLarge (lc_max_keepalive cfg)), keep_alive)
  else (Ok (timeout keep_alive), keep_alive).

Definition fitter_max_mqueue_len (f : DefaultFitter) : Z := lc_max_mqueue_len (f_listen_cfg f).
Definition fitter_mqueue_rate_limit (f : DefaultFitter) : Z * Z := lc_mqueue_rate_limit (f_listen_cfg f).

Definition fitter_max_inflight (f : DefaultFitter) : Z :=
  let receive_max := match f_conn_info f with ConnV5 _ c => c_receive_max c | _ => None end in
  match receive_max with
  | Some receive_max => Z.min (lc_max_inflight (f_listen_cfg f)) receive_max
  | None => lc_max_inflight (f_listen_cfg f)
  end.

Definition fitter_session_expiry_interval (f : DefaultFitter) (d : option Disconnect) : Z :=
  let expiry_interval :=
    match f_conn_info f with
    | ConnV5 _ c => from_secs (c_session_expiry_interval_secs c)
    | _ => lc_session_expiry_interval (f_listen_cfg f)
    end in
  let interval :=
    match d with
    | Some (DiscV5 d) =>
        match d_session_expiry_interval_secs d with
        | Some interval_secs => from_secs interval_secs
        | None => expiry_interval
        end
    | _ => expiry_interval
    end in
  if lc_max_session_expiry_interval (f_listen_cfg f) =? 0 then interval
  else Z.min interval (lc_max_session_expiry_interval (f_listen_cfg f)).

Definition fitter_message_expiry_interval (f : DefaultFitter) (p : CodecTypes.Publish) : Z :=
  default (lc_message_expiry_interval (f_listen_cfg f))
    (properties p ≫= λ pp, from_secs <$> message_expiry_interval pp).

Definition fitter_max_client_topic_aliases (f : DefaultFitter) : Z :=
  match f_conn_info f with ConnV5 _ _ => lc_max_topic_aliases (f_listen_cfg f) | _ => 0 end.

Definition fitter_max_server_topic_aliases (f : DefaultFitter) : Z :=
  match f_conn_info f with
  | ConnV5 _ c => Z.min (c_topic_alias_max c) (lc_max_topic_aliases (f_listen_cfg f))
  | _ => 0
  end.

(** ** The keep-alive *)

(** With the backoff of 0.75 the timeout is one and a half times the interval,
    in every case of a 16-bit interval, up to the largest number of seconds. *)
Definition backoff_exact (k : Z) : bool :=
  f32_as_u16 (f32_mul (f32_mul (f32_of k) f32_0_75) f32_2) =? Z.min 65535 (3 * k / 2).

Fixpoint all_from (n : nat) (k : Z) : bool :=
  match n with O => true | S n => backoff_exact k && all_from n (k + 1) end.

Lemma all_from_sound n k j : all_from n k = true → k ≤ j < k + Z.of_nat n → backoff_exact j = true.
Proof.
  revert k. induction n as [|n IH]; intros k; simpl; [lia|].
  intros [Hk Hn]%andb_true_iff Hj. destruct (decide (j = k)) as [->|]; [done|].
  apply (IH (k + 1)); [done|lia].
Qed.

Lemma backoff_all : all_from (Z.to_nat 65536) 0 = true.
Proof. vm_compute. reflexivity. Qed.

Lemma backoff_value k : 0 ≤ k < 65536 →
  f32_as_u16 (f32_mul (f32_mul (f32_of k) f32_0_75) f32_2) = Z.min 65535 (3 * k / 2).
Proof.
  intros Hk. apply Z.eqb_eq. apply (all_from_sound _ _ k backoff_all). rewrite Z2Nat.id; lia.
Qed.

Definition u16_limits (cfg : ListenerConfig) : Prop :=
  0 ≤ lc_min_keepalive cfg ≤ lc_max_keepalive cfg ∧ lc_max_keepalive cfg ≤ 65535.

(** The keep-alive of a connection is negotiated within the listener's limits:
    with the default backoff a client is cut off no earlier than its interval,
    one and a half intervals later while that fits 16 bits; an interval outside
    the limits is moved into them for MQTT 5 and refused for MQTT 3; an interval
    of zero turns the check off where the listener allows it. *)
Theorem keep_alive_negotiated f k :
  lc_keepalive_backoff (f_listen_cfg f) = f32_0_75 → u16_limits (f_listen_cfg f) → u16_range k →
  let cfg := f_listen_cfg f in
  let k' := Z.max (lc_min_keepalive cfg) (Z.min (lc_max_keepalive cfg) k) in
  match fitter_keep_alive f k with
  | (Ok t, told) =>
      (k = 0 ∧ lc_allow_zero_keepalive cfg = true ∧ t = 0 ∧ told = 0) ∨
      (k ≠ 0 ∧ told = k' ∧ (proto_ver (f_conn_info f) ≠ MQTT_LEVEL_5 → told = k) ∧
       told ≤ t ≤ 65535 ∧ (told < 65535 → told < t) ∧
       (6 ≤ told → t = Z.min 65535 (3 * told / 2)))
  | (Err KeepAliveZero, _) => k = 0 ∧ lc_allow_zero_keepalive cfg = false
  | (Err _, _) => proto_ver (f_conn_info f) ≠ MQTT_LEVEL_5 ∧ k ≠ 0 ∧ k ≠ k'
  | (Panic, _) => False
  end.
Proof.
  intros Hb [Hl Hm] Hk cfg k'. unfold u16_range in Hk.
  assert (∀ x, 0 ≤ x ≤ 65535 →
    let t := if x <? 6 then x + 3 else f32_as_u16 (f32_mul (f32_mul (f32_of x) f32_0_75) f32_2) in
    x ≤ t ≤ 65535 ∧ (x < 65535 → x < t) ∧ (6 ≤ x → t = Z.min 65535 (3 * x / 2))) as Ht.
  { intros x Hx. cbv zeta. destruct (Z.ltb_spec x 6); [lia|].
    rewrite backoff_value by lia. pose proof (Z.div_mod (3 * x) 2). pose proof (Z.mod_pos_bound (3 * x) 2). lia. }
  unfold fitter_keep_alive. subst cfg. rewrite Hb.
  generalize dependent (f_listen_cfg f). intros cfg ? Hl Hm k'.
  destruct (Z.eqb_spec (proto_ver (f_conn_info f)) MQTT_LEVEL_5) as [Hv|Hv];
    destruct (Z.eqb_spec k 0) as [Hz|Hz].
  1,3: destruct (lc_allow_zero_keepalive cfg); [left|]; auto.
  - right. cbv zeta in Ht |- *.
    assert ((if k <? lc_min_keepalive cfg then lc_min_keepalive cfg
             else if lc_max_keepalive cfg <? k then lc_max_keepalive cfg else k) = k') as ->.
    { subst k'. destruct (Z.ltb_spec k (lc_min_keepalive cfg)), (Z.ltb_spec (lc_max_keepalive cfg) k);
        lia. }
    split; [done|]. split; [done|]. split; [done|]. apply Ht. lia.
  - destruct (Z.ltb_spec k (lc_min_keepalive cfg)); [split; [done|lia]|].
    destruct (Z.ltb_spec (lc_max_keepalive cfg) k); [split; [done|lia]|].
    right. split; [done|]. split; [lia|]. split; [done|]. apply Ht. lia.
Qed.

Definition ex_conn_v3 (keep_alive : Z) : ConnectInfo :=
  ConnV3 (id_from 0 1 (lit "c")) (MqttV3.mkConnect default_protocol true keep_alive None (lit "c") None None None).

Lemma keep_alive_negotiated_witness :
  fitter_keep_alive (mkFitter (ex_conn_v3 60) listener_new) 60 = (Ok 90, 60) ∧
  let k' := Z.max 0 (Z.min 65535 60) in 60 = k'.
Proof.
  split; [vm_compute; reflexivity|].
  pose proof (keep_alive_negotiated (mkFitter (ex_conn_v3 60) listener_new) 60 eq_refl
    ltac:(unfold u16_limits; simpl; lia) ltac:(unfold u16_range; lia)) as H.
  destruct H as [H|H]; [lia|]. exact (proj1 (proj2 H)).
Defined.
