(* ===== verification/Broker.v ===== *)
(** * The shared state of a node

    Models [ferromq/src/shared.rs] (the registry of sessions and the forwarding
    of messages), [DefaultSession] and [Session] of [ferromq/src/session.rs], the
    channels between sessions ([SessionTx], [Message] of [ferromq/src/types.rs])
    and the interface of the message store ([ferromq/src/message.rs]).

    A session is a shared object: the task of its connection, the registry and
    a connection that takes it over hold references to it.  [Node] is the store
    of these objects; a reference is a number.  An operation that awaits another
    task takes what the rest of the node does meanwhile as an argument.

    The static configuration ([ServerContext]) is a record; the parts that are
    not in the repository or are chosen by a plugin (the deque of the inflight
    window, the heap of delayed messages, the choice of a shared subscription,
    the message store, the order of a hash map) are the class [Backend]. *)

From stdpp Require Import base list numbers option gmap sorting strings.
From Stdlib Require Import ZArith Lia.
From S2P Require Import Prelude Errors CodecTypes PacketV5 Topic Counter Hash BrokerTypes Queue Inflight.
From S2P Require Import RetainStore Router Acl Hook Delayed SessionSubs ConnInfo Fitter.

#[local] Open Scope Z_scope.

(** ** Interfaces *)

(** A client that has received a message, with the shared group it stood for. *)
Abbreviation ForwardedRecipients := (list (ClientId * option (TopicFilter * SharedGroup))).
Abbreviation MsgID := Z (only parsing).

(** [trait MessageManager] *)
Class MessageManager (Mm : Type) := {
  mm_enable : Mm → bool;
  mm_next_msg_id : Mm → MsgID * Mm;
  mm_store : MsgID → From → BrokerTypes.Publish → Z → option ForwardedRecipients → Mm →
             outcome Error unit * Mm;
  mm_get : ClientId → TopicFilter → option SharedGroup → Mm →
           outcome Error (list (MsgID * From * BrokerTypes.Publish)) * Mm;
  mm_mark_forwarded : MsgID → ForwardedRecipients → Mm → outcome Error unit * Mm;
}.

(** [DefaultMessageManager]: nothing is stored. *)
Definition default_message_manager : MessageManager unit := {|
  mm_enable _ := false;
  mm_next_msg_id m := (0, m);
  mm_store _ _ _ _ _ m := (Ok tt, m);
  mm_get _ _ _ m := (Ok [], m);
  mm_mark_forwarded _ _ m := (Ok tt, m);
|}.

Class Backend := {
  DQ : Type;
  HQ : Type;
  St : Type;
  Mm : Type;
  #[global] backend_deque :: DequeMap (OutInflightMessage From) DQ;
  #[global] backend_heap :: DelayHeap HQ;
  #[global] backend_choice :: SharedSubscription St;
  #[global] backend_msgs :: MessageManager Mm;
  #[global] backend_order :: HashOrder str;
  #[global] backend_levels :: HashOrder Level;
}.

Class BackendOk (B : Backend) : Prop := {
  #[global] backend_deque_ok :: DequeMapOk (OutInflightMessage From) DQ;
  #[global] backend_heap_ok :: DelayHeapOk HQ;
  #[global] backend_choice_ok :: SharedSubscriptionOk St;
  #[global] backend_order_ok :: HashOrderOk str;
  #[global] backend_levels_ok :: HashOrderOk Level;
}.

(** ** Data *)

Abbreviation InflightMsg := (OutInflightMessage From).

Record OfflineInfo : Type := mkOffline {
  of_id : Id;
  of_subscriptions : list (TopicFilter * SubscriptionOptions);
  of_messages : list (From * BrokerTypes.Publish);
  of_inflight : list InflightMsg;
  of_created_at : Z;
}.

Inductive OfflineSession : Type := OffExist (o : option OfflineInfo) | OffNotExist.

(** What a task answers on a oneshot channel. *)
Inductive Reply : Type :=
| RepKicked
| RepSubscribe (r : outcome Error SubscribeReturn)
| RepSubscribes (rs : list (outcome Error SubscribeReturn))
| RepUnsubscribe (r : outcome Error unit).

(** A oneshot channel: open, answered, its sender dropped, or its receiver
    dropped. *)
Inductive Oneshot : Type := OsOpen | OsSent (r : Reply) | OsSenderGone | OsClosed.

(** [Message]; a sender is the number of its oneshot channel. *)
Inductive Message : Type :=
| Forward (from : From) (p : BrokerTypes.Publish)
| SendRerelease (m : InflightMsg)
| Kick (sender : Z) (by_id : Id) (clean_start is_admin : bool)
| Closed (r : Reason)
| MsgSubscribe (sub : BrokerTypes.Subscribe) (reply : Z)
| MsgSubscribes (subs : list BrokerTypes.Subscribe) (reply : option Z)
| MsgUnsubscribe (unsub : BrokerTypes.Unsubscribe) (reply : Z)
| SessionStateTransfer (o : OfflineInfo) (clean_start : bool).

(** The channel of a session; it is closed when its receiver is dropped. *)
Record Chan : Type := mkChan { ch_open : bool; ch_msgs : list Message }.

(** [EntryItem]: references to a session and to its channel. *)
Record EntryItem : Type := mkEntryItem { e_s : Z; e_tx : Z }.

Abbreviation HookCall := (@HookParameter Id Reason (list InflightMsg)).
Abbreviation HookMgr := (@DefaultHookManager Id Reason (list InflightMsg)).

(** The configuration of the node. [sc_auto_subscription] is the answer of an
    enabled [AutoSubscription]; [sc_form_urlencoded] parses the query of a will
    topic; the [sc_show] fields are texts that are derived or declared by macros. *)
Record ServerContext : Type := mkServer {
  sc_node_id : NodeId;
  sc_hooks : HookMgr;
  sc_mqtt_max_sessions : Z;
  sc_delayed_publish_max : Z;
  sc_delayed_publish_immediate : bool;
  sc_retain_enable : bool;
  sc_retain_cfg : PluginConfig;
  sc_shared_supported : bool;
  sc_auto_subscription : option (Id → outcome Error (list BrokerTypes.Subscribe));
  sc_form_urlencoded : bytes → UserProperties;
  sc_show_disconnect : Disconnect → str;
  sc_show_puback : PublishAckReason → str;
  sc_show_mqtt_error : MqttError → str;
}.

(** Work that was spawned and has not run yet. *)
Inductive Task : Type :=
| TaskSubscribeMessages (id : Id) (topic_filter : TopicFilter) (group : option SharedGroup)
    (retain_handling : option RetainHandling) (prev_opts_is_none : bool) (qos : QoS)
| TaskStoredMessages (id : Id) (topic_filter : TopicFilter) (qos : QoS) (group : option SharedGroup).

Section Broker.
Context `{B : Backend}.

(** [_Session] around [DefaultSession] *)
Record Session : Type := mkSession {
  s_id : Id;
  s_listen_cfg : ListenerConfig;
  s_conn_info : ConnectInfo;
  s_auth_info : option AuthInfo;
  s_subs : gmap TopicFilter SubscriptionOptions;
  s_queue : Queue (From * BrokerTypes.Publish);
  s_out : OutInflight (Q := DQ);
  s_created_at : Z;
  s_state_flags : Z;
  s_connected_at : Z;
  s_disconnect : DisconnectInfo;
}.

Definition on_s_subs (g : gmap TopicFilter SubscriptionOptions → gmap TopicFilter SubscriptionOptions) (s : Session) : Session :=
  mkSession (s_id s) (s_listen_cfg s) (s_conn_info s) (s_auth_info s) (g (s_subs s)) (s_queue s)
    (s_out s) (s_created_at s) (s_state_flags s) (s_connected_at s) (s_disconnect s).
Definition on_s_queue (g : Queue (From * BrokerTypes.Publish) → Queue (From * BrokerTypes.Publish)) (s : Session) : Session :=
  mkSession (s_id s) (s_listen_cfg s) (s_conn_info s) (s_auth_info s) (s_subs s) (g (s_queue s))
    (s_out s) (s_created_at s) (s_state_flags s) (s_connected_at s) (s_disconnect s).
Definition on_s_out (g : OutInflight (Q := DQ) → OutInflight (Q := DQ)) (s : Session) : Session :=
  mkSession (s_id s) (s_listen_cfg s) (s_conn_info s) (s_auth_info s) (s_subs s) (s_queue s)
    (g (s_out s)) (s_created_at s) (s_state_flags s) (s_connected_at s) (s_disconnect s).
Definition on_s_disconnect (g : DisconnectInfo → DisconnectInfo) (s : Session) : Session :=
  mkSession (s_id s) (s_listen_cfg s) (s_conn_info s) (s_auth_info s) (s_subs s) (s_queue s)
    (s_out s) (s_created_at s) (s_state_flags s) (s_connected_at s) (g (s_disconnect s)).

(** Every hook call is recorded, in order.  [n_next] numbers references and
    oneshot channels. *)
Record Node : Type := mkNode {
  (** wall clock, in milliseconds *)
  n_now : Z;
  (** monotonic clock, in nanoseconds *)
  n_instant : Z;
  n_router : DefaultRouter;
  n_shared : St;
  n_lockers : gset ClientId;
  n_peers : gmap ClientId EntryItem;
  n_sessions : gmap Z Session;
  n_chans : gmap Z Chan;
  n_retain : DefaultRetainStorage;
  n_delayed : HQ;
  n_msgs : Mm;
  n_sub_stats : SubStats;
  n_session_count : Counter;
  n_connections : Counter;
  n_oneshots : gmap Z Oneshot;
  n_hooks : list HookCall;
  n_tasks : list Task;
  n_next : Z;
}.

Definition on_n_router (g : DefaultRouter → DefaultRouter) (n : Node) : Node :=
  mkNode (n_now n) (n_instant n) (g (n_router n)) (n_shared n) (n_lockers n) (n_peers n)
    (n_sessions n) (n_chans n) (n_retain n) (n_delayed n) (n_msgs n) (n_sub_stats n)
    (n_session_count n) (n_connections n) (n_oneshots n) (n_hooks n) (n_tasks n) (n_next n).
Definition on_n_shared (g : St → St) (n : Node) : Node :=
  mkNode (n_now n) (n_instant n) (n_router n) (g (n_shared n)) (n_lockers n) (n_peers n)
    (n_sessions n) (n_chans n) (n_retain n) (n_delayed n) (n_msgs n) (n_sub_stats n)
    (n_session_count n) (n_connections n) (n_oneshots n) (n_hooks n) (n_tasks n) (n_next n).
Definition on_n_lockers (g : gset ClientId → gset ClientId) (n : Node) : Node :=
  mkNode (n_now n) (n_instant n) (n_router n) (n_shared n) (g (n_lockers n)) (n_peers n)
    (n_sessions n) (n_chans n) (n_retain n) (n_delayed n) (n_msgs n) (n_sub_stats n)
    (n_session_count n) (n_connections n) (n_oneshots n) (n_hooks n) (n_tasks n) (n_next n).
Definition on_n_peers (g : gmap ClientId EntryItem → gmap ClientId EntryItem) (n : Node) : Node :=
  mkNode (n_now n) (n_instant n) (n_router n) (n_shared n) (n_lockers n) (g (n_peers n))
    (n_sessions n) (n_chans n) (n_retain n) (n_delayed n) (n_msgs n) (n_sub_stats n)
    (n_session_count n) (n_connections n) (n_oneshots n) (n_hooks n) (n_tasks n) (n_next n).
Definition on_n_sessions (g : gmap Z Session → gmap Z Session) (n : Node) : Node :=
  mkNode (n_now n) (n_instant n) (n_router n) (n_shared n) (n_lockers n) (n_peers n)
    (g (n_sessions n)) (n_chans n) (n_retain n) (n_delayed n) (n_msgs n) (n_sub_stats n)
    (n_session_count n) (n_connections n) (n_oneshots n) (n_hooks n) (n_tasks n) (n_next n).
Definition on_n_chans (g : gmap Z Chan → gmap Z Chan) (n : Node) : Node :=
  mkNode (n_now n) (n_instant n) (n_router n) (n_shared n) (n_lockers n) (n_peers n) (n_sessions n)
    (g (n_chans n)) (n_retain n) (n_delayed n) (n_msgs n) (n_sub_stats n) (n_session_count n)
    (n_connections n) (n_oneshots n) (n_hooks n) (n_tasks n) (n_next n).
Definition on_n_retain (g : DefaultRetainStorage → DefaultRetainStorage) (n : Node) : Node :=
  mkNode (n_now n) (n_instant n) (n_router n) (n_shared n) (n_lockers n) (n_peers n) (n_sessions n)
    (n_chans n) (g (n_retain n)) (n_delayed n) (n_msgs n) (n_sub_stats n) (n_session_count n)
    (n_connections n) (n_oneshots n) (n_hooks n) (n_tasks n) (n_next n).
Definition on_n_delayed (g : HQ → HQ) (n : Node) : Node :=
  mkNode (n_now n) (n_instant n) (n_router n) (n_shared n) (n_lockers n) (n_peers n) (n_sessions n)
    (n_chans n) (n_retain n) (g (n_delayed n)) (n_msgs n) (n_sub_stats n) (n_session_count n)
    (n_connections n) (n_oneshots n) (n_hooks n) (n_tasks n) (n_next n).
Definition on_n_msgs (g : Mm → Mm) (n : Node) : Node :=
  mkNode (n_now n) (n_instant n) (n_router n) (n_shared n) (n_lockers n) (n_peers n) (n_sessions n)
    (n_chans n) (n_retain n) (n_delayed n) (g (n_msgs n)) (n_sub_stats n) (n_session_count n)
    (n_connections n) (n_oneshots n) (n_hooks n) (n_tasks n) (n_next n).
Definition on_n_sub_stats (g : SubStats → SubStats) (n : Node) : Node :=
  mkNode (n_now n) (n_instant n) (n_router n) (n_shared n) (n_lockers n) (n_peers n) (n_sessions n)
    (n_chans n) (n_retain n) (n_delayed n) (n_msgs n) (g (n_sub_stats n)) (n_session_count n)
    (n_connections n) (n_oneshots n) (n_hooks n) (n_tasks n) (n_next n).
Definition on_n_session_count (g : Counter → Counter) (n : Node) : Node :=
  mkNode (n_now n) (n_instant n) (n_router n) (n_shared n) (n_lockers n) (n_peers n) (n_sessions n)
    (n_chans n) (n_retain n) (n_delayed n) (n_msgs n) (n_sub_stats n) (g (n_session_count n))
    (n_connections n) (n_oneshots n) (n_hooks n) (n_tasks n) (n_next n).
Definition on_n_connections (g : Counter → Counter) (n : Node) : Node :=
  mkNode (n_now n) (n_instant n) (n_router n) (n_shared n) (n_lockers n) (n_peers n) (n_sessions n)
    (n_chans n) (n_retain n) (n_delayed n) (n_msgs n) (n_sub_stats n) (n_session_count n)
    (g (n_connections n)) (n_oneshots n) (n_hooks n) (n_tasks n) (n_next n).
Definition on_n_oneshots (g : gmap Z Oneshot → gmap Z Oneshot) (n : Node) : Node :=
  mkNode (n_now n) (n_instant n) (n_router n) (n_shared n) (n_lockers n) (n_peers n) (n_sessions n)
    (n_chans n) (n_retain n) (n_delayed n) (n_msgs n) (n_sub_stats n) (n_session_count n)
    (n_connections n) (g (n_oneshots n)) (n_hooks n) (n_tasks n) (n_next n).
Definition on_n_hooks (g : list HookCall → list HookCall) (n : Node) : Node :=
  mkNode (n_now n) (n_instant n) (n_router n) (n_shared n) (n_lockers n) (n_peers n) (n_sessions n)
    (n_chans n) (n_retain n) (n_delayed n) (n_msgs n) (n_sub_stats n) (n_session_count n)
    (n_connections n) (n_oneshots n) (g (n_hooks n)) (n_tasks n) (n_next n).
Definition on_n_tasks (g : list Task → list Task) (n : Node) : Node :=
  mkNode (n_now n) (n_instant n) (n_router n) (n_shared n) (n_lockers n) (n_peers n) (n_sessions n)
    (n_chans n) (n_retain n) (n_delayed n) (n_msgs n) (n_sub_stats n) (n_session_count n)
    (n_connections n) (n_oneshots n) (n_hooks n) (g (n_tasks n)) (n_next n).
Definition on_n_next (g : Z → Z) (n : Node) : Node :=
  mkNode (n_now n) (n_instant n) (n_router n) (n_shared n) (n_lockers n) (n_peers n) (n_sessions n)
    (n_chans n) (n_retain n) (n_delayed n) (n_msgs n) (n_sub_stats n) (n_session_count n)
    (n_connections n) (n_oneshots n) (n_hooks n) (n_tasks n) (g (n_next n)).

(** ** Sessions *)

Definition s_fitter (s : Session) : DefaultFitter := mkFitter (s_conn_info s) (s_listen_cfg s).

(** [SessionLike for DefaultSession]: the fields that are only read have no
    method of their own here. *)
Definition session_present (s : Session) : bool := contains (s_state_flags s) SessionPresent.
Definition session_superuser (s : Session) : bool := contains (s_state_flags s) Superuser.
Definition session_connected (s : Session) : bool :=
  contains (s_state_flags s) Connected && negb (di_is_disconnected (s_disconnect s)).
Definition disconnected_reason (s : Session) : Reason := Reasons (di_reasons (s_disconnect s)).
Definition disconnected_reason_has (s : Session) : bool :=
  negb (bool_decide (length (di_reasons (s_disconnect s)) = 0%nat)).
Definition disconnected_reason_add (r : Reason) : Session → Session :=
  on_s_disconnect (λ d, mkDisconnectInfo (di_disconnected_at d) (di_reasons d ++ [r]) (di_mqtt_disconnect d)).
Definition disconnected_reason_take (s : Session) : Reason * Session :=
  (Reasons (di_reasons (s_disconnect s)),
   on_s_disconnect (λ d, mkDisconnectInfo (di_disconnected_at d) [] (di_mqtt_disconnect d)) s).
Definition disconnected_set (now : Z) (d : option Disconnect) (reason : option Reason)
    : Session → Session := on_s_disconnect (λ di,
  let di := if di_is_disconnected di then di
            else mkDisconnectInfo now (di_reasons di) (di_mqtt_disconnect di) in
  let di := match d with
            | Some d => mkDisconnectInfo (di_disconnected_at di)
                          (di_reasons di ++ [ConnectDisconnect (Some d)]) (Some d)
            | None => di
            end in
  match reason with
  | Some reason => mkDisconnectInfo (di_disconnected_at di) (di_reasons di ++ [reason]) (di_mqtt_disconnect di)
  | None => di
  end).

(** [DefaultSession::new] *)
Definition session_flags (session_present superuser connected : bool) : Z :=
  let f := 0 in
  let f := if session_present then flag_insert f SessionPresent else f in
  let f := if superuser then flag_insert f Superuser else f in
  if connected then flag_insert f Connected else f.

(** ** Reading and changing the store *)

Abbreviation NM := (M Node Error).

(** [scx.extends.hook_mgr()] and the hooks of a session: the call is recorded. *)
Definition hook (c : HookCall) : Node → Node := on_n_hooks (λ l, l ++ [c]).

Definition fresh (n : Node) : Z * Node := (n_next n, on_n_next (λ k, k + 1) n).

Definition session_at (n : Node) (r : Z) : option Session := n_sessions n !! r.

(** The holder of a reference to a session reads it. *)
Definition get_session {E} (r : Z) : M Node E Session := λ n,
  match session_at n r with Some s => (Ok s, n) | None => (Panic, n) end.

Definition on_session_obj (r : Z) (f : Session → Session) : Node → Node := on_n_sessions (alter f r).

(** The subscriptions of a session, with the counters of the node. *)
Definition on_subs {A} (r : Z) (f : SessionSubMap * SubStats → A * (SessionSubMap * SubStats)) (dflt : A)
    (n : Node) : A * Node :=
  match session_at n r with
  | Some s =>
      let '(a, (subs, st)) := f (s_subs s, n_sub_stats n) in
      (a, on_session_obj r (on_s_subs (λ _, subs)) (on_n_sub_stats (λ _, st) n))
  | None => (dflt, n)
  end.

Definition subscriptions_add (r : Z) (tf : TopicFilter) (opts : BrokerTypes.SubscriptionOptions)
    : Node → option BrokerTypes.SubscriptionOptions * Node := on_subs r (subs_add tf opts) None.
Definition subscriptions_remove (r : Z) (tf : TopicFilter)
    : Node → option (TopicFilter * BrokerTypes.SubscriptionOptions) * Node :=
  on_subs r (subs_remove tf) None.
Definition subscriptions_drain (r : Z) : Node → list (TopicFilter * BrokerTypes.SubscriptionOptions) * Node :=
  on_subs r subs_drain [].
Definition subscriptions_extend (r : Z) (other : list (TopicFilter * BrokerTypes.SubscriptionOptions))
    (n : Node) : Node := (on_subs r (λ s, (tt, subs_extend other s)) tt n).2.

(** ** Channels *)

Definition tx_is_closed (n : Node) (tx : Z) : bool :=
  match n_chans n !! tx with Some c => negb (ch_open c) | None => true end.

(** [SessionTx::unbounded_send]: whether the message is in the channel. *)
Definition unbounded_send (tx : Z) (m : Message) (n : Node) : bool * Node :=
  if tx_is_closed n tx then (false, n)
  else (true, on_n_chans (alter (λ c, mkChan (ch_open c) (ch_msgs c ++ [m])) tx) n).

Definition oneshot_closed (n : Node) (o : Z) : bool :=
  match n_oneshots n !! o with Some OsOpen => false | _ => true end.

(** [sender.send(v)]; the sender is used up. *)
Definition oneshot_send (o : Z) (v : Reply) (n : Node) : Node :=
  if oneshot_closed n o then n else on_n_oneshots <[o := OsSent v]> n.

(** The sender is dropped without an answer. *)
Definition oneshot_drop (o : Z) (n : Node) : Node :=
  if oneshot_closed n o then n else on_n_oneshots <[o := OsSenderGone]> n.

Definition senders (m : Message) : list Z :=
  match m with
  | Kick o _ _ _ | MsgSubscribe _ o | MsgUnsubscribe _ o | MsgSubscribes _ (Some o) => [o]
  | _ => []
  end.

(** The receiver of a channel is dropped with the messages it holds. *)
Definition close_chan (tx : Z) (n : Node) : Node :=
  let pending := match n_chans n !! tx with Some c => ch_msgs c | None => [] end in
  foldl (flip oneshot_drop) (on_n_chans <[tx := mkChan false []]> n) (concat (map senders pending)).

(** ** [Session::new] and its drop *)

Definition session_new (id : Id) (max_mqueue_len : Z) (listen_cfg : ListenerConfig)
    (auth_info : option AuthInfo) (max_inflight created_at : Z) (conn_info : ConnectInfo)
    (session_present superuser connected : bool) (connected_at : Z)
    (subscriptions : SessionSubMap) (disconnect_info : option DisconnectInfo) (n : Node) : Z * Node :=
  let message_retry_interval := as_millis (lc_message_retry_interval listen_cfg) in
  let message_expiry_interval := as_millis (lc_message_expiry_interval listen_cfg) in
  let deliver_queue := queue_set_on_pop (queue_set_on_push (queue_new max_mqueue_len)) in
  let out_inflight := out_on_pop (out_on_push
    (out_new max_inflight message_retry_interval message_expiry_interval)) in
  let '(r, n) := fresh n in
  let n := on_n_session_count inc n in
  let n := on_n_sub_stats (λ st, mkSubStats
             (incs (Z.of_nat (subs_len subscriptions)) (SessionSubs.subscriptions st))
             (incs (Z.of_nat (shared_len subscriptions)) (subscriptions_shared st))) n in
  (r, on_n_sessions <[r := mkSession id listen_cfg conn_info auth_info subscriptions deliver_queue
        out_inflight created_at (session_flags session_present superuser connected) connected_at
        (default di_default disconnect_info)]> n).

(** [Drop for _Session] with [on_drop]: the last reference is gone. *)
Definition session_drop (r : Z) (n : Node) : Node :=
  match session_at n r with
  | Some s =>
      let '(_, st) := subs_clear (s_subs s, n_sub_stats n) in
      on_n_sub_stats (λ _, st) (on_n_session_count dec (on_n_sessions (delete r) n))
  | None => n
  end.

(** [Session::to_offline_info] *)
Fixpoint pop_queue {T} (fuel : nat) (q : Queue T) : option (list T * Queue T) :=
  match fuel with
  | O => None
  | S fuel =>
      match queue_pop q with
      | (Some v, q) => '(vs, q) ← pop_queue fuel q; Some (v :: vs, q)
      | (None, q) => Some ([], q)
      end
  end.

Definition to_offline_info {E} (r : Z) : M Node E OfflineInfo :=
  s ← get_session r;
  subscriptions ← state (subscriptions_drain r);
  match pop_queue (S (length (q_inner (s_queue s)))) (s_queue s), to_inflight_messages (s_out s) with
  | Some (offline_messages, q), Some (inflight_messages, o) =>
      modify (on_session_obj r (λ s, on_s_out (λ _, o) (on_s_queue (λ _, q) s)));;
      mret (mkOffline (s_id s) subscriptions offline_messages inflight_messages (s_created_at s))
  | _, _ => panic
  end.

(** ** The registry *)

(** [LockEntry::session], [tx], [exist] and [id_same] of the entry of a client *)
Definition peer (n : Node) (cid : ClientId) : option EntryItem := n_peers n !! cid.
Definition entry_session (n : Node) (id : Id) : option Z := e_s <$> peer n (id_client_id id).
Definition entry_exist (n : Node) (id : Id) : bool := is_some (peer n (id_client_id id)).
Definition entry_tx (n : Node) (id : Id) : option Z := e_tx <$> peer n (id_client_id id).
Definition id_same (n : Node) (id : Id) : option bool :=
  r ← entry_session n id; s ← session_at n r; Some (bool_decide (s_id s = id)).

(** [LockEntry::try_lock], and the drop of a locked entry *)
Definition try_lock (id : Id) : NM unit :=
  held ← asks (λ n, bool_decide (id_client_id id ∈ n_lockers n));
  if held : bool then err (EOther (lit "operation would block"))
  else modify (on_n_lockers (λ l, {[id_client_id id]} ∪ l)).
Definition unlock (id : Id) : Node → Node := on_n_lockers (λ l, l ∖ {[id_client_id id]}).

(** [LockEntry::is_connected] *)
Definition entry_is_connected (n : Node) (id : Id) : bool :=
  match entry_session n id ≫= session_at n with Some s => session_connected s | None => false end.

(** [LockEntry::set] *)
Definition entry_set (id : Id) (s tx : Z) : Node → Node :=
  on_n_peers <[id_client_id id := mkEntryItem s tx]>.

(** [router().remove(..)] *)
Definition node_router_remove (tf : TopicFilter) (id : Id) : NM bool := λ n,
  match router_remove tf id (n_router n) with
  | (Ok b, r) => (Ok b, on_n_router (λ _, r) n)
  | (Err e, r) => (Err (error_of_topic e), on_n_router (λ _, r) n)
  | (Panic, r) => (Panic, on_n_router (λ _, r) n)
  end.

Definition node_router_add (tf : TopicFilter) (id : Id) (opts : BrokerTypes.SubscriptionOptions)
    : NM unit := λ n,
  match router_add tf id opts (n_router n) with
  | (Ok u, r) => (Ok u, on_n_router (λ _, r) n)
  | (Err e, r) => (Err (error_of_topic e), on_n_router (λ _, r) n)
  | (Panic, r) => (Panic, on_n_router (λ _, r) n)
  end.

(** [LockEntry::_unsubscribe] of the entry of [self] *)
Definition _unsubscribe (self id : Id) (tf : TopicFilter) : NM unit :=
  node_router_remove tf id;;
  s ← asks (λ n, entry_session n self);
  match s with
  | Some r => state (subscriptions_remove r tf);; mret tt
  | None => mret tt
  end.

(** The loop over the filters of a session that was taken out; an error is
    logged. *)
Fixpoint clear_subscriptions (self id : Id) (tfs : list TopicFilter) : NM unit :=
  match tfs with
  | [] => mret tt
  | tf :: tfs => attempt (E' := Error) (_unsubscribe self id tf);; clear_subscriptions self id tfs
  end.

(** [LockEntry::_remove] and [LockEntry::_remove_with] *)
Definition remove_peer (clear : bool) (self : Id) (p : EntryItem) : NM (option EntryItem) :=
  modify (on_n_peers (delete (id_client_id self)));;
  s ← get_session (e_s p);
  (if clear then clear_subscriptions self (s_id s) (to_topic_filters (s_subs s)) else mret tt);;
  mret (Some p).

Definition _remove (clear : bool) (self : Id) : NM (option EntryItem) :=
  p ← asks (λ n, peer n (id_client_id self));
  match p with Some p => remove_peer clear self p | None => mret None end.

Definition _remove_with (clear : bool) (self with_id : Id) : NM (option EntryItem) :=
  p ← asks (λ n, peer n (id_client_id self));
  match p with
  | Some p =>
      s ← get_session (e_s p);
      if bool_decide (s_id s = with_id) then remove_peer clear self p else mret None
  | None => mret None
  end.

(** [LockEntry::kick]; [wait] is what the rest of the node does until the answer
    arrives or five seconds have passed. *)
Definition kick (self : Id) (clean_start clear is_admin : bool) (wait : Node → Node) : NM OfflineSession :=
  tx ← asks (λ n, match entry_tx n self with
                  | Some tx => if tx_is_closed n tx then None else Some tx
                  | None => None
                  end);
  (match tx with
   | Some peer_tx =>
       o ← state fresh;
       modify (on_n_oneshots <[o := OsOpen]>);;
       sent ← state (unbounded_send peer_tx (Kick o self clean_start is_admin));
       if sent : bool then
         modify wait;;
         r ← asks (λ n, n_oneshots n !! o);
         match r with
         | Some OsSenderGone => err (EOther (lit "recv kick result is RecvError(())"))
         | _ => modify (on_n_oneshots <[o := OsClosed]>)
         end
       else mret tt
   | None => mret tt
   end);;
  p ← _remove clear self;
  match p with
  | Some p =>
      if clean_start then mret (OffExist None)
      else
        o ← attempt (to_offline_info (E := Error) (e_s p));
        match o with
        | Ok o => mret (OffExist (Some o))
        | _ => mret (OffExist None)
        end
  | None => mret OffNotExist
  end.

(** [LockEntry::subscribe]; [assert_eq!] panics. *)
Definition entry_subscribe (scx : ServerContext) (self : Id) (sub : BrokerTypes.Subscribe)
    : NM SubscribeReturn :=
  p ← asks (λ n, peer n (id_client_id self));
  p ← ok_or p (EOther (lit "session is not exist"));
  s ← get_session (e_s p);
  if negb (id_node_id (s_id s) =? sc_node_id scx) then panic
  else
    node_router_add (s_topic_filter sub) self (s_opts sub);;
    prev_opts ← state (subscriptions_add (e_s p) (s_topic_filter sub) (s_opts sub));
    mret (new_success (opts_qos (s_opts sub)) prev_opts).

(** [LockEntry::unsubscribe]; an error of the router is logged. *)
Definition entry_unsubscribe (self : Id) (unsub : BrokerTypes.Unsubscribe) : NM bool :=
  p ← asks (λ n, peer n (id_client_id self));
  p ← ok_or p (EOther (lit "session is not exist"));
  attempt (node_router_remove (u_topic_filter unsub) self);;
  removed ← state (subscriptions_remove (e_s p) (u_topic_filter unsub));
  mret (is_some removed).

(** [LockEntry::publish]: what could not be sent is given back. *)
Definition entry_publish (self : Id) (from : From) (p : BrokerTypes.Publish) (n : Node)
    : option (From * BrokerTypes.Publish * Reason) * Node :=
  match entry_tx n self with
  | None => (Some (from, p, RError (lit "Tx is None")), n)
  | Some tx =>
      match unbounded_send tx (Forward from p) n with
      | (true, n) => (None, n)
      | (false, n) => (Some (from, p, RError (lit "Tx is closed")), n)
      end
  end.

(** ** Forwarding *)

(** [DefaultShared::tx]: the channel of a client and its identity *)
Definition shared_tx (n : Node) (cid : ClientId) : option (Z * Id) :=
  p ← peer n cid; s ← session_at n (e_s p); Some (e_tx p, s_id s).

Abbreviation DeliveryError := (Id * From * BrokerTypes.Publish * Reason)%type.

(** The message as a subscriber receives it. *)
Definition for_subscriber (publish : BrokerTypes.Publish) (opts : BrokerTypes.SubscriptionOptions)
    (sub_ids : option (list SubscriptionIdentifier)) : BrokerTypes.Publish :=
  let keep := match retain_as_published opts with
              | Some retain_as_published => if retain_as_published then retain (inner publish) else false
              | None => false
              end in
  on_inner (λ p,
    let p := set_dup false p in
    let p := set_retain keep p in
    let p := set_pub_qos (less_value (qos p) (opts_qos opts)) p in
    let p := set_packet_id None p in
    match sub_ids with
    | Some sub_ids => set_properties (set_subscription_ids sub_ids <$> properties p) p
    | None => p
    end) publish.

(** A member of a shared group stands for all its members. *)
Definition recipients_of (topic_filter : TopicFilter) (client_id : ClientId)
    (group_shared : option SharedGroupType) : ForwardedRecipients :=
  match group_shared with
  | Some (group, _, cids) =>
      map (λ g_cid, (g_cid, if bool_decide (g_cid = client_id) then Some (topic_filter, group) else None))
        cids
  | None => [(client_id, None)]
  end.

(** One turn of the loop of [forwards_to]. *)
Definition forward_one (from : From) (publish : BrokerTypes.Publish) (rel : SubRelation) (n : Node)
    : (ForwardedRecipients * list DeliveryError) * Node :=
  let '(topic_filter, client_id, opts, sub_ids, group_shared) := rel in
  let p := for_subscriber publish opts sub_ids in
  match shared_tx n client_id with
  | None =>
      (([], [(id_from (n_now n) 0 client_id, from, p, RError (lit "the client has disconnected"))]), n)
  | Some (tx, to) =>
      match unbounded_send tx (Forward from p) n with
      | (true, n) => ((recipients_of topic_filter client_id group_shared, []), n)
      | (false, n) => (([], [(to, from, p, RError (lit "Connection Tx is closed"))]), n)
      end
  end.

(** [DefaultShared::forwards_to]: the recipients and the failures. *)
Fixpoint forwards_to (from : From) (publish : BrokerTypes.Publish) (relations : list SubRelation)
    (n : Node) : (ForwardedRecipients * list DeliveryError) * Node :=
  match relations with
  | [] => (([], []), n)
  | rel :: relations =>
      let '((ok, errs), n) := forward_one from publish rel n in
      let '((oks, errss), n) := forwards_to from publish relations n in
      ((ok ++ oks, errs ++ errss), n)
  end.

(** [router().matches(..)]; an error is logged and nobody matches. *)
Definition node_matches {E} (id : Id) (topic : TopicName) : M Node E (gmap NodeId (list SubRelation)) := λ n,
  match _matches (λ node_id cid, entry_is_connected n (id_from (n_now n) node_id cid)) id topic
          (n_router n) (n_shared n) with
  | (Ok m, st) => (Ok m, on_n_shared (λ _, st) n)
  | (Err _, st) => (Ok ∅, on_n_shared (λ _, st) n)
  | (Panic, st) => (Panic, on_n_shared (λ _, st) n)
  end.

Definition mark_forwarded (msg_id : option MsgID) (recipients : ForwardedRecipients) (n : Node) : Node :=
  match msg_id, recipients with
  | Some msg_id, _ :: _ => on_n_msgs (λ m, (mm_mark_forwarded msg_id recipients m).2) n
  | _, _ => n
  end.

(** The relation of a message that is addressed to one client. *)
Definition target_relation (publish : BrokerTypes.Publish) (target : ClientId) : SubRelation :=
  (topic (inner publish), target, set_qos options_default (qos (inner publish)), None, None).

(** [DefaultShared::forwards]: how many recipients, or the failures. *)
Definition shared_forwards {E} (scx : ServerContext) (msg_id : option MsgID) (from : From)
    (publish : BrokerTypes.Publish) : M Node E (Z * list DeliveryError) :=
  let from_node_id := id_node_id (from_id from) in
  match target_clientid publish with
  | Some target =>
      '(recipients, errs) ← state (forwards_to from publish [target_relation publish target]);
      match errs with
      | _ :: _ => mret (0, errs)
      | [] =>
          if from_node_id =? sc_node_id scx
          then modify (mark_forwarded msg_id recipients);; mret (1, [])
          else mret (0, [])
      end
  | None =>
      relations_map ← node_matches (from_id from) (topic (inner publish));
      match relations_map !! sc_node_id scx with
      | Some relations =>
          '(recipients, errs) ← state (forwards_to from publish relations);
          modify (mark_forwarded msg_id recipients);;
          mret (len recipients, errs)
      | None => mret (0, [])
      end
  end.

(** [DefaultShared::forwards_and_get_shareds]: the groups are left to the
    caller; [relations_map] is visited in the order of [nodes]. *)
Definition split_shareds (rels : list SubRelation) : list SubRelation * list SubRelation :=
  (filter (λ rel, is_some rel.2 = false) rels, filter (λ rel, is_some rel.2 = true) rels).

Definition forwards_and_get_shareds {E} `{!HashOrder Z} (from : From) (publish : BrokerTypes.Publish)
    : M Node E (gmap NodeId (list SubRelation) * ForwardedRecipients * list DeliveryError) :=
  match target_clientid publish with
  | Some target =>
      '(recipients, errs) ← state (forwards_to from publish [target_relation publish target]);
      mret (∅, recipients, errs)
  | None =>
      relations_map ← node_matches (from_id from) (topic (inner publish));
      let relations := concat (map (λ kv, (split_shareds kv.2).1) (iter relations_map)) in
      let sub_relations_map :=
        filter (λ kv, kv.2 ≠ []) ((λ rels, (split_shareds rels).2) <$> relations_map) in
      '(recipients, errs) ← state (forwards_to from publish relations);
      mret (match errs with [] => sub_relations_map | _ => ∅ end, recipients, errs)
  end.

(** [_collect_subscription_client_ids] *)
Definition collect_subscription_client_ids `{!HashOrder Z} (relations_map : gmap NodeId (list SubRelation))
    : ForwardedRecipients :=
  concat (map (λ kv, concat (map (λ rel : SubRelation,
    let '(tf, cid, _, _, group_shared) := rel in recipients_of tf cid group_shared) kv.2))
    (iter relations_map)).

(** [session_status], [sessions_count] and [subscriptions_count] *)
Record SessionStatus : Type := mkStatus { st_id : Id; st_online : bool; st_handshaking : bool }.
Definition session_status (n : Node) (cid : ClientId) : option SessionStatus :=
  p ← peer n cid; s ← session_at n (e_s p); Some (mkStatus (s_id s) (session_connected s) false).
Definition sessions_count (n : Node) : nat := size (n_peers n).
Definition subscriptions_count (n : Node) : nat :=
  map_sum (λ p, from_option (λ s, size (s_subs s)) 0%nat (session_at n (e_s p))) (n_peers n).
End Broker.

(** ** Retained messages of several nodes *)

(** [dedup_retains_by_topic]: the index of the newest message of each topic,
    the first of equally new ones. *)
Definition retain_time (r : TopicName * Retain) : Z := default 0 (create_time (r_publish r.2)).

Fixpoint latest_idx (all : list (TopicName * Retain)) (idx : nat) (rs : list (TopicName * Retain))
    (m : gmap TopicName nat) : gmap TopicName nat :=
  match rs with
  | [] => m
  | r :: rs =>
      let keep :=
        match m !! r.1 with
        | Some i => match all !! i with Some e => retain_time e <? retain_time r | None => false end
        | None => true
        end in
      latest_idx all (S idx) rs (if keep then <[r.1 := idx]> m else m)
  end.

Definition dedup_retains_by_topic `{!HashOrder str} (retains : list (TopicName * Retain))
    : list (TopicName * Retain) :=
  omap (λ i, retains !! i) (merge_sort le (iter (latest_idx retains 0 retains ∅)).*2).
