(* ===== verification/Session.v ===== *)
(** * Sessions

    Models [SessionState] of [ferromq/src/session.rs]: what a connection does
    with the packets of its client, with the messages of other tasks and with
    its own timers, online and offline, and the publication of messages.

    The state of the task of a connection is [Conn]; its methods run on the node
    and the connection ([CM], [CE]).  The select loops are given as one turn per
    event.  Metrics and log lines are left out; the features [retain], [msgstore],
    [delayed], [shared-subscription] and [limit-subscription] are on. *)

From stdpp Require Import base list numbers option gmap strings.
From Stdlib Require Import ZArith Lia.
From S2P Require Import Prelude Errors CodecTypes PacketV5 Topic Counter Hash BrokerTypes Queue Inflight.
From S2P Require Import RetainStore Router Acl Alias Hook Delayed SessionSubs ConnInfo Fitter Broker.

#[local] Open Scope Z_scope.

(** [Packet] of the broker *)
Inductive Packet : Type :=
| PktV3 (p : MqttV3.Packet)
| PktV5 (p : PacketV5.Packet).

(** The task of a connection: the reference to its session, whose number is
    also that of its channel, the alias tables, the inbound window, the flags,
    the signals of the delivery queue, and the sink: its protocol, the fate of
    each write, the number of writes, whether it is closed, and what the client
    has been sent. *)
Record Conn : Type := mkConn {
  c_ref : Z;
  c_server_aliases : option ServerTopicAliases;
  c_client_aliases : option ClientTopicAliases;
  c_in : InInflight;
  c_flags : Z;
  c_signals : nat;
  c_v5 : bool;
  c_io : nat → option MqttError;
  c_writes : nat;
  c_closed : bool;
  c_sent : list Packet;
}.

Definition on_server_aliases (g : option ServerTopicAliases → option ServerTopicAliases) (c : Conn) : Conn :=
  mkConn (c_ref c) (g (c_server_aliases c)) (c_client_aliases c) (c_in c) (c_flags c) (c_signals c)
    (c_v5 c) (c_io c) (c_writes c) (c_closed c) (c_sent c).
Definition on_client_aliases (g : option ClientTopicAliases → option ClientTopicAliases) (c : Conn) : Conn :=
  mkConn (c_ref c) (c_server_aliases c) (g (c_client_aliases c)) (c_in c) (c_flags c) (c_signals c)
    (c_v5 c) (c_io c) (c_writes c) (c_closed c) (c_sent c).
Definition on_in (g : InInflight → InInflight) (c : Conn) : Conn :=
  mkConn (c_ref c) (c_server_aliases c) (c_client_aliases c) (g (c_in c)) (c_flags c) (c_signals c)
    (c_v5 c) (c_io c) (c_writes c) (c_closed c) (c_sent c).
Definition on_flags (g : Z → Z) (c : Conn) : Conn :=
  mkConn (c_ref c) (c_server_aliases c) (c_client_aliases c) (c_in c) (g (c_flags c)) (c_signals c)
    (c_v5 c) (c_io c) (c_writes c) (c_closed c) (c_sent c).
Definition set_signals (k : nat) (c : Conn) : Conn :=
  mkConn (c_ref c) (c_server_aliases c) (c_client_aliases c) (c_in c) (c_flags c) k
    (c_v5 c) (c_io c) (c_writes c) (c_closed c) (c_sent c).
Definition sink_close (c : Conn) : Conn :=
  mkConn (c_ref c) (c_server_aliases c) (c_client_aliases c) (c_in c) (c_flags c) (c_signals c)
    (c_v5 c) (c_io c) (c_writes c) true (c_sent c).
(** A write was made; [Some] packet reached the client. *)
Definition wrote (p : option Packet) (c : Conn) : Conn :=
  mkConn (c_ref c) (c_server_aliases c) (c_client_aliases c) (c_in c) (c_flags c) (c_signals c)
    (c_v5 c) (c_io c) (S (c_writes c)) (c_closed c) (c_sent c ++ option_list p).

Section Session.
Context `{B : Backend} (scx : ServerContext).

Abbreviation CE := (M (Node * Conn) Error).
Abbreviation CM := (M (Node * Conn) Reason).

Definition on_node {E A} (m : M Node E A) : M (Node * Conn) E A := zoom fst (λ n s, (n, s.2)) m.
Definition on_conn {E A} (m : M Conn E A) : M (Node * Conn) E A := zoom snd (λ c s, (s.1, c)) m.
Definition nmod {E} (f : Node → Node) : M (Node * Conn) E unit := on_node (modify f).
Definition cmod {E} (f : Conn → Conn) : M (Node * Conn) E unit := on_conn (modify f).
Definition flag {E} (f : Z) : M (Node * Conn) E unit := cmod (on_flags (λ fl, flag_insert fl f)).

(** [?] from [Error] to [Reason] *)
Definition question {A} (m : CE A) : CM A := map_err reason_of_error m.

Definition self_ref {E} : M (Node * Conn) E Z := on_conn (asks c_ref).
Definition self {E} : M (Node * Conn) E Session := r ← self_ref; on_node (get_session r).
Definition on_self {E} (f : Session → Session) : M (Node * Conn) E unit :=
  r ← self_ref; nmod (on_session_obj r f).
Definition now {E} : M (Node * Conn) E Z := on_node (asks n_now).

(** ** The sink *)

Definition sink_send (p : Packet) : CE unit := λ s,
  let c := s.2 in
  if c_closed c then (Err (EMqtt (MESendPacket (SendEncode (EncIo [])))), (s.1, wrote None c))
  else match c_io c (c_writes c) with
       | None => (Ok tt, (s.1, wrote (Some p) c))
       | Some e => (Err (EMqtt e), (s.1, wrote None c))
       end.

(** [sink.v3_mut()] and [sink.v5_mut()] are unreachable on the other sink. *)
Definition v3_send (p : MqttV3.Packet) : CE unit :=
  v5 ← on_conn (asks c_v5); if v5 : bool then panic else sink_send (PktV3 p).
Definition v5_send (p : PacketV5.Packet) : CE unit :=
  v5 ← on_conn (asks c_v5); if v5 : bool then sink_send (PktV5 p) else panic.

(** [Sink::publish] *)
Definition sink_publish_msg (p : BrokerTypes.Publish) (expiry : option Z) : CE unit :=
  v5 ← on_conn (asks c_v5);
  if v5 : bool then
    sa ← on_conn (asks c_server_aliases);
    let '(r, sa) := sink_publish (inner p) expiry sa in
    cmod (on_server_aliases (λ _, sa));;
    match r with
    | Ok p => sink_send (PktV5 (V5Publish p))
    | _ => panic
    end
  else sink_send (PktV3 (MqttV3.PPublish (inner p))).

(** [Sink::send_publish_ack], [send_publish_received] and [send_publish_release] *)
Definition send_publish_ack (pid : Z) (r : PublishResult) : CE unit :=
  v5 ← on_conn (asks c_v5);
  sink_send (if v5 : bool
             then PktV5 (V5PublishAck (mkPublishAck pid (pr_reason_code r) (pr_properties r) (pr_reason_string r)))
             else PktV3 (MqttV3.PPublishAck pid)).
Definition send_publish_received (pid : Z) (r : PublishResult) : CE unit :=
  v5 ← on_conn (asks c_v5);
  sink_send (if v5 : bool
             then PktV5 (V5PublishReceived (mkPublishAck pid (pr_reason_code r) (pr_properties r) (pr_reason_string r)))
             else PktV3 (MqttV3.PPublishReceived pid)).
Definition send_publish_release (pid : Z) : CE unit :=
  v5 ← on_conn (asks c_v5);
  sink_send (if v5 : bool then PktV5 (V5PublishRelease (mkPublishAck pid PA2Success [] None))
             else PktV3 (MqttV3.PPublishRelease pid)).

(** ** Hooks *)

Definition message_dropped (to : option Id) (from : From) (p : BrokerTypes.Publish) (r : Reason)
    : Node → Node := hook (MessageDropped to from p r).

(** The hooks whose results are used. *)
Definition hook_message_publish {E} (from : From) (p : BrokerTypes.Publish) : M (Node * Conn) E BrokerTypes.Publish :=
  s ← self;
  nmod (hook (MessagePublish (Some (s_id s)) from p));;
  mret (default p (message_publish (sc_hooks scx) (Some (s_id s)) from p)).

Definition hook_publish_acl {E} (p : BrokerTypes.Publish) : M (Node * Conn) E PublishResult :=
  s ← self;
  (if session_superuser s then mret tt else nmod (hook (MessagePublishCheckAcl (s_id s) p)));;
  mret (message_publish_check_acl (λ _, session_superuser s) (sc_hooks scx) (s_id s) p).

Definition hook_expiry_check {E} (from : From) (p : BrokerTypes.Publish)
    : M (Node * Conn) E MessageExpiryCheckResult :=
  s ← self; t ← now;
  nmod (hook (MessageExpiryCheck (s_id s) from p));;
  mret (message_expiry_check (sc_hooks scx) t (as_millis (lc_message_expiry_interval (s_listen_cfg s)))
          (s_id s) from p).

Definition hook_delivered {E} (from : From) (p : BrokerTypes.Publish) : M (Node * Conn) E BrokerTypes.Publish :=
  s ← self;
  nmod (hook (MessageDelivered (s_id s) from p));;
  mret (default p (message_delivered (sc_hooks scx) (s_id s) from p)).

Definition client_unsubscribe (m : HookMgr) (s : Id) (unsub : BrokerTypes.Unsubscribe) : option TopicFilter :=
  match hook_exec m TClientUnsubscribe (ClientUnsubscribe s (u_topic_filter unsub) (u_shared_group unsub)) with
  | Some (HRTopicFilter (Some tf)) => Some tf
  | _ => None
  end.

(** ** Publishing *)

(** [SessionState::inner_forwards] *)
Definition inner_forwards (from : From) (publish : BrokerTypes.Publish) (storage : bool)
    (expiry : option Z) : M Node Error unit :=
  msg_id ← (if storage then
              state (λ n, let '(i, m) := mm_next_msg_id (n_msgs n) in (Some i, on_n_msgs (λ _, m) n))
            else mret None);
  (if sc_retain_enable scx && retain (inner publish) then λ n,
     match ram_set (sc_retain_cfg scx) (n_instant n) (topic (inner publish))
             (mkRetain msg_id from publish) expiry (n_retain n) with
     | (Ok _, st) => (Ok tt, on_n_retain (λ _, st) n)
     | (Err e, st) => (Err (error_of_topic e), on_n_retain (λ _, st) n)
     | (Panic, st) => (Panic, on_n_retain (λ _, st) n)
     end
   else mret tt);;
  (match msg_id, expiry with
   | Some msg_id, Some expiry =>
       modify (on_n_msgs (λ m, (mm_store msg_id from publish expiry None m).2))
   | _, _ => mret tt
   end);;
  '(count, errs) ← shared_forwards scx msg_id from publish;
  match errs with
  | [] => if count =? 0 then modify (hook (MessageNonsubscribed from)) else mret tt
  | _ => modify (λ n, foldl (λ n '(to, from, p, reason), message_dropped (Some to) from p reason n) n errs)
  end.

(** [SessionState::forwards] *)
Definition forwards (from : From) (publish : BrokerTypes.Publish) (storage : bool) (expiry : option Z)
    : M Node Error unit :=
  match BrokerTypes.delay_interval publish with
  | Some _ =>
      back ← state (λ n,
        let '(back, q) := delay_publish (sc_delayed_publish_max scx) (n_now n) from publish storage expiry
                            (n_delayed n) in
        (back, on_n_delayed (λ _, q) n));
      match back with
      | Some (f, p) =>
          if sc_delayed_publish_immediate scx then inner_forwards f p storage expiry
          else modify (message_dropped None f p DelayedPublishRefused)
      | None => mret tt
      end
  | None => inner_forwards from publish storage expiry
  end.

(** The expiry interval of a message that is kept. *)
Definition kept_for (s : Session) (storage : bool) (p : BrokerTypes.Publish) : option Z :=
  if storage || (retain (inner p) && sc_retain_enable scx)
  then Some (fitter_message_expiry_interval (s_fitter s) (inner p)) else None.

Definition alias_error (e : AliasError) : Error :=
  EMqtt (MEPublishAckReason PAImplementationSpecificError
    match e with
    | AliasNotFound => lit "implementation specific error, the topic associated with the alias was not found"
    | TooManyAliases _ => lit "implementation specific error, the number of topic aliases exceeds the limit"
    | NoTopic => lit "implementation specific error, alias and topic are both empty"
    end).

(** [SessionState::_publish] *)
Definition _publish (publish : BrokerTypes.Publish) : CE PublishResult :=
  ca ← on_conn (asks c_client_aliases);
  publish ← (match ca with
             | Some ca =>
                 let '(r, ca) := set_and_get (properties (inner publish) ≫= topic_alias)
                                   (topic (inner publish)) ca in
                 cmod (on_client_aliases (λ _, Some ca));;
                 match r with
                 | Ok t => mret (on_inner (set_topic t) publish)
                 | Err e => err (alias_error e)
                 | Panic => panic
                 end
             | None => mret publish
             end);
  s ← self;
  let from := from_custom (s_id s) in
  publish ← (if lc_delayed_publish (s_listen_cfg s) then
               match delayed_parse publish with
               | Ok p => mret p
               | Err _ => err (EOther (lit "the delay time of $delayed must be an integer"))
               | Panic => panic
               end
             else mret publish);
  publish ← hook_message_publish from publish;
  acl_result ← hook_publish_acl publish;
  if negb (is_allow acl_result) then
    nmod (message_dropped None from publish (RPublishResult acl_result));;
    if pr_disconnect acl_result
    then err (EMqtt (MEPublishAckReason (pr_reason_code acl_result) (default [] (pr_reason_string acl_result))))
    else mret acl_result
  else
    storage ← on_node (asks (λ n, mm_enable (n_msgs n)));
    on_node (forwards from publish storage (kept_for s storage publish));;
    mret acl_allow.

(** [SessionState::publish] *)
Definition publish_packet (publish : BrokerTypes.Publish) : CE PublishResult :=
  pub_res ← _publish publish;
  if is_allow pub_res then mret pub_res
  else if pr_disconnect pub_res
  then err (EMqtt (MEPublishAckReason (pr_reason_code pub_res) (default [] (pr_reason_string pub_res))))
  else mret pub_res.

(** [SessionState::process_last_will] *)
Definition process_last_will : CE unit :=
  s ← self; t ← now;
  match ci_last_will (s_conn_info s) with
  | Some lw =>
      let p := publish_try_from (sc_form_urlencoded scx) t lw in
      let from := from_lastwill (s_id s) in
      p ← hook_message_publish from p;
      storage ← on_node (asks (λ n, mm_enable (n_msgs n)));
      on_node (forwards from p storage (kept_for s storage p))
  | None => mret tt
  end.

(** [SessionState::packet_id] *)
Definition need_packet_id (pid : option Z) : CM Z := ok_or pid (RProtocolError (lit "packet_id is None")).

Definition reason_of_add (e : AddError) : Reason :=
  match e with
  | InflightWindowFull => RInflightWindowFull
  | PacketIdInUse pid => RMqttError (MEPacketIdInUse pid)
  end.

(** [in_inflight.add(..)] and [in_inflight.remove(..)] *)
Definition inflight_add (pid : Z) (q : QoS) : CM bool := on_conn (λ c,
  let '(r, i) := in_add (c_in c) pid q in
  (match r with Ok b => Ok b | Err e => Err (reason_of_add e) | Panic => Panic end, on_in (λ _, i) c)).
Definition inflight_remove {E} (pid : Z) : M (Node * Conn) E unit := cmod (on_in (λ i, (in_remove i pid).2)).

(** [SessionState::process_publish] *)
Definition process_publish (publish : BrokerTypes.Publish) : CM unit :=
  let qos := qos (inner publish) in
  match qos with
  | AtLeastOnce =>
      pid ← need_packet_id (packet_id (inner publish));
      s ← self;
      added ← attempt (inflight_add pid qos);
      match added with
      | Err e => nmod (message_dropped None (from_custom (s_id s)) publish e);; err e
      | Panic => panic
      | Ok inflight_res =>
          let release := if inflight_res : bool then inflight_remove pid else mret tt in
          pubres ← attempt (publish_packet publish);
          match pubres with
          | Err e => release;; err (reason_of_error e)
          | Panic => panic
          | Ok pubres =>
              ack_res ← attempt (send_publish_ack pid pubres);
              release;;
              match ack_res with Err e => err (reason_of_error e) | _ => mret tt end
          end
      end
  | ExactlyOnce =>
      pid ← need_packet_id (packet_id (inner publish));
      dup ← on_conn (asks (λ c, in_exist (c_in c) pid));
      if dup : bool then
        question (send_publish_received pid (publish_result PAPacketIdentifierInUse None false))
      else
        pub_res ← question (publish_packet publish);
        inflight_res ← (if is_allow pub_res then inflight_add pid qos else mret false);
        rec_res ← attempt (send_publish_received pid pub_res);
        match rec_res with
        | Err e => (if inflight_res : bool then inflight_remove pid else mret tt);; err (reason_of_error e)
        | _ => mret tt
        end
  | AtMostOnce => question (publish_packet publish);; mret tt
  end.

(** ** Subscribing *)

(** [SessionState::_subscribe] *)
Definition check_limits (s : Session) (sub : BrokerTypes.Subscribe) : CE unit :=
  let cfg := s_listen_cfg s in
  ensure (negb ((0 <? lc_max_subscriptions cfg) && (lc_max_subscriptions cfg <=? Z.of_nat (size (s_subs s)))))
    (EMqtt METooManySubscriptions);;
  (if 0 <? lc_max_topic_levels cfg then
     match topic_from_str (s_topic_filter sub) with
     | Ok t => ensure (len t <=? lc_max_topic_levels cfg) (EMqtt METooManyTopicLevels)
     | Err e => err (error_of_topic e)
     | Panic => panic
     end
   else mret tt);;
  match limit_subs (s_opts sub) with
  | Some limit =>
      rels ← on_node (asks (λ n, relations (n_router n) !! s_topic_filter sub));
      ensure (match rels with
              | Some rels => is_some (rels !! id_client_id (s_id s)) || (Z.of_nat (size rels) <? limit)
              | None => true
              end) (EMqtt (MESubscribeLimited (s_topic_filter sub)))
  | None => mret tt
  end.

(** The registration of a subscription that the rules allow. *)
Definition subscribe_admitted (s : Session) (sub : BrokerTypes.Subscribe) : CE SubscribeReturn :=
  sub_ret ← on_node (entry_subscribe scx (s_id s) sub);
  match success sub_ret with
  | Some qos =>
      nmod (on_n_tasks (λ ts, ts ++ [TaskSubscribeMessages (s_id s) (s_topic_filter sub)
        (shared_group (s_opts sub)) (retain_handling (s_opts sub))
        (negb (is_some (prev_opts sub_ret))) qos]));;
      nmod (hook (SessionSubscribed (s_id s) sub));;
      mret sub_ret
  | None => mret sub_ret
  end.

Definition _subscribe (sub : BrokerTypes.Subscribe) : CE SubscribeReturn :=
  s ← self;
  check_limits s sub;;
  let opts := set_qos (s_opts sub) (less_value (opts_qos (s_opts sub)) (lc_max_qos_allowed (s_listen_cfg s))) in
  let sub := mkSubscribe (s_topic_filter sub) opts in
  nmod (hook (ClientSubscribe (s_id s) sub));;
  let sub := mkSubscribe (default (s_topic_filter sub) (client_subscribe (sc_hooks scx) (s_id s) sub)) opts in
  (if session_superuser s then mret tt else nmod (hook (ClientSubscribeCheckAcl (s_id s) sub)));;
  match client_subscribe_check_acl (λ _, session_superuser s) (sc_hooks scx) (s_id s) sub with
  | Some acl_result =>
      match success acl_result with
      | Some qos => subscribe_admitted s (mkSubscribe (s_topic_filter sub)
                          (set_qos (s_opts sub) (less_value (opts_qos (s_opts sub)) qos)))
      | None => mret acl_result
      end
  | None => subscribe_admitted s sub
  end.

(** [SessionState::subscribes_v3] and [SessionState::subscribes_v5] *)
Fixpoint subscribes_v3 (limit : bool) (tfs : list (bytes * QoS)) : CE (list MqttV3.SubscribeReturnCode) :=
  match tfs with
  | [] => mret []
  | (topic_filter, qos) :: tfs =>
      match subscribe_from_v3 topic_filter qos (sc_shared_supported scx) limit with
      | Ok s =>
          r ← attempt (_subscribe s);
          acks ← subscribes_v3 limit tfs;
          mret (match r with
                | Ok sub_ret => match success sub_ret with
                                | Some qos => MqttV3.Success qos
                                | None => MqttV3.Failure
                                end
                | _ => MqttV3.Failure
                end :: acks)
      | Err e => err (error_of_filter e)
      | Panic => panic
      end
  end.

Fixpoint subscribes_v5 (limit : bool) (sub_id : option Z)
    (tfs : list (bytes * PacketV5.SubscriptionOptions)) : CE (list SubscribeAckReason) :=
  match tfs with
  | [] => mret []
  | (topic_filter, opts) :: tfs =>
      match subscribe_from_v5 topic_filter opts (sc_shared_supported scx) limit sub_id with
      | Ok s =>
          r ← attempt (_subscribe s);
          status ← subscribes_v5 limit sub_id tfs;
          mret (match r with Ok sub_ret => ack_reason sub_ret | _ => SAUnspecifiedError end :: status)
      | Err e => err (error_of_filter e)
      | Panic => panic
      end
  end.

(** [SessionState::unsubscribe] *)
Definition unsubscribe (unsub : BrokerTypes.Unsubscribe) : CE unit :=
  s ← self;
  nmod (hook (ClientUnsubscribe (s_id s) (u_topic_filter unsub) (u_shared_group unsub)));;
  let unsub := BrokerTypes.mkUnsubscribe
                 (default (u_topic_filter unsub) (client_unsubscribe (sc_hooks scx) (s_id s) unsub))
                 (u_shared_group unsub) in
  ok ← on_node (entry_unsubscribe (s_id s) unsub);
  if ok : bool then nmod (hook (SessionUnsubscribed (s_id s) (u_topic_filter unsub) (u_shared_group unsub)))
  else mret tt.

(** [SessionState::unsubscribes_v3], also the loop of [unsubscribes_v5] *)
Fixpoint unsubscribes (limit : bool) (tfs : list bytes) : CE unit :=
  match tfs with
  | [] => mret tt
  | tf :: tfs =>
      match unsubscribe_from tf (sc_shared_supported scx) limit with
      | Ok unsub => unsubscribe unsub;; unsubscribes limit tfs
      | Err e => err (error_of_filter e)
      | Panic => panic
      end
  end.

(** ** Delivering *)

(** The policy of the delivery queue: a full queue drops a new QoS 0 message,
    and its oldest message for any other. *)
Definition deliver_policy (m : From * BrokerTypes.Publish) : Policy :=
  match qos (inner m.2) with AtMostOnce => Current | _ => Early end.

(** [deliver_queue_tx.send(..)]: the message that was dropped, if any. *)
Definition queue_send {E} (m : From * BrokerTypes.Publish)
    : M (Node * Conn) E (option (From * BrokerTypes.Publish)) :=
  s ← self; k ← on_conn (asks c_signals);
  let '(r, ch) := send (mkChannel (s_queue s) k deliver_policy) m in
  on_self (on_s_queue (λ _, ch_queue ch));;
  cmod (set_signals (signals ch));;
  mret (match r with Err m => Some m | _ => None end).

Definition drop_queue_full {E} (dropped : option (From * BrokerTypes.Publish)) : M (Node * Conn) E unit :=
  s ← self;
  match dropped with
  | Some (from, p) => nmod (message_dropped (Some (s_id s)) from p MessageQueueFull)
  | None => mret tt
  end.

(** [SessionState::forward]; the channel is that of the session itself. *)
Definition forward {E} (from : From) (p : BrokerTypes.Publish) : M (Node * Conn) E unit :=
  r ← self_ref; s ← self;
  sent ← on_node (state (unbounded_send r (Forward from p)));
  if sent : bool then mret tt
  else nmod (message_dropped (Some (s_id s)) from p (RError (lit "Send Publish message error, Tx is closed"))).

(** [SessionState::deliver] *)
Definition moment_status (q : QoS) : option MomentStatus :=
  match q with AtLeastOnce => Some UnAck | ExactlyOnce => Some UnReceived | AtMostOnce => None end.

(** A message that is not repeated under its old identifier gets a new one. *)
Definition with_packet_id (publish : BrokerTypes.Publish) : CE BrokerTypes.Publish :=
  if is_some (moment_status (qos (inner publish)))
     && (negb (dup (inner publish)) || negb (is_some (packet_id (inner publish)))) then
    s ← self;
    let '(pid, o) := next_id (s_out s) in
    on_self (on_s_out (λ _, o));;
    pid ← ok_or pid (EOther (lit "no packet_id available, should unreachable!()"));
    mret (on_inner (set_packet_id (Some pid)) publish)
  else mret publish.

Definition deliver (from : From) (publish : BrokerTypes.Publish) : CE unit :=
  s ← self;
  expiry_check_res ← hook_expiry_check from publish;
  match expiry_check_res with
  | Expiry => nmod (message_dropped (Some (s_id s)) from publish MessageExpiration)
  | Remaining message_expiry_interval =>
      publish ← with_packet_id publish;
      publish ← hook_delivered from publish;
      sink_publish_msg publish message_expiry_interval;;
      match moment_status (qos (inner publish)) with
      | Some st => t ← now; on_self (on_s_out (λ o, (push_back o (out_msg_new t st from publish)).2))
      | None => mret tt
      end
  end.

(** [SessionState::reforward] *)
Definition reforward {E} (m : InflightMsg) : M (Node * Conn) E unit :=
  match Inflight.status m with
  | UnAck | UnReceived => forward (Inflight.from m) (on_inner (set_dup true) (Inflight.publish m))
  | UnComplete =>
      expiry_check_res ← hook_expiry_check (Inflight.from m) (Inflight.publish m);
      match expiry_check_res with
      | Expiry => mret tt
      | Remaining _ =>
          r ← self_ref;
          on_node (state (unbounded_send r (SendRerelease m)));;
          mret tt
      end
  end.

(** [SessionState::send_rerelease] *)
Definition send_rerelease (m : InflightMsg) : CM unit :=
  pid ← need_packet_id (msg_packet_id m);
  t ← now;
  on_self (on_s_out (λ o, (push_back o (out_msg_new t UnComplete (Inflight.from m) (Inflight.publish m))).2));;
  question (send_publish_release pid).

(** [while let Some(m) = pop_front_timeout() { reforward(m) }] *)
Fixpoint retransmit {E} (fuel : nat) : M (Node * Conn) E unit :=
  match fuel with
  | O => panic
  | S fuel =>
      s ← self; t ← now;
      match pop_front_timeout t (s_out s) with
      | (Some m, o) => on_self (on_s_out (λ _, o));; reforward m;; retransmit fuel
      | (None, o) => on_self (on_s_out (λ _, o))
      end
  end.

(** [SessionState::transfer_session_state] *)
Definition max_transfer_id (ms : list InflightMsg) : option Z :=
  foldr (λ m acc, match msg_packet_id m, acc with
                  | Some i, Some k => Some (Z.max i k)
                  | Some i, None => Some i
                  | None, acc => acc
                  end) None ms.

Definition transfer_session_state (clear : bool) (o : OfflineInfo) : CE unit :=
  s ← self; r ← self_ref;
  (match max_transfer_id (of_inflight o) with
   | Some max_id => on_self (on_s_out (λ o, advance_next_id o max_id))
   | None => mret tt
   end);;
  (if clear then mret tt
   else
     for_each (λ '(tf, opts),
       attempt (on_node (node_router_add tf (s_id s) opts));;
       nmod (on_n_tasks (λ ts, ts ++ [TaskStoredMessages (s_id s) tf (opts_qos opts) (shared_group opts)])))
       (of_subscriptions o);;
     nmod (subscriptions_extend r (of_subscriptions o)));;
  (** [inflight_messages.pop()] takes the last *)
  for_each reforward (reverse (of_inflight o));;
  for_each (λ '(from, p), forward from p) (of_messages o).

(** [SessionState::clean] *)
Fixpoint drop_queue {E} (fuel : nat) (reason : Reason) : M (Node * Conn) E unit :=
  match fuel with
  | O => panic
  | S fuel =>
      s ← self;
      match queue_pop (s_queue s) with
      | (Some (from, p), q) =>
          on_self (on_s_queue (λ _, q));;
          nmod (message_dropped (Some (s_id s)) from p reason);;
          drop_queue fuel reason
      | (None, q) => on_self (on_s_queue (λ _, q))
      end
  end.

Fixpoint drop_inflight {E} (fuel : nat) (reason : Reason) : M (Node * Conn) E unit :=
  match fuel with
  | O => panic
  | S fuel =>
      s ← self;
      match pop_front (s_out s) with
      | (Some m, o) =>
          on_self (on_s_out (λ _, o));;
          nmod (message_dropped (Some (s_id s)) (Inflight.from m) (Inflight.publish m) reason);;
          drop_inflight fuel reason
      | (None, o) => on_self (on_s_out (λ _, o))
      end
  end.

Definition clean {E} (reason : Reason) : M (Node * Conn) E unit :=
  s ← self;
  drop_queue (S (length (q_inner (s_queue s)))) reason;;
  drop_inflight (S (Z.to_nat (out_len (s_out s)))) reason;;
  nmod (hook (SessionTerminated (s_id s) reason));;
  same ← on_node (asks (λ n, id_same n (s_id s)));
  match same with
  | Some true => attempt (on_node (_remove_with true (s_id s) (s_id s)));; mret tt
  | _ => mret tt
  end.
End Session.
