(* ===== verification/SessionLoop.v ===== *)
(** * The life of a connection

    The rest of [SessionState] of [ferromq/src/session.rs]: the dispatch of
    packets ([process_mqtt_message]) and of messages of other tasks
    ([process_message]), the two select loops, the end of a connection ([run]),
    and the tasks that send retained and stored messages to a new subscriber.

    A loop is one definition per turn, whose event says which branch of the
    [select!] was ready; a branch that is not ready is a turn that does nothing.
    Timers are events: the model does not say how long they take. *)

From stdpp Require Import base list numbers option gmap strings.
From Stdlib Require Import ZArith Lia.
From S2P Require Import Prelude Errors CodecTypes PacketV5 Topic Counter Hash BrokerTypes Queue Inflight.
From S2P Require Import RetainStore Router Acl Alias Hook Delayed SessionSubs ConnInfo Fitter Broker Session.

#[local] Open Scope Z_scope.

Section Loop.
Context `{B : Backend} (scx : ServerContext).

Abbreviation CE := (M (Node * Conn) Error).
Abbreviation CM := (M (Node * Conn) Reason).

(** ** Packets of the client *)

(** An acknowledgement that ends the delivery of a message. *)
Definition acknowledged {E} (pid : Z) : M (Node * Conn) E unit :=
  s ← self;
  let '(m, o) := out_remove (s_out s) pid in
  on_self (on_s_out (λ _, o));;
  match m with
  | Some m => nmod (hook (MessageAcked (s_id s) (Inflight.from m) (Inflight.publish m)))
  | None => mret tt
  end.

Definition released {E} (pid : Z) : M (Node * Conn) E unit :=
  t ← now; on_self (on_s_out (λ o, out_update_status t o pid UnComplete)).

(** The text of the error that a refused SUBSCRIBE or UNSUBSCRIBE ends with. *)
Definition error_text (e : Error) : str :=
  match e with EMqtt e => sc_show_mqtt_error scx e | EOther s => s end.

Definition subscribe_failed {A} (m : CE A) : CM A := map_err (λ e, SubscribeFailed (Some (error_text e))) m.
Definition unsubscribe_failed {A} (m : CE A) : CM A := map_err (λ e, UnsubscribeFailed (Some (error_text e))) m.

(** The arms that return early do not count as a sign of life. *)
Inductive Handled : Type := Alive | Returned.

Definition limit_subscription {E} : M (Node * Conn) E bool :=
  s ← self; mret (lc_limit_subscription (s_listen_cfg s)).

Definition handle_packet (pkt : Packet) : CM Handled :=
  match pkt with
  | PktV3 (MqttV3.PPublish p) | PktV5 (V5Publish p) =>
      t ← now; process_publish scx (with_create_time t (publish_of p));; mret Alive
  | PktV3 (MqttV3.PPublishRelease pid) =>
      inflight_remove pid;; question (v3_send (MqttV3.PPublishComplete pid));; mret Alive
  | PktV5 (V5PublishRelease ack2) =>
      inflight_remove (pa_packet_id ack2);;
      question (v5_send (V5PublishComplete (mkPublishAck (pa_packet_id ack2) PA2Success [] None)));;
      mret Alive
  | PktV3 (MqttV3.PPublishAck pid) | PktV3 (MqttV3.PPublishComplete pid) => acknowledged pid;; mret Alive
  | PktV5 (V5PublishAck ack) => acknowledged (pa_packet_id ack);; mret Alive
  | PktV5 (V5PublishComplete ack2) => acknowledged (pa_packet_id ack2);; mret Alive
  | PktV3 (MqttV3.PPublishReceived pid) =>
      released pid;; question (v3_send (MqttV3.PPublishRelease pid));; mret Alive
  | PktV5 (V5PublishReceived ack) =>
      released (pa_packet_id ack);;
      question (v5_send (V5PublishRelease (mkPublishAck (pa_packet_id ack) PA2Success [] None)));;
      mret Alive
  | PktV3 (MqttV3.PSubscribe pid tfs) =>
      limit ← limit_subscription;
      status ← subscribe_failed (subscribes_v3 scx limit tfs);
      question (v3_send (MqttV3.PSubscribeAck pid status));; mret Alive
  | PktV5 (V5Subscribe subs) =>
      limit ← limit_subscription;
      status ← subscribe_failed (subscribes_v5 scx limit (PacketV5.sub_id subs) (sub_topic_filters subs));
      question (v5_send (V5SubscribeAck (mkSubscribeAck (sub_packet_id subs) [] None status)));; mret Alive
  | PktV3 (MqttV3.PUnsubscribe pid tfs) =>
      limit ← limit_subscription;
      unsubscribe_failed (unsubscribes scx limit tfs);;
      question (v3_send (MqttV3.PUnsubscribeAck pid));; mret Alive
  | PktV5 (V5Unsubscribe unsubs) =>
      limit ← limit_subscription;
      unsubscribe_failed (unsubscribes scx limit (un_topic_filters unsubs));;
      question (v5_send (V5UnsubscribeAck (mkUnsubscribeAck (un_packet_id unsubs) [] None
        (map (λ _, UASuccess) (un_topic_filters unsubs)))));; mret Alive
  | PktV3 MqttV3.PPingRequest => question (v3_send MqttV3.PPingResponse);; flag Ping;; mret Alive
  | PktV5 V5PingRequest => question (v5_send V5PingResponse);; flag Ping;; mret Alive
  | PktV3 MqttV3.PDisconnect =>
      t ← now; flag DisconnectReceived;; on_self (disconnected_set t (Some DiscV3) None);; mret Returned
  | PktV5 (V5Disconnect d) =>
      t ← now; flag DisconnectReceived;; on_self (disconnected_set t (Some (DiscV5 d)) None);; mret Returned
  | PktV5 (V5Auth _) => question (v5_send (V5Auth (mkAuth AUSuccess None None None [])));; mret Alive
  | _ => err (RError (lit "Received an unimplemented message"))
  end.

(** [SessionState::process_mqtt_message] *)
Definition process_mqtt_message (pkt : Packet) : CM unit :=
  h ← handle_packet pkt;
  match h with
  | Returned => mret tt
  | Alive =>
      s ← self;
      is_ping ← on_conn (asks (λ c, contains (c_flags c) Ping));
      nmod (hook (ClientKeepalive (s_id s) is_ping));;
      if is_ping : bool then cmod (on_flags (λ f, flag_remove f Ping)) else mret tt
  end.

(** ** Messages of other tasks *)

(** What a kick leaves in the flags. *)
Definition kicked {E} (clean_start is_admin : bool) : M (Node * Conn) E unit :=
  flag Kicked;;
  (if is_admin then flag ByAdminKick else mret tt);;
  (if clean_start then flag CleanStart else mret tt).

(** [SessionState::process_message] *)
Definition process_message (m : Message) : CM unit :=
  match m with
  | Forward from p => dropped ← queue_send (from, p); drop_queue_full dropped
  | SendRerelease m => send_rerelease m
  | Kick sender by_id clean_start is_admin =>
      closed ← on_node (asks (λ n, oneshot_closed n sender));
      if closed : bool then mret tt
      else
        nmod (oneshot_send sender RepKicked);;
        kicked clean_start is_admin;;
        err (ConnectKicked is_admin)
  | MsgSubscribe sub reply =>
      r ← attempt (_subscribe scx sub); nmod (oneshot_send reply (RepSubscribe r))
  | MsgSubscribes subs reply =>
      rs ← (fix go (subs : list BrokerTypes.Subscribe) : CM (list (outcome Error SubscribeReturn)) :=
              match subs with
              | [] => mret []
              | sub :: subs => r ← attempt (_subscribe scx sub); rs ← go subs; mret (r :: rs)
              end) subs;
      match reply with Some reply => nmod (oneshot_send reply (RepSubscribes rs)) | None => mret tt end
  | MsgUnsubscribe unsub reply =>
      r ← attempt (unsubscribe scx unsub); nmod (oneshot_send reply (RepUnsubscribe r))
  | SessionStateTransfer o clean_start => question (transfer_session_state scx clean_start o)
  | Closed r => err r
  end.

(** [self.rx.next()] and [self.rx.try_recv()] *)
Definition recv {E} : M (Node * Conn) E (option Message) :=
  r ← self_ref;
  on_node (state (λ n,
    match ch_msgs <$> n_chans n !! r with
    | Some (m :: ms) => (Some m, on_n_chans (alter (λ c, mkChan (ch_open c) ms) r) n)
    | _ => (None, n)
    end)).

(** ** The online loop *)

Inductive LoopEvent : Type :=
| EvKeepalive
| EvRetransmit
| EvDeliver
| EvMessage
| EvPacket (r : outcome Error (option Packet)).

(** One turn of [run_loop].  The precondition of the delivery branch is evaluated
    in every turn; [checks] says whether arithmetic is checked. *)
Definition loop_turn (checks : bool) (ev : LoopEvent) : CM unit :=
  s ← self;
  match has_credit checks (s_out s) with
  | Ok credit =>
      match ev with
      | EvKeepalive => err ConnectKeepaliveTimeout
      | EvRetransmit => retransmit scx (S (Z.to_nat (out_len (s_out s))))
      | EvDeliver =>
          if credit then
            k ← on_conn (asks c_signals);
            let '(r, ch) := poll_next (mkChannel (s_queue s) k deliver_policy) in
            on_self (on_s_queue (λ _, ch_queue ch));;
            cmod (set_signals (signals ch));;
            match r with
            | Some (Some (from, p)) => question (deliver scx from p)
            | _ => mret tt
            end
          else mret tt
      | EvMessage => m ← recv; match m with Some m => process_message m | None => mret tt end
      | EvPacket (Ok (Some pkt)) => process_mqtt_message pkt
      | EvPacket (Ok None) => err ConnectRemoteClose
      | EvPacket (Err e) => err (reason_of_error e)
      | EvPacket Panic => panic
      end
  | _ => panic
  end.

Fixpoint run_loop (checks : bool) (evs : list LoopEvent) : CM unit :=
  match evs with
  | [] => mret tt
  | ev :: evs => loop_turn checks ev;; run_loop checks evs
  end.

(** ** The end of a connection *)

Definition last_will_enable (flags : Z) (clean_session : bool) : bool :=
  let session_present := contains flags Kicked && negb (contains flags CleanStart) && negb clean_session in
  negb (contains flags DisconnectReceived || session_present).

Definition clean_session (s : Session) (d : option Disconnect) : bool :=
  match s_conn_info s with
  | ConnV3 _ c => MqttV3.clean_session c
  | ConnV5 _ _ => fitter_session_expiry_interval (s_fitter s) d =? 0
  end.

Definition s_will_delay_interval (s : Session) : option Z :=
  ci_last_will (s_conn_info s) ≫= will_delay_interval.

(** The will that has to wait, after the will that does not has been published;
    an error is logged. *)
Definition settle_will {E} (clean_session : bool) : M (Node * Conn) E (option Z) :=
  s ← self;
  flags ← on_conn (asks c_flags);
  if last_will_enable flags clean_session then
    if clean_session || negb (is_some (s_will_delay_interval s)) then
      attempt (process_last_will scx);; mret None
    else mret (s_will_delay_interval s)
  else mret None.

(** [offline_restart], up to the offline loop: no flag is set. *)
Definition offline_restart {E} : M (Node * Conn) E (option Z) :=
  cmod (on_flags (λ _, 0));;
  s ← self;
  settle_will (clean_session s (di_mqtt_disconnect (s_disconnect s))).

(** How the task goes on: it ends, or the session lives on without a connection,
    with its will still to come and for this long. *)
Inductive Phase : Type := Finished | OfflinePhase (will_delay : option Z) (expiry : Z).

Definition run_start : Node * Conn → Node * Conn := λ '(n, c),
  (on_n_connections inc n,
   set_signals (from_option (λ s, length (q_inner (s_queue s))) 0%nat (session_at n (c_ref c))) c).

(** [run], once the will is settled: the client is told, and the session ends or
    lives on. *)
Definition farewell {E} (disconnect : option Disconnect) (clean_session : bool) (will_delay_interval : option Z)
    : M (Node * Conn) E Phase :=
  s ← self;
  reason ← (if disconnected_reason_has s then mret (disconnected_reason s)
            else on_self (disconnected_reason_add ConnectRemoteClose);; mret ConnectRemoteClose);
  v5 ← on_conn (asks c_v5);
  (if v5 : bool then
     attempt (sink_send (PktV5 (V5Disconnect
       match reason with
       | ConnectDisconnect (Some (DiscV5 d)) => d
       | _ => mkDisconnect (to_reason_code reason) None None
                (Some (reason_display (sc_show_disconnect scx) (sc_show_puback scx) (sc_show_mqtt_error scx)
                         reason)) []
       end)));; mret tt
   else mret tt);;
  nmod (hook (ClientDisconnected (s_id s) reason));;
  flags ← on_conn (asks c_flags);
  let take : M (Node * Conn) E Reason :=
    s ← self;
    let '(r, s') := disconnected_reason_take s in on_self (λ _, s');; mret r in
  if contains flags Kicked then
    (if contains flags ByAdminKick then r ← take; clean r else mret tt);; mret Finished
  else if clean_session then r ← take; clean r;; mret Finished
  else
    s ← self;
    let inflight_messages := clone_inflight_messages (s_out s) in
    (if out_is_empty (s_out s) then mret tt
     else nmod (hook (OfflineInflightMessages (s_id s) inflight_messages)));;
    mret (OfflinePhase will_delay_interval (fitter_session_expiry_interval (s_fitter s) disconnect)).

(** [run], after the loop has returned [r] *)
Definition run_end {E} (r : outcome Reason unit) : M (Node * Conn) E Phase :=
  (match r with Err reason => on_self (disconnected_reason_add reason) | _ => mret tt end);;
  nmod (on_n_connections dec);;
  cmod sink_close;;
  s ← self; t ← now;
  let disconnect := di_mqtt_disconnect (s_disconnect s) in
  let clean_session := clean_session s disconnect in
  on_self (disconnected_set t None None);;
  will_delay_interval ← settle_will clean_session;
  farewell disconnect clean_session will_delay_interval.

(** ** The offline loop *)

Inductive OfflineEvent : Type := OffMessage | OffSessionExpiry | OffWillDelay.

(** A message that arrives while there is no connection. *)
Definition offline_forward {E} (from : From) (p : BrokerTypes.Publish) : M (Node * Conn) E unit :=
  s ← self;
  nmod (hook (OfflineMessage (s_id s) from p));;
  dropped ← queue_send (from, p);
  drop_queue_full dropped.

(** The messages that are queued behind a kick. *)
Fixpoint drain_rx {E} (fuel : nat) : M (Node * Conn) E unit :=
  match fuel with
  | O => panic
  | S fuel =>
      m ← recv;
      match m with
      | Some (Forward from p) => offline_forward from p;; drain_rx fuel
      | _ => mret tt
      end
  end.

Definition pending {E} : M (Node * Conn) E nat :=
  r ← self_ref;
  on_node (asks (λ n, from_option (λ c, length (ch_msgs c)) 0%nat (n_chans n !! r))).

(** One turn: the loop is left, or goes on with this will still to come. *)
Inductive Turn : Type := Break | Continue (will_delay : option Z).

Definition offline_turn {E} (will_delay : option Z) (ev : OfflineEvent) : M (Node * Conn) E Turn :=
  match ev with
  | OffMessage =>
      m ← recv;
      match m with
      | Some (Forward from p) => offline_forward from p;; mret (Continue will_delay)
      | Some (Kick sender by_id clean_start is_admin) =>
          closed ← on_node (asks (λ n, oneshot_closed n sender));
          if closed : bool then mret (Continue will_delay)
          else
            k ← pending;
            drain_rx (S k);;
            nmod (oneshot_send sender RepKicked);;
            kicked clean_start is_admin;;
            mret Break
      | _ => mret (Continue will_delay)
      end
  | OffSessionExpiry =>
      (if is_some will_delay then attempt (process_last_will scx);; mret tt else mret tt);; mret Break
  | OffWillDelay =>
      (if is_some will_delay then attempt (process_last_will scx);; mret tt else mret tt);;
      mret (Continue None)
  end.

(** The loop; the second component says whether it was left. *)
Fixpoint offline_run_loop {E} (will_delay : option Z) (evs : list OfflineEvent)
    : M (Node * Conn) E (option Z * bool) :=
  match evs with
  | [] => mret (will_delay, false)
  | ev :: evs =>
      turn ← offline_turn will_delay ev;
      match turn with
      | Break => mret (will_delay, true)
      | Continue will_delay => offline_run_loop will_delay evs
      end
  end.

(** [run], after the offline loop *)
Definition offline_end {E} : M (Node * Conn) E unit :=
  flags ← on_conn (asks c_flags);
  if contains flags Kicked then mret tt else clean SessionExpiration.

(** The task is dropped with its channel, and with the session when the registry
    does not hold it. *)
Definition task_exit : Node * Conn → Node := λ '(n, c),
  let n := close_chan (c_ref c) n in
  let held := existsb (λ kv, (e_s kv.2 =? c_ref c)) (map_to_list (n_peers n)) in
  if held then n else session_drop (c_ref c) n.

(** ** Messages for a new subscriber *)

(** [_send_retain_messages] *)
Fixpoint send_retain_messages (id : Id) (retains : list (TopicName * Retain)) (qos : QoS) (n : Node) : Node :=
  match retains with
  | [] => n
  | (tn, r) :: retains =>
      let p := on_inner (λ p,
        set_packet_id None (set_topic tn (set_pub_qos (less_value (CodecTypes.qos p) qos)
          (set_retain true (set_dup false p))))) (r_publish r) in
      let p := with_create_time (n_now n) p in
      let n := match entry_publish id (r_from r) p n with
               | (Some (from, p, reason), n) => message_dropped (Some id) from p reason n
               | (None, n) => n
               end in
      send_retain_messages id retains qos n
  end.

(** [SendRetainMessagesHandler::on_retains] *)
Definition excludeds_of (retains : list (TopicName * Retain)) : list (NodeId * MsgID) :=
  omap (λ r : TopicName * Retain, (λ i, (id_node_id (from_id (r_from r.2)), i)) <$> BrokerTypes.msg_id r.2) retains.

(** [_send_retain_excludeds]; [retain_load_with] reads the local store. *)
Definition send_retain_enable (rh : option RetainHandling) (prev_opts_is_none : bool) : bool :=
  match rh with
  | Some RHAtSubscribe => true
  | Some RHAtSubscribeNew => prev_opts_is_none
  | Some RHNoAtSubscribe => false
  | None => true
  end.

Definition send_retain_excludeds (id : Id) (tf : TopicFilter) (rh : option RetainHandling)
    (prev_opts_is_none : bool) (qos : QoS) : M Node Error (option (list (NodeId * MsgID))) :=
  if negb (sc_retain_enable scx) then mret None
  else if send_retain_enable rh prev_opts_is_none then
    retains ← (λ n, match ram_get (n_instant n) tf (n_retain n) with
                    | Ok rs => (Ok rs, n)
                    | Err e => (Err (error_of_topic e), n)
                    | Panic => (Panic, n)
                    end);
    modify (send_retain_messages id retains qos);;
    mret (Some (excludeds_of retains))
  else mret (Some []).

(** [_send_storaged_messages] *)
Fixpoint send_storaged_messages (id : Id) (msgs : list (MsgID * From * BrokerTypes.Publish)) (qos : QoS)
    (excludeds : option (list (NodeId * MsgID))) (tf : TopicFilter) (group : option SharedGroup) (n : Node)
    : Node :=
  match msgs with
  | [] => n
  | (mid, from, p) :: msgs =>
      let skip := from_option (λ ex, bool_decide ((id_node_id (from_id from), mid) ∈ ex)) false excludeds in
      let n :=
        if skip then n
        else
          let p := on_inner (λ p,
            set_packet_id None (set_pub_qos (less_value (CodecTypes.qos p) qos)
              (set_retain false (set_dup false p)))) p in
          match entry_publish id from p n with
          | (Some (from, p, reason), n) => message_dropped (Some id) from p reason n
          | (None, n) =>
              if id_node_id (from_id from) =? sc_node_id scx then
                on_n_msgs (λ m, (mm_mark_forwarded mid [(id_client_id id, (λ g, (tf, g)) <$> group)] m).2) n
              else n
          end in
      send_storaged_messages id msgs qos excludeds tf group n
  end.

(** [message_load_with] with [SendStoragedMessagesHandler]; an error is logged. *)
Definition load_storaged_messages (id : Id) (tf : TopicFilter) (qos : QoS) (group : option SharedGroup)
    (excludeds : option (list (NodeId * MsgID))) (n : Node) : Node :=
  match mm_get (id_client_id id) tf group (n_msgs n) with
  | (Ok msgs, m) => send_storaged_messages id msgs qos excludeds tf group (on_n_msgs (λ _, m) n)
  | (_, m) => on_n_msgs (λ _, m) n
  end.

(** [_send_subscribe_messages] and the task of [send_storaged_messages] *)
Definition run_task {E} (t : Task) : M Node E unit :=
  match t with
  | TaskSubscribeMessages id tf group rh prev_opts_is_none qos =>
      excludeds ← attempt (send_retain_excludeds id tf rh prev_opts_is_none qos);
      let excludeds := match excludeds with Ok ex => ex | _ => None end in
      modify (λ n, if mm_enable (n_msgs n) then load_storaged_messages id tf qos group excludeds n else n)
  | TaskStoredMessages id tf qos group => modify (load_storaged_messages id tf qos group None)
  end.
End Loop.
