(* ===== verification/Handshake.v ===== *)
(** * Connecting

    Models [ferromq/src/v3.rs] and [ferromq/src/v5.rs]: the CONNECT packet of a
    client is checked, its session of an earlier connection is taken over or
    removed, and a new session is created and registered; and [recv_connect] of
    [ferromq-net/src/stream.rs], which takes the user name from a certificate.

    Both protocols take the same steps with their own reason codes; the steps
    they share are definitions that take the codes as arguments.  What the clock,
    the network and the rest of the node contribute are arguments: whether the
    node is busy, the time the handshake has taken, a random identifier, and what
    other tasks do while the old session is told to go. *)

From stdpp Require Import base list numbers option gmap strings.
From Stdlib Require Import ZArith Lia.
From S2P Require Import Prelude Errors CodecTypes PacketV5 Topic Counter Hash BrokerTypes Queue Inflight.
From S2P Require Import RetainStore Router Acl Alias Hook Delayed SessionSubs ConnInfo Fitter Broker Session.
From S2P Require Import SessionLoop.

#[local] Open Scope Z_scope.

(** ** Receiving CONNECT *)

(** The user name of a client with a certificate. *)
Definition cert_username (cfg : ListenerConfig) (cert : option CertInfo) (username : option bytes)
    : option bytes :=
  match cert with
  | Some cert =>
      if lc_cert_subject_dn_as_username cfg && negb (bool_decide (subject cert = [])) then Some (subject cert)
      else if lc_cert_cn_as_username cfg then
        match common_name cert with Some cn => Some cn | None => username end
      else username
  | None => username
  end.

Definition with_cert_v3 (cfg : ListenerConfig) (cert : option CertInfo) (c : MqttV3.Connect) : MqttV3.Connect :=
  MqttV3.mkConnect (MqttV3.protocol c) (MqttV3.clean_session c) (MqttV3.keep_alive c) (MqttV3.last_will c)
    (MqttV3.client_id c) (cert_username cfg cert (MqttV3.username c)) (MqttV3.password c)
    (if lc_collect_cert_info cfg then cert else MqttV3.cert c).

Definition with_cert_v5 (cfg : ListenerConfig) (cert : option CertInfo) (c : PacketV5.Connect) : PacketV5.Connect :=
  mkConnect (c_clean_start c) (c_keep_alive c) (c_session_expiry_interval_secs c) (c_auth_method c)
    (c_auth_data c) (c_request_problem_info c) (c_request_response_info c) (c_receive_max c)
    (c_topic_alias_max c) (c_user_properties c) (c_max_packet_size c) (c_last_will c) (c_client_id c)
    (cert_username cfg cert (c_username c)) (c_password c) (if lc_collect_cert_info cfg then cert else c_cert c).

(** [recv_connect]: the first packet, the end of the stream ([None]) or an error. *)
Definition recv_connect_v3 (cfg : ListenerConfig) (cert : option CertInfo)
    (r : outcome Error (option MqttV3.Packet)) : outcome Error MqttV3.Connect :=
  match r with
  | Ok (Some (MqttV3.PConnect c)) => Ok (with_cert_v3 cfg cert c)
  | Err e => Err e
  | Panic => Panic
  | _ => Err (EMqtt MEInvalidProtocol)
  end.

Definition recv_connect_v5 (cfg : ListenerConfig) (cert : option CertInfo)
    (r : outcome Error (option PacketV5.Packet)) : outcome Error PacketV5.Connect :=
  match r with
  | Ok (Some (V5Connect c)) => Ok (with_cert_v5 cfg cert c)
  | Err e => Err e
  | Panic => Panic
  | _ => Err (EMqtt MEInvalidProtocol)
  end.

(** [invalid_client_id]: a cause of the error is [DecodeError::InvalidClientId]. *)
Definition invalid_client_id (e : Error) : bool :=
  match e with EMqtt (MEDecode InvalidClientId) => true | _ => false end.

Section Handshake.
Context `{B : Backend} (scx : ServerContext).

Abbreviation HM := (M Node (ConnAckReason * Error)).

(** ** Steps of both protocols *)

(** [.map_err(|e| (ack, e))] *)
Definition refused {A} (ack : ConnAckReason) (m : M Node Error A) : HM A := map_err (λ e, (ack, e)) m.

Definition hello (ci : ConnectInfo) : HM unit := modify (hook (ClientConnect ci)).

(** The time the handshake has taken, and the length of the client identifier. *)
Definition check_client (unavailable rejected : ConnAckReason) (cfg : ListenerConfig) (id : Id) (elapsed : Z)
    : HM unit :=
  ensure (negb (lc_handshake_timeout cfg <? elapsed)) (unavailable, EOther (lit "handshake timeout"));;
  ensure (negb ((0 <? lc_max_clientid_len cfg) && (lc_max_clientid_len cfg <? len (id_client_id id))))
    (rejected, EOther (lit "client_id is too long")).

Definition check_sessions (unavailable : ConnAckReason) (id : Id) : HM unit :=
  n ← get_state;
  ensure (negb ((0 <? sc_mqtt_max_sessions scx) && (sc_mqtt_max_sessions scx <=? count (n_session_count n))
                && negb (entry_exist n id)))
    (unavailable, EOther (lit "the number of sessions on the current node exceeds the limit")).

(** The hook runs unless an anonymous client is let in without it. *)
Definition authenticate (cfg : ListenerConfig) (ci : ConnectInfo) : HM (bool * option AuthInfo) :=
  (if negb (is_some (ci_username ci)) && lc_allow_anonymous cfg then mret tt
   else modify (hook (ClientAuthenticate ci)));;
  let '(ack, superuser, auth_info) := client_authenticate (sc_hooks scx) ci (lc_allow_anonymous cfg) in
  ensure (ack_success ack) (ack, EOther (lit "Authentication failed"));;
  mret (superuser, auth_info).

(** The session of an earlier connection: whether the new one continues it, and
    what is left of it. *)
Definition take_over (unavailable : ConnAckReason) (ci : ConnectInfo) (wait : Node → Node)
    : HM (bool * option OfflineInfo) :=
  let clean := ci_clean_start ci in
  r ← refused unavailable (kick (ci_id ci) clean clean false wait);
  mret (match r with
        | OffNotExist => (false, None)
        | OffExist (Some o) => (negb clean, Some o)
        | OffExist None => (false, None)
        end).

(** [Session::new] with the fitter of the connection. *)
Definition create_session (cfg : ListenerConfig) (ci : ConnectInfo) (auth : bool * option AuthInfo)
    (present : bool) (o : option OfflineInfo) : HM Z :=
  now ← asks n_now;
  let fitter := mkFitter ci cfg in
  state (session_new (ci_id ci) (fitter_max_mqueue_len fitter) cfg auth.2 (fitter_max_inflight fitter)
           (from_option of_created_at now o) ci present auth.1 true now ∅ None).

Definition keep_alive_error (e : KeepAliveError) : Error :=
  EOther match e with
         | KeepAliveZero => lit "Keepalive must be greater than 0"
         | KeepAliveTooSmall _ => lit "Keepalive is too small"
         | KeepAliveTooLarge _ => lit "Keepalive is too large"
         end.

(** A refusal drops the session that was just created. *)
Definition negotiate_keep_alive (unavailable : ConnAckReason) (cfg : ListenerConfig) (ci : ConnectInfo) (r : Z)
    : HM (Z * Z) :=
  match fitter_keep_alive (mkFitter ci cfg) (ci_keep_alive ci) with
  | (Ok t, told) => mret (t, told)
  | (Err e, _) => modify (session_drop r);; err (unavailable, keep_alive_error e)
  | (Panic, _) => panic
  end.

(** [SessionState::new] *)
Definition state_new (v5 : bool) (io : nat → option MqttError) (r server_max client_max : Z) : HM Conn :=
  s ← get_session r;
  modify (on_n_chans <[r := mkChan true []]>);;
  mret (mkConn r (if 0 <? server_max then Some (server_aliases_new server_max) else None)
          (if 0 <? client_max then Some (client_aliases_new client_max) else None)
          (in_new 0 (lc_max_inflight (s_listen_cfg s))) 0 0 v5 io 0 false []).

(** From the registration to the subscriptions that are made for the client. *)
Definition announce (unavailable accepted : ConnAckReason) (ci : ConnectInfo) (c : Conn) (o : option OfflineInfo)
    : HM unit :=
  let id := ci_id ci in
  modify (entry_set id (c_ref c) (c_ref c));;
  modify (hook (ClientConnack ci accepted));;
  modify (hook (ClientConnected id));;
  (match o with
   | Some o =>
       sent ← state (unbounded_send (c_ref c) (SessionStateTransfer o (ci_clean_start ci)));
       ensure sent (unavailable, EOther (lit "send failed because receiver is gone"))
   | None => mret tt
   end);;
  match sc_auto_subscription scx with
  | Some subscribes =>
      subs ← refused unavailable (lift (subscribes id));
      sent ← state (unbounded_send (c_ref c) (MsgSubscribes subs None));
      ensure sent (unavailable, EOther (lit "send failed because receiver is gone"))
  | None => mret tt
  end.

(** The entry is locked for the rest of the handshake. *)
Definition then_unlock {A} (id : Id) (m : HM A) : HM A := λ n, let '(r, n) := m n in (r, unlock id n).
Definition locked {A} (unavailable : ConnAckReason) (id : Id) (m : HM A) : HM A :=
  refused unavailable (try_lock id);; then_unlock id m.

(** A failure drops the state of the connection. *)
Definition or_drop {A} (c : Conn) (m : HM A) : HM A := λ n,
  match m n with
  | (Ok a, n) => (Ok a, n)
  | (r, n) => (r, task_exit (n, c))
  end.

(** From the take-over on: the connection, its keep-alive, what the client is told
    of it and whether a session is continued. *)
Definition open_session (unavailable accepted : ConnAckReason) (v5 : bool) (io : nat → option MqttError)
    (cfg : ListenerConfig) (ci : ConnectInfo) (auth : bool * option AuthInfo) (server_max client_max : Z)
    (wait : Node → Node) : HM (Conn * Z * Z * bool) :=
  '(present, o) ← take_over unavailable ci wait;
  r ← create_session cfg ci auth present o;
  '(keep_alive, told) ← negotiate_keep_alive unavailable cfg ci r;
  (if is_some o then mret tt else modify (hook (SessionCreated (ci_id ci))));;
  conn ← state_new v5 io r server_max client_max;
  or_drop conn (announce unavailable accepted ci conn o);;
  mret (conn, keep_alive, told, present).

(** The CONNACK is written. *)
Definition send_connect_ack (unavailable : ConnAckReason) (p : Packet) (c : Conn) : HM Conn := λ n,
  match sink_send p (n, c) with
  | (Ok _, (n, c)) => (Ok c, n)
  | (Err e, (n, c)) => (Err (unavailable, e), task_exit (n, c))
  | (Panic, (n, _)) => (Panic, n)
  end.

(** ** MQTT 3 *)

Definition V3Unavailable : ConnAckReason := AckV3 MqttV3.ServiceUnavailable.

(** [_handshake] of [v3.rs]: the connection and its keep-alive. *)
Definition _handshake_v3 (io : nat → option MqttError) (cfg : ListenerConfig) (id : Id) (c : MqttV3.Connect)
    (elapsed : Z) (wait : Node → Node) : HM (Conn * Z) :=
  let ci := ConnV3 id c in
  hello ci;;
  check_client V3Unavailable (AckV3 MqttV3.IdentifierRejected) cfg id elapsed;;
  check_sessions V3Unavailable id;;
  auth ← authenticate cfg ci;
  '(conn, keep_alive, _, _) ← locked V3Unavailable id
    (open_session V3Unavailable (AckV3 MqttV3.ConnectionAccepted) false io cfg ci auth 0 0 wait);
  mret (conn, keep_alive).

(** [handshake] of [v3.rs], with the packet of [recv_connect] and the executor's
    answer: [None] is its timeout. *)
Definition handshake_v3 (io : nat → option MqttError) (cfg : ListenerConfig) (busy : bool)
    (recv : outcome Error MqttV3.Connect) (mk_id : bytes → option bytes → Id) (uuid : bytes)
    (elapsed : Z) (in_time : bool) (wait : Node → Node) : HM (Conn * Z) :=
  ensure (negb busy) (V3Unavailable, EOther (lit "the system is currently overloaded"));;
  c ← map_err (λ e, (if invalid_client_id e then AckV3 MqttV3.IdentifierRejected else V3Unavailable, e))
        (lift recv);
  c ← (if bool_decide (MqttV3.client_id c = []) then
         if MqttV3.clean_session c then
           mret (MqttV3.mkConnect (MqttV3.protocol c) (MqttV3.clean_session c) (MqttV3.keep_alive c)
             (MqttV3.last_will c) uuid (MqttV3.username c) (MqttV3.password c) (MqttV3.cert c))
         else err (AckV3 MqttV3.IdentifierRejected, EMqtt MEIdentifierRejected)
       else mret c);
  if in_time then
    '(conn, keep_alive) ← _handshake_v3 io cfg (mk_id (MqttV3.client_id c) (MqttV3.username c)) c elapsed wait;
    s ← get_session (c_ref conn);
    conn ← send_connect_ack V3Unavailable (PktV3 (MqttV3.PConnectAck
             (MqttV3.mkConnectAck MqttV3.ConnectionAccepted (session_present s)))) conn;
    mret (conn, keep_alive)
  else err (V3Unavailable, EOther (lit "Connection Refused, execute handshake timeout")).

(** The answer to a refused connection: [refused_ack_v3] as [process] calls it. *)
Definition refused_ack_v3 (ack : ConnAckReason) : MqttV3.ConnectAck :=
  MqttV3.mkConnectAck match ack with AckV3 r => r | AckV5 _ => MqttV3.ServiceUnavailable end false.

(** ** MQTT 5 *)

Definition V5Unavailable : ConnAckReason := AckV5 CAServerUnavailable.

(** [_handshake] of [v5.rs]: the connection, its CONNACK and its keep-alive. *)
Definition connect_ack_v5 (cfg : ListenerConfig) (ci : ConnectInfo) (assigned present : bool) (told : Z)
    : PacketV5.ConnectAck :=
  let fitter := mkFitter ci cfg in
  let expiry := as_u32 (as_secs (fitter_session_expiry_interval fitter None)) in
  mkConnectAck present CASuccess (if 0 <? expiry then Some expiry else None) (fitter_max_inflight fitter)
    (lc_max_qos_allowed cfg) (Some (lc_max_packet_size cfg))
    (if assigned then Some (id_client_id (ci_id ci)) else None) (fitter_max_client_topic_aliases fitter)
    (sc_retain_enable scx) true true (sc_shared_supported scx) (Some told) None None None None None [].

Definition _handshake_v5 (io : nat → option MqttError) (cfg : ListenerConfig) (id : Id) (c : PacketV5.Connect)
    (assigned : bool) (elapsed : Z) (wait : Node → Node) : HM (Conn * PacketV5.ConnectAck * Z) :=
  let ci := ConnV5 id c in
  hello ci;;
  check_client V5Unavailable (AckV5 CAClientIdentifierNotValid) cfg id elapsed;;
  ensure (negb (is_some (ci_auth_method ci)))
    (AckV5 CABadAuthenticationMethod, EOther (lit "extended Auth is not supported"));;
  ensure (negb (from_option lastwill_retain false (ci_last_will ci)) || sc_retain_enable scx)
    (AckV5 CARetainNotSupported, EOther (lit "will retain is not supported by the server"));;
  check_sessions V5Unavailable id;;
  auth ← authenticate cfg ci;
  let fitter := mkFitter ci cfg in
  '(conn, keep_alive, told, present) ← locked V5Unavailable id
    (open_session V5Unavailable (AckV5 CASuccess) true io cfg ci auth
       (fitter_max_server_topic_aliases fitter) (fitter_max_client_topic_aliases fitter) wait);
  mret (conn, connect_ack_v5 cfg ci assigned present told, keep_alive).

(** [handshake] of [v5.rs]; the codec's limit on outbound packets is
    [ci_max_packet_size]. *)
Definition handshake_v5 (io : nat → option MqttError) (cfg : ListenerConfig) (busy : bool)
    (recv : outcome Error PacketV5.Connect) (mk_id : bytes → option bytes → Id) (uuid : bytes)
    (elapsed : Z) (in_time : bool) (wait : Node → Node) : HM (Conn * Z) :=
  ensure (negb busy) (V5Unavailable, EOther (lit "the system is currently overloaded"));;
  c ← map_err (λ e, (if invalid_client_id e then AckV5 CAClientIdentifierNotValid else V5Unavailable, e))
        (lift recv);
  let assigned := bool_decide (c_client_id c = []) in
  let c := if assigned then connect_client_id uuid c else c in
  if in_time then
    '(conn, ack, keep_alive) ← _handshake_v5 io cfg (mk_id (c_client_id c) (c_username c)) c assigned elapsed wait;
    conn ← send_connect_ack V5Unavailable (PktV5 (V5ConnectAck ack)) conn;
    mret (conn, keep_alive)
  else err (V5Unavailable, EOther (lit "Connection Refused, execute handshake timeout")).

Definition refused_ack_v5 (ack : ConnAckReason) : PacketV5.ConnectAck :=
  let d := connect_ack_default in
  mkConnectAck false match ack with AckV5 r => r | AckV3 _ => CAServerUnavailable end
    (ca_session_expiry_interval_secs d) (ca_receive_max d) (ca_max_qos d) (ca_max_packet_size d)
    (ca_assigned_client_id d) (ca_topic_alias_max d) (ca_retain_available d)
    (ca_wildcard_subscription_available d) (ca_subscription_identifiers_available d)
    (ca_shared_subscription_available d) (ca_server_keepalive_sec d) None None None None None [].
End Handshake.
