(* ===== verification/SessionFrame.v ===== *)
(** * What sessions leave alone

    Frames ([keeps]) of the operations of a connection: relations on the node
    that the shared state keeps, relations on the connection that its methods
    keep, and the two combined. *)

From stdpp Require Import base list numbers option gmap strings.
From Stdlib Require Import ZArith Lia.
From S2P Require Import Prelude Errors CodecTypes PacketV5 Topic Counter Hash BrokerTypes Queue Inflight.
From S2P Require Import RetainStore Router Acl Alias Hook Delayed SessionSubs ConnInfo Fitter Broker Session.
From S2P Require Import SessionLoop.

#[local] Open Scope Z_scope.

(** What every value that is returned satisfies. *)
Definition yields {S E A} (Q : A → Prop) (m : M S E A) : Prop := ∀ s a s', m s = (Ok a, s') → Q a.

Lemma yields_ret {S E A} (Q : A → Prop) a : Q a → yields Q (mret a : M S E A).
Proof. intros H s b s' [= <- <-]. done. Qed.
Lemma yields_bind {S E A C} (Q : C → Prop) (m : M S E A) (f : A → M S E C) :
  (∀ a, yields Q (f a)) → yields Q (m ≫= f).
Proof. intros H s b s' (a & s1 & _ & Hf)%bind_ok_inv. by eapply H. Qed.

Lemma keeps_bind_yields {S E A C} (R : relation S) `{!PreOrder R} (Q : A → Prop) (m : M S E A) (f : A → M S E C) :
  keeps R m → yields Q m → (∀ a, Q a → keeps R (f a)) → keeps R (m ≫= f).
Proof.
  intros Hm Hq Hf s. unfold mbind, M_bind. specialize (Hm s). specialize (Hq s).
  destruct (m s) as [[a|e|] s']; simpl in *; [|done..]. etrans; [exact Hm|]. apply Hf. by eapply Hq.
Qed.

Section Frame.
Context `{B : Backend} (scx : ServerContext).

(** A relation on both, with the other part fixed. *)
Definition node_rel (R : relation (Node * Conn)) (c : Conn) : relation Node := λ n n', R (n, c) (n', c).
Definition conn_rel (R : relation (Node * Conn)) (n : Node) : relation Conn := λ c c', R (n, c) (n, c').

#[global] Instance node_rel_preorder R c : PreOrder R → PreOrder (node_rel R c).
Proof. intros [Hr Ht]. split; [intros n; apply Hr|intros n1 n2 n3; apply Ht]. Qed.
#[global] Instance conn_rel_preorder R n : PreOrder R → PreOrder (conn_rel R n).
Proof. intros [Hr Ht]. split; [intros c; apply Hr|intros c1 c2 c3; apply Ht]. Qed.

Lemma keeps_on_node {E A} R (m : M Node E A) : (∀ c, keeps (node_rel R c) m) → keeps R (on_node m).
Proof.
  intros H [n c]. specialize (H c n). unfold on_node, zoom. simpl. by destruct (m n).
Qed.
Lemma keeps_on_conn {E A} R (m : M Conn E A) : (∀ n, keeps (conn_rel R n) m) → keeps R (on_conn m).
Proof.
  intros H [n c]. specialize (H n c). unfold on_conn, zoom. simpl. by destruct (m c).
Qed.

Context (R : relation (Node * Conn)) `{!PreOrder R}.

Lemma keeps_asks_node {E A} (f : Node → A) : keeps R (on_node (asks f) : M _ E _).
Proof. apply keeps_on_node. intros c. by apply keeps_asks, _. Qed.
Lemma keeps_asks_conn {E A} (f : Conn → A) : keeps R (on_conn (asks f) : M _ E _).
Proof. apply keeps_on_conn. intros n. by apply keeps_asks, _. Qed.
Lemma keeps_nmod {E} (f : Node → Node) : (∀ n c, R (n, c) (f n, c)) → keeps R (nmod f : M _ E _).
Proof. intros H. apply keeps_on_node. intros c. apply keeps_modify. intros n. apply H. Qed.
Lemma keeps_cmod {E} (f : Conn → Conn) : (∀ n c, R (n, c) (n, f c)) → keeps R (cmod f : M _ E _).
Proof. intros H. apply keeps_on_conn. intros n. apply keeps_modify. intros c. apply H. Qed.
Lemma keeps_self_ref {E} : keeps R (self_ref : M _ E _).
Proof. apply keeps_asks_conn. Qed.
Lemma keeps_now {E} : keeps R (now : M _ E _).
Proof. apply keeps_asks_node. Qed.
Lemma keeps_self {E} : keeps R (self : M _ E _).
Proof.
  apply keeps_bind; [done|apply keeps_self_ref|]. intros r. apply keeps_on_node. intros c.
  apply keeps_same; [apply _|]. intros n. unfold get_session. by destruct (session_at n r).
Qed.
Lemma keeps_on_self {E} (f : Session → Session) :
  (∀ n c r, R (n, c) (on_session_obj r f n, c)) → keeps R (on_self f : M _ E _).
Proof. intros H. apply keeps_bind; [done|apply keeps_self_ref|]. intros r. by apply keeps_nmod. Qed.
End Frame.

#[export] Hint Resolve keeps_asks_node keeps_asks_conn keeps_self_ref keeps_now keeps_self : keeps.
#[export] Hint Extern 2 (PreOrder _) => typeclasses eauto : keeps.

(** ** Hook calls of the shared state *)

(** The hook calls that were made meanwhile. *)
Definition calls `{B : Backend} (P : HookCall → Prop) : relation Node := λ n n',
  ∃ l, n_hooks n' = n_hooks n ++ l ∧ Forall P l.

Section Calls.
Context `{B : Backend} (scx : ServerContext) (P : HookCall → Prop).

#[global] Instance calls_preorder : PreOrder (calls P).
Proof.
  split.
  - intros n. exists []. by rewrite app_nil_r.
  - intros n1 n2 n3 (l1 & E1 & F1) (l2 & E2 & F2). exists (l1 ++ l2).
    rewrite E2, E1, app_assoc. split; [done|]. by apply Forall_app_2.
Qed.

Lemma calls_none n n' : n_hooks n' = n_hooks n → calls P n n'.
Proof. intros H. exists []. by rewrite app_nil_r. Qed.

Lemma calls_hook c n : P c → calls P n (hook c n).
Proof. intros H. exists [c]. split; [done|]. by constructor. Qed.

Lemma hooks_on_subs {A} r f (d : A) n : n_hooks (on_subs r f d n).2 = n_hooks n.
Proof. unfold on_subs. destruct (session_at n r); [|done]. by destruct (f _) as [a [sub st]]. Qed.

Lemma hooks_unbounded_send tx m n : n_hooks (unbounded_send tx m n).2 = n_hooks n.
Proof. unfold unbounded_send. by destruct (tx_is_closed n tx). Qed.

Lemma hooks_forward_one from p rel n : n_hooks (forward_one from p rel n).2 = n_hooks n.
Proof.
  destruct rel as [[[[tf cid] opts] ids] g]. unfold forward_one.
  destruct (shared_tx n cid) as [[tx to]|]; [|done].
  pose proof (hooks_unbounded_send tx (Forward from (for_subscriber p opts ids)) n) as H.
  by destruct (unbounded_send _ _ n) as [[] n'].
Qed.

Lemma hooks_forwards_to from p rels n : n_hooks (forwards_to from p rels n).2 = n_hooks n.
Proof.
  revert n. induction rels as [|rel rels IH]; intros n; [done|]. simpl.
  pose proof (hooks_forward_one from p rel n) as H. destruct (forward_one from p rel n) as [[ok errs] n1].
  specialize (IH n1). destruct (forwards_to from p rels n1) as [[oks errss] n2]. simpl in *. congruence.
Qed.

Lemma calls_on_subs {E A} r f (d : A) : keeps (calls P) (state (on_subs r f d) : M _ E _).
Proof. apply keeps_state. intros n. apply calls_none, hooks_on_subs. Qed.
Lemma calls_send {E} tx m : keeps (calls P) (state (unbounded_send tx m) : M _ E _).
Proof. apply keeps_state. intros n. apply calls_none, hooks_unbounded_send. Qed.
Lemma calls_get_session {E} r : keeps (calls P) (get_session r : M _ E _).
Proof. apply keeps_same; [apply _|]. intros n. unfold get_session. by destruct (session_at n r). Qed.
Lemma calls_router_add tf id opts : keeps (calls P) (node_router_add tf id opts).
Proof. intros n. apply calls_none. unfold node_router_add. by destruct (router_add _ _ _ _) as [[]]. Qed.
Lemma calls_router_remove tf id : keeps (calls P) (node_router_remove tf id).
Proof. intros n. apply calls_none. unfold node_router_remove. by destruct (router_remove _ _ _) as [[]]. Qed.
Lemma calls_forwards_to {E} from p rels : keeps (calls P) (state (forwards_to from p rels) : M _ E _).
Proof. apply keeps_state. intros n. apply calls_none, hooks_forwards_to. Qed.
Lemma calls_matches {E} id t : keeps (calls P) (node_matches id t : M _ E _).
Proof. intros n. apply calls_none. unfold node_matches. by destruct (_matches _ _ _ _ _) as [[]]. Qed.
Lemma calls_mark {E} mid rs : keeps (calls P) (modify (mark_forwarded mid rs) : M _ E _).
Proof. apply keeps_modify. intros n. apply calls_none. by destruct mid, rs. Qed.

#[local] Hint Resolve calls_on_subs calls_send calls_get_session calls_router_add calls_router_remove
  calls_forwards_to calls_matches calls_mark : keeps.

Lemma calls_entry_subscribe self sub : keeps (calls P) (entry_subscribe scx self sub).
Proof. unfold entry_subscribe, subscriptions_add. keeps. Qed.
Lemma calls_entry_unsubscribe self unsub : keeps (calls P) (entry_unsubscribe self unsub).
Proof. unfold entry_unsubscribe, subscriptions_remove. keeps. Qed.
Lemma calls_shared_forwards {E} mid from p : keeps (calls P) (shared_forwards scx mid from p : M _ E _).
Proof. unfold shared_forwards. keeps. Qed.

(** The only calls that publishing makes tell of messages that are dropped on
    the way, or that nobody subscribes to. *)
Definition drop_calls : Prop :=
  (∀ from, P (MessageNonsubscribed from)) ∧
  (∀ to from p r, (∀ x, r ≠ RPublishResult x) → P (MessageDropped to from p r)).

Lemma forward_errors from p rel n to f q r :
  (to, f, q, r) ∈ (forward_one from p rel n).1.2 → ∃ m, r = RError m.
Proof.
  destruct rel as [[[[tf cid] opts] ids] g]. unfold forward_one.
  destruct (shared_tx n cid) as [[tx to']|]; [destruct (unbounded_send _ _ n) as [[] n']|]; simpl;
    rewrite ?list_elem_of_singleton, ?elem_of_nil; naive_solver.
Qed.

Lemma forwards_errors from p rels n to f q r :
  (to, f, q, r) ∈ (forwards_to from p rels n).1.2 → ∃ m, r = RError m.
Proof.
  revert n. induction rels as [|rel rels IH]; intros n; simpl; [by rewrite elem_of_nil|].
  pose proof (forward_errors from p rel n to f q r) as H. destruct (forward_one from p rel n) as [[ok errs] n1].
  specialize (IH n1). destruct (forwards_to from p rels n1) as [[oks errss] n2]. simpl in *.
  rewrite elem_of_app. naive_solver.
Qed.

Definition failed_sends (r : Z * list (Id * From * BrokerTypes.Publish * Reason)) : Prop :=
  Forall (λ '(_, _, _, reason), ∃ m, reason = RError m) r.2.

Lemma failed_sends_intro k from p rels n : failed_sends (k, (forwards_to from p rels n).1.2).
Proof.
  apply Forall_forall. intros [[[to f] q] r] H. by eapply forwards_errors.
Qed.

Lemma yields_shared_forwards {E} mid from p : yields failed_sends (shared_forwards scx mid from p : M _ E _).
Proof.
  intros n [k errs] n'. unfold shared_forwards. destruct (target_clientid p) as [t|].
  - unfold state, mbind, M_bind.
    pose proof (failed_sends_intro 0 from p [target_relation p t] n) as H.
    destruct (forwards_to _ _ _ n) as [[rs es] n1]. simpl in *. destruct es as [|e es]; [|by intros [= <- <- <-]].
    destruct (_ =? _); intros [= <- <- <-]; constructor.
  - unfold mbind at 1, M_bind at 1. destruct (node_matches _ _ n) as [[m| |] n0]; [|done..].
    destruct (m !! sc_node_id scx) as [rels|]; [|intros [= <- <- <-]; constructor].
    unfold state, mbind, M_bind.
    pose proof (failed_sends_intro k from p rels n0) as H.
    destruct (forwards_to _ _ _ n0) as [[rs es] n1]. simpl in *. by intros [= <- <- <-].
Qed.

Lemma calls_drops (errs : list (Id * From * BrokerTypes.Publish * Reason)) n :
  drop_calls → failed_sends (0, errs) →
  calls P n (foldl (λ n '(to, from, p, reason), message_dropped (Some to) from p reason n) n errs).
Proof.
  intros [_ Hd]. unfold failed_sends. simpl. revert n.
  induction errs as [|[[[to f] q] r] errs IH]; intros n Hf; [done|]. simpl.
  apply Forall_cons in Hf as [[m ->] Hf]. etrans; [|by apply IH]. by apply calls_hook, Hd.
Qed.

Lemma calls_inner_forwards from p storage expiry :
  drop_calls → keeps (calls P) (inner_forwards scx from p storage expiry).
Proof.
  intros Hd. unfold inner_forwards.
  apply keeps_bind; [apply _| |intros mid].
  { destruct storage; [|keeps]. apply keeps_state. intros n. apply calls_none. by destruct (mm_next_msg_id _). }
  apply keeps_bind; [apply _| |intros _].
  { destruct (_ && _); [|keeps]. intros n. apply calls_none. by destruct (ram_set _ _ _ _ _ _) as [[]]. }
  apply keeps_bind; [apply _| |intros _].
  { destruct mid, expiry; keeps; apply keeps_modify; intros n; by apply calls_none. }
  apply (keeps_bind_yields _ failed_sends); [apply calls_shared_forwards|apply yields_shared_forwards|].
  intros [k errs] He. destruct errs as [|e errs].
  - destruct (k =? 0); keeps. apply keeps_modify. intros n. apply calls_hook, Hd.
  - apply keeps_modify. intros n. by apply calls_drops.
Qed.

Lemma calls_forwards from p storage expiry :
  drop_calls → keeps (calls P) (forwards scx from p storage expiry).
Proof.
  intros Hd. unfold forwards. destruct (BrokerTypes.delay_interval p); [|by apply calls_inner_forwards].
  apply keeps_bind; [apply _| |intros [[f q]|]].
  - apply keeps_state. intros n. apply calls_none. by destruct (delay_publish _ _ _ _ _ _ _).
  - destruct (sc_delayed_publish_immediate scx); [by apply calls_inner_forwards|].
    apply keeps_modify. intros n. apply calls_hook, Hd. done.
  - apply keeps_ret, _.
Qed.
End Calls.

(** Evaluates the plumbing of a computation on a given state. *)
Ltac mrun :=
  cbv beta iota zeta delta [mbind M_bind mret M_ret on_conn on_node zoom asks modify nmod cmod state attempt
    map_err question err panic flag self_ref now ok_or ensure lift get_state fst snd].
