(* ===== verification/Sample.v ===== *)
(** * A small node

    A backend that meets its laws, and a node with a few clients on it, at which
    the theorems about sessions are evaluated. *)

From stdpp Require Import base list numbers option gmap strings.
From Stdlib Require Import ZArith Lia.
From S2P Require Import Prelude Errors CodecTypes PacketV5 Topic Counter Hash BrokerTypes Queue Inflight.
From S2P Require Import RetainStore Router Routing Acl Alias Hook Delayed SessionSubs ConnInfo Fitter Broker.
From S2P Require Import Session SessionLoop.

#[local] Open Scope Z_scope.

#[export] Instance sample_backend : Backend := {|
  DQ := deque InflightMsg;
  HQ := list DelayedPublish;
  St := unit;
  Mm := unit;
  backend_deque := deque_ops _;
  backend_heap := list_heap;
  backend_choice := first_member;
  backend_msgs := default_message_manager;
  backend_order := map_order str;
  backend_levels := map_order Level;
|}.

#[export] Instance sample_backend_ok : BackendOk sample_backend.
Proof.
  split.
  - apply deque_ok.
  - apply list_heap_ok.
  - apply first_member_ok.
  - apply map_order_ok.
  - apply map_order_ok.
Qed.

(** Node 1: retained messages and shared subscriptions are on, no plugin is
    installed. *)
Definition sample_server : ServerContext :=
  mkServer 1 manager_new 0 100 true true (mkPluginConfig 0 0 None) true None (λ _, [])
    (λ _, []) (λ _, []) (λ _, []).

Definition sample_v3 (cid : ClientId) (clean : bool) (will : option MqttV3.LastWill) : ConnectInfo :=
  ConnV3 (mkId 1 0 None None cid None 0) (MqttV3.mkConnect (mkProtocol 4) clean 60 will cid None None None).

Definition empty_node : Node :=
  mkNode 1000 0 router_new () ∅ ∅ ∅ ∅ storage_new [] () stats_new counter_new counter_new ∅ [] [] 1.

(** A client that is connected: its session, its channel, its entry. *)
Definition connect (ci : ConnectInfo) (n : Node) : Z * Node :=
  let '(r, n) := session_new (ci_id ci) 4 listener_new None 16 0 ci false false true 0 ∅ None n in
  (r, entry_set (ci_id ci) r r (on_n_chans <[r := mkChan true []]> n)).

(** Clients c1, whose session outlives its connection, and c2. *)
Definition sample_node : Node :=
  (connect (sample_v3 (lit "c2") true None) (connect (sample_v3 (lit "c1") false None) empty_node).2).2.

(** The task of a connection, all of whose writes succeed. *)
Definition sample_conn (r : Z) (v5 : bool) : Conn :=
  mkConn r None None (in_new 0 16) 0 0 v5 (λ _, None) 0 false [].

Definition sample_publish (q : QoS) (pid : option Z) (t : TopicName) : CodecTypes.Publish :=
  CodecTypes.mkPublish false false q t pid [42] None.

(** A subscription and the message that it receives. *)
Example sample_session_works :
  let s := (sample_node, sample_conn 1 false) in
  let s := (process_mqtt_message sample_server (PktV3 (MqttV3.PSubscribe 7 [(lit "a/+", ExactlyOnce)])) s).2 in
  let s := (process_mqtt_message sample_server (PktV3 (MqttV3.PPublish (sample_publish AtLeastOnce (Some 5) (lit "a/b")))) s).2 in
  let s := (loop_turn sample_server true EvMessage s).2 in
  let s := (loop_turn sample_server true EvDeliver s).2 in
  c_sent s.2 =
    [PktV3 (MqttV3.PSubscribeAck 7 [MqttV3.Success ExactlyOnce]);
     PktV3 (MqttV3.PPublishAck 5);
     PktV3 (MqttV3.PPublish (sample_publish AtLeastOnce (Some 1) (lit "a/b")))].
Proof. vm_compute. reflexivity. Qed.
