(* ===== verification/SessionSink.v ===== *)
(** * What a connection is sent

    The packets that the task of a connection writes, over a whole run of its
    loop: they are of the protocol of the connection and of the kinds a server
    sends, and a message that has to be acknowledged carries an identifier. *)

From stdpp Require Import base list numbers option gmap strings.
From Stdlib Require Import ZArith Lia.
From S2P Require Import Prelude Errors CodecTypes PacketV5 Topic Counter Hash BrokerTypes Queue Inflight.
From S2P Require Import RetainStore Router Acl Alias Hook Delayed SessionSubs ConnInfo Fitter Broker Session.
From S2P Require Import SessionLoop SessionFrame Sample.

#[local] Open Scope Z_scope.

Definition has_id (p : CodecTypes.Publish) : Prop := qos p ≠ AtMostOnce → is_some (packet_id p) = true.

(** A packet that a server sends after CONNACK. *)
Definition server_packet (v5 : bool) (p : Packet) : Prop :=
  match p with
  | PktV3 p =>
      v5 = false ∧
      match p with
      | MqttV3.PPublish p => has_id p
      | MqttV3.PPublishAck _ | MqttV3.PPublishReceived _ | MqttV3.PPublishRelease _
      | MqttV3.PPublishComplete _ | MqttV3.PSubscribeAck _ _ | MqttV3.PUnsubscribeAck _
      | MqttV3.PPingResponse => True
      | _ => False
      end
  | PktV5 p =>
      v5 = true ∧
      match p with
      | V5Publish p => has_id p
      | V5PublishAck _ | V5PublishReceived _ | V5PublishRelease _ | V5PublishComplete _
      | V5SubscribeAck _ | V5UnsubscribeAck _ | V5PingResponse | V5Auth _ | V5Disconnect _ => True
      | _ => False
      end
  end.

Section Sink.
Context `{B : Backend} (scx : ServerContext).

(** The connection is the same, and what it was sent meanwhile is fit to send. *)
Definition speaks : relation (Node * Conn) := λ s s',
  c_v5 s'.2 = c_v5 s.2 ∧ ∃ l, c_sent s'.2 = c_sent s.2 ++ l ∧ Forall (server_packet (c_v5 s.2)) l.

#[global] Instance speaks_preorder : PreOrder speaks.
Proof.
  split.
  - intros s. split; [done|]. exists []. by rewrite app_nil_r.
  - intros s1 s2 s3 (H1 & l1 & E1 & F1) (H2 & l2 & E2 & F2). split; [congruence|].
    exists (l1 ++ l2). rewrite E2, E1, app_assoc. split; [done|]. apply Forall_app_2; congruence.
Qed.

Lemma speaks_same n n' c c' : c_v5 c' = c_v5 c → c_sent c' = c_sent c → speaks (n, c) (n', c').
Proof. intros H1 H2. split; [done|]. exists []. by rewrite app_nil_r. Qed.

Lemma speaks_node {E A} (m : M Node E A) : keeps speaks (on_node m).
Proof. apply keeps_on_node. intros c n. by apply speaks_same. Qed.
Lemma speaks_nmod {E} (f : Node → Node) : keeps speaks (nmod f : M _ E _).
Proof. apply speaks_node. Qed.
Lemma speaks_cmod {E} (f : Conn → Conn) :
  (∀ c, c_v5 (f c) = c_v5 c ∧ c_sent (f c) = c_sent c) → keeps speaks (cmod f : M _ E _).
Proof. intros H. apply keeps_cmod. intros n c. by apply speaks_same; apply H. Qed.
Lemma speaks_on_self {E} (f : Session → Session) : keeps speaks (on_self f : M _ E _).
Proof. apply keeps_on_self; [apply _|]. intros. by apply speaks_same. Qed.

Lemma speaks_send p n c : server_packet (c_v5 c) p → speaks (n, c) (sink_send p (n, c)).2.
Proof.
  intros H. unfold sink_send. simpl.
  destruct (c_closed c); [by apply speaks_same; [|simpl; rewrite app_nil_r]|].
  destruct (c_io c (c_writes c)); [by apply speaks_same; [|simpl; rewrite app_nil_r]|].
  split; [done|]. exists [p]. split; [done|]. by constructor.
Qed.

(** A packet is chosen for the protocol of the sink. *)
Lemma speaks_choose {A} (p : bool → M (Node * Conn) Error A) :
  (∀ n c, speaks (n, c) (p (c_v5 c) (n, c)).2) → keeps speaks (v5 ← on_conn (asks c_v5); p v5).
Proof. intros H [n c]. apply H. Qed.
Lemma speaks_choose_packet (p : bool → Packet) :
  (∀ v5, server_packet v5 (p v5)) → keeps speaks (v5 ← on_conn (asks c_v5); sink_send (p v5)).
Proof. intros H. apply speaks_choose. intros n c. by apply speaks_send. Qed.
Lemma speaks_v3 p : server_packet false (PktV3 p) → keeps speaks (v3_send p).
Proof.
  intros H. apply speaks_choose. intros n c. destruct (c_v5 c) eqn:E; [done|].
  apply speaks_send. by rewrite E.
Qed.
Lemma speaks_v5 p : server_packet true (PktV5 p) → keeps speaks (v5_send p).
Proof.
  intros H. apply speaks_choose. intros n c. destruct (c_v5 c) eqn:E; [|done].
  apply speaks_send. by rewrite E.
Qed.

Lemma speaks_publish_msg p expiry : has_id (inner p) → keeps speaks (sink_publish_msg p expiry).
Proof.
  intros H. apply speaks_choose. intros n c. destruct (c_v5 c) eqn:E.
  - mrun. destruct (sink_publish (inner p) expiry (c_server_aliases c)) as [r sa] eqn:Ep.
    destruct r as [q| |]; cbn; try by apply speaks_same.
    etrans; [|apply speaks_send; split; [exact E|]]; [by apply speaks_same|]. unfold has_id in *.
    unfold sink_publish in Ep. destruct (match c_server_aliases c with Some _ => _ | None => _ end) as [ta sa0].
    destruct ta as [[t a]| |]; by simplify_eq.
  - apply speaks_send. by rewrite E.
Qed.

#[local] Hint Resolve speaks_nmod speaks_node speaks_on_self : keeps.
#[local] Hint Extern 1 (keeps speaks (cmod _)) => apply speaks_cmod; done : keeps.
#[local] Hint Extern 1 (keeps speaks (flag _)) => apply speaks_cmod; done : keeps.
#[local] Hint Extern 1 (keeps speaks (v3_send _)) => apply speaks_v3; done : keeps.
#[local] Hint Extern 1 (keeps speaks (v5_send _)) => apply speaks_v5; done : keeps.
#[local] Hint Extern 1 (keeps speaks (send_publish_ack _ _)) =>
  apply speaks_choose_packet; by intros [] : keeps.
#[local] Hint Extern 1 (keeps speaks (send_publish_received _ _)) =>
  apply speaks_choose_packet; by intros [] : keeps.
#[local] Hint Extern 1 (keeps speaks (send_publish_release _)) =>
  apply speaks_choose_packet; by intros [] : keeps.
#[local] Hint Extern 1 (keeps speaks (inflight_remove _)) => apply speaks_cmod; done : keeps.
#[local] Hint Extern 1 (keeps speaks (question _)) => apply keeps_map_err : keeps.

Lemma speaks_publish p : keeps speaks (publish_packet scx p).
Proof. unfold publish_packet, _publish, hook_message_publish, hook_publish_acl. keeps. Qed.
#[local] Hint Resolve speaks_publish : keeps.

Lemma speaks_inflight_add pid q : keeps speaks (inflight_add pid q).
Proof.
  apply keeps_on_conn. intros n c. simpl. destruct (in_add _ _ _). by apply speaks_same.
Qed.
#[local] Hint Resolve speaks_inflight_add : keeps.

Lemma speaks_process_publish p : keeps speaks (process_publish scx p).
Proof. unfold process_publish, need_packet_id, question. keeps. Qed.

Lemma speaks_subscribe sub : keeps speaks (_subscribe scx sub).
Proof. unfold _subscribe, subscribe_admitted, check_limits. keeps. Qed.
Lemma speaks_unsubscribe unsub : keeps speaks (unsubscribe scx unsub).
Proof. unfold unsubscribe. keeps. Qed.
#[local] Hint Resolve speaks_process_publish speaks_subscribe speaks_unsubscribe : keeps.

Lemma speaks_subscribes_v3 limit tfs : keeps speaks (subscribes_v3 scx limit tfs).
Proof. induction tfs as [|[tf q] tfs IH]; simpl; keeps. Qed.
Lemma speaks_subscribes_v5 limit sub_id tfs : keeps speaks (subscribes_v5 scx limit sub_id tfs).
Proof. induction tfs as [|[tf q] tfs IH]; simpl; keeps. Qed.
Lemma speaks_unsubscribes limit tfs : keeps speaks (unsubscribes scx limit tfs).
Proof. induction tfs as [|tf tfs IH]; simpl; keeps. Qed.
#[local] Hint Resolve speaks_subscribes_v3 speaks_subscribes_v5 speaks_unsubscribes : keeps.

Lemma speaks_handle_packet pkt : keeps speaks (handle_packet scx pkt).
Proof.
  unfold handle_packet, acknowledged, released, subscribe_failed, unsubscribe_failed, limit_subscription, question.
  keeps.
Qed.
#[local] Hint Resolve speaks_handle_packet : keeps.

(** Plugins may replace a message before it is written. *)
Definition delivers_ids : Prop := ∀ s f p p',
  message_delivered (sc_hooks scx) s f p = Some p' → has_id (inner p) → has_id (inner p').

Definition with_id (p : BrokerTypes.Publish) : Prop := has_id (inner p).

Lemma yields_delivered {E} from p : delivers_ids → with_id p →
  yields with_id (hook_delivered scx from p : M _ E _).
Proof.
  intros Hd Hp. apply yields_bind. intros s. apply yields_bind. intros _. apply yields_ret.
  destruct (message_delivered _ _ _ _) as [p'|] eqn:E'; [by eapply Hd|done].
Qed.

Lemma speaks_deliver from p : delivers_ids → keeps speaks (deliver scx from p).
Proof.
  intros Hd. unfold deliver, with_packet_id, hook_expiry_check.
  do 2 (keeps_step; [keeps|cbv beta]). destruct (_ : MessageExpiryCheckResult) as [|i]; [keeps|].
  apply (keeps_bind_yields _ with_id); [keeps..| |].
  - destruct (_ && _) eqn:E.
    + apply yields_bind; intros ?. destruct (next_id _). do 2 (apply yields_bind; intros ?).
      by apply yields_ret.
    + apply yields_ret. intros Hq. destruct (qos (inner p)), (dup (inner p)), (packet_id (inner p)); done.
  - intros p1 H1. apply (keeps_bind_yields _ with_id); [unfold hook_delivered; keeps|by apply yields_delivered|].
    intros p2 H2. apply keeps_bind; [apply _|by apply speaks_publish_msg|]. intros _. keeps.
Qed.

Lemma speaks_forward {E} from p : keeps speaks (forward from p : M _ E _).
Proof. unfold forward. keeps. Qed.
#[local] Hint Resolve speaks_forward : keeps.
Lemma speaks_reforward {E} m : keeps speaks (reforward scx m : M _ E _).
Proof. unfold reforward, hook_expiry_check. keeps. Qed.
#[local] Hint Resolve speaks_reforward : keeps.
Lemma speaks_retransmit {E} fuel : keeps speaks (retransmit scx fuel : M _ E _).
Proof. induction fuel as [|fuel IH]; simpl; keeps. Qed.
#[local] Hint Resolve speaks_retransmit : keeps.

Lemma speaks_transfer clear o : keeps speaks (transfer_session_state scx clear o).
Proof.
  unfold transfer_session_state. keeps; (apply keeps_for_each; [apply _|]; intros x _; try destruct x); keeps.
Qed.
#[local] Hint Resolve speaks_transfer : keeps.

Lemma speaks_process_message m : keeps speaks (process_message scx m).
Proof.
  unfold process_message, queue_send, drop_queue_full, send_rerelease, kicked, need_packet_id, question.
  keeps. induction subs as [|sub subs IH]; keeps.
Qed.
#[local] Hint Resolve speaks_process_message : keeps.

Lemma speaks_loop_turn checks ev : delivers_ids → keeps speaks (loop_turn scx checks ev).
Proof.
  intros Hd. pose proof (λ f p, speaks_deliver f p Hd) as Hdel.
  unfold loop_turn, process_mqtt_message, recv, question. keeps.
Qed.

Lemma speaks_run_loop checks evs : delivers_ids → keeps speaks (run_loop scx checks evs).
Proof.
  intros Hd. induction evs as [|ev evs IH]; simpl; keeps. by apply speaks_loop_turn.
Qed.

Lemma speaks_choose_then {E A C} (p : bool → M (Node * Conn) E A) (h : A → M (Node * Conn) E C) :
  (∀ n c, speaks (n, c) (p (c_v5 c) (n, c)).2) → (∀ a, keeps speaks (h a)) →
  keeps speaks (v5 ← on_conn (asks c_v5); a ← p v5; h a).
Proof.
  intros Hp Hh [n c]. specialize (Hp n c). mrun. destruct (p (c_v5 c) (n, c)) as [[a|e|] s]; [|done..].
  etrans; [exact Hp|apply Hh].
Qed.

Lemma speaks_last_will : keeps speaks (process_last_will scx).
Proof. unfold process_last_will, hook_message_publish. keeps. Qed.
#[local] Hint Resolve speaks_last_will : keeps.

Lemma speaks_drop_queue {E} fuel r : keeps speaks (drop_queue fuel r : M _ E _).
Proof. induction fuel as [|fuel IH]; simpl; keeps. Qed.
Lemma speaks_drop_inflight {E} fuel r : keeps speaks (drop_inflight fuel r : M _ E _).
Proof. induction fuel as [|fuel IH]; simpl; keeps. Qed.
#[local] Hint Resolve speaks_drop_queue speaks_drop_inflight : keeps.

Lemma speaks_run_end {E} r : keeps speaks (run_end scx r : M _ E _).
Proof.
  unfold run_end, farewell, settle_will, clean.
  do 9 (keeps_step; [keeps|cbv beta]). apply speaks_choose_then; [|intros _; keeps].
  intros n c. destruct (c_v5 c) eqn:E'; [|by apply speaks_same].
  match goal with |- context [attempt (sink_send ?p)] => set (pkt := p) end.
  pose proof (speaks_send pkt n c) as H. rewrite E' in H. mrun.
  destruct (sink_send pkt (n, c)) as [[u|e|] s]; by apply H.
Qed.

(** C7: whatever the client and the other tasks send, in any order and with writes
    failing in any way, a connection is only sent packets of its own protocol and
    of the kinds a server sends, and every message above QoS 0 carries a packet
    identifier; this includes what is sent when the loop has ended. *)
Theorem connection_well_typed checks evs n c :
  delivers_ids →
  let '(r, s) := run_loop scx checks evs (n, c) in
  let '(_, s') := run_end (E := Reason) scx r s in
  ∃ l l', c_sent s.2 = c_sent c ++ l ∧ c_sent s'.2 = c_sent c ++ l ++ l' ∧
          Forall (server_packet (c_v5 c)) (l ++ l').
Proof.
  intros Hd. pose proof (speaks_run_loop checks evs Hd (n, c)) as (Hv & l & Hl & Fl).
  destruct (run_loop scx checks evs (n, c)) as [r s].
  pose proof (speaks_run_end (E := Reason) r s) as (_ & l' & Hl' & Fl').
  destruct (run_end scx r s) as [ph s']. simpl in *. exists l, l'.
  rewrite Hl', Hl, app_assoc. split; [done|]. split; [done|].
  apply Forall_app. rewrite <-Hv at 2. done.
Qed.
End Sink.

Lemma sample_delivers_ids : delivers_ids sample_server.
Proof. intros s f p p'. done. Qed.

Lemma connection_well_typed_witness :
  let evs := [EvPacket (Ok (Some (PktV3 MqttV3.PPingRequest)))] in
  let s := (run_loop sample_server true evs (sample_node, sample_conn 1 false)).2 in
  c_sent s.2 = [PktV3 MqttV3.PPingResponse] ∧ Forall (server_packet false) (c_sent s.2).
Proof.
  cbv zeta. split; [vm_compute; reflexivity|].
  pose proof (connection_well_typed sample_server true [EvPacket (Ok (Some (PktV3 MqttV3.PPingRequest)))]
    sample_node (sample_conn 1 false) sample_delivers_ids) as H.
  destruct (run_loop _ _ _ _) as [r s]. destruct (run_end _ _ _) as [ph s'].
  destruct H as (l & l' & Hl & _ & Hf). simpl in *. rewrite Hl. by apply Forall_app in Hf as [? _].
Defined.
