(* ===== verification/SessionQos.v ===== *)
(** * QoS 2 from the client

    The packets of a client, seen as a receiver of QoS 2 messages: a set of
    identifiers whose messages were accepted and not yet released.  An accepted
    message is published once, however often the client sends it. *)

From stdpp Require Import base list numbers option gmap strings.
From Stdlib Require Import ZArith Lia.
From S2P Require Import Prelude Errors CodecTypes PacketV5 Topic Counter Hash BrokerTypes Queue Inflight.
From S2P Require Import RetainStore Router Acl Alias Hook Delayed SessionSubs ConnInfo Fitter Broker Session.
From S2P Require Import SessionLoop SessionFrame Sample.

#[local] Open Scope Z_scope.

(** ** The receiver *)

(** What the client sends, as far as the receiver is concerned. *)
Inductive Rx : Type := RxPublish (pid : Z) | RxRelease (pid : Z) | RxOther.

(** A message of QoS 2 is offered to the broker; a message is refused by the
    access control. *)
Inductive RxCall : Type := Offered (pid : Z) | Denied.

#[export] Instance rx_call_eq_dec : EqDecision RxCall.
Proof. solve_decision. Defined.

(** PUBREC and PUBCOMP. *)
Inductive Answer : Type := AReceived (pid : Z) | AComplete (pid : Z).

Inductive receives : gset Z → Rx → list RxCall → list Answer → gset Z → Prop :=
| rx_accepted P pid : pid ∉ P → receives P (RxPublish pid) [Offered pid] [AReceived pid] ({[pid]} ∪ P)
| rx_denied P pid : pid ∉ P → receives P (RxPublish pid) [Offered pid; Denied] [AReceived pid] P
| rx_again P pid : pid ∈ P → receives P (RxPublish pid) [] [AReceived pid] P
| rx_release P pid : receives P (RxRelease pid) [] [AComplete pid] (P ∖ {[pid]})
| rx_other P es : Forall (eq Denied) es → receives P RxOther es [] P.

Inductive receives_all : gset Z → list Rx → list RxCall → list Answer → gset Z → Prop :=
| rx_nil P : receives_all P [] [] [] P
| rx_cons P1 P2 P3 x xs es es' as_ as' :
    receives P1 x es as_ P2 → receives_all P2 xs es' as' P3 →
    receives_all P1 (x :: xs) (es ++ es') (as_ ++ as') P3.

(** ** What is seen of a session *)

Definition rx_publish (p : CodecTypes.Publish) : Rx :=
  match qos p, packet_id p with ExactlyOnce, Some pid => RxPublish pid | _, _ => RxOther end.

Definition rx_of (pkt : Packet) : Rx :=
  match pkt with
  | PktV3 (MqttV3.PPublish p) | PktV5 (V5Publish p) => rx_publish p
  | PktV3 (MqttV3.PPublishRelease pid) => RxRelease pid
  | PktV5 (V5PublishRelease ack2) => RxRelease (pa_packet_id ack2)
  | _ => RxOther
  end.

Definition answer_of (pkt : Packet) : option Answer :=
  match pkt with
  | PktV3 (MqttV3.PPublishReceived pid) => Some (AReceived pid)
  | PktV5 (V5PublishReceived ack) => Some (AReceived (pa_packet_id ack))
  | PktV3 (MqttV3.PPublishComplete pid) => Some (AComplete pid)
  | PktV5 (V5PublishComplete ack2) => Some (AComplete (pa_packet_id ack2))
  | _ => None
  end.

Definition offer_of (p : CodecTypes.Publish) : option RxCall :=
  match qos p with ExactlyOnce => Offered <$> packet_id p | _ => None end.

Section Qos.
Context `{B : Backend} (scx : ServerContext).

Definition call_of (c : HookCall) : option RxCall :=
  match c with
  | MessagePublish _ _ p => offer_of (inner p)
  | MessageDropped None _ _ (RPublishResult _) => Some Denied
  | _ => None
  end.

Definition rx_calls (n : Node) : list RxCall := omap call_of (n_hooks n).
Definition answers (c : Conn) : list Answer := omap answer_of (c_sent c).

(** The receiver is left alone, and these calls are made. *)
Definition reports (Q : RxCall → Prop) : relation (Node * Conn) := λ s s',
  cached (c_in s'.2) = cached (c_in s.2) ∧ answers s'.2 = answers s.2 ∧
  ∃ l, rx_calls s'.1 = rx_calls s.1 ++ l ∧ Forall Q l.

Section Reports.
Context (Q : RxCall → Prop).

#[global] Instance reports_preorder : PreOrder (reports Q).
Proof.
  split.
  - intros s. split_and!; [done..|]. exists []. by rewrite app_nil_r.
  - intros s1 s2 s3 (A1 & B1 & l1 & E1 & F1) (A2 & B2 & l2 & E2 & F2).
    split_and!; [congruence..|]. exists (l1 ++ l2). rewrite E2, E1, app_assoc. split; [done|]. by apply Forall_app_2.
Qed.

Definition may_call (c : HookCall) : Prop := ∀ e, call_of c = Some e → Q e.

Lemma reports_calls n n' c : calls may_call n n' → reports Q (n, c) (n', c).
Proof.
  intros (l & Hl & Hf). split_and!; [done..|]. exists (omap call_of l). unfold rx_calls. simpl. rewrite Hl, omap_app.
  split; [done|]. apply Forall_forall. intros e (x & Hx & He)%list_elem_of_omap.
  rewrite Forall_forall in Hf. by eapply Hf.
Qed.

Lemma reports_same n n' c c' :
  n_hooks n' = n_hooks n → c_in c' = c_in c → answers c' = answers c → reports Q (n, c) (n', c').
Proof.
  intros H1 H2 H3. split_and!; [by simpl; rewrite H2|done|]. exists []. unfold rx_calls. simpl. by rewrite H1, app_nil_r.
Qed.

Lemma reports_node {E A} (m : M Node E A) : keeps (calls may_call) m → keeps (reports Q) (on_node m).
Proof. intros H. apply keeps_on_node. intros c n. apply reports_calls, H. Qed.
Lemma reports_nmod {E} (f : Node → Node) : (∀ n, calls may_call n (f n)) → keeps (reports Q) (nmod f : M _ E _).
Proof. intros H. apply keeps_nmod. intros n c. by apply reports_calls. Qed.
Lemma reports_hook {E} c : may_call c → keeps (reports Q) (nmod (hook c) : M _ E _).
Proof. intros H. apply reports_nmod. intros n. by apply calls_hook. Qed.
Lemma reports_tasks {E} f : keeps (reports Q) (nmod (on_n_tasks f) : M _ E _).
Proof. apply reports_nmod. intros n. by apply calls_none. Qed.
Lemma reports_cmod {E} (f : Conn → Conn) :
  (∀ c, c_in (f c) = c_in c ∧ c_sent (f c) = c_sent c) → keeps (reports Q) (cmod f : M _ E _).
Proof.
  intros H. apply keeps_cmod. intros n c. destruct (H c) as [H1 H2].
  apply reports_same; [done..|]. unfold answers. by rewrite H2.
Qed.
Lemma reports_on_self {E} (f : Session → Session) : keeps (reports Q) (on_self f : M _ E _).
Proof. apply keeps_on_self; [apply _|]. intros. by apply reports_same. Qed.

Lemma answers_wrote p c : answers (wrote p c) = answers c ++ option_list (p ≫= answer_of).
Proof. unfold answers. simpl. rewrite omap_app. by destruct p as [p|]; simpl; [destruct (answer_of p)|]. Qed.

Lemma reports_send p : answer_of p = None → keeps (reports Q) (sink_send p).
Proof.
  intros H [n c]. unfold sink_send. simpl.
  destruct (c_closed c); [|destruct (c_io c (c_writes c))]; (apply reports_same; [done..|]);
    rewrite answers_wrote; simpl; by rewrite ?H, app_nil_r.
Qed.

Lemma drop_calls_may : drop_calls may_call.
Proof.
  split; [done|]. intros [to|] from p r Hr e; [done|]. destruct r; simpl; try done.
  intros _. by destruct (Hr r).
Qed.

Lemma reports_drop {E} to from p r : (∀ x, r ≠ RPublishResult x) →
  keeps (reports Q) (nmod (message_dropped to from p r) : M _ E _).
Proof. intros H. apply reports_hook. by apply drop_calls_may. Qed.

#[local] Hint Resolve reports_tasks reports_on_self : keeps.
#[local] Hint Extern 1 (keeps (reports _) (cmod _)) => apply reports_cmod; done : keeps.
#[local] Hint Extern 1 (keeps (reports _) (flag _)) => apply reports_cmod; done : keeps.
#[local] Hint Extern 1 (keeps (reports _) (nmod (hook _))) => apply reports_hook; done : keeps.
#[local] Hint Extern 1 (keeps (reports _) (nmod (message_dropped _ _ _ _))) => apply reports_drop; done : keeps.
#[local] Hint Extern 1 (keeps (reports _) (sink_send _)) => apply reports_send; done : keeps.
#[local] Hint Extern 1 (keeps (reports _) (question _)) => apply keeps_map_err : keeps.
#[local] Hint Extern 1 (keeps (reports _) (on_node _)) => apply reports_node : keeps.
#[local] Hint Resolve calls_entry_subscribe calls_entry_unsubscribe : keeps.

(** *** Publishing *)

Definition same_offer (p q : BrokerTypes.Publish) : Prop := offer_of (inner q) = offer_of (inner p).

Definition resolve_alias (publish : BrokerTypes.Publish) : M (Node * Conn) Error BrokerTypes.Publish :=
  ca ← on_conn (asks c_client_aliases);
  match ca with
  | Some ca =>
      let '(r, ca) := set_and_get (properties (inner publish) ≫= topic_alias) (topic (inner publish)) ca in
      cmod (on_client_aliases (λ _, Some ca));;
      match r with
      | Ok t => mret (on_inner (set_topic t) publish)
      | Err e => err (alias_error e)
      | Panic => panic
      end
  | None => mret publish
  end.

Lemma resolve_alias_keeps p : keeps (reports Q) (resolve_alias p) ∧ yields (same_offer p) (resolve_alias p).
Proof.
  unfold resolve_alias. split; [keeps|]. apply yields_bind. intros [ca|]; [|by apply yields_ret].
  destruct (set_and_get _ _ _) as [r ca']. apply yields_bind. intros _.
  destruct r as [t|e|]; [by apply yields_ret|intros ???; done..].
Qed.

Definition resolve_delay (s : Session) (publish : BrokerTypes.Publish) : M (Node * Conn) Error BrokerTypes.Publish :=
  if lc_delayed_publish (s_listen_cfg s) then
    match delayed_parse publish with
    | Ok p => mret p
    | Err _ => err (EOther (lit "the delay time of $delayed must be an integer"))
    | Panic => panic
    end
  else mret publish.

Lemma delayed_parse_offer p q : delayed_parse p = Ok q → same_offer p q.
Proof. unfold delayed_parse. intros. by repeat (case_match; simplify_eq). Qed.

Lemma resolve_delay_keeps s p : keeps (reports Q) (resolve_delay s p) ∧ yields (same_offer p) (resolve_delay s p).
Proof.
  unfold resolve_delay. split; [keeps|]. destruct (lc_delayed_publish _); [|by apply yields_ret].
  destruct (delayed_parse p) as [q|e|] eqn:Hq; [|intros ???; done..].
  apply yields_ret. by apply delayed_parse_offer.
Qed.

(** The rest of [_publish], after the message was offered. *)
Definition after_offer (from : From) (s : Session) (publish : BrokerTypes.Publish) (acl_result : PublishResult)
    : M (Node * Conn) Error PublishResult :=
  if negb (is_allow acl_result) then
    nmod (message_dropped None from publish (RPublishResult acl_result));;
    if pr_disconnect acl_result
    then err (EMqtt (MEPublishAckReason (pr_reason_code acl_result) (default [] (pr_reason_string acl_result))))
    else mret acl_result
  else
    storage ← on_node (asks (λ n, mm_enable (n_msgs n)));
    on_node (forwards scx from publish storage (kept_for scx s storage publish));;
    mret acl_allow.

Lemma publish_stages p n c :
  _publish scx p (n, c) =
  (p ← resolve_alias p; s ← self; p ← resolve_delay s p;
   let from := from_custom (s_id s) in
   p ← hook_message_publish scx from p; acl_result ← hook_publish_acl scx p; after_offer from s p acl_result) (n, c).
Proof. reflexivity. Qed.

Lemma reports_publish_acl {E} p : keeps (reports Q) (hook_publish_acl scx p : M _ E _).
Proof. unfold hook_publish_acl. keeps. Qed.

Lemma reports_forwards from p storage expiry : keeps (reports Q) (on_node (forwards scx from p storage expiry)).
Proof. apply reports_node, calls_forwards, drop_calls_may. Qed.
End Reports.

#[local] Hint Resolve reports_publish_acl reports_forwards : keeps.
#[local] Hint Extern 1 (keeps (reports _) (cmod _)) => apply reports_cmod; done : keeps.
#[local] Hint Extern 1 (keeps (reports _) (flag _)) => apply reports_cmod; done : keeps.
#[local] Hint Extern 1 (keeps (reports _) (nmod (hook _))) => apply reports_hook; done : keeps.
#[local] Hint Extern 1 (keeps (reports _) (nmod (message_dropped _ _ _ _))) => apply reports_drop; done : keeps.
#[local] Hint Extern 1 (keeps (reports _) (sink_send _)) => apply reports_send; done : keeps.
#[local] Hint Extern 1 (keeps (reports _) (question _)) => apply keeps_map_err : keeps.
#[local] Hint Extern 1 (keeps (reports _) (on_node _)) => apply reports_node : keeps.
#[local] Hint Resolve reports_tasks reports_on_self calls_entry_subscribe calls_entry_unsubscribe : keeps.

(** Nothing is reported. *)
Abbreviation hush := (reports (λ _, False)).

Lemma hush_eq s s' : hush s s' →
  cached (c_in s'.2) = cached (c_in s.2) ∧ answers s'.2 = answers s.2 ∧ rx_calls s'.1 = rx_calls s.1.
Proof.
  intros (H1 & H2 & l & H3 & Hf). split_and!; [done..|]. rewrite H3.
  destruct l as [|x l]; [by rewrite app_nil_r|]. by inversion Hf.
Qed.

Lemma rx_calls_hook c n : rx_calls (hook c n) = rx_calls n ++ option_list (call_of c).
Proof. unfold rx_calls, hook. simpl. rewrite omap_app. simpl. by destruct (call_of c). Qed.

(** What a publication reports, whatever it returns. *)
Lemma reports_publish p :
  keeps (reports (λ e, offer_of (inner p) = Some e ∨ e = Denied)) (_publish scx p).
Proof.
  intros [n c]. rewrite publish_stages. revert n c.
  match goal with |- ∀ n c, ?R (n, c) (?m (n, c)).2 => enough (H : keeps R m) by (intros n c; apply H) end.
  pose proof (resolve_alias_keeps (λ e, offer_of (inner p) = Some e ∨ e = Denied) p) as [Ha Hay].
  apply (keeps_bind_yields _ _ _ _ Ha Hay). intros p1 H1.
  apply keeps_bind; [apply _|keeps|]. intros s.
  pose proof (resolve_delay_keeps (λ e, offer_of (inner p) = Some e ∨ e = Denied) s p1) as [Hd Hdy].
  apply (keeps_bind_yields _ _ _ _ Hd Hdy). intros p2 H2. cbv zeta.
  apply keeps_bind; [apply _| |intros p3].
  - unfold hook_message_publish. keeps. apply reports_hook. intros e He. left. simpl in He.
    unfold same_offer in *. congruence.
  - apply keeps_bind; [apply _|keeps|]. intros r. unfold after_offer.
    destruct (negb (is_allow r)); keeps; apply reports_hook; intros e [= <-]; by right.
Qed.

(** What it reports when it succeeds. *)
Lemma publish_ok p s r s' : _publish scx p s = (Ok r, s') →
  cached (c_in s'.2) = cached (c_in s.2) ∧ answers s'.2 = answers s.2 ∧
  rx_calls s'.1 = rx_calls s.1 ++ option_list (offer_of (inner p)) ++ (if is_allow r then [] else [Denied]).
Proof.
  destruct s as [n c]. rewrite publish_stages. intros (p1 & s1 & H1 & H)%bind_ok_inv.
  pose proof (proj1 (resolve_alias_keeps (λ _, False) p) (n, c)) as K1.
  apply (proj2 (resolve_alias_keeps (λ _, False) p)) in H1 as P1. rewrite H1 in K1.
  apply bind_ok_inv in H as (s0 & s2 & H2 & H).
  pose proof (keeps_self (E := Error) hush s1) as K2. rewrite H2 in K2.
  apply bind_ok_inv in H as (p2 & s3 & H3 & H).
  pose proof (proj1 (resolve_delay_keeps (λ _, False) s0 p1) s2) as K3.
  apply (proj2 (resolve_delay_keeps (λ _, False) s0 p1)) in H3 as P2. rewrite H3 in K3.
  assert (K : hush (n, c) s3) by (etrans; [exact K1|etrans; [exact K2|exact K3]]).
  cbv zeta in H. apply bind_ok_inv in H as (p3 & s4 & H4 & H).
  unfold hook_message_publish in H4. apply bind_ok_inv in H4 as (s5 & s6 & H5 & H4).
  pose proof (keeps_self (E := Error) hush s3) as K5. rewrite H5 in K5.
  assert (E4 : s4 = (hook (MessagePublish (Some (s_id s5)) (from_custom (s_id s0)) p2) s6.1, s6.2)).
  { destruct s6. by injection H4. }
  apply bind_ok_inv in H as (acl & s7 & H7 & H).
  pose proof (reports_publish_acl (E := Error) (λ _, False) p3 s4) as K7. rewrite H7 in K7.
  assert (K6 : hush (n, c) s6) by (etrans; [exact K|exact K5]).
  apply hush_eq in K6 as (A1 & A2 & A3), K7 as (B1 & B2 & B3). simpl in *.
  assert (Hs : rx_calls s4.1 = rx_calls n ++ option_list (offer_of (inner p))).
  { rewrite E4. cbn [fst]. rewrite rx_calls_hook, A3. cbn [call_of].
    f_equal. unfold same_offer in *. by rewrite P2, P1. }
  assert (Hc : s4.2 = s6.2) by by rewrite E4.
  unfold after_offer in H. destruct (is_allow acl) eqn:Ha; cbn [negb] in H.
  - apply bind_ok_inv in H as (storage & s8 & H8 & H).
    pose proof (keeps_asks_node (E := Error) hush (λ n, mm_enable (n_msgs n)) s7) as K8. rewrite H8 in K8.
    apply bind_ok_inv in H as ([] & s9 & H9 & H).
    pose proof (reports_forwards (λ _, False) (from_custom (s_id s0)) p3 storage
      (kept_for scx s0 storage p3) s8) as K9. rewrite H9 in K9.
    injection H as <- <-. assert (K' : hush s7 s9) by (etrans; [exact K8|exact K9]).
    apply hush_eq in K' as (C1 & C2 & C3). simpl.
    rewrite C1, B1, C2, B2, C3, B3, Hs, Hc, A1, A2. by rewrite app_nil_r.
  - destruct s7 as [n7 c7]. destruct (pr_disconnect acl); [done|]. injection H as <- <-.
    rewrite Ha. cbn [fst snd] in *. split_and!; [congruence..|].
    unfold message_dropped. rewrite rx_calls_hook, B3, Hs. simpl. by rewrite <-app_assoc.
Qed.

Lemma publish_packet_ok p s r s' : publish_packet scx p s = (Ok r, s') → _publish scx p s = (Ok r, s').
Proof.
  intros (r1 & s1 & H & Hr)%bind_ok_inv. destruct (is_allow r1), (pr_disconnect r1); try done; by injection Hr as <- <-.
Qed.

Lemma reports_publish_packet p :
  keeps (reports (λ e, offer_of (inner p) = Some e ∨ e = Denied)) (publish_packet scx p).
Proof. unfold publish_packet. apply keeps_bind; [apply _|apply reports_publish|]. intros r. keeps. Qed.

Lemma sink_send_ok p s u s' : sink_send p s = (Ok u, s') → s' = (s.1, wrote (Some p) s.2).
Proof. unfold sink_send. repeat case_match; naive_solver. Qed.

Lemma send_received_ok pid r s u s' : send_publish_received pid r s = (Ok u, s') →
  s'.1 = s.1 ∧ c_in s'.2 = c_in s.2 ∧ answers s'.2 = answers s.2 ++ [AReceived pid].
Proof.
  destruct s as [n c]. intros H. apply sink_send_ok in H as ->. simpl. rewrite answers_wrote.
  by destruct (c_v5 c).
Qed.

Lemma hush_send_ack pid r : keeps hush (send_publish_ack pid r).
Proof. intros [n c]. apply (reports_send (λ _, False)). cbn. by destruct (c_v5 c). Qed.

(** *** The inbound window *)

Lemma inflight_add_ok pid q s b s' : inflight_add pid q s = (Ok b, s') →
  s'.1 = s.1 ∧ answers s'.2 = answers s.2 ∧
  if b then ((pid ∉ cached (c_in s.2)) ∧ cached (c_in s'.2) = {[pid]} ∪ cached (c_in s.2))
  else q ≠ ExactlyOnce ∧ pid ∈ cached (c_in s.2) ∧ c_in s'.2 = c_in s.2.
Proof.
  destruct s as [n c]. unfold inflight_add, on_conn, zoom. simpl. unfold in_add.
  destruct (_ <=? _); [done|]. case_bool_decide; [by intros [= <- <-]|].
  destruct q; [intros [= <- <-]|intros [= <- <-]|done]; simpl;
    by split_and!.
Qed.

Lemma inflight_add_err pid q s e s' : inflight_add pid q s = (Err e, s') → hush s s'.
Proof.
  destruct s as [n c]. unfold inflight_add, on_conn, zoom. simpl. unfold in_add.
  destruct (_ <=? _); [intros [= <- <-]; by apply reports_same|].
  case_bool_decide; [done|]. destruct q; try done. intros [= <- <-]. by apply reports_same.
Qed.

Lemma in_remove_cached i pid : cached (in_remove i pid).2 = cached i ∖ {[pid]}.
Proof. unfold in_remove. case_bool_decide; simpl; [done|]. set_solver. Qed.

(** QoS 2: the message is offered, unless it waits to be released. *)
Lemma process_qos2_receives p pid s u s' :
  qos (inner p) = ExactlyOnce → packet_id (inner p) = Some pid → process_publish scx p s = (Ok u, s') →
  ∃ es as_, receives (cached (c_in s.2)) (RxPublish pid) es as_ (cached (c_in s'.2)) ∧
            rx_calls s'.1 = rx_calls s.1 ++ es ∧ answers s'.2 = answers s.2 ++ as_.
Proof.
  intros Hq Hp. unfold process_publish. rewrite Hq, Hp. intros H.
  apply bind_ok_inv in H as (pid' & s1 & [= <- <-] & H).
  apply bind_ok_inv in H as (dup & s1 & H1 & H). destruct s as [n c]. injection H1 as <- <-.
  cbn [fst snd] in *. destruct (in_exist (c_in c) pid) eqn:Hin; unfold in_exist in Hin;
    [apply bool_decide_eq_true in Hin|apply bool_decide_eq_false in Hin].
  - assert (Hs : send_publish_received pid (publish_result PAPacketIdentifierInUse None false) (n, c) = (Ok u, s')).
    { revert H. unfold question, map_err. destruct (send_publish_received _ _ _) as [[u0| |] s0]; [|done..].
      intros [= <- <-]. done. }
    apply send_received_ok in Hs as (-> & -> & Hans). exists [], [AReceived pid]. simpl.
    split; [by apply rx_again|]. by rewrite app_nil_r.
  - apply bind_ok_inv in H as (r & s1 & H1 & H).
    assert (H2 : publish_packet scx p (n, c) = (Ok r, s1)).
    { revert H1. unfold question, map_err. destruct (publish_packet _ _ _) as [[| |] ?]; naive_solver. }
    apply publish_packet_ok, publish_ok in H2 as (C1 & A1 & E1). unfold offer_of in E1. rewrite Hq, Hp in E1.
    apply bind_ok_inv in H as (b & s2 & H3 & H).
    apply bind_ok_inv in H as (rec & s3 & H4 & H).
    assert (Hs : ∃ u, send_publish_received pid r s2 = (Ok u, s3) ∧ s' = s3).
    { revert H4 H. unfold attempt. destruct (send_publish_received _ _ _) as [[u'|e|] s4]; [|destruct b|done];
        intros [= <- <-]; [intros [= _ <-]; eauto|done..]. }
    destruct Hs as (u' & (N4 & C4 & A4)%send_received_ok & ->). cbn [fst snd] in *.
    destruct (is_allow r).
    + apply inflight_add_ok in H3 as (N3 & A3 & H3). destruct b; [|naive_solver].
      destruct H3 as [_ C3]. exists [Offered pid], [AReceived pid].
      rewrite N4, N3, E1, A4, A3, A1, C4, C3, C1. split; [by apply rx_accepted|]. done.
    + injection H3 as <- <-. exists [Offered pid; Denied], [AReceived pid].
      rewrite N4, E1, A4, A1, C4, C1. split; [by apply rx_denied|]. done.
Qed.

(** *** Other packets *)

Lemma hush_subscribe sub : keeps hush (_subscribe scx sub).
Proof. unfold _subscribe, subscribe_admitted, check_limits. keeps. Qed.
Lemma hush_unsubscribe unsub : keeps hush (unsubscribe scx unsub).
Proof. unfold unsubscribe. keeps. Qed.
#[local] Hint Resolve hush_subscribe hush_unsubscribe : keeps.
Lemma hush_subscribes_v3 limit tfs : keeps hush (subscribes_v3 scx limit tfs).
Proof. induction tfs as [|[tf q] tfs IH]; simpl; keeps. Qed.
Lemma hush_subscribes_v5 limit sub_id tfs : keeps hush (subscribes_v5 scx limit sub_id tfs).
Proof. induction tfs as [|[tf q] tfs IH]; simpl; keeps. Qed.
Lemma hush_unsubscribes limit tfs : keeps hush (unsubscribes scx limit tfs).
Proof. induction tfs as [|tf tfs IH]; simpl; keeps. Qed.
#[local] Hint Resolve hush_subscribes_v3 hush_subscribes_v5 hush_unsubscribes : keeps.

(** Neither a message nor the release of one. *)
Definition other_packet (pkt : Packet) : bool :=
  match pkt with
  | PktV3 (MqttV3.PPublish _) | PktV5 (V5Publish _)
  | PktV3 (MqttV3.PPublishRelease _) | PktV5 (V5PublishRelease _) => false
  | _ => true
  end.

Lemma hush_handle_other pkt : other_packet pkt = true → keeps hush (handle_packet scx pkt).
Proof.
  destruct pkt as [p|p]; destruct p; intros H; try discriminate H;
  unfold handle_packet, acknowledged, released, subscribe_failed, unsubscribe_failed, limit_subscription, question,
    v3_send, v5_send; keeps.
Qed.

(** A sign of life after the packet. *)
Definition after_packet (h : Handled) : M (Node * Conn) Reason unit :=
  match h with
  | Returned => mret tt
  | Alive =>
      s ← self;
      is_ping ← on_conn (asks (λ c, contains (c_flags c) Ping));
      nmod (hook (ClientKeepalive (s_id s) is_ping));;
      if is_ping : bool then cmod (on_flags (λ f, flag_remove f Ping)) else mret tt
  end.

Lemma hush_after_packet h : keeps hush (after_packet h).
Proof. unfold after_packet. keeps. Qed.

(** QoS 0 and 1: the window is as it was, and nothing is answered that counts. *)
Lemma process_qos01_quiet p s u s' :
  rx_publish (inner p) = RxOther → process_publish scx p s = (Ok u, s') → reports (eq Denied) s s'.
Proof.
  unfold rx_publish. intros Hrx. assert (Ho : offer_of (inner p) = None).
  { unfold offer_of. by destruct (qos (inner p)), (packet_id (inner p)). }
  assert (Hpub : ∀ r s s', publish_packet scx p s = (Ok r, s') → reports (eq Denied) s s').
  { intros r s1 s2 (C & A & E)%publish_packet_ok%publish_ok. split_and!; [done..|].
    eexists. split; [exact E|]. rewrite Ho. destruct (is_allow r); by repeat constructor. }
  unfold process_publish. destruct (qos (inner p)) eqn:Hq; intros H.
  - apply bind_ok_inv in H as (r & s1 & H & [= _ <-]). eapply Hpub.
    revert H. unfold question, map_err. destruct (publish_packet _ _ _) as [[r'| |] s2]; [|done..].
    by intros [= <- <-].
  - apply bind_ok_inv in H as (pid & s1 & H1 & H).
    assert (s1 = s) as -> by (revert H1; unfold need_packet_id, ok_or; destruct (packet_id _); naive_solver).
    apply bind_ok_inv in H as (s0 & s2 & H2 & H).
    pose proof (keeps_self (E := Reason) (reports (eq Denied)) s) as K2. rewrite H2 in K2.
    etrans; [exact K2|]. clear K2 H1 H2. simpl.
    apply bind_ok_inv in H as (added & s3 & H3 & H). unfold attempt in H3.
    destruct (inflight_add pid AtLeastOnce s2) as [[b|e|] s4] eqn:Hadd; [|by injection H3 as <- <-|done].
    injection H3 as <- <-. cbv zeta in H.
    apply inflight_add_ok in Hadd as (N3 & A3 & C3).
    apply bind_ok_inv in H as (pr & s5 & H5 & H). unfold attempt in H5.
    destruct (publish_packet scx p s4) as [[r|e|] s6] eqn:Hp; [|by injection H5 as <- <-; destruct b|done].
    injection H5 as <- <-. apply Hpub in Hp as (C5 & A5 & E5).
    apply bind_ok_inv in H as (ack & s7 & H7 & H).
    pose proof (hush_send_ack pid r s6) as K7. unfold attempt in H7.
    destruct (send_publish_ack pid r s6) as [o s8]. assert (s8 = s7) as -> by (destruct o; by simplify_eq).
    apply hush_eq in K7 as (C7 & A7 & E7). apply bind_ok_inv in H as (_u & s9 & H9 & H).
    assert (s' = s9) as -> by (destruct ack; by injection H). simpl in *.
    destruct b.
    + unfold inflight_remove, cmod, on_conn, zoom, modify in H9. injection H9 as <- <-.
      destruct C3 as [Hn C3]. split_and!; simpl.
      * rewrite in_remove_cached, C7, C5, C3. set_solver.
      * unfold answers in *. simpl. congruence.
      * rewrite E7, <-N3. done.
    + injection H9 as <- <-. destruct C3 as (_ & _ & C3). split_and!; [congruence..|].
      rewrite E7, <-N3. done.
  - apply bind_ok_inv in H as (pid & s1 & H1 & _). unfold need_packet_id, ok_or in H1.
    destruct (packet_id (inner p)); done.
Qed.

Definition step_to (s s' : Node * Conn) (x : Rx) : Prop :=
  ∃ es as_, receives (cached (c_in s.2)) x es as_ (cached (c_in s'.2)) ∧
            rx_calls s'.1 = rx_calls s.1 ++ es ∧ answers s'.2 = answers s.2 ++ as_.

Lemma step_quiet s s' : reports (eq Denied) s s' → step_to s s' RxOther.
Proof. intros (C & A & l & E & F). exists l, []. rewrite C, app_nil_r. split; [by apply rx_other|done]. Qed.

Lemma hush_quiet s s' : hush s s' → reports (eq Denied) s s'.
Proof. intros (C & A & l & E & F). split_and!; [done..|]. exists l. split; [done|]. by eapply Forall_impl. Qed.

Lemma step_then_hush s s1 s' x : step_to s s1 x → hush s1 s' → step_to s s' x.
Proof. intros (es & as_ & Hr & E & A) (C' & A' & E')%hush_eq. exists es, as_. by rewrite C', A', E'. Qed.

Lemma publish_step p s u s' : process_publish scx p s = (Ok u, s') → step_to s s' (rx_publish (inner p)).
Proof.
  intros H. destruct (rx_publish (inner p)) as [pid|pid|] eqn:Hrx; [| |].
  - unfold rx_publish in Hrx. destruct (qos (inner p)) eqn:Hq, (packet_id (inner p)) eqn:Hp; try done.
    injection Hrx as ->. by eapply process_qos2_receives.
  - exfalso. unfold rx_publish in Hrx. by destruct (qos (inner p)), (packet_id (inner p)).
  - by eapply step_quiet, process_qos01_quiet.
Qed.

Lemma release_step (v5 : bool) pid pkt (n : Node) (c : Conn) u s' :
  answer_of pkt = Some (AComplete pid) →
  (inflight_remove pid;; question (v ← on_conn (asks c_v5);
     if Bool.eqb v v5 then sink_send pkt else panic)) (n, c) = (Ok u, s') →
  step_to (n, c) s' (RxRelease pid).
Proof.
  intros Ha. unfold inflight_remove. mrun. simpl. destruct (Bool.eqb _ _); [|done].
  destruct (sink_send pkt (n, _)) as [[u'|e|] s1] eqn:Hs; [|done..]. intros [= <- <-].
  apply sink_send_ok in Hs as ->. exists [], [AComplete pid]. cbn [fst snd].
  split; [|by rewrite app_nil_r, answers_wrote; simpl; rewrite Ha].
  simpl. change (let (_, y) := in_remove (c_in c) pid in y) with (in_remove (c_in c) pid).2.
  rewrite in_remove_cached. apply rx_release.
Qed.

Lemma handle_step pkt s h s' : handle_packet scx pkt s = (Ok h, s') → step_to s s' (rx_of pkt).
Proof.
  destruct (other_packet pkt) eqn:Ho.
  { intros H. pose proof (hush_handle_other pkt Ho s) as K. rewrite H in K.
    replace (rx_of pkt) with RxOther by (destruct pkt as [[]|[]]; done). by apply step_quiet, hush_quiet. }
  destruct s as [n c]. destruct pkt as [p|p]; destruct p; try discriminate Ho; cbn [handle_packet rx_of].
  - intros (t & s0 & [= <- <-] & (u & s1 & H & [= _ <-])%bind_ok_inv)%bind_ok_inv. by apply publish_step in H.
  - intros H. apply (release_step false packet_id (PktV3 (MqttV3.PPublishComplete packet_id)) _ _ tt); [done|].
    revert H. unfold v3_send, inflight_remove. mrun. simpl. destruct (c_v5 c); simpl; [done|].
    destruct (sink_send _ _) as [[[]|e|] s1]; [by intros [= _ <-]|done..].
  - intros (t & s0 & [= <- <-] & (u & s1 & H & [= _ <-])%bind_ok_inv)%bind_ok_inv. by apply publish_step in H.
  - intros H. apply (release_step true (pa_packet_id a)
      (PktV5 (V5PublishComplete (mkPublishAck (pa_packet_id a) PA2Success [] None))) _ _ tt); [done|].
    revert H. unfold v5_send, inflight_remove. mrun. simpl. destruct (c_v5 c); simpl; [|done].
    destruct (sink_send _ _) as [[[]|e|] s1]; [by intros [= _ <-]|done..].
Qed.

Lemma packet_step pkt s u s' : process_mqtt_message scx pkt s = (Ok u, s') → step_to s s' (rx_of pkt).
Proof.
  intros (h & s1 & H1 & H2)%bind_ok_inv. eapply step_then_hush; [by eapply handle_step|].
  pose proof (hush_after_packet h s1) as K. unfold after_packet in K. by rewrite H2 in K.
Qed.

(** The packets of a client, one after the other. *)
Definition process_packets (pkts : list Packet) : M (Node * Conn) Reason unit :=
  for_each (process_mqtt_message scx) pkts.

(** C4: while no packet ends the connection, a session receives QoS 2 messages as
    [receives] says: a message is offered to the plugins and the router when its
    identifier is not waiting for its release, and only then; the identifier waits
    exactly if the message was not denied; each PUBLISH is answered by PUBREC and
    each PUBREL by PUBCOMP, in order; and packets of any other kind, messages of
    QoS 0 and 1 included, do not interfere. *)
Theorem qos2_refines pkts s u s' :
  process_packets pkts s = (Ok u, s') →
  ∃ es as_, receives_all (cached (c_in s.2)) (map rx_of pkts) es as_ (cached (c_in s'.2)) ∧
            rx_calls s'.1 = rx_calls s.1 ++ es ∧ answers s'.2 = answers s.2 ++ as_.
Proof.
  unfold process_packets. revert s u. induction pkts as [|pkt pkts IH]; intros s u; cbn [for_each map].
  - intros [= _ <-]. exists [], []. rewrite !app_nil_r. split; [constructor|done].
  - intros ([] & s1 & H1 & H2)%bind_ok_inv. apply packet_step in H1 as (es & as_ & Hr & E & A).
    apply IH in H2 as (es' & as' & Hr' & E' & A'). exists (es ++ es'), (as_ ++ as').
    rewrite E', E, A', A, !app_assoc. split; [by eapply rx_cons|done].
Qed.

(** ** Once, whatever happens *)

(** An identifier that waits goes on waiting, and its message is not offered. *)
Definition waits (pid : Z) : relation (Node * Conn) := λ s s',
  pid ∈ cached (c_in s.2) →
  pid ∈ cached (c_in s'.2) ∧ ∃ l, rx_calls s'.1 = rx_calls s.1 ++ l ∧ Offered pid ∉ l.

#[global] Instance waits_preorder pid : PreOrder (waits pid).
Proof.
  split.
  - intros s H. split; [done|]. exists []. rewrite app_nil_r. set_solver.
  - intros s1 s2 s3 H1 H2 H. destruct (H1 H) as [C1 (l1 & E1 & F1)], (H2 C1) as [C2 (l2 & E2 & F2)].
    split; [done|]. exists (l1 ++ l2). rewrite E2, E1, app_assoc. split; [done|]. set_solver.
Qed.

Lemma reports_waits Q pid s s' : (¬ Q (Offered pid)) → reports Q s s' → waits pid s s'.
Proof.
  intros HQ (C & A & l & E & F) H. rewrite C. split; [done|]. exists l. split; [done|].
  intros Hin. rewrite Forall_forall in F. by apply HQ, F.
Qed.

Lemma hush_waits {E A} pid (m : M (Node * Conn) E A) : keeps hush m → keeps (waits pid) m.
Proof. intros H s. apply (reports_waits (λ _, False)); [by intros ?|apply H]. Qed.

Lemma waits_conn {E A} pid (m : M (Node * Conn) E A) :
  (∀ s, (m s).2.1 = s.1 ∧ cached (c_in s.2) ⊆ cached (c_in (m s).2.2)) → keeps (waits pid) m.
Proof.
  intros H s Hin. destruct (H s) as [Hn Hc]. split; [by apply Hc|]. exists []. rewrite Hn, app_nil_r. set_solver.
Qed.

Lemma waits_sink_send pid p : keeps (waits pid) (sink_send p).
Proof.
  apply waits_conn. intros [n c]. unfold sink_send. simpl.
  destruct (c_closed c); [done|]. by destruct (c_io c (c_writes c)).
Qed.
#[local] Hint Resolve waits_sink_send : keeps.
Lemma waits_send_received pid pid' r : keeps (waits pid) (send_publish_received pid' r).
Proof. unfold send_publish_received. keeps. Qed.

Lemma waits_add pid pid' q : keeps (waits pid) (inflight_add pid' q).
Proof.
  apply waits_conn. intros [n c]. unfold inflight_add, in_add. mrun. simpl.
  destruct (_ <=? _); [done|]. case_bool_decide; simpl; [split; [done|set_solver]|by destruct q].
Qed.

Lemma waits_remove {E} pid pid' : pid' ≠ pid → keeps (waits pid) (inflight_remove pid' : M _ E _).
Proof.
  intros Hne [n c]. unfold inflight_remove, cmod, on_conn, zoom, modify. cbn [fst snd]. intros Hin.
  split; [|exists []; rewrite app_nil_r; set_solver]. simpl. rewrite in_remove_cached. set_solver.
Qed.

Lemma waits_publish_packet pid p :
  offer_of (inner p) ≠ Some (Offered pid) → keeps (waits pid) (publish_packet scx p).
Proof.
  intros Ho s. eapply reports_waits; [|apply reports_publish_packet]. by intros [?|?].
Qed.

#[local] Hint Resolve waits_send_received waits_add : keeps.
#[local] Hint Extern 1 (keeps (waits _) (send_publish_ack _ _)) => apply hush_waits, hush_send_ack : keeps.
#[local] Hint Extern 1 (keeps (waits _) (question _)) => apply keeps_map_err : keeps.

Lemma waits_drop {E} pid to from p r : keeps (waits pid) (nmod (message_dropped to from p r) : M _ E _).
Proof.
  intros s. apply (reports_waits (λ e, e ≠ Offered pid)); [by intros H|].
  apply (reports_hook (λ e, e ≠ Offered pid)). intros e. simpl. by repeat case_match; intros [= <-].
Qed.
#[local] Hint Resolve waits_drop : keeps.

(** While an identifier waits, adding it to the window does nothing. *)
Lemma waits_add_pending {E A} pid q (f : outcome Reason bool → M (Node * Conn) E A) :
  keeps (waits pid) (f (Ok false)) → (∀ e, keeps (waits pid) (f (Err (reason_of_add e)))) →
  keeps (waits pid) (added ← attempt (inflight_add pid q); f added).
Proof.
  intros Hf He [n c] Hin. unfold inflight_add, in_add. mrun. cbn [fst snd] in Hin.
  destruct (_ <=? _); [by apply (He InflightWindowFull (n, on_in (λ _, c_in c) c))|].
  rewrite bool_decide_eq_false_2 by set_solver.
  destruct q; [by apply (Hf (n, on_in (λ _, c_in c) c))..|by apply (He (PacketIdInUse pid) (n, on_in (λ _, c_in c) c))].
Qed.

#[local] Hint Resolve waits_remove : keeps.

Lemma waits_known_id {A} pid pid' e (f : Z → M (Node * Conn) Reason A) :
  keeps (waits pid) (f pid') → keeps (waits pid) (ok_or (Some pid') e ≫= f).
Proof. done. Qed.

Lemma waits_process_publish pid p : keeps (waits pid) (process_publish scx p).
Proof.
  unfold process_publish. destruct (qos (inner p)) eqn:Hq.
  - assert (offer_of (inner p) ≠ Some (Offered pid)) by (unfold offer_of; by rewrite Hq).
    pose proof (waits_publish_packet pid p). keeps; auto.
  - assert (offer_of (inner p) ≠ Some (Offered pid)) by (unfold offer_of; by rewrite Hq).
    pose proof (waits_publish_packet pid p). unfold need_packet_id.
    do 2 (keeps_step; [keeps|cbv beta]). destruct (decide (a = pid)) as [->|Hne].
    + apply waits_add_pending; [keeps; auto|]. intros e. keeps.
    + keeps_step; [keeps|]. destruct (_ : outcome Reason bool) as [b|e|]; keeps; auto.
  - unfold need_packet_id. destruct (packet_id (inner p)) as [pid'|] eqn:Hp; [|by intros s].
    destruct (decide (pid' = pid)) as [->|Hne].
    + intros [n c] Hin. cbn [fst snd] in Hin. mrun. unfold in_exist. rewrite bool_decide_eq_true_2 by done.
      pose proof (waits_send_received pid pid (publish_result PAPacketIdentifierInUse None false) (n, c) Hin) as H.
      by destruct (send_publish_received _ _ _) as [[u|e|] s1].
    + assert (offer_of (inner p) ≠ Some (Offered pid)) by (unfold offer_of; rewrite Hq, Hp; naive_solver).
      pose proof (waits_publish_packet pid p).
      apply waits_known_id. keeps; auto.
Qed.

Lemma waits_packet pid pkt : rx_of pkt ≠ RxRelease pid → keeps (waits pid) (process_mqtt_message scx pkt).
Proof.
  intros Hr. apply keeps_bind; [apply _| |intros h; apply hush_waits, hush_after_packet].
  destruct (other_packet pkt) eqn:Ho; [by apply hush_waits, hush_handle_other|].
  pose proof (waits_process_publish pid) as Hpub.
  destruct pkt as [p|p]; destruct p; try discriminate Ho; cbn [handle_packet]; unfold question;
    (keeps_step; [try keeps|cbv beta]).
  - keeps.
  - apply waits_remove. simpl in Hr. congruence.
  - unfold v3_send. keeps.
  - keeps.
  - apply waits_remove. simpl in Hr. congruence.
  - unfold v5_send. keeps.
Qed.

End Qos.

(** A message of QoS 2 that is sent twice and released. *)
Definition twice : list Packet :=
  let p := PktV3 (MqttV3.PPublish (sample_publish ExactlyOnce (Some 9) (lit "a/b"))) in
  [p; PktV3 MqttV3.PPingRequest; p; PktV3 (MqttV3.PPublishRelease 9)].

Lemma qos2_refines_witness :
  ∃ es as_, receives_all ∅ [RxPublish 9; RxOther; RxPublish 9; RxRelease 9] es as_ ∅ ∧
    es = [Offered 9] ∧ as_ = [AReceived 9; AReceived 9; AComplete 9].
Proof.
  set (s := (sample_node, sample_conn 1 false)).
  destruct (process_packets sample_server twice s) as [r s'] eqn:E.
  assert (r = Ok tt) as -> by (apply (f_equal fst) in E; vm_compute in E; by rewrite E).
  destruct (qos2_refines sample_server twice s tt s' E) as (es & as_ & H & He & Ha).
  assert (s' = (process_packets sample_server twice s).2) as -> by by rewrite E.
  clear E. exists es, as_. vm_compute in H, He, Ha. subst es as_. done.
Defined.

