(* ===== verification/Delivery.v ===== *)
(** * From a publication to the channels of its subscribers

    [DefaultShared::forwards] composed with the router: which channels a message
    is put into, as what, and who is reported to have missed it. *)

From stdpp Require Import base list numbers option gmap strings.
From Stdlib Require Import ZArith Lia.
From S2P Require Import Prelude Errors CodecTypes PacketV5 Topic Counter Hash BrokerTypes Queue Inflight.
From S2P Require Import RetainStore Router Routing Acl Alias Hook Delayed SessionSubs ConnInfo Fitter Broker.
From S2P Require Import Session SessionLoop SessionFrame Sample.

#[local] Open Scope Z_scope.

Section Forwards.
Context `{B : Backend}.

(** The channel that a client is reached by. *)
Definition reach (n : Node) (cid : ClientId) : option Z :=
  '(tx, _) ← shared_tx n cid; if tx_is_closed n tx then None else Some tx.

(** What [rel] makes of the message, if its client is reached by [tx]. *)
Definition sent_by (n : Node) (from : From) (p : BrokerTypes.Publish) (tx : Z) (rel : SubRelation)
    : option Message :=
  if decide (reach n (rel_cid rel) = Some tx)
  then Some (Forward from (for_subscriber p (rel_opts rel) (rel_ids rel))) else None.

(** The rest of the node is as it was, open channels stay open. *)
Definition same_registry (n n' : Node) : Prop :=
  n_peers n' = n_peers n ∧ n_sessions n' = n_sessions n ∧ ∀ tx, tx_is_closed n' tx = tx_is_closed n tx.

Lemma reach_same n n' cid : same_registry n n' → reach n' cid = reach n cid.
Proof.
  intros (Hp & Hs & Hc). unfold reach, shared_tx, peer, session_at. rewrite Hp, Hs.
  destruct (n_peers n !! cid) as [e|]; [|done]. simpl. destruct (n_sessions n !! e_s e); [|done]. simpl.
  by rewrite Hc.
Qed.

Lemma unbounded_send_spec tx m n :
  let '(ok, n') := unbounded_send tx m n in
  ok = negb (tx_is_closed n tx) ∧ same_registry n n' ∧
  ∀ tx' c, n_chans n !! tx' = Some c →
    n_chans n' !! tx' = Some (mkChan (ch_open c) (ch_msgs c ++ if decide (ok = true ∧ tx' = tx) then [m] else [])).
Proof.
  unfold unbounded_send. destruct (tx_is_closed n tx) eqn:Hc; simpl.
  - split; [done|]. split; [by repeat split|]. intros tx' [o ms] Hl. by rewrite Hl, app_nil_r.
  - split; [done|]. split.
    + split; [done|]. split; [done|]. intros tx'. unfold tx_is_closed. simpl.
      rewrite lookup_alter. case_decide; [subst|done]. by destruct (n_chans n !! tx') as [[]|].
    + intros tx' [o ms] Hl. rewrite lookup_alter.
      destruct (decide (tx = tx')) as [->|Hne]; rewrite Hl; case_decide; simpl; rewrite ?app_nil_r; try done;
        by exfalso; intuition.
Qed.

Lemma forward_one_spec from p rel n :
  let '((oks, errs), n') := forward_one from p rel n in
  same_registry n n' ∧
  (∀ tx c, n_chans n !! tx = Some c →
     n_chans n' !! tx = Some (mkChan (ch_open c) (ch_msgs c ++ option_list (sent_by n from p tx rel)))) ∧
  match reach n (rel_cid rel) with
  | Some _ => oks = recipients_of (rel_tf rel) (rel_cid rel) (rel_group rel) ∧ errs = []
  | None => oks = [] ∧ ∃ to r, errs = [(to, from, for_subscriber p (rel_opts rel) (rel_ids rel), r)] ∧
                               id_client_id to = id_client_id (default (id_from (n_now n) 0 (rel_cid rel)) (snd <$> shared_tx n (rel_cid rel)))
  end.
Proof.
  destruct rel as [[[[tf cid] opts] ids] g]. unfold forward_one, sent_by, reach, rel_cid, rel_opts, rel_ids. simpl.
  destruct (shared_tx n cid) as [[tx to]|]; simpl.
  - pose proof (unbounded_send_spec tx (Forward from (for_subscriber p opts ids)) n) as H.
    destruct (unbounded_send _ _ n) as [ok n']. destruct H as (Hok & Hsame & Hch).
    destruct (tx_is_closed n tx); simpl in Hok; subst ok.
    + split; [done|]. split; [|split; [done|by eexists _, _]]. intros tx' c Hl. by rewrite (Hch _ _ Hl).
    + split; [done|]. split; [|done]. intros tx' c Hl. rewrite (Hch _ _ Hl).
      repeat case_decide; try done; by exfalso; intuition congruence.
  - split; [by repeat split|]. split; [|split; [done|by eexists _, _]].
    intros tx [o ms] Hl. by rewrite Hl, app_nil_r.
Qed.

(** Who is counted, and what is reported as missed, by one relation. *)
Definition reached_by (n : Node) (rel : SubRelation) : list (ClientId * option (TopicFilter * SharedGroup)) :=
  match reach n (rel_cid rel) with
  | Some _ => recipients_of (rel_tf rel) (rel_cid rel) (rel_group rel)
  | None => []
  end.
Definition missed_by (n : Node) (from : From) (p : BrokerTypes.Publish) (rel : SubRelation)
    : option (From * BrokerTypes.Publish) :=
  match reach n (rel_cid rel) with
  | Some _ => None
  | None => Some (from, for_subscriber p (rel_opts rel) (rel_ids rel))
  end.
Definition undelivered (e : Id * From * BrokerTypes.Publish * Reason) : From * BrokerTypes.Publish := (e.1.1.2, e.1.2).

(** The node after a message was put into the channels of [rels], in order. *)
Definition forwarded (n n' : Node) (from : From) (p : BrokerTypes.Publish) (rels : list SubRelation) : Prop :=
  same_registry n n' ∧
  ∀ tx c, n_chans n !! tx = Some c →
    n_chans n' !! tx = Some (mkChan (ch_open c) (ch_msgs c ++ omap (sent_by n from p tx) rels)).

Lemma same_registry_trans n1 n2 n3 : same_registry n1 n2 → same_registry n2 n3 → same_registry n1 n3.
Proof. intros (P1 & S1 & C1) (P2 & S2 & C2). split; [congruence|]. split; [congruence|]. intros tx. by rewrite C2. Qed.

Lemma omap_eq {A C} (f g : A → option C) (l : list A) : (∀ x, f x = g x) → omap f l = omap g l.
Proof. intros H. induction l as [|x l IH]; [done|]. cbn. rewrite H. by destruct (g x); [f_equal|]. Qed.

Lemma forwards_to_spec from p rels n :
  let '((oks, errs), n') := forwards_to from p rels n in
  forwarded n n' from p rels ∧ oks = concat (map (reached_by n) rels) ∧
  map undelivered errs = omap (missed_by n from p) rels.
Proof.
  revert n. induction rels as [|rel rels IH]; intros n; simpl.
  - split; [|done]. split; [by repeat split|]. intros tx [o ms] Hl. by rewrite Hl, app_nil_r.
  - pose proof (forward_one_spec from p rel n) as H1. destruct (forward_one from p rel n) as [[ok errs] n1].
    destruct H1 as (Hs1 & Hc1 & H1). specialize (IH n1).
    destruct (forwards_to from p rels n1) as [[oks errss] n2]. destruct IH as ((Hs2 & Hc2) & -> & He).
    pose proof (λ cid, reach_same n n1 cid Hs1) as Hr.
    split_and!.
    + split; [by eapply same_registry_trans|]. intros tx c Hl. rewrite (Hc2 _ _ (Hc1 _ _ Hl)). simpl.
      rewrite <-app_assoc. do 3 f_equal.
      rewrite (omap_eq (sent_by n1 from p tx) (sent_by n from p tx)) by (intros r; unfold sent_by; by rewrite Hr).
      by destruct (sent_by n from p tx rel).
    + unfold reached_by at 2. destruct (reach n (rel_cid rel)); destruct H1 as [-> _];
        f_equal; f_equal; apply map_ext; intros r; unfold reached_by; by rewrite Hr.
    + rewrite map_app, He, (omap_eq (missed_by n1 from p) (missed_by n from p))
        by (intros r; unfold missed_by; by rewrite Hr).
      unfold missed_by at 2. destruct (reach n (rel_cid rel)); destruct H1 as [_ H1]; [by rewrite H1|].
      by destruct H1 as (to & r & -> & _).
Qed.

Lemma forwards_to_msgs from p rels (n : Node) : n_msgs (forwards_to from p rels n).2 = n_msgs n.
Proof.
  revert n. induction rels as [|[[[[tf cid] opts] ids] g] rels IH]; intros n; [done|]. cbn [forwards_to].
  assert (n_msgs (forward_one from p (tf, cid, opts, ids, g) n).2 = n_msgs n) as H1.
  { unfold forward_one. destruct (shared_tx n cid) as [[tx to]|]; [|done].
    unfold unbounded_send. by destruct (tx_is_closed n tx). }
  destruct (forward_one _ _ _ n) as [[ok errs] n1]. specialize (IH n1).
  destruct (forwards_to from p rels n1) as [[oks errss] n2]. simpl in *. congruence.
Qed.

Context `{!BackendOk B} (scx : ServerContext).

(** Who counts as served when [rel] is served: its client, or all members of its
    group, of which the client alone is marked with the filter and the group. *)
Definition stands_for (wants : TopicFilter → SharedGroup → ClientId → Prop) (rel : SubRelation)
    (x : ClientId * option (TopicFilter * SharedGroup)) : Prop :=
  match shared_group (rel_opts rel) with
  | None => x = (rel_cid rel, None)
  | Some g => wants (rel_tf rel) g x.1 ∧ x.2 = if decide (x.1 = rel_cid rel) then Some (rel_tf rel, g) else None
  end.

Lemma recipients_stand_for wants (rel : SubRelation) x :
  group_ok (wants (rel_tf rel)) (rel_opts rel) (rel_group rel) →
  x ∈ recipients_of (rel_tf rel) (rel_cid rel) (rel_group rel) ↔ stands_for wants rel x.
Proof.
  unfold group_ok, stands_for, recipients_of. destruct (rel_group rel) as [[[g on] cids]|], (shared_group _) as [g'|]; try done.
  - intros (-> & _ & Hm). rewrite list_elem_of_fmap. destruct x as [cid mark]. cbn [fst snd]. split.
    + intros (c & [= -> ->] & Hc%Hm). split; [done|]. case_bool_decide; by case_decide.
    + intros [Hw ->]. exists cid. split; [|by apply Hm]. case_bool_decide; by case_decide.
  - intros _. by rewrite list_elem_of_singleton.
Qed.

(** All that count as served when those of [rels] that are reached are. *)
Definition served_by (wants : TopicFilter → SharedGroup → ClientId → Prop) (reached : SubRelation → Prop)
    (rels : list SubRelation) (xs : list (ClientId * option (TopicFilter * SharedGroup))) : Prop :=
  ∀ x, x ∈ xs ↔ ∃ rel, rel ∈ rels ∧ reached rel ∧ stands_for wants rel x.

Lemma recipients_served wants rels (reached : SubRelation → Prop) `{!∀ rel, Decision (reached rel)} f :
  (∀ rel, rel ∈ rels → group_ok (wants (rel_tf rel)) (rel_opts rel) (rel_group rel)) →
  (∀ rel, f rel = if decide (reached rel) then recipients_of (rel_tf rel) (rel_cid rel) (rel_group rel) else []) →
  served_by wants reached rels (concat (map f rels)).
Proof.
  intros Hok Hf x. rewrite elem_of_concat. split.
  - intros (l & (rel & -> & Hin)%list_elem_of_fmap & Hx). rewrite Hf in Hx. case_decide; [|by apply not_elem_of_nil in Hx].
    exists rel. do 2 (split; [done|]). by apply (recipients_stand_for wants rel x (Hok rel Hin)).
  - intros (rel & Hin & Hr & Hs). exists (f rel). split; [by apply list_elem_of_fmap_2|]. rewrite Hf, decide_True by done.
    by apply (recipients_stand_for wants rel x (Hok rel Hin)).
Qed.

(** What a subscription makes of a message: its topic, payload and other data
    untouched, a fresh delivery of at most the QoS that was granted, the retain
    flag only for those who asked for it, and the identifiers of the
    subscriptions in the properties that the message has. *)
Definition as_subscribed (p : BrokerTypes.Publish) (opts : BrokerTypes.SubscriptionOptions)
    (ids : option (list Z)) (p' : BrokerTypes.Publish) : Prop :=
  (topic (inner p'), payload (inner p')) = (topic (inner p), payload (inner p)) ∧
  (target_clientid p', delay_interval p', create_time p') = (target_clientid p, delay_interval p, create_time p) ∧
  (dup (inner p'), packet_id (inner p')) = (false, None) ∧
  qos_value (qos (inner p')) = Z.min (qos_value (qos (inner p))) (qos_value (opts_qos opts)) ∧
  (retain (inner p') = true ↔ retain (inner p) = true ∧ retain_as_published opts = Some true) ∧
  match properties (inner p), properties (inner p') with
  | Some pp, Some pp' => set_subscription_ids [] pp' = set_subscription_ids [] pp ∧
                         subscription_ids pp' = default (subscription_ids pp) ids
  | None, None => True
  | _, _ => False
  end.

Lemma for_subscriber_as_subscribed p opts ids : as_subscribed p opts ids (for_subscriber p opts ids).
Proof.
  unfold as_subscribed, for_subscriber. destruct p as [[d r q t i pl pp] tc di ct], ids as [ids|]; simpl;
    rewrite less_value_min; (split_and!; try done);
    try (destruct (retain_as_published opts) as [[]|]; intuition congruence); by destruct pp as [[]|].
Qed.

Lemma forwarded_mark n n' from p rels mid rs :
  forwarded n n' from p rels → forwarded n (mark_forwarded mid rs n') from p rels.
Proof. intros H. by destruct mid as [mid|], rs. Qed.

(** The subscribers of this node whom a message is sent to: a choice of one member
    for each filter and group, and the relations by that choice. *)
Definition to_be_sent (n : Node) (from : From) (p : BrokerTypes.Publish)
    (choice : TopicFilter → SharedGroup → option ClientId) (rels : list SubRelation) : Prop :=
  is_choice (from_id from) (topic (inner p)) (n_router n) choice ∧
  routed (from_id from) (topic (inner p)) (n_router n) choice (sc_node_id scx) rels.

Lemma forwards_run {E} mid from p rels (out : gmap NodeId (list SubRelation)) n :
  default [] (out !! sc_node_id scx) = rels →
  ∃ errs n',
    (match out !! sc_node_id scx with
     | Some relations =>
         '(recipients, errs) ← state (forwards_to from p relations);
         modify (mark_forwarded mid recipients);; mret (len recipients, errs)
     | None => mret (0, [])
     end : M Node E _) n = (Ok (len (concat (map (reached_by n) rels)), errs), n') ∧
    forwarded n n' from p rels ∧ map undelivered errs = omap (missed_by n from p) rels ∧
    n_msgs n' = n_msgs (mark_forwarded mid (concat (map (reached_by n) rels)) n).
Proof.
  pose proof (forwards_to_spec from p rels n) as Hf. pose proof (forwards_to_msgs from p rels n) as Hms. intros Hrels.
  destruct (out !! sc_node_id scx) as [rels'|]; simpl in Hrels; subst rels.
  - unfold state, mbind, M_bind. destruct (forwards_to from p rels' n) as [[oks errs] n2].
    destruct Hf as (Hf & -> & He). eexists _, _. split; [reflexivity|]. split; [by apply forwarded_mark|]. split; [done|].
    simpl in Hms. unfold modify. simpl. destruct mid as [i|], (concat (map (reached_by n) rels')); simpl; congruence.
  - exists [], n. destruct Hf as (Hf & _ & _). split; [done|]. split; [done|]. split; [done|]. by destruct mid.
Qed.

End Forwards.

(** ** A message to two clients *)

Definition sample_sub : BrokerTypes.SubscriptionOptions := options_from_v3 AtLeastOnce None None.

(** Client c2 subscribes to a/+, a client that is gone to a/b. *)
Definition subscribed_node : Node :=
  on_n_router (λ _, (router_add (lit "a/b") (mkId 1 0 None None (lit "c9") None 0) sample_sub
    (router_add (lit "a/+") (mkId 1 0 None None (lit "c2") None 0) sample_sub router_new).2).2) sample_node.

Lemma subscribed_node_inv : router_inv (n_router subscribed_node).
Proof.
  apply (router_add_inv (lit "a/b") _ _ _ [Normal (lit "a"); Normal (lit "b")]); [|reflexivity].
  apply (router_add_inv (lit "a/+") _ _ _ [Normal (lit "a"); SingleWildcard]); [|reflexivity].
  apply router_new_inv.
Qed.

Definition sample_from : From := from_custom (mkId 1 0 None None (lit "c1") None 0).
Definition sample_message : BrokerTypes.Publish :=
  publish_of (sample_publish ExactlyOnce (Some 3) (lit "a/b")).

