(* ===== verification/Registry.v ===== *)
(** * The registry of sessions

    What the operations of an entry ([DefaultShared], [LockEntry]) do to the
    router, the registry and the subscriptions of a session. *)

From stdpp Require Import base list numbers option gmap strings.
From Stdlib Require Import ZArith Lia.
From S2P Require Import Prelude Errors CodecTypes PacketV5 Topic Counter Hash BrokerTypes Queue Inflight.
From S2P Require Import RetainStore Router Acl Alias Hook Delayed SessionSubs ConnInfo Fitter Broker Session.
From S2P Require Import SessionLoop SessionFrame Sample SessionQos.

#[local] Open Scope Z_scope.

Section Registry.
Context `{B : Backend}.

(** ** Removing *)

Lemma node_router_remove_ok tf id n : router_inv (n_router n) →
  ∃ b r', node_router_remove tf id n = (Ok b, on_n_router (λ _, r') n) ∧ router_inv r' ∧
    ∀ tf' cid, subscribed r' tf' cid =
      if decide (removable (n_router n) tf id = true ∧ tf' = tf ∧ cid = id_client_id id) then None
      else subscribed (n_router n) tf' cid.
Proof.
  intros Hr. pose proof (router_remove_spec tf id (n_router n) Hr) as H. unfold node_router_remove.
  destruct (router_remove tf id (n_router n)) as [o r']. destruct H as (-> & Hi & Hs). by eexists _, r'.
Qed.

(** The subscriptions of a session that left the registry. *)
Lemma clear_subscriptions_spec self id tfs n :
  router_inv (n_router n) → peer n (id_client_id self) = None →
  ∃ r', clear_subscriptions self id tfs n = (Ok tt, on_n_router (λ _, r') n) ∧ router_inv r' ∧
    ∀ tf cid, subscribed r' tf cid =
      if decide (tf ∈ tfs ∧ removable (n_router n) tf id = true ∧ cid = id_client_id id) then None
      else subscribed (n_router n) tf cid.
Proof.
  revert n. induction tfs as [|tf tfs IH]; intros n Hr Hp; cbn [clear_subscriptions].
  - exists (n_router n). split; [by destruct n|]. split; [done|]. intros tf cid.
    rewrite decide_False by set_solver. done.
  - destruct (node_router_remove_ok tf id n Hr) as (b & r1 & Hrm & Hr1 & Hs1).
    assert (Hun : _unsubscribe self id tf n = (Ok tt, on_n_router (λ _, r1) n)).
    { unfold _unsubscribe. rewrite (bind_ok _ _ _ _ _ Hrm). unfold asks, mbind, M_bind, entry_session, peer in *.
      simpl. by rewrite Hp. }
    destruct (IH (on_n_router (λ _, r1) n) Hr1 Hp) as (r' & Hc & Hr' & Hs').
    exists r'. split; [|split; [done|]].
    + unfold mbind, M_bind, attempt. rewrite Hun. rewrite Hc. by destruct n.
    + intros tf' cid. rewrite Hs'. simpl. rewrite Hs1. unfold removable. simpl. rewrite Hs1.
      repeat case_decide; try done; exfalso; set_solver.
Qed.

Lemma remove_peer_spec clear self p s n :
  router_inv (n_router n) → session_at n (e_s p) = Some s →
  ∃ r', remove_peer clear self p n = (Ok (Some p), on_n_router (λ _, r') (on_n_peers (delete (id_client_id self)) n)) ∧
    router_inv r' ∧
    ∀ tf cid, subscribed r' tf cid =
      if decide (clear = true ∧ tf ∈ to_topic_filters (s_subs s) ∧ removable (n_router n) tf (s_id s) = true ∧
                 cid = id_client_id (s_id s)) then None
      else subscribed (n_router n) tf cid.
Proof.
  intros Hr Hs. set (n1 := on_n_peers (delete (id_client_id self)) n).
  assert (Hget : get_session (E := Error) (e_s p) n1 = (Ok s, n1)).
  { unfold get_session, session_at in *. simpl. by rewrite Hs. }
  assert (Hrun : remove_peer clear self p n =
    ((if clear then clear_subscriptions self (s_id s) (to_topic_filters (s_subs s)) else mret tt);; mret (Some p)) n1).
  { unfold remove_peer. unfold modify. unfold mbind at 1, M_bind at 1. fold n1. by rewrite (bind_ok _ _ _ _ _ Hget). }
  rewrite Hrun. destruct clear.
  - destruct (clear_subscriptions_spec self (s_id s) (to_topic_filters (s_subs s)) n1) as (r' & Hc & Hr' & Hs').
    { done. } { unfold peer. simpl. apply lookup_delete_eq. }
    exists r'. rewrite (bind_ok _ _ _ _ _ Hc). split; [done|]. split; [done|]. intros tf cid. rewrite Hs'.
    repeat case_decide; try done; exfalso; naive_solver.
  - exists (n_router n). split; [by destruct n|]. split; [done|]. intros tf cid. rewrite decide_False by naive_solver. done.
Qed.

(** ** Handing over a session *)

(** The filters of a session are its filters. *)
Lemma elem_of_filters `{!BackendOk B} (subs : gmap TopicFilter BrokerTypes.SubscriptionOptions) tf :
  tf ∈ to_topic_filters subs ↔ is_Some (subs !! tf).
Proof.
  unfold to_topic_filters. rewrite list_elem_of_fmap. split.
  - intros ([tf' o] & -> & Hin%elem_of_iter). by exists o.
  - intros [o Ho]. exists (tf, o). split; [done|]. by apply elem_of_iter.
Qed.

Lemma pop_queue_spec {T} fuel (q : Queue T) : (length (q_inner q) < fuel)%nat →
  ∃ q', pop_queue fuel q = Some (q_inner q, q') ∧ q_inner q' = [].
Proof.
  revert q. induction fuel as [|fuel IH]; intros q Hf; [lia|]. cbn [pop_queue]. unfold queue_pop.
  destruct (q_inner q) as [|v vs] eqn:Hq; [by exists q|].
  destruct (IH (mkQueue (q_cap q) vs (q_on_push q) (q_on_pop q) (called (q_on_pop q) Popped (q_log q)))) as (q' & Hp & He).
  { simpl in *. lia. }
  simpl in Hp. rewrite Hp. by exists q'.
Qed.

(** What is left of a session that was taken out. *)
Definition emptied (s : Session) : Prop :=
  s_subs s = ∅ ∧ q_inner (s_queue s) = [] ∧ entries (s_out s) = [].

Lemma to_offline_info_spec `{!BackendOk B} {E} r s n : session_at n r = Some s →
  ∃ n' s', to_offline_info (E := E) r n =
      (Ok (mkOffline (s_id s) (iter (s_subs s)) (q_inner (s_queue s)) (entries (s_out s)).*2 (s_created_at s)), n') ∧
    session_at n' r = Some s' ∧ emptied s' ∧ n_peers n' = n_peers n ∧ n_router n' = n_router n ∧
    n_chans n' = n_chans n ∧ n_hooks n' = n_hooks n ∧ n_next n' = n_next n ∧
    ∀ r', r' ≠ r → session_at n' r' = session_at n r'.
Proof.
  intros Hs. unfold to_offline_info.
  assert (Hget : get_session (E := E) r n = (Ok s, n)) by (unfold get_session; by rewrite Hs).
  rewrite (bind_ok _ _ _ _ _ Hget).
  pose proof (subs_drain_spec (s_subs s, n_sub_stats n)) as [Hd1 Hd2].
  destruct (subs_drain (s_subs s, n_sub_stats n)) as [l [subs st]] eqn:Hd. simpl in Hd1, Hd2. subst l subs.
  set (n1 := on_session_obj r (on_s_subs (λ _, ∅)) (on_n_sub_stats (λ _, st) n)).
  assert (Hdrain : state (E := E) (subscriptions_drain r) n = (Ok (iter (s_subs s)), n1)).
  { unfold state, subscriptions_drain, on_subs. rewrite Hs, Hd. done. }
  rewrite (bind_ok _ _ _ _ _ Hdrain).
  destruct (pop_queue_spec (S (length (q_inner (s_queue s)))) (s_queue s)) as (q & -> & Hq); [lia|].
  destruct (to_inflight_messages_spec (s_out s)) as (o & -> & Ho & _).
  eexists _, (on_s_out (λ _, o) (on_s_queue (λ _, q) (on_s_subs (λ _, ∅) s))).
  split; [reflexivity|]. unfold session_at, n1, on_session_obj in *. simpl.
  split; [by rewrite !lookup_alter_eq, Hs|]. do 6 (split; [done|]).
  intros r' Hne. by rewrite !lookup_alter_ne.
Qed.

(** The node while the answer to a kick is awaited. *)
Definition kick_asked (self : Id) (clean_start is_admin : bool) (p : EntryItem) (n : Node) : Node :=
  let '(o, n) := fresh n in
  (unbounded_send (e_tx p) (Kick o self clean_start is_admin) (on_n_oneshots <[o := OsOpen]> n)).2.

(** [kick], once the answer has arrived. *)
Definition after_answer (self : Id) (clean_start clear : bool) : M Node Error OfflineSession :=
  p ← _remove clear self;
  match p with
  | Some p =>
      if clean_start then mret (OffExist None)
      else
        o ← attempt (to_offline_info (E := Error) (e_s p));
        match o with
        | Ok o => mret (OffExist (Some o))
        | _ => mret (OffExist None)
        end
  | None => mret OffNotExist
  end.

Lemma kick_talk self clean_start clear is_admin wait p n0 :
  let n := wait (kick_asked self clean_start is_admin p n0) in
  peer n0 (id_client_id self) = Some p → tx_is_closed n0 (e_tx p) = false →
  n_oneshots n !! n_next n0 ≠ Some OsSenderGone →
  kick self clean_start clear is_admin wait n0 =
  after_answer self clean_start clear (on_n_oneshots <[n_next n0 := OsClosed]> n).
Proof.
  intros n Hp Hc Hgone. set (nk := on_n_oneshots <[n_next n0 := OsOpen]> (on_n_next (λ k, k + 1) n0)).
  assert (Hsend : unbounded_send (e_tx p) (Kick (n_next n0) self clean_start is_admin) nk =
    (true, kick_asked self clean_start is_admin p n0)).
  { unfold kick_asked, fresh. fold nk. unfold unbounded_send. unfold nk, tx_is_closed in *. simpl in *. by rewrite Hc. }
  unfold kick, entry_tx. mrun. rewrite Hp. simpl. rewrite Hc. simpl. fold nk. rewrite Hsend. simpl. fold n.
  destruct (n_oneshots n !! n_next n0) as [[]|]; done.
Qed.

Lemma after_answer_spec `{!BackendOk B} self clean_start clear p s n :
  let cid := id_client_id self in
  peer n cid = Some p → session_at n (e_s p) = Some s → router_inv (n_router n) →
  ∃ n' s',
    after_answer self clean_start clear n =
      (Ok (OffExist (if clean_start then None else
         Some (mkOffline (s_id s) (iter (s_subs s)) (q_inner (s_queue s)) (entries (s_out s)).*2 (s_created_at s)))), n') ∧
    n_peers n' = delete cid (n_peers n) ∧ n_chans n' = n_chans n ∧ n_hooks n' = n_hooks n ∧
    session_at n' (e_s p) = Some s' ∧ (if clean_start then s' = s else emptied s') ∧
    router_inv (n_router n') ∧
    (∀ tf cid', subscribed (n_router n') tf cid' =
      if decide (clear = true ∧ is_Some (s_subs s !! tf) ∧ removable (n_router n) tf (s_id s) = true ∧
                 cid' = id_client_id (s_id s)) then None
      else subscribed (n_router n) tf cid') ∧
    n_next n' = n_next n ∧ ∀ r, r ≠ e_s p → session_at n' r = session_at n r.
Proof.
  intros cid Hp Hs Hr. unfold cid in *. clear cid.
  destruct (remove_peer_spec clear self p s n) as (r' & Hrm & Hr' & Hsub); [done..|].
  set (n2 := on_n_router (λ _, r') (on_n_peers (delete (id_client_id self)) n)) in *.
  assert (Hrem : _remove clear self n = (Ok (Some p), n2)).
  { unfold _remove, asks, mbind, M_bind. by rewrite Hp. }
  unfold after_answer. rewrite (bind_ok _ _ _ _ _ Hrem).
  assert (Hrouter : ∀ tf cid', subscribed r' tf cid' =
      if decide (clear = true ∧ is_Some (s_subs s !! tf) ∧ removable (n_router n) tf (s_id s) = true ∧
                 cid' = id_client_id (s_id s)) then None
      else subscribed (n_router n) tf cid').
  { intros tf cid'. rewrite Hsub. apply decide_ext. by rewrite elem_of_filters. }
  destruct clean_start; [by exists n2, s|].
  destruct (to_offline_info_spec (E := Error) (e_s p) s n2 Hs) as (n3 & s' & Hoff & Hs' & Hem & P & R & C & K & N & O).
  exists n3, s'. unfold attempt, mbind, M_bind. rewrite Hoff. split; [done|].
  rewrite P, C, K, R, N. do 7 (split; [done|]). done.
Qed.

(** A kick takes the session of the client out of the registry, whether its task
    answers, does not answer in time or is gone.  Unless the new session is to
    start clean, it hands over all that the old session holds at that moment: its
    subscriptions, its queued messages in order and its window in order, and
    leaves nothing behind.  With [clear], the router forgets the
    subscriptions of the old session; without, the router is not touched.  [n] is
    the node when the answer has arrived or the time is up. *)
Lemma kick_hands_over `{!BackendOk B} self clean_start clear is_admin wait p s n0 :
  let cid := id_client_id self in
  let n := if tx_is_closed n0 (e_tx p) then n0 else wait (kick_asked self clean_start is_admin p n0) in
  peer n0 cid = Some p → peer n cid = Some p → session_at n (e_s p) = Some s → router_inv (n_router n) →
  (tx_is_closed n0 (e_tx p) = false → n_oneshots n !! n_next n0 ≠ Some OsSenderGone) →
  ∃ n' s',
    kick self clean_start clear is_admin wait n0 =
      (Ok (OffExist (if clean_start then None else
         Some (mkOffline (s_id s) (iter (s_subs s)) (q_inner (s_queue s)) (entries (s_out s)).*2 (s_created_at s)))), n') ∧
    n_peers n' = delete cid (n_peers n) ∧ n_chans n' = n_chans n ∧ n_hooks n' = n_hooks n ∧
    session_at n' (e_s p) = Some s' ∧ (if clean_start then s' = s else emptied s') ∧
    router_inv (n_router n') ∧
    (∀ tf cid', subscribed (n_router n') tf cid' =
      if decide (clear = true ∧ is_Some (s_subs s !! tf) ∧ removable (n_router n) tf (s_id s) = true ∧
                 cid' = id_client_id (s_id s)) then None
      else subscribed (n_router n) tf cid') ∧ n_next n' = n_next n.
Proof.
  intros cid n Hp0 Hp Hs Hr Hgone.
  (* the conversation with the old task *)
  set (n1 := if tx_is_closed n0 (e_tx p) then n0 else on_n_oneshots <[n_next n0 := OsClosed]> n).
  assert (Htalk : kick self clean_start clear is_admin wait n0 = after_answer self clean_start clear n1).
  { unfold n1. destruct (tx_is_closed n0 (e_tx p)) eqn:Hc.
    - unfold kick, entry_tx, asks, mbind at 1, M_bind at 1. fold cid. rewrite Hp0. simpl. by rewrite Hc.
    - by apply kick_talk; auto. }
  rewrite Htalk. clear Htalk.
  destruct (after_answer_spec self clean_start clear p s n1) as (n' & s' & Ha & P & C & K & Hs' & He & Hr' & Hsub & Hnext & _).
  1-3: unfold n1, n, cid in *; by destruct (tx_is_closed n0 (e_tx p)).
  exists n', s'. assert (E1 : n_peers n1 = n_peers n ∧ n_router n1 = n_router n ∧ n_chans n1 = n_chans n ∧
    n_hooks n1 = n_hooks n ∧ n_next n1 = n_next n).
  { unfold n1. unfold n in *. by destruct (tx_is_closed n0 (e_tx p)). }
  destruct E1 as (E1 & E2 & E3 & E4 & E5). rewrite Ha, P, C, K, Hnext, E1, E3, E4, E5. rewrite E2 in Hsub. done.
Qed.
End Registry.

(** ** A session with a message is taken over *)

(** Client c1 has subscribed, a message waits in its channel, and its connection
    is gone; [c1_task] is its task. *)
Definition c1_id : Id := mkId 1 0 None None (lit "c1") None 0.
Definition c1_task : Conn := sample_conn 1 false.
Definition away_node : Node :=
  (process_packets sample_server
     [PktV3 (MqttV3.PSubscribe 7 [(lit "a/+", ExactlyOnce)]);
      PktV3 (MqttV3.PPublish (sample_publish AtLeastOnce (Some 5) (lit "a/b")))] (sample_node, c1_task)).2.1.

(** The old task takes the message out of its channel, then the kick. *)
Definition c1_leaves (n : Node) : Node :=
  (offline_run_loop (E := Reason) sample_server None [OffMessage; OffMessage] (n, c1_task)).2.1.

Lemma kick_hands_over_witness :
  ∃ o n', kick c1_id false false false c1_leaves away_node = (Ok (OffExist (Some o)), n') ∧
    length (of_messages o) = 1%nat ∧ length (of_subscriptions o) = 1%nat ∧ peer n' (lit "c1") = None.
Proof.
  set (n := c1_leaves (kick_asked c1_id false false (mkEntryItem 1 1) away_node)).
  destruct (session_at n 1) as [s|] eqn:Hs; [|vm_compute in Hs; discriminate].
  assert (Hc : tx_is_closed away_node 1 = false) by (vm_compute; reflexivity).
  assert (Hr : router_inv (n_router n)).
  { assert (n_router n = (router_add (lit "a/+") c1_id (options_from_v3 ExactlyOnce None None) router_new).2)
      as -> by (vm_compute; reflexivity).
    apply (router_add_inv (lit "a/+") _ _ _ [Normal (lit "a"); SingleWildcard]); [apply router_new_inv|reflexivity]. }
  pose proof (kick_hands_over c1_id false false false c1_leaves (mkEntryItem 1 1) s away_node) as H.
  cbv zeta in H. cbn [e_tx e_s] in H. rewrite Hc in H. fold n in H.
  destruct H as (n' & s' & Hk & Hp & _); [vm_compute; reflexivity|vm_compute; reflexivity|exact Hs|exact Hr| |].
  - intros _. vm_compute. discriminate.
  - eexists _, n'. split; [exact Hk|]. cbn [of_messages of_subscriptions]. split; [|split].
    + apply (f_equal (fmap (λ s, length (q_inner (s_queue s))))) in Hs. vm_compute in Hs. by injection Hs.
    + apply (f_equal (fmap (λ s, length (iter (s_subs s))))) in Hs. vm_compute in Hs. by injection Hs.
    + unfold peer. rewrite Hp. apply lookup_delete_eq.
Defined.
