(* ===== verification/Takeover.v ===== *)
(** * Continuing a session

    What a new connection makes of the state that was handed over to it
    ([transfer_session_state]), and the consistency of the registry, the router
    and the subscriptions of sessions over their whole life. *)

From stdpp Require Import base list numbers option gmap strings.
From Stdlib Require Import ZArith Lia.
From S2P Require Import Prelude Errors CodecTypes PacketV5 Topic Counter Hash BrokerTypes Queue Inflight.
From S2P Require Import RetainStore Router Acl Alias Hook Delayed SessionSubs ConnInfo Fitter Broker Session.
From S2P Require Import SessionLoop SessionFrame Sample Registry.

#[local] Open Scope Z_scope.

Section Takeover.
Context `{B : Backend} (scx : ServerContext).

(** ** Running on a known session *)

Lemma self_ok {E} n c s : session_at n (c_ref c) = Some s → self (E := E) (n, c) = (Ok s, (n, c)).
Proof. intros H. unfold self, get_session. mrun. by rewrite H. Qed.

(** The part of the node that an operation on messages leaves alone. *)
Definition same_state (n n' : Node) : Prop :=
  n_peers n' = n_peers n ∧ n_sessions n' = n_sessions n ∧ n_router n' = n_router n ∧ n_now n' = n_now n ∧
  n_next n' = n_next n.

Lemma same_state_trans n1 n2 n3 : same_state n1 n2 → same_state n2 n3 → same_state n1 n3.
Proof. intros (? & ? & ? & ? & ?) (? & ? & ? & ? & ?). split_and!; congruence. Qed.

(** Only the session [r] changes in the registry. *)
Definition same_rest (r : Z) (n n' : Node) : Prop :=
  n_peers n' = n_peers n ∧ n_next n' = n_next n ∧ ∀ r', r' ≠ r → session_at n' r' = session_at n r'.

Lemma same_rest_trans r n1 n2 n3 : same_rest r n1 n2 → same_rest r n2 n3 → same_rest r n1 n3.
Proof.
  intros (P1 & N1 & S1) (P2 & N2 & S2). split; [congruence|]. split; [congruence|]. intros r' Hr. rewrite S2; auto.
Qed.

Lemma same_state_rest r n n' : same_state n n' → same_rest r n n'.
Proof. intros (P & S & _ & _ & N). split_and!; [done..|]. intros r' _. unfold session_at. by rewrite S. Qed.

Lemma same_rest_obj r f n : same_rest r n (on_session_obj r f n).
Proof. split_and!; [done..|]. intros r' Hne. unfold session_at, on_session_obj. simpl. by rewrite lookup_alter_ne. Qed.

(** What a message of the old window becomes. *)
Definition resent (now : Z) (cfg : ListenerConfig) (id : Id) (m : InflightMsg) : option Message :=
  match Inflight.status m with
  | UnAck | UnReceived => Some (Forward (Inflight.from m) (on_inner (set_dup true) (Inflight.publish m)))
  | UnComplete =>
      match message_expiry_check (sc_hooks scx) now (as_millis (lc_message_expiry_interval cfg)) id
              (Inflight.from m) (Inflight.publish m) with
      | Expiry => None
      | Remaining _ => Some (SendRerelease m)
      end
  end.

(** [l] was put into the open channel of the session. *)
Definition pushed (r : Z) (n n' : Node) (l : list Message) : Prop :=
  same_state n n' ∧ ∀ ms, n_chans n !! r = Some (mkChan true ms) → n_chans n' !! r = Some (mkChan true (ms ++ l)).

Lemma pushed_trans r n1 n2 n3 l1 l2 : pushed r n1 n2 l1 → pushed r n2 n3 l2 → pushed r n1 n3 (l1 ++ l2).
Proof.
  intros [S1 C1] [S2 C2]. split; [by eapply same_state_trans|]. intros ms H. rewrite app_assoc. auto.
Qed.

Lemma pushed_send r m n ms : n_chans n !! r = Some (mkChan true ms) →
  ∃ n', unbounded_send r m n = (true, n') ∧ pushed r n n' [m].
Proof.
  intros H. unfold unbounded_send, tx_is_closed. rewrite H. simpl. eexists. split; [done|]. split; [done|].
  intros ms' H'. simpl. by rewrite lookup_alter_eq, H'.
Qed.

Definition open_chan (r : Z) (n : Node) : Prop := ∃ ms, n_chans n !! r = Some (mkChan true ms).

Lemma pushed_open r n n' l : pushed r n n' l → open_chan r n → open_chan r n'.
Proof. intros [_ H] [ms Hms]. eexists. by apply H. Qed.

Lemma forward_pushes {E} from p n c s :
  session_at n (c_ref c) = Some s → open_chan (c_ref c) n →
  ∃ n', forward (E := E) from p (n, c) = (Ok tt, (n', c)) ∧ pushed (c_ref c) n n' [Forward from p].
Proof.
  intros Hs [ms Hms]. destruct (pushed_send _ (Forward from p) _ _ Hms) as (n' & Hsend & Hp).
  exists n'. split; [|done]. unfold forward, self_ref.
  unfold on_conn at 1, asks at 1, zoom at 1. unfold mbind at 1, M_bind at 1. cbn [fst snd].
  rewrite (bind_ok _ _ _ _ _ (self_ok _ _ _ Hs)). mrun. by rewrite Hsend.
Qed.

Lemma reforward_pushes {E} m n c s :
  session_at n (c_ref c) = Some s → open_chan (c_ref c) n →
  ∃ n', reforward scx (E := E) m (n, c) = (Ok tt, (n', c)) ∧
        pushed (c_ref c) n n' (option_list (resent (n_now n) (s_listen_cfg s) (s_id s) m)).
Proof.
  intros Hs Ho. unfold reforward, resent. destruct (status m); [by eapply forward_pushes..|].
  set (h := MessageExpiryCheck (s_id s) (Inflight.from m) (Inflight.publish m) : HookCall).
  set (res := message_expiry_check _ _ _ _ _ _).
  assert (Hh : hook_expiry_check scx (E := E) (Inflight.from m) (Inflight.publish m) (n, c) =
    (Ok res, (hook h n, c))).
  { unfold hook_expiry_check. by rewrite (bind_ok _ _ _ _ _ (self_ok _ _ _ Hs)). }
  rewrite (bind_ok _ _ _ _ _ Hh). assert (Hph : pushed (c_ref c) n (hook h n) []).
  { split; [done|]. intros ms Hms. by rewrite app_nil_r. }
  destruct res as [|i]; [by exists (hook h n)|].
  destruct (pushed_open _ _ _ _ Hph Ho) as [ms Hms].
  destruct (pushed_send _ (SendRerelease m) _ _ Hms) as (n' & Hsend & Hp).
  exists n'. split; [|exact (pushed_trans _ _ _ _ _ _ Hph Hp)]. mrun. by rewrite Hsend.
Qed.

(** A loop of operations that put messages into the channel. *)
Lemma for_each_pushes {A} (f : A → M (Node * Conn) Error unit) (g : A → option Message) xs n t c s :
  (∀ x n, session_at n (c_ref c) = Some s → n_now n = t → open_chan (c_ref c) n →
     ∃ n', f x (n, c) = (Ok tt, (n', c)) ∧ pushed (c_ref c) n n' (option_list (g x))) →
  session_at n (c_ref c) = Some s → n_now n = t → open_chan (c_ref c) n →
  ∃ n', for_each f xs (n, c) = (Ok tt, (n', c)) ∧ pushed (c_ref c) n n' (omap g xs).
Proof.
  intros Hf. revert n. induction xs as [|x xs IH]; intros n Hs Ht Ho.
  - exists n. split; [done|]. split; [done|]. intros ms. by rewrite app_nil_r.
  - destruct (Hf x n Hs Ht Ho) as (n1 & H1 & P1).
    destruct (IH n1) as (n2 & H2 & P2).
    { unfold session_at in *. destruct P1 as [(_ & -> & _) _]. done. }
    { destruct P1 as [(_ & _ & _ & -> & _) _]. done. }
    { by eapply pushed_open. }
    exists n2. cbn [for_each]. rewrite (bind_ok _ _ _ _ _ H1). split; [done|].
    pose proof (pushed_trans _ _ _ _ _ _ P1 P2) as P. cbn. by destruct (g x).
Qed.

(** ** Subscriptions *)

Lemma node_router_add_ok tf id opts n : router_inv (n_router n) →
  ∃ o r', node_router_add tf id opts n = (o, on_n_router (λ _, r') n) ∧ o ≠ Panic ∧ router_inv r' ∧
    (o = Ok tt ↔ is_ok (topic_from_str tf) = true) ∧
    ∀ tf' cid, subscribed r' tf' cid =
      if decide (is_ok (topic_from_str tf) = true ∧ tf' = tf ∧ cid = id_client_id id) then Some (id, opts)
      else subscribed (n_router n) tf' cid.
Proof.
  intros Hr. unfold node_router_add, router_add. destruct (topic_from_str tf) as [t|e|] eqn:Ht.
  - eexists _, _. split; [done|]. split; [done|]. split; [by apply router_add_inv|]. split; [done|].
    intros tf' cid. rewrite subscribed_add. apply decide_ext. naive_solver.
  - eexists _, (n_router n). split; [done|]. split; [done|]. split; [done|]. split; [done|].
    intros tf' cid. by rewrite decide_False by naive_solver.
  - by destruct (topic_from_str_no_panic tf).
Qed.

(** The subscription of one filter, after those of [l] were made by [id]. *)
Definition after_adds (l : list (TopicFilter * BrokerTypes.SubscriptionOptions)) (id : Id) (r : DefaultRouter)
    (tf : TopicFilter) (cid : ClientId) : option (Id * BrokerTypes.SubscriptionOptions) :=
  match (list_to_map l : gmap TopicFilter BrokerTypes.SubscriptionOptions) !! tf with
  | Some opts =>
      if decide (is_ok (topic_from_str tf) = true ∧ cid = id_client_id id) then Some (id, opts)
      else subscribed r tf cid
  | None => subscribed r tf cid
  end.

Definition resubscribe (s : Session) : TopicFilter * BrokerTypes.SubscriptionOptions → M (Node * Conn) Error unit :=
  λ '(tf, opts),
    attempt (E' := Error) (on_node (node_router_add tf (s_id s) opts));;
    nmod (on_n_tasks (λ ts, ts ++ [TaskStoredMessages (s_id s) tf (opts_qos opts) (shared_group opts)])).

Lemma resubscribe_all s l n c :
  router_inv (n_router n) → NoDup l.*1 →
  ∃ n', for_each (resubscribe s) l (n, c) = (Ok tt, (n', c)) ∧ router_inv (n_router n') ∧
    (∀ tf cid, subscribed (n_router n') tf cid = after_adds l (s_id s) (n_router n) tf cid) ∧
    n_sessions n' = n_sessions n ∧ n_chans n' = n_chans n ∧ n_peers n' = n_peers n ∧ n_now n' = n_now n ∧
    n_next n' = n_next n.
Proof.
  revert n. induction l as [|[tf opts] l IH]; intros n Hr Hnd; [by exists n|].
  apply NoDup_cons in Hnd as [Hx Hnd].
  destruct (node_router_add_ok tf (s_id s) opts n Hr) as (o & r1 & Hadd & Hnp & Hr1 & _ & Hs1).
  set (n1 := on_n_tasks (λ ts, ts ++ [TaskStoredMessages (s_id s) tf (opts_qos opts) (shared_group opts)])
               (on_n_router (λ _, r1) n)).
  assert (Hstep : resubscribe s (tf, opts) (n, c) = (Ok tt, (n1, c))).
  { unfold resubscribe. mrun. rewrite Hadd. destruct o; [done|done|]. by destruct Hnp. }
  destruct (IH n1 Hr1 Hnd) as (n' & Hrun & Hr' & Hs' & E).
  exists n'. cbn [for_each]. rewrite (bind_ok _ _ _ _ _ Hstep). split; [done|]. split; [done|]. split; [|done].
  intros tf' cid. rewrite Hs'. unfold after_adds. simpl. rewrite Hs1.
  destruct (decide (tf = tf')) as [->|Hne].
  - rewrite (not_elem_of_list_to_map_1 _ _ Hx), lookup_insert_eq. apply decide_ext. naive_solver.
  - rewrite lookup_insert_ne by done. destruct (list_to_map l !! tf'); repeat case_decide; naive_solver.
Qed.

(** Identifiers of the old window are not issued again. *)
Lemma reserve_ids {E} o n c s : session_at n (c_ref c) = Some s →
  ∃ n1 s1, (match max_transfer_id (of_inflight o) with
            | Some max_id => on_self (on_s_out (λ o, advance_next_id o max_id))
            | None => mret tt
            end : M _ E unit) (n, c) = (Ok tt, (n1, c)) ∧
    session_at n1 (c_ref c) = Some s1 ∧
    (s_id s1 = s_id s ∧ s_listen_cfg s1 = s_listen_cfg s ∧ s_queue s1 = s_queue s ∧
     entries (s_out s1) = entries (s_out s) ∧ s_subs s1 = s_subs s ∧
     s_state_flags s1 = s_state_flags s ∧ s_created_at s1 = s_created_at s) ∧
    n_router n1 = n_router n ∧ n_chans n1 = n_chans n ∧ n_now n1 = n_now n ∧ same_rest (c_ref c) n n1.
Proof.
  intros Hs. destruct (max_transfer_id (of_inflight o)) as [k|].
  - eexists _, (on_s_out (λ o, advance_next_id o k) s). split; [reflexivity|].
    split; [|do 4 (split; [done|]); apply same_rest_obj].
    unfold session_at, on_session_obj in *. simpl. by rewrite lookup_alter_eq, Hs.
  - by exists n, s.
Qed.

Lemma extend_subs r l n s : session_at n r = Some s → NoDup l.*1 →
  ∃ subs, session_at (subscriptions_extend r l n) r = Some (on_s_subs (λ _, subs) s) ∧
    (∀ tf, subs !! tf = match (list_to_map l : gmap _ _) !! tf with Some opts => Some opts | None => s_subs s !! tf end) ∧
    n_router (subscriptions_extend r l n) = n_router n ∧ n_chans (subscriptions_extend r l n) = n_chans n ∧
    n_now (subscriptions_extend r l n) = n_now n ∧ same_rest r n (subscriptions_extend r l n).
Proof.
  intros Hs Hnd. unfold subscriptions_extend, on_subs. rewrite Hs.
  pose proof (λ tf, subs_extend_spec l (s_subs s, n_sub_stats n) tf Hnd) as Hx.
  destruct (subs_extend l (s_subs s, n_sub_stats n)) as [subs st]. exists subs.
  split; [|do 4 (split; [done|]); apply (same_rest_obj r _ (on_n_sub_stats (λ _, st) n))].
  unfold session_at, on_session_obj in *. simpl. by rewrite lookup_alter_eq, Hs.
Qed.

Lemma omap_forward (l : list (From * BrokerTypes.Publish)) :
  omap (λ '(from, p), Some (Forward from p)) l = map (λ '(from, p), Forward from p) l.
Proof. induction l as [|[f p] l IH]; [done|]. cbn. by f_equal. Qed.

(** A new connection that continues a session restores all of it.  The router
    and the session have every subscription of the old session under the new
    identity; the own channel then holds first the messages of the old window,
    the last one first, each to be sent again as a duplicate, or as PUBREL
    unless it has expired, and then the messages of the old queue in order.
    Nothing else is in the channel, the queue or the window. *)
Lemma transfer_restores o n c s ms :
  session_at n (c_ref c) = Some s → n_chans n !! c_ref c = Some (mkChan true ms) →
  router_inv (n_router n) → NoDup (of_subscriptions o).*1 →
  ∃ n' s', transfer_session_state scx false o (n, c) = (Ok tt, (n', c)) ∧
    n_chans n' !! c_ref c = Some (mkChan true (ms ++ omap (resent (n_now n) (s_listen_cfg s) (s_id s)) (reverse (of_inflight o)) ++
                                               map (λ '(from, p), Forward from p) (of_messages o))) ∧
    session_at n' (c_ref c) = Some s' ∧ s_id s' = s_id s ∧
    (s_state_flags s' = s_state_flags s ∧ s_created_at s' = s_created_at s) ∧ s_queue s' = s_queue s ∧
    entries (s_out s') = entries (s_out s) ∧
    (∀ tf, s_subs s' !! tf = match (list_to_map (of_subscriptions o) : gmap _ _) !! tf with
                             | Some opts => Some opts | None => s_subs s !! tf end) ∧
    router_inv (n_router n') ∧
    (∀ tf cid, subscribed (n_router n') tf cid = after_adds (of_subscriptions o) (s_id s) (n_router n) tf cid) ∧
    n_peers n' = n_peers n ∧ n_next n' = n_next n ∧
    ∀ r, r ≠ c_ref c → session_at n' r = session_at n r.
Proof.
  intros Hs Hch Hr Hnd. unfold transfer_session_state.
  rewrite (bind_ok _ _ _ _ _ (self_ok _ _ _ Hs)).
  destruct (reserve_ids (E := Error) o n c s Hs) as (n1 & s1 & H1 & Hs1 & (I1 & I2 & I3 & I4 & I5 & I6 & I7) & R1 & C1 & T1 & O1).
  rewrite (bind_ok _ _ _ _ _ (eq_refl : self_ref (E := Error) (n, c) = (Ok (c_ref c), (n, c)))).
  rewrite (bind_ok _ _ _ _ _ H1). rewrite <-R1 in Hr.
  destruct (resubscribe_all s (of_subscriptions o) n1 c Hr Hnd) as (n2 & H2 & Hr2 & Hs2 & E1 & E2 & E3 & E4 & E5).
  destruct (extend_subs (c_ref c) (of_subscriptions o) n2 s1) as (subs & Hs3 & Hsubs & R3 & C3 & T3 & O3).
  { unfold session_at. by rewrite E1. } { done. }
  set (n3 := subscriptions_extend (c_ref c) (of_subscriptions o) n2) in *.
  set (s3 := on_s_subs (λ _, subs) s1) in *.
  assert (Hmid : (for_each (resubscribe s) (of_subscriptions o);;
    nmod (subscriptions_extend (c_ref c) (of_subscriptions o))) (n1, c) = (Ok tt, (n3, c))).
  { by rewrite (bind_ok _ _ _ _ _ H2). }
  unfold resubscribe in Hmid. rewrite (bind_ok _ _ _ _ _ Hmid).
  assert (Ho3 : open_chan (c_ref c) n3) by (exists ms; by rewrite C3, E2, C1).
  assert (Hn3 : n_now n3 = n_now n) by congruence.
  destruct (for_each_pushes (reforward scx) (resent (n_now n) (s_listen_cfg s) (s_id s)) (reverse (of_inflight o)) n3 (n_now n) c s3)
    as (n4 & H4 & P4); [|done..|].
  { intros m n' Hs' Ht Ho. destruct (reforward_pushes (E := Error) m n' c s3 Hs' Ho) as (n'' & ? & ?).
    exists n''. split; [done|]. rewrite <-Ht, <-I1, <-I2. done. }
  rewrite (bind_ok _ _ _ _ _ H4).
  assert (Hs4 : session_at n4 (c_ref c) = Some s3) by (destruct P4 as [(_ & E & _) _]; unfold session_at; by rewrite E).
  destruct (for_each_pushes (λ '(from, p), forward from p) (λ '(from, p), Some (Forward from p)) (of_messages o)
    n4 (n_now n) c s3) as (n5 & H5 & P5); [|done| |by eapply pushed_open|].
  { intros [f p] n' Hs' _ Ho. by eapply forward_pushes. }
  { destruct P4 as [(_ & _ & _ & -> & _) _]. done. }
  pose proof (pushed_trans _ _ _ _ _ _ P4 P5) as [Hsame Hpush].
  pose proof Hsame as (_ & Es & Er & _).
  exists n5, s3. split; [exact H5|]. split.
  { rewrite (Hpush ms) by (by rewrite C3, E2, C1). do 4 f_equal. by rewrite omap_forward. }
  split; [unfold session_at; by rewrite Es|]. split; [done|]. split; [done|]. split; [done|]. split; [done|].
  split; [intros tf; unfold s3; simpl; by rewrite Hsubs, I5|].
  rewrite Er, R3. split; [done|]. split; [intros tf cid; rewrite Hs2; unfold after_adds; by rewrite R1|].
  apply (same_rest_trans _ _ _ _ O1), (same_rest_trans _ _ n2).
  { split; [done|]. split; [done|]. intros r _. unfold session_at. by rewrite E1. }
  apply (same_rest_trans _ _ _ _ O3), same_state_rest, Hsame.
Qed.
End Takeover.
