(* ===== verification/Lifecycle.v ===== *)
(** * Registry, router and sessions agree

    Over the life of all sessions of a node: when clients come, subscribe,
    unsubscribe, are taken over and go, the router has exactly the
    subscriptions of the registered sessions, under their identities. *)

From stdpp Require Import base list numbers option gmap strings relations.
From Stdlib Require Import ZArith Lia.
From S2P Require Import Prelude Errors CodecTypes PacketV5 Topic Counter Hash BrokerTypes Queue Inflight.
From S2P Require Import RetainStore Router Acl Alias Hook Delayed SessionSubs ConnInfo Fitter Broker Session.
From S2P Require Import SessionLoop SessionFrame Sample SessionQos Delivery Registry Takeover.

#[local] Open Scope Z_scope.

Section Lifecycle.
Context `{B : Backend} (scx : ServerContext).

(** ** Subscribing and unsubscribing *)

Lemma subscriptions_add_spec r tf opts n s : session_at n r = Some s →
  ∃ st, subscriptions_add r tf opts n = (s_subs s !! tf,
    on_session_obj r (on_s_subs (λ _, <[tf := opts]> (s_subs s))) (on_n_sub_stats (λ _, st) n)).
Proof. intros Hs. unfold subscriptions_add, on_subs. rewrite Hs. simpl. by eexists. Qed.

Lemma subscriptions_remove_spec r tf n s : session_at n r = Some s →
  ∃ o st, subscriptions_remove r tf n = (o,
    on_session_obj r (on_s_subs (λ _, delete tf (s_subs s))) (on_n_sub_stats (λ _, st) n)) ∧
    is_some o = is_some (s_subs s !! tf).
Proof.
  intros Hs. unfold subscriptions_remove, on_subs. rewrite Hs. simpl.
  destruct (s_subs s !! tf) eqn:E; [by eexists _, _|]. eexists _, _. by rewrite delete_id.
Qed.

Lemma entry_subscribe_spec self sub n p s :
  peer n (id_client_id self) = Some p → session_at n (e_s p) = Some s → router_inv (n_router n) →
  id_node_id (s_id s) = sc_node_id scx →
  match topic_from_str (s_topic_filter sub) with
  | Ok _ =>
      ∃ r' st, entry_subscribe scx self sub n =
          (Ok (new_success (opts_qos (s_opts sub)) (s_subs s !! s_topic_filter sub)),
           on_session_obj (e_s p) (on_s_subs (λ _, <[s_topic_filter sub := s_opts sub]> (s_subs s)))
             (on_n_sub_stats (λ _, st) (on_n_router (λ _, r') n))) ∧
        router_inv r' ∧
        ∀ tf cid, subscribed r' tf cid =
          if decide (tf = s_topic_filter sub ∧ cid = id_client_id self) then Some (self, s_opts sub)
          else subscribed (n_router n) tf cid
  | Err e => entry_subscribe scx self sub n = (Err (error_of_topic e), n)
  | Panic => False
  end.
Proof.
  intros Hp Hs Hr Hn.
  destruct (topic_from_str (s_topic_filter sub)) as [t|e|] eqn:Ht; [| |by destruct (topic_from_str_no_panic (s_topic_filter sub))].
  - destruct (node_router_add_ok (s_topic_filter sub) self (s_opts sub) n Hr) as (o & r' & Hadd & _ & Hr' & Ho & Hsub).
    rewrite Ht in Ho, Hsub. destruct Ho as [_ Ho]. rewrite (Ho eq_refl) in Hadd.
    destruct (subscriptions_add_spec (e_s p) (s_topic_filter sub) (s_opts sub) (on_n_router (λ _, r') n) s Hs) as (st & Hold).
    exists r', st. split; [|split; [done|]].
    + unfold entry_subscribe, get_session. mrun. rewrite Hp, Hs, Hn, Z.eqb_refl. cbn [negb].
      by rewrite Hadd, Hold.
    + intros tf cid. rewrite Hsub. apply decide_ext. naive_solver.
  - unfold entry_subscribe, node_router_add, router_add, get_session. mrun. rewrite Hp, Hs, Hn, Z.eqb_refl, Ht. by destruct n.
Qed.

Lemma entry_unsubscribe_spec self unsub n p s :
  peer n (id_client_id self) = Some p → session_at n (e_s p) = Some s → router_inv (n_router n) →
  ∃ r' st, entry_unsubscribe self unsub n =
      (Ok (is_some (s_subs s !! u_topic_filter unsub)),
       on_session_obj (e_s p) (on_s_subs (λ _, delete (u_topic_filter unsub) (s_subs s)))
         (on_n_sub_stats (λ _, st) (on_n_router (λ _, r') n))) ∧
    router_inv r' ∧
    ∀ tf cid, subscribed r' tf cid =
      if decide (removable (n_router n) (u_topic_filter unsub) self = true ∧ tf = u_topic_filter unsub ∧
                 cid = id_client_id self) then None
      else subscribed (n_router n) tf cid.
Proof.
  intros Hp Hs Hr. destruct (node_router_remove_ok (u_topic_filter unsub) self n Hr) as (b & r' & Hrm & Hr' & Hsub).
  destruct (subscriptions_remove_spec (e_s p) (u_topic_filter unsub) (on_n_router (λ _, r') n) s Hs) as (o & st & Hold & Ho).
  exists r', st. split; [|done]. unfold entry_unsubscribe. mrun. by rewrite Hp, Hrm, Hold, Ho.
Qed.

(** ** Agreement *)

(** The router has the subscriptions of the session for its client, and no others. *)
Definition agrees (r : DefaultRouter) (cid : ClientId) (s : Session) : Prop :=
  id_client_id (s_id s) = cid ∧
  ∀ tf opts, s_subs s !! tf = Some opts ↔ subscribed r tf cid = Some (s_id s, opts).

Record consistent (n : Node) : Prop := mkConsistent {
  co_router : router_inv (n_router n);
  co_fresh : ∀ r, is_Some (session_at n r) → r < n_next n;
  co_entries : ∀ cid p, peer n cid = Some p →
    ∃ s, session_at n (e_s p) = Some s ∧ agrees (n_router n) cid s;
}.

(** One session and the router change. *)
Lemma consistent_update n n' cid p s s' :
  consistent n → peer n cid = Some p → session_at n (e_s p) = Some s →
  n_peers n' = n_peers n → n_next n' = n_next n → router_inv (n_router n') →
  (∀ r, session_at n' r = if decide (r = e_s p) then Some s' else session_at n r) →
  agrees (n_router n') cid s' →
  (∀ tf cid', cid' ≠ cid → subscribed (n_router n') tf cid' = subscribed (n_router n) tf cid') →
  consistent n'.
Proof.
  intros [Hr Hf He] Hp Hs Ep En Hr' Hs' Ha Hother. split; [done| |].
  - intros r. rewrite Hs', En. case_decide as Hd; [|apply Hf]. subst r. intros _. apply Hf. by rewrite Hs.
  - intros cid' p' Hp'. unfold peer in *. rewrite Ep in Hp'. destruct (He _ _ Hp') as (s0 & Hs0 & Hc0 & Ha0).
    rewrite Hs'. case_decide as Hd.
    + rewrite Hd in Hs0. assert (s0 = s) as -> by congruence. destruct (He _ _ Hp) as (s1 & Hs1 & Hc1 & _).
      assert (s1 = s) as -> by congruence. exists s'. split; [done|]. by rewrite <-Hc0, Hc1.
    + exists s0. split; [done|]. split; [done|]. intros tf opts. rewrite Ha0.
      destruct (decide (cid' = cid)) as [->|Hne]; [congruence|]. by rewrite Hother.
Qed.

Lemma session_at_obj r f n r' :
  session_at (on_session_obj r f n) r' = if decide (r' = r) then f <$> session_at n r else session_at n r'.
Proof.
  unfold session_at, on_session_obj. simpl. rewrite lookup_alter. repeat case_decide; naive_solver.
Qed.

Lemma consistent_subscribe n cid p s sub :
  consistent n → peer n cid = Some p → session_at n (e_s p) = Some s → id_node_id (s_id s) = sc_node_id scx →
  consistent (entry_subscribe scx (s_id s) sub n).2.
Proof.
  intros Hc Hp Hs Hn. destruct (co_entries n Hc _ _ Hp) as (s0 & Hs0 & Hcid & Ha).
  assert (s0 = s) as -> by congruence. subst cid.
  pose proof (entry_subscribe_spec (s_id s) sub n p s Hp Hs (co_router n Hc) Hn) as H.
  destruct (topic_from_str (s_topic_filter sub)); [|by rewrite H|done].
  destruct H as (r' & st & -> & Hr' & Hsub). cbn [snd].
  apply (consistent_update n _ (id_client_id (s_id s)) p s
    (on_s_subs (λ _, <[s_topic_filter sub := s_opts sub]> (s_subs s)) s)); try done.
  - intros r. rewrite session_at_obj. destruct (decide (r = e_s p)) as [->|]; [|done]. unfold session_at in *. simpl. by rewrite Hs.
  - split; [done|]. intros tf opts. cbn [n_router on_session_obj on_n_sessions on_n_sub_stats on_n_router].
    rewrite Hsub. cbn [s_subs on_s_subs]. rewrite lookup_insert. repeat case_decide; naive_solver.
  - intros tf cid' Hne. cbn [n_router on_session_obj on_n_sessions on_n_sub_stats on_n_router].
    rewrite Hsub. by rewrite decide_False by naive_solver.
Qed.

Lemma consistent_unsubscribe n cid p s unsub :
  consistent n → peer n cid = Some p → session_at n (e_s p) = Some s →
  consistent (entry_unsubscribe (s_id s) unsub n).2.
Proof.
  intros Hc Hp Hs. destruct (co_entries n Hc _ _ Hp) as (s0 & Hs0 & Hcid & Ha).
  assert (s0 = s) as -> by congruence. subst cid.
  destruct (entry_unsubscribe_spec (s_id s) unsub n p s Hp Hs (co_router n Hc)) as (r' & st & -> & Hr' & Hsub).
  cbn [snd].
  apply (consistent_update n _ (id_client_id (s_id s)) p s (on_s_subs (λ _, delete (u_topic_filter unsub) (s_subs s)) s)); try done.
  - intros r. rewrite session_at_obj. destruct (decide (r = e_s p)) as [->|]; [|done]. unfold session_at in *. simpl. by rewrite Hs.
  - split; [done|]. intros tf opts. cbn [n_router on_session_obj on_n_sessions on_n_sub_stats on_n_router].
    rewrite Hsub. clear Hsub. cbn [s_subs on_s_subs s_id]. rewrite lookup_delete.
    destruct (decide (u_topic_filter unsub = tf)) as [<-|Hne].
    + destruct (decide (removable _ _ _ = true ∧ _)) as [|H2]; [done|]. split; [done|]. intros H3. destruct H2.
      unfold removable. rewrite H3. by rewrite bool_decide_true.
    + rewrite Ha. by rewrite decide_False by naive_solver.
  - intros tf cid' Hne. cbn [n_router on_session_obj on_n_sessions on_n_sub_stats on_n_router].
    rewrite Hsub. by rewrite decide_False by naive_solver.
Qed.

Context `{!BackendOk B}.

Lemma consistent_leave n self clean_start clear :
  consistent n → consistent (after_answer self clean_start clear n).2.
Proof.
  intros Hc. destruct (peer n (id_client_id self)) as [p|] eqn:Hp.
  2: { unfold after_answer, _remove. mrun. by rewrite Hp. }
  destruct (co_entries n Hc _ _ Hp) as (s & Hs & Hcid & Ha).
  destruct (after_answer_spec self clean_start clear p s n Hp Hs (co_router n Hc))
    as (n' & s' & -> & P & _ & _ & Hs' & _ & Hr' & Hsub & Hnext & Hother). cbn [snd].
  split; [done| |].
  - intros r. rewrite Hnext. destruct (decide (r = e_s p)) as [->|Hne].
    + intros _. apply (co_fresh n Hc). by rewrite Hs.
    + rewrite Hother by done. apply (co_fresh n Hc).
  - intros cid p' Hp'. unfold peer in Hp'. rewrite P in Hp'. apply lookup_delete_Some in Hp' as [Hne Hp'].
    destruct (co_entries n Hc _ _ Hp') as (s0 & Hs0 & Hcid0 & Ha0).
    assert (e_s p' ≠ e_s p) by congruence.
    exists s0. rewrite Hother by done. split; [done|]. split; [done|]. intros tf opts. rewrite Ha0, Hsub.
    rewrite decide_False; [done|]. intros (_ & _ & _ & Heq). congruence.
Qed.

Lemma consistent_enter n id mq cfg auth inflight created ci present superuser now :
  consistent n → peer n (id_client_id id) = None →
  (∀ tf opts, subscribed (n_router n) tf (id_client_id id) ≠ Some (id, opts)) →
  let '(r, n') := session_new id mq cfg auth inflight created ci present superuser true now ∅ None n in
  consistent (entry_set id r r (on_n_chans <[r := mkChan true []]> n')).
Proof.
  intros Hc Hp Hfresh. unfold session_new, fresh. split; [apply (co_router n Hc)| |].
  - intros r. unfold session_at. simpl. rewrite lookup_insert. case_decide; [lia|]. intros Hr.
    apply (co_fresh n Hc) in Hr. lia.
  - intros cid p. unfold peer, entry_set, session_at. simpl. rewrite lookup_insert. case_decide as Hd.
    + intros [= <-]. rewrite lookup_insert_eq. eexists. split; [done|]. split; [done|]. intros tf opts. simpl.
      rewrite lookup_empty, <-Hd. split; [done|]. by intros ?%Hfresh.
    + intros Hp'. destruct (co_entries n Hc _ _ Hp') as (s0 & Hs0 & Ha0). exists s0.
      rewrite lookup_insert_ne; [done|]. intros Heq.
      assert (e_s p < n_next n) by (apply (co_fresh n Hc); by rewrite Hs0). simpl in *. lia.
Qed.

Lemma consistent_continue n c tx s o ms :
  consistent n → peer n (id_client_id (s_id s)) = Some (mkEntryItem (c_ref c) tx) →
  session_at n (c_ref c) = Some s → n_chans n !! c_ref c = Some (mkChan true ms) →
  NoDup (of_subscriptions o).*1 → Forall (λ sub, is_ok (topic_from_str sub.1) = true) (of_subscriptions o) →
  consistent (transfer_session_state scx false o (n, c)).2.1.
Proof.
  intros Hc Hp Hs Hch Hnd Hok. destruct (co_entries n Hc _ _ Hp) as (s0 & Hs0 & _ & Ha).
  simpl in Hs0. assert (s0 = s) as -> by congruence.
  destruct (transfer_restores scx o n c s ms Hs Hch (co_router n Hc) Hnd)
    as (n' & s' & -> & _ & Hs' & Hid & _ & _ & _ & Hsubs & Hr' & Hsub & Hpeers & Hnext & Hother). cbn [fst snd].
  apply (consistent_update n n' (id_client_id (s_id s)) (mkEntryItem (c_ref c) tx) s s'); try done.
  - intros r. simpl. destruct (decide (r = c_ref c)) as [->|]; auto.
  - split; [by rewrite Hid|]. intros tf opts. rewrite Hsubs, Hsub, Hid. unfold after_adds.
    destruct (list_to_map (of_subscriptions o) !! tf) as [opts'|] eqn:E; [|apply Ha].
    apply elem_of_list_to_map_2 in E. rewrite Forall_forall in Hok. apply Hok in E. simpl in E.
    rewrite decide_True by done. naive_solver.
  - intros tf cid' Hne. rewrite Hsub. unfold after_adds. destruct (_ !! tf); [|done].
    rewrite decide_False; [done|]. by intros [_ ?].
Qed.

Lemma consistent_drop n r : consistent n → (∀ cid p, peer n cid = Some p → e_s p ≠ r) → consistent (session_drop r n).
Proof.
  intros Hc Hr. unfold session_drop. destruct (session_at n r) as [s|] eqn:Hs; [|done].
  destruct (subs_clear _) as [m st]. split; [apply (co_router n Hc)| |].
  - intros r' [s' H]. unfold session_at in H. simpl in H. apply lookup_delete_Some in H as [_ H].
    apply (co_fresh n Hc). by exists s'.
  - intros cid p Hp. destruct (co_entries n Hc _ _ Hp) as (s' & Hs' & Ha). exists s'. split; [|done].
    unfold session_at in *. simpl. rewrite lookup_delete_ne; [done|]. intros Heq. by apply (Hr _ _ Hp).
Qed.

Lemma consistent_other n n' :
  n_peers n' = n_peers n → n_router n' = n_router n → n_next n ≤ n_next n' →
  (∀ r, (λ s, (s_id s, s_subs s)) <$> session_at n' r = (λ s, (s_id s, s_subs s)) <$> session_at n r) →
  consistent n → consistent n'.
Proof.
  intros Ep Er En Es Hc. split; [rewrite Er; apply (co_router n Hc)| |].
  - intros r [s' Hr]. specialize (Es r). rewrite Hr in Es. destruct (session_at n r) as [s|] eqn:Hs; [|done].
    assert (r < n_next n) by (apply (co_fresh n Hc); by rewrite Hs). lia.
  - intros cid p Hp. unfold peer in Hp. rewrite Ep in Hp. destruct (co_entries n Hc _ _ Hp) as (s & Hs & Hcid & Ha).
    specialize (Es (e_s p)). rewrite Hs in Es. destruct (session_at n' (e_s p)) as [s'|]; [|done].
    injection Es as E1 E2. exists s'. split; [done|]. unfold agrees. by rewrite Er, E1, E2.
Qed.

(** ** What the router holds *)

(** What the router should hold for a client: the subscriptions of its session. *)
Abbreviation Filed := (gmap TopicFilter (Id * BrokerTypes.SubscriptionOptions)).
Definition filed (s : Session) : Filed := (λ opts, (s_id s, opts)) <$> s_subs s.
Definition registered (n : Node) (cid : ClientId) : option Session := p ← peer n cid; session_at n (e_s p).
Definition own (n : Node) (cid : ClientId) : Filed := from_option filed ∅ (registered n cid).

(** Besides, it keeps those of sessions that were taken over and whose successors
    have not come to take them up. *)
Abbreviation Owed := (ClientId → Filed).
Definition owe (n : Node) (cid : ClientId) (w : Owed) : Owed := λ c, if decide (c = cid) then own n c ∪ w c else w c.
Definition settle (cid : ClientId) (tfs : list TopicFilter) (w : Owed) : Owed :=
  λ c, if decide (c = cid) then foldr delete (w c) tfs else w c.

(** The events in the life of the sessions of a node, each the operation that
    the code runs for it. *)
Inductive life : Node * Owed → Node * Owed → Prop :=
(** a new session is registered for a client that has none, under an identity
    that the router does not know *)
| life_enter n w id mq cfg auth inflight created ci present superuser now r n' :
    peer n (id_client_id id) = None →
    (∀ tf opts, subscribed (n_router n) tf (id_client_id id) ≠ Some (id, opts)) →
    session_new id mq cfg auth inflight created ci present superuser true now ∅ None n = (r, n') →
    life (n, w) (entry_set id r r (on_n_chans <[r := mkChan true []]> n'), w)
(** a filter that parses replaces what the router has for the client *)
| life_subscribe n w cid p s sub :
    peer n cid = Some p → session_at n (e_s p) = Some s → id_node_id (s_id s) = sc_node_id scx →
    life (n, w) ((entry_subscribe scx (s_id s) sub n).2,
                 if is_ok (topic_from_str (s_topic_filter sub)) then settle cid [s_topic_filter sub] w else w)
| life_unsubscribe n w cid p s unsub :
    peer n cid = Some p → session_at n (e_s p) = Some s →
    life (n, w) ((entry_unsubscribe (s_id s) unsub n).2, w)
(** the end of a kick: the session is taken out, and emptied if it is handed over;
    its subscriptions stay in the router only if they are not to be cleared *)
| life_leave n w self clean_start clear :
    life (n, w) ((after_answer self clean_start clear n).2, if clear then w else owe n (id_client_id self) w)
(** the end of a session that is not taken over *)
| life_end n w self : life (n, w) ((_remove_with true self self n).2, w)
(** a registered session continues one that was handed over *)
| life_continue n w c tx s o ms :
    peer n (id_client_id (s_id s)) = Some (mkEntryItem (c_ref c) tx) →
    session_at n (c_ref c) = Some s → n_chans n !! c_ref c = Some (mkChan true ms) →
    NoDup (of_subscriptions o).*1 → Forall (λ sub, is_ok (topic_from_str sub.1) = true) (of_subscriptions o) →
    life (n, w) ((transfer_session_state scx false o (n, c)).2.1,
                 settle (id_client_id (s_id s)) (of_subscriptions o).*1 w)
(** the last reference to a session that is not registered is dropped *)
| life_drop n w r : (∀ cid p, peer n cid = Some p → e_s p ≠ r) → life (n, w) (session_drop r n, w)
(** everything else: messages, queues, windows, timers *)
| life_other n w n' :
    n_peers n' = n_peers n → n_router n' = n_router n → n_next n ≤ n_next n' →
    (∀ r, (λ s, (s_id s, s_subs s)) <$> session_at n' r = (λ s, (s_id s, s_subs s)) <$> session_at n r) →
    life (n, w) (n', w).

(** The router holds exactly this; no subscription is both owed and owned, and a
    session owns what is under its identity. *)
Record accounted (st : Node * Owed) : Prop := mkAccounted {
  ac_consistent : consistent st.1;
  ac_router : ∀ tf cid, subscribed (n_router st.1) tf cid = (own st.1 cid ∪ st.2 cid) !! tf;
  ac_disjoint : ∀ cid, own st.1 cid ##ₘ st.2 cid;
  ac_fresh : ∀ cid s tf opts, registered st.1 cid = Some s → st.2 cid !! tf ≠ Some (s_id s, opts);
}.

Lemma registered_at n cid p s : peer n cid = Some p → session_at n (e_s p) = Some s → registered n cid = Some s.
Proof. intros Hp Hs. unfold registered. by rewrite Hp. Qed.

Lemma own_registered n cid s : registered n cid = Some s → own n cid = filed s.
Proof. intros H. unfold own. by rewrite H. Qed.

Lemma registered_cid n cid s : consistent n → registered n cid = Some s → id_client_id (s_id s) = cid.
Proof.
  intros Hc H. unfold registered in H. destruct (peer n cid) as [p|] eqn:Hp; [|done]. simpl in H.
  destruct (co_entries n Hc _ _ Hp) as (s' & Hs' & Hcid & _). congruence.
Qed.

(** A step that changes what one client owns and is owed. *)
Lemma accounted_step n w n' w' cid :
  accounted (n, w) → consistent n' →
  (∀ c, c ≠ cid → (λ s, (s_id s, s_subs s)) <$> registered n' c = (λ s, (s_id s, s_subs s)) <$> registered n c) →
  (∀ c, c ≠ cid → w' c = w c) →
  (∀ tf c, c ≠ cid → subscribed (n_router n') tf c = subscribed (n_router n) tf c) →
  (∀ tf, subscribed (n_router n') tf cid = (own n' cid ∪ w' cid) !! tf) →
  own n' cid ##ₘ w' cid → (∀ s tf opts, registered n' cid = Some s → w' cid !! tf ≠ Some (s_id s, opts)) →
  accounted (n', w').
Proof.
  intros [Hc Hr Hd Hf] Hc' Ereg Ew Er Hr' Hd' Hf'.
  assert (∀ c, c ≠ cid → own n' c = own n c) as Eown.
  { intros c Hne. specialize (Ereg c Hne). unfold own, filed. destruct (registered n' c), (registered n c); try done.
    simpl. by injection Ereg as -> ->. }
  split; cbn [fst snd] in *; [done|..].
  - intros tf c. destruct (decide (c = cid)) as [->|Hne]; [done|]. by rewrite Er, Eown, Ew, Hr.
  - intros c. destruct (decide (c = cid)) as [->|Hne]; [done|]. by rewrite Eown, Ew.
  - intros c s tf opts Hs. destruct (decide (c = cid)) as [->|Hne]; [by apply Hf'|]. rewrite Ew by done.
    specialize (Ereg c Hne). rewrite Hs in Ereg. destruct (registered n c) as [s0|] eqn:Hs0; [|done].
    injection Ereg as -> _. by apply (Hf c).
Qed.

Lemma lookup_foldr_delete (m : Filed) tfs tf : foldr delete m tfs !! tf = if decide (tf ∈ tfs) then None else m !! tf.
Proof.
  induction tfs as [|t tfs IH]; cbn; [by rewrite decide_False by apply not_elem_of_nil|].
  rewrite lookup_delete, IH. repeat case_decide; try done; exfalso; rewrite elem_of_cons in *; naive_solver.
Qed.

Lemma settle_at cid tfs w tf : settle cid tfs w cid !! tf = if decide (tf ∈ tfs) then None else w cid !! tf.
Proof. unfold settle. rewrite decide_True by done. apply lookup_foldr_delete. Qed.

Lemma settle_other cid tfs w c : c ≠ cid → settle cid tfs w c = w c.
Proof. intros. unfold settle. by rewrite decide_False. Qed.

Lemma registered_after n n' cid p s s' c :
  consistent n → peer n cid = Some p → session_at n (e_s p) = Some s → n_peers n' = n_peers n →
  (∀ r, session_at n' r = if decide (r = e_s p) then Some s' else session_at n r) →
  registered n' c = if decide (c = cid) then Some s' else registered n c.
Proof.
  intros Hc Hp Hs Ep Es. unfold registered, peer in *. rewrite Ep. case_decide as Hd.
  - subst c. rewrite Hp. simpl. by rewrite Es, decide_True.
  - destruct (n_peers n !! c) as [p'|] eqn:Hp'; [|done]. simpl. rewrite Es. case_decide as He; [|done]. exfalso.
    destruct (co_entries n Hc _ _ Hp) as (s1 & Hs1 & H1 & _), (co_entries n Hc _ _ Hp') as (s2 & Hs2 & H2 & _). congruence.
Qed.

(** The registered session of a client takes subscriptions over, or gives some
    up. *)
Lemma accounted_change n w n' w' p s s' cid :
  accounted (n, w) → consistent n' → peer n cid = Some p → session_at n (e_s p) = Some s → s_id s' = s_id s →
  n_peers n' = n_peers n → (∀ r, session_at n' r = if decide (r = e_s p) then Some s' else session_at n r) →
  (∀ c, c ≠ cid → w' c = w c) →
  (∀ tf c, c ≠ cid → subscribed (n_router n') tf c = subscribed (n_router n) tf c) →
  (∀ tf, w' cid !! tf = None ∨ w' cid !! tf = w cid !! tf ∧ s_subs s' !! tf = None) →
  (∀ tf, subscribed (n_router n') tf cid =
     match s_subs s' !! tf with Some opts => Some (s_id s, opts) | None => w' cid !! tf end) →
  accounted (n', w').
Proof.
  intros Ha Hc' Hp Hs Hid Ep Es Ew Er Hw Hr'.
  pose proof (λ c, registered_after n n' cid p s s' c (ac_consistent _ Ha) Hp Hs Ep Es) as Hreg.
  assert (own n' cid = filed s') as Hown by (apply own_registered; by rewrite Hreg, decide_True).
  apply (accounted_step n w n' w' cid); try done; rewrite ?Hown.
  - intros c Hne. by rewrite Hreg, decide_False.
  - intros tf. rewrite Hr', lookup_union. unfold filed. rewrite lookup_fmap, Hid.
    destruct (s_subs s' !! tf); simpl; [by rewrite union_Some_l|]. by destruct (w' cid !! tf).
  - apply map_disjoint_spec. intros tf x y Hx Hy. unfold filed in Hx. rewrite lookup_fmap in Hx.
    destruct (Hw tf) as [Hn|[_ Hn]]; [congruence|]. by rewrite Hn in Hx.
  - intros s0 tf opts. rewrite Hreg, decide_True by done. intros [= <-]. rewrite Hid. intros Hx.
    destruct (Hw tf) as [Hn|[Hn _]]; [congruence|]. rewrite Hn in Hx.
    by apply (ac_fresh _ Ha cid s tf opts (registered_at _ _ _ _ Hp Hs)).
Qed.

(** What the router has for a client whose session is registered. *)
Lemma accounted_at n w cid s tf : accounted (n, w) → registered n cid = Some s →
  subscribed (n_router n) tf cid =
    match s_subs s !! tf with Some opts => Some (s_id s, opts) | None => w cid !! tf end ∧
  (is_Some (s_subs s !! tf) → w cid !! tf = None).
Proof.
  intros Ha Hs. pose proof (ac_router _ Ha tf cid) as Hr. pose proof (ac_disjoint _ Ha cid) as Hd. cbn [fst snd] in *.
  rewrite (own_registered _ _ _ Hs) in Hr, Hd. rewrite lookup_union in Hr. specialize (Hd tf). revert Hr Hd.
  unfold filed. rewrite lookup_fmap. destruct (s_subs s !! tf), (w cid !! tf); simpl; naive_solver.
Qed.

Lemma registered_removable n w cid s tf : accounted (n, w) → registered n cid = Some s →
  removable (n_router n) tf (s_id s) = is_some (s_subs s !! tf).
Proof.
  intros Ha Hs. pose proof (registered_cid _ _ _ (ac_consistent _ Ha) Hs) as Hcid.
  destruct (accounted_at n w cid s tf Ha Hs) as [Hr _]. unfold removable. rewrite Hcid, Hr.
  destruct (s_subs s !! tf); simpl; [by apply bool_decide_eq_true|].
  destruct (w cid !! tf) as [[id opts]|] eqn:Hw; [|done]. apply bool_decide_eq_false. intros ->.
  by apply (ac_fresh _ Ha cid s tf opts Hs).
Qed.

(** *** The steps *)

Lemma accounted_subscribe n w cid p s sub :
  accounted (n, w) → peer n cid = Some p → session_at n (e_s p) = Some s → id_node_id (s_id s) = sc_node_id scx →
  accounted ((entry_subscribe scx (s_id s) sub n).2,
             if is_ok (topic_from_str (s_topic_filter sub)) then settle cid [s_topic_filter sub] w else w).
Proof.
  intros Ha Hp Hs Hn. pose proof (ac_consistent _ Ha) as Hc. cbn [fst] in Hc.
  pose proof (registered_at _ _ _ _ Hp Hs) as Hreg. pose proof (registered_cid _ _ _ Hc Hreg) as Hcid.
  pose proof (consistent_subscribe n cid p s sub Hc Hp Hs Hn) as Hc'. subst cid.
  pose proof (entry_subscribe_spec (s_id s) sub n p s Hp Hs (co_router n Hc) Hn) as H.
  destruct (topic_from_str (s_topic_filter sub)) eqn:Ht; [|by rewrite H|done].
  destruct H as (r' & st & E & _ & Hsub). rewrite E in *. cbn [snd is_ok] in *.
  apply (accounted_change n w _ _ p s
    (on_s_subs (λ _, <[s_topic_filter sub := s_opts sub]> (s_subs s)) s) (id_client_id (s_id s))); try done.
  - intros r. rewrite session_at_obj. case_decide; [subst|done]. unfold session_at in *. simpl. by rewrite Hs.
  - intros c Hne. by apply settle_other.
  - intros tf c Hne. cbn. rewrite Hsub. by rewrite decide_False by naive_solver.
  - intros tf. rewrite settle_at. cbn [s_subs on_s_subs]. rewrite lookup_insert.
    destruct (decide (tf = s_topic_filter sub)) as [->|Hne].
    + left. by rewrite decide_True by (by apply list_elem_of_singleton).
    + rewrite decide_False by (by rewrite list_elem_of_singleton). rewrite decide_False by done.
      destruct (accounted_at n w _ s tf Ha Hreg) as [_ Hw]. destruct (s_subs s !! tf); [left; auto|by right].
  - intros tf. cbn [n_router on_session_obj on_n_sessions on_n_sub_stats on_n_router s_subs on_s_subs].
    rewrite Hsub, settle_at, lookup_insert, (decide_ext (tf ∈ [s_topic_filter sub]) (tf = s_topic_filter sub)) by apply list_elem_of_singleton.
    destruct (decide (tf = s_topic_filter sub)) as [->|Hne]; [by rewrite !decide_True|].
    rewrite !decide_False by naive_solver. by apply accounted_at.
Qed.

Lemma accounted_unsubscribe n w cid p s unsub :
  accounted (n, w) → peer n cid = Some p → session_at n (e_s p) = Some s →
  accounted ((entry_unsubscribe (s_id s) unsub n).2, w).
Proof.
  intros Ha Hp Hs. pose proof (ac_consistent _ Ha) as Hc. cbn [fst] in Hc.
  pose proof (registered_at _ _ _ _ Hp Hs) as Hreg. pose proof (registered_cid _ _ _ Hc Hreg) as Hcid.
  pose proof (consistent_unsubscribe n cid p s unsub Hc Hp Hs) as Hc'. subst cid.
  destruct (entry_unsubscribe_spec (s_id s) unsub n p s Hp Hs (co_router n Hc)) as (r' & st & E & _ & Hsub).
  rewrite E in *. cbn [snd] in *. set (tf0 := u_topic_filter unsub) in *.
  apply (accounted_change n w _ _ p s (on_s_subs (λ _, delete tf0 (s_subs s)) s) (id_client_id (s_id s))); try done.
  - intros r. rewrite session_at_obj. destruct (decide (r = e_s p)) as [->|]; [|done]. unfold session_at in *. simpl. by rewrite Hs.
  - intros tf c Hne. cbn. rewrite Hsub. by rewrite decide_False by naive_solver.
  - intros tf. cbn [s_subs on_s_subs]. rewrite lookup_delete.
    destruct (accounted_at n w _ s tf Ha Hreg) as [_ Hw]. destruct (decide (tf0 = tf)); [by right|].
    destruct (s_subs s !! tf); [left; auto|by right].
  - intros tf. cbn [n_router on_session_obj on_n_sessions on_n_sub_stats on_n_router s_subs on_s_subs].
    rewrite Hsub, (registered_removable n w _ s _ Ha Hreg), lookup_delete.
    destruct (accounted_at n w _ s tf Ha Hreg) as [Hr Hw].
    destruct (decide (tf0 = tf)) as [Heq|Hne]; [|by rewrite decide_False by naive_solver]. rewrite Heq.
    destruct (s_subs s !! tf) eqn:E'; [rewrite decide_True by done; symmetry; auto|].
    by rewrite decide_False by naive_solver.
Qed.

(** A session leaves the registry. *)
Lemma accounted_gone n w n' cid s (clear : bool) :
  accounted (n, w) → consistent n' → registered n cid = Some s →
  (∀ c, registered n' c = if decide (c = cid) then None else registered n c) →
  (∀ tf c, subscribed (n_router n') tf c =
     if decide (clear = true ∧ is_Some (s_subs s !! tf) ∧ c = cid) then None else subscribed (n_router n) tf c) →
  accounted (n', if clear then w else owe n cid w).
Proof.
  intros Ha Hc' Hs Hreg Hsub. assert (own n' cid = ∅) as Hown by (unfold own; by rewrite Hreg, decide_True).
  apply (accounted_step n w n' _ cid); try done; rewrite ?Hown.
  - intros c Hne. by rewrite Hreg, decide_False.
  - intros c Hne. destruct clear; [done|]. unfold owe. by rewrite decide_False.
  - intros tf c Hne. rewrite Hsub. by rewrite decide_False by naive_solver.
  - intros tf. rewrite Hsub, (left_id_L ∅ (∪)). clear Hsub Hreg. destruct (accounted_at n w cid s tf Ha Hs) as [Hr Hw]. destruct clear.
    + case_decide as Hd; [symmetry; apply Hw, Hd|]. rewrite Hr. destruct (s_subs s !! tf) eqn:E; [|done]. destruct Hd; by eauto.
    + rewrite decide_False by naive_solver. unfold owe. rewrite decide_True by done. apply (ac_router _ Ha).
  - apply map_disjoint_empty_l.
  - intros s' tf opts. by rewrite Hreg, decide_True.
Qed.

Lemma accounted_leave n w self clean_start clear :
  accounted (n, w) →
  accounted ((after_answer self clean_start clear n).2, if clear then w else owe n (id_client_id self) w).
Proof.
  intros Ha. pose proof (ac_consistent _ Ha) as Hc. cbn [fst] in Hc.
  pose proof (consistent_leave n self clean_start clear Hc) as Hc'.
  destruct (peer n (id_client_id self)) as [p|] eqn:Hp.
  2: {
       assert ((after_answer self clean_start clear n).2 = n) as ->.
       { unfold after_answer, _remove. mrun. by rewrite Hp. }
       destruct clear; [done|]. apply (accounted_step n w n _ (id_client_id self)); try done.
       - intros c Hne. unfold owe. by rewrite decide_False.
       - intros tf. unfold owe, own, registered. rewrite decide_True, Hp by done. simpl. rewrite (left_id_L ∅ (∪)).
         rewrite (ac_router _ Ha). unfold own, registered. cbn [fst snd]. rewrite Hp. done.
       - unfold own, registered. rewrite Hp. apply map_disjoint_empty_l.
       - intros s tf opts. unfold registered. by rewrite Hp. }
  destruct (co_entries n Hc _ _ Hp) as (s & Hs & Hcid & _).
  pose proof (registered_at _ _ _ _ Hp Hs) as Hreg.
  destruct (after_answer_spec self clean_start clear p s n Hp Hs (co_router n Hc))
    as (n' & s' & E & P & _ & _ & _ & _ & _ & Hsub & _ & Hother). rewrite E in *. cbn [snd] in *.
  apply (accounted_gone n w n' (id_client_id self) s clear); try done.
  - intros c. unfold registered, peer in *. rewrite P.
    destruct (decide (c = id_client_id self)) as [->|Hne]; [by rewrite lookup_delete_eq|].
    rewrite lookup_delete_ne by done. destruct (n_peers n !! c) as [p'|] eqn:Hp'; [|done]. simpl. apply Hother.
    intros Heq. destruct (co_entries n Hc _ _ Hp') as (s2 & Hs2 & H2 & _). congruence.
  - intros tf c. rewrite Hsub, (registered_removable n w _ s _ Ha Hreg), Hcid. apply decide_ext.
    destruct (s_subs s !! tf); simpl; naive_solver.
Qed.

Lemma accounted_end n w self : accounted (n, w) → accounted ((_remove_with true self self n).2, w).
Proof.
  intros Ha. unfold _remove_with. mrun. destruct (peer n (id_client_id self)) as [p|] eqn:Hp; [|done].
  destruct (co_entries n (ac_consistent _ Ha) _ _ Hp) as (s & Hs & Hcid & _). unfold get_session. cbn [fst] in Hs. rewrite Hs. simpl.
  case_bool_decide as Hid; [|done]. pose proof (accounted_leave n w self true true Ha) as H.
  unfold after_answer, _remove in H. revert H. mrun. rewrite Hp. by destruct (remove_peer true self p n) as [[[]| |] n'].
Qed.

Lemma accounted_enter n w id mq cfg auth inflight created ci present superuser now :
  accounted (n, w) → peer n (id_client_id id) = None →
  (∀ tf opts, subscribed (n_router n) tf (id_client_id id) ≠ Some (id, opts)) →
  let '(r, n') := session_new id mq cfg auth inflight created ci present superuser true now ∅ None n in
  accounted (entry_set id r r (on_n_chans <[r := mkChan true []]> n'), w).
Proof.
  intros Ha Hp Hfresh. pose proof (ac_consistent _ Ha) as Hc. cbn [fst] in Hc.
  pose proof (consistent_enter n id mq cfg auth inflight created ci present superuser now Hc Hp Hfresh) as Hc'.
  unfold session_new, fresh in *.
  match goal with H : consistent ?m |- _ => set (n' := m) in * end.
  assert (∀ c, c ≠ id_client_id id → registered n' c = registered n c) as Hother.
  { intros c Hne. unfold registered, n', peer, entry_set, session_at. cbn. rewrite lookup_insert_ne by done.
    destruct (n_peers n !! c) as [p|] eqn:Hpc; [|done]. simpl. rewrite lookup_insert_ne; [done|]. intros Heq.
    destruct (co_entries n Hc _ _ Hpc) as (s0 & Hs0 & _). assert (e_s p < n_next n) by (apply (co_fresh n Hc); by rewrite Hs0).
    simpl in *. lia. }
  assert (own n (id_client_id id) = ∅) as Hno by (unfold own, registered; by rewrite Hp).
  assert (∃ s, registered n' (id_client_id id) = Some s ∧ s_id s = id ∧ s_subs s = ∅) as (s & Hs & Hid & Hsubs).
  { unfold registered, n', peer, entry_set, session_at. cbn. rewrite lookup_insert_eq. simpl. rewrite lookup_insert_eq. by eexists. }
  assert (own n' (id_client_id id) = ∅) as Hown by (rewrite (own_registered _ _ _ Hs); unfold filed; by rewrite Hsubs, fmap_empty).
  apply (accounted_step n w n' w (id_client_id id)); try done; rewrite ?Hown.
  - intros c Hne. by rewrite Hother.
  - intros tf. change (n_router n') with (n_router n). by rewrite (ac_router _ Ha), <-Hno.
  - apply map_disjoint_empty_l.
  - intros s0 tf opts Hs0 Hw. assert (s0 = s) as -> by congruence. apply (Hfresh tf opts).
    rewrite (ac_router _ Ha). cbn [fst snd]. by rewrite Hno, (left_id_L ∅ (∪)), Hw, Hid.
Qed.

Lemma accounted_continue n w c tx s o ms :
  accounted (n, w) → peer n (id_client_id (s_id s)) = Some (mkEntryItem (c_ref c) tx) →
  session_at n (c_ref c) = Some s → n_chans n !! c_ref c = Some (mkChan true ms) →
  NoDup (of_subscriptions o).*1 → Forall (λ sub, is_ok (topic_from_str sub.1) = true) (of_subscriptions o) →
  accounted ((transfer_session_state scx false o (n, c)).2.1,
             settle (id_client_id (s_id s)) (of_subscriptions o).*1 w).
Proof.
  intros Ha Hp Hs Hch Hnd Hok. pose proof (ac_consistent _ Ha) as Hc. cbn [fst] in Hc.
  pose proof (consistent_continue n c tx s o ms Hc Hp Hs Hch Hnd Hok) as Hc'.
  destruct (transfer_restores scx o n c s ms Hs Hch (co_router n Hc) Hnd)
    as (n' & s' & E & _ & Hs' & Hid & _ & _ & _ & Hsubs & Hr' & Hsub & Hpeers & Hnext & Hother).
  rewrite E in *. cbn [fst snd] in *.
  assert (∀ tf, (list_to_map (of_subscriptions o) : gmap TopicFilter BrokerTypes.SubscriptionOptions) !! tf = None ↔
    tf ∉ (of_subscriptions o).*1) as Hnone.
  { intros tf. split; [apply not_elem_of_list_to_map_2|apply not_elem_of_list_to_map_1]. }
  apply (accounted_change n w n' _ (mkEntryItem (c_ref c) tx) s s' (id_client_id (s_id s))); try done.
  - intros r. simpl. destruct (decide (r = c_ref c)) as [->|]; auto.
  - intros c' Hne. by apply settle_other.
  - intros tf c' Hne. rewrite Hsub. unfold after_adds. destruct (_ !! tf); [|done]. by rewrite decide_False by naive_solver.
  - intros tf. rewrite settle_at, Hsubs. destruct (accounted_at n w _ s tf Ha (registered_at _ _ _ _ Hp Hs)) as [_ Hw].
    destruct (decide (tf ∈ _)) as [|Hn]; [by left|]. apply Hnone in Hn. rewrite Hn.
    destruct (s_subs s !! tf); [left; auto|by right].
  - intros tf. rewrite Hsub, settle_at, Hsubs. unfold after_adds.
    destruct (accounted_at n w _ s tf Ha (registered_at _ _ _ _ Hp Hs)) as [Hr _].
    destruct (list_to_map (of_subscriptions o) !! tf) as [opts|] eqn:El.
    + rewrite decide_True; [done|]. split; [|done]. apply elem_of_list_to_map_2 in El. rewrite Forall_forall in Hok. by apply Hok in El.
    + apply Hnone in El. by rewrite decide_False.
Qed.

Lemma accounted_same n w n' :
  accounted (n, w) → consistent n' → n_router n' = n_router n →
  (∀ c, (λ s, (s_id s, s_subs s)) <$> registered n' c = (λ s, (s_id s, s_subs s)) <$> registered n c) → accounted (n', w).
Proof.
  intros [Hc Hr Hd Hf] Hc' Er Ereg. cbn [fst snd] in *.
  assert (∀ c, own n' c = own n c) as Eown.
  { intros c. specialize (Ereg c). unfold own, filed. destruct (registered n' c), (registered n c); try done.
    simpl. by injection Ereg as -> ->. }
  split; cbn [fst snd]; [done|..].
  - intros tf c. by rewrite Er, Eown.
  - intros c. by rewrite Eown.
  - intros c s tf opts Hs. specialize (Ereg c). rewrite Hs in Ereg. destruct (registered n c) as [s0|] eqn:Hs0; [|done].
    injection Ereg as -> _. by apply (Hf c).
Qed.

(** C2: at every moment of any such history the router holds, for each client,
    exactly the subscriptions of its registered session, filed under the identity
    of that session, and those of sessions of the client that were taken over
    without a clean start and that no successor has taken up yet, under their own
    identities.  Nothing else is left over, nothing is lost and nothing is
    attributed to another session, also while sessions of the client succeed each
    other. *)
Theorem registry_consistent st st' : accounted st → rtc life st st' → accounted st'.
Proof.
  intros Ha Hl. induction Hl as [|st st1 st' Hstep _ IH]; [done|]. apply IH. clear IH.
  destruct Hstep as [n w id mq cfg auth inflight created ci present superuser now r n1 Hp Hf Hnew
    |n w cid p s sub Hp Hs Hn|n w cid p s unsub Hp Hs|n w self clean_start clear|n w self
    |n w c tx s o ms Hp Hs Hch Hnd Hok|n w r Hr|n w n1 Ep Er En Es].
  - pose proof (accounted_enter n w id mq cfg auth inflight created ci present superuser now Ha Hp Hf) as H.
    by rewrite Hnew in H.
  - by apply (accounted_subscribe n w cid p).
  - by apply (accounted_unsubscribe n w cid p).
  - by apply accounted_leave.
  - by apply accounted_end.
  - by eapply accounted_continue.
  - apply (accounted_same n); [done|apply consistent_drop; [apply (ac_consistent _ Ha)|done]|..];
      unfold session_drop; destruct (session_at n r) eqn:Hsr; try done; destruct (subs_clear _) as [m st]; try done.
    intros c. unfold registered, peer, session_at. cbn. destruct (n_peers n !! c) as [p|] eqn:Hp; [|done]. simpl.
    rewrite lookup_delete_ne; [done|]. intros Heq. by apply (Hr c p Hp).
  - apply (accounted_same n); [done|by apply (consistent_other n); [..|apply (ac_consistent _ Ha)]|done|].
    intros c. unfold registered, peer. rewrite Ep. destruct (n_peers n !! c) as [p|]; [apply Es|done].
Qed.
End Lifecycle.

Lemma empty_consistent : consistent empty_node.
Proof.
  split; [apply router_new_inv| |].
  - intros r [s H]. unfold session_at in H. simpl in H. by rewrite lookup_empty in H.
  - intros cid p H. unfold peer in H. simpl in H. by rewrite lookup_empty in H.
Qed.

Lemma empty_accounted : accounted (empty_node, λ _, ∅).
Proof.
  split; [apply empty_consistent|..]; cbn [fst snd].
  - intros tf cid. by vm_compute.
  - intros cid. apply map_disjoint_empty_r.
  - intros cid s tf opts _. by rewrite lookup_empty.
Qed.

(** c1 connects and subscribes, and is taken over: what its session had is owed to
    its successor. *)
Lemma registry_consistent_witness :
  let n1 := (connect (sample_v3 (lit "c1") false None) empty_node).2 in
  let n2 := (entry_subscribe sample_server c1_id (mkSubscribe (lit "a/+") sample_sub) n1).2 in
  let n3 := (after_answer c1_id false false n2).2 in
  peer n2 (lit "c1") = Some (mkEntryItem 1 1) ∧ peer n3 (lit "c1") = None ∧
  subscribed (n_router n3) (lit "a/+") (lit "c1") = Some (c1_id, sample_sub) ∧
  ∃ w, accounted (n3, w) ∧ w (lit "c1") !! lit "a/+" = Some (c1_id, sample_sub).
Proof.
  intros n1 n2 n3. split; [vm_compute; reflexivity|]. split; [vm_compute; reflexivity|].
  split; [vm_compute; reflexivity|]. eexists. split.
  - apply (registry_consistent sample_server (empty_node, λ _, ∅)); [apply empty_accounted|].
    apply (rtc_l _ _ (n1, λ _, ∅)); [|apply (rtc_l _ _ (n2, settle (lit "c1") [lit "a/+"] (λ _, ∅))); [|apply rtc_once]].
    + apply (life_enter _ empty_node _ c1_id 4 listener_new None 16 0 (sample_v3 (lit "c1") false None) false false 0 1
        (session_new c1_id 4 listener_new None 16 0 (sample_v3 (lit "c1") false None) false false true 0 ∅ None empty_node).2);
        [reflexivity| |reflexivity].
      intros tf opts. unfold subscribed. simpl. by rewrite lookup_empty.
    + destruct (session_at n1 1) as [s|] eqn:Hs; [|vm_compute in Hs; discriminate].
      unfold n2. assert (s_id s = c1_id) as <- by (apply (f_equal (fmap s_id)) in Hs; vm_compute in Hs; by injection Hs).
      apply (life_subscribe sample_server n1 _ (lit "c1") (mkEntryItem 1 1) s (mkSubscribe (lit "a/+") sample_sub));
        [vm_compute; reflexivity|exact Hs|].
      apply (f_equal (fmap (λ s, id_node_id (s_id s)))) in Hs. vm_compute in Hs. by injection Hs.
    + apply (life_leave sample_server n2 _ c1_id false false).
  - vm_compute. reflexivity.
Defined.
