(* ===== verification/Continuity.v ===== *)
(** * A client comes back

    A handshake from the kick of the old session on, and the first message of the
    new one, put together: the new session is the old one. *)

From stdpp Require Import base list numbers option gmap strings relations.
From Stdlib Require Import ZArith Lia.
From S2P Require Import Prelude Errors CodecTypes PacketV5 Topic Counter Hash BrokerTypes Queue Inflight.
From S2P Require Import RetainStore Router Acl Alias Hook Delayed SessionSubs ConnInfo Fitter Broker Session.
From S2P Require Import SessionLoop Handshake SessionFrame Sample SessionQos Registry Takeover Lifecycle.

#[local] Open Scope Z_scope.

Section Continuity.
Context `{B : Backend} `{!BackendOk B} (scx : ServerContext).

(** The new task takes a message out of its channel. *)
Definition next_message : M (Node * Conn) Reason unit :=
  m ← recv; match m with Some m => process_message scx m | None => mret tt end.

Lemma list_to_map_iter (m : gmap TopicFilter BrokerTypes.SubscriptionOptions) :
  (list_to_map (iter m) : gmap TopicFilter _) = m.
Proof.
  apply map_eq. intros tf. apply option_eq. intros opts.
  rewrite <-elem_of_list_to_map by apply NoDup_iter_keys. apply elem_of_iter.
Qed.

(** The new session, before it is told of the old one. *)
Definition blank (ci : ConnectInfo) (cfg : ListenerConfig) (present : bool) (created : Z) (s : Session) : Prop :=
  s_id s = ci_id ci ∧ s_listen_cfg s = cfg ∧ s_subs s = ∅ ∧ q_inner (s_queue s) = [] ∧ entries (s_out s) = [] ∧
  session_present s = present ∧ s_created_at s = created.

Definition added_session (r : Z) (s : Session) (n n' : Node) : Prop :=
  n_peers n' = n_peers n ∧ n_router n' = n_router n ∧ n_chans n' = n_chans n ∧ n_now n' = n_now n ∧
  ∀ r', session_at n' r' = if decide (r' = r) then Some s else session_at n r'.

Lemma create_session_ok cfg ci auth present o n :
  ∃ n' s, create_session cfg ci auth present o n = (Ok (n_next n), n') ∧
    blank ci cfg present (from_option of_created_at (n_now n) o) s ∧ added_session (n_next n) s n n'.
Proof.
  unfold create_session. rewrite (bind_ok _ _ _ _ _ (eq_refl : asks (E := ConnAckReason * Error) n_now n = (Ok (n_now n), n))).
  cbv zeta. unfold state, session_new, fresh. eexists _, _. split; [reflexivity|]. apply and_comm. split.
  - split_and!; try done. intros r'. unfold session_at. simpl. rewrite lookup_insert.
    destruct (decide (n_next n = r')) as [<-|Hne]; [rewrite decide_True by done; reflexivity|by rewrite decide_False].
  - split_and!; try done.
    + apply dq_default_iter.
    + unfold session_present. simpl. by destruct present, auth.1.
Qed.

(** The connection that [state_new] makes, and the node when the entry is set, the
    hooks are called and the state of the old session is in the channel. *)
Definition new_conn (v5 : bool) (io : nat → option MqttError) (r server_max client_max : Z) (cfg : ListenerConfig) : Conn :=
  mkConn r (if 0 <? server_max then Some (server_aliases_new server_max) else None)
    (if 0 <? client_max then Some (client_aliases_new client_max) else None)
    (in_new 0 (lc_max_inflight cfg)) 0 0 v5 io 0 false [].

Lemma announce_ok unavailable accepted ci c o n :
  sc_auto_subscription scx = None → n_chans n !! c_ref c = Some (mkChan true []) →
  ∃ n', announce scx unavailable accepted ci c (Some o) n = (Ok tt, n') ∧
    n_peers n' = <[id_client_id (ci_id ci) := mkEntryItem (c_ref c) (c_ref c)]> (n_peers n) ∧
    n_router n' = n_router n ∧ n_sessions n' = n_sessions n ∧
    n_chans n' !! c_ref c = Some (mkChan true [SessionStateTransfer o (ci_clean_start ci)]).
Proof.
  intros Hauto Hch. unfold announce, unbounded_send, tx_is_closed. mrun. simpl. rewrite Hch, Hauto. simpl.
  eexists. split; [reflexivity|]. simpl. do 3 (split; [done|]). by rewrite lookup_alter_eq, Hch.
Qed.

Lemma recv_transfer n c o b : n_chans n !! c_ref c = Some (mkChan true [SessionStateTransfer o b]) →
  ∃ n', recv (E := Reason) (n, c) = (Ok (Some (SessionStateTransfer o b)), (n', c)) ∧
    n_peers n' = n_peers n ∧ n_router n' = n_router n ∧ n_sessions n' = n_sessions n ∧ n_now n' = n_now n ∧
    n_chans n' !! c_ref c = Some (mkChan true []).
Proof.
  intros Hch. unfold recv. mrun. rewrite Hch. simpl. eexists. split; [reflexivity|]. simpl.
  do 4 (split; [done|]). by rewrite lookup_alter_eq, Hch.
Qed.

(** The filters of a registered session are topics. *)
Lemma session_filters n cid p s tf opts :
  consistent n → peer n cid = Some p → session_at n (e_s p) = Some s → s_subs s !! tf = Some opts →
  ∃ t, topic_from_str tf = Ok t.
Proof.
  intros Hc Hp Hs Hopts. destruct (co_entries n Hc _ _ Hp) as (s0 & Hs0 & _ & Ha). assert (s0 = s) as -> by congruence.
  apply Ha in Hopts. unfold subscribed in Hopts. destruct (relations (n_router n) !! tf) as [rels|] eqn:Hrel; [|done].
  destruct (inv_filters _ (co_router n Hc) _ _ Hrel) as [_ [t Ht]]. by exists t.
Qed.

(** C3: a client that comes back, does not ask for a clean start and has an acceptable
    keep-alive finds its session:
    the new one has the subscriptions of the old one, in the registry and in the
    router under the new identity, its creation time, and says that it was present;
    its channel has the messages of the old window, the last one first, and
    behind them those of the old queue in order.  The old session is left empty, so
    that nothing is delivered twice. *)
Theorem takeover_continues unavailable accepted v5 io sm cm cfg ci auth ka told wait p s n0 :
  let cid := id_client_id (ci_id ci) in
  let n := if tx_is_closed n0 (e_tx p) then n0 else wait (kick_asked (ci_id ci) false false p n0) in
  ci_clean_start ci = false → sc_auto_subscription scx = None →
  fitter_keep_alive (mkFitter ci cfg) (ci_keep_alive ci) = (Ok ka, told) →
  peer n0 cid = Some p → peer n cid = Some p → session_at n (e_s p) = Some s → consistent n →
  (tx_is_closed n0 (e_tx p) = false → n_oneshots n !! n_next n0 ≠ Some OsSenderGone) →
  ∃ conn n1 n2 s2 s',
    open_session scx unavailable accepted v5 io cfg ci auth sm cm wait n0 = (Ok (conn, ka, told, true), n1) ∧
    next_message (n1, conn) = (Ok tt, (n2, conn)) ∧
    peer n2 cid = Some (mkEntryItem (c_ref conn) (c_ref conn)) ∧
    session_at n2 (c_ref conn) = Some s2 ∧ s_id s2 = ci_id ci ∧ s_subs s2 = s_subs s ∧
    session_present s2 = true ∧ s_created_at s2 = s_created_at s ∧
    (∀ tf opts, s_subs s !! tf = Some opts → subscribed (n_router n2) tf cid = Some (ci_id ci, opts)) ∧
    n_chans n2 !! c_ref conn = Some (mkChan true
      (omap (resent scx (n_now n1) cfg (ci_id ci)) (reverse (entries (s_out s)).*2) ++ map (λ '(from, p), Forward from p) (q_inner (s_queue s)))) ∧
    session_at n2 (e_s p) = Some s' ∧ emptied s'.
Proof.
  intros cid n Hclean Hauto Hka Hp0 Hp Hs Hc Hgone.
  destruct (kick_hands_over (ci_id ci) false false false wait p s n0) as (n1 & s' & Hk & P1 & C1 & _ & Hs1 & Hem & Hr1 & Hsub1 & N1);
    [exact Hp0|exact Hp|exact Hs|apply (co_router n Hc)|exact Hgone|].
  set (o := mkOffline _ _ _ _ _) in Hk.
  assert (Htake : take_over unavailable ci wait n0 = (Ok (true, Some o), n1)).
  { unfold take_over. rewrite Hclean. unfold refused, map_err. unfold mbind, M_bind. by rewrite Hk. }
  destruct (create_session_ok cfg ci auth true (Some o) n1) as (n2 & s2 & Hcreate & Hblank & P2 & R2 & C2 & T2 & S2).
  destruct Hblank as (B1 & B2 & B3 & B4 & B5 & B6 & B7). set (r := n_next n1) in *.
  set (conn := new_conn v5 io r sm cm cfg). set (n3 := on_n_chans <[r := mkChan true []]> n2).
  assert (Hs2 : session_at n2 r = Some s2) by (rewrite S2; by rewrite decide_True).
  assert (Hstate : state_new v5 io r sm cm n2 = (Ok conn, n3)).
  { unfold state_new, get_session. mrun. rewrite Hs2. unfold conn, new_conn. by rewrite B2. }
  destruct (announce_ok unavailable accepted ci conn o n3 Hauto) as (n4 & Hann & P4 & R4 & S4 & C4).
  { simpl. by rewrite lookup_insert_eq. }
  destruct (recv_transfer n4 conn o (ci_clean_start ci) C4) as (n5 & Hrecv & P5 & R5 & S5 & T5 & C5).
  assert (Hs5 : session_at n5 (c_ref conn) = Some s2) by (unfold session_at in *; by rewrite S5, S4).
  assert (Hr5 : router_inv (n_router n5)) by (rewrite R5, R4; simpl; by rewrite R2).
  destruct (transfer_restores scx o n5 conn s2 [] Hs5 C5 Hr5) as (n6 & s6 & Htr & Hch & Hs6 & I1 & (I2 & I2') & I3 & I5 & I4 & Hr6 & Hsub6 & P6 & _ & O6).
  { apply NoDup_iter_keys. }
  exists conn, n4, n6, s6, s'. split.
  { unfold open_session. rewrite (bind_ok _ _ _ _ _ Htake), (bind_ok _ _ _ _ _ Hcreate).
    assert (Hneg : negotiate_keep_alive unavailable cfg ci r n2 = (Ok (ka, told), n2))
      by (unfold negotiate_keep_alive; by rewrite Hka).
    rewrite (bind_ok _ _ _ _ _ Hneg). cbn [is_some].
    rewrite (bind_ok _ _ _ _ _ (eq_refl : (mret tt : M Node (ConnAckReason * Error) unit) n2 = (Ok tt, n2))), (bind_ok _ _ _ _ _ Hstate).
    unfold or_drop, mbind, M_bind. by rewrite Hann. }
  split.
  { unfold next_message. rewrite (bind_ok _ _ _ _ _ Hrecv). rewrite Hclean. cbn [process_message].
    unfold question, map_err. by rewrite Htr. }
  split; [unfold peer; rewrite P6, P5, P4; apply lookup_insert_eq|].
  split; [exact Hs6|]. split; [by rewrite I1|]. split.
  { apply map_eq. intros tf. rewrite I4, B3, lookup_empty. unfold o. cbn [of_subscriptions].
    rewrite list_to_map_iter. by destruct (s_subs s !! tf). }
  split; [unfold session_present in *; by rewrite I2|].
  split; [by rewrite I2', B7|]. split.
  { intros tf opts Hopts. rewrite Hsub6. unfold after_adds, o. cbn [of_subscriptions].
    rewrite list_to_map_iter, Hopts, B1. rewrite decide_True; [done|]. split; [|done].
    by destruct (session_filters n cid p s tf opts Hc Hp Hs Hopts) as [t ->]. }
  split; [by rewrite Hch, T5, B1, B2|].
  split; [|exact Hem]. assert (Hold : e_s p < n_next n) by (apply (co_fresh n Hc); by rewrite Hs).
  assert (Hne : e_s p ≠ r) by (rewrite N1; fold n; lia). rewrite O6 by exact Hne. unfold session_at in *. rewrite S5, S4. simpl.
  specialize (S2 (e_s p)). rewrite decide_False in S2 by exact Hne. by rewrite S2.
Qed.
End Continuity.

(** ** Client c1 comes back *)

Definition c1_back : ConnectInfo :=
  ConnV3 (mkId 1 7 None None (lit "c1") None 5) (MqttV3.mkConnect (mkProtocol 4) false 60 None (lit "c1") None None None).

Lemma connect_consistent cid clean will n :
  consistent n → peer n cid = None →
  (∀ tf opts, subscribed (n_router n) tf cid ≠ Some (ci_id (sample_v3 cid clean will), opts)) →
  consistent (connect (sample_v3 cid clean will) n).2.
Proof.
  intros Hc Hp Hf. pose proof (consistent_enter n (ci_id (sample_v3 cid clean will)) 4 listener_new None 16 0
    (sample_v3 cid clean will) false false 0 Hc Hp Hf) as H.
  unfold connect. by destruct (session_new _ _ _ _ _ _ _ _ _ _ _ _ _ _) as [r n'].
Qed.

Lemma sample_node_consistent : consistent sample_node.
Proof.
  apply connect_consistent.
  - apply connect_consistent; [apply empty_consistent|reflexivity|].
    intros tf opts. unfold subscribed. simpl. by rewrite lookup_empty.
  - vm_compute. reflexivity.
  - intros tf opts. unfold subscribed. change (relations (n_router (connect _ empty_node).2)) with (relations router_new).
    simpl. by rewrite lookup_empty.
Qed.

Lemma c1_left_consistent : consistent (c1_leaves (kick_asked (ci_id c1_back) false false (mkEntryItem 1 1) away_node)).
Proof.
  set (sub := mkSubscribe (lit "a/+") (options_from_v3 ExactlyOnce None None)).
  destruct (session_at sample_node 1) as [s|] eqn:Hs; [|vm_compute in Hs; discriminate].
  assert (Hid : s_id s = c1_id) by (apply (f_equal (fmap s_id)) in Hs; vm_compute in Hs; by injection Hs).
  assert (Hb : consistent (entry_subscribe sample_server c1_id sub sample_node).2).
  { rewrite <-Hid. apply (consistent_subscribe sample_server sample_node (lit "c1") (mkEntryItem 1 1) s);
      [apply sample_node_consistent|vm_compute; reflexivity|exact Hs|by rewrite Hid]. }
  apply (consistent_other (entry_subscribe sample_server c1_id sub sample_node).2); [..|exact Hb].
  - vm_compute. reflexivity.
  - vm_compute. reflexivity.
  - apply Z.leb_le. vm_compute. reflexivity.
  - assert (E : (λ s, (s_id s, s_subs s)) <$> n_sessions
        (c1_leaves (kick_asked (ci_id c1_back) false false (mkEntryItem 1 1) away_node)) =
      (λ s, (s_id s, s_subs s)) <$> n_sessions (entry_subscribe sample_server c1_id sub sample_node).2)
      by (vm_compute; reflexivity).
    intros r. apply (f_equal (lookup r)) in E. rewrite !lookup_fmap in E. exact E.
Qed.

Lemma takeover_continues_witness :
  ∃ conn n1 n2 s2,
    open_session sample_server V3Unavailable (AckV3 MqttV3.ConnectionAccepted) false (λ _, None) listener_new c1_back
      (false, None) 0 0 c1_leaves away_node = (Ok (conn, 90, 60, true), n1) ∧
    next_message sample_server (n1, conn) = (Ok tt, (n2, conn)) ∧
    session_at n2 (c_ref conn) = Some s2 ∧ s_id s2 = ci_id c1_back ∧ size (s_subs s2) = 1%nat.
Proof.
  assert (Hc : tx_is_closed away_node 1 = false) by (vm_compute; reflexivity).
  set (n := c1_leaves (kick_asked (ci_id c1_back) false false (mkEntryItem 1 1) away_node)).
  pose proof c1_left_consistent as Hcons. fold n in Hcons.
  destruct (session_at n 1) as [s|] eqn:Hs; [|vm_compute in Hs; discriminate].
  pose proof (takeover_continues sample_server V3Unavailable (AckV3 MqttV3.ConnectionAccepted) false (λ _, None) 0 0
    listener_new c1_back (false, None) 90 60 c1_leaves (mkEntryItem 1 1) s away_node) as H.
  cbv zeta in H. cbn [e_tx e_s] in H. rewrite Hc in H. 
  fold n in H.
  destruct H as (conn & n1 & n2 & s2 & _ & Hre & Hnext & _ & Hs2 & Hid & Hsubs & _);
    [reflexivity|reflexivity|vm_compute; reflexivity|vm_compute; reflexivity|vm_compute; reflexivity|exact Hs|exact Hcons| |].
  - intros _. vm_compute. discriminate.
  - exists conn, n1, n2, s2. do 4 (split; [assumption|]). rewrite Hsubs.
    apply (f_equal (fmap (λ s, size (s_subs s)))) in Hs. vm_compute in Hs. by injection Hs.
Defined.
