(* ===== verification/SessionEnd.v ===== *)
(** * The end of a session

    What happens to the messages and the will of a session that ends: [clean],
    [settle_will] and the end of [run]. *)

From stdpp Require Import base list numbers option gmap strings relations.
From Stdlib Require Import ZArith Lia.
From S2P Require Import Prelude Errors CodecTypes PacketV5 Topic Counter Hash BrokerTypes Queue Inflight.
From S2P Require Import RetainStore Router Acl Alias Hook Delayed SessionSubs ConnInfo Fitter Broker Session.
From S2P Require Import SessionLoop SessionFrame Sample SessionQos Registry Takeover Lifecycle.

#[local] Open Scope Z_scope.

Section End_.
Context `{B : Backend} `{!BackendOk B} (scx : ServerContext).

Definition queue_drop (id : Id) (r : Reason) (m : From * BrokerTypes.Publish) : HookCall :=
  MessageDropped (Some id) m.1 m.2 r.
Definition window_drop (id : Id) (r : Reason) (m : InflightMsg) : HookCall :=
  MessageDropped (Some id) (Inflight.from m) (Inflight.publish m) r.

(** The session changes, and calls are made; the rest is as it was. *)
Definition changed (r : Z) (n n' : Node) (s' : Session) (l : list HookCall) : Prop :=
  session_at n' r = Some s' ∧ n_hooks n' = n_hooks n ++ l ∧ n_router n' = n_router n ∧ n_chans n' = n_chans n ∧
  same_rest r n n'.

Lemma changed_trans r n1 n2 n3 s2 s3 l1 l2 :
  changed r n1 n2 s2 l1 → changed r n2 n3 s3 l2 → changed r n1 n3 s3 (l1 ++ l2).
Proof.
  intros (S1 & H1 & R1 & C1 & O1) (S2 & H2 & R2 & C2 & O2). split; [done|].
  rewrite H2, H1, app_assoc, R2, R1, C2, C1. do 3 (split; [done|]). by eapply same_rest_trans.
Qed.

Lemma changed_obj r f n s : session_at n r = Some s → changed r n (on_session_obj r f n) (f s) [].
Proof.
  intros Hs. split; [rewrite session_at_obj, decide_True by done; by rewrite Hs|]. rewrite app_nil_r.
  do 3 (split; [done|]). apply same_rest_obj.
Qed.

Lemma changed_hook r c n s : session_at n r = Some s → changed r n (hook c n) s [c].
Proof. intros Hs. do 4 (split; [done|]). by split. Qed.

Lemma drop_queue_spec {E} fuel reason n c s :
  session_at n (c_ref c) = Some s → (length (q_inner (s_queue s)) < fuel)%nat →
  ∃ n' q, drop_queue fuel reason (E := E) (n, c) = (Ok tt, (n', c)) ∧ q_inner q = [] ∧
    changed (c_ref c) n n' (on_s_queue (λ _, q) s) (map (queue_drop (s_id s) reason) (q_inner (s_queue s))).
Proof.
  revert n s. induction fuel as [|fuel IH]; intros n s Hs Hf; [lia|]. cbn [drop_queue].
  rewrite (bind_ok _ _ _ _ _ (self_ok _ _ _ Hs)). unfold queue_pop.
  destruct (q_inner (s_queue s)) as [|[f p] vs] eqn:Hq.
  - eexists _, _. split; [reflexivity|]. split; [exact Hq|]. by apply (changed_obj _ (on_s_queue (λ _, s_queue s))).
  - set (q1 := mkQueue _ vs _ _ _). set (s1 := on_s_queue (λ _, q1) s).
    set (n1 := hook (MessageDropped (Some (s_id s)) f p reason) (on_session_obj (c_ref c) (on_s_queue (λ _, q1)) n)).
    assert (H1 : changed (c_ref c) n n1 s1 [queue_drop (s_id s) reason (f, p)]).
    { pose proof (changed_obj (c_ref c) (on_s_queue (λ _, q1)) n s Hs) as H.
      apply (changed_trans _ _ _ _ _ _ _ _ H). apply changed_hook, H. }
    destruct (IH n1 s1) as (n2 & q & Hrun & Hqe & H2); [apply H1|simpl in *; lia|].
    exists n2, q. split; [exact Hrun|]. split; [done|]. exact (changed_trans _ _ _ _ _ _ _ _ H1 H2).
Qed.

Lemma drop_inflight_spec {E} fuel reason n c s :
  session_at n (c_ref c) = Some s → (length (entries (s_out s)) < fuel)%nat →
  ∃ n' o, drop_inflight fuel reason (E := E) (n, c) = (Ok tt, (n', c)) ∧ entries o = [] ∧
    changed (c_ref c) n n' (on_s_out (λ _, o) s) (map (window_drop (s_id s) reason) (entries (s_out s)).*2).
Proof.
  revert n s. induction fuel as [|fuel IH]; intros n s Hs Hf; [lia|]. cbn [drop_inflight].
  rewrite (bind_ok _ _ _ _ _ (self_ok _ _ _ Hs)).
  destruct (pop_front_spec (s_out s)) as (Hr & He & _). destruct (pop_front (s_out s)) as [r o]. simpl in Hr, He. subst r.
  destruct (entries (s_out s)) as [|[k m] vs] eqn:Hq; simpl in *.
  - eexists _, _. split; [reflexivity|]. split; [exact He|]. by apply (changed_obj _ (on_s_out (λ _, o))).
  - set (s1 := on_s_out (λ _, o) s).
    set (n1 := hook (window_drop (s_id s) reason m) (on_session_obj (c_ref c) (on_s_out (λ _, o)) n)).
    assert (H1 : changed (c_ref c) n n1 s1 [window_drop (s_id s) reason m]).
    { pose proof (changed_obj (c_ref c) (on_s_out (λ _, o)) n s Hs) as H.
      apply (changed_trans _ _ _ _ _ _ _ _ H). apply changed_hook, H. }
    destruct (IH n1 s1) as (n2 & o' & Hrun & Hoe & H2); [apply H1|unfold s1; simpl; rewrite He; lia|].
    exists n2, o'. split; [exact Hrun|]. split; [done|].
    pose proof (changed_trans _ _ _ _ _ _ _ _ H1 H2) as H. unfold s1 in H. simpl in H. by rewrite He in H.
Qed.

Lemma changed_keeps r n n' s s' l r' x : changed r n n' s' l → session_at n r = Some s →
  s_id s' = s_id s → s_subs s' = s_subs s → session_at n r' = Some x →
  ∃ x', session_at n' r' = Some x' ∧ s_id x' = s_id x ∧ s_subs x' = s_subs x.
Proof.
  intros (Hs' & _ & _ & _ & (_ & _ & Ho)) Hs Hid Hsubs Hx.
  destruct (decide (r' = r)) as [->|Hne]; [|exists x; by rewrite Ho].
  assert (x = s) as -> by congruence. by exists s'.
Qed.

(** Whether a session is the registered one does not change with it. *)
Lemma id_same_changed r n n' s s' hs :
  session_at n r = Some s → changed r n n' s' hs → s_id s' = s_id s → id_same n' (s_id s) = id_same n (s_id s).
Proof.
  intros Hs (Hs' & _ & _ & _ & (Hp & _ & Ho)) Hid. unfold id_same, entry_session, peer. rewrite Hp.
  destruct (n_peers n !! id_client_id (s_id s)) as [p|]; [|done]. simpl.
  destruct (decide (e_s p = r)) as [->|Hne]; [rewrite Hs', Hs; simpl; by rewrite Hid|by rewrite Ho].
Qed.

(** Whether the session is the registered one, in terms of what is registered. *)
Lemma id_same_registered n s : id_same n (s_id s) = Some true ↔
  ∃ s0, registered n (id_client_id (s_id s)) = Some s0 ∧ s_id s0 = s_id s.
Proof.
  unfold id_same, entry_session, registered. destruct (peer n (id_client_id (s_id s))) as [p|]; [|naive_solver]. simpl.
  destruct (session_at n (e_s p)) as [s0|]; [|naive_solver]. simpl. split.
  - intros [= H%bool_decide_eq_true]. by exists s0.
  - intros (s1 & [= <-] & ->). by rewrite bool_decide_true.
Qed.

(** C18: cleaning a session always ends.  Every message that waited in the queue or was
    not acknowledged is reported as dropped, once, in order, for the given reason,
    and nothing is left of either; then the end of the session is reported.  If
    the session that is registered for the client has the identity of this one, the
    registry forgets the client and the router every subscription under that
    identity, and nobody else's; otherwise, when another session of the client has
    taken its place or none is registered, both are left alone. *)
Theorem clean_reports_all {E} reason n c s :
  session_at n (c_ref c) = Some s → consistent n →
  let cid := id_client_id (s_id s) in
  ∃ n' s', clean reason (E := E) (n, c) = (Ok tt, (n', c)) ∧
    session_at n' (c_ref c) = Some s' ∧ q_inner (s_queue s') = [] ∧ entries (s_out s') = [] ∧
    n_hooks n' = n_hooks n ++ map (queue_drop (s_id s) reason) (q_inner (s_queue s)) ++
                 map (window_drop (s_id s) reason) (entries (s_out s)).*2 ++ [SessionTerminated (s_id s) reason] ∧
    if decide (s_id <$> registered n cid = Some (s_id s))
    then n_peers n' = delete cid (n_peers n) ∧ (∀ tf opts, subscribed (n_router n') tf cid ≠ Some (s_id s, opts)) ∧
         (∀ tf cid', cid' ≠ cid → subscribed (n_router n') tf cid' = subscribed (n_router n) tf cid')
    else n_peers n' = n_peers n ∧ n_router n' = n_router n.
Proof.
  intros Hs Hc cid. unfold clean. rewrite (bind_ok _ _ _ _ _ (self_ok _ _ _ Hs)).
  destruct (drop_queue_spec (E := E) (S (length (q_inner (s_queue s)))) reason n c s Hs) as (n1 & q & H1 & Hq & C1); [lia|].
  rewrite (bind_ok _ _ _ _ _ H1). set (s1 := on_s_queue (λ _, q) s) in *.
  destruct (drop_inflight_spec (E := E) (S (Z.to_nat (out_len (s_out s)))) reason n1 c s1 (proj1 C1)) as (n2 & o & H2 & Ho & C2).
  { unfold s1, entries, out_len. simpl. rewrite dq_len_iter. unfold len. lia. }
  rewrite (bind_ok _ _ _ _ _ H2). set (s2 := on_s_out (λ _, o) s1) in *.
  set (n3 := hook (SessionTerminated (s_id s) reason) n2).
  assert (C3 : changed (c_ref c) n n3 s2 ((map (queue_drop (s_id s) reason) (q_inner (s_queue s)) ++
    map (window_drop (s_id s) reason) (entries (s_out s)).*2) ++ [SessionTerminated (s_id s) reason])).
  { apply (changed_trans _ _ _ _ _ _ _ _ (changed_trans _ _ _ _ _ _ _ _ C1 C2)). apply changed_hook, C2. }
  rewrite <-app_assoc in C3.
  rewrite (bind_ok _ _ _ _ _ (eq_refl : nmod (E := E) (hook (SessionTerminated (s_id s) reason)) (n2, c) = (Ok tt, (n3, c)))).
  rewrite (bind_ok _ _ _ _ _ (eq_refl : on_node (asks (E := E) (λ n, id_same n (s_id s))) (n3, c) = (Ok (id_same n3 (s_id s)), (n3, c)))).
  rewrite (id_same_changed _ _ _ _ _ _ Hs C3 eq_refl). pose proof C3 as (Hs3 & Hh3 & Hr3 & _ & (Hp3 & _ & _)).
  assert (s_id <$> registered n cid = Some (s_id s) ↔ id_same n (s_id s) = Some true) as Hdec.
  { rewrite id_same_registered. unfold cid. destruct (registered n (id_client_id (s_id s))) as [s0|]; simpl.
    - split; [intros [= H]; by exists s0|]. intros (s9 & [= <-] & ->). done.
    - split; [done|]. by intros (s9 & [=] & _). }
  case_decide as Hreg; rewrite Hdec in Hreg.
  2: { exists n3, s2. split; [|by split_and!].
       destruct (id_same n (s_id s)) as [[]|]; done. }
  rewrite Hreg. unfold id_same, entry_session, peer in Hreg.
  destruct (n_peers n !! id_client_id (s_id s)) as [p|] eqn:Hp; [|done]. simpl in Hreg.
  destruct (session_at n (e_s p)) as [s0|] eqn:Hs0; [|done]. simpl in Hreg.
  injection Hreg as Hid. apply bool_decide_eq_true in Hid.
  destruct (changed_keeps _ _ _ _ _ _ _ _ C3 Hs eq_refl eq_refl Hs0) as (x & Hx & Hxid & Hxsubs).
  destruct (remove_peer_spec true (s_id s) p x n3) as (r' & Hrm & _ & Hsub);
    [rewrite Hr3; apply (co_router n Hc)|exact Hx|].
  set (n4 := on_n_router (λ _, r') (on_n_peers (delete (id_client_id (s_id s))) n3)) in *.
  exists n4, s2. split.
  { assert (Hrw : _remove_with true (s_id s) (s_id s) n3 = (Ok (Some p), n4)).
    { unfold _remove_with, get_session. mrun. unfold peer. rewrite Hp3, Hp, Hx, Hxid, Hid, bool_decide_true by done.
      exact Hrm. }
    mrun. by rewrite Hrw. }
  split; [exact Hs3|]. split; [done|]. split; [done|]. split; [exact Hh3|].
  split; [change (n_peers n4) with (delete (id_client_id (s_id s)) (n_peers n3)); by rewrite Hp3|]. split.
  2: { intros tf cid' Hne. change (n_router n4) with r'. rewrite Hsub, Hr3, Hxid, Hid. by rewrite decide_False by naive_solver. }
  intros tf opts Hbad.
  destruct (co_entries n Hc _ _ Hp) as (s1' & Hs1' & Hcid & Ha). assert (s1' = s0) as -> by congruence.
  change (n_router n4) with r' in Hbad. rewrite Hsub, Hr3 in Hbad. rewrite <-Hid in Hbad. fold cid in Ha. unfold cid in *.
  destruct (decide (true = true ∧ _)) as [|Hnd]; [done|]. rewrite Hid in Hbad, Ha.
  destruct Hnd. split; [done|]. split.
  { apply elem_of_filters. rewrite Hxsubs. exists opts. by apply Ha. }
  rewrite Hxid, Hid. split; [|done]. unfold removable. rewrite Hbad. by rewrite bool_decide_true.
Qed.

(** ** The last will *)

Definition is_will (c : HookCall) : bool :=
  match c with MessagePublish _ from _ => match from_typ from with FromLastWill => true | _ => false end | _ => false end.

(** How often a will was published. *)
Definition will_calls (n : Node) : nat := length (filter (λ c, is_will c = true) (n_hooks n)).

Definition has_will (s : Session) : bool := is_some (ci_last_will (s_conn_info s)).

(** No will is published, and nobody else's connection data change. *)
Definition quiet_will : relation (Node * Conn) := λ s s', will_calls s'.1 = will_calls s.1.

#[local] Instance quiet_will_preorder : PreOrder quiet_will.
Proof. split; [done|]. intros s1 s2 s3 H1 H2. unfold quiet_will in *. congruence. Qed.

Definition no_will (c : HookCall) : Prop := is_will c = false.

Lemma calls_no_will n n' : calls no_will n n' → will_calls n' = will_calls n.
Proof.
  intros (l & Hl & Hf). unfold will_calls. rewrite Hl, filter_app, length_app.
  replace (filter _ l) with (@nil HookCall); [simpl; lia|]. symmetry.
  clear Hl. induction Hf as [|c l Hc _ IH]; [done|]. unfold no_will in Hc. rewrite filter_cons, decide_False; [done|congruence].
Qed.

Lemma quiet_node {E A} (m : M Node E A) : keeps (calls no_will) m → keeps quiet_will (on_node m).
Proof. intros H. apply keeps_on_node. intros c n. apply calls_no_will, H. Qed.
Lemma quiet_nmod {E} (f : Node → Node) : (∀ n, calls no_will n (f n)) → keeps quiet_will (nmod f : M _ E _).
Proof. intros H. apply keeps_nmod. intros n c. apply calls_no_will, H. Qed.
Lemma quiet_hook {E} c : is_will c = false → keeps quiet_will (nmod (hook c) : M _ E _).
Proof. intros H. apply quiet_nmod. intros n. by apply calls_hook. Qed.
Lemma quiet_cmod {E} (f : Conn → Conn) : keeps quiet_will (cmod f : M _ E _).
Proof. by apply keeps_cmod. Qed.
Lemma quiet_on_self {E} (f : Session → Session) : keeps quiet_will (on_self f : M _ E _).
Proof. apply keeps_on_self; [apply _|]. done. Qed.
Lemma quiet_forwards from p storage expiry : keeps quiet_will (on_node (forwards scx from p storage expiry)).
Proof. apply quiet_node, calls_forwards. by split. Qed.
Lemma quiet_sink_send p : keeps quiet_will (sink_send p).
Proof.
  intros [n c]. unfold sink_send. simpl. destruct (c_closed c); [done|]. by destruct (c_io c (c_writes c)).
Qed.

#[local] Hint Resolve quiet_cmod quiet_on_self quiet_forwards quiet_sink_send : keeps.
#[local] Hint Extern 1 (keeps quiet_will (nmod (hook _))) => apply quiet_hook; done : keeps.
#[local] Hint Extern 1 (keeps quiet_will (nmod (message_dropped _ _ _ _))) => apply quiet_hook; done : keeps.
#[local] Hint Extern 1 (keeps quiet_will (nmod (on_n_connections _))) =>
  apply quiet_nmod; intros ?; by apply calls_none : keeps.
#[local] Hint Extern 1 (keeps quiet_will (flag _)) => apply quiet_cmod : keeps.

Lemma last_will_calls n c s : session_at n (c_ref c) = Some s →
  will_calls (process_last_will scx (n, c)).2.1 = (will_calls n + (if has_will s then 1 else 0))%nat.
Proof.
  intros Hs. unfold process_last_will, has_will. rewrite (bind_ok _ _ _ _ _ (self_ok _ _ _ Hs)).
  rewrite (bind_ok _ _ _ _ _ (eq_refl : now (E := Error) (n, c) = (Ok (n_now n), (n, c)))).
  destruct (ci_last_will (s_conn_info s)) as [lw|]; simpl; [|lia].
  set (p := publish_try_from _ _ lw). set (from := from_lastwill (s_id s)).
  set (n1 := hook (MessagePublish (Some (s_id s)) from p) n).
  assert (Hh : hook_message_publish scx (E := Error) from p (n, c) =
    (Ok (default p (message_publish (sc_hooks scx) (Some (s_id s)) from p)), (n1, c))).
  { unfold hook_message_publish. by rewrite (bind_ok _ _ _ _ _ (self_ok _ _ _ Hs)). }
  rewrite (bind_ok _ _ _ _ _ Hh).
  match goal with |- will_calls (?m (n1, c)).2.1 = _ =>
    assert (K : keeps quiet_will m) by keeps; rewrite (K (n1, c)) end.
  unfold n1, hook, will_calls. simpl. rewrite filter_app, length_app. done.
Qed.

Lemma last_will_at_most st : (will_calls (process_last_will scx st).2.1 ≤ will_calls st.1 + 1)%nat.
Proof.
  destruct st as [n c]. destruct (session_at n (c_ref c)) as [s|] eqn:Hs.
  - rewrite (last_will_calls n c s Hs). simpl. destruct (has_will s); lia.
  - unfold process_last_will, self, get_session. mrun. rewrite Hs. lia.
Qed.

Lemma quiet_drop_queue {E} fuel r : keeps quiet_will (drop_queue fuel r : M _ E _).
Proof. induction fuel as [|fuel IH]; simpl; keeps. Qed.
Lemma quiet_drop_inflight {E} fuel r : keeps quiet_will (drop_inflight fuel r : M _ E _).
Proof. induction fuel as [|fuel IH]; simpl; keeps. Qed.
#[local] Hint Resolve quiet_drop_queue quiet_drop_inflight : keeps.

Lemma calls_clear self id tfs : keeps (calls no_will) (clear_subscriptions self id tfs).
Proof.
  pose proof (calls_router_remove no_will) as Hrm.
  induction tfs as [|tf tfs IH]; simpl; keeps. unfold _unsubscribe, subscriptions_remove. keeps.
  apply calls_on_subs.
Qed.

Lemma quiet_clean {E} r : keeps quiet_will (clean r : M _ E _).
Proof.
  unfold clean, _remove_with, remove_peer. pose proof calls_clear. keeps.
  apply quiet_node. pose proof (calls_get_session (E := Error) no_will). keeps.
  apply keeps_modify. intros n. by apply calls_none.
Qed.
#[local] Hint Resolve quiet_clean : keeps.

Lemma quiet_farewell {E} d b wd : keeps quiet_will (farewell scx d b wd : M _ E _).
Proof. unfold farewell. keeps. Qed.

Lemma yields_farewell {E} d b wd :
  yields (λ ph, ∀ wd' x, ph = OfflinePhase wd' x → wd' = wd) (farewell scx d b wd : M _ E _).
Proof.
  unfold farewell. do 6 (apply yields_bind; intros ?).
  destruct (contains _ Kicked); [apply yields_bind; intros ?; by apply yields_ret|].
  destruct b; [do 2 (apply yields_bind; intros ?); by apply yields_ret|].
  do 2 (apply yields_bind; intros ?). apply yields_ret. by intros wd' x [= <- _].
Qed.

(** The will is published at once. *)
Definition will_now (c : Conn) (clean_session : bool) (s : Session) : bool :=
  last_will_enable (c_flags c) clean_session && (clean_session || negb (is_some (s_will_delay_interval s))).

(** The will that waits. *)
Definition will_later (c : Conn) (clean_session : bool) (s : Session) : option Z :=
  if last_will_enable (c_flags c) clean_session && negb clean_session then s_will_delay_interval s else None.

Lemma settle_will_spec {E} b n c s : session_at n (c_ref c) = Some s →
  let '(r, st) := settle_will scx b (E := E) (n, c) in
  will_calls st.1 = (will_calls n + (if will_now c b s && has_will s then 1 else 0))%nat ∧
  ∀ wd, r = Ok wd → wd = will_later c b s.
Proof.
  intros Hs. unfold settle_will. rewrite (bind_ok _ _ _ _ _ (self_ok _ _ _ Hs)).
  rewrite (bind_ok _ _ _ _ _ (eq_refl : on_conn (asks (E := E) c_flags) (n, c) = (Ok (c_flags c), (n, c)))).
  unfold will_now, will_later. destruct (last_will_enable (c_flags c) b); simpl; [|split; [lia|by intros wd [= <-]]].
  destruct (b || negb (is_some (s_will_delay_interval s))) eqn:Hnow; simpl.
  - pose proof (last_will_calls n c s Hs) as Hw. unfold attempt, mbind, M_bind.
    destruct (process_last_will scx (n, c)) as [[u|e|] st]; simpl in *; (split; [done|]); intros wd; try done;
      intros [= <-]; destruct b; try done; simpl in Hnow; by destruct (s_will_delay_interval s).
  - split; [lia|]. intros wd [= <-]. by destruct b.
Qed.

(** A will that waits leaves the node as it is. *)
Lemma settle_later {E} b n c s wd : session_at n (c_ref c) = Some s → will_later c b s = Some wd →
  settle_will scx b (E := E) (n, c) = (Ok (Some wd), (n, c)).
Proof.
  intros Hs. unfold settle_will, will_later. rewrite (bind_ok _ _ _ _ _ (self_ok _ _ _ Hs)).
  rewrite (bind_ok _ _ _ _ _ (eq_refl : on_conn (asks (E := E) c_flags) (n, c) = (Ok (c_flags c), (n, c)))).
  destruct (last_will_enable (c_flags c) b), b; try done. simpl. by intros ->.
Qed.

Lemma run_end_prologue {E} r n c s : session_at n (c_ref c) = Some s →
  let d := di_mqtt_disconnect (s_disconnect s) in let b := clean_session s d in
  ∃ n1 c1 s1, run_end scx r (E := E) (n, c) = (wd ← settle_will scx b; farewell scx d b wd) (n1, c1) ∧
    session_at n1 (c_ref c1) = Some s1 ∧ will_calls n1 = will_calls n ∧ c_flags c1 = c_flags c ∧
    s_conn_info s1 = s_conn_info s.
Proof.
  intros Hs d b.
  set (f := match r with Err reason => disconnected_reason_add reason | _ => λ s, s end).
  assert (H0 : ∃ n0, (match r with Err reason => on_self (disconnected_reason_add reason) | _ => mret tt end : M _ E _) (n, c) =
    (Ok tt, (n0, c)) ∧ session_at n0 (c_ref c) = Some (f s) ∧ n_hooks n0 = n_hooks n ∧ n_now n0 = n_now n).
  { destruct r as [u|reason|]; [by exists n| |by exists n].
    exists (on_session_obj (c_ref c) (disconnected_reason_add reason) n). split; [reflexivity|].
    split; [by rewrite (session_at_obj (c_ref c)), decide_True, Hs by done|done]. }
  destruct H0 as (n0 & H0 & Hs0 & Hh0 & _). unfold run_end. rewrite (bind_ok _ _ _ _ _ H0).
  set (n1 := on_n_connections dec n0). set (c1 := sink_close c).
  assert (Hs1 : session_at n1 (c_ref c1) = Some (f s)) by exact Hs0.
  rewrite (bind_ok _ _ _ _ _ (eq_refl : nmod (E := E) (on_n_connections dec) (n0, c) = (Ok tt, (n1, c)))).
  rewrite (bind_ok _ _ _ _ _ (eq_refl : cmod (E := E) sink_close (n1, c) = (Ok tt, (n1, c1)))).
  rewrite (bind_ok _ _ _ _ _ (self_ok _ _ _ Hs1)).
  assert (Hd : di_mqtt_disconnect (s_disconnect (f s)) = d) by (unfold f; by destruct r).
  assert (Hb : clean_session (f s) d = b) by (unfold f, b, d, clean_session; by destruct r).
  exists (on_session_obj (c_ref c1) (disconnected_set (n_now n1) None None) n1), c1, (disconnected_set (n_now n1) None None (f s)).
  split; [by rewrite Hd, Hb|]. split; [by rewrite (session_at_obj (c_ref c1)), decide_True, Hs1 by done|].
  split; [unfold will_calls; by rewrite <-Hh0|]. split; [done|]. unfold f. by destruct r.
Qed.

Lemma quiet_recv {E} : keeps quiet_will (recv : M _ E _).
Proof.
  unfold recv. keeps. apply quiet_node, keeps_state. intros n. apply calls_none.
  by destruct (ch_msgs <$> n_chans n !! a) as [[|m ms]|].
Qed.
#[local] Hint Resolve quiet_recv : keeps.

Lemma quiet_offline_forward {E} from p : keeps quiet_will (offline_forward from p : M _ E _).
Proof. unfold offline_forward, queue_send, drop_queue_full. keeps. Qed.
#[local] Hint Resolve quiet_offline_forward : keeps.

Lemma quiet_drain {E} fuel : keeps quiet_will (drain_rx fuel : M _ E _).
Proof. induction fuel as [|fuel IH]; simpl; keeps. Qed.
#[local] Hint Resolve quiet_drain : keeps.

Lemma quiet_oneshot {E} o v : keeps quiet_will (nmod (oneshot_send o v) : M _ E _).
Proof. apply quiet_nmod. intros n. apply calls_none. unfold oneshot_send. by destruct (oneshot_closed n o). Qed.
#[local] Hint Resolve quiet_oneshot : keeps.

Lemma quiet_offline_turn {E} wd ev : ev = OffMessage ∨ wd = None → keeps quiet_will (offline_turn scx wd ev : M _ E _).
Proof.
  intros H. unfold offline_turn, kicked, pending.
  destruct ev; [keeps|destruct H as [?| ->]; [done|]; cbn [is_some]; keeps..].
Qed.

(** What a turn leaves of the will that waits. *)
Lemma yields_offline_turn {E} wd ev :
  yields (λ t, ∀ wd', t = Continue wd' → wd' = None ∨ wd' = wd ∧ (wd = None ∨ ev = OffMessage))
    (offline_turn scx wd ev : M _ E _).
Proof.
  destruct ev; cbn [offline_turn].
  - apply yields_bind. intros m.
    destruct m as [[]|]; try (apply yields_ret; intros wd' [= <-]; by auto).
    + apply yields_bind. intros _. apply yields_ret. intros wd' [= <-]. by auto.
    + apply yields_bind. intros []; [apply yields_ret; intros wd' [= <-]; by auto|].
      do 4 (apply yields_bind; intros ?). by apply yields_ret.
  - apply yields_bind. intros _. by apply yields_ret.
  - apply yields_bind. intros _. apply yields_ret. intros wd' [= <-]. by left.
Qed.

Lemma offline_turn_at_most {E} wd ev st :
  (will_calls (offline_turn scx wd ev (E := E) st).2.1 ≤ will_calls st.1 + 1)%nat.
Proof.
  destruct (decide (wd = None)) as [->|Hwd].
  { pose proof (quiet_offline_turn (E := E) None ev (or_intror eq_refl) st) as H. unfold quiet_will in H. lia. }
  destruct wd as [d|]; [|done]. destruct ev.
  - pose proof (quiet_offline_turn (E := E) (Some d) OffMessage (or_introl eq_refl) st) as H. unfold quiet_will in H. lia.
  - cbn [offline_turn is_some]. unfold attempt, mbind, M_bind. pose proof (last_will_at_most st).
    by destruct (process_last_will scx st) as [[| |] ?].
  - cbn [offline_turn is_some]. unfold attempt, mbind, M_bind. pose proof (last_will_at_most st).
    by destruct (process_last_will scx st) as [[| |] ?].
Qed.

Lemma offline_at_most {E} wd evs st :
  (will_calls (offline_run_loop scx wd evs (E := E) st).2.1 ≤ will_calls st.1 + (if is_some wd then 1 else 0))%nat.
Proof.
  revert wd st. induction evs as [|ev evs IH]; intros wd st; simpl; [lia|].
  pose proof (offline_turn_at_most (E := E) wd ev st) as H1.
  pose proof (yields_offline_turn (E := E) wd ev st) as Hy.
  pose proof (quiet_offline_turn (E := E) wd ev) as Hq. unfold mbind, M_bind.
  destruct (offline_turn scx wd ev st) as [[t|e|] st1] eqn:Ht; simpl in *.
  2,3: destruct wd; simpl in *; [lia|]; specialize (Hq (or_intror eq_refl) st); unfold quiet_will in Hq; rewrite Ht in Hq; simpl in Hq; lia.
  destruct t as [|wd'].
  - simpl. destruct wd; simpl in *; [lia|]. specialize (Hq (or_intror eq_refl) st). unfold quiet_will in Hq. rewrite Ht in Hq. simpl in Hq. lia.
  - specialize (IH wd' st1). destruct (Hy (Continue wd') st1 eq_refl wd' eq_refl) as [->|[-> Hor]].
    + simpl in IH. destruct wd; simpl in *; [lia|]. specialize (Hq (or_intror eq_refl) st). unfold quiet_will in Hq. rewrite Ht in Hq. simpl in Hq. lia.
    + assert (Hq' : quiet_will st st1).
      { specialize (Hq ltac:(naive_solver) st). by rewrite Ht in Hq. }
      unfold quiet_will in Hq'. lia.
Qed.

(** *** Until the will falls due *)

(** Nobody's connection data change. *)
Definition same_infos : relation (Node * Conn) := λ s s',
  c_ref s'.2 = c_ref s.2 ∧
  ∀ r, s_conn_info <$> session_at s'.1 r = s_conn_info <$> session_at s.1 r.

#[local] Instance same_infos_preorder : PreOrder same_infos.
Proof.
  split; [done|]. intros s1 s2 s3 [R1 H1] [R2 H2]. split; [congruence|]. intros r. by rewrite H2.
Qed.

Lemma infos_nmod {E} (f : Node → Node) :
  (∀ n r, s_conn_info <$> session_at (f n) r = s_conn_info <$> session_at n r) → keeps same_infos (nmod f : M _ E _).
Proof. intros H. apply keeps_nmod. intros n c. split; [done|]. intros r. apply H. Qed.
Lemma infos_on_self {E} (f : Session → Session) :
  (∀ s, s_conn_info (f s) = s_conn_info s) → keeps same_infos (on_self f : M _ E _).
Proof.
  intros H. apply keeps_on_self; [apply _|]. intros n c r. split; [done|]. intros r'. cbn [fst]. rewrite session_at_obj.
  case_decide; [subst|done]. destruct (session_at n r); simpl; [by rewrite H|done].
Qed.
Lemma infos_cmod {E} (f : Conn → Conn) : (∀ c, c_ref (f c) = c_ref c) → keeps same_infos (cmod f : M _ E _).
Proof. intros H. apply keeps_cmod. intros n c. split; [apply H|done]. Qed.
Lemma infos_recv {E} : keeps same_infos (recv : M _ E _).
Proof.
  unfold recv. keeps. apply keeps_on_node. intros c. apply keeps_state. intros n.
  by destruct (ch_msgs <$> n_chans n !! a) as [[|m ms]|].
Qed.

#[local] Hint Extern 1 (keeps same_infos (nmod _)) => apply infos_nmod; intros n ?; done : keeps.
#[local] Hint Extern 1 (keeps same_infos (on_self _)) => apply infos_on_self; intros ?; done : keeps.
#[local] Hint Extern 1 (keeps same_infos (cmod _)) => apply infos_cmod; intros ?; done : keeps.
#[local] Hint Resolve infos_recv : keeps.

Lemma infos_oneshot {E} o v : keeps same_infos (nmod (oneshot_send o v) : M _ E _).
Proof. apply infos_nmod. intros n r. unfold oneshot_send. by destruct (oneshot_closed n o). Qed.
Lemma infos_flag {E} f : keeps same_infos (flag f : M _ E _).
Proof. unfold flag. keeps. Qed.
Lemma infos_sink_send p : keeps same_infos (sink_send p).
Proof.
  intros [n c]. unfold sink_send. simpl. destruct (c_closed c); [done|]. by destruct (c_io c (c_writes c)).
Qed.
#[local] Hint Resolve infos_oneshot infos_flag infos_sink_send : keeps.

Lemma infos_offline_forward {E} from p : keeps same_infos (offline_forward from p : M _ E _).
Proof. unfold offline_forward, queue_send, drop_queue_full, message_dropped. keeps. Qed.
#[local] Hint Resolve infos_offline_forward : keeps.

Lemma infos_drain {E} fuel : keeps same_infos (drain_rx fuel : M _ E _).
Proof. induction fuel as [|fuel IH]; simpl; keeps. Qed.
#[local] Hint Resolve infos_drain : keeps.

Lemma infos_offline_message {E} wd : keeps same_infos (offline_turn scx wd OffMessage : M _ E _).
Proof. unfold offline_turn, kicked, pending. keeps. Qed.

Lemma infos_drop_queue {E} fuel r : keeps same_infos (drop_queue fuel r : M _ E _).
Proof. induction fuel as [|fuel IH]; simpl; keeps. Qed.
Lemma infos_drop_inflight {E} fuel r : keeps same_infos (drop_inflight fuel r : M _ E _).
Proof. induction fuel as [|fuel IH]; simpl; keeps. Qed.

Lemma infos_clear c self id tfs : keeps (node_rel same_infos c) (clear_subscriptions self id tfs).
Proof.
  induction tfs as [|tf tfs IH]; simpl; keeps. unfold _unsubscribe. keeps.
  - intros n. unfold node_router_remove. by destruct (router_remove _ _ _) as [[]].
  - apply keeps_state. intros n. split; [done|]. intros r. cbn [fst]. unfold subscriptions_remove, on_subs.
    destruct (session_at n _) eqn:Hs; [|done]. destruct (subs_remove _ _) as [? [? ?]]. cbn [snd].
    rewrite session_at_obj. case_decide; [subst|done]. unfold session_at in *. simpl. by rewrite Hs.
Qed.

Lemma infos_clean {E} r : keeps same_infos (clean r : M _ E _).
Proof.
  unfold clean, _remove_with, remove_peer. pose proof infos_clear.
  pose proof (@infos_drop_queue E). pose proof (@infos_drop_inflight E). keeps.
  apply keeps_on_node. intros c. keeps.
  all: try (apply keeps_same; [apply _|]; intros n; unfold get_session; by destruct (session_at n _)).
  apply keeps_modify. done.
Qed.
#[local] Hint Resolve infos_clean : keeps.

(** [disconnected_reason_take] of the session of the task. *)
Lemma infos_take {E} :
  keeps same_infos (s ← self; let '(r, s') := disconnected_reason_take s in on_self (λ _, s');; mret r : M _ E Reason).
Proof.
  intros [n c]. destruct (session_at n (c_ref c)) as [s|] eqn:Hs.
  - rewrite (bind_ok _ _ _ _ _ (self_ok _ _ _ Hs)). simpl. split; [done|]. intros r. cbn [fst].
    rewrite (session_at_obj (c_ref c)). case_decide as Hd; [|done]. by rewrite Hd, Hs.
  - unfold self, get_session. mrun. by rewrite Hs.
Qed.
#[local] Hint Resolve infos_take : keeps.

Lemma infos_farewell {E} d b wd : keeps same_infos (farewell scx d b wd : M _ E _).
Proof.
  pose proof (@infos_take E) as Ht. unfold farewell. cbv zeta. repeat (first [exact Ht|keeps_step]; cbv beta).
Qed.

(** Messages alone do not make the will fall due. *)
Lemma yields_offline_message {E} wd :
  yields (λ t, ∀ wd', t = Continue wd' → wd' = wd) (offline_turn scx wd OffMessage : M _ E _).
Proof.
  cbn [offline_turn]. apply yields_bind. intros m.
  destruct m as [[]|]; try (apply yields_ret; by intros wd' [= <-]).
  - apply yields_bind. intros _. apply yields_ret. by intros wd' [= <-].
  - apply yields_bind. intros []; [apply yields_ret; by intros wd' [= <-]|].
    do 4 (apply yields_bind; intros ?). by apply yields_ret.
Qed.

Lemma offline_messages {E} wd msgs st : Forall (eq OffMessage) msgs →
  let '(r, st') := offline_run_loop scx wd msgs (E := E) st in
  will_calls st'.1 = will_calls st.1 ∧ same_infos st st' ∧ ∀ wd' b, r = Ok (wd', b) → wd' = wd.
Proof.
  intros Hm. revert st. induction Hm as [|ev msgs <- _ IH]; intros st; cbn [offline_run_loop].
  { split; [done|]. split; [done|]. by intros wd' b [= <- _]. }
  pose proof (quiet_offline_turn (E := E) wd OffMessage (or_introl eq_refl) st) as Hq.
  pose proof (infos_offline_message (E := E) wd st) as Hi. pose proof (yields_offline_message (E := E) wd st) as Hy.
  unfold mbind, M_bind. destruct (offline_turn scx wd OffMessage st) as [[t|e|] st1]; cbn [snd] in *; [|by split..].
  destruct t as [|wd1]; [split; [done|]; split; [done|]; by intros wd' b [= <- _]|].
  rewrite (Hy _ _ eq_refl wd1 eq_refl). specialize (IH st1). destruct (offline_run_loop scx wd msgs st1) as [r st2].
  destruct IH as (Hw & Hs & Hr). unfold quiet_will in Hq. split; [congruence|]. split; [by etrans|done].
Qed.

Lemma offline_loop_app {E} wd evs1 evs2 st :
  offline_run_loop scx wd (evs1 ++ evs2) (E := E) st =
  match offline_run_loop scx wd evs1 st with
  | (Ok (wd', gone), st') => if gone : bool then (Ok (wd', true), st') else offline_run_loop scx wd' evs2 st'
  | r => r
  end.
Proof.
  revert wd st. induction evs1 as [|ev evs1 IH]; intros wd st; [done|]. cbn [app offline_run_loop].
  unfold mbind, M_bind. destruct (offline_turn scx wd ev st) as [[t|e|] st1]; [|done..]. destruct t as [|wd']; [done|]. apply IH.
Qed.

(** Without a will that waits none is published. *)
Lemma offline_none {E} evs st : will_calls (offline_run_loop scx None evs (E := E) st).2.1 = will_calls st.1.
Proof.
  revert st. induction evs as [|ev evs IH]; intros st; [done|]. cbn [offline_run_loop].
  pose proof (quiet_offline_turn (E := E) None ev (or_intror eq_refl) st) as Hq.
  pose proof (yields_offline_turn (E := E) None ev st) as Hy. unfold quiet_will in Hq. unfold mbind, M_bind.
  destruct (offline_turn scx None ev st) as [[t|e|] st1]; cbn [snd] in *; [|done..]. destruct t as [|wd']; [done|].
  assert (wd' = None) as -> by (destruct (Hy _ _ eq_refl wd' eq_refl) as [?|[? _]]; done). by rewrite IH.
Qed.

(** The delay or the session runs out. *)
Lemma offline_due {E} wd ev rest n c s : session_at n (c_ref c) = Some s → ev ≠ OffMessage →
  will_calls (offline_run_loop scx (Some wd) (ev :: rest) (E := E) (n, c)).2.1 =
  (will_calls n + (if has_will s then 1 else 0))%nat.
Proof.
  intros Hs Hev. pose proof (last_will_calls n c s Hs) as Hw. cbn [offline_run_loop].
  destruct ev; [done|..]; cbn [offline_turn is_some]; unfold attempt, mbind, M_bind, mret, M_ret;
    destruct (process_last_will scx (n, c)) as [[u|e|] st]; cbn [snd] in *; try done; by rewrite offline_none.
Qed.

Lemma quiet_offline_end {E} : keeps quiet_will (offline_end : M _ E _).
Proof. unfold offline_end. keeps. Qed.

(** What becomes of a will that waits with a session that has no connection. *)
Lemma offline_will {E} wd msgs n c s :
  session_at n (c_ref c) = Some s → (is_some wd = true → has_will s = true) → Forall (eq OffMessage) msgs →
  let '(r, st1) := offline_run_loop scx wd msgs (E := E) (n, c) in
  will_calls st1.1 = will_calls n ∧
  (∀ wd' rest, r = Ok (wd', true) →
     will_calls (offline_run_loop scx wd (msgs ++ rest) (E := E) (n, c)).2.1 = will_calls n) ∧
  (∀ wd' ev rest, r = Ok (wd', false) → ev ≠ OffMessage →
     will_calls (offline_run_loop scx wd (msgs ++ ev :: rest) (E := E) (n, c)).2.1 =
     (will_calls n + (if is_some wd then 1 else 0))%nat).
Proof.
  intros Hs Hwd Hm. pose proof (offline_messages (E := E) wd msgs (n, c) Hm) as H.
  pose proof (λ rest, offline_loop_app (E := E) wd msgs rest (n, c)) as Happ.
  destruct (offline_run_loop scx wd msgs (n, c)) as [r [n1 c1]]. destruct H as (Hw & [Hc Hi] & Hr). cbn [fst snd] in *.
  split; [done|]. split.
  - intros wd' rest ->. by rewrite Happ.
  - intros wd' ev rest -> Hev. rewrite Happ. rewrite (Hr _ _ eq_refl). destruct wd as [d|]; [|by rewrite offline_none, Nat.add_0_r].
    specialize (Hi (c_ref c)). rewrite Hs in Hi. destruct (session_at n1 (c_ref c)) as [s1|] eqn:Hs1; [|done].
    injection Hi as Hi. rewrite (offline_due d ev rest n1 c1 s1) by (done || by rewrite Hc).
    assert (has_will s1 = true) as -> by (unfold has_will in *; rewrite Hi; by apply Hwd). by rewrite Hw.
Qed.

End End_.

(** ** Client c1 loses its connection, with a will *)

Definition c1_will : MqttV3.LastWill := MqttV3.mkLastWill AtLeastOnce false (lit "will") [1].
Definition dying_node : Node := (connect (sample_v3 (lit "c1") false (Some c1_will)) empty_node).2.


Lemma dying_consistent : consistent dying_node.
Proof.
  pose proof (consistent_enter empty_node c1_id 4 listener_new None 16 0 (sample_v3 (lit "c1") false (Some c1_will))
    false false 0 empty_consistent eq_refl) as H.
  apply H. intros tf opts. unfold subscribed. simpl. by rewrite lookup_empty.
Qed.

Lemma clean_reports_all_witness :
  ∃ n' s', clean (E := Reason) SessionExpiration (dying_node, sample_conn 1 false) = (Ok tt, (n', sample_conn 1 false)) ∧
    session_at n' 1 = Some s' ∧ q_inner (s_queue s') = [] ∧ n_peers n' = delete (lit "c1") (n_peers dying_node).
Proof.
  destruct (session_at dying_node 1) as [s|] eqn:Hs; [|vm_compute in Hs; discriminate].
  destruct (clean_reports_all (E := Reason) SessionExpiration dying_node (sample_conn 1 false) s Hs dying_consistent)
    as (n' & s' & Hrun & Hs' & Hq & _ & _ & Hreg).
  assert (Hid : s_id s = c1_id) by (apply (f_equal (fmap s_id)) in Hs; vm_compute in Hs; by injection Hs).
  rewrite Hid in Hreg. rewrite decide_True in Hreg by (vm_compute; reflexivity).
  exists n', s'. split; [exact Hrun|]. split; [exact Hs'|]. split; [exact Hq|]. apply Hreg.
Defined.
