(* ===== verification/SessionDeliver.v ===== *)
(** * Delivering to the client

    [SessionState::deliver]: what becomes of a message that is taken out of the
    delivery queue. *)

From stdpp Require Import base list numbers option gmap strings relations.
From Stdlib Require Import ZArith Lia.
From S2P Require Import Prelude Errors CodecTypes PacketV5 Topic Counter Hash BrokerTypes Queue Inflight.
From S2P Require Import RetainStore Router Acl Alias Hook Delayed SessionSubs ConnInfo Fitter Broker Session.
From S2P Require Import SessionLoop SessionFrame Sample Registry Takeover Lifecycle.

#[local] Open Scope Z_scope.

Section Deliver.
Context `{B : Backend} `{!BackendOk B} (scx : ServerContext).

(** No plugin replaces messages on their way out. *)
Definition plain_delivery : Prop := ∀ s f p, message_delivered (sc_hooks scx) s f p = None.

(** The table of aliases has at most [u16::MAX] entries. *)
Definition aliases_bounded (c : Conn) : Prop :=
  match c_server_aliases c with Some sa => u16_range (sa_max_topic_aliases sa) | None => True end.

Definition publish_in (p : Packet) : option CodecTypes.Publish :=
  match p with PktV3 (MqttV3.PPublish p) | PktV5 (V5Publish p) => Some p | _ => None end.

(** The packet has the topic of the message, or the alias by which the client knows
    it already. *)
Definition topic_told (c : Conn) (p q : CodecTypes.Publish) : Prop :=
  topic q = topic p ∨
  topic q = [] ∧ c_v5 c = true ∧
    ∃ sa a, c_server_aliases c = Some sa ∧ sa_aliases sa !! topic p = Some a ∧
            ∀ qq, properties q = Some qq → topic_alias qq = Some a.

(** It has its properties, with the time that is left to it. *)
Definition properties_told (c : Conn) (expiry : option Z) (p q : CodecTypes.Publish) : Prop :=
  if c_v5 c then
    match properties p, properties q with
    | Some pp, Some qq => set_expiry_alias None None qq = set_expiry_alias None None pp ∧
                          message_expiry_interval qq = expiry
    | None, None => True
    | _, _ => False
    end
  else properties q = properties p.

(** The packet is the message: the same QoS, identifier, payload and flags, and its
    topic and properties. *)
Definition same_message (c : Conn) (expiry : option Z) (p q : CodecTypes.Publish) : Prop :=
  (qos q = qos p ∧ packet_id q = packet_id p ∧ payload q = payload p ∧ dup q = dup p ∧ retain q = retain p) ∧
  topic_told c p q ∧ properties_told c expiry p q.

Lemma server_get_ok t sa : u16_range (sa_max_topic_aliases sa) → ∃ r a sa', server_get t sa = (Ok (r, a), sa') ∧
  (r = Some t ∨ r = None ∧ ∃ i, a = Some i ∧ sa_aliases sa !! t = Some i).
Proof.
  intros Hr. unfold server_get. destruct (_ =? 0); [do 3 eexists; split; [reflexivity|by left]|].
  destruct (sa_aliases sa !! t) as [i|]; [do 3 eexists; split; [reflexivity|right; by eauto]|].
  destruct (Z.leb_spec (sa_max_topic_aliases sa) (Z.of_nat (size (sa_aliases sa)))) as [|Hlt]; [do 3 eexists; split; [reflexivity|by left]|].
  destruct (Z.eqb_spec (as_u16 (Z.of_nat (size (sa_aliases sa)) + 1)) 0) as [Hz|]; [|do 3 eexists; split; [reflexivity|by left]].
  unfold as_u16, u16_range in *. rewrite Z.mod_small in Hz by lia. lia.
Qed.

(** Writing a message succeeds or leaves the client without it. *)
Lemma sink_publish_msg_cases p expiry n c : aliases_bounded c →
  ∃ c', c_ref c' = c_ref c ∧
    ((∃ pkt q, sink_publish_msg p expiry (n, c) = (Ok tt, (n, c')) ∧ c_sent c' = c_sent c ++ [pkt] ∧
               publish_in pkt = Some q ∧ same_message c expiry (inner p) q) ∨
     (∃ e, sink_publish_msg p expiry (n, c) = (Err e, (n, c')) ∧ c_sent c' = c_sent c)).
Proof.
  intros Ha. assert (Hsend : ∀ pkt q c0, publish_in pkt = Some q → same_message c expiry (inner p) q →
    c_sent c0 = c_sent c → c_ref c0 = c_ref c →
    ∃ c', c_ref c' = c_ref c ∧
      ((∃ pkt' q, sink_send pkt (n, c0) = (Ok tt, (n, c')) ∧ c_sent c' = c_sent c ++ [pkt'] ∧
                 publish_in pkt' = Some q ∧ same_message c expiry (inner p) q) ∨
       (∃ e, sink_send pkt (n, c0) = (Err e, (n, c')) ∧ c_sent c' = c_sent c))).
  { intros pkt q c0 Hq Hs He Hr. unfold sink_send. simpl.
    destruct (c_closed c0); [|destruct (c_io c0 (c_writes c0))];
      eexists; (split; [|first [right; eexists; split; [reflexivity|simpl; by rewrite app_nil_r, He]
                               |left; exists pkt, q; split; [reflexivity|split; [simpl; by rewrite He|done]]]]); done. }
  unfold sink_publish_msg. mrun. destruct (c_v5 c) eqn:Hv.
  - assert (Hp : ∃ q sa, sink_publish (inner p) expiry (c_server_aliases c) = (Ok q, sa) ∧ same_message c expiry (inner p) q).
    { unfold sink_publish, aliases_bounded, same_message, topic_told, properties_told in *. rewrite Hv.
      destruct (c_server_aliases c) as [sa|].
      - destruct (server_get_ok (topic (inner p)) sa Ha) as (t & a & sa' & -> & Hta).
        eexists _, _. split; [reflexivity|]. cbn [qos packet_id payload dup retain topic properties].
        split; [done|]. split; [|by destruct (properties (inner p))].
        destruct Hta as [->|(-> & i & -> & Hi)]; [by left|]. right. do 2 (split; [done|]). exists sa, i.
        do 2 (split; [done|]). intros qq. destruct (properties (inner p)); [|done]. by intros [= <-].
      - eexists _, _. split; [reflexivity|]. split; [done|]. split; [by left|]. simpl. by destruct (properties (inner p)). }
    destruct Hp as (q & sa & -> & Hq). by eapply Hsend.
  - eapply Hsend; [done| |done..]. unfold same_message, topic_told, properties_told. rewrite Hv. by split_and!; [..|left|].
Qed.

(** A message that needs an identifier and has none of its own. *)
Definition needs_id (p : BrokerTypes.Publish) : bool :=
  is_some (moment_status (qos (inner p))) && (negb (dup (inner p)) || negb (is_some (packet_id (inner p)))).

(** What delivering [p] has done to the window when it was written as [q]. *)
Definition tracked (o o' : OutInflight (Q := DQ (Backend := B))) (now : Z) (from : From) (p : BrokerTypes.Publish) (q : CodecTypes.Publish) : Prop :=
  match moment_status (qos q) with
  | None => entries o' = entries o
  | Some st =>
      ∃ id, packet_id q = Some id ∧
        let m := out_msg_new now st from (on_inner (set_packet_id (Some id)) p) in
        if needs_id p then nz_u16 id ∧ assoc id (entries o) = None ∧ entries o' = entries o ++ [(id, m)]
        else packet_id (inner p) = Some id ∧ entries o' ≡ₚ (id, m) :: without id (entries o)
  end.

(** The identifier is fresh, or there is none left. *)
Lemma with_packet_id_spec p n c s : session_at n (c_ref c) = Some s → u16_range (next (s_out s)) →
  (∃ n2 s2 p2, with_packet_id p (n, c) = (Ok p2, (n2, c)) ∧ session_at n2 (c_ref c) = Some s2 ∧
     s_id s2 = s_id s ∧ s_queue s2 = s_queue s ∧ entries (s_out s2) = entries (s_out s) ∧ n_now n2 = n_now n ∧
     if needs_id p then ∃ id, p2 = on_inner (set_packet_id (Some id)) p ∧ nz_u16 id ∧ assoc id (entries (s_out s)) = None
     else p2 = p) ∨
  (∃ n2 s2 e, with_packet_id p (n, c) = (Err e, (n2, c)) ∧ session_at n2 (c_ref c) = Some s2 ∧ s_queue s2 = s_queue s ∧
     entries (s_out s2) = entries (s_out s)).
Proof.
  intros Hs Hn. unfold with_packet_id. fold (needs_id p). destruct (needs_id p) eqn:Hneed; [|left; by exists n, s, p].
  rewrite (bind_ok _ _ _ _ _ (self_ok (E := Error) n c s Hs)).
  pose proof (next_id_spec (s_out s) Hn) as Hnext. destruct (next_id (s_out s)) as [pid o].
  destruct Hnext as (He & _ & _ & Hpid).
  set (n2 := on_session_obj (c_ref c) (on_s_out (λ _, o)) n).
  assert (Hs2 : session_at n2 (c_ref c) = Some (on_s_out (λ _, o) s)).
  { unfold n2. rewrite session_at_obj, decide_True by done. by rewrite Hs. }
  destruct pid as [id|].
  - left. exists n2, (on_s_out (λ _, o) s), (on_inner (set_packet_id (Some id)) p).
    split; [reflexivity|]. split; [done|]. do 4 (split; [done|]). exists id. naive_solver.
  - right. exists n2, (on_s_out (λ _, o) s). eexists. split; [reflexivity|]. done.
Qed.

(** The hooks of a delivery record their calls. *)
Lemma hook_expiry_check_ok from p n c s :
  session_at n (c_ref c) = Some s →
  hook_expiry_check scx (E := Error) from p (n, c) =
    (Ok (message_expiry_check (sc_hooks scx) (n_now n) (as_millis (lc_message_expiry_interval (s_listen_cfg s))) (s_id s) from p),
     (hook (MessageExpiryCheck (s_id s) from p) n, c)).
Proof. intros Hs. unfold hook_expiry_check. by rewrite (bind_ok _ _ _ _ _ (self_ok _ _ _ Hs)). Qed.

Lemma hook_delivered_ok from p n c s :
  plain_delivery → session_at n (c_ref c) = Some s →
  hook_delivered scx (E := Error) from p (n, c) = (Ok p, (hook (MessageDelivered (s_id s) from p) n, c)).
Proof.
  intros Hplain Hs. unfold hook_delivered. rewrite (bind_ok _ _ _ _ _ (self_ok _ _ _ Hs)). mrun. by rewrite Hplain.
Qed.

End Deliver.


(** ** The window can overflow

    The loop asks for credit before it delivers, but not before a PUBREL is
    repeated: [retransmit] takes the message out of the window, a delivery uses
    the credit that this frees, and [send_rerelease] puts the message back. *)

Definition later (ms : Z) (s : Node * Conn) : Node * Conn :=
  let n := s.1 in
  (mkNode (n_now n + ms) (n_instant n) (n_router n) (n_shared n) (n_lockers n) (n_peers n) (n_sessions n)
     (n_chans n) (n_retain n) (n_delayed n) (n_msgs n) (n_sub_stats n) (n_session_count n) (n_connections n)
     (n_oneshots n) (n_hooks n) (n_tasks n) (n_next n), s.2).

(** Client c1 with a window of one message, and two messages for it. *)
Definition narrow : Node * Conn :=
  let ci := sample_v3 (lit "c1") false None in
  let '(r, n) := session_new (ci_id ci) 4 listener_new None 1 0 ci false false true 0 ∅ None empty_node in
  let m t := Forward (from_custom (ci_id ci)) (publish_of (sample_publish ExactlyOnce None t)) in
  (entry_set (ci_id ci) r r (on_n_chans <[r := mkChan true [m (lit "a"); m (lit "b")]]> n), sample_conn r false).

Definition turns (evs : list LoopEvent) (s : Node * Conn) : Node * Conn := (run_loop sample_server true evs s).2.

Example window_overflows :
  let s := turns [EvMessage; EvMessage; EvDeliver; EvPacket (Ok (Some (PktV3 (MqttV3.PPublishReceived 1))))] narrow in
  let s := turns [EvRetransmit; EvDeliver; EvMessage] (later 30000 s) in
  (length ∘ entries ∘ s_out <$> session_at s.1 1 = Some 2%nat) ∧
  (loop_turn sample_server true EvDeliver s).1 = Panic ∧
  (loop_turn sample_server false EvDeliver s).1 = Ok tt.
Proof. vm_compute. done. Qed.
