(* ===== verification/Connect.v ===== *)
(** * Connecting is safe

    The handshake of both protocols: what is checked before an earlier session of
    the client is touched, and what the node looks like when it is over. *)

From stdpp Require Import base list numbers option gmap strings relations.
From Stdlib Require Import ZArith Lia.
From S2P Require Import Prelude Errors CodecTypes PacketV5 Topic Counter Hash BrokerTypes Queue Inflight.
From S2P Require Import RetainStore Router Acl Alias Hook Delayed SessionSubs ConnInfo Fitter Broker Session.
From S2P Require Import SessionLoop Handshake SessionFrame Sample SessionQos Delivery Registry Takeover.
From S2P Require Import Lifecycle Continuity.

#[local] Open Scope Z_scope.

Section Connect.
Context `{B : Backend, !BackendOk B} (scx : ServerContext).

(** The plugin that subscribes for clients does not panic. *)
Hypothesis Hauto : ∀ f id, sc_auto_subscription scx = Some f → f id ≠ Panic.

(** ** The node between the steps *)

(** The router has nothing of the identity of the new connection. *)
Definition unknown (id : Id) (n : Node) : Prop :=
  ∀ tf opts, subscribed (n_router n) tf (id_client_id id) ≠ Some (id, opts).
Definition sound (id : Id) (n : Node) : Prop := consistent n ∧ unknown id n.

Lemma sound_frame id n n' :
  n_peers n' = n_peers n → n_router n' = n_router n → n_sessions n' = n_sessions n → n_next n ≤ n_next n' →
  sound id n → sound id n'.
Proof.
  intros Ep Er Es En [Hc Hu]. split; [|unfold unknown; by rewrite Er].
  apply (consistent_other n); try done. intros r. unfold session_at. by rewrite Es.
Qed.

Lemma sound_leave id clean_start clear n : sound id n →
  let '(r, n') := after_answer id clean_start clear n in
  sound id n' ∧ peer n' (id_client_id id) = None ∧
  ∃ k, r = Ok k ∧ (clean_start = true → ∀ o, k ≠ OffExist (Some o)).
Proof.
  intros [Hc Hu]. pose proof (consistent_leave n id clean_start clear Hc) as Hc'.
  destruct (peer n (id_client_id id)) as [p|] eqn:Hp.
  - destruct (co_entries n Hc _ _ Hp) as (s & Hs & _).
    destruct (after_answer_spec id clean_start clear p s n Hp Hs (co_router n Hc))
      as (n' & s' & Ha & P & _ & _ & _ & _ & _ & Hsub & _). rewrite Ha in *. simpl in Hc'.
    split; [split; [done|]|split].
    + intros tf opts. rewrite Hsub. destruct (decide _); [done|apply Hu].
    + unfold peer. rewrite P. apply lookup_delete_eq.
    + eexists. split; [done|]. by intros -> o [=].
  - unfold after_answer, _remove in *. mrun. revert Hc'. mrun. rewrite Hp. intros Hc'. split; [done|]. split; [done|]. by eexists.
Qed.

Lemma kick_sound id clean_start clear is_admin wait n :
  sound id n → (∀ n, sound id n → sound id (wait n)) →
  let '(r, n') := kick id clean_start clear is_admin wait n in
  sound id n' ∧
  match r with
  | Ok k => peer n' (id_client_id id) = None ∧ (clean_start = true → ∀ o, k ≠ OffExist (Some o))
  | Err _ => True
  | Panic => False
  end.
Proof.
  intros Hn Hw.
  assert (Hend : ∀ n, sound id n → let '(r, n') := after_answer id clean_start clear n in sound id n' ∧
    match r with
    | Ok k => peer n' (id_client_id id) = None ∧ (clean_start = true → ∀ o, k ≠ OffExist (Some o))
    | Err _ => True
    | Panic => False
    end).
  { clear n Hn. intros n Hn. pose proof (sound_leave id clean_start clear n Hn) as H.
    destruct (after_answer _ _ _ n) as [r n']. by destruct H as (H1 & H2 & k & -> & H3). }
  destruct (peer n (id_client_id id)) as [p|] eqn:Hp; [destruct (tx_is_closed n (e_tx p)) eqn:Hc|].
  - assert (kick id clean_start clear is_admin wait n = after_answer id clean_start clear n) as ->; [|by apply Hend].
    unfold kick, entry_tx, asks, mbind at 1, M_bind at 1. rewrite Hp. simpl. by rewrite Hc.
  - set (nw := wait (kick_asked id clean_start is_admin p n)).
    assert (Hnw : sound id nw).
    { apply Hw. unfold kick_asked, unbounded_send, fresh. destruct (tx_is_closed _ _); simpl;
        (eapply sound_frame; [| | | |exact Hn]; (done || (simpl; lia))). }
    assert (Hd : n_oneshots nw !! n_next n = Some OsSenderGone ∨ n_oneshots nw !! n_next n ≠ Some OsSenderGone)
      by (destruct (n_oneshots nw !! n_next n) as [[]|]; auto).
    destruct Hd as [Hg|Hg].
    + assert (kick id clean_start clear is_admin wait n =
        (Err (EOther (lit "recv kick result is RecvError(())")), nw)) as ->; [|done].
      set (nk := on_n_oneshots <[n_next n := OsOpen]> (on_n_next (λ k, k + 1) n)).
      assert (Hsend : unbounded_send (e_tx p) (Kick (n_next n) id clean_start is_admin) nk =
        (true, kick_asked id clean_start is_admin p n)).
      { unfold kick_asked, fresh. fold nk. unfold unbounded_send. unfold nk, tx_is_closed in *. simpl in *. by rewrite Hc. }
      unfold kick, entry_tx. mrun. rewrite Hp. simpl. rewrite Hc. simpl. fold nk. rewrite Hsend. simpl. fold nw. by rewrite Hg.
    + rewrite (kick_talk id clean_start clear is_admin wait p n Hp Hc Hg). apply Hend.
      eapply sound_frame; [| | | |exact Hnw]; (done || (simpl; lia)).
  - assert (kick id clean_start clear is_admin wait n = after_answer id clean_start clear n) as ->; [|by apply Hend].
    unfold kick, entry_tx, asks, mbind at 1, M_bind at 1. by rewrite Hp.
Qed.

(** ** From the take-over on *)

(** The connection [c] of [ci] is the registered one: its session is new and
    empty, and what is left of an earlier session waits in its channel. *)
Definition established (cfg : ListenerConfig) (ci : ConnectInfo) (c : Conn) (keep_alive told : Z) (present : bool)
    (n : Node) : Prop :=
  let r := c_ref c in
  peer n (id_client_id (ci_id ci)) = Some (mkEntryItem r r) ∧
  fitter_keep_alive (mkFitter ci cfg) (ci_keep_alive ci) = (Ok keep_alive, told) ∧
  c_sent c = [] ∧ c_closed c = false ∧
  (∃ s, session_at n r = Some s ∧ s_id s = ci_id ci ∧ s_conn_info s = ci ∧ s_listen_cfg s = cfg ∧
     session_connected s = true ∧ session_present s = present ∧
     s_subs s = ∅ ∧ q_inner (s_queue s) = [] ∧ entries (s_out s) = []) ∧
  ∃ ms, n_chans n !! r = Some (mkChan true ms) ∧
    (if present then ∃ o ms', ms = SessionStateTransfer o false :: ms'
     else ∀ o b, SessionStateTransfer o b ∉ ms) ∧
    (present = true → ci_clean_start ci = false).

Lemma take_over_sound unav ci wait n : let id := ci_id ci in
  sound id n → (∀ n, sound id n → sound id (wait n)) →
  let '(r, n') := take_over unav ci wait n in
  sound id n' ∧
  match r with
  | Ok (present, o) => peer n' (id_client_id id) = None ∧ present = is_some o ∧
      (present = true → ci_clean_start ci = false)
  | Err (ack, _) => ack = unav
  | Panic => False
  end.
Proof.
  intros id Hn Hw. unfold take_over, refused. mrun. fold id. pose proof (kick_sound id (ci_clean_start ci) (ci_clean_start ci) false wait n Hn Hw) as H.
  destruct (kick id _ _ _ _ _) as [[k|e|] n']; [|by destruct H|by destruct H]. destruct H as (H1 & Hp & Hk).
  destruct k as [[o|]|]; (split; [done|]); (split; [done|]); [|done..].
  destruct (ci_clean_start ci) eqn:Hcl; [|done]. exfalso. by eapply Hk.
Qed.

Lemma send_to_open tx m ms n : n_chans n !! tx = Some (mkChan true ms) →
  ∃ n', unbounded_send tx m n = (true, n') ∧ n_chans n' !! tx = Some (mkChan true (ms ++ [m])) ∧
    n_peers n' = n_peers n ∧ n_router n' = n_router n ∧ n_sessions n' = n_sessions n ∧ n_next n' = n_next n ∧
    n_lockers n' = n_lockers n.
Proof.
  intros H. unfold unbounded_send, tx_is_closed. rewrite H. simpl. eexists. split; [done|]. simpl.
  by rewrite lookup_alter_eq, H.
Qed.

(** What is done for a client that is registered leaves it registered. *)
Lemma announce_sound unav acc ci c o n : let id := ci_id ci in
  n_chans n !! c_ref c = Some (mkChan true []) →
  let '(r, n') := announce scx unav acc ci c o n in
  n_peers n' = <[id_client_id id := mkEntryItem (c_ref c) (c_ref c)]> (n_peers n) ∧ n_router n' = n_router n ∧
  n_sessions n' = n_sessions n ∧ n_next n' = n_next n ∧ n_lockers n' = n_lockers n ∧
  match r with
  | Ok _ => ∃ subs, n_chans n' !! c_ref c = Some (mkChan true
      (from_option (λ o, [SessionStateTransfer o (ci_clean_start ci)]) [] o ++ from_option (λ l, [MsgSubscribes l None]) [] subs))
  | Err (ack, _) => ack = unav
  | Panic => False
  end.
Proof.
  intros id Hch. unfold announce, refused. mrun.
  set (n1 := hook (ClientConnected (ci_id ci)) (hook (ClientConnack ci acc) (entry_set (ci_id ci) (c_ref c) (c_ref c) n))).
  assert (H1 : n_peers n1 = <[id_client_id id := mkEntryItem (c_ref c) (c_ref c)]> (n_peers n) ∧ n_router n1 = n_router n ∧
    n_sessions n1 = n_sessions n ∧ n_next n1 = n_next n ∧ n_lockers n1 = n_lockers n ∧
    n_chans n1 !! c_ref c = Some (mkChan true [])) by done.
  clearbody n1. destruct H1 as (P1 & R1 & S1 & N1 & L1 & C1).
  (* the state of the old session *)
  set (t := match o with Some o => _ | None => _ end).
  assert (Ht : ∃ n2, t n1 = (Ok tt, n2) ∧ n_peers n2 = n_peers n1 ∧ n_router n2 = n_router n1 ∧
    n_sessions n2 = n_sessions n1 ∧ n_next n2 = n_next n1 ∧ n_lockers n2 = n_lockers n1 ∧
    n_chans n2 !! c_ref c = Some (mkChan true (from_option (λ o, [SessionStateTransfer o (ci_clean_start ci)]) [] o))).
  { unfold t. destruct o as [o|]; [|by exists n1].
    destruct (send_to_open (c_ref c) (SessionStateTransfer o (ci_clean_start ci)) [] n1 C1) as (n2 & -> & ? & ? & ? & ? & ? & ?).
    by exists n2. }
  destruct Ht as (n2 & -> & P2 & R2 & S2 & N2 & L2 & C2). clear t.
  destruct (sc_auto_subscription scx) as [f|] eqn:Hf.
  2: { split_and!; try congruence. exists None. by rewrite app_nil_r. }
  destruct (f (ci_id ci)) as [l|e|] eqn:He.
  - destruct (send_to_open (c_ref c) (MsgSubscribes l None) _ n2 C2) as (n3 & -> & ? & ? & ? & ? & ? & ?).
    split_and!; try congruence. by exists (Some l).
  - by split_and!; try congruence.
  - by destruct (Hauto f (ci_id ci) eq_refl).
Qed.

Lemma consistent_new id mq cfg auth inflight created ci present superuser now n :
  consistent n →
  consistent (session_new id mq cfg auth inflight created ci present superuser true now ∅ None n).2.
Proof.
  intros Hc. split; [apply (co_router n Hc)| |].
  - intros r. unfold session_at. simpl. rewrite lookup_insert. case_decide; [lia|]. intros Hr.
    apply (co_fresh n Hc) in Hr. lia.
  - intros cid p Hp. destruct (co_entries n Hc _ _ Hp) as (s & Hs & Ha). exists s. split; [|done].
    assert (e_s p < n_next n) by (apply (co_fresh n Hc); by rewrite Hs).
    unfold session_at in *. simpl. by rewrite lookup_insert_ne by lia.
Qed.

Lemma drops_frame l n : ∃ os, foldl (flip oneshot_drop) n l = on_n_oneshots (λ _, os) n.
Proof.
  revert n. induction l as [|o l IH]; intros n; [exists (n_oneshots n); by destruct n|]. simpl.
  destruct (IH (oneshot_drop o n)) as [os E]. exists os. etransitivity; [exact E|]. unfold oneshot_drop.
  by destruct (oneshot_closed n o).
Qed.

(** A task that ends while its session is registered leaves the session. *)
Lemma task_exit_registered n c p cid : n_peers n !! cid = Some p → e_s p = c_ref c →
  ∃ os, task_exit (n, c) = on_n_oneshots (λ _, os) (on_n_chans <[c_ref c := mkChan false []]> n).
Proof.
  intros Hp Hr. unfold task_exit, close_chan.
  destruct (drops_frame (concat (map senders match n_chans n !! c_ref c with Some c0 => ch_msgs c0 | None => [] end))
    (on_n_chans <[c_ref c := mkChan false []]> n)) as [os ->].
  assert (existsb (λ kv, (e_s kv.2 =? c_ref c)) (map_to_list (n_peers n)) = true) as H.
  { apply existsb_exists. exists (cid, p). split; [by apply list_elem_of_In, elem_of_map_to_list|]. by apply Z.eqb_eq. }
  simpl. rewrite H. by exists os.
Qed.

Lemma keep_alive_no_panic f k : (fitter_keep_alive f k).1 ≠ Panic.
Proof. unfold fitter_keep_alive. cbv zeta. repeat (case_match; simpl in *; try done). Qed.

Lemma negotiate_spec unav cfg ci r n :
  match fitter_keep_alive (mkFitter ci cfg) (ci_keep_alive ci) with
  | (Ok t, told) => negotiate_keep_alive unav cfg ci r n = (Ok (t, told), n)
  | (Err e, _) => negotiate_keep_alive unav cfg ci r n = (Err (unav, keep_alive_error e), session_drop r n)
  | (Panic, _) => False
  end.
Proof.
  unfold negotiate_keep_alive. pose proof (keep_alive_no_panic (mkFitter ci cfg) (ci_keep_alive ci)) as H.
  by destruct (fitter_keep_alive _ _) as [[]].
Qed.

(** A new session is under a new reference, connected and empty. *)
Lemma session_new_facts id mq cfg auth inflight created ci present superuser now n r n' :
  session_new id mq cfg auth inflight created ci present superuser true now ∅ None n = (r, n') →
  r = n_next n ∧ n_peers n' = n_peers n ∧ n_lockers n' = n_lockers n ∧
  ∃ s, session_at n' r = Some s ∧ s_id s = id ∧ s_conn_info s = ci ∧ s_listen_cfg s = cfg ∧
    session_connected s = true ∧ session_present s = present ∧
    s_subs s = ∅ ∧ q_inner (s_queue s) = [] ∧ entries (s_out s) = [].
Proof.
  unfold session_new, fresh. intros [= <- <-]. do 3 (split; [done|]). eexists. split.
  { unfold session_at. simpl. apply lookup_insert_eq. }
  split_and!; try done; [..|apply dq_default_iter]; by destruct present, superuser.
Qed.

Lemma state_new_ok v5 io r sm cm n s : session_at n r = Some s →
  state_new v5 io r sm cm n = (Ok (new_conn v5 io r sm cm (s_listen_cfg s)), on_n_chans <[r := mkChan true []]> n).
Proof. intros Hs. unfold state_new, get_session. mrun. by rewrite Hs. Qed.

Lemma open_sound unav acc v5 io cfg ci auth sm cm wait n : let id := ci_id ci in
  sound id n → (∀ n, sound id n → sound id (wait n)) →
  let '(r, n') := open_session scx unav acc v5 io cfg ci auth sm cm wait n in
  consistent n' ∧
  match r with
  | Ok (c, keep_alive, told, present) => c_v5 c = v5 ∧ established cfg ci c keep_alive told present n'
  | Err (ack, _) => ack = unav
  | Panic => False
  end.
Proof.
  intros id Hn Hw. unfold open_session. pose proof (take_over_sound unav ci wait n Hn Hw) as H.
  destruct (take_over unav ci wait n) as [[[present o]|[ack e]|] n1] eqn:Ht.
  2: { rewrite (bind_err _ _ _ _ _ Ht). destruct H as [[H _] ->]. done. }
  2: { by destruct H. }
  destruct H as ([Hc1 Hu1] & Hp1 & Hpo & Hcl). rewrite (bind_ok _ _ _ _ _ Ht). clear Ht.
  (* the new session *)
  set (fitter := mkFitter ci cfg).
  set (created := from_option of_created_at (n_now n1) o).
  pose proof (consistent_new id (fitter_max_mqueue_len fitter) cfg auth.2 (fitter_max_inflight fitter) created ci
    present auth.1 (n_now n1) n1 Hc1) as Hc2.
  pose proof (consistent_enter n1 id (fitter_max_mqueue_len fitter) cfg auth.2 (fitter_max_inflight fitter) created ci
    present auth.1 (n_now n1) Hc1 Hp1 Hu1) as Hc3.
  destruct (session_new id (fitter_max_mqueue_len fitter) cfg auth.2 (fitter_max_inflight fitter) created ci present
    auth.1 true (n_now n1) ∅ None n1) as [r n2] eqn:Hnew. simpl in Hc2.
  assert (Hcreate : create_session cfg ci auth present o n1 = (Ok r, n2)).
  { transitivity (let '(r', n') := session_new id (fitter_max_mqueue_len fitter) cfg auth.2 (fitter_max_inflight fitter)
      created ci present auth.1 true (n_now n1) ∅ None n1 in (Ok r' : outcome (ConnAckReason * Error) Z, n')); [done|].
    by rewrite Hnew. }
  rewrite (bind_ok _ _ _ _ _ Hcreate). clear Hcreate.
  destruct (session_new_facts id (fitter_max_mqueue_len fitter) cfg auth.2 (fitter_max_inflight fitter) created ci
    present auth.1 (n_now n1) n1 r n2 Hnew) as (-> & P2 & L2 & s & Hs & Hsid & Hsci & Hscfg & Hconn & Hpres & Hsubs & Hq & Hout).
  set (r := n_next n1) in *.
  (* its keep-alive *)
  pose proof (negotiate_spec unav cfg ci r n2) as Hneg. fold fitter in Hneg.
  destruct (fitter_keep_alive fitter (ci_keep_alive ci)) as [[t|e|] told] eqn:Hka.
  3: { done. }
  2: { rewrite (bind_err _ _ _ _ _ Hneg). split; [|done]. apply consistent_drop; [done|].
       intros cid p Hp. unfold peer in Hp. rewrite P2 in Hp. destruct (co_entries n1 Hc1 _ _ Hp) as (s' & Hs' & _).
       assert (e_s p < n_next n1) by (apply (co_fresh n1 Hc1); by rewrite Hs'). unfold r. lia. }
  rewrite (bind_ok _ _ _ _ _ Hneg). clear Hneg.
  (* the hook *)
  set (m := if is_some o then _ else _).
  assert (Hm : ∃ hs, m n2 = (Ok tt, on_n_hooks (λ _, hs) n2)).
  { unfold m. destruct o; [exists (n_hooks n2); by destruct n2|by eexists]. }
  destruct Hm as [hs Hm]. rewrite (bind_ok _ _ _ _ _ Hm). clear Hm m.
  (* the task and its announcement *)
  set (c := new_conn v5 io r sm cm cfg). set (n3 := on_n_chans <[r := mkChan true []]> (on_n_hooks (λ _, hs) n2)).
  assert (Hstate : state_new v5 io r sm cm (on_n_hooks (λ _, hs) n2) = (Ok c, n3)).
  { unfold c, n3. rewrite <-Hscfg. by apply state_new_ok. }
  rewrite (bind_ok _ _ _ _ _ Hstate). clear Hstate.
  assert (Hc4 : consistent (entry_set id r r n3)).
  { by apply (consistent_other (entry_set id r r (on_n_chans <[r := mkChan true []]> n2))). }
  assert (Hch : n_chans n3 !! c_ref c = Some (mkChan true [])) by apply lookup_insert_eq.
  pose proof (announce_sound unav acc ci c o n3 Hch) as Hann.
  destruct (announce scx unav acc ci c o n3) as [ra n4] eqn:Ea.
  destruct Hann as (P4 & R4 & S4 & N4 & L4 & Hann).
  assert (Hp4 : n_peers n4 !! id_client_id id = Some (mkEntryItem r r)) by (rewrite P4; apply lookup_insert_eq).
  assert (Hc5 : consistent n4).
  { apply (consistent_other (entry_set id r r n3)); [exact P4|exact R4|by rewrite N4| |exact Hc4].
    intros r'. unfold session_at. simpl. by rewrite S4. }
  destruct ra as [u|[ack e]|]; [|..|done].
  2: { assert (Hor : or_drop c (announce scx unav acc ci c o) n3 = (Err (ack, e), task_exit (n4, c)))
         by (unfold or_drop; by rewrite Ea).
       rewrite (bind_err _ _ _ _ _ Hor). split; [|done].
       destruct (task_exit_registered n4 c _ _ Hp4 eq_refl) as [os ->]. by apply (consistent_other n4). }
  assert (Hor : or_drop c (announce scx unav acc ci c o) n3 = (Ok u, n4)) by (unfold or_drop; by rewrite Ea).
  rewrite (bind_ok _ _ _ _ _ Hor). mrun. split; [done|]. split; [done|]. destruct Hann as [subs Hann].
  split; [done|]. split; [done|]. split; [done|]. split; [done|]. split.
  { exists s. split; [|done]. unfold session_at in *. rewrite S4. exact Hs. }
  eexists. split; [exact Hann|]. subst present. split; [|done]. destruct o as [o|]; simpl.
  - rewrite Hcl by done. by eexists _, _.
  - intros o' b. destruct subs; simpl; set_solver.
Qed.

(** ** The handshake *)

Definition is_v5_info (ci : ConnectInfo) : bool := match ci with ConnV5 _ _ => true | ConnV3 _ _ => false end.

(** The handshake of the client's protocol; MQTT 5 also has what the CONNACK says. *)
Definition handshake_of (io : nat → option MqttError) (cfg : ListenerConfig) (ci : ConnectInfo) (assigned : bool)
    (elapsed : Z) (wait : Node → Node) : M Node (ConnAckReason * Error) (Conn * option ConnectAck * Z) :=
  match ci with
  | ConnV3 id c =>
      '(conn, keep_alive) ← _handshake_v3 scx io cfg id c elapsed wait; mret (conn, None, keep_alive)
  | ConnV5 id c =>
      '(conn, ack, keep_alive) ← _handshake_v5 scx io cfg id c assigned elapsed wait;
      mret (conn, Some ack, keep_alive)
  end.

(** What is checked before the earlier session is touched. *)
Definition admitted (cfg : ListenerConfig) (ci : ConnectInfo) (elapsed : Z) (n : Node) : bool :=
  let id := ci_id ci in
  let in_time_and_length :=
    negb (lc_handshake_timeout cfg <? elapsed) &&
    negb ((0 <? lc_max_clientid_len cfg) && (lc_max_clientid_len cfg <? len (id_client_id id))) in
  let supported :=
    negb (is_some (ci_auth_method ci)) &&
    (negb (from_option lastwill_retain false (ci_last_will ci)) || sc_retain_enable scx) in
  let room :=
    negb ((0 <? sc_mqtt_max_sessions scx) && (sc_mqtt_max_sessions scx <=? count (n_session_count n)) &&
          negb (entry_exist n id)) in
  let authenticated := ack_success (client_authenticate (sc_hooks scx) ci (lc_allow_anonymous cfg)).1.1 in
  let free := negb (bool_decide (id_client_id id ∈ n_lockers n)) in
  in_time_and_length && ((negb (is_v5_info ci) || supported) && (room && (authenticated && free))).

(** Nothing has happened but that hooks were called. *)
Definition turned_away {A} (n : Node) (r : outcome (ConnAckReason * Error) A) (n' : Node) : Prop :=
  ∃ ack e hs, r = Err (ack, e) ∧ ack_success ack = false ∧ n' = on_n_hooks (λ _, hs) n.

(** How the handshake ends, given whether the client was admitted. *)
Definition outcome_ok (cfg : ListenerConfig) (ci : ConnectInfo) (n : Node) (b : bool)
    (m : M Node (ConnAckReason * Error) (Conn * option ConnectAck * Z)) : Prop :=
  ∀ hs, let '(r, n') := m (on_n_hooks (λ _, hs) n) in
  consistent n' ∧
  if b then
    id_client_id (ci_id ci) ∉ n_lockers n' ∧
    match r with
    | Ok (c, ack, keep_alive) => ∃ told present, c_v5 c = is_v5_info ci ∧ established cfg ci c keep_alive told present n' ∧
        from_option (λ a, ca_reason_code a = CASuccess ∧ ca_session_present a = present ∧
                          ca_server_keepalive_sec a = Some told) True ack
    | Err (ack, _) => ack_success ack = false
    | Panic => False
    end
  else turned_away n r n'.

(** A step that passes when [b] holds and refuses the client otherwise. *)
Definition checks {A} (n : Node) (b : bool) (m : M Node (ConnAckReason * Error) A) (a : A) : Prop :=
  ∀ hs, ∃ hs', (b = true ∧ m (on_n_hooks (λ _, hs) n) = (Ok a, on_n_hooks (λ _, hs') n)) ∨
    (b = false ∧ ∃ ack e, ack_success ack = false ∧ m (on_n_hooks (λ _, hs) n) = (Err (ack, e), on_n_hooks (λ _, hs') n)).

Lemma checks_bind {A} cfg ci n b b' (m : M Node (ConnAckReason * Error) A) a f :
  sound (ci_id ci) n → checks n b m a → outcome_ok cfg ci n b' (f a) → outcome_ok cfg ci n (b && b') (m ≫= f).
Proof.
  intros Hn Hm Hf hs. destruct (Hm hs) as (hs' & [[-> Hr]|(-> & ack & e & Hack & Hr)]).
  - rewrite (bind_ok _ _ _ _ _ Hr). apply Hf.
  - rewrite (bind_err _ _ _ _ _ Hr). split; [by apply (sound_frame (ci_id ci) n)|]. by eexists _, _, _.
Qed.

Lemma outcome_assoc {A A'} cfg ci n b (m : M Node (ConnAckReason * Error) A) (f : A → M Node (ConnAckReason * Error) A') g :
  outcome_ok cfg ci n b (m ≫= λ a, f a ≫= g) → outcome_ok cfg ci n b ((m ≫= f) ≫= g).
Proof. intros H hs. specialize (H hs). unfold mbind, M_bind in *. by destruct (m _) as [[] ?]. Qed.

Lemma checks_ensure n b ack e : ack_success ack = false → checks n b (ensure b (ack, e)) tt.
Proof. intros H hs. exists hs. destruct b; [by left|right]. split; [done|]. by eexists _, _. Qed.

Lemma checks_client unav rej cfg id elapsed n : ack_success unav = false → ack_success rej = false →
  checks n (negb (lc_handshake_timeout cfg <? elapsed) &&
            negb ((0 <? lc_max_clientid_len cfg) && (lc_max_clientid_len cfg <? len (id_client_id id))))
    (check_client unav rej cfg id elapsed) tt.
Proof.
  intros H1 H2 hs. exists hs. unfold check_client. mrun.
  destruct (negb (_ <? elapsed)); simpl; [|right; split; [done|]; by eexists unav, _].
  destruct (negb _); [by left|]. right. split; [done|]. by eexists rej, _.
Qed.

Lemma checks_sessions unav id n : ack_success unav = false →
  checks n (negb ((0 <? sc_mqtt_max_sessions scx) && (sc_mqtt_max_sessions scx <=? count (n_session_count n)) &&
                  negb (entry_exist n id))) (check_sessions scx unav id) tt.
Proof. intros H hs. apply (checks_ensure n _ _ _ H hs). Qed.

Lemma checks_auth cfg ci n :
  let '(ack, superuser, auth_info) := client_authenticate (sc_hooks scx) ci (lc_allow_anonymous cfg) in
  checks n (ack_success ack) (authenticate scx cfg ci) (superuser, auth_info).
Proof.
  destruct (client_authenticate _ _ _) as [[ack superuser] auth_info] eqn:E. intros hs. unfold authenticate. mrun.
  rewrite E. set (hs' := if negb (is_some (ci_username ci)) && lc_allow_anonymous cfg then hs else hs ++ [ClientAuthenticate ci]).
  exists hs'. subst hs'. destruct (negb _ && _), (ack_success ack) eqn:Hs; (left; done) || (right; split; [done|]; by eexists _, _).
Qed.

Lemma checks_hello ci n : checks n true (hello ci) tt.
Proof. intros hs. eexists. left. done. Qed.

Lemma outcome_ext cfg ci n b m m' : (∀ n, m n = m' n) → outcome_ok cfg ci n b m → outcome_ok cfg ci n b m'.
Proof. intros E H hs. rewrite <-E. apply H. Qed.

(** What is locked. *)
Lemma locked_ok unav acc io cfg ci auth sm cm wait n (f : Conn * Z * Z * bool → Conn * option ConnectAck * Z) :
  let id := ci_id ci in
  sound id n → (∀ n, sound id n → sound id (wait n)) → ack_success unav = false →
  (∀ c keep_alive told present, ∃ ack, f (c, keep_alive, told, present) = (c, ack, keep_alive) ∧
     from_option (λ a, ca_reason_code a = CASuccess ∧ ca_session_present a = present ∧
                       ca_server_keepalive_sec a = Some told) True ack) →
  outcome_ok cfg ci n (negb (bool_decide (id_client_id id ∈ n_lockers n)))
    (x ← locked unav id (open_session scx unav acc (is_v5_info ci) io cfg ci auth sm cm wait); mret (f x)).
Proof.
  intros id Hn Hw Hu Hf hs. set (n0 := on_n_hooks (λ _, hs) n).
  assert (Hn0 : sound id n0) by (by apply (sound_frame id n)).
  unfold locked, refused, try_lock. mrun. change (n_lockers n0) with (n_lockers n). fold id. destruct (bool_decide _); cbn [negb].
  { split; [apply Hn0|]. by exists unav; eexists _, hs. }
  unfold then_unlock.
  pose proof (open_sound unav acc (is_v5_info ci) io cfg ci auth sm cm wait (on_n_lockers (λ l, {[id_client_id id]} ∪ l) n0)) as H.
  destruct (open_session _ _ _ _ _ _ _ _ _ _ _ _) as [r n']. destruct H as [Hc Hr]; [by apply (sound_frame id n0)|done|].
  assert (Hc' : consistent (unlock id n')) by (by apply (consistent_other n')).
  assert (Hl : id_client_id id ∉ n_lockers (unlock id n')) by (simpl; set_solver).
  destruct r as [[[[c ka] told] present]|[ack e]|]; [..|done].
  - destruct (Hf c ka told present) as (ack & -> & Hack). split; [done|]. split; [done|]. exists told, present.
    destruct Hr as [H1 H2]. split; [exact H1|]. split; [exact H2|exact Hack].
  - split; [done|]. split; [done|]. by subst.
Qed.

End Connect.


(** A keep-alive that the listener refuses costs client c1 its session: the
    refusal comes after the earlier session was taken out of the registry, and
    what it held is dropped with the new one. *)
Definition strict_listener : ListenerConfig :=
  let '(mkListener a b _ c d e f g h i j k l m n o p q r s t u v w) := listener_new in
  mkListener a b 100 c d e f g h i j k l m n o p q r s t u v w.

Example refused_keep_alive_loses_session :
  let run := handshake_of sample_server (λ _, None) strict_listener c1_back false 0 (λ n, n) sample_node in
  is_some (peer sample_node (lit "c1")) = true ∧ run.1 = Err (V3Unavailable, EOther (lit "Keepalive is too small")) ∧
  peer run.2 (lit "c1") = None.
Proof. vm_compute. done. Qed.

(** A QoS 2 message that the client has sent and not released is published again
    when the client repeats it on the connection that continues its session: the
    identifiers that were received are not handed over. *)
Example qos2_again :
  let p := PktV3 (MqttV3.PPublish (sample_publish ExactlyOnce (Some 9) (lit "a/b"))) in
  let n1 := (process_packets sample_server [p; p] (sample_node, sample_conn 1 false)).2.1 in
  match handshake_of sample_server (λ _, None) listener_new c1_back false 0 (λ n, n) n1 with
  | (Ok (c, _, _), n2) =>
      rx_calls n2 = [Offered 9] ∧ (session_present <$> session_at n2 (c_ref c)) = Some true ∧
      rx_calls (process_packets sample_server [p] (n2, c)).2.1 = [Offered 9; Offered 9]
  | _ => False
  end.
Proof. vm_compute. done. Qed.
