(* ===== verification/SessionOffline.v ===== *)
(** * A session without a connection

    What becomes of the messages that are on their way to a session while it is
    taken over: the offline loop collects what is queued behind the kick. *)

From stdpp Require Import base list numbers option gmap strings relations.
From Stdlib Require Import ZArith Lia.
From S2P Require Import Prelude Errors CodecTypes PacketV5 Topic Counter Hash BrokerTypes Queue Inflight.
From S2P Require Import RetainStore Router Acl Alias Hook Delayed SessionSubs ConnInfo Fitter Broker Session.
From S2P Require Import SessionLoop SessionFrame Sample SessionQos Registry Takeover Lifecycle SessionEnd.

#[local] Open Scope Z_scope.

Section Offline.
Context `{B : Backend}.

Abbreviation Msg := (From * BrokerTypes.Publish)%type.

(** The messages that hook calls report as received while offline, and as dropped
    because the queue was full. *)
Definition heard (l : list HookCall) : list Msg :=
  omap (λ h, match h with OfflineMessage _ f p => Some (f, p) | _ => None end) l.
Definition overflowed (l : list HookCall) : list Msg :=
  omap (λ h, match h with MessageDropped (Some _) f p MessageQueueFull => Some (f, p) | _ => None end) l.

Definition bounded (q : Queue Msg) : Prop := 0 ≤ q_cap q ∧ len (q_inner q) ≤ q_cap q.

(** The messages [fs] went into the queue [q], which is [q'] then. *)
Definition collected (q q' : Queue Msg) (fs : list Msg) (l : list HookCall) : Prop :=
  q_cap q' = q_cap q ∧ bounded q' ∧ heard l = fs ∧ overflowed l ++ q_inner q' ≡ₚ q_inner q ++ fs ∧
  (len (q_inner q) + len fs ≤ q_cap q → q_inner q' = q_inner q ++ fs ∧ overflowed l = []).

Lemma collected_nil q : bounded q → collected q q [] [].
Proof. intros H. unfold collected. by rewrite app_nil_r. Qed.

Lemma collected_app q1 q2 q3 fs1 fs2 l1 l2 :
  collected q1 q2 fs1 l1 → collected q2 q3 fs2 l2 → collected q1 q3 (fs1 ++ fs2) (l1 ++ l2).
Proof.
  intros (C1 & B1 & H1 & P1 & F1) (C2 & B2 & H2 & P2 & F2). unfold collected, heard, overflowed in *.
  rewrite !omap_app, C2, H1, H2. split_and!; try done.
  - rewrite <-app_assoc, P2, !(app_assoc _ _ fs2), P1. by rewrite <-app_assoc.
  - rewrite len_app. intros Hf. destruct F1 as [E1 ->]; [pose proof (len_nonneg fs2); lia|].
    destruct F2 as [E2 ->]; [rewrite E1, len_app, C1; lia|]. by rewrite E2, E1, app_assoc.
Qed.

(** Only the queue of the session, the signals and the reports have changed. *)
Definition queued (n : Node) (c : Conn) (s : Session) (n' : Node) (c' : Conn) (q' : Queue Msg) (l : list HookCall) : Prop :=
  session_at n' (c_ref c) = Some (on_s_queue (λ _, q') s) ∧ n_hooks n' = n_hooks n ++ l ∧
  n_chans n' = n_chans n ∧ n_oneshots n' = n_oneshots n ∧ n_peers n' = n_peers n ∧ n_router n' = n_router n ∧
  c' = set_signals (c_signals c') c.

Lemma offline_forward_spec {E} from p n c s : session_at n (c_ref c) = Some s → bounded (s_queue s) →
  ∃ n' c' q' l, offline_forward from p (E := E) (n, c) = (Ok tt, (n', c')) ∧
    queued n c s n' c' q' l ∧ collected (s_queue s) q' [(from, p)] l.
Proof.
  intros Hs [Hcap Hlen]. pose proof (send_correct (mkChannel (s_queue s) (c_signals c) deliver_policy) (from, p) Hcap Hlen) as H.
  cbv zeta in H. cbn [ch_queue] in H. destruct (send (mkChannel (s_queue s) (c_signals c) deliver_policy) (from, p)) as [r ch] eqn:Hsend.
  set (n1 := hook (OfflineMessage (s_id s) from p) n).
  set (n2 := on_session_obj (c_ref c) (on_s_queue (λ _, ch_queue ch)) n1). set (c2 := set_signals (signals ch) c).
  assert (Hs2 : session_at n2 (c_ref c) = Some (on_s_queue (λ _, ch_queue ch) s)).
  { unfold n2. rewrite session_at_obj, decide_True by done. change (session_at n1 (c_ref c)) with (session_at n (c_ref c)). by rewrite Hs. }
  assert (Hcap' : q_cap (ch_queue ch) = q_cap (s_queue s)).
  { revert Hsend. unfold send. cbn [ch_queue]. unfold queue_push, queue_pop. repeat case_match; simplify_eq; by intros [= <- <-]. }
  set (l := (OfflineMessage (s_id s) from p : HookCall) :: map (λ m : Msg, MessageDropped (Some (s_id s)) m.1 m.2 MessageQueueFull) (rejected r)).
  assert (Hrun : ∃ n3, offline_forward from p (E := E) (n, c) = (Ok tt, (n3, c2)) ∧
    session_at n3 (c_ref c) = Some (on_s_queue (λ _, ch_queue ch) s) ∧ n_hooks n3 = n_hooks n ++ l ∧
    n_chans n3 = n_chans n ∧ n_oneshots n3 = n_oneshots n ∧ n_peers n3 = n_peers n ∧ n_router n3 = n_router n).
  { unfold offline_forward. rewrite (bind_ok _ _ _ _ _ (self_ok (E := E) n c s Hs)).
    rewrite (bind_ok _ _ _ _ _ (eq_refl : nmod (E := E) (hook (OfflineMessage (s_id s) from p)) (n, c) = (Ok tt, (n1, c)))).
    assert (Hq : queue_send (E := E) (from, p) (n1, c) = (Ok (match r with Err m => Some m | _ => None end), (n2, c2))).
    { unfold queue_send. rewrite (bind_ok _ _ _ _ _ (self_ok (E := E) n1 c s Hs)). mrun. by rewrite Hsend. }
    rewrite (bind_ok _ _ _ _ _ Hq). unfold drop_queue_full.
    rewrite (bind_ok _ _ _ _ _ (self_ok (E := E) n2 c2 _ Hs2)). destruct r as [u|[f m]|]; eexists; (split; [reflexivity|]).
    all: split; [exact Hs2|]; split; [|done]; unfold l; simpl; rewrite <-?app_assoc; done. }
  destruct Hrun as (n3 & Hrun & H3 & Hh3 & R3). exists n3, c2, (ch_queue ch), l.
  split; [exact Hrun|]. split; [by repeat split; try apply R3|].
  destruct H as (Hb & Hperm & Hroom & _ & _). cbn [ch_queue] in *.
  assert (Hover : overflowed l = rejected r).
  { unfold l, overflowed. simpl. by destruct r as [|[f m]|]. }
  assert (Hheard : heard l = [(from, p)]) by (unfold l, heard; simpl; by destruct r as [|[f m]|]).
  split; [done|]. split; [by split; rewrite Hcap'|]. split; [done|]. rewrite Hover. split; [by symmetry|].
  rewrite len_cons, len_nil. intros Hfit. destruct Hroom as (-> & -> & _); [by apply Z.leb_gt; lia|]. done.
Qed.

Lemma recv_spec {E} n c b m ms : n_chans n !! c_ref c = Some (mkChan b (m :: ms)) →
  recv (E := E) (n, c) = (Ok (Some m), (on_n_chans <[c_ref c := mkChan b ms]> n, c)).
Proof.
  intros H. unfold recv. mrun. rewrite H. simpl.
  set (f := λ c : Chan, mkChan (ch_open c) ms).
  assert (alter f (c_ref c) (n_chans n) = <[c_ref c := mkChan b ms]> (n_chans n)) as E1.
  { apply map_eq. intros r. rewrite lookup_alter, lookup_insert. case_decide; subst; by rewrite ?H. }
  unfold on_n_chans. simpl. by rewrite E1.
Qed.

Lemma recv_none {E} n c b : n_chans n !! c_ref c = Some (mkChan b []) → recv (E := E) (n, c) = (Ok None, (n, c)).
Proof. intros H. unfold recv. mrun. rewrite H. by destruct n. Qed.

(** The message behind is not one that is forwarded. *)
Definition no_forward (ms : list Message) : Prop := ∀ f p ms', ms ≠ Forward f p :: ms'.

Definition forwarded (fs : list Msg) : list Message := map (λ m, Forward m.1 m.2) fs.

(** Everything but the channel is as it was after [queued]. *)
Definition drained (n : Node) (c : Conn) (s : Session) (n' : Node) (c' : Conn) (q' : Queue Msg) (l : list HookCall)
    (b : bool) (ms : list Message) : Prop :=
  session_at n' (c_ref c) = Some (on_s_queue (λ _, q') s) ∧ n_hooks n' = n_hooks n ++ l ∧
  n_chans n' !! c_ref c = Some (mkChan b ms) ∧ n_oneshots n' = n_oneshots n ∧ n_peers n' = n_peers n ∧
  n_router n' = n_router n ∧ c' = set_signals (c_signals c') c.

Lemma drain_rx_spec {E} fs fuel rest b n c s :
  session_at n (c_ref c) = Some s → bounded (s_queue s) → no_forward rest → (length fs < fuel)%nat →
  n_chans n !! c_ref c = Some (mkChan b (forwarded fs ++ rest)) →
  ∃ n' c' q' l, drain_rx fuel (E := E) (n, c) = (Ok tt, (n', c')) ∧
    drained n c s n' c' q' l b (tail rest) ∧ collected (s_queue s) q' fs l.
Proof.
  revert fuel n c s. induction fs as [|[f p] fs IH]; intros [|fuel] n c s Hs Hb Hrest Hf Hch; simpl in Hf; try lia.
  - exists (on_n_chans <[c_ref c := mkChan b (tail rest)]> n), c, (s_queue s), []. split; [|split; [|by apply collected_nil]].
    + cbn [drain_rx]. simpl in Hch. destruct rest as [|m rest].
      * rewrite (bind_ok _ _ _ _ _ (recv_none n c b Hch)). unfold mret, M_ret. do 2 f_equal.
        unfold on_n_chans. simpl. rewrite insert_id by done. by destruct n.
      * rewrite (bind_ok _ _ _ _ _ (recv_spec n c b m rest Hch)). destruct m; try done. by destruct (Hrest from p rest).
    + unfold drained. assert (on_s_queue (λ _, s_queue s) s = s) as -> by (by destruct s).
      simpl. rewrite lookup_insert_eq, app_nil_r. do 6 (split; [done|]). by destruct c.
  - cbn [drain_rx]. rewrite (bind_ok _ _ _ _ _ (recv_spec n c b _ _ Hch)).
    set (n1 := on_n_chans <[c_ref c := mkChan b (forwarded fs ++ rest)]> n).
    destruct (offline_forward_spec (E := E) f p n1 c s Hs Hb) as (n2 & c2 & q2 & l2 & Hrun & Q & C).
    rewrite (bind_ok _ _ _ _ _ Hrun). destruct Q as (S2 & K2 & Ch2 & O2 & P2 & R2 & Ec). 
    assert (Href : c_ref c2 = c_ref c) by (by rewrite Ec).
    destruct (IH fuel n2 c2 (on_s_queue (λ _, q2) s)) as (n3 & c3 & q3 & l3 & Hrun3 & D & C3).
    { by rewrite Href. } { apply C. } { done. } { lia. } { rewrite Href, Ch2. apply lookup_insert_eq. }
    destruct D as (S3 & K3 & Ch3 & O3 & P3 & R3 & Ec3). rewrite Href in *.
    exists n3, c3, q3, (l2 ++ l3). split; [exact Hrun3|]. split.
    + unfold drained. rewrite K3, K2, app_assoc, O3, O2, P3, P2, R3, R2. split; [exact S3|]. do 5 (split; [done|]).
      rewrite Ec3, Ec. done.
    + exact (collected_app _ _ _ [(f, p)] fs _ _ C C3).
Qed.

End Offline.

Definition behind (t : TopicName) : From * BrokerTypes.Publish :=
  (from_custom (mkId 1 0 None None (lit "c2") None 0), publish_of (sample_publish AtLeastOnce None t)).

(** Two messages are queued behind the kick. *)
Definition kicked_node : Node :=
  on_n_oneshots <[90 := OsOpen]>
    (on_n_chans <[1 := mkChan true (Kick 90 c1_id false false :: forwarded [behind (lit "a"); behind (lit "b")])]> sample_node).


(** With a connection the kick is answered at once: the same messages stay in the
    channel, are not among those that are handed over, and are not reported. *)
Example online_kick_loses :
  let '(r, (n', c')) := loop_turn sample_server true EvMessage (kicked_node, c1_task) in
  r = Err (ConnectKicked false) ∧ n_oneshots n' !! 90 = Some (OsSent RepKicked) ∧
  match (to_offline_info (E := Error) 1 n').1 with Ok info => of_messages info = [] | _ => False end ∧
  omap (λ h, match h with MessageDropped _ _ p _ => Some p | _ => None end) (n_hooks n') = [].
Proof. vm_compute. done. Qed.
