(* ===== verification/SessionSubscribe.v ===== *)
(** * Subscribing

    What a subscription of a client is granted, and that the session, the router
    and the registry agree on it. *)

From stdpp Require Import base list numbers option gmap strings relations.
From Stdlib Require Import ZArith Lia.
From S2P Require Import Prelude Errors CodecTypes PacketV5 Topic Counter Hash BrokerTypes Queue Inflight.
From S2P Require Import RetainStore Router Acl Alias Hook Delayed SessionSubs ConnInfo Fitter Broker Session.
From S2P Require Import SessionLoop SessionFrame Sample SessionQos Delivery Registry Takeover Lifecycle.
From S2P Require Import Continuity.

#[local] Open Scope Z_scope.

Lemma set_qos_twice o q1 q2 : set_qos (set_qos o q1) q2 = set_qos o q2.
Proof. by destruct o. Qed.

Lemma set_qos_qos o q : opts_qos (set_qos o q) = q.
Proof. by destruct o. Qed.

Section Subscribe.
Context `{B : Backend} (scx : ServerContext).

(** The limits of the listener on a new subscription. *)
Definition within_limits (s : Session) (sub : BrokerTypes.Subscribe) : Prop :=
  (0 < lc_max_subscriptions (s_listen_cfg s) → Z.of_nat (size (s_subs s)) < lc_max_subscriptions (s_listen_cfg s)) ∧
  (0 < lc_max_topic_levels (s_listen_cfg s) → ∃ t, topic_from_str (s_topic_filter sub) = Ok t ∧
     len t ≤ lc_max_topic_levels (s_listen_cfg s)).

Lemma check_limits_spec s sub st :
  (check_limits s sub st = (Ok tt, st) ∧ within_limits s sub) ∨ ∃ e, check_limits s sub st = (Err e, st).
Proof.
  unfold check_limits. mrun. destruct st as [n c].
  destruct ((0 <? lc_max_subscriptions (s_listen_cfg s)) && _) eqn:H1; cbn [negb]; [right; by eexists|].
  assert (0 < lc_max_subscriptions (s_listen_cfg s) → Z.of_nat (size (s_subs s)) < lc_max_subscriptions (s_listen_cfg s)) as Hs.
  { intros Hp. apply andb_false_iff in H1 as [H1%Z.ltb_ge|H1%Z.leb_gt]; lia. }
  destruct (0 <? lc_max_topic_levels (s_listen_cfg s)) eqn:H2.
  - apply Z.ltb_lt in H2. destruct (topic_from_str (s_topic_filter sub)) as [t|e|] eqn:Ht;
      [|right; by eexists|by destruct (topic_from_str_no_panic (s_topic_filter sub))].
    destruct (len t <=? lc_max_topic_levels (s_listen_cfg s)) eqn:H3; [|right; by eexists]. apply Z.leb_le in H3.
    destruct (limit_subs (s_opts sub)) as [limit|]; [|left; split; [done|split; [done|]; intros _; by exists t]].
    set (cond := match _ with Some _ => _ | None => true end). destruct cond; [|right; by eexists].
    left. split; [done|]. split; [done|]. intros _. by exists t.
  - apply Z.ltb_ge in H2.
    destruct (limit_subs (s_opts sub)) as [limit|]; [|left; split; [done|split; [done|]; lia]].
    set (cond := match _ with Some _ => _ | None => true end). destruct cond; [|right; by eexists].
    left. split; [done|]. split; [done|]. lia.
Qed.

(** The filter that is registered: a plugin may have changed it. *)
Definition sub_filter (s : Session) (sub : BrokerTypes.Subscribe) : TopicFilter :=
  default (s_topic_filter sub) (client_subscribe (sc_hooks scx) (s_id s)
    (mkSubscribe (s_topic_filter sub)
       (set_qos (s_opts sub) (less_value (opts_qos (s_opts sub)) (lc_max_qos_allowed (s_listen_cfg s)))))).

(** Registry, router and session have the subscription of [tf] with [opts], and
    the messages for a new subscriber are on their way. *)
Definition registered (r : Z) (s : Session) (tf : TopicFilter) (opts : BrokerTypes.SubscriptionOptions)
    (ret : SubscribeReturn) (n n' : Node) : Prop :=
  is_ok (topic_from_str tf) = true ∧
  (∃ s', session_at n' r = Some s' ∧ s_id s' = s_id s ∧ s_subs s' = <[tf := opts]> (s_subs s)) ∧
  (∀ tf' cid, subscribed (n_router n') tf' cid =
     if decide (tf' = tf ∧ cid = id_client_id (s_id s)) then Some (s_id s, opts) else subscribed (n_router n) tf' cid) ∧
  prev_opts ret = s_subs s !! tf ∧ success ret = Some (opts_qos opts) ∧
  n_tasks n' = n_tasks n ++ [TaskSubscribeMessages (s_id s) tf (shared_group opts) (retain_handling opts)
    (negb (is_some (s_subs s !! tf))) (opts_qos opts)].

Definition untouched (n n' : Node) : Prop :=
  n_router n' = n_router n ∧ n_sessions n' = n_sessions n ∧ n_peers n' = n_peers n ∧ n_tasks n' = n_tasks n ∧
  n_next n' = n_next n.

Lemma subscribe_admitted_spec s sub n c tx :
  session_at n (c_ref c) = Some s → peer n (id_client_id (s_id s)) = Some (mkEntryItem (c_ref c) tx) →
  id_node_id (s_id s) = sc_node_id scx → consistent n →
  let '(r, (n', c')) := subscribe_admitted scx s sub (n, c) in
  c' = c ∧ consistent n' ∧
  match r with
  | Ok ret => registered (c_ref c) s (s_topic_filter sub) (s_opts sub) ret n n'
  | Err _ => untouched n n'
  | Panic => False
  end.
Proof.
  intros Hs Hp Hid Hc. pose proof (consistent_subscribe scx n _ _ s sub Hc Hp Hs Hid) as Hc'.
  pose proof (entry_subscribe_spec scx (s_id s) sub n _ s Hp Hs (co_router n Hc) Hid) as H.
  unfold subscribe_admitted. destruct (topic_from_str (s_topic_filter sub)) as [t|e|] eqn:Ht; [| |done].
  - destruct H as (r' & st & Hrun & Hr' & Hsub). rewrite Hrun in Hc'. simpl in Hc'.
    set (ret := new_success _ _) in Hrun. set (n1 := on_session_obj _ _ _) in Hrun, Hc'.
    assert (Hon : on_node (entry_subscribe scx (s_id s) sub) (n, c) = (Ok ret, (n1, c))) by (mrun; by rewrite Hrun).
    rewrite (bind_ok _ _ _ _ _ Hon). unfold ret at 1. rewrite new_success_success. mrun.
    split; [done|]. split; [by apply (consistent_other n1)|]. split; [by rewrite Ht|]. split.
    { exists (on_s_subs (λ _, <[s_topic_filter sub := s_opts sub]> (s_subs s)) s). split; [|done].
      change (session_at n1 (c_ref c) = Some (on_s_subs (λ _, <[s_topic_filter sub := s_opts sub]> (s_subs s)) s)).
      unfold n1. rewrite session_at_obj, decide_True by done. unfold session_at in *. simpl. by rewrite Hs. }
    split; [exact Hsub|]. split; [done|]. split; [by apply new_success_success|]. done.
  - assert (Hon : on_node (entry_subscribe scx (s_id s) sub) (n, c) = (Err (error_of_topic e), (n, c))) by (mrun; by rewrite H).
    rewrite (bind_err _ _ _ _ _ Hon). done.
Qed.

(** What the client is granted: the least of what it asks for, what the listener
    allows and what the rules say, if they do. *)
Definition allowance (s : Session) (sub : BrokerTypes.Subscribe) : option SubscribeReturn :=
  client_subscribe_check_acl (λ _, session_superuser s) (sc_hooks scx) (s_id s)
    (mkSubscribe (sub_filter s sub)
       (set_qos (s_opts sub) (less_value (opts_qos (s_opts sub)) (lc_max_qos_allowed (s_listen_cfg s))))).

(** What the rules allow is registered. *)
Lemma subscribe_allowed sub n n2 c s tx q :
  session_at n2 (c_ref c) = Some s → peer n2 (id_client_id (s_id s)) = Some (mkEntryItem (c_ref c) tx) →
  id_node_id (s_id s) = sc_node_id scx → consistent n2 → within_limits s sub →
  (∀ n', untouched n2 n' → untouched n n') →
  (∀ tf o ret n', registered (c_ref c) s tf o ret n2 n' → registered (c_ref c) s tf o ret n n') →
  qos_value q = qos_value (opts_qos (s_opts sub)) `min` qos_value (lc_max_qos_allowed (s_listen_cfg s)) `min`
    from_option qos_value 2 (allowance s sub ≫= success) →
  let '(r, (n', c')) := subscribe_admitted scx s (mkSubscribe (sub_filter s sub) (set_qos (s_opts sub) q)) (n2, c) in
  c' = c ∧ consistent n' ∧
  match r with
  | Ok ret => within_limits s sub ∧
      match success ret with
      | Some q =>
          registered (c_ref c) s (sub_filter s sub) (set_qos (s_opts sub) q) ret n n' ∧
          qos_value q = qos_value (opts_qos (s_opts sub)) `min` qos_value (lc_max_qos_allowed (s_listen_cfg s)) `min`
            from_option qos_value 2 (allowance s sub ≫= success)
      | None => allowance s sub = Some ret ∧ untouched n n'
      end
  | Err _ => untouched n n'
  | Panic => False
  end.
Proof.
  intros Hs2 Hp2 Hid Hc2 Hwithin Hback Hreg Hq.
  pose proof (subscribe_admitted_spec s (mkSubscribe (sub_filter s sub) (set_qos (s_opts sub) q)) n2 c tx Hs2 Hp2 Hid Hc2) as H.
  destruct (subscribe_admitted _ _ _ _) as [[ret|e|] [n' c']]; destruct H as (H1 & H2 & H3); [| |done].
  - split; [done|]. split; [done|]. split; [done|]. pose proof H3 as (_ & _ & _ & _ & -> & _).
    cbn [s_opts s_topic_filter] in H3 |- *. rewrite set_qos_qos. auto.
  - auto.
Qed.

(** C13: every subscription of a client ends in one of three ways.  It exceeds a limit
    or has a filter that is none: the client gets an error.  The rules refuse
    it: the client gets their reason.  In both cases nothing is registered.  Or it is
    granted at a QoS that exceeds neither what the client asks for, nor what the
    listener allows, nor what the rules allow: then it replaces the earlier
    subscription of that filter in the session and in the router, under the
    identity of the session, no other subscription of any client changes, and
    the task that sends retained and stored messages is started with that QoS.  Registry, router and
    sessions agree throughout, and there is no panic. *)
Theorem subscribe_outcome sub n c s tx :
  session_at n (c_ref c) = Some s → peer n (id_client_id (s_id s)) = Some (mkEntryItem (c_ref c) tx) →
  id_node_id (s_id s) = sc_node_id scx → consistent n →
  let '(r, (n', c')) := _subscribe scx sub (n, c) in
  c' = c ∧ consistent n' ∧
  match r with
  | Ok ret =>
      within_limits s sub ∧
      match success ret with
      | Some q =>
          registered (c_ref c) s (sub_filter s sub) (set_qos (s_opts sub) q) ret n n' ∧
          qos_value q = qos_value (opts_qos (s_opts sub)) `min` qos_value (lc_max_qos_allowed (s_listen_cfg s)) `min`
            from_option qos_value 2 (allowance s sub ≫= success)
      | None => allowance s sub = Some ret ∧ untouched n n'
      end
  | Err _ => untouched n n'
  | Panic => False
  end.
Proof.
  intros Hs Hp Hid Hc. unfold _subscribe. rewrite (bind_ok _ _ _ _ _ (self_ok (E := Error) _ _ _ Hs)).
  destruct (check_limits_spec s sub (n, c)) as [[Hl Hwithin]|[e Hl]].
  2: { rewrite (bind_err _ _ _ _ _ Hl). done. }
  rewrite (bind_ok _ _ _ _ _ Hl). cbv zeta.
  set (opts := set_qos (s_opts sub) _).
  set (n1 := hook (ClientSubscribe (s_id s) (mkSubscribe (s_topic_filter sub) opts)) n).
  rewrite (bind_ok _ _ _ _ _ (eq_refl : nmod (E := Error) (hook (ClientSubscribe (s_id s) (mkSubscribe (s_topic_filter sub) opts))) (n, c) = (Ok tt, (n1, c)))).
  change (default (s_topic_filter (mkSubscribe (s_topic_filter sub) opts)) _) with (sub_filter s sub).
  set (sub1 := mkSubscribe (sub_filter s sub) opts).
  assert (Hacl : ∃ n2, (if session_superuser s then mret tt else nmod (hook (ClientSubscribeCheckAcl (s_id s) sub1))) (n1, c) =
    (Ok tt : outcome Error unit, (n2, c)) ∧ untouched n n2 ∧ consistent n2).
  { destruct (session_superuser s); eexists; (split; [reflexivity|]); (split; [done|]); by apply (consistent_other n). }
  destruct Hacl as (n2 & Hrun & (R2 & S2 & P2 & T2 & N2) & Hc2). rewrite (bind_ok _ _ _ _ _ Hrun). clear Hrun.
  assert (Hs2 : session_at n2 (c_ref c) = Some s) by (unfold session_at in *; by rewrite S2).
  assert (Hp2 : peer n2 (id_client_id (s_id s)) = Some (mkEntryItem (c_ref c) tx)) by (unfold peer in *; by rewrite P2).
  assert (Hback : ∀ n', untouched n2 n' → untouched n n') by (unfold untouched; intros n'; by rewrite R2, S2, P2, T2, N2).
  assert (Hreg : ∀ tf o ret n', registered (c_ref c) s tf o ret n2 n' → registered (c_ref c) s tf o ret n n')
    by (unfold registered; intros *; by rewrite R2, T2).
  change (client_subscribe_check_acl _ _ _ sub1) with (allowance s sub).
  pose proof (λ q, subscribe_allowed sub n n2 c s tx q Hs2 Hp2 Hid Hc2 Hwithin Hback Hreg) as Hgo.
  destruct (allowance s sub) as [res|] eqn:Hall.
  - destruct (success res) as [qa|] eqn:Hres.
    + unfold sub1, opts. cbn [s_opts s_topic_filter]. rewrite set_qos_twice. apply Hgo.
      simpl. rewrite Hres. simpl. by rewrite set_qos_qos, !less_value_min.
    + mrun. rewrite Hres. do 4 (split; [done|]). by split_and!.
  - apply (Hgo (less_value (opts_qos (s_opts sub)) (lc_max_qos_allowed (s_listen_cfg s)))). simpl. rewrite less_value_min. by destruct (opts_qos (s_opts sub)), (lc_max_qos_allowed (s_listen_cfg s)).
Qed.
End Subscribe.

(** Client c1 asks for QoS 1 and is granted it. *)
Lemma subscribe_outcome_witness :
  let sub := mkSubscribe (lit "a/+") sample_sub in
  let st := _subscribe sample_server sub (sample_node, c1_task) in
  subscribed (n_router st.2.1) (lit "a/+") (lit "c1") = Some (c1_id, sample_sub) ∧ consistent st.2.1.
Proof.
  intros sub st. destruct (session_at sample_node 1) as [s|] eqn:Hs; [|vm_compute in Hs; discriminate].
  assert (Hid : s_id s = c1_id) by (apply (f_equal (fmap s_id)) in Hs; vm_compute in Hs; by injection Hs).
  pose proof (subscribe_outcome sample_server sub sample_node c1_task s 1 Hs) as H.
  rewrite Hid in H. specialize (H ltac:(vm_compute; reflexivity) ltac:(vm_compute; reflexivity) sample_node_consistent).
  fold st in H. assert (E : match st.1 with Ok ret => bool_decide (success ret = Some (opts_qos sample_sub)) | _ => false end = true)
    by (vm_compute; reflexivity).
  destruct st as [[ret|e|] [n' c']]; [|done|done]. simpl in E. apply bool_decide_eq_true in E.
  destruct H as (_ & Hc & _ & H). rewrite E in H. destruct H as [(_ & _ & Hsub & _) _]. split; [|exact Hc].
  cbn [fst snd]. rewrite Hsub, Hid. rewrite decide_True; [done|]. split; [|done].
  unfold sub_filter. vm_compute. reflexivity.
Defined.
