(* ===== verification/SessionRetained.v ===== *)
(** * Retained messages for a new subscriber

    The task that a subscription starts: from the store of retained messages to
    the channel of the session. *)

From stdpp Require Import base list numbers option gmap strings relations.
From Stdlib Require Import ZArith Lia.
From S2P Require Import Prelude Errors CodecTypes PacketV5 Topic Counter Hash BrokerTypes Queue Inflight.
From S2P Require Import Retain RetainStore Router Acl Alias Hook Delayed SessionSubs ConnInfo Fitter Broker.
From S2P Require Import Session SessionLoop SessionFrame Sample SessionQos Registry Takeover.

#[local] Open Scope Z_scope.

Section Retained.
Context `{B : Backend, !BackendOk B} (scx : ServerContext).

(** The message that a subscriber with QoS [q] receives for the retained message
    of a topic. *)
Definition as_retained (now : Z) (q : QoS) (r : TopicName * BrokerTypes.Retain) : Message :=
  let p := r_publish r.2 in
  Forward (r_from r.2)
    (BrokerTypes.mkPublish
       (CodecTypes.mkPublish false true (less_value (qos (inner p)) q) r.1 None (payload (inner p)) (properties (inner p)))
       (target_clientid p) (delay_interval p) (Some now)).

Lemma send_retain_messages_spec id rs q n ps tx :
  peer n (id_client_id id) = Some (mkEntryItem ps tx) → open_chan tx n →
  let n' := send_retain_messages id rs q n in
  pushed tx n n' (map (as_retained (n_now n) q) rs) ∧ n_retain n' = n_retain n ∧ n_msgs n' = n_msgs n.
Proof.
  revert n. induction rs as [|[tn r] rs IH]; intros n Hp Ho.
  - split; [|done]. split; [done|]. intros ms. by rewrite app_nil_r.
  - cbn [send_retain_messages map]. cbv zeta.
    set (p := with_create_time _ _). destruct Ho as [ms Hms].
    set (n1 := on_n_chans (alter (λ c, mkChan (ch_open c) (ch_msgs c ++ [Forward (r_from r) p])) tx) n).
    assert (Hpub : entry_publish id (r_from r) p n = (None, n1)).
    { unfold entry_publish, entry_tx. rewrite Hp. simpl. unfold unbounded_send, tx_is_closed. by rewrite Hms. }
    rewrite Hpub. assert (P1 : pushed tx n n1 [as_retained (n_now n) q (tn, r)]).
    { split; [done|]. intros ms' Hms'. simpl. by rewrite lookup_alter_eq, Hms'. }
    destruct (IH n1) as (P2 & R2 & M2); [done|by eapply pushed_open; [exact P1|exists ms]|].
    split; [|done]. exact (pushed_trans _ _ _ _ _ _ P1 P2).
Qed.

(** Whether the options of the subscription ask for retained messages. *)
Definition asks_for_retained (rh : option RetainHandling) (prev_opts_is_none : bool) : Prop :=
  match rh with
  | Some RHNoAtSubscribe => False
  | Some RHAtSubscribeNew => prev_opts_is_none = true
  | _ => True
  end.

End Retained.

(** A retained message waits for client c1. *)
Definition with_retained : Node :=
  let p := publish_of (CodecTypes.mkPublish false true AtLeastOnce (lit "a/b") None [42] None) in
  on_n_retain (λ st, (set_with_timeout 0 (lit "a/b") (mkRetain None (from_custom (mkId 1 0 None None (lit "c2") None 0)) p)
    None st).2) sample_node.

