(* ===== verification/MessageRam.v ===== *)
(** * Messages kept for later subscribers

    Models the in-memory store of [ferromq-message-storage] ([ram.rs]), which
    implements [MessageManager] of [ferromq/src/message.rs]: messages are kept
    until they expire, for clients that subscribe later, with a note of the
    clients that have had them.

    A message is found through a [RetainTree] of identifiers: it is entered under
    the levels of its topic with its identifier as one more level, and looked up
    with one more [+].  Storing and marking go through a channel to one task; a
    second task removes what has expired.  Steps of the two tasks are functions.

    The codec of messages (postcard), the estimate of their size (the derived
    [GetSize]) and the size of a [Level] are not in the repository: they are the
    class [MessageCodec]. *)

From stdpp Require Import base list numbers option gmap strings pretty sorting.
From Stdlib Require Import ZArith Lia.
From S2P Require Import Prelude CodecTypes Topic Counter Hash BrokerTypes Retain RetainStore ConnInfo Broker.

#[local] Open Scope Z_scope.

(** ** Data *)

Record RamConfig : Type := mkRamConfig {
  cache_capacity : Z;
  cache_max_count : Z;
  encode : bool;
  queue_max : Z;
}.

(** [StoredMessage]; times are milliseconds. *)
Record StoredMessage : Type := mkStored {
  sm_msg_id : MsgID;
  sm_from : From;
  sm_publish : BrokerTypes.Publish;
  expiry_time_at : Z;
}.

Definition sm_is_expiry (now : Z) (m : StoredMessage) : bool := expiry_time_at m <? now.

(** [Msg], what is sent to the task *)
Inductive Msg : Type :=
| MsgStore (from : From) (publish : BrokerTypes.Publish) (expiry_interval : Z) (msg_id : MsgID)
    (recipients : option ForwardedRecipients)
| MsgMarkForwarded (msg_id : MsgID) (recipients : ForwardedRecipients).

Class MessageCodec := {
  sm_encode : StoredMessage → outcome Error bytes;
  sm_decode : bytes → outcome Error StoredMessage;
  sm_get_size : StoredMessage → Z;
  size_of_level : Z;
}.

(** What was encoded decodes to itself, and encoding does not panic. *)
Class MessageCodecOk `{MessageCodec} : Prop := {
  sm_decode_encode m b : sm_encode m = Ok b → sm_decode b = Ok m;
  sm_encode_no_panic m : sm_encode m ≠ Panic;
}.

(** Clients that have had a message, with the group they stood for *)
Abbreviation Forwarded := (gmap ClientId (option (TopicFilter * SharedGroup))).

(** [RamMessageManagerInner].  The entries of the [BinaryHeap] are listed in any
    order; the clones of the sender make one channel. *)
Record RamMessageManager : Type := mkRam {
  cfg : RamConfig;
  messages : gmap MsgID (StoredMessage * Z);
  messages_encode : gmap MsgID (bytes * Z);
  topic_tree : Retain.Node MsgID;
  forwardeds : gmap MsgID Forwarded;
  expiries : list (Z * MsgID);
  id_gen : Z;
  messages_bytes_size : Z;
  msg_queue : list Msg;
  msg_queue_count : Z;
}.

Definition on_messages f (s : RamMessageManager) : RamMessageManager :=
  mkRam (cfg s) (f (messages s)) (messages_encode s) (topic_tree s) (forwardeds s) (expiries s) (id_gen s)
    (messages_bytes_size s) (msg_queue s) (msg_queue_count s).
Definition on_messages_encode f (s : RamMessageManager) : RamMessageManager :=
  mkRam (cfg s) (messages s) (f (messages_encode s)) (topic_tree s) (forwardeds s) (expiries s) (id_gen s)
    (messages_bytes_size s) (msg_queue s) (msg_queue_count s).
Definition on_topic_tree f (s : RamMessageManager) : RamMessageManager :=
  mkRam (cfg s) (messages s) (messages_encode s) (f (topic_tree s)) (forwardeds s) (expiries s) (id_gen s)
    (messages_bytes_size s) (msg_queue s) (msg_queue_count s).
Definition on_forwardeds f (s : RamMessageManager) : RamMessageManager :=
  mkRam (cfg s) (messages s) (messages_encode s) (topic_tree s) (f (forwardeds s)) (expiries s) (id_gen s)
    (messages_bytes_size s) (msg_queue s) (msg_queue_count s).
Definition on_expiries f (s : RamMessageManager) : RamMessageManager :=
  mkRam (cfg s) (messages s) (messages_encode s) (topic_tree s) (forwardeds s) (f (expiries s)) (id_gen s)
    (messages_bytes_size s) (msg_queue s) (msg_queue_count s).
Definition on_id_gen f (s : RamMessageManager) : RamMessageManager :=
  mkRam (cfg s) (messages s) (messages_encode s) (topic_tree s) (forwardeds s) (expiries s) (f (id_gen s))
    (messages_bytes_size s) (msg_queue s) (msg_queue_count s).
Definition on_bytes_size f (s : RamMessageManager) : RamMessageManager :=
  mkRam (cfg s) (messages s) (messages_encode s) (topic_tree s) (forwardeds s) (expiries s) (id_gen s)
    (f (messages_bytes_size s)) (msg_queue s) (msg_queue_count s).
Definition on_queue f g (s : RamMessageManager) : RamMessageManager :=
  mkRam (cfg s) (messages s) (messages_encode s) (topic_tree s) (forwardeds s) (expiries s) (id_gen s)
    (messages_bytes_size s) (f (msg_queue s)) (g (msg_queue_count s)).

(** [RamMessageManager::new] *)
Definition ram_new (cfg : RamConfig) : RamMessageManager :=
  mkRam cfg ∅ ∅ node_default ∅ [] 1 0 [] 0.

(** ** The heap of deadlines

    [BinaryHeap<(Reverse<TimestampMillis>, MsgID)>]: its top is the earliest
    deadline, and of two the same the greater identifier. *)
Definition due_before (a b : Z * MsgID) : bool :=
  (a.1 <? b.1) || ((a.1 =? b.1) && (b.2 <=? a.2)).

Fixpoint heap_pop (h : list (Z * MsgID)) : option ((Z * MsgID) * list (Z * MsgID)) :=
  match h with
  | [] => None
  | e :: h =>
      match heap_pop h with
      | None => Some (e, h)
      | Some (top, h') => if due_before e top then Some (e, h) else Some (top, e :: h')
      end
  end.

Definition heap_peek (h : list (Z * MsgID)) : option (Z * MsgID) := fst <$> heap_pop h.

(** [usize::to_string] *)
Definition show_usize (n : Z) : str := lit (pretty (Z.to_N n)).

Section Ram.
Context `{!MessageCodec} `{!HashOrder Level} (checks : bool).

Abbreviation RM := (M RamMessageManager Error).

(** [topic_size] of [types.rs] *)
Definition topic_size (t : Topic) : Z :=
  foldr (λ l n, size_of_level + (match l with Normal s | Metadata s => len s | _ => 0 end) + n) 0 t.

(** [size_of::<MsgID>() * 2 + size_of::<(Reverse<TimestampMillis>, MsgID)>()] *)
Definition entry_size : Z := 8 * 2 + 16.

Definition messages_bytes_size_add (n : Z) (s : RamMessageManager) : RamMessageManager :=
  on_bytes_size (λ m, as_isize (m + n)) s.
Definition messages_bytes_size_sub (n : Z) (s : RamMessageManager) : RamMessageManager :=
  on_bytes_size (λ m, as_isize (m - n)) s.
Definition messages_bytes_size_get (s : RamMessageManager) : Z := messages_bytes_size s mod 2 ^ 64.

Definition messages_count (s : RamMessageManager) : Z :=
  if encode (cfg s) then Z.of_nat (size (messages_encode s)) else Z.of_nat (size (messages s)).

(** [MessageManager::count] and [MessageManager::max] *)
Definition ram_count (s : RamMessageManager) : Z := as_isize (messages_count s).
Definition ram_max (s : RamMessageManager) : Z := as_isize (messages_count s).

Definition messages_remove (msg_id : MsgID) : RM (option StoredMessage) := λ s,
  if encode (cfg s) then
    match messages_encode s !! msg_id with
    | Some (msg, msg_size) =>
        let s := messages_bytes_size_sub msg_size (on_messages_encode (delete msg_id) s) in
        (outcome_map Some (sm_decode msg), s)
    | None => (Ok None, s)
    end
  else
    match messages s !! msg_id with
    | Some (msg, msg_size) =>
        (Ok (Some msg), messages_bytes_size_sub msg_size (on_messages (delete msg_id) s))
    | None => (Ok None, s)
    end.

(** [messages_get] and [messages_get_async] *)
Definition messages_get (s : RamMessageManager) (msg_id : MsgID) : outcome Error (option StoredMessage) :=
  if encode (cfg s) then
    match messages_encode s !! msg_id with
    | Some (msg, _) => outcome_map Some (sm_decode msg)
    | None => Ok None
    end
  else Ok (fst <$> messages s !! msg_id).

Definition messages_exist (s : RamMessageManager) (msg_id : MsgID) : bool :=
  if encode (cfg s) then is_some (messages_encode s !! msg_id) else is_some (messages s !! msg_id).

Definition note_forwarded (recipients : ForwardedRecipients) (m : Forwarded) : Forwarded :=
  foldl (λ m '(client_id, opts), <[client_id := opts]> m) m recipients.

Definition set_forwardeds (msg_id : MsgID) (recipients : ForwardedRecipients) (s : RamMessageManager)
    : RamMessageManager :=
  on_forwardeds (λ m, <[msg_id := note_forwarded recipients (default ∅ (m !! msg_id))]> m) s.

(** [RamMessageManager::_set].  The lock on the entry of the message is held over
    the writes, so that they are one step for the task that removes messages. *)
Definition _set (now : Z) (from : From) (publish : BrokerTypes.Publish) (expiry_interval : Z)
    (msg_id : MsgID) (forwardeds : option ForwardedRecipients) : RM unit :=
  topic ← lift (match topic_from_str (CodecTypes.topic (inner publish)) with
                | Ok t => Ok t | Err e => Err (error_of_topic e) | Panic => Panic end);
  let topic := topic ++ [Normal (show_usize msg_id)] in
  expiry_time_at ← (match add_i64 checks now (as_millis_i64 expiry_interval) with
                    | Some t => mret t | None => panic end);
  let msg := mkStored msg_id from publish expiry_time_at in
  let msg_len := topic_size topic + entry_size in
  let index s :=
    let s := on_topic_tree (λ t, insert t topic msg_id) s in
    let s := on_expiries (cons (expiry_time_at, msg_id)) s in
    match forwardeds with Some f => set_forwardeds msg_id f s | None => s end in
  encoding ← asks (λ s, encode (cfg s));
  if encoding : bool then
    msg ← lift (sm_encode msg);
    let msg_len := len msg + msg_len in
    modify (λ s, index (messages_bytes_size_add msg_len (on_messages_encode (<[msg_id := (msg, msg_len)]>) s)))
  else
    let msg_len := sm_get_size msg + msg_len in
    modify (λ s, index (messages_bytes_size_add msg_len (on_messages (<[msg_id := (msg, msg_len)]>) s))).

(** The filter under which messages are looked up: their topics have their
    identifier as a last level. *)
Definition lookup_filter (f : Topic) : Topic :=
  match last f with Some MultiWildcard => f | _ => f ++ [SingleWildcard] end.

(** [is_forwarded] in [_get] *)
Definition is_forwarded (client_id : ClientId) (topic_filter : TopicFilter) (group : option SharedGroup)
    (cids : Forwarded) : bool :=
  if is_some (cids !! client_id) then true
  else match group with
       | Some group =>
           existsb (λ '(_, tf_g), match tf_g with
                                  | Some (tf, g) => bool_decide (g = group) && bool_decide (tf = topic_filter)
                                  | None => false
                                  end) (map_to_list cids)
       | None => false
       end.

(** One turn of the loop of [_get]. *)
Definition matched (now : Z) (client_id : ClientId) (topic_filter : TopicFilter) (group : option SharedGroup)
    (s : RamMessageManager) (msg_id : MsgID) : option (MsgID * From * BrokerTypes.Publish) :=
  match messages_get s msg_id with
  | Ok (Some msg) =>
      if from_option (is_forwarded client_id topic_filter group) false (forwardeds s !! msg_id)
         || sm_is_expiry now msg
         || from_option (λ t_cid, negb (bool_decide (t_cid = client_id))) false
              (target_clientid (sm_publish msg))
      then None
      else Some (msg_id, sm_from msg, sm_publish msg)
  | _ => None
  end.

Definition _get (now : Z) (client_id : ClientId) (topic_filter : TopicFilter) (group : option SharedGroup)
    (s : RamMessageManager) : outcome Error (list (MsgID * From * BrokerTypes.Publish)) :=
  match topic_from_str topic_filter with
  | Ok topic =>
      match Retain.matches (S (height (topic_tree s))) (topic_tree s) (lookup_filter topic) with
      | Some found => Ok (omap (matched now client_id topic_filter group s) (map snd found))
      | None => Panic
      end
  | Err e => Err (error_of_topic e)
  | Panic => Panic
  end.

(** [_process], whose errors are logged. *)
Definition _process (now : Z) (msg : Msg) : RM unit :=
  match msg with
  | MsgStore from publish expiry_interval msg_id recipients =>
      _ ← attempt (_set now from publish expiry_interval msg_id recipients : RM unit); mret tt
  | MsgMarkForwarded msg_id recipients =>
      modify (λ s, if messages_exist s msg_id then set_forwardeds msg_id recipients s else s)
  end.

(** A turn of the task of [serve] that receives messages. *)
Definition serve_turn (now : Z) : RM unit := λ s,
  match msg_queue s with
  | msg :: rest =>
      match _process now msg (on_queue (λ _, rest) id s) with
      | (Ok _, s) => (Ok tt, on_queue id (λ n, as_isize (n - 1)) s)
      | r => r
      end
  | [] => (Ok tt, s)
  end.

(** *** What the broker calls

    Sending to the task succeeds, finds the task gone, or takes longer than the
    configured time. *)
Inductive SendResult : Type := SendOk | SendClosed | SendTimeout.

Definition send_msg (r : SendResult) (timeout : Error) (msg : Msg) : RM unit := λ s,
  let s := on_queue id (λ n, as_isize (n + 1)) s in
  match r with
  | SendOk => (Ok tt, on_queue (λ q, q ++ [msg]) id s)
  | SendClosed => (Err (EOther (lit "send failed because receiver is gone")),
                   on_queue id (λ n, as_isize (n - 1)) s)
  | SendTimeout => (Err timeout, on_queue id (λ n, as_isize (n - 1)) s)
  end.

Definition ram_store (r : SendResult) (msg_id : MsgID) (from : From) (p : BrokerTypes.Publish)
    (expiry_interval : Z) (recipients : option ForwardedRecipients) : RM unit :=
  send_msg r (EOther (lit "store timeout")) (MsgStore from p expiry_interval msg_id recipients).

Definition ram_mark_forwarded (r : SendResult) (msg_id : MsgID) (recipients : ForwardedRecipients) : RM unit :=
  send_msg r (EOther (lit "future timed out")) (MsgMarkForwarded msg_id recipients).

Definition ram_next_msg_id (s : RamMessageManager) : MsgID * RamMessageManager :=
  (id_gen s, on_id_gen (λ n, (n + 1) mod 2 ^ 64) s).

(** *** Removing what has expired *)

(** The loop of [remove_expired_messages] that takes deadlines from the heap; it
    does so too while there are too many messages, which the loop does not
    change. *)
Fixpoint take_expired (fuel : nat) (over : bool) (now max_limit : Z) (removeds : list MsgID)
    (h : list (Z * MsgID)) : option (list MsgID * list (Z * MsgID)) :=
  match fuel with
  | O => None
  | S fuel =>
      match heap_pop h with
      | None => Some (removeds, h)
      | Some ((expiry_time_at, msg_id), h') =>
          if max_limit <? len removeds then Some (removeds, h)
          else if (now <? expiry_time_at) && negb over then Some (removeds, h)
          else take_expired fuel over now max_limit (removeds ++ [msg_id]) h'
      end
  end.

Definition over_limits (s : RamMessageManager) : bool :=
  (cache_max_count (cfg s) <? messages_count s) || (cache_capacity (cfg s) <? messages_bytes_size_get s).

(** What is done for one of them. *)
Definition forget (msg_id : MsgID) : RM unit :=
  r ← attempt (messages_remove msg_id);
  match r with
  | Ok (Some msg) =>
      topic ← lift (match topic_from_str (CodecTypes.topic (inner (sm_publish msg))) with
                    | Ok t => Ok t | Err e => Err (error_of_topic e) | Panic => Panic end);
      modify (λ s, on_forwardeds (delete msg_id)
                     (on_topic_tree (λ t, (remove t (topic ++ [Normal (show_usize msg_id)])).2) s))
  | _ => mret tt
  end.

Definition remove_expired_messages (now max_limit : Z) : RM Z :=
  removed ← (λ s, match take_expired (S (length (expiries s))) (over_limits s) now max_limit [] (expiries s) with
                  | Some (removed, h) => (Ok removed, on_expiries (λ _, h) s)
                  | None => (Panic, s)
                  end);
  for_each forget removed;;
  mret (len removed).

(** The manager behind the broker's interface, at the time of its first part; the
    channel has room. *)
Definition ram_message_manager : MessageManager (Z * RamMessageManager) := {|
  mm_enable _ := true;
  mm_next_msg_id '(now, s) := let '(i, s) := ram_next_msg_id s in (i, (now, s));
  mm_store msg_id from p expiry recipients '(now, s) :=
    let '(r, s) := ram_store SendOk msg_id from p expiry recipients s in (r, (now, s));
  mm_get client_id topic_filter group '(now, s) := (_get now client_id topic_filter group s, (now, s));
  mm_mark_forwarded msg_id recipients '(now, s) :=
    let '(r, s) := ram_mark_forwarded SendOk msg_id recipients s in (r, (now, s));
|}.
End Ram.

(** ** What is looked up

    How the filter with one more level compares with MQTT's rules for the topic
    without the identifier. *)

Lemma filter_not_nil f : f ≠ [] → f ≠ [MultiWildcard] → filter_matches f [] = false.
Proof. by destruct f as [|[] [|]]. Qed.

Lemma filter_matches_cons l f x ts :
  l ≠ MultiWildcard →
  filter_matches (l :: f) (x :: ts) =
  (is_wildcard l || bool_decide (level_to_string l = x)) && filter_matches f ts.
Proof. by destruct l. Qed.

Lemma filter_matches_plus f ts d :
  last f ≠ Some MultiWildcard → placed f →
  filter_matches (f ++ [SingleWildcard]) (ts ++ [d]) = filter_matches f ts.
Proof.
  revert ts. induction f as [|l f IH]; intros ts Hl Hp.
  { destruct ts as [|x ts]; [done|]. simpl. by destruct ts. }
  apply placed_cons in Hp as (Hm & Hp & _).
  assert (l ≠ MultiWildcard) as Hl1 by (intros ->; by rewrite (Hm eq_refl) in Hl).
  assert (last f ≠ Some MultiWildcard) as Hl2 by (destruct f; [done|by rewrite last_cons_cons in Hl]).
  destruct ts as [|x ts].
  - rewrite (filter_not_nil (l :: f)) by congruence. rewrite <-!app_comm_cons, app_nil_l.
    rewrite filter_matches_cons, filter_not_nil, andb_false_r; [done|by destruct f|by destruct f as [|? []]|done].
  - rewrite <-!app_comm_cons, !filter_matches_cons by done. by rewrite IH.
Qed.

Lemma filter_matches_hash g ts d :
  placed (g ++ [MultiWildcard]) →
  filter_matches (g ++ [MultiWildcard]) (ts ++ [d]) =
  filter_matches (g ++ [MultiWildcard]) ts || filter_matches g (ts ++ [d]).
Proof.
  revert ts. induction g as [|l g IH]; intros ts Hp.
  { simpl. by destruct ts. }
  apply placed_cons in Hp as (Hm & Hp & _).
  assert (l ≠ MultiWildcard) as Hl by (intros ->; specialize (Hm eq_refl); by destruct g).
  destruct ts as [|x ts].
  - rewrite <-!app_comm_cons, app_nil_l, (filter_not_nil (l :: g ++ _)); [|done|congruence].
    rewrite !filter_matches_cons by done. simpl. f_equal.
    destruct g as [|l' g]; [done|]. apply placed_cons in Hp as (Hm' & _).
    assert (l' ≠ MultiWildcard) by (intros ->; specialize (Hm' eq_refl); by destruct g).
    rewrite !filter_not_nil; [done|done|congruence|done|by destruct g].
  - rewrite <-!app_comm_cons, !filter_matches_cons by done. rewrite IH by done. by rewrite andb_orb_distrib_r.
Qed.

(** *** The identifier as a level *)

Definition is_digit (c : Z) : Prop := 48 ≤ c ≤ 57.

Lemma lit_cons c s : lit (String c s) = Z.of_N (Ascii.N_of_ascii c) :: lit s.
Proof. reflexivity. Qed.

Lemma pretty_digits x s : Forall is_digit (lit s) → Forall is_digit (lit (pretty_N_go x s)).
Proof.
  revert s. induction (N.lt_wf_0 x) as [x _ IH]; intros s Hs.
  destruct (decide (x = 0%N)) as [->|Hx]; [done|]. rewrite pretty_N_go_step by lia.
  apply IH; [apply N.div_lt; lia|]. rewrite lit_cons. constructor; [|done].
  unfold pretty_N_char, is_digit. by repeat case_match; vm_compute; split.
Qed.

Lemma lit_inj a b : lit a = lit b → a = b.
Proof.
  revert b. induction a as [|x a IH]; intros [|y b]; try done. rewrite !lit_cons.
  intros [= Hc%(inj Z.of_N) ->%IH].
  by rewrite <-(Ascii.ascii_N_embedding x), Hc, Ascii.ascii_N_embedding.
Qed.

Lemma pretty_suffix x s : ∃ t, lit (pretty_N_go x s) = t ++ lit s.
Proof.
  revert s. induction (N.lt_wf_0 x) as [x _ IH]; intros s.
  destruct (decide (x = 0%N)) as [->|Hx]; [by exists []|]. rewrite pretty_N_go_step by lia.
  destruct (IH (x `div` 10)%N ltac:(apply N.div_lt; lia) (String (pretty_N_char (x `mod` 10)) s)) as [t ->].
  rewrite lit_cons, cons_middle, app_assoc. by eexists.
Qed.

Lemma show_usize_digits n : Forall is_digit (show_usize n).
Proof.
  unfold show_usize, pretty, pretty_N. case_decide.
  - constructor; [vm_compute; by split|constructor].
  - apply pretty_digits. constructor.
Qed.

Lemma show_usize_inj a b : 0 ≤ a → 0 ≤ b → show_usize a = show_usize b → a = b.
Proof. intros ?? H%lit_inj%(inj pretty). lia. Qed.

Lemma show_usize_nonempty n : show_usize n ≠ [].
Proof.
  unfold show_usize, pretty, pretty_N. case_decide; [done|]. rewrite pretty_N_go_step by lia.
  destruct (pretty_suffix (Z.to_N n `div` 10) (String (pretty_N_char (Z.to_N n `mod` 10)) "")) as [t ->].
  rewrite lit_cons. by destruct t.
Qed.

Lemma show_usize_free n c : ¬ is_digit c → c ∉ show_usize n.
Proof. intros Hc Hn. apply Hc. pose proof (show_usize_digits n) as Hd. rewrite Forall_forall in Hd. auto. Qed.

Lemma show_usize_level n :
  level_canon (Normal (show_usize n)) ∧ SLASH ∉ level_to_string (Normal (show_usize n)).
Proof.
  split; [split|].
  - simpl. unfold is_digit in *. apply andb_true_iff. split; apply negb_true_iff.
    + pose proof (show_usize_digits n) as Hd. destruct (show_usize n) as [|c s]; [done|]. simpl.
      apply Forall_cons in Hd as [[? ?] _]. unfold DOLLAR. lia.
    + apply not_true_is_false. intros (c & Hc & Hw)%existsb_exists. apply list_elem_of_In in Hc.
      revert Hc. apply show_usize_free. unfold is_digit, PLUS, HASH in *. lia.
  - intros [= H]. by apply (show_usize_nonempty n).
  - apply show_usize_free. unfold is_digit, SLASH. lia.
Qed.

(** *** The topic under which a message is entered *)

Definition under_id (t : Topic) (msg_id : MsgID) : Topic := t ++ [Normal (show_usize msg_id)].

Lemma placed_app t u :
  placed t → last t ≠ Some MultiWildcard → u ≠ [] → placed u → (∀ s, head u ≠ Some (Metadata s)) →
  t ≠ [] → placed (t ++ u).
Proof.
  intros [Ht Hm] Hl Hu [Hu1 Hu2] Hh Hne. split.
  - intros i [Hi|[Hge Hi]]%lookup_app_Some.
    + apply Ht in Hi as Hi'. rewrite last_lookup, <-Hi' in Hl. by simpl in Hl.
    + apply Hu1 in Hi. rewrite length_app. lia.
  - intros i s [Hi|[Hge Hi]]%lookup_app_Some; [by eapply Hm|].
    apply Hu2 in Hi as H0. rewrite H0, <-head_lookup in Hi. by destruct (Hh s).
Qed.

Lemma no_wildcard_last t : Forall (λ l, is_wildcard l = false) t → last t ≠ Some MultiWildcard.
Proof. intros H Hl. apply last_Some in Hl as [l ->]. apply Forall_app in H as [_ H]. by inversion H. Qed.

Lemma placed_one l : placed [l].
Proof. by split; intros [|[|i]]. Qed.

Lemma topic_canon_snoc t l :
  topic_canon t → last t ≠ Some MultiWildcard → (∀ s, l ≠ Metadata s) →
  level_canon l → SLASH ∉ level_to_string l → topic_canon (t ++ [l]).
Proof.
  intros (Hne & Hc & Hp) Hl Hm Hcl Hs. split; [by destruct t|]. split.
  - apply Forall_app. split; [done|]. by constructor.
  - apply placed_app; try done; [by apply placed_one|]. intros s [= ->]. by destruct (Hm s).
Qed.

Lemma under_id_canon t i :
  topic_canon t → Forall (λ l, is_wildcard l = false) t → topic_canon (under_id t i).
Proof.
  intros Ht Hw. destruct (show_usize_level i). apply topic_canon_snoc; try done. by apply no_wildcard_last.
Qed.

Lemma under_id_inj t u i j : 0 ≤ i → 0 ≤ j → under_id t i = under_id u j → t = u ∧ i = j.
Proof. intros ?? [-> [= H]]%app_inj_tail. split; [done|]. by apply show_usize_inj. Qed.

Lemma lookup_filter_canon f : topic_canon f → topic_canon (lookup_filter f).
Proof.
  intros Hf. unfold lookup_filter. assert (last f ≠ Some MultiWildcard → topic_canon (f ++ [SingleWildcard])).
  { intros Hl. apply topic_canon_snoc; try done. simpl; by intros ?%list_elem_of_singleton. }
  destruct (last f) as [[]|]; auto.
Qed.

Lemma split_under_id t i :
  topic_canon t →
  split SLASH (topic_to_string (under_id t i)) = split SLASH (topic_to_string t) ++ [show_usize i].
Proof.
  intros (Hne & [_ Hs]%Forall_and & _). unfold under_id. rewrite !topic_to_string_join, map_app.
  rewrite !split_join; [done| | | |].
  - by destruct t.
  - by rewrite Forall_map.
  - by destruct t.
  - apply Forall_app. split; [by rewrite Forall_map|]. constructor; [|done]. by apply show_usize_level.
Qed.

(** The message with the levels [ts] and the identifier [d] is found by [f]: when
    MQTT says that the topic matches, and besides when the filter ends in [#] and
    the levels before it match the topic with the identifier. *)
Definition found_by (f : Topic) (ts : list str) (d : str) : bool :=
  mqtt_matches f ts ||
  match last f with Some MultiWildcard => mqtt_matches (removelast f) (ts ++ [d]) | _ => false end.

Lemma found_under f ts d :
  topic_canon f → ts ≠ [] → mqtt_matches (lookup_filter f) (ts ++ [d]) = found_by f ts d.
Proof.
  intros (Hne & _ & Hp) Hts. unfold found_by, lookup_filter.
  assert (Hn : last f ≠ Some MultiWildcard →
    mqtt_matches (f ++ [SingleWildcard]) (ts ++ [d]) = mqtt_matches f ts || false).
  { intros Hl. rewrite orb_false_r. destruct ts as [|x ts]; [done|]. destruct f as [|l f]; [done|].
    unfold mqtt_matches. rewrite <-!app_comm_cons. by rewrite !app_comm_cons, filter_matches_plus. }
  destruct (last f) as [l|] eqn:Hl; [|by apply Hn].
  destruct (decide (l = MultiWildcard)) as [->|Hne']; [|by destruct l; try done; apply Hn; congruence].
  apply last_Some in Hl as [g ->]. rewrite removelast_last. destruct ts as [|x ts]; [done|].
  pose proof (filter_matches_hash g (x :: ts) d Hp) as H.
  destruct g as [|l g]; [simpl; by rewrite orb_false_r|].
  unfold mqtt_matches. rewrite <-!app_comm_cons in *. rewrite H. by rewrite andb_orb_distrib_r.
Qed.

Lemma filter_matches_length f ts :
  MultiWildcard ∉ f → filter_matches f ts = true → length f = length ts.
Proof.
  revert ts. induction f as [|l f IH]; intros [|x ts] Hf; try done.
  - rewrite filter_not_nil; [done|done|]. intros [= -> ->]. set_solver.
  - rewrite filter_matches_cons by set_solver. intros [_ Hm]%andb_true_iff. simpl. f_equal. apply IH; set_solver.
Qed.

Lemma mqtt_matches_filter f ts : mqtt_matches f ts = true → filter_matches f ts = true.
Proof. destruct f, ts; try done. by intros [_ ?]%andb_true_iff. Qed.

Lemma found_by_iff f ts d :
  topic_canon f →
  found_by f ts d = true ↔ mqtt_matches f ts = true ∨
    ∃ h, f = h ++ [MultiWildcard] ∧ length h = S (length ts) ∧ mqtt_matches h (ts ++ [d]) = true.
Proof.
  intros (_ & _ & [Hp _]). unfold found_by. rewrite orb_true_iff. apply or_iff_compat_l. split.
  - destruct (last f) as [[]|] eqn:Hl; try done. apply last_Some in Hl as [h ->]. rewrite removelast_last.
    intros Hm. exists h. split; [done|]. split; [|done].
    rewrite (filter_matches_length h (ts ++ [d])); [rewrite length_app; simpl; lia| |by apply mqtt_matches_filter].
    intros [i Hi]%list_elem_of_lookup. 
    pose proof (Hp i (lookup_app_l_Some _ [MultiWildcard] _ _ Hi)) as Hlen. apply lookup_lt_Some in Hi. rewrite length_app in Hlen. simpl in Hlen. lia.
  - intros (h & -> & _ & Hm). by rewrite last_snoc, removelast_last.
Qed.

Lemma is_forwarded_false cid tf g cids :
  is_forwarded cid tf g cids = false ↔
  cids !! cid = None ∧ ∀ g', g = Some g' → ∀ c, cids !! c ≠ Some (Some (tf, g')).
Proof.
  unfold is_forwarded. destruct (cids !! cid); simpl; [by split; [|intros [? _]]|]. destruct g as [g|]; [|by split].
  split.
  - intros He. split; [done|]. intros ? [= <-] c Hc. apply not_true_iff_false in He. destruct He.
    apply existsb_exists. exists (c, Some (tf, g)). rewrite <-list_elem_of_In, elem_of_map_to_list.
    by rewrite !bool_decide_true.
  - intros [_ Hn]. apply not_true_iff_false. intros ([c [[tf' g']|]] & Hc & Hb)%existsb_exists; [|done].
    apply list_elem_of_In, elem_of_map_to_list in Hc. apply andb_true_iff in Hb as [->%bool_decide_eq_true ->%bool_decide_eq_true].
    by apply (Hn g eq_refl) in Hc.
Qed.

(** ** What the store promises

    A map from identifiers to messages, each with the clients that have had it. *)

Record Kept : Type := mkKept { k_msg : StoredMessage; k_size : Z; k_forwarded : Forwarded }.
Abbreviation kept_store := (gmap MsgID Kept).

Definition k_topic (k : Kept) : TopicName := CodecTypes.topic (inner (sm_publish (k_msg k))).
Definition k_due (k : Kept) : Z := expiry_time_at (k_msg k).

Definition total_size (m : kept_store) : Z := map_fold (λ _ k n, k_size k + n) 0 m.
Definition deadlines (m : kept_store) : list (Z * MsgID) := (λ ik, (k_due ik.2, ik.1)) <$> map_to_list m.

Inductive RamOp : Type :=
| RStore (now : Z) (from : From) (p : BrokerTypes.Publish) (expiry_interval : Z) (msg_id : MsgID)
    (recipients : option ForwardedRecipients)
| RMark (now : Z) (msg_id : MsgID) (recipients : ForwardedRecipients)
| RGet (now : Z) (client_id : ClientId) (topic_filter : TopicFilter) (group : option SharedGroup)
| RClean (now max_limit : Z).

Inductive RamReply : Type :=
| RepDone | RepGot (out : list (MsgID * From * BrokerTypes.Publish)) | RepRefused (e : Error)
| RepRemoved (n : Z) | RepPanic.

(** The clients that have had a message, after it was given to [recipients]: what was
    said last of a client counts. *)
Definition forwarded_also (recipients : ForwardedRecipients) (m : Forwarded) : Forwarded :=
  list_to_map (reverse recipients) ∪ m.

Lemma note_forwarded_also recipients m : note_forwarded recipients m = forwarded_also recipients m.
Proof.
  unfold forwarded_also. revert m. induction recipients as [|[c o] l IH]; intros m; simpl; [by rewrite (left_id_L ∅ _)|].
  rewrite IH, reverse_cons, list_to_map_app. simpl. by rewrite <-(assoc_L _), <-insert_union_l, (left_id_L ∅ _).
Qed.

Section Spec.
Context `{!MessageCodec} (checks : bool) (cfg : RamConfig).

(** What a message costs, with the error of its codec. *)
Definition charge (msg : StoredMessage) (t : Topic) : outcome Error Z :=
  outcome_map (λ n, n + (topic_size t + entry_size))
    (if encode cfg then outcome_map len (sm_encode msg) else Ok (sm_get_size msg)).

(** A message that [client_id] is given for its subscription: neither the client nor
    its group for this filter has had it, it has not expired and is for nobody else,
    and its topic matches the filter by the MQTT rules; or, when the filter ends
    in [#], its topic and its identifier as one level more match what is before the
    [#]. *)
Definition visible (now : Z) (client_id : ClientId) (topic_filter : TopicFilter) (group : option SharedGroup)
    (f : Topic) (msg_id : MsgID) (k : Kept) : Prop :=
  (k_forwarded k !! client_id = None ∧
   ∀ g, group = Some g → ∀ c, k_forwarded k !! c ≠ Some (Some (topic_filter, g))) ∧ now ≤ k_due k ∧
  (∀ t, target_clientid (sm_publish (k_msg k)) = Some t → t = client_id) ∧
  let levels := split SLASH (k_topic k) in
  (mqtt_matches f levels = true ∨
   ∃ h, f = h ++ [MultiWildcard] ∧ length h = S (length levels) ∧
        mqtt_matches h (levels ++ [show_usize msg_id]) = true).

Definition overfull (m : kept_store) : bool :=
  (cache_max_count cfg <? Z.of_nat (size m)) || (cache_capacity cfg <? as_isize (total_size m) mod 2 ^ 64).

(** What may be removed at [now]: the messages that are due, and all of them when
    there are too many. *)
Definition due (over : bool) (now : Z) (h : list (Z * MsgID)) : list (Z * MsgID) :=
  if over then h else filter (λ e, e.1 ≤ now) h.

Inductive ram_spec : RamOp → kept_store → RamReply → kept_store → Prop :=
| spec_store now from p d i r m u t n :
    topic_from_str (CodecTypes.topic (inner p)) = Ok u →
    add_i64 checks now (as_millis_i64 d) = Some t → charge (mkStored i from p t) (under_id u i) = Ok n →
    ram_spec (RStore now from p d i r) m RepDone
      (<[i := mkKept (mkStored i from p t) n (forwarded_also (default [] r) ∅)]> m)
| spec_store_topic now from p d i r m e :
    topic_from_str (CodecTypes.topic (inner p)) = Err e → ram_spec (RStore now from p d i r) m RepDone m
| spec_store_codec now from p d i r m t e :
    sm_encode (mkStored i from p t) = Err e → ram_spec (RStore now from p d i r) m RepDone m
| spec_mark now i r m :
    ram_spec (RMark now i r) m RepDone
      (alter (λ k, mkKept (k_msg k) (k_size k) (forwarded_also r (k_forwarded k))) i m)
| spec_get now cid tf g m f out :
    topic_from_str tf = Ok f → NoDup out.*1.*1 →
    (∀ i from p, (i, from, p) ∈ out ↔
       ∃ k, m !! i = Some k ∧ visible now cid tf g f i k ∧ sm_from (k_msg k) = from ∧ sm_publish (k_msg k) = p) →
    ram_spec (RGet now cid tf g) m (RepGot out) m
| spec_get_refused now cid tf g m e :
    topic_from_str tf = Err e → ram_spec (RGet now cid tf g) m (RepRefused (error_of_topic e)) m
| spec_clean now max_limit m victims :
    NoDup victims → (∀ i, i ∈ victims → i ∈ (due (overfull m) now (deadlines m)).*2) →
    (∀ i j k k', i ∈ victims → m !! i = Some k → j ∉ victims → m !! j = Some k' → k_due k ≤ k_due k') →
    len victims = Z.min (max_limit + 1) (len (due (overfull m) now (deadlines m))) →
    ram_spec (RClean now max_limit) m (RepRemoved (len victims)) (foldr delete m victims).
End Spec.

(** ** Representation *)

Section Refinement.
Context `{!MessageCodec} `{!HashOrder Level} (checks : bool).

Definition ram_exec (o : RamOp) (s : RamMessageManager) : RamReply * RamMessageManager :=
  let done r := match r with (Ok _, s) => (RepDone, s) | (Err e, s) => (RepRefused e, s) | (Panic, s) => (RepPanic, s) end in
  match o with
  | RStore now from p d i r => done (_process checks now (MsgStore from p d i r) s)
  | RMark now i r => done (_process checks now (MsgMarkForwarded i r) s)
  | RGet now cid tf g =>
      (match _get now cid tf g s with
       | Ok out => RepGot out | Err e => RepRefused e | Panic => RepPanic
       end, s)
  | RClean now max_limit =>
      match remove_expired_messages now max_limit s with
      | (Ok n, s) => (RepRemoved n, s) | (Err e, s) => (RepRefused e, s) | (Panic, s) => (RepPanic, s)
      end
  end.

(** The message of an identifier, in either table. *)
Definition stored (c : RamConfig) (msgs : gmap MsgID (StoredMessage * Z)) (encs : gmap MsgID (bytes * Z))
    (i : MsgID) : option (StoredMessage * Z) :=
  if encode c then
    '(b, n) ← encs !! i;
    match sm_decode b with Ok m => Some (m, n) | _ => None end
  else msgs !! i.

Record tables (c : RamConfig) (msgs : gmap MsgID (StoredMessage * Z)) (encs : gmap MsgID (bytes * Z))
    (size_sum : Z) (m : kept_store) : Prop := mkTables {
  tb_stored : ∀ i, stored c msgs encs i = (λ k, (k_msg k, k_size k)) <$> m !! i;
  tb_decodes : ∀ i b n, encs !! i = Some (b, n) → is_ok (sm_decode b) = true;
  tb_count : (if encode c then size encs else size msgs) = size m;
  tb_bytes : size_sum = as_isize (total_size m);
}.

Record indexed (tree : Retain.Node MsgID) (fwd : gmap MsgID Forwarded) (m : kept_store) : Prop := mkIndexed {
  ix_wf : wf_node tree;
  ix_tree : ∀ t i, retained tree t = Some i ↔
    ∃ k u, m !! i = Some k ∧ topic_from_str (k_topic k) = Ok u ∧ t = under_id u i;
  ix_kept : ∀ i k, m !! i = Some k →
    0 ≤ i ∧ contains_wildcard (k_topic k) = false ∧ is_ok (topic_from_str (k_topic k)) = true;
  ix_forwarded : ∀ i, default ∅ (fwd !! i) = from_option k_forwarded ∅ (m !! i);
  ix_orphans : ∀ i, m !! i = None → fwd !! i = None;
}.

Definition rep_core (s : RamMessageManager) (m : kept_store) : Prop :=
  tables (cfg s) (messages s) (messages_encode s) (messages_bytes_size s) m ∧
  indexed (topic_tree s) (forwardeds s) m.

Definition rep (s : RamMessageManager) (m : kept_store) : Prop :=
  rep_core s m ∧ expiries s ≡ₚ deadlines m.

Lemma ram_rep_new c : rep (ram_new c) ∅.
Proof.
  split; [split|done]; split; simpl; try done.
  - intros i. unfold stored. by destruct (encode c).
  - by destruct (encode c).
  - intros t i. rewrite retained_default. split; [done|]. by intros (k & u & Hk & _).
Qed.

(** *** Looking up *)

Context `{!HashOrderOk Level}.

Lemma indexed_names tree fwd m : indexed tree fwd m → names_ok tree.
Proof.
  intros Hs t i Hi. apply (ix_tree _ _ _ Hs) in Hi as (k & u & Hk & Hu & ->).
  destruct (ix_kept _ _ _ Hs i k Hk) as (_ & Hw & _). apply under_id_canon.
  - by apply topic_from_str_spec in Hu as [? _].
  - by eapply no_wildcard_levels.
Qed.

(** An entry of the tables, as [stored] sees it. *)
Lemma tables_entry c msgs encs n m i :
  tables c msgs encs n m → encode c = true →
  match m !! i with
  | Some k => ∃ b, encs !! i = Some (b, k_size k) ∧ sm_decode b = Ok (k_msg k)
  | None => encs !! i = None
  end.
Proof.
  intros Hs He. pose proof (tb_stored _ _ _ _ _ Hs i) as Hi. pose proof (tb_decodes _ _ _ _ _ Hs i) as Hd.
  unfold stored in Hi. rewrite He in Hi. destruct (encs !! i) as [[b z]|]; simpl in Hi.
  - specialize (Hd _ _ eq_refl). destruct (sm_decode b) eqn:Hb; try done. destruct (m !! i) as [k|]; [|done].
    injection Hi as -> ->. by exists b.
  - by destruct (m !! i).
Qed.

Lemma rep_get s m i : rep_core s m → messages_get s i = Ok (k_msg <$> m !! i).
Proof.
  intros [Hs _]. unfold messages_get. destruct (encode (cfg s)) eqn:He.
  - pose proof (tables_entry _ _ _ _ _ i Hs He) as Hx. destruct (m !! i) as [k|]; simpl.
    + destruct Hx as (b & -> & Hb). by rewrite Hb.
    + by rewrite Hx.
  - pose proof (tb_stored _ _ _ _ _ Hs i) as Hi. unfold stored in Hi. rewrite He in Hi. rewrite Hi.
    by destruct (m !! i).
Qed.

Lemma rep_exist s m i : rep_core s m → messages_exist s i = is_some (m !! i).
Proof.
  intros [Hs _]. unfold messages_exist. destruct (encode (cfg s)) eqn:He.
  - pose proof (tables_entry _ _ _ _ _ i Hs He) as Hx. destruct (m !! i) as [k|]; simpl.
    + by destruct Hx as (b & -> & Hb).
    + by rewrite Hx.
  - pose proof (tb_stored _ _ _ _ _ Hs i) as Hi. unfold stored in Hi. rewrite He in Hi. rewrite Hi.
    by destruct (m !! i).
Qed.

(** What a turn of the loop of [_get] keeps. *)
Definition wanted_of (now : Z) (cid : ClientId) (tf : TopicFilter) (g : option SharedGroup) (k : Kept) : Prop :=
  is_forwarded cid tf g (k_forwarded k) = false ∧ now ≤ k_due k ∧
  ∀ t, target_clientid (sm_publish (k_msg k)) = Some t → t = cid.

Lemma is_forwarded_empty cid tf g : is_forwarded cid tf g ∅ = false.
Proof. unfold is_forwarded. rewrite lookup_empty. by destruct g. Qed.

Lemma ram_matched_spec s m now cid tf g i :
  rep_core s m → ∀ x, matched now cid tf g s i = Some x ↔
    ∃ k, m !! i = Some k ∧ wanted_of now cid tf g k ∧ x = (i, sm_from (k_msg k), sm_publish (k_msg k)).
Proof.
  intros Hs x. unfold matched, wanted_of. rewrite (rep_get s m i Hs).
  destruct (m !! i) as [k|] eqn:Hk; simpl; [|by split; [|intros (? & ? & _)]].
  assert (from_option (is_forwarded cid tf g) false (forwardeds s !! i) =
          is_forwarded cid tf g (k_forwarded k)) as ->.
  { pose proof (ix_forwarded _ _ _ (proj2 Hs) i) as Hf. rewrite Hk in Hf. simpl in Hf. rewrite <-Hf.
    destruct (forwardeds s !! i); simpl; [done|by rewrite is_forwarded_empty]. }
  unfold sm_is_expiry, k_due. destruct (is_forwarded cid tf g (k_forwarded k)) eqn:Hfw; simpl.
  { split; [done|]. intros (k' & [= <-] & (? & _) & _). congruence. }
  destruct (Z.ltb_spec (expiry_time_at (k_msg k)) now); simpl.
  { split; [done|]. intros (k' & [= <-] & (_ & ? & _) & _). lia. }
  destruct (target_clientid (sm_publish (k_msg k))) as [t|] eqn:Htc; simpl;
    [case_bool_decide as Ht; simpl|].
  - split; [intros [= <-]; exists k|intros (k' & [= <-] & _ & ->)]; try done.
    split; [done|]. split; [|done]. split; [done|]. split; [lia|]. intros ?. rewrite Htc. by intros [= <-].
  - split; [done|]. intros (k' & [= <-] & (_ & _ & Hc) & _). destruct Ht. by apply Hc.
  - split; [intros [= <-]; exists k|intros (k' & [= <-] & _ & ->)]; try done.
    split; [done|]. split; [|done]. split; [done|]. split; [lia|]. intros ?. by rewrite Htc.
Qed.

(** What the walk over the tree finds. *)
Lemma walk_spec s m f :
  rep_core s m → topic_canon f →
  ∃ found, Retain.matches (S (height (topic_tree s))) (topic_tree s) (lookup_filter f) = Some found ∧
    NoDup (map snd found) ∧
    ∀ i, i ∈ map snd found ↔
      ∃ k, m !! i = Some k ∧ found_by f (split SLASH (k_topic k)) (show_usize i) = true.
Proof.
  intros Hs Hf.
  destruct (matches_mqtt (S (height (topic_tree s))) (topic_tree s) (lookup_filter f) (ix_wf _ _ _ (proj2 Hs))
    (indexed_names _ _ m (proj2 Hs)) (lookup_filter_canon f Hf)) as (found & Ho & Hnd & Hi); [lia|].
  exists found. split; [done|].
  assert (Hin : ∀ t i, (t, i) ∈ found ↔ ∃ k u, m !! i = Some k ∧ topic_from_str (k_topic k) = Ok u ∧
    t = under_id u i ∧ found_by f (split SLASH (k_topic k)) (show_usize i) = true).
  { intros t i. rewrite Hi, (ix_tree _ _ _ (proj2 Hs)). split.
    - intros [(k & u & Hk & Hu & ->) Hm]. exists k, u. split; [done|]. split; [done|]. split; [done|].
      pose proof Hu as [Hc Hu']%topic_from_str_spec. rewrite split_under_id, Hu', found_under in Hm; try done.
      apply split_not_nil.
    - intros (k & u & Hk & Hu & -> & Hm). split; [by exists k, u|].
      pose proof Hu as [Hc Hu']%topic_from_str_spec. rewrite split_under_id, Hu', found_under; try done.
      apply split_not_nil. }
  split.
  - apply NoDup_fmap_2_strong; [|by eapply NoDup_fmap_1].
    intros [t i] [t' i'] (k & u & Hk & Hu & -> & _)%Hin (k' & u' & Hk' & Hu' & -> & _)%Hin. simpl.
    intros <-. rewrite Hk in Hk'. injection Hk' as <-. by replace u' with u by congruence.
  - intros i. rewrite list_elem_of_fmap. split.
    + intros ([t j] & -> & (k & u & Hk & _ & _ & Hm)%Hin). by exists k.
    + intros (k & Hk & Hm). destruct (ix_kept _ _ _ (proj2 Hs) i k Hk) as (_ & _ & Hu).
      destruct (topic_from_str (k_topic k)) as [u| |] eqn:Hku; try done.
      exists (under_id u i, i). split; [done|]. apply Hin. by exists k, u.
Qed.

Lemma ram_get_refines now cid tf g s m :
  rep_core s m →
  match _get now cid tf g s with
  | Ok out => ram_spec checks (cfg s) (RGet now cid tf g) m (RepGot out) m
  | Err e => ram_spec checks (cfg s) (RGet now cid tf g) m (RepRefused e) m
  | Panic => False
  end.
Proof.
  intros Hs. unfold _get. destruct (topic_from_str tf) as [f|e|] eqn:Hf.
  - pose proof Hf as [Hc _]%topic_from_str_spec.
    destruct (walk_spec s m f Hs Hc) as (found & -> & Hnd & Hin).
    pose proof (λ i, ram_matched_spec s m now cid tf g i Hs) as Hm. eapply spec_get; [done|..].
    + clear Hin. induction (map snd found) as [|i ids IH]; [constructor|]. simpl.
      apply NoDup_cons in Hnd as [Hi Hnd]. specialize (IH Hnd).
      destruct (matched now cid tf g s i) as [x|] eqn:Hx; [|done]. simpl. constructor; [|done].
      apply Hm in Hx as (k & _ & _ & ->). simpl. intros ([j from] & Hj & ([[? ?] p] & [= <- <-] & Hel)%list_elem_of_fmap)%list_elem_of_fmap.
      apply list_elem_of_omap in Hel as (i' & Hi' & Hx').
      apply Hm in Hx' as (k' & _ & _ & [= -> _ _]). simpl in Hj. by subst.
    + intros i from p. rewrite list_elem_of_omap. unfold visible. split.
      * intros (j & (k' & Hk' & Hf')%Hin & (k & Hk & (Hw1 & Hw2 & Hw3) & [= -> -> ->])%Hm).
        exists k. rewrite Hk in Hk'. injection Hk' as ->. apply is_forwarded_false in Hw1. by apply found_by_iff in Hf'.
      * intros (k & Hk & (H1%is_forwarded_false & H2 & H3 & H4%found_by_iff) & <- & <-); [|done].
        exists i. split; [apply Hin; by exists k|]. apply Hm. by exists k.
  - by apply spec_get_refused.
  - by destruct (topic_from_str_no_panic tf).
Qed.

(** *** Storing and marking *)

Lemma total_size_insert m i k : m !! i = None → total_size (<[i := k]> m) = k_size k + total_size m.
Proof. intros Hi. unfold total_size. by rewrite map_fold_insert_L by (done || lia). Qed.

Lemma total_size_delete m i k : m !! i = Some k → total_size m = k_size k + total_size (delete i m).
Proof.
  intros Hi. rewrite <-(total_size_insert (delete i m) i k) by apply lookup_delete_eq. by rewrite insert_delete_id.
Qed.

Lemma deadlines_insert m i k : m !! i = None → deadlines (<[i := k]> m) ≡ₚ (k_due k, i) :: deadlines m.
Proof. intros Hi. unfold deadlines. by rewrite (map_to_list_insert _ _ _ Hi). Qed.

Lemma deadlines_delete m i k : m !! i = Some k → deadlines m ≡ₚ (k_due k, i) :: deadlines (delete i m).
Proof.
  intros Hi. rewrite <-(deadlines_insert (delete i m) i k) by apply lookup_delete_eq. by rewrite insert_delete_id.
Qed.

Lemma tables_insert_plain c msgs encs n m i k :
  tables c msgs encs n m → encode c = false → m !! i = None →
  tables c (<[i := (k_msg k, k_size k)]> msgs) encs (as_isize (n + k_size k)) (<[i := k]> m).
Proof.
  intros [Hst Hd Hc Hb] He Hi. unfold stored in *. rewrite He in *. assert (msgs !! i = None) as Hn by by rewrite Hst, Hi.
  split; [|done|..].
  - intros j. unfold stored. rewrite He, !lookup_insert. case_decide; [done|]. apply Hst.
  - rewrite He, !map_size_insert_None by done. congruence.
  - rewrite total_size_insert, Hb, as_isize_add by done. f_equal. lia.
Qed.

Lemma tables_insert_encoded c msgs encs n m i k b :
  tables c msgs encs n m → encode c = true → m !! i = None → sm_decode b = Ok (k_msg k) →
  tables c msgs (<[i := (b, k_size k)]> encs) (as_isize (n + k_size k)) (<[i := k]> m).
Proof.
  intros Hs He Hi Hdec. pose proof (tables_entry _ _ _ _ _ i Hs He) as Hn. rewrite Hi in Hn.
  destruct Hs as [Hst Hd Hc Hb]. rewrite He in Hc. split.
  - intros j. specialize (Hst j). unfold stored in *. rewrite He in *. rewrite !lookup_insert.
    case_decide; [|done]. simpl. by rewrite Hdec.
  - intros j b' z. rewrite lookup_insert. case_decide; [intros [= <- <-]; by rewrite Hdec|apply Hd].
  - rewrite He, !map_size_insert_None by done. congruence.
  - rewrite total_size_insert, Hb, as_isize_add by done. f_equal. lia.
Qed.

Lemma indexed_insert tree fwd m i k u :
  indexed tree fwd m → m !! i = None → 0 ≤ i → contains_wildcard (k_topic k) = false →
  topic_from_str (k_topic k) = Ok u → k_forwarded k = ∅ →
  indexed (insert tree (under_id u i) i) fwd (<[i := k]> m).
Proof.
  intros Hs Hi Hpos Hw Hu Hf. split.
  - apply wf_insert; [apply Hs|]. apply Forall_app. split; [by eapply no_wildcard_levels|by repeat constructor].
  - intros t j. rewrite retained_insert. case_decide as Ht.
    + subst t. split; [intros [= <-]; exists k, u; by rewrite lookup_insert_eq|].
      intros (k' & u' & Hk' & _ & Heq). f_equal. apply (under_id_inj u u' i j) in Heq as [_ ?]; [done|done|].
      rewrite lookup_insert in Hk'. case_decide; [by subst|]. by destruct (ix_kept _ _ _ Hs j k' Hk').
    + rewrite (ix_tree _ _ _ Hs). split; intros (k' & u' & Hk' & Hu' & ->); exists k', u'.
      * rewrite lookup_insert_ne; [done|congruence].
      * rewrite lookup_insert in Hk'. case_decide; [|done]. subst. injection Hk' as <-.
        by destruct Ht; replace u' with u by congruence.
  - intros j k'. rewrite lookup_insert. case_decide; [|apply Hs]. subst. intros [= <-]. by rewrite Hu.
  - intros j. rewrite lookup_insert. case_decide; [|apply Hs]. subst. simpl. by rewrite (ix_orphans _ _ _ Hs).
  - intros j. rewrite lookup_insert. case_decide; [done|]. apply Hs.
Qed.

Lemma indexed_forwarded tree fwd m i k f :
  indexed tree fwd m → m !! i = Some k →
  indexed tree (<[i := f]> fwd) (<[i := mkKept (k_msg k) (k_size k) f]> m).
Proof.
  intros Hs Hi. split; [apply Hs|..].
  - intros t j. rewrite (ix_tree _ _ _ Hs). unfold k_topic. setoid_rewrite lookup_insert.
    case_decide as Hj; [subst j|done]. rewrite Hi.
    split; intros (k' & u & [= <-] & Hu); by eexists _, u.
  - intros j k'. rewrite lookup_insert. case_decide; [subst|apply Hs]. intros [= <-].
    apply (ix_kept _ _ _ Hs _ _ Hi).
  - intros j. rewrite !lookup_insert. case_decide; [done|apply Hs].
  - intros j. rewrite !lookup_insert. case_decide; [done|apply Hs].
Qed.

Lemma tables_forwarded c msgs encs n m i k f :
  tables c msgs encs n m → m !! i = Some k →
  tables c msgs encs n (<[i := mkKept (k_msg k) (k_size k) f]> m).
Proof.
  intros [Hst Hd Hc Hb] Hi. split; [|done|..].
  - intros j. rewrite Hst, lookup_insert. case_decide; [by subst; rewrite Hi|done].
  - by rewrite map_size_insert_Some by eauto.
  - rewrite Hb. f_equal. rewrite (total_size_delete m i k Hi).
    by rewrite <-insert_delete_eq, total_size_insert by apply lookup_delete_eq.
Qed.

Lemma deadlines_forwarded m i k f :
  m !! i = Some k → deadlines (<[i := mkKept (k_msg k) (k_size k) f]> m) ≡ₚ deadlines m.
Proof.
  intros Hi. rewrite (deadlines_delete m i k Hi).
  by rewrite <-insert_delete_eq, deadlines_insert by apply lookup_delete_eq.
Qed.

Lemma rep_forwarded s m i k r :
  rep s m → m !! i = Some k →
  rep (set_forwardeds i r s) (<[i := mkKept (k_msg k) (k_size k) (forwarded_also r (k_forwarded k))]> m).
Proof.
  intros [[Ht Hx] He] Hi. split; [split|].
  - by apply tables_forwarded.
  - unfold set_forwardeds. simpl. pose proof (ix_forwarded _ _ _ Hx i) as Hf. rewrite Hi in Hf. simpl in Hf.
    rewrite Hf, note_forwarded_also. by apply indexed_forwarded.
  - by rewrite deadlines_forwarded.
Qed.

Context `{!MessageCodecOk}.

(** The state after a message was entered into a table: its index. *)
Lemma rep_index s s1 m msg n u i r :
  rep s m → m !! i = None → 0 ≤ i → contains_wildcard (CodecTypes.topic (inner (sm_publish msg))) = false →
  topic_from_str (CodecTypes.topic (inner (sm_publish msg))) = Ok u →
  tables (cfg s1) (messages s1) (messages_encode s1) (messages_bytes_size s1) (<[i := mkKept msg n ∅]> m) →
  topic_tree s1 = topic_tree s → forwardeds s1 = forwardeds s → expiries s1 = expiries s →
  let s2 := on_expiries (cons (expiry_time_at msg, i)) (on_topic_tree (λ t, insert t (under_id u i) i) s1) in
  rep (match r with Some f => set_forwardeds i f s2 | None => s2 end)
    (<[i := mkKept msg n (forwarded_also (default [] r) ∅)]> m).
Proof.
  intros [[Ht Hx] He] Hi Hpos Hw Hu Ht1 Htree Hfw Hexp s2.
  assert (rep s2 (<[i := mkKept msg n ∅]> m)) as H2.
  { split; [split|]; simpl.
    - done.
    - rewrite Htree, Hfw. by apply indexed_insert.
    - by rewrite Hexp, deadlines_insert, He. }
  destruct r as [f|]; [|done].
  pose proof (rep_forwarded s2 (<[i := mkKept msg n ∅]> m) i (mkKept msg n ∅) f H2 (lookup_insert_eq _ _ _)) as H3.
  by rewrite insert_insert_eq in H3.
Qed.

Lemma set_spec now from p d i r s m :
  rep s m → contains_wildcard (CodecTypes.topic (inner p)) = false → 0 ≤ i → m !! i = None →
  match _set checks now from p d i r s with
  | (Ok _, s') => ∃ u t n, topic_from_str (CodecTypes.topic (inner p)) = Ok u ∧
      add_i64 checks now (as_millis_i64 d) = Some t ∧
      charge (cfg s) (mkStored i from p t) (under_id u i) = Ok n ∧ cfg s' = cfg s ∧
      rep s' (<[i := mkKept (mkStored i from p t) n (forwarded_also (default [] r) ∅)]> m)
  | (Err _, s') => s' = s ∧ ((∃ e, topic_from_str (CodecTypes.topic (inner p)) = Err e) ∨
                             ∃ t e, sm_encode (mkStored i from p t) = Err e)
  | (Panic, s') => s' = s ∧ add_i64 checks now (as_millis_i64 d) = None
  end.
Proof.
  intros Hs Hw Hpos Hi. unfold _set, mbind, M_bind, lift, asks, modify.
  destruct (topic_from_str _) as [u|e|] eqn:Hu; simpl;
    [|by eauto|by destruct (topic_from_str_no_panic (CodecTypes.topic (inner p)))].
  destruct (add_i64 checks now (as_millis_i64 d)) as [t|] eqn:Ht; simpl; [|done].
  pose proof (proj1 (proj1 Hs)) as Htab.
  unfold charge. destruct (encode (cfg s)) eqn:He.
  - destruct (sm_encode (mkStored i from p t)) as [b|e|] eqn:Hb; simpl;
      [|by eauto|by destruct (sm_encode_no_panic _ Hb)].
    exists u, t, (len b + (topic_size (under_id u i) + entry_size)). split; [done|]. split; [done|]. split; [by rewrite Hb|].
    split; [by destruct r|].
    apply (rep_index s _ m (mkStored i from p t) _ u i r Hs Hi Hpos Hw Hu); try done.
    simpl. by apply (tables_insert_encoded _ _ _ _ _ i (mkKept (mkStored i from p t) _ ∅)); [..|apply sm_decode_encode].
  - exists u, t, (sm_get_size (mkStored i from p t) + (topic_size (under_id u i) + entry_size)).
    split; [done|]. split; [done|]. split; [done|]. split; [by destruct r|].
    apply (rep_index s _ m (mkStored i from p t) _ u i r Hs Hi Hpos Hw Hu); try done.
    simpl. by apply (tables_insert_plain _ _ _ _ _ i (mkKept (mkStored i from p t) _ ∅)).
Qed.

(** *** Removing *)

Lemma heap_pop_spec h :
  match heap_pop h with
  | Some (top, h') => h ≡ₚ top :: h' ∧ ∀ e, e ∈ h' → top.1 ≤ e.1
  | None => h = []
  end.
Proof.
  induction h as [|e h IH]; [done|]. simpl. destruct (heap_pop h) as [[top h']|].
  - destruct IH as [Hp Hle]. unfold due_before.
    destruct (Z.ltb_spec e.1 top.1); [|destruct (Z.eqb_spec e.1 top.1)]; simpl.
    + split; [done|]. intros x [->|?%Hle]%(elem_of_Permutation_proper _ _ _ Hp)%elem_of_cons; lia.
    + destruct (top.2 <=? e.2).
      * split; [done|]. intros x [->|?%Hle]%(elem_of_Permutation_proper _ _ _ Hp)%elem_of_cons; lia.
      * split; [by rewrite Hp; apply perm_swap|]. intros x [->|?%Hle]%elem_of_cons; lia.
    + split; [by rewrite Hp; apply perm_swap|]. intros x [->|?%Hle]%elem_of_cons; lia.
  - subst. split; [done|]. by intros x ?%not_elem_of_nil.
Qed.

#[local] Instance len_perm {A} : Proper ((≡ₚ@{A}) ==> (=)) len.
Proof. intros h h' Hh. unfold len. by rewrite Hh. Qed.

#[local] Instance due_proper over now : Proper ((≡ₚ) ==> (≡ₚ)) (due over now).
Proof. intros h h' Hh. unfold due. by destruct over; rewrite Hh. Qed.

Lemma due_cons over now e h :
  due over now (e :: h) = if over || (e.1 <=? now) then e :: due over now h else due over now h.
Proof.
  unfold due. destruct over; simpl; [done|]. rewrite filter_cons.
  destruct (Z.leb_spec e.1 now); case_decide; done || lia.
Qed.

Lemma due_none now h : (∀ e, e ∈ h → now < e.1) → due false now h = [].
Proof.
  induction h as [|e h IH]; intros He; [done|]. rewrite due_cons. simpl.
  rewrite (proj2 (Z.leb_gt _ _)) by (apply He; set_solver). apply IH. set_solver.
Qed.

(** The loop ends with the earliest deadlines taken: those that are due, up to one
    more than [max_limit]. *)
Lemma take_expired_spec fuel over now max_limit removeds h :
  (length h < fuel)%nat → ∃ taken h',
    take_expired fuel over now max_limit removeds h = Some (removeds ++ taken.*2, h') ∧ h ≡ₚ taken ++ h' ∧
    (∀ a b, a ∈ taken → b ∈ h' → a.1 ≤ b.1) ∧ (∀ a, a ∈ taken → a ∈ due over now h) ∧
    len taken = Z.max 0 (Z.min (max_limit + 1 - len removeds) (len (due over now h))).
Proof.
  revert removeds h. induction fuel as [|fuel IH]; intros removeds h Hf; [lia|].
  assert (Hstop : len (due over now h) = 0 ∨ max_limit < len removeds →
    take_expired (S fuel) over now max_limit removeds h = Some (removeds, h) → ∃ taken h',
    take_expired (S fuel) over now max_limit removeds h = Some (removeds ++ taken.*2, h') ∧ h ≡ₚ taken ++ h' ∧
    (∀ a b, a ∈ taken → b ∈ h' → a.1 ≤ b.1) ∧ (∀ a, a ∈ taken → a ∈ due over now h) ∧
    len taken = Z.max 0 (Z.min (max_limit + 1 - len removeds) (len (due over now h)))).
  { intros Hz ->. exists [], h. rewrite app_nil_r. split; [done|]. split; [done|].
    split; [by intros a b ?%not_elem_of_nil|]. split; [by intros a ?%not_elem_of_nil|]. rewrite len_nil.
    pose proof (len_nonneg (due over now h)). lia. }
  cbn [take_expired] in *. pose proof (heap_pop_spec h) as Hp. destruct (heap_pop h) as [[[t i] h']|].
  2: { subst. apply Hstop; [|done]. left. by destruct over. }
  destruct Hp as [Hp Hle]. destruct (Z.ltb_spec max_limit (len removeds)); [by apply Hstop; [right|]|].
  destruct ((now <? t) && negb over) eqn:Hn.
  { apply Hstop; [left|done]. apply andb_true_iff in Hn as [Hn%Z.ltb_lt ->%negb_true_iff].
    rewrite due_none; [done|]. intros e. rewrite Hp. intros [->|He%Hle]%elem_of_cons; simpl in *; lia. }
  assert (over || (t <=? now) = true) as Ht.
  { destruct over; [done|]. rewrite andb_true_r in Hn. apply Z.ltb_ge in Hn. simpl. by apply Z.leb_le. }
  clear Hstop. destruct (IH (removeds ++ [i]) h') as (taken & h2 & -> & Hp2 & Hle2 & Hdue & Hlen).
  { rewrite Hp in Hf. simpl in Hf. lia. }
  exists ((t, i) :: taken), h2. rewrite <-app_assoc. split; [done|]. split; [by rewrite Hp, Hp2|].
  split; [|split].
  - intros a b [->|Ha]%elem_of_cons Hb; [|by apply Hle2]. apply Hle. rewrite Hp2. set_solver.
  - intros a. rewrite Hp, due_cons. simpl. rewrite Ht. set_solver.
  - rewrite Hp, due_cons. simpl. rewrite Ht, !len_cons, Hlen, len_app. change (len [i]) with 1.
    pose proof (len_nonneg (due over now h')). lia.
Qed.

Lemma as_isize_sub_total m i k n :
  m !! i = Some k → n = as_isize (total_size m) → as_isize (n - k_size k) = as_isize (total_size (delete i m)).
Proof.
  intros Hi ->. rewrite <-Z.add_opp_r, as_isize_add, (total_size_delete m i k Hi). f_equal. lia.
Qed.

Lemma size_delete_pred {A C} (m1 : gmap MsgID A) (m2 : gmap MsgID C) i :
  size m1 = size m2 → is_Some (m1 !! i) → is_Some (m2 !! i) → size (delete i m1) = size (delete i m2).
Proof. intros Hs H1 H2. rewrite !map_size_delete_Some by done. by rewrite Hs. Qed.

Lemma tables_delete_plain c msgs encs n m i k :
  tables c msgs encs n m → encode c = false → m !! i = Some k →
  tables c (delete i msgs) encs (as_isize (n - k_size k)) (delete i m).
Proof.
  intros [Hst Hd Hc Hb] He Hi. unfold stored in Hst. rewrite He in Hst, Hc. split; [|done|..].
  - intros j. unfold stored. rewrite He, !lookup_delete. case_decide; [done|apply Hst].
  - rewrite He. apply size_delete_pred; [done| |by eauto]. rewrite Hst, Hi. by eexists.
  - by apply as_isize_sub_total.
Qed.

Lemma tables_delete_encoded c msgs encs n m i k :
  tables c msgs encs n m → encode c = true → m !! i = Some k →
  tables c msgs (delete i encs) (as_isize (n - k_size k)) (delete i m).
Proof.
  intros Hs He Hi. pose proof (tables_entry _ _ _ _ _ i Hs He) as Hx. rewrite Hi in Hx.
  destruct Hx as (b & Hx & _), Hs as [Hst Hd Hc Hb]. unfold stored in Hst. rewrite He in Hst, Hc. split.
  - intros j. unfold stored. rewrite He, !lookup_delete. case_decide; [done|apply Hst].
  - intros j b' z. rewrite lookup_delete. case_decide; [done|apply Hd].
  - rewrite He. apply size_delete_pred; by eauto.
  - by apply as_isize_sub_total.
Qed.

Lemma indexed_delete tree fwd m i k u :
  indexed tree fwd m → m !! i = Some k → topic_from_str (k_topic k) = Ok u →
  indexed (remove tree (under_id u i)).2 (delete i fwd) (delete i m).
Proof.
  intros Hs Hi Hu. split.
  - apply wf_remove, Hs.
  - intros t j. rewrite retained_remove. case_decide as Ht.
    + subst t. split; [done|]. intros (k' & u' & [Hne Hk']%lookup_delete_Some & _ & Heq).
      destruct Hne. apply (under_id_inj u u' i j) in Heq as [_ ?]; [done|..].
      * by destruct (ix_kept _ _ _ Hs i k Hi).
      * by destruct (ix_kept _ _ _ Hs j k' Hk').
    + rewrite (ix_tree _ _ _ Hs). split; intros (k' & u' & Hk' & Hu' & ->); exists k', u'.
      * rewrite lookup_delete_ne; [done|]. intros ->. destruct Ht. rewrite Hi in Hk'. injection Hk' as <-.
        by replace u' with u by congruence.
      * by apply lookup_delete_Some in Hk' as [_ ?].
  - intros j k' [_ Hk']%lookup_delete_Some. by apply Hs.
  - intros j. rewrite !lookup_delete. case_decide; [done|apply Hs].
  - intros j. rewrite !lookup_delete. case_decide; [done|apply Hs].
Qed.

Lemma messages_remove_spec {s m i k} :
  rep_core s m → m !! i = Some k → ∃ s', messages_remove i s = (Ok (Some (k_msg k)), s') ∧
    tables (cfg s') (messages s') (messages_encode s') (messages_bytes_size s') (delete i m) ∧
    topic_tree s' = topic_tree s ∧ forwardeds s' = forwardeds s ∧ expiries s' = expiries s ∧ cfg s' = cfg s.
Proof.
  intros [Hs _] Hi. unfold messages_remove. destruct (encode (cfg s)) eqn:He.
  - pose proof (tables_entry _ _ _ _ _ i Hs He) as Hx. rewrite Hi in Hx. destruct Hx as (b & -> & ->).
    eexists. split; [reflexivity|]. by split; [apply tables_delete_encoded|].
  - pose proof (tb_stored _ _ _ _ _ Hs i) as Hx. unfold stored in Hx. rewrite He, Hi in Hx. rewrite Hx.
    eexists. split; [reflexivity|]. by split; [apply tables_delete_plain|].
Qed.

Lemma forget_spec s m i k :
  rep_core s m → m !! i = Some k → ∃ s', forget i s = (Ok tt, s') ∧ rep_core s' (delete i m) ∧
    expiries s' = expiries s ∧ cfg s' = cfg s.
Proof.
  intros Hs Hi. destruct (messages_remove_spec Hs Hi) as (s1 & Hr & Ht & Htree & Hfw & Hexp & Hcfg).
  destruct (ix_kept _ _ _ (proj2 Hs) i k Hi) as (_ & _ & Hu). unfold k_topic in Hu.
  destruct (topic_from_str _) as [u| |] eqn:Hku; try done.
  unfold forget, attempt, mbind, M_bind. rewrite Hr. unfold lift, modify. rewrite Hku.
  eexists. split; [reflexivity|]. split; [|done]. split; [done|]. simpl. rewrite Htree, Hfw.
  by eapply indexed_delete; [apply Hs|..].
Qed.

Lemma foldr_delete_commute (m : kept_store) i ids : delete i (foldr delete m ids) = foldr delete (delete i m) ids.
Proof. induction ids as [|j ids IH]; [done|]. simpl. by rewrite delete_delete, IH. Qed.

Lemma forget_all s m ids :
  rep_core s m → NoDup ids → (∀ i, i ∈ ids → is_Some (m !! i)) → ∃ s', for_each forget ids s = (Ok tt, s') ∧
    rep_core s' (foldr delete m ids) ∧ expiries s' = expiries s ∧ cfg s' = cfg s.
Proof.
  revert s m. induction ids as [|i ids IH]; intros s m Hs Hnd Hin; [by exists s|].
  apply NoDup_cons in Hnd as [Hni Hnd]. destruct (Hin i) as [k Hk]; [set_solver|].
  destruct (forget_spec s m i k Hs Hk) as (s1 & Hf & Hs1 & He1 & Hc1).
  destruct (IH s1 (delete i m) Hs1 Hnd) as (s2 & Hf2 & Hs2 & He2 & Hc2).
  { intros j Hj. rewrite lookup_delete_ne by (intros ->; done). apply Hin. set_solver. }
  exists s2. simpl. rewrite (bind_ok _ _ _ _ _ Hf). split; [done|]. rewrite foldr_delete_commute.
  split; [done|]. by rewrite He2, Hc2.
Qed.

(** The heap is what is left of the deadlines. *)
Lemma deadlines_foldr m (taken h : list (Z * MsgID)) :
  deadlines m ≡ₚ taken ++ h → deadlines (foldr delete m taken.*2) ≡ₚ h.
Proof.
  revert m. induction taken as [|[t i] taken IH]; intros m Hp; [done|]. simpl.
  rewrite foldr_delete_commute. apply IH.
  assert (Hin : (t, i) ∈ deadlines m) by (rewrite Hp; set_solver).
  apply list_elem_of_fmap in Hin as ([i' k] & [= -> ->] & Hk%elem_of_map_to_list). simpl in *.
  rewrite (deadlines_delete m i' k Hk) in Hp. simpl in Hp. by apply Permutation_cons_inv in Hp.
Qed.

Lemma deadlines_ids m : (deadlines m).*2 = (map_to_list m).*1.
Proof. unfold deadlines. rewrite <-list_fmap_compose. by apply list_fmap_ext. Qed.

Lemma elem_of_deadlines m t i : (t, i) ∈ deadlines m ↔ ∃ k, m !! i = Some k ∧ k_due k = t.
Proof.
  unfold deadlines. rewrite list_elem_of_fmap. split.
  - intros ([i' k] & [= -> ->] & Hk%elem_of_map_to_list). by exists k.
  - intros (k & Hk & <-). exists (i, k). by rewrite elem_of_map_to_list.
Qed.

Lemma over_limits_spec s m : rep_core s m → over_limits s = overfull (cfg s) m.
Proof.
  intros [[_ _ Hc Hb] _]. unfold over_limits, overfull, messages_count, messages_bytes_size_get. rewrite Hb.
  by destruct (encode (cfg s)); rewrite Hc.
Qed.

Lemma clean_refines now max_limit s m :
  rep s m → 0 ≤ max_limit →
  ∃ n s' m', remove_expired_messages now max_limit s = (Ok n, s') ∧ cfg s' = cfg s ∧
    ram_spec checks (cfg s) (RClean now max_limit) m (RepRemoved n) m' ∧ rep s' m'.
Proof.
  intros [Hs Hexp] Hmax. pose proof (over_limits_spec s m Hs) as Hover.
  destruct (take_expired_spec (S (length (expiries s))) (overfull (cfg s) m) now max_limit [] (expiries s))
    as (taken & h & Htake & Hp & Hle & Hdue & Hlen); [lia|]. rewrite Hexp in Hp, Hlen.
  pose proof (NoDup_fst_map_to_list m) as Hnd. rewrite <-deadlines_ids, Hp, fmap_app in Hnd.
  apply NoDup_app in Hnd as (Hnd & Hdisj & _).
  assert (Hall : ∀ i, i ∈ taken.*2 → is_Some (m !! i)).
  { intros i ([t i'] & -> & Hi)%list_elem_of_fmap.
    assert (Hd : (t, i') ∈ deadlines m) by (rewrite Hp; set_solver).
    apply elem_of_deadlines in Hd as (k & Hk & _). by exists k. }
  set (s1 := on_expiries (λ _, h) s).
  destruct (forget_all s1 m taken.*2 Hs Hnd Hall) as (s2 & Hf & Hs2 & He2 & Hc2).
  exists (len taken.*2), s2, (foldr delete m taken.*2). unfold remove_expired_messages, mbind at 1, M_bind at 1. rewrite Hover, Htake, app_nil_l.
  fold s1. rewrite (bind_ok _ _ _ _ _ Hf). split; [done|]. split; [done|]. split.
  - constructor; [done|..].
    + intros i ([t i'] & -> & Hi%Hdue)%list_elem_of_fmap. apply list_elem_of_fmap. exists (t, i').
      split; [done|]. by rewrite <-Hexp.
    + intros i j k k' ([t i'] & -> & Hi)%list_elem_of_fmap Hk Hj Hk'. simpl in Hk.
      assert (Hd : (t, i') ∈ deadlines m) by (rewrite Hp; set_solver).
      apply elem_of_deadlines in Hd as (k0 & Hk0 & <-). rewrite Hk in Hk0. injection Hk0 as <-.
      apply (Hle (k_due k, i') (k_due k', j)); [done|].
      assert (Hd : (k_due k', j) ∈ deadlines m) by (apply elem_of_deadlines; by exists k').
      rewrite Hp in Hd. apply elem_of_app in Hd as [Hd|Hd]; [|done].
      destruct Hj. apply list_elem_of_fmap. by exists (k_due k', j).
    + assert (len taken.*2 = len taken) as -> by (unfold len; by rewrite length_fmap).
      rewrite Hlen. change (len (@nil MsgID)) with 0. pose proof (len_nonneg (due (overfull (cfg s) m) now (deadlines m))). lia.
  - split; [done|]. rewrite He2. simpl. symmetry. by apply deadlines_foldr.
Qed.

(** *** Histories *)

(** Topic names have no wildcards, identifiers and limits are [usize], and the
    deadline of a message is an [i64]. *)
Definition ram_op_ok (o : RamOp) : Prop :=
  match o with
  | RStore now _ p d i _ =>
      contains_wildcard (CodecTypes.topic (inner p)) = false ∧ 0 ≤ i ∧ - 2 ^ 63 ≤ now + as_millis_i64 d < 2 ^ 63
  | RClean _ max_limit => 0 ≤ max_limit
  | _ => True
  end.

Definition stored_id (o : RamOp) : option MsgID :=
  match o with RStore _ _ _ _ i _ => Some i | _ => None end.

Lemma alter_lookup {A} (g : A → A) (m : gmap MsgID A) i :
  alter g i m = match m !! i with Some k => <[i := g k]> m | None => m end.
Proof.
  apply map_eq. intros j. rewrite lookup_alter. destruct (m !! i) eqn:Hi; rewrite ?lookup_insert;
    case_decide; try subst j; by rewrite ?Hi.
Qed.

Lemma ram_exec_refines o s m :
  rep s m → ram_op_ok o → (∀ i, stored_id o = Some i → m !! i = None) →
  let '(r, s') := ram_exec o s in
  cfg s' = cfg s ∧ ∃ m', ram_spec checks (cfg s) o m r m' ∧ rep s' m' ∧
    ∀ i, m' !! i ≠ None → m !! i ≠ None ∨ stored_id o = Some i.
Proof.
  intros Hs Hok Hfresh. destruct o as [now from p d i r|now i r|now cid tf g|now max_limit]; simpl in *.
  - destruct Hok as (Hw & Hpos & Hrange).
    pose proof (set_spec now from p d i r s m Hs Hw Hpos (Hfresh i eq_refl)) as Hset.
    unfold attempt, mbind, M_bind. destruct (_set _ _ _ _ _ _ _ _) as [[[]|e|] s'].
    + destruct Hset as (u & t & n & Hu & Ht & Hn & Hc & Hrep). split; [done|].
      eexists. split; [by eapply spec_store|]. split; [done|]. intros j. rewrite lookup_insert.
      case_decide; [by subst; right|by left].
    + destruct Hset as (-> & [[e' He]|(t & e' & He)]); (split; [done|]); exists m.
      * split; [by eapply spec_store_topic|]. split; [done|]. by left.
      * split; [by eapply spec_store_codec|]. split; [done|]. by left.
    + destruct Hset as [_ Ha]. unfold add_i64 in Ha. by rewrite bool_decide_true in Ha.
  - unfold modify. rewrite (rep_exist s m i (proj1 Hs)).
    split; [by destruct (is_some _)|]. eexists. split; [apply spec_mark|]. split.
    + rewrite alter_lookup. destruct (m !! i) as [k|] eqn:Hk; simpl; [|done]. by apply rep_forwarded.
    + intros j Hj. left. intros Hn. destruct Hj. rewrite lookup_alter. case_decide; [subst|]; by rewrite Hn.
  - pose proof (ram_get_refines now cid tf g s m (proj1 Hs)) as Hg. split; [done|]. exists m.
    destruct (_get now cid tf g s); [|by (split; [|split; [|by left]])|done]. split; [done|]. split; [done|by left].
  - destruct (clean_refines now max_limit s m Hs Hok) as (n & s' & m' & -> & Hc & Hsp & Hr). split; [done|].
    exists m'. split; [done|]. split; [done|]. intros i Hi. left. intros Hn. destruct Hi. inversion Hsp; subst.
    destruct (decide (i ∈ victims)); [by apply lookup_foldr_delete|by rewrite lookup_foldr_delete_not_elem_of].
Qed.

Fixpoint ram_run (os : list RamOp) (s : RamMessageManager) : list RamReply * RamMessageManager :=
  match os with
  | [] => ([], s)
  | o :: os =>
      let '(r, s) := ram_exec o s in
      let '(rs, s) := ram_run os s in
      (r :: rs, s)
  end.

Inductive ram_spec_run (c : RamConfig) : list RamOp → kept_store → list RamReply → kept_store → Prop :=
| spec_run_nil m : ram_spec_run c [] m [] m
| spec_run_cons o os m r m' rs m'' :
    ram_spec checks c o m r m' → ram_spec_run c os m' rs m'' → ram_spec_run c (o :: os) m (r :: rs) m''.

Lemma run_refines os s m :
  rep s m → Forall ram_op_ok os → NoDup (omap stored_id os) → (∀ i, i ∈ omap stored_id os → m !! i = None) →
  let '(rs, s') := ram_run os s in ∃ m', ram_spec_run (cfg s) os m rs m' ∧ rep s' m'.
Proof.
  revert s m. induction os as [|o os IH]; intros s m Hs Hok Hnd Hfresh; simpl.
  { exists m. split; [constructor|done]. }
  apply Forall_cons in Hok as [Ho Hok].
  assert (Hf : ∀ i, stored_id o = Some i → m !! i = None ∧ i ∉ omap stored_id os).
  { simpl in *. intros i Hi. rewrite Hi in Hnd, Hfresh. apply NoDup_cons in Hnd as [? _]. set_solver. }
  pose proof (ram_exec_refines o s m Hs Ho (λ i Hi, proj1 (Hf i Hi))) as He.
  destruct (ram_exec o s) as [r s1]. destruct He as (Hc & m1 & Hsp & Hr1 & Hgrow).
  assert (Hnd' : NoDup (omap stored_id os)).
  { simpl in Hnd. destruct (stored_id o); [by apply NoDup_cons in Hnd as [_ ?]|done]. }
  assert (Hfresh' : ∀ i, i ∈ omap stored_id os → m1 !! i = None).
  { intros i Hi. apply dec_stable. intros [Hm|Hm]%Hgrow; [|by apply Hf in Hm as [_ ?]]. destruct Hm. apply Hfresh.
    simpl. destruct (stored_id o); [by apply elem_of_cons; right|done]. }
  specialize (IH s1 m1 Hr1 Hok Hnd' Hfresh'). destruct (ram_run os s1) as [rs s2].
  destruct IH as (m2 & Hrun & Hr2). exists m2. rewrite Hc in Hrun. split; [by econstructor|done].
Qed.


(** What a client is given for a subscription.  On a store with the messages [m],
    looking up finds each message once that the client has not had, nor its group
    for this filter, that has not expired, that is not for another client, and whose
    topic matches the filter by the MQTT rules; besides, when the filter ends in
    [#] and has one level more than the topic before it, a message whose topic
    matches those levels together with the message's own identifier. *)
Theorem ram_stored_lookup now cid tf g s m f :
  rep s m → topic_from_str tf = Ok f →
  ∃ out, _get now cid tf g s = Ok out ∧ NoDup out.*1.*1 ∧
    ∀ i from p, (i, from, p) ∈ out ↔ ∃ k, m !! i = Some k ∧ sm_from (k_msg k) = from ∧ sm_publish (k_msg k) = p ∧
      k_forwarded k !! cid = None ∧ (∀ g', g = Some g' → ∀ c, k_forwarded k !! c ≠ Some (Some (tf, g'))) ∧
      now ≤ k_due k ∧ (∀ t, target_clientid p = Some t → t = cid) ∧
      let levels := split SLASH (CodecTypes.topic (inner p)) in
      (mqtt_matches f levels = true ∨
       ∃ h, f = h ++ [MultiWildcard] ∧ length h = S (length levels) ∧
            mqtt_matches h (levels ++ [show_usize i]) = true).
Proof.
  intros [Hs _] Hf. pose proof (ram_get_refines now cid tf g s m Hs) as Hg. pose proof Hf as [Hc _]%topic_from_str_spec.
  destruct (_get now cid tf g s) as [out|e|]; [|inversion Hg; congruence|done].
  inversion Hg as [| | | |????? f' ? Hf' Hnd Hin| |]; subst. replace f' with f in Hin by congruence.
  exists out. split; [done|]. split; [done|]. intros i from p. rewrite Hin. unfold visible.
  split; intros (k & Hk & Hrest); exists k.
  - by destruct Hrest as (([? ?] & ? & ? & ?) & <- & <-).
  - by destruct Hrest as (<- & <- & ? & ? & ? & ? & ?).
Qed.
End Refinement.

(** ** A small store *)

#[local] Existing Instances map_order map_order_ok.

Definition sample_stored (topic : TopicName) : BrokerTypes.Publish := r_publish (sample_retain topic [1; 2]).

#[export] Instance PublishProperties_eq_dec : EqDecision CodecTypes.PublishProperties.
Proof. solve_decision. Defined.
#[export] Instance CodecPublish_eq_dec : EqDecision CodecTypes.Publish.
Proof. solve_decision. Defined.
#[export] Instance Publish_eq_dec : EqDecision BrokerTypes.Publish.
Proof. solve_decision. Defined.
#[export] Instance FromType_eq_dec : EqDecision FromType.
Proof. solve_decision. Defined.
#[export] Instance From_eq_dec : EqDecision From.
Proof. solve_decision. Defined.
#[export] Instance StoredMessage_eq_dec : EqDecision StoredMessage.
Proof. solve_decision. Defined.

Definition first_stored : StoredMessage := mkStored 1 (from_custom sample_id) (sample_stored (lit "a")) 10000.

(** A codec that knows one message. *)
Definition one_codec : MessageCodec := {|
  sm_encode m := if decide (m = first_stored) then Ok [0] else Err (EOther (lit "unknown message"));
  sm_decode b := if decide (b = [0]) then Ok first_stored else Err (EOther (lit "unknown bytes"));
  sm_get_size m := 100 + len (CodecTypes.payload (inner (sm_publish m)));
  size_of_level := 24;
|}.

Lemma one_codec_ok : @MessageCodecOk one_codec.
Proof.
  split; simpl.
  - intros m b. destruct (decide (m = first_stored)) as [->|]; [|done]. intros [= <-]. by rewrite decide_True.
  - intros m. by destruct (decide _).
Qed.

#[local] Existing Instances one_codec one_codec_ok.

Definition ten_seconds : Z := 10000000000.

Definition store_op (i : MsgID) (topic : string) : RamOp :=
  RStore 0 (from_custom sample_id) (sample_stored (lit topic)) ten_seconds i None.

Definition plain_cfg : RamConfig := mkRamConfig 1000000 2 false 300000.
Definition encoded_cfg : RamConfig := mkRamConfig 1000000 2 true 300000.

Definition got (r : RamReply) : option (list MsgID) :=
  match r with RepGot out => Some out.*1.*1 | RepRemoved n => Some [n] | _ => None end.

(** A message is found until the client has had it, or it is too old. *)
Definition sample_history : list RamOp :=
  [store_op 1 "a"; store_op 2 "a/b"; RGet 5 (lit "c2") (lit "a/#") None; RMark 6 1 [(lit "c2", None)];
   RGet 7 (lit "c2") (lit "a") None; RGet 7 (lit "c3") (lit "a") None; RClean 9999 5000;
   RClean 10000 5000; RGet 9 (lit "c3") (lit "#") None].

Example sample_history_run : (got <$> (ram_run true sample_history (ram_new plain_cfg)).1) =
  [None; None; Some [1; 2]; None; Some []; Some [1]; Some [0]; Some [2]; Some []] ∨
  (got <$> (ram_run true sample_history (ram_new plain_cfg)).1) =
  [None; None; Some [2; 1]; None; Some []; Some [1]; Some [0]; Some [2]; Some []].
Proof. first [left; vm_compute; reflexivity | right; vm_compute; reflexivity]. Qed.

Example sample_history_encoded : (got <$> (ram_run true
    [store_op 1 "a"; RGet 5 (lit "c2") (lit "a/#") None; RMark 6 1 [(lit "c2", None)];
     RGet 7 (lit "c2") (lit "a") None; RClean 10000 5000] (ram_new encoded_cfg)).1) =
  [None; Some [1]; None; Some []; Some [1]].
Proof. vm_compute. reflexivity. Qed.

(** A message on [a] is given to a client that subscribes to [a/+/#], which MQTT
    does not match with [a]. *)
Example stray_message :
  (got <$> (ram_run true [store_op 1 "a"; RGet 5 (lit "c2") (lit "a/+/#") None] (ram_new plain_cfg)).1) =
    [None; Some [1]] ∧
  ∀ f, topic_from_str (lit "a/+/#") = Ok f → mqtt_matches f (split SLASH (lit "a")) = false.
Proof. split; [vm_compute; reflexivity|]. intros f. vm_compute. by intros [= <-]. Qed.

(** One message more than the store may hold: the next cleaning removes them all,
    long before they are due. *)
Example overfull_forgets_all :
  (got <$> (ram_run true [store_op 1 "a"; store_op 2 "a/b"; RClean 1 5000; store_op 3 "c"; RClean 1 5000;
                          RGet 2 (lit "c2") (lit "#") None] (ram_new plain_cfg)).1) =
  [None; None; Some [0]; None; Some [3]; Some []].
Proof. vm_compute. reflexivity. Qed.

(** Marking looks whether the message is there and notes the client in two steps.
    When the cleaning task runs between them, the note stays for ever. *)
Example mark_races_clean :
  let s := (ram_run true [store_op 1 "a"] (ram_new plain_cfg)).2 in
  messages_exist s 1 = true ∧
  let s := (ram_exec true (RClean 10000 5000) s).2 in
  let s := set_forwardeds 1 [(lit "c2", None)] s in
  messages_count s = 0 ∧ expiries s = [] ∧ forwardeds s !! 1 ≠ None.
Proof. vm_compute. repeat split; discriminate. Qed.


Lemma ram_stored_lookup_witness :
  let s := (ram_run true [store_op 1 "a"; store_op 2 "b"] (ram_new plain_cfg)).2 in
  ∃ out, _get 5 (lit "c2") (lit "a/+/#") None s = Ok out ∧ out.*1.*1 = [1] ∧ NoDup out.*1.*1.
Proof.
  intros s. pose proof (run_refines true [store_op 1 "a"; store_op 2 "b"] (ram_new plain_cfg) ∅ (ram_rep_new plain_cfg)) as H.
  subst s. destruct (ram_run true [store_op 1 "a"; store_op 2 "b"] (ram_new plain_cfg)) as [rs s] eqn:Hrun.
  destruct H as (m & _ & Hrep).
  - repeat constructor; vm_compute; discriminate.
  - vm_compute. repeat constructor; set_solver.
  - intros i _. apply lookup_empty.
  - destruct (topic_from_str (lit "a/+/#")) as [f| |] eqn:Hf; [|vm_compute in Hf; discriminate..].
    destruct (ram_stored_lookup true 5 (lit "c2") (lit "a/+/#") None s m f Hrep Hf) as (out & Ho & Hnd & _).
    exists out. split; [exact Ho|]. split; [|exact Hnd].
    assert (Hg : match _get 5 (lit "c2") (lit "a/+/#") None (ram_run true [store_op 1 "a"; store_op 2 "b"] (ram_new plain_cfg)).2
                 with Ok out => out.*1.*1 = [1] | _ => False end) by (vm_compute; reflexivity).
    rewrite Hrun in Hg. simpl in Hg. rewrite Ho in Hg. exact Hg.
Defined.
