(* ===== verification/SessionStored.v ===== *)
(** * Stored messages for a new subscriber

    A node whose message store is the one in memory: the task that a subscription
    starts, from the store to the channel of the session, and what the store
    remembers of it. *)

From stdpp Require Import base list numbers option gmap strings relations.
From Stdlib Require Import ZArith Lia.
From S2P Require Import Prelude Errors CodecTypes PacketV5 Topic Counter Hash BrokerTypes Queue Inflight.
From S2P Require Import Retain RetainStore Router Acl Alias Hook Delayed SessionSubs ConnInfo Fitter Broker.
From S2P Require Import Session SessionLoop SessionFrame Sample SessionQos Registry Takeover MessageRam.

#[local] Open Scope Z_scope.

(** The backend of a node with the plugin [ferromq-message-storage]. *)
Definition with_ram (B : Backend) `{!MessageCodec} : Backend := {|
  DQ := DQ;
  HQ := HQ;
  St := St;
  Mm := Z * RamMessageManager;
  backend_deque := backend_deque;
  backend_heap := backend_heap;
  backend_choice := backend_choice;
  backend_msgs := ram_message_manager;
  backend_order := backend_order;
  backend_levels := backend_levels;
|}.

Section Stored.
Context (B : Backend) `{!BackendOk B, !MessageCodec, !MessageCodecOk} (scx : @ServerContext).
#[local] Instance ram_backend : Backend | 0 := with_ram B.

Abbreviation node := (@Node ram_backend).
Abbreviation found := (MsgID * From * BrokerTypes.Publish)%type.

(** The message that a subscriber with QoS [q] receives for a stored one. *)
Definition as_stored (q : QoS) (x : found) : Message :=
  let p := x.2 in
  Forward x.1.2
    (BrokerTypes.mkPublish
       (CodecTypes.mkPublish false false (less_value (qos (inner p)) q) (topic (inner p)) None (payload (inner p))
          (properties (inner p)))
       (target_clientid p) (delay_interval p) (create_time p)).

(** Not among the messages that were sent as retained ones. *)
Definition fresh_for (excludeds : option (list (NodeId * MsgID))) (x : found) : bool :=
  negb (from_option (λ ex, bool_decide ((id_node_id (from_id x.1.2), x.1.1) ∈ ex)) false excludeds).

(** The messages among [xs] that were published on this node, and what the store is
    told of them. *)
Definition from_here (xs : list found) : list found :=
  filter (λ x : found, id_node_id (from_id x.1.2) = sc_node_id scx) xs.

Definition mark_of (cid : ClientId) (tf : TopicFilter) (group : option SharedGroup) (i : MsgID) : Msg :=
  MsgMarkForwarded i [(cid, (λ g, (tf, g)) <$> group)].

Definition marks (cid : ClientId) (tf : TopicFilter) (group : option SharedGroup) (xs : list found) : list Msg :=
  map (mark_of cid tf group) (from_here xs).*1.*1.

Definition with_marks (ms : list Msg) (s : RamMessageManager) : RamMessageManager :=
  on_queue (λ q, q ++ ms) (λ n, foldl (λ n _, as_isize (n + 1)) n ms) s.

Lemma with_marks_nil s : with_marks [] s = s.
Proof. unfold with_marks, on_queue. simpl. rewrite app_nil_r. by destruct s. Qed.

Lemma with_marks_cons m ms s : with_marks (m :: ms) s = with_marks ms (with_marks [m] s).
Proof. unfold with_marks, on_queue. simpl. by rewrite <-app_assoc. Qed.

(** The loop of [_send_storaged_messages]: what is not excluded goes to the channel,
    in order, and what comes from this node is reported to the store. *)
Lemma send_storaged_spec id tf group q ex xs (n : node) ps tx now s :
  peer n (id_client_id id) = Some (mkEntryItem ps tx) → open_chan tx n → n_msgs n = (now, s) →
  let n' := send_storaged_messages scx id xs q ex tf group n in
  let sent := filter (λ x, fresh_for ex x = true) xs in
  pushed tx n n' (map (as_stored q) sent) ∧
  n_msgs n' = (now, with_marks (marks (id_client_id id) tf group sent) s).
Proof.
  revert n s. induction xs as [|[[i from] p] xs IH]; intros n s Hp Ho Hm.
  { simpl. rewrite with_marks_nil. split; [|done]. split; [done|]. intros ms. by rewrite app_nil_r. }
  cbn [send_storaged_messages]. cbv zeta. rewrite filter_cons.
  destruct (fresh_for ex (i, from, p)) eqn:Hf; unfold fresh_for in Hf; cbn [fst snd] in Hf.
  2: { apply negb_false_iff in Hf. rewrite Hf. by apply IH. }
  apply negb_true_iff in Hf. rewrite Hf. cbn [decide_rel]. destruct Ho as [ms Hms].
  set (p' := on_inner _ p).
  set (n1 := on_n_chans (alter (λ c, mkChan (ch_open c) (ch_msgs c ++ [Forward from p'])) tx) n).
  assert (Hpub : entry_publish id from p' n = (None, n1)).
  { unfold entry_publish, entry_tx. rewrite Hp. simpl. unfold unbounded_send, tx_is_closed. by rewrite Hms. }
  rewrite Hpub. assert (P1 : pushed tx n n1 [as_stored q (i, from, p)]).
  { split; [done|]. intros ms' Hms'. simpl. by rewrite lookup_alter_eq, Hms'. }
  rewrite decide_True by done. set (sent := filter _ xs) in *. unfold marks, from_here. rewrite filter_cons. cbn [fst snd].
  destruct (Z.eqb_spec (id_node_id (from_id from)) (sc_node_id scx)) as [Hhere|Hhere];
    case_decide as Hd; try (by destruct Hd || by destruct Hhere).
  - set (n2 := on_n_msgs _ n1).
    assert (P2 : pushed tx n n2 [as_stored q (i, from, p)]) by exact P1.
    destruct (IH n2 (with_marks [MsgMarkForwarded i [(id_client_id id, (λ g, (tf, g)) <$> group)]] s))
      as [P3 M3]; [done|by eapply pushed_open; [exact P2|exists ms]| |].
    { simpl. by rewrite Hm. }
    split; [exact (pushed_trans _ _ _ _ _ _ P2 P3)|]. rewrite M3. by rewrite <-with_marks_cons.
  - destruct (IH n1 s) as [P3 M3]; [done|by eapply pushed_open; [exact P1|exists ms]|done|].
    split; [exact (pushed_trans _ _ _ _ _ _ P1 P3)|exact M3].
Qed.

(** *** The task of the store *)

(** As many turns of the task of the store as there are messages for it. *)
Fixpoint serve_turns (checks : bool) (k : nat) (now : Z) : M RamMessageManager Error unit :=
  match k with
  | O => mret tt
  | S k => serve_turn checks now;; serve_turns checks k now
  end.

Lemma serve_marks checks now cid tf group ids s m :
  rep s m → msg_queue s = map (mark_of cid tf group) ids →
  ∃ s' m', serve_turns checks (length ids) now s = (Ok tt, s') ∧ msg_queue s' = [] ∧ rep s' m' ∧
    ∀ i, m' !! i = (λ k, if decide (i ∈ ids)
                         then mkKept (k_msg k) (k_size k) (<[cid := (λ g, (tf, g)) <$> group]> (k_forwarded k))
                         else k) <$> m !! i.
Proof.
  revert s m. induction ids as [|j ids IH]; intros s m Hs Hq.
  { exists s, m. split; [done|]. split; [done|]. split; [done|]. intros i. by destruct (m !! i). }
  set (f := (λ g, (tf, g)) <$> group) in *.
  set (s0 := on_queue (λ _, map (mark_of cid tf group) ids) id s).
  assert (Hs0 : rep s0 m) by exact Hs.
  pose proof (ram_exec_refines checks (RMark now j [(cid, f)]) s0 m Hs0 I ltac:(done)) as He.
  destruct He as (_ & m1 & Hsp & Hr1 & _). inversion Hsp; subst. clear Hsp.
  set (s1 := if messages_exist s0 j then set_forwardeds j [(cid, f)] s0 else s0) in *.
  assert (Hq1 : msg_queue s1 = map (mark_of cid tf group) ids) by (unfold s1; by destruct (messages_exist s0 j)).
  set (s2 := on_queue id (λ n, as_isize (n - 1)) s1).
  destruct (IH s2 _ Hr1 Hq1) as (s' & m' & Hrun & Hq' & Hr' & Hm').
  exists s', m'. split; [|split; [done|split; [done|]]].
  - cbn [length serve_turns]. unfold serve_turn at 1, mbind at 1, M_bind at 1. rewrite Hq. exact Hrun.
  - intros i. rewrite Hm'. destruct (decide (j = i)) as [<-|Hj].
    + rewrite lookup_alter_eq, <-option_fmap_compose. apply option_fmap_ext. intros k. simpl.
      rewrite <-note_forwarded_also. simpl. rewrite (decide_True (P := j ∈ j :: ids)) by set_solver.
      case_decide; simpl; [by rewrite insert_insert_eq|done].
    + rewrite lookup_alter_ne by done. apply option_fmap_ext. intros k.
      destruct (decide (i ∈ ids)); [by rewrite decide_True by set_solver|by rewrite decide_False by set_solver].
Qed.

Lemma visible_before now t cid tf g f i k : now ≤ t → visible t cid tf g f i k → visible now cid tf g f i k.
Proof. intros Ht (H1 & H2 & H3 & H4). split; [done|]. split; [lia|done]. Qed.

(** C22: subscribing to what was published before.  A subscription to a filter finds [out]
    in the store, as [ram_stored_lookup] says; what was not sent already as a retained
    message goes to the channel of the client, in order, behind what is there, at the
    smaller of its own and the granted QoS.  The store learns of the messages that
    were published on this node; as soon as its task has handled that, none of them
    is found for this client and filter again, whenever it looks, and the store has
    the same messages as before. *)
Theorem stored_for_subscriber checks id tf q group ex (n : node) ps tx ms now s m f :
  peer n (id_client_id id) = Some (mkEntryItem ps tx) → n_chans n !! tx = Some (mkChan true ms) →
  n_msgs n = (now, s) → rep s m → msg_queue s = [] → topic_from_str tf = Ok f →
  let n' := load_storaged_messages scx id tf q group ex n in
  ∃ out s1 s2 m2,
    _get now (id_client_id id) tf group s = Ok out ∧
    n_chans n' !! tx = Some (mkChan true (ms ++ map (as_stored q) (filter (λ x, fresh_for ex x = true) out))) ∧
    n_msgs n' = (now, s1) ∧
    serve_turns checks (length (msg_queue s1)) now s1 = (Ok tt, s2) ∧ rep s2 m2 ∧
    (∀ i, k_msg <$> m2 !! i = k_msg <$> m !! i) ∧
    ∀ t out2 x, now ≤ t → _get t (id_client_id id) tf group s2 = Ok out2 → x ∈ out2 →
      x ∈ out ∧ (fresh_for ex x = true → id_node_id (from_id x.1.2) ≠ sc_node_id scx).
Proof.
  intros Hp Hch Hmsg Hrep Hq Hf n'. pose proof (ram_get_refines checks now (id_client_id id) tf group s m (proj1 Hrep)) as Hg.
  destruct (_get now (id_client_id id) tf group s) as [out|e|] eqn:Hout; [|inversion Hg; congruence|done].
  inversion Hg as [| | | |????? f' ? Hf' Hnd Hin| |]; subst. replace f' with f in Hin by congruence. clear Hg.
  set (sent := filter (λ x, fresh_for ex x = true) out).
  destruct (send_storaged_spec id tf group q ex out (on_n_msgs (λ _, ((now, s) : @Mm ram_backend)) n) ps tx now s) as [[_ Hch'] Hmsg'];
    [done|by exists ms|done|].
  assert (Hload : n' = send_storaged_messages scx id out q ex tf group (on_n_msgs (λ _, ((now, s) : @Mm ram_backend)) n)).
  { unfold n', load_storaged_messages. rewrite Hmsg. cbn [mm_get backend_msgs ram_backend with_ram ram_message_manager].
    by rewrite Hout. }
  set (s1 := with_marks (marks (id_client_id id) tf group sent) s).
  set (ids := (from_here sent).*1.*1).
  assert (Hq1 : msg_queue s1 = map (mark_of (id_client_id id) tf group) ids) by (unfold s1; simpl; by rewrite Hq).
  assert (Hrep1 : rep s1 m) by exact Hrep.
  destruct (serve_marks checks now _ tf group ids s1 m Hrep1 Hq1) as (s2 & m2 & Hrun & _ & Hrep2 & Hm2).
  exists out, s1, s2, m2. split; [done|]. rewrite Hload. split; [by apply Hch'|]. split; [exact Hmsg'|].
  rewrite Hq1, length_map. split; [done|]. split; [done|].
  assert (Hsame : ∀ i, k_msg <$> m2 !! i = k_msg <$> m !! i).
  { intros i. rewrite Hm2, <-option_fmap_compose. apply option_fmap_ext. intros k. simpl. by case_decide. }
  split; [done|]. intros t out2 [[i from] p] Ht Hout2 Hx.
  pose proof (ram_get_refines checks t (id_client_id id) tf group s2 m2 (proj1 Hrep2)) as Hg.
  change (@backend_levels B) with (@backend_levels ram_backend) in Hg. rewrite Hout2 in Hg.
  inversion Hg as [| | | |????? f2 ? Hf2 _ Hin2| |]; subst. replace f2 with f in Hin2 by congruence. clear Hg.
  apply Hin2 in Hx as (k' & Hk' & Hvis & <- & <-). rewrite Hm2 in Hk'.
  apply fmap_Some in Hk' as (k & Hk & Hk').
  pose proof Hvis as [[Hnone _] _].
  assert (Hi : i ∉ ids) by (intros Hi; rewrite decide_True in Hk' by done; subst k'; simpl in Hnone;
    by rewrite lookup_insert_eq in Hnone).
  rewrite decide_False in Hk' by done. subst k'.
  assert (Hold : (i, sm_from (k_msg k), sm_publish (k_msg k)) ∈ out).
  { apply Hin. exists k. split; [done|]. split; [|done]. by eapply visible_before. }
  split; [done|]. intros Hfresh Hhere. destruct Hi. unfold ids, from_here, sent.
  apply list_elem_of_fmap. exists (i, sm_from (k_msg k)). split; [done|].
  apply list_elem_of_fmap. eexists. split; [|apply list_elem_of_filter; split; [exact Hhere|]]; [done|].
  by apply list_elem_of_filter.
Qed.
End Stored.

(** ** A message that waited for client c1 *)

#[local] Existing Instances one_codec one_codec_ok.
#[local] Instance stored_backend : Backend | 0 := with_ram sample_backend.

Definition stored_ops : list RamOp := [store_op 1 "a"; store_op 2 "b"].
Definition stored_store : RamMessageManager := (ram_run true stored_ops (ram_new plain_cfg)).2.

Definition stored_node : Node :=
  let ci := sample_v3 (lit "c1") false None in
  let '(r, n) := session_new (ci_id ci) 4 listener_new None 16 0 ci false false true 0 ∅ None
    (mkNode 1000 0 router_new tt ∅ ∅ ∅ ∅ storage_new [] ((5, stored_store) : Mm) stats_new counter_new counter_new
       ∅ [] [] 1) in
  entry_set (ci_id ci) r r (on_n_chans <[r := mkChan true []]> n).

Definition c1 : Id := mkId 1 0 None None (lit "c1") None 0.

Lemma stored_for_subscriber_witness :
  n_chans (load_storaged_messages sample_server c1 (lit "a") AtMostOnce None None stored_node) !! 1 =
    Some (mkChan true [as_stored AtMostOnce (1, from_custom sample_id, sample_stored (lit "a"))]) ∧
  ∃ s1 s2, n_msgs (load_storaged_messages sample_server c1 (lit "a") AtMostOnce None None stored_node) = (5, s1) ∧
    serve_turns true (length (msg_queue s1)) 5 s1 = (Ok tt, s2) ∧
    ∀ t out2 x, 5 ≤ t → _get t (lit "c1") (lit "a") None s2 = Ok out2 → x ∈ out2 →
      id_node_id (from_id x.1.2) ≠ 1.
Proof.
  pose proof (run_refines true stored_ops (ram_new plain_cfg) ∅ (ram_rep_new plain_cfg)) as H.
  destruct (ram_run true stored_ops (ram_new plain_cfg)) as [rs s] eqn:Hrun.
  destruct H as (m & _ & Hrep).
  - repeat constructor; vm_compute; discriminate.
  - vm_compute. repeat constructor; set_solver.
  - intros i _. apply lookup_empty.
  - assert (Hs : s = stored_store) by exact (eq_sym (f_equal snd Hrun)). subst s. clear Hrun.
    destruct (stored_for_subscriber sample_backend sample_server true c1 (lit "a") AtMostOnce None None stored_node 1 1
      [] 5 stored_store m [Normal (lit "a")]) as (out & s1 & s2 & m2 & Hout & Hch & Hm & Hserve & _ & _ & Hlater);
      [vm_compute; reflexivity|vm_compute; reflexivity|reflexivity|exact Hrep|reflexivity|reflexivity|].
    split.
    + assert (Ho : Ok (E := Error) out = Ok [(1, from_custom sample_id, sample_stored (lit "a"))])
        by (rewrite <-Hout; vm_compute; reflexivity).
      injection Ho as ->. exact Hch.
    + exists s1, s2. split; [exact Hm|]. split; [exact Hserve|]. intros t out2 x Ht Hg Hx.
      by destruct (Hlater t out2 x Ht Hg Hx) as [_ Hn]; apply Hn.
Defined.
