(* ===== verification/ClusterRouter.v ===== *)
(** * The replicated router

    [ferromq-cluster-raft/src/router.rs] and [message.rs]: the router of a cluster
    is a state machine that every node applies to the same log.  It wraps
    [DefaultRouter] ([Router]) and keeps the state of every client: which session
    owns it, whether it is online, and a lock that a connecting client takes.
    [snapshot] writes all of it as four segments, each after its length, and
    [restore] reads them back.

    The encoding of values (postcard) and the four compressors are not in the
    repository: the class [Postcard], and here [Compressor] with the law that the
    code relies on in [CompressorOk]. *)

From stdpp Require Import base list numbers option gmap strings.
From Stdlib Require Import ZArith Lia.
From S2P Require Import Prelude CodecTypes Topic Trie Counter Postcard Hash BrokerTypes Router ConnInfo.

#[local] Open Scope Z_scope.

(** ** Libraries *)

Inductive Compression : Type := Zstd | Lz4 | Zlib | Snappy.

Class Compressor := {
  compress_with : Compression → bytes → option bytes;
  uncompress_with : Compression → bytes → option bytes;
}.

Class CompressorOk `{Compressor} : Prop :=
  uncompress_compress c data z : compress_with c data = Some z → uncompress_with c z = Some data.

(** ** Messages *)

Module RaftMessage.
Inductive Message : Type :=
| HandshakeTryLock (id : Id)
| Connected (id : Id)
| Disconnected (id : Id)
| SessionTerminated (id : Id)
| Add (topic_filter : TopicFilter) (id : Id) (opts : SubscriptionOptions)
| Remove (topic_filter : TopicFilter) (id : Id)
| GetClientNodeId (client_id : ClientId)
| Ping.
End RaftMessage.

Module RaftReply.
Inductive MessageReply : Type :=
| Error (what : str)
| HandshakeTryLock (prev_id : option Id)
| Ping.
End RaftReply.

Export RaftMessage (Message).
Export RaftReply (MessageReply).

(** [ferromq_raft::Error].  [RForeign] is an error of postcard or of a
    compressor that went through [anyhow]. *)
Inductive RaftError : Type :=
| ROther
| RUnknown
| RMsg (e : TopicError)
| RAnyhow (e : Error)
| RForeign.

(** ** State *)

Record ClientStatus : Type := mkStatus {
  cs_id : Id;
  cs_online : bool;
  cs_handshaking : bool;
  handshak_duration : Z;
}.

(** [ClientStatus::new] *)
Definition client_status_new (now : Z) (id : Id) (online handshaking : bool) : ClientStatus :=
  mkStatus id online handshaking now.

Record ClusterRouter : Type := mkClusterRouter {
  router_inner : DefaultRouter;
  client_states : gmap ClientId ClientStatus;
  try_lock_timeout : Z;
  compression : option Compression;
}.

Definition on_router_inner f (s : ClusterRouter) : ClusterRouter :=
  mkClusterRouter (f (router_inner s)) (client_states s) (try_lock_timeout s) (compression s).
Definition on_client_states f (s : ClusterRouter) : ClusterRouter :=
  mkClusterRouter (router_inner s) (f (client_states s)) (try_lock_timeout s) (compression s).

(** [ClusterRouter::new] *)
Definition cluster_router_new (try_lock_timeout : Z) (compression : option Compression) : ClusterRouter :=
  mkClusterRouter router_new ∅ try_lock_timeout compression.

Definition _client_node_id (s : ClusterRouter) (client_id : ClientId) : option NodeId :=
  (λ st, id_node_id (cs_id st)) <$> client_states s !! client_id.
Definition cluster_id (s : ClusterRouter) (client_id : ClientId) : option Id :=
  cs_id <$> client_states s !! client_id.
Definition states_count (s : ClusterRouter) : nat := size (client_states s).
Definition cluster_status (s : ClusterRouter) (client_id : ClientId) : option ClientStatus :=
  client_states s !! client_id.
Definition get_target_node_id (s : ClusterRouter) (target_clientid : ClientId) : option NodeId :=
  (λ st, id_node_id (cs_id st)) <$> client_states s !! target_clientid.
(** [is_online]; the node is not used. *)
Definition cluster_is_online (s : ClusterRouter) (client_id : ClientId) : bool :=
  from_option cs_online false (client_states s !! client_id).

(** What a snapshot lists. *)
Abbreviation RelationEntries := (list (TopicFilter * gmap ClientId (Id * SubscriptionOptions))).
Abbreviation StatusEntries := (list (ClientId * ClientStatus)).

(** What the state machine encodes. *)
Class ClusterCodec := {
  #[global] cc_message :: Postcard Message;
  #[global] cc_reply :: Postcard MessageReply;
  #[global] cc_node :: Postcard (option NodeId);
  #[global] cc_relations :: Postcard RelationEntries;
  #[global] cc_states :: Postcard StatusEntries;
  #[global] cc_counter :: Postcard Counter;
  #[global] cc_compressor :: Compressor;
}.

Class ClusterCodecOk `{ClusterCodec} : Prop := {
  #[global] cc_message_ok :: PostcardOk Message;
  #[global] cc_reply_ok :: PostcardOk MessageReply;
  #[global] cc_node_ok :: PostcardOk (option NodeId);
  #[global] cc_relations_ok :: PostcardOk RelationEntries;
  #[global] cc_states_ok :: PostcardOk StatusEntries;
  #[global] cc_counter_ok :: PostcardOk Counter;
  #[global] cc_compressor_ok :: CompressorOk;
}.

Section StateMachine.
Context `{!ClusterCodec} `{!HashOrder str} (checks : bool).

Abbreviation CM := (M ClusterRouter RaftError).

(** ** Applying an entry of the log *)

(** [ClientStatus::handshaking]; [None] is an overflow. *)
Definition handshaking (now try_lock_timeout : Z) (st : ClientStatus) : option bool :=
  if cs_handshaking st then
    (λ deadline, now <? deadline) <$> add_i64 checks (handshak_duration st) (as_millis_i64 try_lock_timeout)
  else Some false.

(** [reply.encode().map_err(|_e| Error::Unknown)] *)
Definition encode_reply (r : MessageReply) : outcome RaftError bytes :=
  match to_stdvec r with Some b => Ok b | None => Err RUnknown end.

Definition try_lock_failed : str := lit "Handshake try lock failed".
Definition id_not_the_same : str := lit "id not the same".

Definition apply_handshake_try_lock (now : Z) (id : Id) : CM bytes := λ s,
  let lock := on_client_states (<[id_client_id id := client_status_new now id false true]>) in
  match client_states s !! id_client_id id with
  | Some status =>
      match handshaking now (try_lock_timeout s) status with
      | Some true => (encode_reply (RaftReply.Error try_lock_failed), s)
      | Some false => (encode_reply (RaftReply.HandshakeTryLock (Some (cs_id status))), lock s)
      | None => (Panic, s)
      end
  | None => (encode_reply (RaftReply.HandshakeTryLock None), lock s)
  end.

Definition apply_connected (now : Z) (id : Id) : CM bytes := λ s,
  match client_states s !! id_client_id id with
  | Some status =>
      if negb (bool_decide (cs_id status = id)) && (id_create_time id <? id_create_time (cs_id status)) then
        (encode_reply (RaftReply.Error id_not_the_same), s)
      else
        (Ok [], on_client_states (<[id_client_id id := mkStatus id true false (handshak_duration status)]>) s)
  | None => (Ok [], on_client_states (<[id_client_id id := client_status_new now id true false]>) s)
  end.

Definition apply_disconnected (id : Id) : CM bytes := λ s,
  match client_states s !! id_client_id id with
  | Some status =>
      if bool_decide (cs_id status = id) then
        (Ok [], on_client_states (<[id_client_id id :=
                  mkStatus (cs_id status) false (cs_handshaking status) (handshak_duration status)]>) s)
      else (Ok [], s)
  | None => (Ok [], s)
  end.

Definition apply_session_terminated (id : Id) : CM bytes := λ s,
  match client_states s !! id_client_id id with
  | Some status =>
      if bool_decide (cs_id status = id) then (Ok [], on_client_states (delete (id_client_id id)) s)
      else (Ok [], s)
  | None => (Ok [], s)
  end.

(** An operation of the wrapped router, whose error goes through [anyhow]. *)
Definition apply_router {A} (f : DefaultRouter → outcome TopicError A * DefaultRouter) : CM bytes := λ s,
  let '(o, r) := f (router_inner s) in
  (match o with
   | Ok _ => Ok []
   | Err e => Err (RAnyhow (error_of_topic e))
   | Panic => Panic
   end, on_router_inner (λ _, r) s).

Definition reply_client_node_id (client_id : ClientId) (s : ClusterRouter) : outcome RaftError bytes :=
  match to_stdvec (_client_node_id s client_id) with Some b => Ok b | None => Err ROther end.

Definition apply_message (now : Z) (message : Message) : CM bytes :=
  match message with
  | RaftMessage.HandshakeTryLock id => apply_handshake_try_lock now id
  | RaftMessage.Connected id => apply_connected now id
  | RaftMessage.Disconnected id => apply_disconnected id
  | RaftMessage.SessionTerminated id => apply_session_terminated id
  | RaftMessage.Add topic_filter id opts => apply_router (router_add topic_filter id opts)
  | RaftMessage.Remove topic_filter id => apply_router (router_remove topic_filter id)
  | RaftMessage.GetClientNodeId client_id => λ s, (reply_client_node_id client_id s, s)
  | RaftMessage.Ping => lift (encode_reply RaftReply.Ping)
  end.

(** [Store::apply] *)
Definition apply (now : Z) (message : bytes) : CM bytes :=
  message ← ok_or (from_bytes message) ROther;
  apply_message now message.

(** [Store::query] *)
Definition query (query : bytes) (s : ClusterRouter) : outcome RaftError bytes :=
  match from_bytes query with
  | Some (RaftMessage.GetClientNodeId client_id) => reply_client_node_id client_id s
  | Some _ => Ok []
  | None => Err ROther
  end.

(** ** Snapshots *)

(** [usize::to_le_bytes] and [from_le_bytes] *)
Fixpoint le_bytes (n : nat) (x : Z) : bytes :=
  match n with O => [] | S n => x mod 256 :: le_bytes n (x / 256) end.
Fixpoint from_le (bs : bytes) : Z :=
  match bs with [] => 0 | b :: bs => b + 256 * from_le bs end.

(** [size_of::<usize>()] *)
Definition usize_len : Z := 8.

Definition encode_with_length_prefix (data : bytes) : bytes := le_bytes 8 (len data) ++ data.

Definition compress (c : option Compression) (data : bytes) : option bytes :=
  match c with Some c => compress_with c data | None => Some data end.
Definition uncompress (c : option Compression) (data : bytes) : option bytes :=
  match c with Some c => uncompress_with c data | None => Some data end.

(** [Store::snapshot] *)
Definition snapshot (s : ClusterRouter) : outcome RaftError bytes :=
  let segments :=
    relations_bin ← (to_stdvec (iter (relations (router_inner s))) ≫= compress (compression s));
    client_states_bin ← (to_stdvec (iter (client_states s)) ≫= compress (compression s));
    topics_count_bin ← to_stdvec (topics_count (router_inner s));
    relations_count_bin ← to_stdvec (relations_count (router_inner s));
    Some (encode_with_length_prefix relations_bin ++ encode_with_length_prefix client_states_bin ++
          encode_with_length_prefix topics_count_bin ++ encode_with_length_prefix relations_count_bin) in
  match segments with Some b => Ok b | None => Err RForeign end.

(** [&snapshot[start..start + len]] *)
Definition slice (data : bytes) (start len : Z) : outcome RaftError bytes :=
  match add_usize checks start len with
  | Some e =>
      if (start <=? e) && (e <=? Prelude.len data)
      then Ok (take (Z.to_nat (e - start)) (drop (Z.to_nat start) data))
      else Panic
  | None => Panic
  end.

Definition read_len (data : bytes) (start : Z) : outcome RaftError Z :=
  outcome_map from_le (slice data start usize_len).

Definition decode_with_length_prefix {T} `{!Postcard T} (data : bytes) (start len : Z)
    (uncompress_enable : bool) (c : option Compression) : outcome RaftError T :=
  match slice data start len with
  | Ok segment =>
      match (if uncompress_enable then uncompress c segment else Some segment) ≫= from_bytes with
      | Some v => Ok v
      | None => Err RForeign
      end
  | Err e => Err e
  | Panic => Panic
  end.

(** [rayon::join], in which the panic of either part is passed on *)
Definition join {A B} (a : outcome RaftError A) (b : outcome RaftError B)
    : outcome RaftError (outcome RaftError A * outcome RaftError B) :=
  match a, b with Panic, _ => Panic | _, Panic => Panic | _, _ => Ok (a, b) end.

(** An addition of [usize], whose overflow is a panic in a checked build. *)
Definition plus {S} (a b : Z) : M S RaftError Z :=
  match add_usize checks a b with Some n => mret n | None => panic end.

(** The four segments of a snapshot. *)
Definition decode_segments {S} (c : option Compression) (data : bytes)
    : M S RaftError (RelationEntries * StatusEntries * Counter * Counter) :=
  relations_len ← lift (read_len data 0);
  let relations_start := usize_len in
  at_states ← plus relations_start relations_len;
  client_states_len ← lift (read_len data at_states);
  client_states_start ← plus (usize_len + relations_start) relations_len;
  at_topics ← plus client_states_start client_states_len;
  topics_count_len ← lift (read_len data at_topics);
  from_states ← plus usize_len client_states_start;
  topics_count_start ← plus from_states client_states_len;
  at_relations ← plus topics_count_start topics_count_len;
  relations_count_len ← lift (read_len data at_relations);
  from_topics ← plus usize_len topics_count_start;
  relations_count_start ← plus from_topics topics_count_len;
  '(relations, client_states) ←
    lift (join (decode_with_length_prefix data relations_start relations_len true c)
               (decode_with_length_prefix data client_states_start client_states_len true c));
  relations ← lift relations;
  client_states ← lift client_states;
  topics_count ← lift (decode_with_length_prefix data topics_count_start topics_count_len false None);
  relations_count ← lift (decode_with_length_prefix data relations_count_start relations_count_len false None);
  mret (relations, client_states, topics_count, relations_count).

Definition set_topics_count (c : Counter) (r : DefaultRouter) : DefaultRouter :=
  mkRouter (topics r) (Counter.set c (topics_count r)) (relations r) (relations_count r).
Definition set_relations_count (c : Counter) (r : DefaultRouter) : DefaultRouter :=
  mkRouter (topics r) (topics_count r) (relations r) (Counter.set c (relations_count r)).
Definition clear_relations (r : DefaultRouter) : DefaultRouter :=
  mkRouter (topics r) (topics_count r) ∅ (relations_count r).

(** The body of the loop over the relations. *)
Definition restore_relation (entry : TopicFilter * gmap ClientId (Id * SubscriptionOptions)) : CM unit :=
  let '(topic_filter, relation) := entry in
  topic ← lift (match topic_from_str topic_filter with
                | Ok t => Ok t | Err e => Err (RMsg e) | Panic => Panic end);
  modify (on_router_inner (λ r,
    mkRouter (Trie.insert (topics r) topic ()).2 (topics_count r)
      (<[topic_filter := relation]> (relations r)) (relations_count r))).

(** [Store::restore].  The tree keeps the filters that it has. *)
Definition restore (data : bytes) : CM unit :=
  c ← asks compression;
  '(relations, states, topics_count, relations_count) ← decode_segments c data;
  modify (on_router_inner (set_topics_count topics_count));;
  modify (on_router_inner clear_relations);;
  for_each restore_relation relations;;
  modify (on_router_inner (set_relations_count relations_count));;
  modify (on_client_states (λ _, foldl (λ m '(client_id, content), <[client_id := content]> m) ∅ states)).
End StateMachine.

Arguments apply : simpl never.

(** ** The format of a snapshot *)

Lemma len_le_bytes n x : len (le_bytes n x) = Z.of_nat n.
Proof. revert x. induction n as [|n IH]; intros x; [done|]. cbn [le_bytes]. rewrite len_cons, IH. lia. Qed.

Lemma from_le_bytes n x : 0 ≤ x < 256 ^ Z.of_nat n → from_le (le_bytes n x) = x.
Proof.
  revert x. induction n as [|n IH]; intros x Hx; [cbn in *; lia|]. cbn [le_bytes from_le].
  rewrite Nat2Z.inj_succ, Z.pow_succ_r in Hx by lia. rewrite IH.
  - pose proof (Z.div_mod x 256). lia.
  - split; [apply Z.div_pos; lia|apply Z.div_lt_upper_bound; lia].
Qed.

Lemma len_segment d : len (encode_with_length_prefix d) = 8 + len d.
Proof. unfold encode_with_length_prefix. by rewrite len_app, len_le_bytes. Qed.

Section Format.
Context (checks : bool).

Lemma plus_fits {S} a b (s : S) : a + b < 2 ^ 64 → plus checks a b s = (Ok (a + b), s).
Proof. intros Hab. unfold plus. by rewrite add_usize_fits. Qed.

Lemma read_slice_app pre mid post start n :
  len (pre ++ mid ++ post) < 2 ^ 64 → start = len pre → n = len mid →
  slice checks (pre ++ mid ++ post) start n = Ok mid.
Proof.
  intros Hl -> ->. rewrite !len_app in Hl. pose proof (len_nonneg pre). pose proof (len_nonneg mid).
  pose proof (len_nonneg post). unfold slice. rewrite add_usize_fits by lia.
  rewrite !len_app, !(proj2 (Z.leb_le _ _)) by lia. cbn [andb]. f_equal.
  rewrite Z.add_simpl_l, drop_len_app. apply take_len_app.
Qed.

(** A segment of the data, at an offset. *)
Definition at_segment (data : bytes) (off : Z) (d : bytes) : Prop :=
  ∃ pre post, data = pre ++ encode_with_length_prefix d ++ post ∧ off = len pre.

Lemma read_len_segment data off d :
  at_segment data off d → len data < 2 ^ 64 → read_len checks data off = Ok (len d).
Proof.
  unfold encode_with_length_prefix, read_len. intros (pre & post & -> & ->) Hl.
  unfold encode_with_length_prefix in *. rewrite <-app_assoc in *.
  rewrite read_slice_app; [|exact Hl|done|by rewrite len_le_bytes]. simpl. f_equal.
  rewrite !len_app in Hl. pose proof (len_nonneg pre). pose proof (len_nonneg post).
  pose proof (len_nonneg d). rewrite len_le_bytes in Hl. apply (from_le_bytes 8). simpl. lia.
Qed.

Context `{!ClusterCodec}.

Lemma decode_segment {T} `{!Postcard T} data off d start (on : bool) z (v : T) :
  at_segment data off d → len data < 2 ^ 64 → start = 8 + off →
  (if on then uncompress z d else Some d) ≫= from_bytes = Some v →
  decode_with_length_prefix checks data start (len d) on z = Ok v.
Proof.
  intros (pre & post & -> & ->) Hl -> Hv. unfold decode_with_length_prefix.
  unfold encode_with_length_prefix in *. rewrite <-app_assoc, (app_assoc pre) in *.
  rewrite read_slice_app; [by rewrite Hv|done| |done]. rewrite len_app, len_le_bytes. lia.
Qed.

(** The four segments as they are laid out. *)
Definition layout (a b c d : bytes) : bytes :=
  encode_with_length_prefix a ++ encode_with_length_prefix b ++
  encode_with_length_prefix c ++ encode_with_length_prefix d.

Lemma layout_segments a b c d :
  let data := layout a b c d in
  at_segment data 0 a ∧ at_segment data (8 + len a) b ∧ at_segment data (16 + len a + len b) c ∧
  at_segment data (24 + len a + len b + len c) d ∧ len data = 32 + len a + len b + len c + len d.
Proof.
  unfold at_segment, layout. set (A := encode_with_length_prefix a). set (B := encode_with_length_prefix b).
  set (C := encode_with_length_prefix c). set (D := encode_with_length_prefix d).
  assert (len A = 8 + len a) as HA by apply len_segment. assert (len B = 8 + len b) as HB by apply len_segment.
  assert (len C = 8 + len c) as HC by apply len_segment. assert (len D = 8 + len d) as HD by apply len_segment.
  split; [by exists [], (B ++ C ++ D)|]. split; [by exists A, (C ++ D)|].
  split; [exists (A ++ B), D|split; [exists (A ++ B ++ C), []|]]; rewrite ?len_app; try lia.
  - split; [by rewrite <-app_assoc|lia].
  - split; [by rewrite app_nil_r, <-!app_assoc|lia].
Qed.

Lemma decode_layout {S} z a b c d relations states tc rc (s : S) :
  len (layout a b c d) < 2 ^ 63 →
  uncompress z a ≫= from_bytes = Some relations → uncompress z b ≫= from_bytes = Some states →
  from_bytes c = Some tc → from_bytes d = Some rc →
  decode_segments checks z (layout a b c d) s = (Ok (relations, states, tc, rc), s).
Proof.
  intros Hl Ha Hb Hc Hd. destruct (layout_segments a b c d) as (S1 & S2 & S3 & S4 & Hlen).
  set (data := layout a b c d) in *.
  pose proof (len_nonneg a). pose proof (len_nonneg b). pose proof (len_nonneg c). pose proof (len_nonneg d).
  assert (∀ off d, at_segment data off d → ∀ start, start = off → read_len checks data start = Ok (len d)) as R.
  { intros off e Hat start ->. by apply read_len_segment; [|lia]. }
  unfold decode_segments, usize_len, lift. cbv zeta.
  erewrite bind_ok by (by erewrite (R _ _ S1)). erewrite bind_ok by (apply plus_fits; lia).
  erewrite bind_ok by (erewrite (R _ _ S2) by lia; done). do 2 erewrite bind_ok by (apply plus_fits; lia).
  erewrite bind_ok by (erewrite (R _ _ S3) by lia; done). do 3 erewrite bind_ok by (apply plus_fits; lia).
  erewrite bind_ok by (erewrite (R _ _ S4) by lia; done). do 2 erewrite bind_ok by (apply plus_fits; lia).
  rewrite (decode_segment data _ a _ true z relations S1), (decode_segment data _ b _ true z states S2) by (done || lia).
  cbn [join]. erewrite bind_ok by done.
  rewrite (decode_segment data _ c _ false None tc S3), (decode_segment data _ d _ false None rc S4) by (done || lia).
  done.
Qed.
End Format.

Section Restore.
Context `{!ClusterCodec} `{!HashOrder str} (checks : bool).

(** What the loop over the relations does to the router. *)
Record restored (entries : RelationEntries) (r r' : DefaultRouter) : Prop := mkRestored {
  rs_relations : relations r' = foldl (λ m '(tf, rel), <[tf := rel]> m) (relations r) entries;
  rs_topics_count : topics_count r' = topics_count r;
  rs_relations_count : relations_count r' = relations_count r;
  rs_stored : ∀ f, stored (topics r') f ≠ ∅ ↔
    stored (topics r) f ≠ ∅ ∨ topic_canon f ∧ topic_to_string f ∈ entries.*1;
  rs_pruned : pruned (topics r) → pruned (topics r');
  rs_size : NoDup entries.*1 →
    (∀ f, stored (topics r) f ≠ ∅ → topic_to_string f ∉ entries.*1) →
    Trie.values_size (topics r') = (Trie.values_size (topics r) + length entries)%nat;
}.

Lemma restored_cons tf rel entries t r r' :
  topic_from_str tf = Ok t →
  restored entries (mkRouter (Trie.insert (topics r) t ()).2 (topics_count r)
                      (<[tf := rel]> (relations r)) (relations_count r)) r' →
  restored ((tf, rel) :: entries) r r'.
Proof.
  intros Hpt [Hr Htc Hrc Hst Hp Hsz]. cbn [topics topics_count relations relations_count] in *.
  pose proof (proj1 (topic_from_str_spec tf t) Hpt) as [Hcan Hstr]. split; simpl; [done..| | |].
  - intros f. rewrite Hst, insert_stored. rewrite elem_of_cons. case_decide as Hf.
    + subst f. split; [|set_solver]. intros _. right. by split; [|left].
    + split; [naive_solver|]. intros [?|[Hc [Heq|?]]]; [auto| |auto].
      destruct Hf. by apply (topic_to_string_canon tf).
  - intros Hpr. by apply Hp, insert_pruned.
  - intros [Hni Hnd]%NoDup_cons Hold.
    assert (stored (topics r) t = ∅) as He.
    { destruct (decide (stored (topics r) t = ∅)) as [|Hne]; [done|]. destruct (Hold t Hne).
      rewrite Hstr. left. }
    rewrite Hsz; [|done|].
    + rewrite values_size_insert, insert_result, He. rewrite bool_decide_true by set_solver. lia.
    + intros f. rewrite insert_stored. case_decide as Hf; [subst f; by rewrite Hstr|].
      intros Hs Hin. destruct (Hold f Hs). by right.
Qed.

Lemma restore_relations entries s :
  Forall (λ e, is_Some (match topic_from_str e.1 with Ok t => Some t | _ => None end)) entries →
  ∃ r', for_each restore_relation entries s = (Ok tt, on_router_inner (λ _, r') s) ∧
        restored entries (router_inner s) r'.
Proof.
  intros Hall. revert s. induction Hall as [|[tf rel] entries [t Ht] _ IH]; intros s.
  { exists (router_inner s). split; [by destruct s|]. split; simpl; try done; try lia.
    intros f. rewrite elem_of_nil. naive_solver. }
  simpl in Ht. destruct (topic_from_str tf) as [t'| |] eqn:Hpt; [|done..]. injection Ht as ->.
  set (s1 := on_router_inner (λ r, mkRouter (Trie.insert (topics r) t ()).2 (topics_count r)
      (<[tf := rel]> (relations r)) (relations_count r)) s).
  destruct (IH s1) as (r' & Hrun & Hr'). exists r'. split.
  - cbn [for_each]. erewrite bind_ok; [exact Hrun|]. unfold restore_relation. rewrite Hpt. done.
  - by apply (restored_cons tf rel entries t).
Qed.

(** The segments that [snapshot] writes decode to what it listed. *)
Lemma snapshot_decodes `{!ClusterCodecOk} {S} s data (s0 : S) :
  snapshot s = Ok data → len data < 2 ^ 63 →
  decode_segments checks (compression s) data s0 =
  (Ok (iter (relations (router_inner s)), iter (client_states s), topics_count (router_inner s),
       relations_count (router_inner s)), s0).
Proof.
  unfold snapshot. intros Hs Hl.
  destruct (to_stdvec (iter (relations _))) as [rb|] eqn:Hr; [|done]. simpl in Hs.
  destruct (compress (compression s) rb) as [a|] eqn:Ha; [|done]. simpl in Hs.
  destruct (to_stdvec (iter (client_states _))) as [cb|] eqn:Hc; [|done]. simpl in Hs.
  destruct (compress (compression s) cb) as [b|] eqn:Hb; [|done]. simpl in Hs.
  destruct (to_stdvec (topics_count _)) as [c|] eqn:Htc; [|done]. simpl in Hs.
  destruct (to_stdvec (relations_count _)) as [d|] eqn:Hrc; [|done]. simpl in Hs.
  injection Hs as <-.
  assert (∀ x z, compress (compression s) x = Some z → uncompress (compression s) z = Some x) as Hz.
  { intros x z. unfold compress, uncompress. destruct (compression s); [apply uncompress_compress|congruence]. }
  apply decode_layout; [done|..].
  - rewrite (Hz _ _ Ha). by apply from_to.
  - rewrite (Hz _ _ Hb). by apply from_to.
  - by apply from_to.
  - by apply from_to.
Qed.

(** What a node has after it restored a snapshot of [s]. *)
Record same_state (s s' : ClusterRouter) : Prop := mkSame {
  ss_relations : relations (router_inner s') = relations (router_inner s);
  ss_states : client_states s' = client_states s;
  ss_topics_count : count (topics_count (router_inner s')) = count (topics_count (router_inner s)) ∧
                    max (topics_count (router_inner s')) = max (topics_count (router_inner s));
  ss_relations_count : count (relations_count (router_inner s')) = count (relations_count (router_inner s)) ∧
                       max (relations_count (router_inner s')) = max (relations_count (router_inner s));
}.

Context `{!ClusterCodecOk} `{!HashOrderOk str}.

(** Restoring on a node whose tree has only filters. *)
Lemma restore_snapshot s s' data :
  snapshot s = Ok data → len data < 2 ^ 63 → compression s' = compression s →
  router_routes (router_inner s) →
  ∃ s'', restore checks data s' = (Ok tt, s'') ∧ same_state s s'' ∧
    restored (iter (relations (router_inner s)))
      (clear_relations (set_topics_count (topics_count (router_inner s)) (router_inner s')))
      (mkRouter (topics (router_inner s'')) (topics_count (router_inner s''))
         (relations (router_inner s'')) (relations_count (router_inner s'))) ∧
    try_lock_timeout s'' = try_lock_timeout s' ∧ compression s'' = compression s'.
Proof.
  intros Hs Hl Hz Hr. unfold restore. unfold asks at 1. erewrite bind_ok by done. rewrite Hz.
  erewrite bind_ok by by apply snapshot_decodes. cbv beta iota.
  erewrite bind_ok by done. erewrite bind_ok by done.
  destruct (restore_relations (iter (relations (router_inner s)))
    (on_router_inner clear_relations
       (on_router_inner (set_topics_count (topics_count (router_inner s))) s'))) as (r' & Hrun & Hres).
  { apply Forall_forall. intros [tf rels] Hin%elem_of_iter.
    destruct (rt_filters _ Hr tf rels Hin) as [_ [t Ht]]. simpl. rewrite Ht. by eexists. }
  erewrite bind_ok by exact Hrun. erewrite bind_ok by done. cbn [router_inner on_router_inner client_states] in *.
  eexists. split; [done|]. cbn. split; [|split; [|done]].
  - destruct Hres as [Hrel Htc Hrc _ _ _]. cbn in *. split; cbn.
    + rewrite Hrel. apply foldl_insert_iter.
    + apply foldl_insert_iter.
    + by rewrite Htc.
    + done.
  - destruct Hres as [Hrel Htc Hrc Hst Hp Hsz]. cbn in *. by split; cbn.
Qed.

Lemma restored_routes s r r' :
  router_routes (router_inner s) → (∀ f, stored (topics r) f ≠ ∅ → topic_canon f) →
  restored (iter (relations (router_inner s))) r r' → relations r' = relations (router_inner s) →
  router_routes r'.
Proof.
  intros Hr Hc Hres Hrel.
  assert (∀ tf cid, subscribed r' tf cid = subscribed (router_inner s) tf cid) as Hsub.
  { intros. unfold subscribed. by rewrite Hrel. }
  split.
  - rewrite Hrel. apply (rt_filters _ Hr).
  - intros tf cid id opts. rewrite Hsub. apply (rt_clients _ Hr).
  - intros f Hcan [rels Hl]. rewrite Hrel in Hl. apply (rs_stored _ _ _ Hres). right. split; [done|].
    apply list_elem_of_fmap. exists (topic_to_string f, rels). split; [done|]. by apply elem_of_iter.
  - intros f [?|[? _]]%(rs_stored _ _ _ Hres); auto.
Qed.

(** C26: snapshots.  What [restore] reads from a snapshot is what [snapshot] wrote:
    the node has its relations, client states and counters afterwards, whatever
    it had before, and routes by them, because every filter is in its tree.  A
    node that has just started becomes consistent in every respect, with a tree
    of exactly the filters that have subscribers, if the other one was. *)
Theorem snapshot_roundtrip s s' data :
  snapshot s = Ok data → len data < 2 ^ 63 → compression s' = compression s →
  router_routes (router_inner s) → (∀ f, stored (topics (router_inner s')) f ≠ ∅ → topic_canon f) →
  ∃ s'', restore checks data s' = (Ok tt, s'') ∧ same_state s s'' ∧ router_routes (router_inner s'') ∧
    try_lock_timeout s'' = try_lock_timeout s' ∧
    (topics (router_inner s') = Trie.node_default → router_inv (router_inner s) →
     router_inv (router_inner s'')).
Proof.
  intros Hs Hl Hz Hr Hc.
  destruct (restore_snapshot s s' data Hs Hl Hz Hr) as (s'' & Hrun & Hsame & Hres & Ht & _).
  exists s''. split; [done|]. split; [done|].
  assert (router_routes (router_inner s'')) as Hroutes.
  { eapply restored_routes in Hres; [|done|exact Hc|apply Hsame]. destruct Hres as [H1 H2 H3 H4]. by split. }
  split; [done|]. split; [done|]. intros Hnew [Hf Hcl Htree _ Hsz Htc Hrc].
  destruct Hsame as [Hrel _ [Htc' _] [Hrc' _]]. destruct Hres as [_ _ _ Hst Hp Hsize]. cbn in *.
  rewrite Hnew in *. split; rewrite ?Hrel.
  - done.
  - intros tf cid id opts. apply (rt_clients _ Hroutes).
  - intros f. rewrite Hst, stored_default. split.
    + intros [|[Hcan ([tf rels] & Heq & Hin%elem_of_iter)%list_elem_of_fmap]]; [done|]. split; [done|].
      exists rels. simpl in Heq. by rewrite Heq.
    + intros [Hcan [rels Hin]]. right. split; [done|]. apply list_elem_of_fmap.
      exists (topic_to_string f, rels). split; [done|]. by apply elem_of_iter.
  - apply Hp, pruned_default.
  - rewrite Hsize; [|apply NoDup_iter_keys|intros f Hs'; by rewrite stored_default in Hs'].
    rewrite length_iter. done.
  - by rewrite Htc'.
  - by rewrite Hrc'.
Qed.
End Restore.

(** ** Who owns a client *)

Section Ownership.
Context `{!ClusterCodec} (checks : bool).

(** Entries applied one after another, each at its time. *)
Fixpoint apply_all (entries : list (Z * bytes)) (s : ClusterRouter)
    : list (outcome RaftError bytes) * ClusterRouter :=
  match entries with
  | [] => ([], s)
  | (now, data) :: entries =>
      let '(reply, s) := apply checks now data s in
      let '(replies, s) := apply_all entries s in (reply :: replies, s)
  end.

(** The reply with which [try_lock] of [shared.rs] goes on. *)
Definition granted (reply : outcome RaftError bytes) (prev_id : option Id) : Prop :=
  ∃ b, reply = Ok b ∧ from_bytes b = Some (RaftReply.HandshakeTryLock prev_id).

(** The message does not change the state of the client [c], whose state is [st]. *)
Definition harmless (timeout now : Z) (c : ClientId) (st : ClientStatus) (m : Message) : Prop :=
  match m with
  | RaftMessage.HandshakeTryLock id => id_client_id id = c → handshaking checks now timeout st = Some true
  | RaftMessage.Connected id => id_client_id id = c → cs_id st ≠ id ∧ id_create_time id < id_create_time (cs_id st)
  | RaftMessage.Disconnected id => id_client_id id = c → cs_id st = id → cs_online st = false
  | RaftMessage.SessionTerminated id => id_client_id id = c → cs_id st ≠ id
  | _ => True
  end.

Lemma apply_timeout now data s : try_lock_timeout (apply checks now data s).2 = try_lock_timeout s.
Proof.
  unfold apply, ok_or, mbind, M_bind. destruct (from_bytes data) as [m|]; [|done]. destruct m; simpl.
  - unfold apply_handshake_try_lock. destruct (client_states s !! _); [|done].
    by destruct (handshaking _ _ _ _) as [[]|].
  - unfold apply_connected. destruct (client_states s !! _); [by case_match|done].
  - unfold apply_disconnected. destruct (client_states s !! _); [by case_match|done].
  - unfold apply_session_terminated. destruct (client_states s !! _); [by case_match|done].
  - unfold apply_router. by destruct (router_add _ _ _ _).
  - unfold apply_router. by destruct (router_remove _ _ _).
  - done.
  - done.
Qed.

Lemma apply_harmless now data s c st :
  client_states s !! c = Some st →
  (∀ m, from_bytes data = Some m → harmless (try_lock_timeout s) now c st m) →
  client_states (apply checks now data s).2 !! c = Some st.
Proof.
  intros Hc Hm. unfold apply, ok_or, mbind, M_bind. destruct (from_bytes data) as [m|]; [|done].
  specialize (Hm m eq_refl). destruct m as [id|id|id|id|tf id opts|tf id|cid|]; simpl in *.
  - unfold apply_handshake_try_lock. destruct (decide (id_client_id id = c)) as [Heq|Hne].
    + rewrite Heq, Hc. by rewrite Hm by done.
    + destruct (client_states s !! id_client_id id); [case_match; [case_match|]|]; simpl;
        by rewrite ?lookup_insert_ne.
  - unfold apply_connected. destruct (decide (id_client_id id = c)) as [Heq|Hne].
    + rewrite Heq, Hc. destruct (Hm Heq) as [Hid Ht].
      by rewrite bool_decide_false, (proj2 (Z.ltb_lt _ _) Ht) by done.
    + destruct (client_states s !! id_client_id id); [case_match|]; simpl; by rewrite ?lookup_insert_ne.
  - unfold apply_disconnected. destruct (decide (id_client_id id = c)) as [Heq|Hne].
    + rewrite Heq, Hc. case_bool_decide as Hid; [|done]. simpl. rewrite lookup_insert_eq.
      specialize (Hm Heq Hid). by destruct st; simpl in *; subst.
    + destruct (client_states s !! id_client_id id); [case_match|]; simpl; by rewrite ?lookup_insert_ne.
  - unfold apply_session_terminated. destruct (decide (id_client_id id = c)) as [Heq|Hne].
    + rewrite Heq, Hc. by rewrite bool_decide_false by auto.
    + destruct (client_states s !! id_client_id id); [case_match|]; simpl; by rewrite ?lookup_delete_ne.
  - unfold apply_router. by destruct (router_add _ _ _ _).
  - unfold apply_router. by destruct (router_remove _ _ _).
  - done.
  - done.
Qed.

Lemma apply_all_harmless entries s c st :
  client_states s !! c = Some st →
  Forall (λ e, ∀ m, from_bytes e.2 = Some m → harmless (try_lock_timeout s) e.1 c st m) entries →
  client_states (apply_all entries s).2 !! c = Some st ∧
  ∀ i e, entries !! i = Some e → ∃ si, client_states si !! c = Some st ∧
    try_lock_timeout si = try_lock_timeout s ∧
    (apply_all entries s).1 !! i = Some (apply checks e.1 e.2 si).1.
Proof.
  revert s. induction entries as [|[now data] entries IH]; intros s Hc Hall; [done|].
  apply Forall_cons in Hall as [Hm Hall]. cbn [apply_all].
  pose proof (apply_harmless now data s c st Hc Hm) as Hc'. pose proof (apply_timeout now data s) as Ht.
  destruct (apply checks now data s) as [reply s1] eqn:Ha. simpl in *.
  destruct (IH s1 Hc') as [H1 H2]; [by rewrite Ht|].
  destruct (apply_all entries s1) as [replies s2] eqn:Hall'. simpl in *. split; [done|].
  intros [|i] e He; simpl in *.
  - injection He as <-. exists s. split; [done|]. split; [done|]. simpl. by rewrite Ha.
  - destruct (H2 i e He) as (si & ? & ? & ?). exists si. split; [done|]. split; [congruence|done].
Qed.

Context `{!ClusterCodecOk}.

Lemma not_granted_error what prev : ¬ granted (encode_reply (RaftReply.Error what)) prev.
Proof.
  unfold encode_reply. intros (b & Hb & Hr). destruct (to_stdvec _) as [b'|] eqn:He; [|done].
  injection Hb as ->. apply from_to in He. congruence.
Qed.

(** The messages after which a client that holds its lock loses it: its own
    session connects or ends, or a session that is not older connects. *)
Definition releases (id : Id) (m : Message) : bool :=
  match m with
  | RaftMessage.Connected id' =>
      bool_decide (id_client_id id' = id_client_id id) &&
      (bool_decide (id' = id) || (id_create_time id <=? id_create_time id'))
  | RaftMessage.SessionTerminated id' => bool_decide (id' = id)
  | _ => false
  end.

(** C27: the lock of a client is exclusive.  Once the session [id] has been granted
    it, on whichever grounds, then whatever is applied before its deadline,
    messages of other sessions of the client among it, no other session is
    granted the lock, and the client stays with [id], unless [id] itself
    connects or ends or a session that is not older connects.  The reply names
    the session that had the client before. *)
Theorem lock_exclusive s s1 data reply now prev id deadline entries :
  from_bytes data = Some (RaftMessage.HandshakeTryLock id) →
  apply checks now data s = (reply, s1) → granted reply prev →
  add_i64 checks now (as_millis_i64 (try_lock_timeout s)) = Some deadline →
  Forall (λ e, e.1 < deadline ∧ ∀ m, from_bytes e.2 = Some m → releases id m = false) entries →
  prev = cluster_id s (id_client_id id) ∧
  cluster_status (apply_all entries s1).2 (id_client_id id) = Some (mkStatus id false true now) ∧
  (∀ i e id' r prev', entries !! i = Some e → from_bytes e.2 = Some (RaftMessage.HandshakeTryLock id') →
     id_client_id id' = id_client_id id → (apply_all entries s1).1 !! i = Some r → ¬ granted r prev').
Proof.
  intros Hd Ha Hg Hdl Hall.
  assert (client_states s1 !! id_client_id id = Some (mkStatus id false true now) ∧
          prev = cluster_id s (id_client_id id)) as [Hc Hprev].
  { clear Hall Hdl. unfold apply, ok_or, mbind, M_bind in Ha. rewrite Hd in Ha. simpl in Ha.
    unfold apply_handshake_try_lock, cluster_id in *.
    assert (∀ p, reply = encode_reply (RaftReply.HandshakeTryLock p) → prev = p) as Hp.
    { intros p ->. destruct Hg as (b & Hb & Hr). unfold encode_reply in Hb.
      destruct (to_stdvec _) as [b'|] eqn:He; [|done]. injection Hb as ->. apply from_to in He. congruence. }
    destruct (client_states s !! id_client_id id) as [st|] eqn:Hst.
    - destruct (handshaking _ _ _ _) as [[]|]; injection Ha as <- <-; simpl.
      + by apply not_granted_error in Hg.
      + rewrite lookup_insert_eq. split; [done|]. by apply Hp.
      + by destruct Hg as (? & ? & _).
    - injection Ha as <- <-. simpl. rewrite lookup_insert_eq. split; [done|]. by apply Hp. }
  split; [done|].
  assert (try_lock_timeout s1 = try_lock_timeout s) as Ht by (pose proof (apply_timeout now data s) as Ht; by rewrite Ha in Ht).
  assert (∀ t, t < deadline → handshaking checks t (try_lock_timeout s) (mkStatus id false true now) = Some true) as Hh.
  { intros t Hlt. unfold handshaking. simpl. rewrite Hdl. simpl. by rewrite (proj2 (Z.ltb_lt _ _) Hlt). }
  destruct (apply_all_harmless entries s1 (id_client_id id) (mkStatus id false true now) Hc) as [H1 H2].
  { eapply Forall_impl; [exact Hall|]. intros [t m0] [Hlt Hrel] m Hm. simpl in *. rewrite Ht.
    specialize (Hrel m Hm). destruct m as [id'|id'|id'|id'| | | |]; simpl in *; try done.
    - intros _. by apply Hh.
    - intros Heq. rewrite bool_decide_true in Hrel by done. simpl in Hrel.
      apply orb_false_iff in Hrel as [Hne%bool_decide_eq_false Hlt'%Z.leb_gt]. split; [congruence|done].
    - intros _ ->. by rewrite bool_decide_true in Hrel. }
  split; [exact H1|]. intros i e id' r prev' Hi Hm Hid Hr.
  destruct (H2 i e Hi) as (si & Hsi & Hti & Hri). rewrite Hri in Hr. injection Hr as <-.
  unfold apply, ok_or, mbind, M_bind. rewrite Hm. simpl. unfold apply_handshake_try_lock.
  rewrite Hid, Hsi, Hti, Ht, Hh; [apply not_granted_error|].
  by apply (Forall_lookup_1 _ _ _ _ Hall) in Hi as [? _].
Qed.
End Ownership.

(** ** A concrete codec

    Values are encoded by their place in a table. *)

#[export] Instance Message_eq_dec : EqDecision Message.
Proof. solve_decision. Defined.
#[export] Instance MessageReply_eq_dec : EqDecision MessageReply.
Proof. solve_decision. Defined.
#[export] Instance ClientStatus_eq_dec : EqDecision ClientStatus.
Proof. solve_decision. Defined.
#[export] Instance StatsMergeMode_eq_dec : EqDecision StatsMergeMode.
Proof. solve_decision. Defined.
#[export] Instance Counter_eq_dec : EqDecision Counter.
Proof. solve_decision. Defined.

Definition table {A} `{EqDecision A} (l : list A) : Postcard A := {|
  to_stdvec a := (λ p, [Z.of_nat p.1]) <$> list_find (a =.) l;
  from_bytes b := match b with [i] => l !! Z.to_nat i | _ => None end;
|}.

Lemma table_ok {A} `{EqDecision A} (l : list A) : @PostcardOk A (table l).
Proof.
  intros a b. simpl. destruct (list_find _ l) as [[i a']|] eqn:Hf; [|done]. intros [= <-].
  apply list_find_Some in Hf as (Hi & <- & _). by rewrite Nat2Z.id.
Qed.

Definition identity_compressor : Compressor := {|
  compress_with _ data := Some data;
  uncompress_with _ data := Some data;
|}.

Lemma identity_compressor_ok : @CompressorOk identity_compressor.
Proof. intros c data z [= <-]. reflexivity. Qed.

Definition table_codec (ms : list Message) (rs : list MessageReply) (ns : list (option NodeId))
    (es : list RelationEntries) (ss : list StatusEntries) (cs : list Counter) : ClusterCodec := {|
  cc_message := table ms; cc_reply := table rs; cc_node := table ns; cc_relations := table es;
  cc_states := table ss; cc_counter := table cs; cc_compressor := identity_compressor;
|}.

Lemma table_codec_ok ms rs ns es ss cs : @ClusterCodecOk (table_codec ms rs ns es ss cs).
Proof. constructor; (apply table_ok || apply identity_compressor_ok). Qed.

(** *** Three sessions of one client *)

Definition session_of (node_id create_time : Z) : Id := mkId node_id 0 None None (lit "c") None create_time.

Definition lock_messages : list Message :=
  [RaftMessage.HandshakeTryLock (session_of 1 10); RaftMessage.HandshakeTryLock (session_of 2 20);
   RaftMessage.Connected (session_of 3 5); RaftMessage.Connected (session_of 2 20)].
Definition lock_replies : list MessageReply :=
  [RaftReply.Error try_lock_failed; RaftReply.Error id_not_the_same; RaftReply.HandshakeTryLock None;
   RaftReply.HandshakeTryLock (Some (session_of 1 10))].

#[local] Instance lock_codec : ClusterCodec := table_codec lock_messages lock_replies [] [] [] [].
#[local] Instance lock_codec_ok : ClusterCodecOk := table_codec_ok _ _ _ _ _ _.

(** Locks last ten seconds. *)
Definition lock_router : ClusterRouter := cluster_router_new 10000000000 None.

Lemma lock_exclusive_witness :
  let entries := [(1500, [1]); (2000, [2])] in
  ¬ granted (apply true 1500 [1] (apply true 1000 [0] lock_router).2).1 None ∧
  cluster_status (apply_all true entries (apply true 1000 [0] lock_router).2).2 (lit "c") =
    Some (mkStatus (session_of 1 10) false true 1000).
Proof.
  intros entries. set (s1 := (apply true 1000 [0] lock_router).2).
  destruct (lock_exclusive true lock_router s1 [0] (apply true 1000 [0] lock_router).1 1000 None
    (session_of 1 10) 11000 entries) as (_ & Hst & Hng).
  - reflexivity.
  - unfold s1. by destruct (apply true 1000 [0] lock_router).
  - exists [2]. split; vm_compute; reflexivity.
  - vm_compute. reflexivity.
  - unfold entries. repeat apply Forall_cons_2; [| |apply Forall_nil_2]; (split; [simpl; lia|]);
      intros m Hm; vm_compute in Hm; injection Hm as <-; vm_compute; reflexivity.
  - split; [|exact Hst].
    apply (Hng 0%nat (1500, [1]) (session_of 2 20)); [reflexivity..|].
    vm_compute. reflexivity.
Defined.

(** Whether a lock has expired is decided by the clock of each node.  Two nodes
    that apply the same entries, the second of them at times that differ by
    less than two milliseconds, can end with different owners of the client and
    different replies. *)
Example clocks_diverge :
  let node_a := apply_all true [(1000, [0]); (10999, [1])] lock_router in
  let node_b := apply_all true [(1000, [0]); (11000, [1])] lock_router in
  cluster_id node_a.2 (lit "c") = Some (session_of 1 10) ∧
  cluster_id node_b.2 (lit "c") = Some (session_of 2 20).
Proof. split; vm_compute; reflexivity. Qed.

(** Afterwards the second session connects: on the node that thinks it never had
    the lock as well, since it is the newer one. *)
Example clocks_converge :
  let node_a := apply_all true [(1000, [0]); (10999, [1]); (11500, [3])] lock_router in
  cluster_status node_a.2 (lit "c") = Some (mkStatus (session_of 2 20) true false 1000).
Proof. vm_compute. reflexivity. Qed.

(** *** A snapshot *)

#[local] Existing Instances map_order map_order_ok.

(** A node with one subscription, which another one restores that had another. *)
Definition source_router : ClusterRouter :=
  on_client_states (<[lit "c1" := mkStatus (sample_client "c1") true false 7]>)
    (on_router_inner (λ _, (run_ops router_exec [RAdd (lit "a/+") (sample_client "c1") sample_opts] router_new).2)
       (cluster_router_new 10000000000 (Some Lz4))).
Definition stale_router : ClusterRouter :=
  on_router_inner (λ _, (run_ops router_exec [RAdd (lit "x") (sample_client "c2") sample_opts] router_new).2)
    (cluster_router_new 10000000000 (Some Lz4)).

#[local] Instance snapshot_codec : ClusterCodec :=
  table_codec [] [] [] [iter (relations (router_inner source_router))]
    [iter (client_states source_router)] [topics_count (router_inner source_router)].
#[local] Instance snapshot_codec_ok : ClusterCodecOk := table_codec_ok _ _ _ _ _ _.

Lemma run_ops_inv ops : router_inv (run_ops router_exec ops router_new).2.
Proof.
  pose proof (run_ops_refines ops router_new ∅ subs_rep_new) as Hrun.
  destruct (run_ops router_exec ops router_new), (run_ops subs_exec ops ∅). by destruct Hrun as [_ [? _ _]].
Qed.

Lemma snapshot_roundtrip_witness :
  ∃ data s'', snapshot source_router = Ok data ∧ restore true data stale_router = (Ok tt, s'') ∧
    relations (router_inner s'') = relations (router_inner source_router) ∧
    subscribed (router_inner s'') (lit "a/+") (lit "c1") = Some (sample_client "c1", sample_opts).
Proof.
  destruct (snapshot source_router) as [data| |] eqn:Hs; [|exfalso; vm_compute in Hs; discriminate..].
  destruct (snapshot_roundtrip true source_router stale_router data Hs) as (s'' & Hr & [Hrel _ _ _] & _).
  - vm_compute in Hs. injection Hs as <-. vm_compute. reflexivity.
  - reflexivity.
  - apply router_inv_routes, run_ops_inv.
  - apply (rt_canon _ (router_inv_routes _ (run_ops_inv [RAdd (lit "x") (sample_client "c2") sample_opts]))).
  - exists data, s''. split; [reflexivity|]. split; [exact Hr|]. split; [exact Hrel|].
    unfold subscribed. rewrite Hrel. vm_compute. reflexivity.
Defined.

(** The tree is not cleared: the node still has the filter [x], for which nobody
    has subscribed any more, and nothing takes it out. *)
Example stale_filter :
  ∃ data, snapshot source_router = Ok data ∧
    let r := router_inner (restore true data stale_router).2 in
    relations r !! lit "x" = None ∧ _has_matches (lit "x") r = Ok true ∧ topics_tree r = 2%nat ∧
    count (topics_count r) = 1.
Proof. eexists. split; [vm_compute; reflexivity|]. repeat split; vm_compute; reflexivity. Qed.

(** Lengths are not checked against the data: a snapshot that is cut short is a
    panic and not an error. *)
Example truncated_snapshot :
  (restore true [1; 0; 0] stale_router).1 = Panic ∧
  (restore true (le_bytes 8 100 ++ [0]) stale_router).1 = Panic.
Proof. split; vm_compute; reflexivity. Qed.
