(* ===== verification/Cluster.v ===== *)
(** * Replicas of the router

    The nodes of a cluster apply one log of entries to their copies of the
    replicated router ([ClusterRouter]), as [ferromq-raft/src/raft_node.rs] does:
    a node applies the next committed entry ([handle_normal]), makes a snapshot
    that it labels with the last entry it had applied ([generate_snapshot_sync],
    [generate_snapshot_async]), or restores a snapshot and goes on behind its
    label ([on_ready]).

    The consensus itself, by which the nodes have the same log, is [tikv_raft],
    which is not part of the broker: the log here is what it promises.  A
    snapshot that is made in the background may be taken after more entries have
    been applied than its label says, and a node that restores it applies those
    again. *)

From stdpp Require Import base list numbers option gmap strings relations.
From Stdlib Require Import ZArith Lia.
From S2P Require Import Prelude CodecTypes Topic Trie Counter Hash BrokerTypes Router Routing ConnInfo.
From S2P Require Import Postcard ClusterRouter.

#[local] Open Scope Z_scope.

(** ** Subscriptions of a log *)

Section Log.
Context `{!ClusterCodec}.

(** What an entry does to the subscriptions, by the contract of the router. *)
Definition entry_op (data : bytes) : option rop :=
  match from_bytes data with
  | Some (RaftMessage.Add tf id opts) => Some (RAdd tf id opts)
  | Some (RaftMessage.Remove tf id) => Some (RRemove tf id)
  | _ => None
  end.

Definition subs_step (m : subs) (data : bytes) : subs :=
  match entry_op data with Some o => (subs_exec o m).2 | None => m end.

Definition subs_run (m : subs) (entries : list bytes) : subs := foldl subs_step m entries.
Definition subs_at (entries : list bytes) : subs := subs_run ∅ entries.

(** *** Entries applied twice

    What the entries do to one key: they fix its value, or they take it away
    from some sessions. *)

Definition key_exec (k : TopicFilter * ClientId) (x : option (Id * SubscriptionOptions)) (data : bytes)
    : option (Id * SubscriptionOptions) :=
  match entry_op data with
  | Some (RAdd tf id opts) =>
      if decide (k = (tf, id_client_id id) ∧ is_ok (topic_from_str tf) = true) then Some (id, opts) else x
  | Some (RRemove tf id) =>
      if decide (k = (tf, id_client_id id))
      then match x with Some (s_id, _) => if decide (s_id = id) then None else x | None => None end
      else x
  | None => x
  end.

Lemma subs_step_lookup m data k : subs_step m data !! k = key_exec k (m !! k) data.
Proof.
  unfold subs_step, key_exec. destruct (entry_op data) as [[tf id opts|tf id]|]; [..|done]; simpl.
  - destruct (topic_from_str tf) as [t|e|]; simpl.
    + destruct (decide (k = (tf, id_client_id id))) as [->|Hne].
      * by rewrite lookup_insert_eq, decide_True.
      * rewrite lookup_insert_ne by congruence. by rewrite decide_False by naive_solver.
    + by rewrite decide_False by naive_solver.
    + by rewrite decide_False by naive_solver.
  - destruct (decide (k = (tf, id_client_id id))) as [->|Hne].
    + destruct (m !! (tf, id_client_id id)) as [[s_id o]|] eqn:Hm; [|done].
      destruct (decide (s_id = id)); simpl; [by rewrite lookup_delete_eq|done].
    + destruct (m !! (tf, id_client_id id)) as [[s_id o]|]; [|done].
      destruct (decide (s_id = id)); simpl; [|done]. by rewrite lookup_delete_ne by congruence.
Qed.

Lemma subs_run_lookup entries m k : subs_run m entries !! k = foldl (key_exec k) (m !! k) entries.
Proof.
  revert m. induction entries as [|d entries IH]; intros m; [done|]. simpl.
  unfold subs_run in *. simpl. by rewrite IH, subs_step_lookup.
Qed.

(** The value that stays of sessions that satisfy [P]. *)
Definition kept (P : Id → bool) (x : option (Id * SubscriptionOptions)) : option (Id * SubscriptionOptions) :=
  match x with Some (id, o) => if P id then Some (id, o) else None | None => None end.

Lemma key_exec_shape k d :
  (∃ c, ∀ x, key_exec k x d = c) ∨ (∃ P, ∀ x, key_exec k x d = kept P x).
Proof.
  assert (∃ P, ∀ x, x = kept P x) as Hid by (exists (λ _, true); by intros [[]|]).
  unfold key_exec. destruct (entry_op d) as [[tf id opts|tf id]|]; [..|by right].
  - case_decide; [left; by eexists|by right].
  - right. case_decide; [|done]. exists (λ i, negb (bool_decide (i = id))). intros [[s_id o]|]; [|done].
    simpl. case_decide; [by rewrite bool_decide_true|by rewrite bool_decide_false].
Qed.

Lemma kept_kept P Q x : kept P (kept Q x) = kept (λ i, Q i && P i) x.
Proof. destruct x as [[i o]|]; [|done]. simpl. destruct (Q i); simpl; [done|done]. Qed.

Lemma key_run_shape k entries :
  (∃ c, ∀ x, foldl (key_exec k) x entries = c) ∨ (∃ P, ∀ x, foldl (key_exec k) x entries = kept P x).
Proof.
  induction entries as [|d entries IH]; simpl.
  { right. exists (λ _, true). by intros [[]|]. }
  destruct IH as [[c Hc]|[P HP]]; [left; by exists c|].
  destruct (key_exec_shape k d) as [[c Hc]|[Q HQ]].
  - left. exists (kept P c). intros x. by rewrite HP, Hc.
  - right. eexists. intros x. by rewrite HP, HQ, kept_kept.
Qed.

(** Going back.  If what [r] does to [m] is right, it is still right when the
    entries [g] before it are applied to [m] first. *)
Lemma subs_run_back m a g r :
  subs_run m r = subs_at (a ++ g ++ r) → subs_run m (g ++ r) = subs_at (a ++ g ++ r).
Proof.
  intros Hr. apply map_eq. intros k. apply (f_equal (λ n, n !! k)) in Hr. unfold subs_at in *.
  rewrite !subs_run_lookup in *. rewrite !foldl_app in *.
  set (s := foldl (key_exec k) (∅ !! k) a) in *. set (v := m !! k) in *.
  destruct (key_run_shape k r) as [[c Hc]|[P HP]]; [by rewrite !Hc|]. rewrite !HP in *.
  destruct (key_run_shape k g) as [[c Hc]|[Q HQ]]; [by rewrite !Hc|]. rewrite !HQ in *.
  destruct v as [[i o]|]; simpl in *.
  - destruct s as [[i' o']|]; simpl in *.
    + destruct (Q i') eqn:HQi; simpl in *; destruct (P i) eqn:HPi; simpl in *.
      * destruct (P i'); simplify_eq. by rewrite HQi; simpl; rewrite HPi.
      * rewrite <-Hr. destruct (Q i); simpl; [by rewrite HPi|done].
      * done.
      * destruct (Q i); simpl; [by rewrite HPi|done].
    + destruct (P i) eqn:HPi; [done|]. destruct (Q i); simpl; [by rewrite HPi|done].
  - exact Hr.
Qed.
End Log.

(** ** Replicas *)

Section Replicas.
Context `{!ClusterCodec} `{!HashOrder str} (checks : bool) (z : option Compression).

(** A node is the number of entries it has applied, and its router; a snapshot
    is its label and its data. *)
Record Cluster : Type := mkCluster {
  log : list bytes;
  replicas : list (nat * ClusterRouter);
  snapshots : list (nat * bytes);
}.

Definition cluster_new : Cluster := mkCluster [] [] [].

Inductive Action : Type :=
| Join (try_lock_timeout : Z)
| Commit (data : bytes)
| ApplyNext (node : nat) (now : Z)
| TakeSnapshot (node label : nat)
| Install (node snap : nat).

(** A node whose [apply] or [restore] panics, or whose [restore] fails, stops;
    an entry whose [apply] returns an error has been applied. *)
Definition cluster_exec (a : Action) (c : Cluster) : option Cluster :=
  match a with
  | Join t => Some (mkCluster (log c) (replicas c ++ [(0%nat, cluster_router_new t z)]) (snapshots c))
  | Commit data => Some (mkCluster (log c ++ [data]) (replicas c) (snapshots c))
  | ApplyNext i now =>
      '(k, s) ← replicas c !! i;
      data ← log c !! k;
      match apply checks now data s with
      | (Panic, _) => None
      | (_, s') => Some (mkCluster (log c) (<[i := (S k, s')]> (replicas c)) (snapshots c))
      end
  | TakeSnapshot i label =>
      '(k, s) ← replicas c !! i;
      match snapshot s with
      | Ok data =>
          if bool_decide (label ≤ k)%nat && (len data <? 2 ^ 63)
          then Some (mkCluster (log c) (replicas c) (snapshots c ++ [(label, data)])) else None
      | _ => None
      end
  | Install i n =>
      '(k, s) ← replicas c !! i;
      '(label, data) ← snapshots c !! n;
      match restore checks data s with
      | (Ok _, s') => Some (mkCluster (log c) (<[i := (label, s')]> (replicas c)) (snapshots c))
      | _ => None
      end
  end.

Definition cluster_step (c c' : Cluster) : Prop := ∃ a, cluster_exec a c = Some c'.

Fixpoint cluster_run (actions : list Action) (c : Cluster) : option Cluster :=
  match actions with [] => Some c | a :: actions => cluster_exec a c ≫= cluster_run actions end.

Lemma cluster_run_steps actions c c' : cluster_run actions c = Some c' → rtc cluster_step c c'.
Proof.
  revert c. induction actions as [|a actions IH]; intros c; simpl; [intros [= <-]; constructor|].
  destruct (cluster_exec a c) as [c1|] eqn:Ha; [|done]. intros Hr. eapply rtc_l; [by exists a|by apply IH].
Qed.

(** *** The router of a node *)

(** It routes by the subscriptions [m]. *)
Definition represents (r : DefaultRouter) (m : subs) : Prop :=
  router_routes r ∧ ∀ tf cid, subscribed r tf cid = m !! (tf, cid).

Lemma exec_represents o r m :
  represents r m → represents (router_exec o r).2 (subs_exec o m).2.
Proof.
  intros [Hr Hl]. destruct o as [tf id opts|tf id]; simpl.
  - unfold router_add. destruct (topic_from_str tf) as [t| |] eqn:Ht; simpl; [|done..].
    split; [by apply router_add_routes|]. intros tf' cid. rewrite subscribed_add.
    change (subscribed (add_tree t r)) with (subscribed r). case_decide as Hd.
    + destruct Hd as [-> ->]. by rewrite lookup_insert_eq.
    + rewrite lookup_insert_ne by naive_solver. apply Hl.
  - pose proof (router_remove_routes tf id r Hr) as Hspec.
    destruct (router_remove tf id r) as [a r']. destruct Hspec as (_ & Hr' & Hs). split; [done|].
    intros tf' cid. rewrite Hs. unfold removable. rewrite !Hl.
    destruct (m !! (tf, id_client_id id)) as [[s_id o]|] eqn:Hm.
    + destruct (decide (s_id = id)) as [->|Hne]; simpl.
      * rewrite bool_decide_true by done.
        destruct (decide (true = true ∧ tf' = tf ∧ cid = id_client_id id)) as [(_ & -> & ->)|Hd].
        -- by rewrite lookup_delete_eq.
        -- by rewrite lookup_delete_ne by naive_solver.
      * rewrite bool_decide_false by done. by rewrite decide_False by naive_solver.
    + by rewrite decide_False by naive_solver.
Qed.

Lemma apply_represents now data s m :
  represents (router_inner s) m →
  represents (router_inner (apply checks now data s).2) (subs_step m data) ∧
  compression (apply checks now data s).2 = compression s.
Proof.
  intros Hr. unfold apply, subs_step, entry_op, ok_or, mbind, M_bind.
  destruct (from_bytes data) as [msg|]; [|done]. destruct msg as [id|id|id|id|tf id opts|tf id|c|]; simpl.
  - unfold apply_handshake_try_lock. destruct (client_states s !! _); [|done].
    by destruct (handshaking _ _ _ _) as [[]|].
  - unfold apply_connected. destruct (client_states s !! _); [by case_match|done].
  - unfold apply_disconnected. destruct (client_states s !! _); [by case_match|done].
  - unfold apply_session_terminated. destruct (client_states s !! _); [by case_match|done].
  - pose proof (exec_represents (RAdd tf id opts) _ _ Hr) as Hx. simpl in Hx. unfold apply_router.
    by destruct (router_add tf id opts (router_inner s)).
  - pose proof (exec_represents (RRemove tf id) _ _ Hr) as Hx. simpl in Hx. unfold apply_router.
    by destruct (router_remove tf id (router_inner s)).
  - done.
  - done.
Qed.

Lemma new_represents t : represents (router_inner (cluster_router_new t z)) ∅.
Proof.
  split; [apply router_inv_routes, router_new_inv|]. intros. by rewrite lookup_empty.
Qed.

(** *** How far a node is *)

(** After [k] entries a node has [m]; it may hold effects of entries up to [h],
    and is right when it has applied those again. *)
Definition absorbs (entries : list bytes) (k h : nat) (m : subs) : Prop :=
  (k ≤ h ≤ length entries)%nat ∧ subs_run m (drop k (take h entries)) = subs_at (take h entries).

Lemma absorbs_new entries : absorbs entries 0 0 ∅.
Proof. split; [lia|done]. Qed.

Lemma absorbs_commit entries data k h m : absorbs entries k h m → absorbs (entries ++ [data]) k h m.
Proof.
  intros [Hk Hm]. split; [rewrite length_app; simpl; lia|]. by rewrite take_app_le by lia.
Qed.

Lemma absorbs_apply entries data k h m :
  absorbs entries k h m → entries !! k = Some data →
  absorbs entries (S k) (h `max` S k) (subs_step m data).
Proof.
  intros [Hk Hm] Hd. pose proof (lookup_lt_Some _ _ _ Hd) as Hlt. split; [lia|].
  destruct (decide (k = h)) as [->|Hne].
  - rewrite drop_ge in Hm by (rewrite length_take; lia). simpl in Hm.
    rewrite Nat.max_r by lia. rewrite (take_S_r _ _ _ Hd), drop_ge by (rewrite length_app, length_take; simpl; lia).
    unfold subs_at, subs_run in *. rewrite foldl_app, <-Hm. done.
  - rewrite Nat.max_l by lia. rewrite <-Hm. rewrite (drop_S (take h entries) data k); [done|].
    by rewrite lookup_take_lt by lia.
Qed.

Lemma absorbs_earlier entries k0 k h m : absorbs entries k h m → (k0 ≤ k)%nat → absorbs entries k0 h m.
Proof.
  intros [Hk Hm] Hk0. split; [lia|].
  assert (take h entries = take k0 entries ++ drop k0 (take k entries) ++ drop k (take h entries)) as E.
  { rewrite <-(take_drop k (take h entries)) at 1. rewrite take_take, Nat.min_l by lia.
    rewrite <-(take_drop k0 (take k entries)) at 1. rewrite take_take, Nat.min_l by lia. by rewrite <-app_assoc. }
  assert (drop k0 (take h entries) = drop k0 (take k entries) ++ drop k (take h entries)) as ->.
  { rewrite E at 1. rewrite drop_app_length'; [done|]. rewrite length_take. lia. }
  rewrite E at 2. apply subs_run_back. by rewrite <-E.
Qed.

Lemma absorbs_all entries h m : absorbs entries (length entries) h m → m = subs_at entries.
Proof.
  intros [Hk Hm]. assert (h = length entries) as -> by lia.
  rewrite firstn_all, drop_ge in Hm by lia. exact Hm.
Qed.

(** ** The invariant *)

Definition holds (entries : list bytes) (k : nat) (s : ClusterRouter) : Prop :=
  compression s = z ∧ ∃ h m, absorbs entries k h m ∧ represents (router_inner s) m.

Record cluster_ok (c : Cluster) : Prop := mkClusterOk {
  ok_replicas : ∀ i k s, replicas c !! i = Some (k, s) → holds (log c) k s;
  ok_snapshots : ∀ n label data, snapshots c !! n = Some (label, data) →
    len data < 2 ^ 63 ∧ ∃ s, snapshot s = Ok data ∧ holds (log c) label s;
}.

Context `{!ClusterCodecOk} `{!HashOrderOk str}.

Lemma holds_commit entries data k s : holds entries k s → holds (entries ++ [data]) k s.
Proof. intros (Hz & h & m & Ha & Hr). split; [done|]. exists h, m. by split; [apply absorbs_commit|]. Qed.

Lemma holds_restore entries k label s s0 s' data :
  holds entries k s → holds entries label s0 → snapshot s0 = Ok data → len data < 2 ^ 63 →
  restore checks data s = (Ok tt, s') → holds entries label s'.
Proof.
  intros (Hz & _ & _ & _ & [Hr _]) (Hz0 & h & m & Ha & [Hr0 Hl0]) Hs Hl Hres.
  destruct (restore_snapshot checks s0 s data Hs Hl ltac:(congruence) Hr0)
    as (s'' & Hres' & Hsame & Hrest & _ & Hz').
  rewrite Hres in Hres'. injection Hres' as <-. split; [congruence|]. exists h, m. split; [done|].
  assert (router_routes (router_inner s')) as Hroutes.
  { eapply restored_routes in Hrest; [|done|apply (rt_canon _ Hr)|apply Hsame].
    destruct Hrest as [H1 H2 H3 H4]. by split. }
  split; [done|]. intros tf cid. rewrite <-Hl0. unfold subscribed. by rewrite (ss_relations _ _ Hsame).
Qed.

Lemma cluster_step_ok c c' : cluster_ok c → cluster_step c c' → cluster_ok c'.
Proof.
  intros [Hr Hs] [a Ha]. destruct a as [t|data|i now|i label|i n]; simpl in Ha.
  - injection Ha as <-. split; simpl; [|done]. intros i k s [?|[_ Hn]]%lookup_app_Some; [by eapply Hr|].
    destruct (i - length (replicas c))%nat; [|done]. injection Hn as <- <-. split; [done|].
    exists 0%nat, ∅. split; [apply absorbs_new|apply new_represents].
  - injection Ha as <-. split; simpl.
    + intros i k s Hi. by eapply holds_commit, Hr.
    + intros n label d (Hl & s & Hd & Hh)%Hs. split; [done|]. exists s. by split; [|apply holds_commit].
  - destruct (replicas c !! i) as [[k s]|] eqn:Hi; [|done]. simpl in Ha.
    destruct (log c !! k) as [data|] eqn:Hd; [|done]. simpl in Ha.
    destruct (Hr i k s Hi) as (Hz & h & m & Hab & Hrep).
    destruct (apply_represents now data s m Hrep) as [Hrep' Hz'].
    destruct (apply checks now data s) as [reply s']. simpl in Hrep', Hz'.
    assert (c' = mkCluster (log c) (<[i := (S k, s')]> (replicas c)) (snapshots c)) as ->
      by (destruct reply; congruence).
    split; simpl; [|done]. intros j k' s1 [(<- & [= <- <-] & _)|[_ Hj]]%list_lookup_insert_Some; [|by eapply Hr].
    split; [congruence|]. exists (h `max` S k)%nat, (subs_step m data). split; [|done]. by apply absorbs_apply.
  - destruct (replicas c !! i) as [[k s]|] eqn:Hi; [|done]. simpl in Ha.
    destruct (snapshot s) as [data| |] eqn:Hd; [|done..].
    destruct (bool_decide (label ≤ k)%nat) eqn:Hk; [|done]. apply bool_decide_eq_true in Hk.
    destruct (len data <? 2 ^ 63) eqn:Hl; [|done]. simpl in Ha. injection Ha as <-. split; simpl; [done|].
    intros n label' data' [?|[_ Hn]]%lookup_app_Some; [by eapply Hs|].
    destruct (n - length (snapshots c))%nat; [|done]. injection Hn as <- <-. split; [by apply Z.ltb_lt|].
    exists s. split; [done|]. destruct (Hr i k s Hi) as (Hz & h & m & Hab & Hrep). split; [done|].
    exists h, m. split; [|done]. by apply absorbs_earlier with k.
  - destruct (replicas c !! i) as [[k s]|] eqn:Hi; [|done]. simpl in Ha.
    destruct (snapshots c !! n) as [[label data]|] eqn:Hn; [|done]. simpl in Ha.
    destruct (restore checks data s) as [[[]| |] s'] eqn:Hres; [|done..]. injection Ha as <-.
    split; simpl; [|done]. intros j k' s1 [(<- & [= <- <-] & _)|[_ Hj]]%list_lookup_insert_Some; [|by eapply Hr].
    destruct (Hs n label data Hn) as (Hl & s0 & Hd & Hh). by eapply holds_restore; [by eapply Hr|..].
Qed.

Lemma reachable_ok c : rtc cluster_step cluster_new c → cluster_ok c.
Proof.
  intros Hsteps. assert (cluster_ok cluster_new) as Hnew by done.
  induction Hsteps as [|c1 c2 c3 Hstep _ IH]; [done|]. apply IH. by eapply cluster_step_ok.
Qed.

Lemma caught_up c i s :
  rtc cluster_step cluster_new c → replicas c !! i = Some (length (log c), s) →
  represents (router_inner s) (subs_at (log c)).
Proof.
  intros Hc%reachable_ok Hi. destruct (ok_replicas c Hc i _ s Hi) as (_ & h & m & Hab & Hr).
  by rewrite <-(absorbs_all _ _ _ Hab).
Qed.
End Replicas.

(** ** Claims *)

Section Claims.
Context `{!ClusterCodec} `{!HashOrder str} `{!ClusterCodecOk} `{!HashOrderOk str}.
Context (checks : bool) (z : option Compression).

Lemma represents_relations r r' m : represents r m → represents r' m → relations r = relations r'.
Proof.
  assert (∀ r r', represents r m → represents r' m → ∀ tf rels, relations r !! tf = Some rels →
    relations r' !! tf = Some rels) as Hone.
  { intros r1 r2 [Hr1 H1] [Hr2 H2] tf rels Hl.
    assert (∀ cid, subscribed r2 tf cid = subscribed r1 tf cid) as Heq by (intros; by rewrite H1, H2).
    unfold subscribed in Heq. rewrite Hl in Heq. simpl in Heq.
    destruct (rt_filters _ Hr1 tf rels Hl) as [Hne _]. apply map_choose in Hne as (cid & o & Hcid).
    destruct (relations r2 !! tf) as [rels2|]; simpl in Heq; [|specialize (Heq cid); congruence].
    f_equal. apply map_eq. exact Heq. }
  intros Hr Hr'. apply map_eq. intros tf. destruct (relations r !! tf) as [rels|] eqn:Hl.
  - symmetry. by eapply (Hone r r').
  - destruct (relations r' !! tf) as [rels|] eqn:Hl'; [|done].
    apply (Hone r' r Hr' Hr) in Hl'. congruence.
Qed.

(** C10: replication.  In every run of a cluster, with nodes that join at any time,
    apply at their own pace and by their own clocks, make snapshots that may be
    later than their labels say, and restore snapshots of each other, a node that
    has applied the whole log has exactly the subscriptions of that log by the
    contract of the router, and its tree has every filter that it needs; so any
    two such nodes have the same relations. *)
Theorem replicas_agree c i s :
  rtc (cluster_step checks z) cluster_new c → replicas c !! i = Some (length (log c), s) →
  router_routes (router_inner s) ∧
  (∀ tf cid, subscribed (router_inner s) tf cid = subs_at (log c) !! (tf, cid)) ∧
  (∀ j s', replicas c !! j = Some (length (log c), s') →
     relations (router_inner s') = relations (router_inner s)).
Proof.
  intros Hc Hi. pose proof (caught_up _ _ c i s Hc Hi) as Hr. split; [apply Hr|]. split; [apply Hr|].
  intros j s' Hj. eapply represents_relations; [by eapply caught_up|exact Hr].
Qed.

Context {St : Type} `{!SharedSubscription St} `{!SharedSubscriptionOk St}.

(** A subscription of the log that wants a message, and the members of a group
    that do. *)
Definition log_wants (entries : list bytes) (publisher : Id) (topic_name : TopicName) (tf : TopicFilter)
    (cid : ClientId) (id : Id) (opts : BrokerTypes.SubscriptionOptions) : Prop :=
  subs_at entries !! (tf, cid) = Some (id, opts) ∧ matches_topic topic_name tf ∧ skips publisher id opts = false.

Definition log_member (entries : list bytes) (publisher : Id) (topic_name : TopicName) (tf : TopicFilter)
    (g : SharedGroup) (cid : ClientId) : Prop :=
  ∃ id opts, log_wants entries publisher topic_name tf cid id opts ∧ shared_group opts = Some g.

(** Those that are to be served by a choice of members. *)
Definition log_picked (entries : list bytes) (publisher : Id) (topic_name : TopicName)
    (choice : TopicFilter → SharedGroup → option ClientId) (tf : TopicFilter)
    (cid : ClientId) (id : Id) (opts : BrokerTypes.SubscriptionOptions) : Prop :=
  log_wants entries publisher topic_name tf cid id opts ∧
  from_option (λ g, choice tf g = Some cid) True (shared_group opts).

(** C28: messages in a cluster.  On every node that has applied the log a message
    to a topic without wildcards finds the subscribers that the log gives it, each
    at its own node: of every filter and shared group of the log with members that
    want the message one is chosen, every subscription outside groups and every
    chosen one is served at the node of its client, no other subscription is, and
    none is served twice. *)
Theorem cluster_routing c i s is_online publisher topic_name topic (st : St) :
  rtc (cluster_step checks z) cluster_new c → replicas c !! i = Some (length (log c), s) →
  topic_from_str topic_name = Ok topic → Forall (λ l, is_wildcard l = false) topic →
  ∃ out st' choice, _matches is_online publisher topic_name (router_inner s) st = (Ok out, st') ∧
    (∀ tf g, match choice tf g with
             | Some cid => log_member (log c) publisher topic_name tf g cid
             | None => ∀ cid, ¬ log_member (log c) publisher topic_name tf g cid
             end) ∧
    (∀ tf cid id opts, log_picked (log c) publisher topic_name choice tf cid id opts →
       ∃ x, x ∈ default [] (out !! id_node_id id) ∧ serves cid tf opts x) ∧
    (∀ n x, x ∈ default [] (out !! n) →
       ∃ id, log_picked (log c) publisher topic_name choice (rel_tf x) (rel_cid x) id (rel_opts x) ∧
             id_node_id id = n) ∧
    (∀ n, NoDup ((λ x, (rel_tf x, rel_cid x)) <$> default [] (out !! n)) ∧
          NoDup (rel_cid <$> filter (λ x, is_v3 (rel_opts x) = false) (default [] (out !! n)))).
Proof.
  intros Hc Hi Ht Hwild. destruct (caught_up _ _ c i s Hc Hi) as [Hr Hl].
  destruct (routing_exact is_online publisher topic_name (router_inner s) st topic Hr Ht Hwild)
    as (out & st' & choice & Hm & Hch & Hro).
  assert (∀ tf cid id opts, log_wants (log c) publisher topic_name tf cid id opts ↔
    wanted publisher topic_name (router_inner s) tf cid id opts) as Hw.
  { intros tf cid id opts. unfold log_wants, wanted. by rewrite Hl. }
  assert (∀ tf cid id opts, log_picked (log c) publisher topic_name choice tf cid id opts ↔
    picked publisher topic_name (router_inner s) choice tf cid id opts) as Hp.
  { intros tf cid id opts. unfold log_picked, picked. by rewrite Hw. }
  exists out, st', choice. split; [exact Hm|]. split; [|split; [|split]].
  - intros tf g. specialize (Hch tf g). unfold log_member, member in *. destruct (choice tf g); setoid_rewrite Hw; exact Hch.
  - intros tf cid id opts Hpi%Hp. by apply (ro_served _ _ _ _ _ _ (Hro (id_node_id id)) tf cid id opts).
  - intros n x Hx. destruct (ro_sound _ _ _ _ _ _ (Hro n) x Hx) as (id & Hpi & Hn & _). exists id. by rewrite Hp.
  - intros n. split; [apply (ro_filters _ _ _ _ _ _ (Hro n))|apply (ro_v5 _ _ _ _ _ _ (Hro n))].
Qed.
End Claims.

(** ** A concrete run *)

#[local] Existing Instances map_order map_order_ok.

#[local] Instance first_of_group : SharedSubscription unit := λ _ _ _ ncs s,
  (match ncs with [] => None | _ => Some (0%nat, true) end, s).

#[local] Instance first_of_group_ok : SharedSubscriptionOk unit.
Proof. intros g p t ncs s Hne. exists 0%nat, true, s. destruct ncs; [done|]. split; [done|]. simpl. lia. Qed.

Definition sub_c1 : rop := RAdd (lit "a/+") (sample_client "c1") sample_opts.
Definition sub_c2 : rop := RAdd (lit "x") (sample_client "c2") sample_opts.

Definition run_messages : list Message :=
  [RaftMessage.Add (lit "a/+") (sample_client "c1") sample_opts;
   RaftMessage.Add (lit "x") (sample_client "c2") sample_opts;
   RaftMessage.Remove (lit "x") (sample_client "c2")].

Definition run_router : DefaultRouter := (run_ops router_exec [sub_c1; sub_c2] router_new).2.

#[local] Instance run_codec : ClusterCodec :=
  table_codec run_messages [] [] [iter (relations run_router)] [[]] [topics_count run_router].
#[local] Instance run_codec_ok : ClusterCodecOk := table_codec_ok _ _ _ _ _ _.

(** Two subscriptions and the removal of the second.  The second node restores a
    snapshot of the first that is labelled 1 and has two entries, so that it
    applies the second entry again, and then the third. *)
Definition run_actions : list Action :=
  [Join 0; Commit [0]; Commit [1]; ApplyNext 0 5; ApplyNext 0 6; TakeSnapshot 0 1; Join 0; Install 1 0;
   ApplyNext 1 7; Commit [2]; ApplyNext 1 8; ApplyNext 0 9].

Lemma replicas_agree_witness :
  ∃ c s s', replicas c !! 0%nat = Some (3%nat, s) ∧ replicas c !! 1%nat = Some (3%nat, s') ∧
    relations (router_inner s') = relations (router_inner s) ∧
    subscribed (router_inner s') (lit "a/+") (lit "c1") = Some (sample_client "c1", sample_opts) ∧
    subscribed (router_inner s') (lit "x") (lit "c2") = None.
Proof.
  destruct (cluster_run true (Some Zstd) run_actions cluster_new) as [c|] eqn:Hrun;
    [|exfalso; vm_compute in Hrun; discriminate].
  assert (length (log c) = 3%nat) as Hlen by (vm_compute in Hrun; injection Hrun as <-; reflexivity).
  assert (∃ s, replicas c !! 0%nat = Some (length (log c), s)) as [s Hs].
  { vm_compute in Hrun. injection Hrun as <-. eexists. reflexivity. }
  assert (∃ s, replicas c !! 1%nat = Some (length (log c), s)) as [s' Hs'].
  { vm_compute in Hrun. injection Hrun as <-. eexists. reflexivity. }
  pose proof (cluster_run_steps true (Some Zstd) _ _ _ Hrun) as Hsteps.
  destruct (replicas_agree true (Some Zstd) c 0%nat s Hsteps Hs) as (_ & _ & Hrel).
  exists c, s, s'. rewrite <-Hlen. split; [exact Hs|]. split; [exact Hs'|]. split; [exact (Hrel 1%nat s' Hs')|].
  destruct (replicas_agree true (Some Zstd) c 1%nat s' Hsteps Hs') as (_ & Hsub & _). rewrite !Hsub.
  vm_compute in Hrun. injection Hrun as <-. split; vm_compute; reflexivity.
Defined.

Lemma cluster_routing_witness :
  ∃ c s out st', replicas c !! 1%nat = Some (3%nat, s) ∧
    _matches (λ _ _, true) (sample_client "p") (lit "a/b") (router_inner s) () = (Ok out, st') ∧
    ∃ x, x ∈ default [] (out !! 1) ∧ serves (lit "c1") (lit "a/+") sample_opts x.
Proof.
  destruct (cluster_run true (Some Zstd) run_actions cluster_new) as [c|] eqn:Hrun;
    [|exfalso; vm_compute in Hrun; discriminate].
  assert (length (log c) = 3%nat) as Hlen by (vm_compute in Hrun; injection Hrun as <-; reflexivity).
  assert (∃ s, replicas c !! 1%nat = Some (length (log c), s)) as [s Hs].
  { vm_compute in Hrun. injection Hrun as <-. eexists. reflexivity. }
  destruct (cluster_routing true (Some Zstd) c 1%nat s (λ _ _, true) (sample_client "p") (lit "a/b")
    [Normal (lit "a"); Normal (lit "b")] () (cluster_run_steps _ _ _ _ _ Hrun) Hs eq_refl ltac:(repeat constructor))
    as (out & st' & choice & Hm & _ & Hserve & _).
  exists c, s, out, st'. rewrite <-Hlen. split; [exact Hs|]. split; [exact Hm|].
  apply (Hserve (lit "a/+") (lit "c1") (sample_client "c1") sample_opts). split; [|exact I]. split; [|split].
  - vm_compute in Hrun. injection Hrun as <-. vm_compute. reflexivity.
  - exists [Normal (lit "a"); SingleWildcard]. split; vm_compute; reflexivity.
  - vm_compute. reflexivity.
Defined.

(** Between its label and the last entry it contains, a node is ahead: the second
    node has a subscription here that it has not come to yet. *)
Example ahead_of_label :
  ∃ c s, cluster_run true (Some Zstd) [Join 0; Commit [0]; Commit [1]; ApplyNext 0 5; ApplyNext 0 6;
           TakeSnapshot 0 1; Join 0; Install 1 0] cluster_new = Some c ∧
    replicas c !! 1%nat = Some (1%nat, s) ∧
    subscribed (router_inner s) (lit "x") (lit "c2") = Some (sample_client "c2", sample_opts) ∧
    subs_at (take 1 (log c)) !! (lit "x", lit "c2") = None.
Proof.
  eexists _, _. split; [vm_compute; reflexivity|]. split; [vm_compute; reflexivity|].
  split; vm_compute; reflexivity.
Qed.

(** [Router::remove] answers before its entry is committed and retries it in a
    task of its own.  When the session subscribes again meanwhile, its second
    subscription can be committed first, and the removal then takes it away:
    the session is acknowledged and has no subscription. *)
Example late_removal :
  subs_at [[1]; [1]; [2]] !! (lit "x", lit "c2") = None ∧
  subs_at [[1]; [2]; [1]] !! (lit "x", lit "c2") = Some (sample_client "c2", sample_opts).
Proof. split; vm_compute; reflexivity. Qed.
