(* ===== verification/RaftNode.v ===== *)
(** * Proposals on a Raft node

    The parts of [ferromq-raft/src] that are the broker's own: the batching of
    proposals ([Merger] of [message.rs]), the replies to their proposers and the
    application of committed entries ([raft_node.rs]), the recorder of slow
    operations ([timeout_recorder.rs]), the breaker on the connection to a peer
    ([Peer]), and the view of the cluster's health ([Status::available]).

    The consensus ([tikv_raft]) is not in the repository: what a node hands to it
    is the list [proposed], and an entry that it commits is the argument of
    [handle_normal].  The receiver of a reply may be gone; sending to it has no
    effect then, so that the check [is_canceled] is not modelled. *)

From stdpp Require Import base list numbers option gmap strings.
From Stdlib Require Import ZArith Lia.
From S2P Require Import Prelude Topic CodecTypes Counter Postcard Hash BrokerTypes ConnInfo ClusterRouter.

#[local] Open Scope Z_scope.

(** ** Data *)

(** [RaftResponse], of which [Status] carries nothing here. *)
Inductive RaftResponse : Type :=
| WrongLeader (leader_id : Z) (leader_addr : option str)
| JoinSuccess (assigned_id : Z) (peer_addrs : gmap Z str)
| RequestId (leader_id : Z)
| RError (what : str)
| RBusy
| Response (data : bytes)
| ROk.

(** A reply channel, by its number, with the time at which the proposal came. *)
Abbreviation Chan := (nat * Z)%type.

Inductive ReplyChan : Type := COne (chan : Chan) | CMore (chans : list Chan).
Inductive Proposals : Type := POne (data : bytes) | PMore (datas : list bytes).

(** *** The merger *)

Record Merger : Type := mkMerger {
  proposals : list bytes;
  chans : list Chan;
  start_collection_time : Z;
  proposal_batch_size : Z;
  proposal_batch_timeout : Z;
}.

(** [Merger::new]; the time-out is a [Duration]. *)
Definition merger_new (batch_size batch_timeout : Z) : Merger :=
  mkMerger [] [] 0 batch_size (as_millis_i64 batch_timeout).

Definition merger_add (proposal : bytes) (chan : Chan) (m : Merger) : Merger :=
  mkMerger (proposals m ++ [proposal]) (chans m ++ [chan]) (start_collection_time m)
    (proposal_batch_size m) (proposal_batch_timeout m).

Definition merger_len (m : Merger) : Z := len (proposals m).

(** [Vec::pop] *)
Definition vec_pop {A} (v : list A) : option (A * list A) :=
  match reverse v with [] => None | x :: v => Some (x, reverse v) end.

Section Take.
Context (checks : bool).

(** [Merger::timeout]; the clock is in milliseconds. *)
Definition merger_timeout (now : Z) (m : Merger) : option bool :=
  (λ t, t <? now) <$> add_i64 checks (start_collection_time m) (proposal_batch_timeout m).

(** [Merger::take] *)
Definition merger_take (now : Z) (m : Merger) : outcome Error (option (Proposals * ReplyChan)) * Merger :=
  let max := proposal_batch_size m in
  let len := if max <? merger_len m then max else merger_len m in
  let started ps cs :=
    mkMerger ps cs now (proposal_batch_size m) (proposal_batch_timeout m) in
  if 0 <? len then
    match (if len =? max then Some true else merger_timeout now m) with
    | Some true =>
        if len =? 1 then
          match vec_pop (proposals m), vec_pop (chans m) with
          | Some (proposal, ps), Some (chan, cs) => (Ok (Some (POne proposal, COne chan)), started ps cs)
          | _, _ => (Panic, m)
          end
        else
          let n := Z.to_nat len in
          (Ok (Some (PMore (reverse (take n (proposals m))), CMore (reverse (take n (chans m))))),
           started (drop n (proposals m)) (drop n (chans m)))
    | Some false => (Ok None, m)
    | None => (Panic, m)
    end
  else (Ok None, m).
End Take.

(** ** The recorder of slow operations *)

Record Bucket : Type := mkBucket { b_timestamp : Z; b_count : Z }.

(** Times are in nanoseconds. *)
Record TimeoutRecorder : Type := mkRecorder {
  buckets : list Bucket;
  window_size : Z;
  bucket_count : Z;
  bucket_duration : Z;
  rec_max : Z;
}.

(** [TimeoutRecorder::new]; a division by zero is a panic. *)
Definition recorder_new (now window_size bucket_count : Z) : outcome Error TimeoutRecorder :=
  if as_u32 bucket_count =? 0 then Panic
  else Ok (mkRecorder (replicate (Z.to_nat bucket_count) (mkBucket now 0)) window_size bucket_count
             (window_size / as_u32 bucket_count) 0).

(** [bucket_index].  The time is asked again for [now.elapsed()]. *)
Definition bucket_index (now later : Z) (r : TimeoutRecorder) : option nat :=
  let elapsed := (later - now) / 1000000 in
  let bucket_millis := bucket_duration r / 1000000 in
  if (bucket_millis =? 0) || (bucket_count r =? 0) then None
  else Some (Z.to_nat ((elapsed / bucket_millis) mod bucket_count r)).

Definition recorder_incr (now later : Z) (r : TimeoutRecorder) : outcome Error TimeoutRecorder :=
  match i ← bucket_index now later r; b ← buckets r !! i; Some (i, b) with
  | Some (i, b) =>
      let dur := now - b_timestamp b in
      let b := if (window_size r <=? dur) || (bucket_duration r <=? dur) then mkBucket now 0 else b in
      Ok (mkRecorder (<[i := mkBucket (b_timestamp b) (b_count b + 1)]> (buckets r)) (window_size r)
            (bucket_count r) (bucket_duration r) (rec_max r + 1))
  | None => Panic
  end.

(** [get] *)
Definition recorder_get (now : Z) (r : TimeoutRecorder) : Z :=
  foldr (λ b n, (if now - b_timestamp b <=? window_size r then b_count b else 0) + n) 0 (buckets r).

Definition recorder_recent_get (now later : Z) (r : TimeoutRecorder) : outcome Error Z :=
  match i ← bucket_index now later r; buckets r !! i with
  | Some b => Ok (if now - b_timestamp b <=? bucket_duration r then b_count b else 0)
  | None => Panic
  end.

(** ** The node *)

(** An entry of the log: its context is the number of the proposal. *)
Record Entry : Type := mkEntry { e_context : bytes; e_data : bytes }.

(** What a node of Raft calls, [Store::apply] within five seconds ([None] is the
    time-out), with the time it took; and the text of an error. *)
Class Store (S : Type) := {
  apply_within : bytes → S → option (outcome RaftError bytes) * S * Z;
  show_raft_error : RaftError → str;
  elapsed_text : str;
}.

Record RaftNode (S : Type) : Type := mkRaftNode {
  store : S;
  merger : Merger;
  uncommitteds : gmap Z ReplyChan;
  seq : Z;
  leader_id : Z;
  node_id : Z;
  leader_addr : option str;
  recorder : TimeoutRecorder;
  sending_raft_messages : Z;
  max_inflight_msgs : Z;
  proposed : list Entry;
  replies : list (nat * RaftResponse);
}.
Arguments mkRaftNode {S} _ _ _ _ _ _ _ _ _ _ _ _.
Arguments store {S} _.
Arguments merger {S} _.
Arguments uncommitteds {S} _.
Arguments seq {S} _.
Arguments leader_id {S} _.
Arguments node_id {S} _.
Arguments leader_addr {S} _.
Arguments recorder {S} _.
Arguments sending_raft_messages {S} _.
Arguments max_inflight_msgs {S} _.
Arguments proposed {S} _.
Arguments replies {S} _.

Section Node.
Context {S : Type} `{!Store S} `{!Postcard Z} `{!Postcard Proposals} (checks : bool).

Abbreviation Node := (RaftNode S).
Abbreviation NM := (M Node Error).

Definition on_store f (n : Node) : Node :=
  mkRaftNode (f (store n)) (merger n) (uncommitteds n) (seq n) (leader_id n) (node_id n) (leader_addr n)
    (recorder n) (sending_raft_messages n) (max_inflight_msgs n) (proposed n) (replies n).
Definition on_merger f (n : Node) : Node :=
  mkRaftNode (store n) (f (merger n)) (uncommitteds n) (seq n) (leader_id n) (node_id n) (leader_addr n)
    (recorder n) (sending_raft_messages n) (max_inflight_msgs n) (proposed n) (replies n).
Definition on_uncommitteds f (n : Node) : Node :=
  mkRaftNode (store n) (merger n) (f (uncommitteds n)) (seq n) (leader_id n) (node_id n) (leader_addr n)
    (recorder n) (sending_raft_messages n) (max_inflight_msgs n) (proposed n) (replies n).
Definition on_seq f (n : Node) : Node :=
  mkRaftNode (store n) (merger n) (uncommitteds n) (f (seq n)) (leader_id n) (node_id n) (leader_addr n)
    (recorder n) (sending_raft_messages n) (max_inflight_msgs n) (proposed n) (replies n).
Definition on_recorder f (n : Node) : Node :=
  mkRaftNode (store n) (merger n) (uncommitteds n) (seq n) (leader_id n) (node_id n) (leader_addr n)
    (f (recorder n)) (sending_raft_messages n) (max_inflight_msgs n) (proposed n) (replies n).
Definition on_proposed f (n : Node) : Node :=
  mkRaftNode (store n) (merger n) (uncommitteds n) (seq n) (leader_id n) (node_id n) (leader_addr n)
    (recorder n) (sending_raft_messages n) (max_inflight_msgs n) (f (proposed n)) (replies n).
Definition on_replies f (n : Node) : Node :=
  mkRaftNode (store n) (merger n) (uncommitteds n) (seq n) (leader_id n) (node_id n) (leader_addr n)
    (recorder n) (sending_raft_messages n) (max_inflight_msgs n) (proposed n) (f (replies n)).

Definition is_leader (n : Node) : bool := leader_id n =? node_id n.

(** [chan.send(response)] *)
Definition send_reply (chan : nat) (r : RaftResponse) : NM unit :=
  modify (on_replies (λ rs, rs ++ [(chan, r)])).

(** *** Proposing *)

(** [RawNode::propose], which accepts the entry or refuses it. *)
Definition propose (accepts : bool) (context data : bytes) : NM unit :=
  if accepts then modify (on_proposed (λ es, es ++ [mkEntry context data]))
  else err (EOther (lit "raft error")).

(** [_take_and_propose] and [take_and_propose] *)
Definition _take_and_propose (now : Z) (accepts : bool) : NM unit :=
  taken ← zoom merger (λ m, on_merger (λ _, m)) (merger_take checks now);
  match taken with
  | Some (data, reply_chans) =>
      seq ← asks seq;
      modify (on_seq (λ s, (s + 1) mod 2 ^ 64));;
      modify (on_uncommitteds (<[seq := reply_chans]>));;
      seq ← ok_or (to_stdvec seq) (EOther (lit "postcard"));
      data ← ok_or (to_stdvec data) (EOther (lit "postcard"));
      propose accepts seq data
  | None => mret tt
  end.

Definition take_and_propose (now : Z) (accepts : bool) : NM unit :=
  _ ← attempt (_take_and_propose now accepts); mret tt.

(** [is_busy] *)
Definition is_busy (now later : Z) : NM bool :=
  sending ← asks (λ n, max_inflight_msgs n <? sending_raft_messages n);
  if sending : bool then mret true
  else r ← asks recorder; recent ← lift (recorder_recent_get now later r); mret (0 <? recent).

(** [Message::Propose] in [run] *)
Definition on_propose (now later : Z) (accepts : bool) (proposal : bytes) (chan : nat) : NM unit :=
  leader ← asks is_leader;
  if negb leader then
    r ← asks (λ n, WrongLeader (leader_id n) (leader_addr n));
    send_reply chan r
  else
    busy ← is_busy now later;
    if busy : bool then send_reply chan RBusy
    else
      modify (on_merger (merger_add proposal (chan, now)));;
      take_and_propose now accepts.

(** *** Committed entries *)

(** [elapsed().as_secs() > 2] *)
Definition slow (elapsed : Z) : bool := 2 <? elapsed / 1000000000.

Definition note_slow (now later elapsed : Z) : NM unit :=
  if slow elapsed then
    r ← asks recorder;
    r ← lift (recorder_incr now later r);
    modify (on_recorder (λ _, r))
  else mret tt.

(** [self.store.apply(&data)] with its time-out *)
Definition apply_data (now later : Z) (data : bytes) : NM (option (outcome RaftError bytes)) :=
  '(reply, elapsed) ← state (λ n, let '(reply, s, elapsed) := apply_within data (store n) in
                                  ((reply, elapsed), on_store (λ _, s) n));
  match reply with
  | Some Panic => panic
  | _ => note_slow now later elapsed;; mret reply
  end.

Definition response_of (reply : option (outcome RaftError bytes)) : RaftResponse :=
  match reply with
  | Some (Ok data) => Response data
  | Some (Err e) => RError (show_raft_error e)
  | _ => RError elapsed_text
  end.

(** One proposal, with its channel if there is one. *)
Definition handle_one (now later : Z) (data : bytes) (chan : option Chan) : NM unit :=
  reply ← apply_data now later data;
  match chan with
  | Some (c, inst) => note_slow now later (now - inst);; send_reply c (response_of reply)
  | None => mret tt
  end.

(** The loop that pops proposals and channels, over both from their ends. *)
Fixpoint handle_more (now later : Z) (datas : list bytes) (chans : option (list Chan)) : NM unit :=
  match datas with
  | [] => mret tt
  | data :: datas =>
      handle_one now later data (chans ≫= head);;
      handle_more now later datas (tail <$> chans)
  end.

(** [handle_normal] *)
Definition handle_normal (now later : Z) (entry : Entry) : NM unit :=
  seq ← ok_or (from_bytes (e_context entry)) (EOther (lit "postcard"));
  data ← ok_or (from_bytes (e_data entry)) (EOther (lit "postcard"));
  chan ← asks (λ n, uncommitteds n !! seq);
  modify (on_uncommitteds (delete seq));;
  match data, chan with
  | POne data, chan =>
      handle_one now later data (match chan with Some (COne c) => Some c | _ => None end)
  | PMore datas, chan =>
      handle_more now later (reverse datas)
        (match chan with Some (CMore cs) => Some (reverse cs) | _ => None end)
  end.
End Node.

(** ** Order of proposals *)

Section Order.
Context {S : Type} `{!Store S} `{!Postcard Z} `{!Postcard Proposals} (checks : bool).
Context `{!PostcardOk Z} `{!PostcardOk Proposals}.
(** Writing an integer or a list of byte strings to a growing buffer does not fail. *)
Hypothesis seq_encodes : ∀ s : Z, is_Some (to_stdvec s).
Hypothesis proposals_encode : ∀ d : Proposals, is_Some (to_stdvec d).

Abbreviation Node := (RaftNode S).

(** *** Specification

    Proposals are applied one after another, and each proposer gets the reply to
    its own. *)
Fixpoint serve (ps : list (bytes * Chan)) (s : S) : list (nat * RaftResponse) * S :=
  match ps with
  | [] => ([], s)
  | (data, (c, _)) :: ps =>
      let '(reply, s, _) := apply_within data s in
      let '(rs, s) := serve ps s in ((c, response_of (S := S) reply) :: rs, s)
  end.

(** The replies that come from the store. *)
Definition is_result (r : nat * RaftResponse) : bool :=
  match r.2 with Response _ | RError _ => true | _ => false end.

(** *** A node that leads *)

Inductive Event : Type :=
| EPropose (now later : Z) (proposal : bytes) (chan : nat)
| EIdle (now : Z)
| ECommit (now later : Z).

(** The node with the number of its entries that are committed, and the
    proposals that it has taken. *)
Record Run : Type := mkRun { r_node : Node; r_committed : nat; r_accepted : list (bytes * Chan) }.

Definition takes (now later : Z) (n : Node) : bool :=
  is_leader n && match is_busy now later n with (Ok false, _) => true | _ => false end.

(** Its entries are accepted by Raft and committed in order. *)
Definition event_exec (e : Event) (r : Run) : option Run :=
  match e with
  | EPropose now later p c =>
      match on_propose checks now later true p c (r_node r) with
      | (Ok _, n) => Some (mkRun n (r_committed r)
          (if takes now later (r_node r) then r_accepted r ++ [(p, (c, now))] else r_accepted r))
      | _ => None
      end
  | EIdle now =>
      match take_and_propose checks now true (r_node r) with
      | (Ok _, n) => Some (mkRun n (r_committed r) (r_accepted r))
      | _ => None
      end
  | ECommit now later =>
      e ← proposed (r_node r) !! r_committed r;
      match handle_normal now later e (r_node r) with
      | (Ok _, n) => Some (mkRun n (Datatypes.S (r_committed r)) (r_accepted r))
      | _ => None
      end
  end.

Fixpoint run_events (es : list Event) (r : Run) : option Run :=
  match es with [] => Some r | e :: es => event_exec e r ≫= run_events es end.

(** *** Pairs of proposals and channels *)

Definition paired (d : Proposals) (c : ReplyChan) : list (bytes * Chan) :=
  match d, c with
  | POne d, COne c => [(d, c)]
  | PMore ds, CMore cs => zip (reverse ds) (reverse cs)
  | _, _ => []
  end.

Definition well_paired (d : Proposals) (c : ReplyChan) : Prop :=
  match d, c with
  | POne _, COne _ => True
  | PMore ds, CMore cs => length ds = length cs
  | _, _ => False
  end.

Record merger_ok (m : Merger) : Prop := mkMergerOk {
  mg_length : length (proposals m) = length (chans m);
  mg_batch : 1 ≤ proposal_batch_size m;
  mg_room : merger_len m < proposal_batch_size m;
}.

Definition waiting (m : Merger) : list (bytes * Chan) := zip (proposals m) (chans m).

(** What [take] does to a merger that is not over-full: all or nothing. *)
Lemma merger_take_spec now m :
  length (proposals m) = length (chans m) → 1 ≤ proposal_batch_size m →
  merger_len m ≤ proposal_batch_size m →
  match merger_take checks now m with
  | (Ok (Some (d, c)), m') => well_paired d c ∧ paired d c = waiting m ∧ waiting m' = [] ∧ merger_ok m'
  | (Ok None, m') => m' = m ∧ merger_ok m
  | (Err _, _) => False
  | (Panic, _) => True
  end.
Proof.
  intros Hl Hb Hle. unfold merger_take. set (n := merger_len m) in *.
  rewrite (proj2 (Z.ltb_ge (proposal_batch_size m) n)) by lia. destruct (0 <? n) eqn:Hn.
  2: { apply Z.ltb_ge in Hn. split; [done|]. split; [done..|fold n; lia]. }
  apply Z.ltb_lt in Hn.
  assert (match (if n =? proposal_batch_size m then Some true else merger_timeout checks now m) with
          | Some false => n < proposal_batch_size m | _ => True end) as Hwait.
  { destruct (n =? proposal_batch_size m) eqn:He; [done|]. apply Z.eqb_neq in He.
    destruct (merger_timeout _ _ _) as [[]|]; [done|lia|done]. }
  destruct (if n =? proposal_batch_size m then Some true else merger_timeout checks now m) as [[]|];
    [|by split; [|split]|done].
  assert (∀ st, merger_ok (mkMerger [] [] st (proposal_batch_size m) (proposal_batch_timeout m))) as Hok.
  { intros st. split; [done..|]. unfold merger_len. simpl. rewrite len_nil. lia. }
  unfold merger_len, len in n. unfold waiting. destruct (n =? 1) eqn:Hone.
  - apply Z.eqb_eq in Hone. destruct (proposals m) as [|p [|]] eqn:Hp; [subst n; simpl in *; lia| |subst n; simpl in *; lia].
    destruct (chans m) as [|c [|]] eqn:Hc; [done| |done]. simpl. auto.
  - subst n. rewrite Nat2Z.id, !take_ge, !drop_ge by lia. simpl. rewrite !reverse_involutive.
    rewrite !length_reverse. auto.
Qed.

(** *** Applying *)

Definition after (rs : list (nat * RaftResponse)) (s : S) (rec : TimeoutRecorder) (n : Node) : Node :=
  on_recorder (λ _, rec) (on_replies (λ r, r ++ rs) (on_store (λ _, s) n)).

Lemma note_slow_frame now later el (n n' : Node) :
  note_slow now later el n = (Ok tt, n') → ∃ rec, n' = on_recorder (λ _, rec) n.
Proof.
  unfold note_slow. destruct (slow el).
  - intros (r & n1 & H1 & (r' & n2 & H2 & H3)%bind_ok_inv)%bind_ok_inv.
    injection H1 as <- <-. unfold lift in H2. injection H2 as _ <-. injection H3 as <-. by eexists.
  - intros [= <-]. exists (recorder n). by destruct n.
Qed.

Lemma handle_one_spec now later data c inst (n n' : Node) :
  handle_one now later data (Some (c, inst)) n = (Ok tt, n') →
  let '(rs, s) := serve [(data, (c, inst))] (store n) in ∃ rec, n' = after rs s rec n.
Proof.
  unfold handle_one, apply_data. simpl. intros (reply & n1 & H1 & H2)%bind_ok_inv.
  apply bind_ok_inv in H1 as ([reply' el] & n2 & H1 & H3). unfold state in H1.
  destruct (apply_within data (store n)) as [[r s'] t]. injection H1 as <- <- <-.
  apply bind_ok_inv in H2 as ([] & n3 & H2 & H4). injection H4 as <-.
  assert (r = reply ∧ ∃ rec, n1 = on_recorder (λ _, rec) (on_store (λ _, s') n)) as [-> [rec1 ->]].
  { destruct r as [[b|e|]|]; [..|done|]; apply bind_ok_inv in H3 as ([] & n4 & [rec ->]%note_slow_frame & [= <- <-]);
      (split; [done|by exists rec]). }
  apply note_slow_frame in H2 as [rec ->]. by exists rec.
Qed.

Lemma serve_cons p ps s :
  serve (p :: ps) s = let '(rs, s) := serve [p] s in let '(rs', s) := serve ps s in (rs ++ rs', s).
Proof.
  destruct p as [d [c i]]. simpl. destruct (apply_within d s) as [[r s'] t]. by destruct (serve ps s').
Qed.

Lemma serve_app ps qs s :
  serve (ps ++ qs) s =
  ((serve ps s).1 ++ (serve qs (serve ps s).2).1, (serve qs (serve ps s).2).2).
Proof.
  revert s. induction ps as [|[d [c i]] ps IH]; intros s; simpl; [by destruct (serve qs s)|].
  destruct (apply_within d s) as [[r s'] t]. rewrite IH. by destruct (serve ps s').
Qed.

Lemma handle_more_spec now later ds cs (n n' : Node) :
  length ds = length cs → handle_more now later ds (Some cs) n = (Ok tt, n') →
  let '(rs, s) := serve (zip ds cs) (store n) in ∃ rec, n' = after rs s rec n.
Proof.
  revert cs n. induction ds as [|d ds IH]; intros [|[c i] cs] n Hl; try done; simpl.
  - intros [= <-]. exists (recorder n). unfold after. destruct n. unfold on_recorder, on_replies, on_store. simpl. by rewrite app_nil_r.
  - intros ([] & n1 & H1 & H2)%bind_ok_inv. apply handle_one_spec in H1. simpl in H1.
    destruct (apply_within d (store n)) as [[r s'] t]. destruct H1 as [rec ->].
    apply IH in H2; [|by injection Hl]. unfold after in H2 at 1. cbn [store on_recorder on_replies on_store] in H2.
    destruct (serve (zip ds cs) s') as [rs s'']. destruct H2 as [rec' ->]. exists rec'.
    unfold after, on_recorder, on_replies, on_store. simpl. by rewrite <-app_assoc.
Qed.

(** An entry whose proposals wait for their replies. *)
Lemma handle_normal_spec now later e sq d c (n n' : Node) :
  from_bytes (e_context e) = Some sq → from_bytes (e_data e) = Some d →
  uncommitteds n !! sq = Some c → well_paired d c →
  handle_normal now later e n = (Ok tt, n') →
  let '(rs, s) := serve (paired d c) (store n) in
  ∃ rec, n' = after rs s rec (on_uncommitteds (delete sq) n).
Proof.
  intros Hs Hd Hu Hw. unfold handle_normal. erewrite bind_ok by (unfold ok_or; by rewrite Hs).
  erewrite bind_ok by (unfold ok_or; by rewrite Hd). erewrite bind_ok by done. rewrite Hu.
  erewrite bind_ok by done. destruct d as [d|ds], c as [[c i]|cs]; try done; intros Hh.
  - apply handle_one_spec in Hh. exact Hh.
  - apply handle_more_spec in Hh; [|by rewrite !length_reverse]. exact Hh.
Qed.

(** *** Proposing *)

Definition proposed_as (n : Node) (m : Merger) (e : Entry) (c : ReplyChan) : Node :=
  on_proposed (λ es, es ++ [e]) (on_uncommitteds (<[seq n := c]>)
    (on_seq (λ _, seq n + 1) (on_merger (λ _, m) n))).

Lemma take_and_propose_spec now (n n' : Node) :
  length (proposals (merger n)) = length (chans (merger n)) → 1 ≤ proposal_batch_size (merger n) →
  merger_len (merger n) ≤ proposal_batch_size (merger n) → 0 ≤ seq n → seq n + 1 < 2 ^ 64 →
  take_and_propose checks now true n = (Ok tt, n') →
  (n' = n ∧ merger_ok (merger n)) ∨
  ∃ d c m e, well_paired d c ∧ paired d c = waiting (merger n) ∧ waiting m = [] ∧ merger_ok m ∧
    from_bytes (e_context e) = Some (seq n) ∧ from_bytes (e_data e) = Some d ∧ n' = proposed_as n m e c.
Proof.
  intros Hl Hb Hle H0 Hseq. pose proof (merger_take_spec now (merger n) Hl Hb Hle) as Ht.
  unfold take_and_propose, _take_and_propose, attempt, zoom, mbind, M_bind.
  destruct (merger_take checks now (merger n)) as [[[[d c]|]| |] m].
  - destruct Ht as (Hw & Hp & Hm & Hok). unfold asks, modify, ok_or.
    destruct (seq_encodes (seq n)) as [cb Hcb]. destruct (proposals_encode d) as [db Hdb].
    cbn [on_merger seq]. rewrite Hcb, Hdb. unfold propose, modify, mret, M_ret. intros [= <-].
    right. exists d, c, m, (mkEntry cb db). split; [done|]. split; [done|]. split; [done|]. split; [done|].
    split; [by apply from_to|]. split; [by apply from_to|].
    unfold proposed_as, on_proposed, on_uncommitteds, on_seq, on_merger. simpl.
    by rewrite Z.mod_small by lia.
  - destruct Ht as [-> Hok]. intros [= <-]. left. split; [by destruct n|done].
  - done.
  - done.
Qed.

(** ** The invariant *)

Definition waits (n : Node) (i : nat) (d : Proposals) (c : ReplyChan) : Prop :=
  well_paired d c ∧ uncommitteds n !! Z.of_nat i = Some c ∧
  ∃ e, proposed n !! i = Some e ∧ from_bytes (e_context e) = Some (Z.of_nat i) ∧ from_bytes (e_data e) = Some d.

Definition in_log (pend : list (Proposals * ReplyChan)) : list (bytes * Chan) :=
  concat (map (λ p, paired p.1 p.2) pend).

Record run_ok (s0 : S) (r : Run) (served : list (bytes * Chan)) (pend : list (Proposals * ReplyChan))
    : Prop := mkRunOk {
  ro_merger : merger_ok (merger (r_node r));
  ro_seq : seq (r_node r) = Z.of_nat (length (proposed (r_node r)));
  ro_length : length (proposed (r_node r)) = (r_committed r + length pend)%nat;
  ro_pend : ∀ j d c, pend !! j = Some (d, c) → waits (r_node r) (r_committed r + j) d c;
  ro_accepted : r_accepted r = served ++ in_log pend ++ waiting (merger (r_node r));
  ro_store : store (r_node r) = (serve served s0).2;
  ro_replies : filter is_result (replies (r_node r)) = (serve served s0).1;
}.

Lemma in_log_snoc pend d c : in_log (pend ++ [(d, c)]) = in_log pend ++ paired d c.
Proof. unfold in_log. rewrite map_app, concat_app. simpl. by rewrite app_nil_r. Qed.

(** A node that took the whole merger, or nothing. *)
Lemma run_ok_take s0 r served pend n now n' :
  run_ok s0 r served pend →
  length (proposals (merger n)) = length (chans (merger n)) → 1 ≤ proposal_batch_size (merger n) →
  merger_len (merger n) ≤ proposal_batch_size (merger n) →
  seq n = seq (r_node r) → proposed n = proposed (r_node r) → uncommitteds n = uncommitteds (r_node r) →
  store n = store (r_node r) → replies n = replies (r_node r) →
  seq n + 1 < 2 ^ 64 → take_and_propose checks now true n = (Ok tt, n') →
  ∃ pend', run_ok s0 (mkRun n' (r_committed r) (served ++ in_log pend ++ waiting (merger n))) served pend' ∧
    (length (proposed n') ≤ Datatypes.S (length (proposed (r_node r))))%nat.
Proof.
  intros [Hm Hs Hl Hp Ha Hst Hre] H1 H2 H3 E1 E2 E3 E4 E5 Hlt Ht.
  destruct (take_and_propose_spec now n n' H1 H2 H3 ltac:(lia) Hlt Ht)
    as [[-> Hok]|(d & c & m & e & Hw & Hpd & Hwm & Hok & Hc & Hd & ->)].
  - exists pend. split; [|rewrite E2; lia]. split; simpl; try congruence.
    intros j d c Hj. destruct (Hp j d c Hj) as (? & ? & ?). unfold waits. by rewrite E2, E3.
  - exists (pend ++ [(d, c)]). split.
    2: { simpl. rewrite length_app, E2. simpl. lia. }
    split; simpl; [done|..|by rewrite E4|by rewrite E5].
    + rewrite length_app, E1, Hs, E2. simpl. lia.
    + rewrite !length_app, E2, Hl. simpl. lia.
    + intros j d' c' [Hj|[Hj Hn]]%lookup_app_Some.
      * pose proof (lookup_lt_Some _ _ _ Hj). destruct (Hp j d' c' Hj) as (? & ? & e' & He' & ? & ?).
        split; [done|]. simpl. rewrite E1, Hs, Hl, E3, E2. split; [rewrite lookup_insert_ne by lia; done|].
        exists e'. split; [|done]. by apply lookup_app_l_Some.
      * destruct (j - length pend)%nat as [|k] eqn:Hk; [|done]. injection Hn as <- <-.
        assert (j = length pend) as -> by lia. split; [done|]. simpl. rewrite E1, Hs, Hl, E2.
        rewrite lookup_insert_eq. split; [done|]. exists e.
        split; [rewrite lookup_app_r by lia; by rewrite Hl, Nat.sub_diag|]. split; [|done].
        by rewrite Hc, E1, Hs, Hl.
    + by rewrite in_log_snoc, Hpd, Hwm, app_nil_r.
Qed.

Lemma filter_results ps s : filter is_result (serve ps s).1 = (serve ps s).1.
Proof.
  revert s. induction ps as [|[d [c i]] ps IH]; intros s; [done|]. simpl.
  destruct (apply_within d s) as [[r s'] t]. specialize (IH s'). destruct (serve ps s') as [rs s'']. simpl in *.
  rewrite filter_cons_True; [by rewrite IH|]. unfold is_result, response_of. simpl.
  by destruct r as [[| |]|].
Qed.

Lemma run_ok_commit s0 r served pend now later e n' :
  run_ok s0 r served pend → proposed (r_node r) !! r_committed r = Some e →
  handle_normal now later e (r_node r) = (Ok tt, n') →
  ∃ served' pend', run_ok s0 (mkRun n' (Datatypes.S (r_committed r)) (r_accepted r)) served' pend' ∧
    length (proposed n') = length (proposed (r_node r)).
Proof.
  intros [Hm Hs Hl Hp Ha Hst Hre] He Hh. pose proof (lookup_lt_Some _ _ _ He) as Hlt.
  destruct pend as [|[d c] pend]; [simpl in Hl; lia|].
  destruct (Hp 0%nat d c eq_refl) as (Hw & Hu & e' & He' & Hc & Hd).
  rewrite Nat.add_0_r in *. assert (e' = e) as -> by congruence.
  pose proof (handle_normal_spec now later e _ d c _ _ Hc Hd Hu Hw Hh) as Hn.
  pose proof (serve_app served (paired d c) s0) as Happ. pose proof (filter_results (paired d c) (store (r_node r))) as Hf.
  rewrite <-Hst in Happ. destruct (serve (paired d c) (store (r_node r))) as [rs s']. destruct Hn as [rec ->].
  exists (served ++ paired d c), pend. split; [|done].
  split; simpl; [done|done| | | | |].
  - simpl in Hl. lia.
  - intros j d' c' Hj. destruct (Hp (Datatypes.S j) d' c' Hj) as (? & Hu' & e' & ? & ? & ?).
    replace (r_committed r + Datatypes.S j)%nat with (Datatypes.S (r_committed r + j)) in * by lia.
    split; [done|]. simpl. split; [|by exists e']. rewrite lookup_delete_ne by lia. exact Hu'.
  - rewrite Ha. unfold in_log. simpl. by rewrite <-!app_assoc.
  - by rewrite Happ.
  - simpl in Hf. rewrite Happ. simpl. by rewrite filter_app, Hre, Hf.
Qed.

Lemma is_busy_frame now later (n : Node) : (is_busy now later n).2 = n.
Proof.
  unfold is_busy, asks, lift, mbind, M_bind. destruct (_ <? _); [done|].
  by destruct (recorder_recent_get _ _ _).
Qed.

Lemma run_ok_refused s0 r served pend c x :
  run_ok s0 r served pend → is_result (c, x) = false →
  run_ok s0 (mkRun (on_replies (λ rs, rs ++ [(c, x)]) (r_node r)) (r_committed r) (r_accepted r)) served pend.
Proof.
  intros [Hm Hs Hl Hp Ha Hst Hre] Hx. split; simpl; try done.
  rewrite filter_app, Hre, filter_cons_False, filter_nil; [by rewrite app_nil_r|intros Hb; rewrite Hx in Hb; exact Hb].
Qed.

Lemma run_ok_event s0 e r r' served pend :
  run_ok s0 r served pend → Z.of_nat (length (proposed (r_node r))) + 1 < 2 ^ 64 →
  event_exec e r = Some r' →
  ∃ served' pend', run_ok s0 r' served' pend' ∧
    (length (proposed (r_node r')) ≤ Datatypes.S (length (proposed (r_node r))))%nat.
Proof.
  intros Hr Hlt He. pose proof Hr as [Hm Hs Hl Hp Ha Hst Hre].
  destruct Hm as [Hm1 Hm2 Hm3]. destruct e as [now later p c|now|now later]; simpl in He.
  - destruct (on_propose checks now later true p c (r_node r)) as [[[]| |] n] eqn:Hon; [|done..].
    injection He as <-. unfold on_propose in Hon. unfold asks at 1 in Hon.
    rewrite (bind_ok _ _ _ (is_leader (r_node r)) (r_node r)) in Hon by done. unfold takes.
    destruct (is_leader (r_node r)); simpl in Hon.
    2: { injection Hon as <-. exists served, pend. split; [by apply run_ok_refused|simpl; lia]. }
    pose proof (is_busy_frame now later (r_node r)) as Hfr. unfold mbind at 1, M_bind at 1 in Hon.
    destruct (is_busy now later (r_node r)) as [[[]| |] n1]; simpl in Hfr; subst n1; [..|done|done].
    + injection Hon as <-. exists served, pend. split; [by apply run_ok_refused|simpl; lia].
    + rewrite (bind_ok _ _ _ () (on_merger (merger_add p (c, now)) (r_node r))) in Hon by done.
      assert (waiting (merger (on_merger (merger_add p (c, now)) (r_node r))) =
              waiting (merger (r_node r)) ++ [(p, (c, now))]) as Hwait.
      { unfold waiting. simpl. by rewrite zip_with_app by done. }
      eapply run_ok_take in Hon as (pend' & Hok & Hle); [|exact Hr|..|done|done|done|done|done|simpl; lia].
      * exists served, pend'. split; [|exact Hle]. rewrite Hwait in Hok. by rewrite Ha, <-!app_assoc.
      * simpl. rewrite !length_app. simpl. lia.
      * done.
      * unfold merger_len in *. simpl. rewrite len_app, len_cons, len_nil. lia.
  - destruct (take_and_propose checks now true (r_node r)) as [[[]| |] n] eqn:Ht; [|done..].
    injection He as <-. eapply run_ok_take in Ht as (pend' & Hok & Hle); [|exact Hr|..]; try done; [|lia..].
    exists served, pend'. by rewrite Ha.
  - destruct (proposed (r_node r) !! r_committed r) as [e|] eqn:Hent; [|done]. simpl in He.
    destruct (handle_normal now later e (r_node r)) as [[[]| |] n] eqn:Hh; [|done..]. injection He as <-.
    destruct (run_ok_commit _ _ _ _ _ _ _ _ Hr Hent Hh) as (served' & pend' & Hok & Hle).
    exists served', pend'. split; [done|]. simpl. rewrite Hle. lia.
Qed.

Lemma run_ok_events s0 es r r' served pend :
  run_ok s0 r served pend → Z.of_nat (length (proposed (r_node r)) + length es) < 2 ^ 64 →
  run_events es r = Some r' → ∃ served' pend', run_ok s0 r' served' pend'.
Proof.
  revert r served pend. induction es as [|e es IH]; intros r served pend Hr Hlt Hrun; simpl in Hrun.
  { injection Hrun as <-. by exists served, pend. }
  destruct (event_exec e r) as [r1|] eqn:He; [|done]. simpl in Hrun, Hlt.
  destruct (run_ok_event _ _ _ _ _ _ Hr ltac:(lia) He) as (served' & pend' & Hok & Hle).
  eapply IH; [exact Hok|lia|exact Hrun].
Qed.

(** A node that starts, with a merger for batches of at least one proposal. *)
Definition fresh (n : Node) : Prop :=
  waiting (merger n) = [] ∧ merger_ok (merger n) ∧ seq n = 0 ∧ proposed n = [] ∧ replies n = [].

End Order.

(** ** The breaker of a peer *)

Record Peer : Type := mkPeer {
  grpc_fails : Z;
  grpc_fail_time : Z;
  grpc_breaker_threshold : Z;
  grpc_breaker_retry_interval : Z;
  active_tasks : Z;
}.

(** [Peer::new] *)
Definition peer_new (breaker_threshold breaker_retry_interval : Z) : Peer :=
  mkPeer 0 0 breaker_threshold breaker_retry_interval 0.

Definition record_failure (now : Z) (p : Peer) : Peer :=
  mkPeer ((grpc_fails p + 1) mod 2 ^ 64) now (grpc_breaker_threshold p) (grpc_breaker_retry_interval p) (active_tasks p).
Definition record_success (p : Peer) : Peer :=
  mkPeer 0 (grpc_fail_time p) (grpc_breaker_threshold p) (grpc_breaker_retry_interval p) (active_tasks p).
Definition on_active_tasks f (p : Peer) : Peer :=
  mkPeer (grpc_fails p) (grpc_fail_time p) (grpc_breaker_threshold p) (grpc_breaker_retry_interval p)
    (as_isize (f (active_tasks p))).

(** [is_unavailable] and [available] *)
Definition is_unavailable (p : Peer) : bool := grpc_breaker_threshold p <=? grpc_fails p.
Definition available (now : Z) (p : Peer) : bool :=
  (grpc_fails p <? grpc_breaker_threshold p) || (grpc_breaker_retry_interval p <? now - grpc_fail_time p).

Definition unavailable_error : Error := EOther (lit "The gRPC remote service is unavailable").

(** [send_message] and [send_proposal]: a call to the peer, with what it gave and
    the time at which it was over. *)
Definition peer_send (now over : Z) (call : outcome Error bytes) : M Peer Error bytes :=
  p ← get_state;
  if negb (available now p) then err unavailable_error
  else
    modify (on_active_tasks (λ n, n + 1));;
    reply ← attempt (lift call);
    modify (on_active_tasks (λ n, n - 1));;
    match reply with
    | Ok data => modify record_success;; mret data
    | Err e => modify (record_failure over);; err e
    | Panic => panic
    end.

(** Failures since the last success, with the time of the last of them. *)
Fixpoint peer_calls (calls : list (Z * Z * outcome Error bytes)) (p : Peer) : Peer :=
  match calls with
  | [] => p
  | (now, over, call) :: calls => peer_calls calls (peer_send now over call p).2
  end.

(** So many failures in a row, each when the breaker let the call through, close
    the connection for the interval after the last one; a call that succeeds
    opens it. *)
Lemma breaker_opens calls p t :
  0 ≤ grpc_fails p → grpc_fails p + len calls < 2 ^ 64 → calls ≠ [] →
  Forall (λ c, ∃ e, c.2 = Err e) calls →
  (∀ k c, calls !! k = Some c → available c.1.1 (peer_calls (take k calls) p) = true) →
  grpc_breaker_threshold p ≤ grpc_fails p + len calls →
  available t (peer_calls calls p) =
    (grpc_breaker_retry_interval p <? t - from_option (λ c, c.1.2) 0 (last calls)).
Proof.
  intros H0 Hlt Hne Hall Hav Hth.
  assert (∀ calls p, 0 ≤ grpc_fails p → grpc_fails p + len calls < 2 ^ 64 →
    Forall (λ c, ∃ e, c.2 = Err e) calls →
    (∀ k c, calls !! k = Some c → available c.1.1 (peer_calls (take k calls) p) = true) →
    grpc_fails (peer_calls calls p) = grpc_fails p + len calls ∧
    grpc_fail_time (peer_calls calls p) = from_option (λ c, c.1.2) (grpc_fail_time p) (last calls) ∧
    grpc_breaker_threshold (peer_calls calls p) = grpc_breaker_threshold p ∧
    grpc_breaker_retry_interval (peer_calls calls p) = grpc_breaker_retry_interval p) as Hrun.
  { clear. intros calls. induction calls as [|[[now over] call] calls IH]; intros p H0 Hlt Hall Hav; simpl.
    { rewrite len_nil. split; [lia|done]. }
    apply Forall_cons in Hall as [[e He] Hall]. simpl in He. subst call. rewrite len_cons in *.
    pose proof (len_nonneg calls).
    assert ((peer_send now over (Err e) p).2 =
            record_failure over (on_active_tasks (λ n, n - 1) (on_active_tasks (λ n, n + 1) p))) as Hp.
    { pose proof (Hav 0%nat _ eq_refl) as Ha. simpl in Ha.
      unfold peer_send, get_state, mbind, M_bind. by rewrite Ha. }
    rewrite Hp. destruct (IH (record_failure over (on_active_tasks (λ n, n - 1) (on_active_tasks (λ n, n + 1) p))))
      as (H1 & H2 & H3 & H4); simpl; rewrite ?(Z.mod_small (grpc_fails p + 1)) by lia; [lia|lia|done| |].
    { intros k c Hk. specialize (Hav (S k) c Hk). simpl in Hav. by rewrite Hp in Hav. }
    rewrite H1, H2, H3, H4. simpl. rewrite Z.mod_small by lia.
    split; [lia|]. split; [|done]. destruct calls as [|c calls]; [done|].
    rewrite last_cons_cons. destruct (last (c :: calls)) eqn:Hc; [done|by apply last_None in Hc]. }
  destruct (Hrun calls p H0 Hlt Hall Hav) as (H1 & H2 & H3 & H4). unfold available.
  rewrite H1, H2, H3, H4. rewrite (proj2 (Z.ltb_ge _ _)) by lia. simpl.
  destruct (last calls) eqn:Hl; [done|]. by apply last_None in Hl.
Qed.

(** ** Health of the cluster *)

Inductive StateRole : Type := Follower | Candidate | Leader | PreCandidate.

(** [PeerState] without its address *)
Record PeerState : Type := mkPeerState { ps_available : bool }.

Record Status : Type := mkStatusOf {
  st_id : Z;
  st_leader_id : Z;
  st_peers : gmap Z (option PeerState);
  st_role : StateRole;
}.

(** [peer_states] *)
Definition peer_states (peers : gmap Z (option Peer)) : gmap Z (option PeerState) :=
  (λ p : option Peer, (λ p, mkPeerState (negb (is_unavailable p))) <$> p) <$> peers.

Definition counts_available (p : Z * option PeerState) : bool :=
  match p.2 with Some p => ps_available p | None => false end.

Section Health.
Context `{!HashOrder Z} (checks : bool).

(** [get_count]; [None] is the overflow of a subtraction. *)
Definition get_count (s : Status) : option (Z * Z) :=
  let available_count := len (filter counts_available (iter (st_peers s))) in
  let all := Z.of_nat (size (st_peers s)) in
  if is_some (st_peers s !! st_id s) then
    if available_count =? 0 then if checks then None else Some (all - 1, 2 ^ 64 - 1)
    else Some (all - 1, available_count - 1)
  else Some (all, available_count).

Definition enough (s : Status) : outcome Error bool :=
  match get_count s with
  | Some (all_count, available_count) => Ok (all_count / 2 + all_count mod 2 <=? available_count)
  | None => Panic
  end.

(** [Status::available] *)
Definition status_available (s : Status) : outcome Error bool :=
  match st_role s with
  | Leader => enough s
  | _ =>
      if 0 <? st_leader_id s then
        Ok (from_option (from_option ps_available false) false (st_peers s !! st_leader_id s))
      else enough s
  end.

(** [is_started] and [is_leader] *)
Definition status_is_started (s : Status) : bool := 0 <? st_leader_id s.
Definition status_is_leader (s : Status) : bool :=
  (st_leader_id s =? st_id s) && match st_role s with Leader => true | _ => false end.

(** The nodes of the cluster, and those that answer, the node itself among them. *)
Definition others (s : Status) : gmap Z (option PeerState) := delete (st_id s) (st_peers s).
Definition reachable (s : Status) : Z := 1 + len (filter counts_available (map_to_list (others s))).
Definition members (s : Status) : Z := 1 + Z.of_nat (size (others s)).

Context `{!HashOrderOk Z}.

(** C34: the cluster counts as available to its leader, or when it has none, exactly
    when a majority of its nodes answers. *)
Theorem available_majority s :
  st_role s = Leader ∨ st_leader_id s ≤ 0 →
  (∀ p, st_peers s !! st_id s = Some p → counts_available (st_id s, p) = true) →
  status_available s = Ok (bool_decide (members s < 2 * reachable s)).
Proof.
  intros Hrole Hself. assert (status_available s = enough s) as ->.
  { unfold status_available. destruct Hrole as [-> | Hl]; [done|].
    rewrite (proj2 (Z.ltb_ge _ _)) by lia. by destruct (st_role s). }
  assert (get_count s = Some (members s - 1, reachable s - 1)) as Hcount.
  { unfold get_count, members, reachable, others.
    assert (len (filter counts_available (iter (st_peers s))) =
            len (filter counts_available (map_to_list (st_peers s)))) as ->.
    { unfold len. by rewrite (iter_perm _ (st_peers s)). }
    destruct (st_peers s !! st_id s) as [p|] eqn:Hp; simpl.
    - assert (st_peers s = <[st_id s := p]> (delete (st_id s) (st_peers s))) as Hins by (by rewrite insert_delete_id).
      assert (len (filter counts_available (map_to_list (st_peers s))) =
              1 + len (filter counts_available (map_to_list (delete (st_id s) (st_peers s))))) as ->.
      { rewrite Hins at 1. unfold len. rewrite map_to_list_insert by apply lookup_delete_eq.
        rewrite filter_cons_True by (by rewrite Hself). simpl. lia. }
      assert (size (st_peers s) = S (size (delete (st_id s) (st_peers s)))) as ->.
      { rewrite Hins at 1. by rewrite map_size_insert_None by apply lookup_delete_eq. }
      pose proof (len_nonneg (filter counts_available (map_to_list (delete (st_id s) (st_peers s))))).
      rewrite (proj2 (Z.eqb_neq _ _)) by lia. f_equal. apply pair_eq. split; lia.
    - rewrite delete_id by done. f_equal. apply pair_eq. split; lia. }
  unfold enough. rewrite Hcount. f_equal.
  assert (0 ≤ members s - 1) by (unfold members; lia).
  pose proof (Z.div_mod (members s - 1) 2 ltac:(lia)). pose proof (Z.mod_pos_bound (members s - 1) 2 ltac:(lia)).
  apply eq_true_iff_eq. rewrite Z.leb_le, bool_decide_eq_true. lia.
Qed.
End Health.

(** ** Concrete nodes *)

#[export] Instance Proposals_eq_dec : EqDecision Proposals.
Proof. solve_decision. Defined.
#[export] Instance Proposals_countable : Countable Proposals.
Proof.
  refine (inj_countable' (λ d, match d with POne d => inl d | PMore ds => inr ds end)
            (λ d, match d with inl d => POne d | inr ds => PMore ds end) _).
  by intros [].
Defined.

#[local] Instance sample_seq : Postcard Z := counted.
#[local] Instance sample_seq_ok : PostcardOk Z := counted_ok.
#[local] Instance sample_proposals : Postcard Proposals := counted.
#[local] Instance sample_proposals_ok : PostcardOk Proposals := counted_ok.

(** A store that keeps what it applies and answers with it. *)
#[local] Instance sample_store : Store (list bytes) := {|
  apply_within data s := (Some (Ok data), s ++ [data], 0);
  show_raft_error _ := [];
  elapsed_text := [];
|}.

Definition sample_recorder : TimeoutRecorder := mkRecorder (replicate 5 (mkBucket 0 0)) 15000000000 5 3000000000 0.

(** A leader with batches of two. *)
Definition sample_node : RaftNode (list bytes) :=
  mkRaftNode [] (merger_new 2 200000000) ∅ 0 1 1 None sample_recorder 0 10 [] [].

(** Three proposals; the third is taken when the time of its batch is over. *)
Definition sample_events : list Event :=
  [EPropose 100 100 [7] 1; EPropose 110 110 [8] 2; EPropose 120 120 [9] 3; ECommit 130 130; EIdle 400; ECommit 410 410].

Lemma sample_node_fresh : fresh sample_node.
Proof. split; [reflexivity|]. split; [split; vm_compute; [reflexivity|discriminate|reflexivity]|]. repeat split. Qed.


(** The number of a proposal is a counter of the node that made it, and is not
    kept apart by nodes.  When a node has a proposal waiting under a number and
    applies an entry that another node made under the same one, after a change
    of the leader, its proposer gets the reply to the other's proposal. *)
Example reply_of_another :
  let n := (on_propose true 100 100 true [7] 1 sample_node).2 in
  let n := (take_and_propose true 400 true n).2 in
  ∃ cb db, to_stdvec (0 : Z) = Some cb ∧ to_stdvec (POne [66]) = Some db ∧
    replies (handle_normal 500 500 (mkEntry cb db) n).2 = [(1%nat, Response [66])].
Proof. eexists _, _. split; [reflexivity|]. split; [reflexivity|]. vm_compute. reflexivity. Qed.

(** *** The recorder

    The index of a bucket comes from the time since [now], which was asked for
    just before: it is 0 as long as that takes less than a bucket. *)
Lemma one_bucket now later r :
  1000000 ≤ bucket_duration r → 0 < bucket_count r → now ≤ later → later - now < 1000000 →
  bucket_index now later r = Some 0%nat.
Proof.
  intros Hd Hc H0 H1. unfold bucket_index.
  assert (1 ≤ bucket_duration r / 1000000) by (apply Z.div_le_lower_bound; lia).
  rewrite (proj2 (Z.eqb_neq _ _)) by lia. rewrite (proj2 (Z.eqb_neq (bucket_count r) 0)) by lia. simpl.
  rewrite (Z.div_small (later - now)), Z.div_0_l, Z.mod_0_l by lia. done.
Qed.

(** Three slow operations within ten seconds of a window of fifteen, of which
    the recorder counts one. *)
Example recorder_forgets :
  let s := 1000000000 in
  ∃ r0 r1 r2 r3, recorder_new 0 (15 * s) 5 = Ok r0 ∧ recorder_incr s s r0 = Ok r1 ∧
    recorder_incr (5 * s) (5 * s) r1 = Ok r2 ∧ recorder_incr (9 * s) (9 * s) r2 = Ok r3 ∧
    recorder_get (10 * s) r3 = 1.
Proof. eexists _, _, _, _. repeat split; vm_compute; reflexivity. Qed.

(** *** Health *)

#[local] Existing Instances map_order map_order_ok.

Definition sample_status : Status :=
  mkStatusOf 1 1 {[1 := Some (mkPeerState true); 2 := Some (mkPeerState true); 3 := Some (mkPeerState false)]} Leader.

Lemma available_majority_witness :
  status_available true sample_status = Ok true ∧ members sample_status = 3 ∧ reachable sample_status = 2.
Proof.
  split; [|split; vm_compute; reflexivity].
  rewrite (available_majority true sample_status); [vm_compute; reflexivity|left; reflexivity|].
  intros p Hp. vm_compute in Hp. injection Hp as <-. reflexivity.
Defined.
