(* ===== verification/ClusterShared.v ===== *)
(** * Sessions and messages across nodes

    [ferromq-cluster-raft/src/shared.rs] and [handler.rs]: a node of a cluster
    ([Member]) has the registry of its own sessions ([Broker]), a copy of the
    replicated router ([ClusterRouter]) and connections to other nodes.  A message
    is put into the channels of the subscribers of this node, and sent once to
    every other node that has some, which does the same and acknowledges; a
    connecting client takes a lock from the cluster and has its earlier session
    kicked on the node that has it.

    What is sent to other nodes is a list, [m_outbox]; a notification is sent
    when there is a connection to the node and is lost otherwise.  Results of
    the Raft mailbox and replies of other nodes are arguments. *)

From stdpp Require Import base list numbers option gmap strings.
From Stdlib Require Import ZArith Lia.
From S2P Require Import Prelude Errors CodecTypes PacketV5 Topic Counter Postcard Hash BrokerTypes Queue Inflight.
From S2P Require Import RetainStore Router Routing Acl Alias Hook Delayed SessionSubs ConnInfo Fitter Broker.
From S2P Require Import Session SessionLoop SessionFrame Sample Delivery ClusterRouter.

#[local] Open Scope Z_scope.

(** The messages between nodes that carry publications and sessions. *)
Inductive GrpcMessage : Type :=
| ForwardsTo (from : From) (publish : BrokerTypes.Publish) (relations : list SubRelation) (msg_id : option MsgID)
| ForwardsToAck (msg_id : MsgID) (node_id : NodeId) (subscribers : ForwardedRecipients)
| GrpcKick (id : Id) (clean_start clear_subscriptions is_admin : bool).

Abbreviation DeliveryError := (Id * From * BrokerTypes.Publish * Reason)%type.

Section ClusterShared.
Context `{B : Backend}.

Record Member : Type := mkMember {
  m_node : Node;
  m_router : ClusterRouter;
  grpc_clients : gset NodeId;
  m_outbox : list (NodeId * GrpcMessage);
}.

Definition on_m_node (f : Node → Node) (m : Member) : Member :=
  mkMember (f (m_node m)) (m_router m) (grpc_clients m) (m_outbox m).
Definition on_m_outbox f (m : Member) : Member :=
  mkMember (m_node m) (m_router m) (grpc_clients m) (f (m_outbox m)).

Abbreviation MM := (M Member Error).

(** A computation on the registry of the node itself. *)
Definition on_inner {A} (f : M Node Error A) : MM A := zoom m_node (λ n, on_m_node (λ _, n)) f.

Context (scx : ServerContext) `{!HashOrder Z}.

(** *** Forwarding *)

(** [sub_relations_to_client_ids] *)
Definition sub_relations_to_client_ids (relations : list SubRelation) : ForwardedRecipients :=
  concat (map (λ rel : SubRelation,
    let '(tf, cid, _, _, group_shared) := rel in recipients_of tf cid group_shared) relations).

(** [self.grpc_client(node_id)] with a notification; whether there was one. *)
Definition notify (node_id : NodeId) (msg : GrpcMessage) : Member → bool * Member := λ m,
  if bool_decide (node_id ∈ grpc_clients m) then (true, on_m_outbox (λ o, o ++ [(node_id, msg)]) m)
  else (false, m).

(** [ClusterShared::forwards_to].  The acknowledgement is sent when every relation
    was served. *)
Definition member_forwards_to (from : From) (publish : BrokerTypes.Publish) (relations : list SubRelation)
    (msg_id : option MsgID) (m : Member) : (ForwardedRecipients * list DeliveryError) * Member :=
  let from_node_id := id_node_id (from_id from) in
  let is_this_node := from_node_id =? sc_node_id scx in
  let subscribers :=
    if negb is_this_node then (λ i, (i, sub_relations_to_client_ids relations)) <$> msg_id else None in
  let '(res, n) := forwards_to from publish relations (m_node m) in
  let m := on_m_node (λ _, n) m in
  match res.2, subscribers with
  | [], Some (msg_id, subscribers) =>
      (res, (notify from_node_id (ForwardsToAck msg_id (sc_node_id scx) subscribers) m).2)
  | _, _ => (res, m)
  end.

(** [message_mark_forwarded]; the error of the store is logged by the callers. *)
Definition member_mark_forwarded (from_node_id : NodeId) (msg_id : MsgID) (recipients : ForwardedRecipients)
    : Member → Member := λ m,
  if from_node_id =? sc_node_id scx then on_m_node (on_n_msgs (λ s, (mm_mark_forwarded msg_id recipients s).2)) m
  else (notify from_node_id (ForwardsToAck msg_id (sc_node_id scx) recipients) m).2.

(** [forward_to_target_client] *)
Definition forward_to_target_client (msg_id : option MsgID) (from : From) (publish : BrokerTypes.Publish)
    (target_clientid : ClientId) (m : Member) : list DeliveryError * Member :=
  let relations := [target_relation publish target_clientid] in
  let target_nodeid := default (sc_node_id scx) (get_target_node_id (m_router m) target_clientid) in
  if target_nodeid =? sc_node_id scx then
    let '((_, errs), m) := member_forwards_to from publish relations msg_id m in
    match errs with
    | [] => ([], match msg_id with
                 | Some msg_id => member_mark_forwarded target_nodeid msg_id [(target_clientid, None)] m
                 | None => m
                 end)
    | _ => (errs, m)
    end
  else ([], (notify target_nodeid (ForwardsTo from publish relations msg_id) m).2).

(** [router().matches(..)]; an error is logged and nobody matches. *)
Definition member_matches (id : Id) (topic : TopicName) : MM (gmap NodeId (list SubRelation)) := λ m,
  match _matches (λ _ cid, cluster_is_online (m_router m) cid) id topic (router_inner (m_router m))
          (n_shared (m_node m)) with
  | (Ok r, st) => (Ok r, on_m_node (on_n_shared (λ _, st)) m)
  | (Err _, st) => (Ok ∅, on_m_node (on_n_shared (λ _, st)) m)
  | (Panic, st) => (Panic, on_m_node (on_n_shared (λ _, st)) m)
  end.

(** The nodes other than this one, and what is sent to them. *)
Fixpoint forward_to_others (from : From) (publish : BrokerTypes.Publish) (msg_id : option MsgID)
    (relations_map : list (NodeId * list SubRelation)) (m : Member) : Member :=
  match relations_map with
  | [] => m
  | (node_id, relations) :: rest =>
      forward_to_others from publish msg_id rest
        (notify node_id (ForwardsTo from publish relations msg_id) m).2
  end.

(** [forward_to_subscriptions]: the number of relations, and the failures of this
    node. *)
Definition forward_to_subscriptions (msg_id : option MsgID) (from : From) (publish : BrokerTypes.Publish)
    : MM (Z * list DeliveryError) :=
  relations_map ← member_matches (from_id from) (topic (inner publish));
  let this_node_id := sc_node_id scx in
  '(here, errs) ←
    match relations_map !! this_node_id with
    | Some relations =>
        '(_, errs) ← state (member_forwards_to from publish relations msg_id);
        match errs, msg_id with
        | [], Some msg_id =>
            modify (member_mark_forwarded this_node_id msg_id (sub_relations_to_client_ids relations));;
            mret (len relations, [])
        | _, _ => mret (len relations, errs)
        end
    | None => mret (0, [])
    end;
  let others := iter (delete this_node_id relations_map) in
  modify (forward_to_others from publish msg_id others);;
  mret (here + foldr (λ r n, len r.2 + n) 0 others, errs).

(** [Shared::forwards] *)
Definition member_forwards (msg_id : option MsgID) (from : From) (publish : BrokerTypes.Publish)
    : MM (Z * list DeliveryError) :=
  match target_clientid publish with
  | Some target =>
      errs ← state (forward_to_target_client msg_id from publish target);
      match errs with [] => mret (1, []) | _ => mret (0, errs) end
  | None => forward_to_subscriptions msg_id from publish
  end.

(** *** Messages of other nodes *)

(** [Handler::hook] on [GrpcMessageReceived]; [wait] is what the node does while a
    kick waits for its session. *)
Definition on_grpc_message (wait : Node → Node) (msg : GrpcMessage) : MM (option (outcome Error OfflineSession)) :=
  match msg with
  | ForwardsTo from publish relations msg_id =>
      '(_, errs) ← state (member_forwards_to from publish relations msg_id);
      modify (on_m_node (λ n, foldl (λ n '(to, from, p, reason), message_dropped (Some to) from p reason n) n errs));;
      mret None
  | ForwardsToAck msg_id _ subscribers =>
      modify (on_m_node (on_n_msgs (λ s, (mm_mark_forwarded msg_id subscribers s).2)));; mret None
  | GrpcKick id clean_start clear_subscriptions is_admin =>
      r ← attempt (on_inner (kick id clean_start clear_subscriptions is_admin wait));
      mret (Some r)
  end.

(** *** Entries *)

(** [ClusterLockEntry::try_lock], whose reply to the proposal is given: the node
    that had the client. *)
Definition cluster_try_lock `{!ClusterCodec} (reply : outcome Error bytes) (id : Id) : MM (option NodeId) :=
  reply ← lift reply;
  prev_node_id ←
    match reply with
    | [] => mret None
    | _ => match from_bytes reply with
           | Some (RaftReply.Error e) => err (EOther e)
           | Some (RaftReply.HandshakeTryLock prev_id) => mret (id_node_id <$> prev_id)
           | Some RaftReply.Ping => err (EOther (lit "unreachable!()"))
           | None => err (EOther (lit "postcard"))
           end
    end;
  on_inner (try_lock id);;
  mret prev_node_id.

(** [ClusterLockEntry::set] *)
Definition cluster_set `{!ClusterCodec} (reply : outcome Error bytes) (id : Id) (s tx : Z) : MM unit :=
  reply ← lift reply;
  match reply with
  | [] => on_inner (modify (entry_set id s tx))
  | _ => match from_bytes reply with
         | Some (RaftReply.Error e) => err (EOther e)
         | Some _ => err (EOther (lit "unreachable!()"))
         | None => err (EOther (lit "postcard"))
         end
  end.

(** The answer of the node that was asked to kick. *)
Inductive KickReply : Type := KKicked (o : OfflineSession) | KOtherReply | KError.

(** [ClusterLockEntry::kick]: on this node, or on the one that has the client.
    [owner] is the answer to [get_client_node_id], which an administrator's kick
    asks for; [remote] that of the other node. *)
Definition cluster_kick (prev_node_id : option NodeId) (owner : outcome Error (option NodeId))
    (remote : KickReply) (id : Id) (clean_start clear_subscriptions is_admin : bool) (wait : Node → Node)
    : MM OfflineSession :=
  prev_node_id ← (if is_admin then o ← lift owner; mret (default (id_node_id id) o)
                  else mret (default (id_node_id id) prev_node_id));
  if prev_node_id =? id_node_id id then on_inner (kick id clean_start clear_subscriptions is_admin wait)
  else
    sent ← state (notify prev_node_id (GrpcKick id clean_start true is_admin));
    if sent : bool then
      mret (match remote with KKicked o => o | KOtherReply | KError => OffNotExist end)
    else err (EOther (lit "kick error, grpc_client is not exist")).

(** [ClusterLockEntry::online], [session_status] and [client_states_count] *)
Definition cluster_online (id : Id) (m : Member) : bool := cluster_is_online (m_router m) (id_client_id id).
Definition cluster_session_status (checks : bool) (now : Z) (m : Member) (client_id : ClientId)
    : option (option SessionStatus) :=
  match cluster_status (m_router m) client_id with
  | Some st => (λ h, Some (Broker.mkStatus (cs_id st) (cs_online st) h)) <$>
                 handshaking checks now (try_lock_timeout (m_router m)) st
  | None => Some None
  end.
Definition client_states_count (m : Member) : nat := states_count (m_router m).
End ClusterShared.

(** ** Messages across nodes *)

Section Delivery.
Context `{B : Backend} `{!BackendOk B} `{!HashOrder Z} `{!HashOrderOk Z}.

(** What a node has sent to another one. *)
Definition sent_to (node_id : NodeId) (o : list (NodeId * GrpcMessage)) : list GrpcMessage :=
  map snd (filter (λ e, e.1 = node_id) o).

(** The acknowledgement of a message with the identifier [mid] from the node
    [a], if there is a connection to it and nobody was missed. *)
Definition ack_of (scx : ServerContext) (m : Member) (a : NodeId) (mid : option MsgID) (told : ForwardedRecipients)
    (missed : bool) : list (NodeId * GrpcMessage) :=
  match mid with
  | Some i =>
      if negb missed && bool_decide (a ∈ grpc_clients m) then [(a, ForwardsToAck i (sc_node_id scx) told)] else []
  | None => []
  end.

(** All subscribers of the relations, groups with all their members. *)
Lemma relations_served wants rels :
  (∀ rel, rel ∈ rels → group_ok (wants (rel_tf rel)) (rel_opts rel) (rel_group rel)) →
  served_by wants (λ _, True) rels (sub_relations_to_client_ids rels).
Proof.
  intros Hok. unfold sub_relations_to_client_ids. apply (recipients_served wants rels (λ _, True)); [done|].
  by intros [[[[tf cid] opts] ids] g].
Qed.

Lemma notify_outbox node_id msg (m : Member) :
  (notify node_id msg m).2 =
  on_m_outbox (λ o, o ++ (if bool_decide (node_id ∈ grpc_clients m) then [(node_id, msg)] else [])) m.
Proof.
  unfold notify. case_bool_decide; [done|]. unfold on_m_outbox. destruct m. cbn. by rewrite app_nil_r.
Qed.

Lemma member_forwards_to_spec scx from p rels mid (m : Member) :
  let '((oks, errs), m') := member_forwards_to scx from p rels mid m in
  forwarded (m_node m) (m_node m') from p rels ∧
  map undelivered errs = omap (missed_by (m_node m) from p) rels ∧
  m_router m' = m_router m ∧ grpc_clients m' = grpc_clients m ∧ n_msgs (m_node m') = n_msgs (m_node m) ∧
  m_outbox m' = m_outbox m ++
    (if id_node_id (from_id from) =? sc_node_id scx then []
     else ack_of scx m (id_node_id (from_id from)) mid (sub_relations_to_client_ids rels)
            (negb (bool_decide (omap (missed_by (m_node m) from p) rels = [])))).
Proof.
  unfold member_forwards_to. pose proof (forwards_to_spec from p rels (m_node m)) as Hf.
  pose proof (forwards_to_msgs from p rels (m_node m)) as Hms.
  destruct (forwards_to from p rels (m_node m)) as [[oks errs] n]. destruct Hf as (Hf & _ & He). simpl in Hms.
  assert (bool_decide (omap (missed_by (m_node m) from p) rels = []) = bool_decide (errs = [])) as ->.
  { rewrite <-He. apply bool_decide_ext. by destruct errs. }
  destruct (id_node_id (from_id from) =? sc_node_id scx); simpl.
  { rewrite app_nil_r. by destruct errs. }
  unfold ack_of. destruct mid as [i|]; simpl; [|rewrite app_nil_r; by destruct errs].
  destruct errs as [|e errs]; simpl; [|by rewrite app_nil_r].
  rewrite notify_outbox. simpl. by case_bool_decide.
Qed.

Lemma forward_to_others_spec from p mid others (m : Member) :
  forward_to_others from p mid others m =
  on_m_outbox (λ o, o ++ map (λ r, (r.1, ForwardsTo from p r.2 mid))
                         (filter (λ r, r.1 ∈ grpc_clients m) others)) m.
Proof.
  revert m. induction others as [|[node rels] others IH]; intros m; simpl.
  { unfold on_m_outbox. destruct m. cbn. by rewrite app_nil_r. }
  rewrite IH, notify_outbox. unfold on_m_outbox. cbn [m_node m_router grpc_clients m_outbox]. f_equal.
  case_bool_decide; [rewrite filter_cons_True by done|rewrite filter_cons_False, app_nil_r by done; done].
  by rewrite <-app_assoc.
Qed.

(** A node is sent the relations that it has, once. *)
Lemma sent_to_others from p mid (out : gmap NodeId (list SubRelation)) (clients : gset NodeId) node_id :
  sent_to node_id (map (λ r, (r.1, ForwardsTo from p r.2 mid)) (filter (λ r, r.1 ∈ clients) (iter out))) =
  match out !! node_id with
  | Some rels => if bool_decide (node_id ∈ clients) then [ForwardsTo from p rels mid] else []
  | None => []
  end.
Proof.
  assert (∀ l : list (NodeId * list SubRelation), NoDup l.*1 →
    sent_to node_id (map (λ r, (r.1, ForwardsTo from p r.2 mid)) (filter (λ r, r.1 ∈ clients) l)) =
    match list_to_map (M := gmap NodeId (list SubRelation)) l !! node_id with
    | Some rels => if bool_decide (node_id ∈ clients) then [ForwardsTo from p rels mid] else []
    | None => []
    end) as Hl.
  { intros l. induction l as [|[n rels] l IH]; intros Hnd; simpl; [by rewrite lookup_empty|].
    apply NoDup_cons in Hnd as [Hn Hnd]. specialize (IH Hnd). rewrite filter_cons. simpl.
    destruct (decide (n = node_id)) as [->|Hne].
    - rewrite lookup_insert_eq. rewrite not_elem_of_list_to_map_1 in IH by done.
      case_decide as Hc; simpl; [rewrite bool_decide_true by done|by rewrite bool_decide_false by done].
      unfold sent_to in *. rewrite filter_cons_True by done. simpl. by rewrite IH.
    - rewrite lookup_insert_ne by done. rewrite <-IH.
      destruct (decide (n ∈ clients)); [|reflexivity]. unfold sent_to. simpl. by rewrite filter_cons_False. }
  rewrite Hl by apply NoDup_iter_keys.
  assert (list_to_map (M := gmap NodeId (list SubRelation)) (iter out) = out) as ->; [|done].
  rewrite <-(list_to_map_to_list out) at 2. apply list_to_map_proper; [apply NoDup_iter_keys|apply iter_perm].
Qed.

Lemma forwarded_hooks n n' from p rels (errs : list DeliveryError) :
  forwarded n n' from p rels →
  forwarded n (foldl (λ n '(to, from, p, reason), message_dropped (Some to) from p reason n) n' errs) from p rels.
Proof.
  revert n'. induction errs as [|[[[to f] q] r] errs IH]; intros n' Hf; [done|]. simpl. by apply IH.
Qed.

Context (scx : ServerContext).

(** What a node makes of messages that it receives, in order. *)
Definition receives (wait : Node → Node) (msgs : list GrpcMessage) (m : Member) : Member :=
  foldl (λ m msg, (on_grpc_message scx wait msg m).2) m msgs.

(** The relations that a routing result has for a node. *)
Definition for_node (out : gmap NodeId (list SubRelation)) (node_id : NodeId) : list SubRelation :=
  default [] (out !! node_id).

Definition total (out : gmap NodeId (list SubRelation)) : Z :=
  foldr (λ r n, len r.2 + n) 0 (map_to_list out).

Lemma total_split out node_id :
  total out = len (for_node out node_id) + foldr (λ r n, len r.2 + n) 0 (iter (delete node_id out)).
Proof.
  assert (∀ l l' : list (NodeId * list SubRelation), l ≡ₚ l' →
    foldr (λ r n, len r.2 + n) 0 l = foldr (λ r n, len r.2 + n) 0 l') as Hp.
  { intros l l' H. apply (foldr_permutation_proper (=) (λ r n, len r.2 + n) 0); [intros; lia|done]. }
  unfold total, for_node. rewrite (Hp _ _ (iter_perm _ (delete node_id out))).
  destruct (out !! node_id) as [rels|] eqn:Ho; simpl.
  - rewrite <-(insert_delete_id out node_id rels Ho) at 1.
    by rewrite (Hp _ _ (map_to_list_insert _ _ _ (lookup_delete_eq _ _))).
  - by rewrite delete_id.
Qed.

Lemma member_matches_spec id topic_name t (m : Member) :
  router_routes (router_inner (m_router m)) → topic_from_str topic_name = Ok t → Forall (λ l, is_wildcard l = false) t →
  ∃ out st choice,
    member_matches id topic_name m = (Ok out, on_m_node (on_n_shared (λ _, st)) m) ∧
    is_choice id topic_name (router_inner (m_router m)) choice ∧
    ∀ node_id, routed id topic_name (router_inner (m_router m)) choice node_id (for_node out node_id).
Proof.
  intros Hr Ht Hw.
  destruct (routing_exact (λ _ cid, cluster_is_online (m_router m) cid) id topic_name
    (router_inner (m_router m)) (n_shared (m_node m)) t Hr Ht Hw) as (out & st & choice & Hm & Hch & Hro).
  exists out, st, choice. split; [unfold member_matches; by rewrite Hm|]. by split.
Qed.

(** The store of messages, once [told] were served and the failures were [errs]. *)
Definition marked (mid : option MsgID) (told : ForwardedRecipients) (errs : list DeliveryError) (s : Mm) : Mm :=
  match mid, errs with Some i, [] => (mm_mark_forwarded i told s).2 | _, _ => s end.

(** The part of [forward_to_subscriptions] that concerns this node. *)
Lemma forward_here {E} mid from p rels (m : Member) :
  id_node_id (from_id from) = sc_node_id scx →
  ∃ errs m',
    ('(_, errs) ← state (member_forwards_to scx from p rels mid);
     match errs, mid with
     | [], Some mid =>
         modify (member_mark_forwarded scx (sc_node_id scx) mid (sub_relations_to_client_ids rels));;
         mret (len rels, [])
     | _, _ => mret (len rels, errs)
     end : M Member E _) m = (Ok (len rels, errs), m') ∧
    forwarded (m_node m) (m_node m') from p rels ∧ map undelivered errs = omap (missed_by (m_node m) from p) rels ∧
    grpc_clients m' = grpc_clients m ∧ m_outbox m' = m_outbox m ∧
    n_msgs (m_node m') = marked mid (sub_relations_to_client_ids rels) errs (n_msgs (m_node m)).
Proof.
  intros Hfrom. pose proof (member_forwards_to_spec scx from p rels mid m) as Hm.
  rewrite Hfrom, Z.eqb_refl, app_nil_r in Hm. unfold state, mbind, M_bind.
  destruct (member_forwards_to scx from p rels mid m) as [[oks errs] m1].
  destruct Hm as (Hf & He & _ & Hc & Hms & Ho).
  destruct errs as [|e errs], mid as [i|]; try (by eexists _, _; split_and!).
  exists [], (member_mark_forwarded scx (sc_node_id scx) i (sub_relations_to_client_ids rels) m1).
  unfold member_mark_forwarded. rewrite Z.eqb_refl. do 5 (split; [done|]). simpl. by rewrite Hms.
Qed.

Lemma forward_subscriptions {E} mid from p out (m : Member) :
  id_node_id (from_id from) = sc_node_id scx →
  ∃ errs m',
    ('(here, errs) ←
       match out !! sc_node_id scx with
       | Some rels =>
           '(_, errs) ← state (member_forwards_to scx from p rels mid);
           match errs, mid with
           | [], Some mid =>
               modify (member_mark_forwarded scx (sc_node_id scx) mid (sub_relations_to_client_ids rels));;
               mret (len rels, [])
           | _, _ => mret (len rels, errs)
           end
       | None => mret (0, [])
       end;
     let others := iter (delete (sc_node_id scx) out) in
     modify (forward_to_others from p mid others);;
     mret (here + foldr (λ r n, len r.2 + n) 0 others, errs) : M Member E _) m = (Ok (total out, errs), m') ∧
    forwarded (m_node m) (m_node m') from p (for_node out (sc_node_id scx)) ∧
    map undelivered errs = omap (missed_by (m_node m) from p) (for_node out (sc_node_id scx)) ∧
    (∀ node_id, node_id ≠ sc_node_id scx →
       sent_to node_id (m_outbox m') = sent_to node_id (m_outbox m) ++
         match out !! node_id with
         | Some rels => if bool_decide (node_id ∈ grpc_clients m) then [ForwardsTo from p rels mid] else []
         | None => []
         end) ∧
    (for_node out (sc_node_id scx) ≠ [] → n_msgs (m_node m') =
       marked mid (sub_relations_to_client_ids (for_node out (sc_node_id scx))) errs (n_msgs (m_node m))).
Proof.
  intros Hfrom.
  assert (∀ m1, grpc_clients m1 = grpc_clients m → m_outbox m1 = m_outbox m →
    let m' := forward_to_others from p mid (iter (delete (sc_node_id scx) out)) m1 in
    m_node m' = m_node m1 ∧
    ∀ node_id, node_id ≠ sc_node_id scx →
       sent_to node_id (m_outbox m') = sent_to node_id (m_outbox m) ++
         match out !! node_id with
         | Some rels => if bool_decide (node_id ∈ grpc_clients m) then [ForwardsTo from p rels mid] else []
         | None => []
         end) as Hothers.
  { intros m1 Hc Ho. rewrite forward_to_others_spec, Hc. split; [done|]. intros node_id Hne. simpl. rewrite Ho.
    unfold sent_to at 1. rewrite filter_app, map_app. fold (sent_to node_id (m_outbox m)).
    f_equal. etrans; [apply sent_to_others|]. by rewrite lookup_delete_ne. }
  rewrite (total_split out (sc_node_id scx)). unfold for_node. destruct (out !! sc_node_id scx) as [rels|] eqn:Hout.
  - destruct (forward_here (E := E) mid from p rels m Hfrom) as (errs & m1 & Hrun & Hf & He & Hc & Ho & Hms).
    destruct (Hothers m1 Hc Ho) as [Hn Hs]. eexists errs, _.
    rewrite (bind_ok _ _ _ _ _ Hrun). split; [reflexivity|]. rewrite Hn. by split_and!.
  - destruct (Hothers m eq_refl eq_refl) as [Hn Hs]. eexists [], _. split; [reflexivity|]. rewrite Hn.
    split_and!; [|done..]. split; [done|]. intros tx [o ms] Hl. by rewrite Hl, app_nil_r.
Qed.

(** What another node makes of what it is sent. *)
Lemma received_forward wait from p mid (out : option (list SubRelation)) (connected : bool) (m : Member) :
  id_node_id (from_id from) ≠ sc_node_id scx →
  let rels := if connected then default [] out else [] in
  let m' := receives wait (match out with
                           | Some rels => if connected then [ForwardsTo from p rels mid] else []
                           | None => []
                           end) m in
  forwarded (m_node m) (m_node m') from p rels ∧
  m_outbox m' = m_outbox m ++
    match out with
    | Some rels =>
        if connected then ack_of scx m (id_node_id (from_id from)) mid (sub_relations_to_client_ids rels)
                            (negb (bool_decide (omap (missed_by (m_node m) from p) rels = [])))
        else []
    | None => []
    end.
Proof.
  intros Hne. destruct out as [rels|], connected; simpl;
    try (rewrite app_nil_r; split; [|done]; split; [done|]; intros tx [o ms] Hl; by rewrite Hl, app_nil_r).
  pose proof (member_forwards_to_spec scx from p rels mid m) as Hm.
  unfold state, mbind, M_bind, modify. simpl.
  destruct (member_forwards_to scx from p rels mid m) as [[oks errs] m1]. destruct Hm as (Hf & _ & _ & _ & _ & Ho).
  split; [by apply forwarded_hooks|]. simpl. rewrite Ho. by rewrite (proj2 (Z.eqb_neq _ _) Hne).
Qed.
End Delivery.

Section Claim.
Context `{B : Backend} `{!BackendOk B} `{!HashOrder Z} `{!HashOrderOk Z}.

(** C12: a message to a topic without wildcards that is published on a node is put,
    once per relation and in one order, into the channels of the subscribers of every
    node of the cluster that this node is connected to: on this node at once, on
    another one when it handles the only message that it is sent for it.  The
    relations are exactly those that the replicated router gives each node: its
    subscriptions outside shared groups that want the message, and those of the
    members that are chosen, one in the whole cluster for each filter and group.  If
    all subscribers of a node were reached, they and the members of the groups they
    stand for are marked in the message store of this node, or named in an
    acknowledgement to it; if one was missed, nobody is.  A node without a
    connection gets nothing, and its relations are counted nevertheless. *)
Theorem cluster_delivery (scx : ServerContext) mid from p t (m : Member) :
  let r := router_inner (m_router m) in
  let wants := member (from_id from) (topic (inner p)) r in
  router_routes r → topic_from_str (topic (inner p)) = Ok t → Forall (λ l, is_wildcard l = false) t →
  target_clientid p = None → id_node_id (from_id from) = sc_node_id scx → m_outbox m = [] →
  ∃ choice out errs told m',
    member_forwards scx mid from p m = (Ok (total out, errs), m') ∧
    is_choice (from_id from) (topic (inner p)) r choice ∧
    (∀ node_id, routed (from_id from) (topic (inner p)) r choice node_id (for_node out node_id)) ∧
    forwarded (m_node m) (m_node m') from p (for_node out (sc_node_id scx)) ∧
    map undelivered errs = omap (missed_by (m_node m) from p) (for_node out (sc_node_id scx)) ∧
    served_by wants (λ _, True) (for_node out (sc_node_id scx)) told ∧
    (for_node out (sc_node_id scx) ≠ [] → n_msgs (m_node m') = marked mid told errs (n_msgs (m_node m))) ∧
    (∀ scx2 wait (m2 : Member), sc_node_id scx2 ≠ sc_node_id scx →
       let connected := bool_decide (sc_node_id scx2 ∈ grpc_clients m) in
       let rels := if connected then for_node out (sc_node_id scx2) else [] in
       let m2' := receives scx2 wait (sent_to (sc_node_id scx2) (m_outbox m')) m2 in
       forwarded (m_node m2) (m_node m2') from p rels ∧
       (rels ≠ [] → ∃ told2, served_by wants (λ _, True) rels told2 ∧
          m_outbox m2' = m_outbox m2 ++ ack_of scx2 m2 (sc_node_id scx) mid told2
                           (negb (bool_decide (omap (missed_by (m_node m2) from p) rels = []))))).
Proof.
  intros r wants Hr Ht Hwild Htar Hfrom Hbox.
  destruct (member_matches_spec (from_id from) _ t m Hr Ht Hwild) as (out & st & choice & Hm & Hch & Hro).
  assert (∀ node_id, served_by wants (λ _, True) (for_node out node_id) (sub_relations_to_client_ids (for_node out node_id))) as Htold.
  { intros node_id. apply relations_served. intros rel Hin.
    by destruct (ro_sound _ _ _ _ _ _ (Hro node_id) rel Hin) as (id & _ & _ & Hok). }
  set (m1 := on_m_node (on_n_shared (λ _, st)) m) in *.
  destruct (forward_subscriptions (E := Error) scx mid from p out m1 Hfrom) as (errs & m2 & Hrun & Hf & He & Hb & Hms).
  exists choice, out, errs, (sub_relations_to_client_ids (for_node out (sc_node_id scx))), m2.
  unfold member_forwards. rewrite Htar. unfold forward_to_subscriptions. rewrite (bind_ok _ _ _ _ _ Hm).
  do 7 (split; [done|]). intros scx2 wait m3 Hne. rewrite (Hb _ Hne). change (m_outbox m1) with (m_outbox m). rewrite Hbox.
  destruct (received_forward scx2 wait from p mid (out !! sc_node_id scx2)
    (bool_decide (sc_node_id scx2 ∈ grpc_clients m)) m3) as [Hf2 Ho2]; [congruence|].
  split; [exact Hf2|]. rewrite <-Hfrom. intros Hrels. exists (sub_relations_to_client_ids (for_node out (sc_node_id scx2))).
  simpl. rewrite Ho2. unfold for_node in *.
  destruct (bool_decide (sc_node_id scx2 ∈ grpc_clients m)); [|done]. split; [by apply Htold|].
  by destruct (out !! sc_node_id scx2).
Qed.
End Claim.

(** ** A message to two nodes *)

#[local] Existing Instances map_order map_order_ok.

Definition client_at (node_id : NodeId) (cid : ClientId) : Id := mkId node_id 0 None None cid None 0.

(** Clients c1 and c2 are on node 1, c9 is on node 2; c2 subscribed to a/+, c9 to
    a/b. *)
Definition shared_router : ClusterRouter :=
  on_router_inner (λ _, (run_ops router_exec [RAdd (lit "a/b") (client_at 2 (lit "c9")) sample_sub;
                                              RAdd (lit "a/+") (client_at 1 (lit "c2")) sample_sub] router_new).2)
    (cluster_router_new 0 None).

Definition first_member_of_two : Member := mkMember sample_node shared_router {[2]} [].
Definition second_member_of_two : Member :=
  mkMember (connect (ConnV3 (client_at 2 (lit "c9")) (MqttV3.mkConnect (mkProtocol 4) false 60 None (lit "c9") None None None))
              empty_node).2 shared_router {[1]} [].
Definition second_server : ServerContext :=
  mkServer 2 manager_new 0 100 true true (mkPluginConfig 0 0 None) true None (λ _, [])
    (λ _, []) (λ _, []) (λ _, []).

Lemma shared_router_routes : router_routes (router_inner shared_router).
Proof. apply router_inv_routes, run_ops_inv. Qed.

Lemma cluster_delivery_witness :
  ∃ m', member_forwards sample_server (Some 9) sample_from sample_message first_member_of_two = (Ok (2, []), m') ∧
    n_chans (m_node m') !! 2 = Some (mkChan true [Forward sample_from (for_subscriber sample_message sample_sub None)]) ∧
    let m2 := receives second_server id (sent_to 2 (m_outbox m')) second_member_of_two in
    n_chans (m_node m2) !! 1 = Some (mkChan true [Forward sample_from (for_subscriber sample_message sample_sub None)]) ∧
    m_outbox m2 = [(1, ForwardsToAck 9 2 [(lit "c9", None)])].
Proof.
  destruct (cluster_delivery sample_server (Some 9) sample_from sample_message
    [Normal (lit "a"); Normal (lit "b")] first_member_of_two shared_router_routes eq_refl
    ltac:(repeat constructor) eq_refl eq_refl eq_refl) as (choice & out & errs & told & m' & Hrun & _).
  exists m'. revert Hrun. generalize (total out) as k. intros k Hrun. vm_compute in Hrun. injection Hrun as <- <- <-.
  split; [vm_compute; reflexivity|]. split; [vm_compute; reflexivity|]. split; vm_compute; reflexivity.
Defined.
