(* ===== verification/SledKeys.v ===== *)
(** * Ordered trees of bytes and the keys put into them

    [ferromq-storage/src/storage_sled.rs] keeps key-value pairs, maps and lists in
    the ordered trees of sled.  This file has the interface to those trees, the
    order of byte strings, integers as big-endian bytes, and the keys by which a
    map or a list of some name finds its parts.

    sled is not in the repository: the class [SledTree] has what the code calls,
    and [SledTreeOk] what sled documents of it; an instance over finite maps is at
    the end.  Errors of the disk are not modelled. *)

From stdpp Require Import base list numbers option gmap sorting strings.
From Stdlib Require Import ZArith Lia.
From S2P Require Import Prelude Topic.

#[local] Open Scope Z_scope.

(** ** The order of byte strings *)

Fixpoint bytes_ltb (a b : bytes) : bool :=
  match a, b with
  | _, [] => false
  | [], _ => true
  | x :: a, y :: b => (x <? y) || (x =? y) && bytes_ltb a b
  end.

Definition bytes_lt (a b : bytes) : Prop := bytes_ltb a b = true.

Lemma bytes_lt_cons x y a b : bytes_lt (x :: a) (y :: b) ↔ x < y ∨ x = y ∧ bytes_lt a b.
Proof. unfold bytes_lt. simpl. rewrite orb_true_iff, andb_true_iff, Z.ltb_lt, Z.eqb_eq. done. Qed.

#[export] Instance bytes_lt_irreflexive : Irreflexive bytes_lt.
Proof. intros a. induction a as [|x a IH]; [done|]. intros [?|[_ ?]]%bytes_lt_cons; [lia|by apply IH]. Qed.

#[export] Instance bytes_lt_transitive : Transitive bytes_lt.
Proof.
  intros a. induction a as [|x a IH]; intros [|y b] [|z c]; try done. rewrite !bytes_lt_cons.
  intros [?|[-> Hab]] [?|[-> Hbc]]; [left; lia|left; lia|left; lia|]. right. split; [done|]. by apply (IH b).
Qed.

#[export] Instance bytes_lt_antisymm : AntiSymm (=) bytes_lt.
Proof. intros a b H1 H2. destruct (irreflexivity bytes_lt a). by transitivity b. Qed.

Lemma bytes_lt_total a b : bytes_lt a b ∨ a = b ∨ bytes_lt b a.
Proof.
  revert b. induction a as [|x a IH]; intros [|y b]; [by right; left|by left|by right; right|].
  rewrite !bytes_lt_cons. destruct (Z.lt_trichotomy x y) as [?|[->|?]]; [by left; left| |by right; right; left].
  destruct (IH b) as [?|[->|?]]; [by left; right|by right; left|by right; right; right].
Qed.

Lemma bytes_lt_app p a b : bytes_lt (p ++ a) (p ++ b) ↔ bytes_lt a b.
Proof.
  induction p as [|x p IH]; [done|]. cbn [app]. rewrite bytes_lt_cons, IH. split; [|by right].
  intros [?|[_ ?]]; [lia|done].
Qed.

(** ** Integers as bytes *)

(** [to_be_bytes] of an integer of [n] bytes, signed or not. *)
Fixpoint be_bytes (n : nat) (x : Z) : bytes :=
  match n with O => [] | S n => (x / 256 ^ Z.of_nat n) mod 256 :: be_bytes n x end.

(** [from_be_bytes] of an unsigned integer *)
Definition from_be (bs : bytes) : Z := foldl (λ acc b, acc * 256 + b) 0 bs.

Lemma length_be_bytes n x : length (be_bytes n x) = n.
Proof. induction n as [|n IH]; [done|]. simpl. by rewrite IH. Qed.

Lemma from_be_bytes n x : from_be (be_bytes n x) = x mod 256 ^ Z.of_nat n.
Proof.
  assert (∀ acc, foldl (λ acc b, acc * 256 + b) acc (be_bytes n x) = acc * 256 ^ Z.of_nat n + x mod 256 ^ Z.of_nat n) as H.
  { induction n as [|n IH]; intros acc; [cbn; rewrite Z.mod_1_r; lia|].
    cbn [be_bytes foldl]. rewrite IH. set (P := 256 ^ Z.of_nat n).
    assert (0 < P) by (apply Z.pow_pos_nonneg; lia).
    assert (256 ^ Z.of_nat (S n) = P * 256) as -> by (rewrite Nat2Z.inj_succ, Z.pow_succ_r by lia; subst P; lia).
    rewrite (Z.rem_mul_r x P 256) by lia. lia. }
  unfold from_be. by rewrite H.
Qed.

Lemma be_bytes_inj n x y : 0 ≤ x < 256 ^ Z.of_nat n → 0 ≤ y < 256 ^ Z.of_nat n → be_bytes n x = be_bytes n y → x = y.
Proof.
  intros Hx Hy H. apply (f_equal from_be) in H. rewrite !from_be_bytes in H. by rewrite !Z.mod_small in H.
Qed.

(** Big-endian bytes are ordered as the integers are. *)
Lemma be_bytes_lt n x y : 0 ≤ x → x < y → y < 256 ^ Z.of_nat n → bytes_lt (be_bytes n x) (be_bytes n y).
Proof.
  assert (∀ x y, x mod 256 ^ Z.of_nat n < y mod 256 ^ Z.of_nat n → bytes_lt (be_bytes n x) (be_bytes n y)) as H.
  { clear x y. induction n as [|n IH]; intros x y; [cbn; rewrite !Z.mod_1_r; lia|].
    cbn [be_bytes]. rewrite bytes_lt_cons. set (P := 256 ^ Z.of_nat n) in *.
    assert (0 < P) by (apply Z.pow_pos_nonneg; lia).
    assert (256 ^ Z.of_nat (S n) = P * 256) as -> by (rewrite Nat2Z.inj_succ, Z.pow_succ_r by lia; subst P; lia).
    rewrite !(Z.rem_mul_r _ P 256) by lia. intros Hlt.
    pose proof (Z.mod_pos_bound x P). pose proof (Z.mod_pos_bound y P).
    destruct (Z.lt_trichotomy (x / P mod 256) (y / P mod 256)) as [?|[Heq|?]]; [by left| |nia].
    right. split; [done|]. apply IH. rewrite Heq in Hlt. lia. }
  intros Hx Hxy Hy. apply H. rewrite !Z.mod_small by lia. done.
Qed.

(** ** Trees *)

(** [sled::Tree].  A batch is a list of insertions and removals; [fetch_and_update]
    is a lookup and an insertion or removal. *)
Class SledTree (T : Type) := {
  tree_get : bytes → T → option bytes;
  tree_insert : bytes → bytes → T → option bytes * T;
  tree_remove : bytes → T → option bytes * T;
  tree_scan_prefix : bytes → T → list (bytes * bytes);
  tree_apply_batch : list (bytes * option bytes) → T → T;
  tree_len : T → Z;
}.

Definition batch_map (batch : list (bytes * option bytes)) (m : gmap bytes bytes) : gmap bytes bytes :=
  foldl (λ m op, match op.2 with Some v => <[op.1 := v]> m | None => delete op.1 m end) m batch.

(** A tree is an ordered map; [contents] is the map. *)
Class SledTreeOk (T : Type) `{SledTree T} := {
  contents : T → gmap bytes bytes;
  get_contents k t : tree_get k t = contents t !! k;
  insert_contents k v t :
    (tree_insert k v t).1 = contents t !! k ∧ contents (tree_insert k v t).2 = <[k := v]> (contents t);
  remove_contents k t :
    (tree_remove k t).1 = contents t !! k ∧ contents (tree_remove k t).2 = delete k (contents t);
  scan_sorted p t : StronglySorted bytes_lt (tree_scan_prefix p t).*1;
  scan_elem p t k v : (k, v) ∈ tree_scan_prefix p t ↔ contents t !! k = Some v ∧ p `prefix_of` k;
  batch_contents batch t : contents (tree_apply_batch batch t) = batch_map batch (contents t);
  len_contents t : tree_len t = Z.of_nat (size (contents t));
}.

Section Trees.
Context {T : Type} `{!SledTree T, !SledTreeOk T}.

Lemma insert_get k v (t : T) : (tree_insert k v t).1 = tree_get k t.
Proof. rewrite get_contents. apply insert_contents. Qed.
Lemma contents_insert k v (t : T) : contents (tree_insert k v t).2 = <[k := v]> (contents t).
Proof. apply insert_contents. Qed.
Lemma remove_get k (t : T) : (tree_remove k t).1 = tree_get k t.
Proof. rewrite get_contents. apply remove_contents. Qed.
Lemma contents_remove k (t : T) : contents (tree_remove k t).2 = delete k (contents t).
Proof. apply remove_contents. Qed.

(** A batch of removals. *)
Definition removals (ks : list bytes) : list (bytes * option bytes) := map (λ k, (k, None)) ks.

Lemma batch_removals ks m k : batch_map (removals ks) m !! k = if decide (k ∈ ks) then None else m !! k.
Proof.
  unfold batch_map, removals. revert m. induction ks as [|k' ks IH]; intros m; [done|]. simpl. rewrite IH.
  destruct (decide (k ∈ ks)) as [Hin|Hin]; [rewrite decide_True by set_solver; done|].
  destruct (decide (k = k')) as [->|Hne]; [rewrite decide_True by set_solver; apply lookup_delete_eq|].
  rewrite decide_False by set_solver. by rewrite lookup_delete_ne.
Qed.

(** The keys that a scan yields. *)
Lemma scan_keys p (t : T) k : k ∈ (tree_scan_prefix p t).*1 ↔ is_Some (contents t !! k) ∧ p `prefix_of` k.
Proof.
  rewrite list_elem_of_fmap. split.
  - intros ([k' v] & -> & [? ?]%scan_elem). eauto.
  - intros [[v Hv] Hp]. exists (k, v). split; [done|]. by apply scan_elem.
Qed.

Lemma NoDup_scan p (t : T) : NoDup (tree_scan_prefix p t).
Proof.
  apply (NoDup_fmap_1 fst). pose proof (scan_sorted p t) as Hs.
  induction Hs as [|k l Hs IH Hall]; [constructor|]. constructor; [|done].
  intros Hin. rewrite Forall_forall in Hall. by apply (irreflexivity bytes_lt k), Hall.
Qed.

(** Sorted lists with the same elements are the same. *)
Lemma sorted_scan_unique p (t : T) (l : list (bytes * bytes)) :
  StronglySorted bytes_lt l.*1 → NoDup l →
  (∀ k v, (k, v) ∈ l ↔ contents t !! k = Some v ∧ p `prefix_of` k) → tree_scan_prefix p t = l.
Proof.
  intros Hs Hnd Hl.
  assert (tree_scan_prefix p t ≡ₚ l) as Hp.
  { apply NoDup_Permutation; [apply NoDup_scan|done|]. intros [k v]. by rewrite scan_elem, Hl. }
  assert ((tree_scan_prefix p t).*1 = l.*1) as Hk.
  { apply (StronglySorted_unique bytes_lt); [apply scan_sorted|done|by apply fmap_Permutation]. }
  revert Hk. assert (∀ k v v', (k, v) ∈ tree_scan_prefix p t → (k, v') ∈ l → v = v') as Hv.
  { intros k v v' [H1 _]%scan_elem [H2 _]%Hl. congruence. }
  revert Hv. generalize (tree_scan_prefix p t). clear. intros l'. revert l.
  induction l' as [|[k v] l' IH]; intros [|[k2 v2] l] Hv Hk; try done. simpl in Hk. injection Hk as -> Hk.
  rewrite (Hv k2 v v2) by set_solver. f_equal. apply IH; [|done]. intros k x y ? ?. apply (Hv k); set_solver.
Qed.
End Trees.

(** ** Keys *)

Definition SEPARATOR : bytes := lit "@".
Definition MAP_NAME_PREFIX : bytes := lit "__map@".
Definition MAP_KEY_SEPARATOR : bytes := lit "@__item@".
Definition MAP_KEY_COUNT_SUFFIX : bytes := lit "@__count@".
Definition LIST_NAME_PREFIX : bytes := lit "__list@".
Definition LIST_KEY_COUNT_SUFFIX : bytes := lit "@__count@".
Definition LIST_KEY_CONTENT_SUFFIX : bytes := lit "@__content@".

Definition make_map_prefix_name (name : bytes) : bytes := MAP_NAME_PREFIX ++ name ++ SEPARATOR.
Definition make_map_item_prefix_name (name : bytes) : bytes := MAP_NAME_PREFIX ++ name ++ MAP_KEY_SEPARATOR.
Definition make_map_count_key_name (name : bytes) : bytes := MAP_NAME_PREFIX ++ name ++ MAP_KEY_COUNT_SUFFIX.
(** [make_map_item_key] *)
Definition make_map_item_key (name key : bytes) : bytes := make_map_item_prefix_name name ++ key.

Definition make_list_prefix (name : bytes) : bytes := LIST_NAME_PREFIX ++ name.
Definition make_list_count_key (name : bytes) : bytes := make_list_prefix name ++ LIST_KEY_COUNT_SUFFIX.
Definition make_list_content_prefix (prefix_name : bytes) (idx : option bytes) : bytes :=
  match idx with
  | Some idx => prefix_name ++ LIST_KEY_CONTENT_SUFFIX ++ idx
  | None => prefix_name ++ LIST_KEY_CONTENT_SUFFIX
  end.
Definition make_list_content_key (name : bytes) (idx : Z) : bytes :=
  make_list_content_prefix (make_list_prefix name) (Some (be_bytes 8 idx)).
Definition make_list_content_keys (name : bytes) (start end_ : Z) : list bytes :=
  map (make_list_content_key name) (seqZ start (end_ - start)).

(** Names of which none followed by a separator begins the other.  Names without
    a separator are always apart. *)
Definition apart (n1 n2 : bytes) : Prop :=
  ¬ (n1 ++ SEPARATOR) `prefix_of` n2 ∧ ¬ (n2 ++ SEPARATOR) `prefix_of` n1.

Lemma plain_apart n1 n2 : 64 ∉ n1 → 64 ∉ n2 → apart n1 n2.
Proof. intros H1 H2. split; intros [r ->]; [apply H2|apply H1]; apply elem_of_app; left; apply elem_of_app; right; by left. Qed.

(** The name at the beginning of a key can be read off the key. *)
Lemma apart_prefix n1 n2 r : (n1 = n2 ∨ apart n1 n2) → (n1 ++ SEPARATOR) `prefix_of` (n2 ++ SEPARATOR ++ r) → n1 = n2.
Proof.
  intros [?|[H1 H2]]; [done|]. intros Hp.
  assert (∀ a b : bytes, ¬ (a ++ SEPARATOR) `prefix_of` b → (a ++ SEPARATOR) `prefix_of` (b ++ SEPARATOR) → a = b) as Hc.
  { intros a b Hn [s Hs]. destruct s as [|s0 s _] using rev_ind.
    - rewrite app_nil_r in Hs. by apply app_inj_tail in Hs as [-> _].
    - destruct Hn. exists s. rewrite app_assoc in Hs. by apply app_inj_tail in Hs as [-> _]. }
  rewrite app_assoc in Hp.
  destruct (prefix_weak_total (n1 ++ SEPARATOR) (n2 ++ SEPARATOR) ((n2 ++ SEPARATOR) ++ r)) as [?|?];
    [done|by apply prefix_app_r|by apply Hc|]. symmetry. by apply Hc.
Qed.

Lemma apart_key n1 n2 r1 r2 :
  (n1 = n2 ∨ apart n1 n2) → n1 ++ SEPARATOR ++ r1 = n2 ++ SEPARATOR ++ r2 → n1 = n2 ∧ r1 = r2.
Proof.
  intros Ha He. assert (n1 = n2) as ->; [|by apply app_inv_head in He as [= ->]].
  apply (apart_prefix n1 n2 r2 Ha). exists r1. by rewrite <-He, <-app_assoc.
Qed.

(** The parts of keys behind the name. *)
Lemma item_key_eq n k : make_map_item_key n k = MAP_NAME_PREFIX ++ n ++ SEPARATOR ++ lit "__item@" ++ k.
Proof. unfold make_map_item_key, make_map_item_prefix_name. by rewrite <-!app_assoc. Qed.
Lemma count_key_eq n : make_map_count_key_name n = MAP_NAME_PREFIX ++ n ++ SEPARATOR ++ lit "__count@".
Proof. done. Qed.
Lemma content_key_eq n i : make_list_content_key n i = LIST_NAME_PREFIX ++ n ++ SEPARATOR ++ lit "__content@" ++ be_bytes 8 i.
Proof. unfold make_list_content_key, make_list_content_prefix, make_list_prefix. by rewrite <-!app_assoc. Qed.
Lemma list_count_key_eq n : make_list_count_key n = LIST_NAME_PREFIX ++ n ++ SEPARATOR ++ lit "__count@".
Proof. unfold make_list_count_key, make_list_prefix. by rewrite <-!app_assoc. Qed.

Lemma content_prefix_eq n :
  make_list_content_prefix (make_list_prefix n) None = LIST_NAME_PREFIX ++ n ++ SEPARATOR ++ lit "__content@".
Proof. unfold make_list_content_prefix, make_list_prefix. by rewrite <-!app_assoc. Qed.

Section Apart.
Context (n1 n2 : bytes) (Ha : n1 = n2 ∨ apart n1 n2).

Lemma item_key_inj k1 k2 : make_map_item_key n1 k1 = make_map_item_key n2 k2 ↔ n1 = n2 ∧ k1 = k2.
Proof.
  split; [|by intros [-> ->]]. rewrite !item_key_eq. intros He%app_inv_head.
  apply apart_key in He as [-> He]; [|done]. by apply app_inv_head in He.
Qed.

Lemma item_key_not_count k1 : make_map_item_key n1 k1 ≠ make_map_count_key_name n2.
Proof. rewrite item_key_eq, count_key_eq. intros He%app_inv_head. by apply apart_key in He as [-> He]. Qed.

Lemma count_key_inj : make_map_count_key_name n1 = make_map_count_key_name n2 → n1 = n2.
Proof. rewrite !count_key_eq. intros He%app_inv_head. by apply apart_key in He as [-> _]. Qed.

Lemma map_prefix_item k2 : make_map_prefix_name n1 `prefix_of` make_map_item_key n2 k2 ↔ n1 = n2.
Proof.
  rewrite item_key_eq. unfold make_map_prefix_name. split.
  - intros He%prefix_app_inv. by apply apart_prefix in He.
  - intros ->. apply prefix_app, prefix_app, prefix_app_r. done.
Qed.

Lemma map_prefix_count : make_map_prefix_name n1 `prefix_of` make_map_count_key_name n2 ↔ n1 = n2.
Proof.
  rewrite count_key_eq. unfold make_map_prefix_name. split.
  - intros He%prefix_app_inv. by apply apart_prefix in He.
  - intros ->. apply prefix_app, prefix_app, prefix_app_r. done.
Qed.

Lemma item_prefix_item p k2 :
  make_map_item_key n1 p `prefix_of` make_map_item_key n2 k2 ↔ n1 = n2 ∧ p `prefix_of` k2.
Proof.
  rewrite !item_key_eq. split.
  - intros [r Hr]. rewrite <-!app_assoc in Hr. apply app_inv_head in Hr.
    symmetry in Hr. apply apart_key in Hr as [-> Hr]; [|done]. apply app_inv_head in Hr. split; [done|by exists r].
  - intros [-> Hp]. by do 4 apply prefix_app.
Qed.

Lemma item_prefix_count p : ¬ make_map_item_key n1 p `prefix_of` make_map_count_key_name n2.
Proof.
  rewrite item_key_eq, count_key_eq. intros [r Hr]. rewrite <-!app_assoc in Hr. apply app_inv_head in Hr.
  symmetry in Hr. by apply apart_key in Hr as [-> Hr].
Qed.

Lemma content_key_inj i j : 0 ≤ i < 2 ^ 64 → 0 ≤ j < 2 ^ 64 →
  make_list_content_key n1 i = make_list_content_key n2 j ↔ n1 = n2 ∧ i = j.
Proof.
  intros Hi Hj. split; [|by intros [-> ->]]. rewrite !content_key_eq. intros He%app_inv_head.
  apply apart_key in He as [-> He]; [|done]. apply app_inv_head in He. split; [done|]. by apply (be_bytes_inj 8).
Qed.

Lemma content_key_not_count i : make_list_content_key n1 i ≠ make_list_count_key n2.
Proof. rewrite content_key_eq, list_count_key_eq. intros He%app_inv_head. by apply apart_key in He as [-> He]. Qed.

Lemma list_count_key_inj : make_list_count_key n1 = make_list_count_key n2 → n1 = n2.
Proof. rewrite !list_count_key_eq. intros He%app_inv_head. by apply apart_key in He as [-> _]. Qed.

Lemma content_prefix_content j :
  make_list_content_prefix (make_list_prefix n1) None `prefix_of` make_list_content_key n2 j ↔ n1 = n2.
Proof.
  rewrite content_key_eq, content_prefix_eq. split.
  - intros [r Hr]. rewrite <-!app_assoc in Hr. apply app_inv_head in Hr. symmetry in Hr.
    by apply apart_key in Hr as [-> _].
  - intros ->. do 3 apply prefix_app. by exists (be_bytes 8 j).
Qed.

Lemma content_prefix_count :
  ¬ make_list_content_prefix (make_list_prefix n1) None `prefix_of` make_list_count_key n2.
Proof.
  rewrite list_count_key_eq, content_prefix_eq. intros [r Hr]. rewrite <-!app_assoc in Hr.
  apply app_inv_head in Hr. symmetry in Hr. by apply apart_key in Hr as [-> Hr].
Qed.
End Apart.

(** ** A tree that is a finite map *)

Definition bytes_le (a b : bytes * bytes) : Prop := bytes_ltb b.1 a.1 = false.

#[export] Instance bytes_le_dec : RelDecision bytes_le.
Proof. unfold bytes_le. intros a b. apply _. Defined.

#[export] Instance bytes_le_total : Total bytes_le.
Proof.
  intros [a v] [b w]. unfold bytes_le. simpl. destruct (bytes_ltb b a) eqn:H1; [|by left]. right.
  destruct (bytes_ltb a b) eqn:H2; [|done]. destruct (irreflexivity bytes_lt a). by transitivity b.
Qed.

#[export] Instance bytes_le_trans : Transitive bytes_le.
Proof.
  intros [a ?] [b ?] [c ?]. unfold bytes_le. simpl. intros H1 H2. apply not_true_is_false. intros H3.
  destruct (bytes_lt_total b c) as [?|[->|?]]; unfold bytes_lt in *; [|congruence..].
  assert (bytes_lt b a) by (by transitivity c). unfold bytes_lt in *. congruence.
Qed.

Definition map_scan (p : bytes) (m : gmap bytes bytes) : list (bytes * bytes) :=
  merge_sort bytes_le (filter (λ e, p `prefix_of` e.1) (map_to_list m)).

Lemma map_scan_perm p m : map_scan p m ≡ₚ filter (λ e, p `prefix_of` e.1) (map_to_list m).
Proof. apply merge_sort_Permutation. Qed.

Lemma sorted_strict (l : list (bytes * bytes)) :
  StronglySorted bytes_le l → NoDup l.*1 → StronglySorted bytes_lt l.*1.
Proof.
  induction l as [|[k v] l IH]; intros Hs Hnd; [constructor|].
  apply NoDup_cons in Hnd as [Hk Hnd]. apply StronglySorted_cons in Hs as [Hall Hs].
  constructor; [by apply IH|]. apply Forall_fmap, Forall_forall. intros [k' v'] Hin.
  rewrite Forall_forall in Hall. specialize (Hall _ Hin). unfold bytes_le in Hall. simpl in *.
  destruct (bytes_lt_total k k') as [?|[->|Hlt]]; [done| |unfold bytes_lt in *; congruence].
  destruct Hk. apply list_elem_of_fmap. by exists (k', v').
Qed.

Lemma map_scan_sorted p m : StronglySorted bytes_lt (map_scan p m).*1.
Proof.
  apply sorted_strict; [apply (StronglySorted_merge_sort bytes_le)|].
  rewrite map_scan_perm. eapply sublist_NoDup; [apply (NoDup_fst_map_to_list m)|].
  apply fmap_sublist, sublist_filter.
Qed.

#[export] Instance gmap_tree : SledTree (gmap bytes bytes) := {|
  tree_get k m := m !! k;
  tree_insert k v m := (m !! k, <[k := v]> m);
  tree_remove k m := (m !! k, delete k m);
  tree_scan_prefix := map_scan;
  tree_apply_batch := batch_map;
  tree_len m := Z.of_nat (size m);
|}.

#[export] Instance gmap_tree_ok : SledTreeOk (gmap bytes bytes).
Proof.
  refine {| contents := id |}; try done.
  - apply map_scan_sorted.
  - intros p m k v. simpl. rewrite map_scan_perm, list_elem_of_filter, elem_of_map_to_list. simpl. tauto.
Defined.
