(* ===== verification/Sled.v ===== *)
(** * The storage on disk

    [ferromq-storage/src/storage_sled.rs] with the feature [ttl], as the plugins
    build it (without [map_len]): key-value pairs, maps and lists in the trees of
    sled, and deadlines after which a key, a map or a list is gone.  One task
    takes the commands of all handles from a channel and runs them one by one, so
    each command is an atomic step ([exec]).

    A deadline is in two trees: [key_expire_tree] from the key to its deadline,
    which reads consult, and [expire_key_tree] ordered by deadline, by which
    [cleanup] finds what to remove.  The code runs [cleanup] in a task of its own;
    here it is one step between two commands.  The clock stands still during a
    command, and an iterator is read to its end before the next one. *)

From stdpp Require Import base list numbers option gmap strings.
From Stdlib Require Import ZArith Lia.
From S2P Require Import Prelude Topic Counter Postcard SledKeys.

#[local] Open Scope Z_scope.

Module KeyType.
Inductive KeyType : Type := KV | Map | List.

Definition encode (t : KeyType) : bytes :=
  match t with KV => [1] | Map => [2] | List => [3] end.
Definition decode (v : bytes) : option KeyType :=
  match v with
  | [] => None
  | b :: _ => if b =? 1 then Some KV else if b =? 2 then Some Map else if b =? 3 then Some List else None
  end.
End KeyType.
Export KeyType (KeyType).

(** Errors of [anyhow]: bytes that are no integer or no value, a full list. *)
Inductive StorageError : Type := TryFromSlice | PostcardError | IsFull.

(** [TimestampMillis::from_be_bytes(v.try_into()?)], and the same of [isize] *)
Definition from_be_i64 (v : bytes) : option Z :=
  if bool_decide (length v = 8%nat) then Some (as_isize (from_be v)) else None.

(** [SledStorageMap]; [map_empty] is the flag that the clones of a handle share. *)
Record SledStorageMap : Type := mkMap { map_name : bytes; map_empty : Z }.
Record SledStorageList : Type := mkList { list_name : bytes }.

Section Sled.
Context {T : Type} `{!SledTree T} `{!Postcard (Z * Z)} (checks : bool).

(** [SledStorageDBInner], with the flags of the handles to maps. *)
Record SledStorageDB : Type := mkDB {
  db : T;
  kv_tree : T;
  map_tree : T;
  list_tree : T;
  expire_key_tree : T;
  key_expire_tree : T;
  empties : gmap Z bool;
  next_flag : Z;
}.

Definition on_kv_tree (f : T → T) (d : SledStorageDB) : SledStorageDB :=
  mkDB (db d) (f (kv_tree d)) (map_tree d) (list_tree d) (expire_key_tree d) (key_expire_tree d) (empties d) (next_flag d).
Definition on_map_tree (f : T → T) (d : SledStorageDB) : SledStorageDB :=
  mkDB (db d) (kv_tree d) (f (map_tree d)) (list_tree d) (expire_key_tree d) (key_expire_tree d) (empties d) (next_flag d).
Definition on_list_tree (f : T → T) (d : SledStorageDB) : SledStorageDB :=
  mkDB (db d) (kv_tree d) (map_tree d) (f (list_tree d)) (expire_key_tree d) (key_expire_tree d) (empties d) (next_flag d).
Definition on_expire_key_tree (f : T → T) (d : SledStorageDB) : SledStorageDB :=
  mkDB (db d) (kv_tree d) (map_tree d) (list_tree d) (f (expire_key_tree d)) (key_expire_tree d) (empties d) (next_flag d).
Definition on_key_expire_tree (f : T → T) (d : SledStorageDB) : SledStorageDB :=
  mkDB (db d) (kv_tree d) (map_tree d) (list_tree d) (expire_key_tree d) (f (key_expire_tree d)) (empties d) (next_flag d).
Definition set_empty (h : SledStorageMap) (e : bool) (d : SledStorageDB) : SledStorageDB :=
  mkDB (db d) (kv_tree d) (map_tree d) (list_tree d) (expire_key_tree d) (key_expire_tree d)
    (<[map_empty h := e]> (empties d)) (next_flag d).

Abbreviation SM := (M SledStorageDB StorageError).

(** Operations on a tree, by the way to it. *)
Definition insert_at (on : (T → T) → SledStorageDB → SledStorageDB) (key val : bytes) : SM unit :=
  modify (on (λ t, (tree_insert key val t).2)).
Definition remove_at (on : (T → T) → SledStorageDB → SledStorageDB) (key : bytes) : SM unit :=
  modify (on (λ t, (tree_remove key t).2)).
Definition batch_at (on : (T → T) → SledStorageDB → SledStorageDB) (batch : list (bytes * option bytes)) : SM unit :=
  modify (on (tree_apply_batch batch)).
Definition take_at (get : SledStorageDB → T) (on : (T → T) → SledStorageDB → SledStorageDB) (key : bytes)
    : SM (option bytes) :=
  v ← asks (λ d, tree_get key (get d)); remove_at on key;; mret v.
Definition contains_at (get : SledStorageDB → T) (key : bytes) : SM bool :=
  asks (λ d, is_some (tree_get key (get d))).

(** *** Deadlines *)

Definition I64_MAX : Z := 2 ^ 63 - 1.

Definition _kv_contains_key (key : bytes) : SM bool := contains_at kv_tree key.
Definition _map_contains_key (key : bytes) : SM bool := contains_at map_tree (make_map_count_key_name key).
Definition _list_contains_key (name : bytes) : SM bool := contains_at list_tree (make_list_count_key name).
Definition _contains_key (key : bytes) (key_type : KeyType) : SM bool :=
  match key_type with
  | KeyType.KV => _kv_contains_key key
  | KeyType.Map => _map_contains_key key
  | KeyType.List => _list_contains_key key
  end.

Definition _remove_expire_key (key : bytes) : SM unit :=
  expire_at_bytes ← asks (λ d, tree_get key (key_expire_tree d));
  match expire_at_bytes with
  | Some at_bytes =>
      remove_at on_key_expire_tree key;;
      remove_at on_expire_key_tree (at_bytes ++ key)
  | None => mret tt
  end.

Definition _ttl_at (c_key : bytes) (contains_key_f : SM bool) : SM (option (Z * option bytes)) :=
  at_bytes ← asks (λ d, tree_get c_key (key_expire_tree d));
  contained ← contains_key_f;
  match at_bytes with
  | Some at_bytes =>
      if contained : bool then
        at_ ← ok_or (from_be_i64 at_bytes) TryFromSlice;
        mret (Some (at_, Some at_bytes))
      else mret None
  | None => mret (if contained then Some (I64_MAX, None) else None)
  end.

Definition _is_expired (now : Z) (key : bytes) (contains_key_f : SM bool) : SM bool :=
  ttl ← _ttl_at key contains_key_f;
  mret (match ttl with Some (expire_at, _) => expire_at <=? now | None => true end).

(** An operation on machine integers, whose overflow is a panic in a checked
    build. *)
Definition arith (o : option Z) : SM Z := match o with Some n => mret n | None => panic end.

Definition _ttl (now : Z) (key : bytes) (contains_key_f : SM bool) : SM (option (Z * option bytes)) :=
  ttl ← _ttl_at key contains_key_f;
  match ttl with
  | Some (expire_at, at_bytes) => n ← arith (sub_i64 checks expire_at now); mret (Some (n, at_bytes))
  | None => mret None
  end.

(** What is left of a positive time. *)
Definition positive_ttl (ttl : option (Z * option bytes)) : option Z :=
  match ttl with Some (n, _) => if 0 <? n then Some n else None | None => None end.

Definition _non_tx_expire_at (key : bytes) (at_ : Z) (key_type : KeyType) : SM bool :=
  let at_bytes := be_bytes 8 at_ in
  insert_at on_key_expire_tree key at_bytes;;
  res ← asks (λ d, tree_get (at_bytes ++ key) (expire_key_tree d));
  insert_at on_expire_key_tree (at_bytes ++ key) (KeyType.encode key_type);;
  mret (negb (is_some res)).

Definition _expire_at (key : bytes) (at_ : Z) (key_type : KeyType) : SM bool :=
  contained ← _contains_key key key_type;
  if contained : bool then _non_tx_expire_at key at_ key_type else mret false.

(** *** Key-value pairs *)

Definition _insert (key val : bytes) : SM unit :=
  insert_at on_kv_tree key val;;
  expire_at_bytes ← asks (λ d, tree_get key (key_expire_tree d));
  match expire_at_bytes with
  | Some at_bytes =>
      remove_at on_expire_key_tree (at_bytes ++ key);;
      remove_at on_key_expire_tree key
  | None => mret tt
  end.

Definition _get (now : Z) (key : bytes) : SM (option bytes) :=
  expired ← _is_expired now key (_kv_contains_key key);
  if expired : bool then mret None else asks (λ d, tree_get key (kv_tree d)).

Definition _kv_remove (key : bytes) : SM unit :=
  remove_at on_kv_tree key;; _remove_expire_key key.

Definition _self_contains_key (now : Z) (key : bytes) : SM bool :=
  expired ← _is_expired now key (_kv_contains_key key); mret (negb expired).
Definition _self_map_contains_key (now : Z) (key : bytes) : SM bool :=
  expired ← _is_expired now key (_map_contains_key key); mret (negb expired).
Definition _self_list_contains_key (now : Z) (key : bytes) : SM bool :=
  expired ← _is_expired now key (_list_contains_key key); mret (negb expired).

(** The loop of [_batch_insert] over the keys: what is removed from
    [key_expire_tree] and from [expire_key_tree]. *)
Fixpoint expired_of (now : Z) (key_vals : list (bytes * bytes)) : SM (list bytes * list bytes) :=
  match key_vals with
  | [] => mret ([], [])
  | (k, _) :: rest =>
      ttl ← _ttl now k (_kv_contains_key k);
      '(ks, es) ← expired_of now rest;
      mret (match ttl with
            | Some (expire_at, Some at_bytes) =>
                if expire_at <=? 0 then (k :: ks, (at_bytes ++ k) :: es) else (ks, es)
            | _ => (ks, es)
            end)
  end.

Definition _batch_insert (now : Z) (key_vals : list (bytes * bytes)) : SM unit :=
  match key_vals with
  | [] => mret tt
  | _ =>
      '(ks, es) ← expired_of now key_vals;
      batch_at on_key_expire_tree (removals ks);;
      batch_at on_expire_key_tree (removals es);;
      batch_at on_kv_tree (map (λ kv, (kv.1, Some kv.2)) key_vals)
  end.

Definition _batch_remove (keys : list bytes) : SM unit :=
  match keys with
  | [] => mret tt
  | _ =>
      d ← get_state;
      let with_deadline := omap (λ k, (λ at_bytes, (k, at_bytes ++ k)) <$> tree_get k (key_expire_tree d)) keys in
      batch_at on_key_expire_tree (removals with_deadline.*1);;
      batch_at on_expire_key_tree (removals with_deadline.*2);;
      batch_at on_kv_tree (removals keys)
  end.

(** [isize] addition of the closures *)
Definition counter_update (f : option Z → option Z) (key : bytes) : SM unit :=
  old ← asks (λ d, tree_get key (kv_tree d));
  number ← arith (f (old ≫= from_be_i64));
  insert_at on_kv_tree key (be_bytes 8 number).

Definition _counter_incr (key : bytes) (increment : Z) : SM unit :=
  counter_update (λ old, match old with Some n => add_i64 checks n increment | None => Some increment end) key.
Definition _counter_decr (key : bytes) (decrement : Z) : SM unit :=
  counter_update (λ old, match old with
                         | Some n => sub_i64 checks n decrement
                         | None => sub_i64 checks 0 decrement
                         end) key.
Definition _counter_get (now : Z) (key : bytes) : SM (option Z) :=
  expired ← _is_expired now key (_kv_contains_key key);
  if expired : bool then mret None
  else
    v ← asks (λ d, tree_get key (kv_tree d));
    match v with
    | Some v => n ← ok_or (from_be_i64 v) TryFromSlice; mret (Some n)
    | None => mret None
    end.
Definition _counter_set (key : bytes) (val : Z) : SM unit :=
  _remove_expire_key key;; insert_at on_kv_tree key (be_bytes 8 val).

Definition _self_ttl (now : Z) (key : bytes) : SM (option Z) :=
  ttl ← _ttl now key (_kv_contains_key key); mret (positive_ttl ttl).

Definition _kv_len : SM Z := asks (λ d, tree_len (kv_tree d)).
Definition _db_size : SM Z :=
  asks (λ d, tree_len (db d) + tree_len (kv_tree d) + tree_len (map_tree d) + tree_len (list_tree d)).

(** *** Maps *)

(** [SledStorageMap::_new]: a handle whose flag says that the map is empty. *)
Definition _map (name : bytes) : SM SledStorageMap := λ d,
  let h := mkMap name (next_flag d) in
  (Ok h, mkDB (db d) (kv_tree d) (map_tree d) (list_tree d) (expire_key_tree d) (key_expire_tree d)
           (<[next_flag d := true]> (empties d)) (next_flag d + 1)).

Section Maps.
Context (m : SledStorageMap).

Definition map_is_expired (now : Z) : SM bool :=
  _is_expired now (map_name m) (_map_contains_key (map_name m)).

Definition map_make_clear_batch : SM (list (bytes * option bytes)) :=
  asks (λ d, removals (tree_scan_prefix (make_map_prefix_name (map_name m)) (map_tree d)).*1).

Definition map_clear : SM unit :=
  batch ← map_make_clear_batch;
  batch_at on_map_tree batch;;
  modify (set_empty m true).

Definition _counter_init : SM unit :=
  contained ← contains_at map_tree (make_map_count_key_name (map_name m));
  if contained : bool then mret tt
  else insert_at on_map_tree (make_map_count_key_name (map_name m)) (be_bytes 8 0).

Definition map_insert (now : Z) (key val : bytes) : SM unit :=
  empty ← asks (λ d, default false (empties d !! map_empty m));
  (if empty : bool then _counter_init;; modify (set_empty m false) else mret tt);;
  insert_at on_map_tree (make_map_item_key (map_name m) key) val;;
  expired ← map_is_expired now;
  if expired : bool then _remove_expire_key (map_name m) else mret tt.

Definition map_get (now : Z) (key : bytes) : SM (option bytes) :=
  expired ← map_is_expired now;
  if expired : bool then mret None
  else asks (λ d, tree_get (make_map_item_key (map_name m) key) (map_tree d)).

Definition map_remove_key (key : bytes) : SM unit := remove_at on_map_tree (make_map_item_key (map_name m) key).

Definition map_contains (key : bytes) : SM bool := contains_at map_tree (make_map_item_key (map_name m) key).

Definition map_scan_items : SM (list (bytes * bytes)) :=
  asks (λ d, tree_scan_prefix (make_map_item_prefix_name (map_name m)) (map_tree d)).

Definition map_is_empty (now : Z) : SM bool :=
  expired ← map_is_expired now;
  if expired : bool then mret true
  else items ← map_scan_items; mret (match items with [] => true | _ => false end).

Definition map_remove_and_fetch (now : Z) (key : bytes) : SM (option bytes) :=
  expired ← map_is_expired now;
  if expired : bool then mret None
  else take_at map_tree on_map_tree (make_map_item_key (map_name m) key).

Definition map_remove_with_prefix (prefix : bytes) : SM unit :=
  items ← asks (λ d, tree_scan_prefix (make_map_item_prefix_name (map_name m) ++ prefix) (map_tree d));
  batch_at on_map_tree (removals items.*1).

Definition map_batch_insert (now : Z) (key_vals : list (bytes * bytes)) : SM unit :=
  for_each (λ '(k, v), map_insert now k v) key_vals.
Definition map_batch_remove (keys : list bytes) : SM unit := for_each map_remove_key keys.

Definition map_expire_at (at_ : Z) : SM bool := _expire_at (map_name m) at_ KeyType.Map.
Definition map_ttl (now : Z) : SM (option Z) :=
  ttl ← _ttl now (map_name m) (_map_contains_key (map_name m)); mret (positive_ttl ttl).

(** The items of [iter] and, with a prefix, of [prefix_iter]: the name of the map
    is cut off their keys. *)
Definition map_iter (now : Z) (prefix : option bytes) : SM (list (bytes * bytes)) :=
  expired ← map_is_expired now;
  if expired : bool then mret []
  else
    items ← asks (λ d, tree_scan_prefix (make_map_item_prefix_name (map_name m) ++ default [] prefix) (map_tree d));
    mret (map (λ kv, (drop (length (make_map_item_prefix_name (map_name m))) kv.1, kv.2)) items).
End Maps.

(** [SledStorageMap::_new_expire]; its errors are logged. *)
Definition map_new_expire (now : Z) (name : bytes) (expire_ms : option Z) : SM SledStorageMap :=
  m ← _map name;
  empty ← attempt (map_is_empty m now);
  (match empty with Ok e => modify (set_empty m e) | _ => mret tt end);;
  match expire_ms with
  | Some ms =>
      at_ ← arith (add_i64 checks now ms);
      _ ← attempt (E' := StorageError) (map_expire_at m at_);
      mret m
  | None => mret m
  end.

(** [_map_remove] of the database *)
Definition _map_remove (name : bytes) : SM unit :=
  m ← _map name;
  batch ← map_make_clear_batch m;
  batch_at on_map_tree batch;;
  _remove_expire_key name.

(** *** Lists *)

Section Lists.
Context (l : SledStorageList).

Definition list_is_expired (now : Z) : SM bool :=
  _is_expired now (list_name l) (_list_contains_key (list_name l)).

(** The index before the first element and the index of the last. *)
Definition list_count_get : SM (Z * Z) :=
  v ← asks (λ d, tree_get (make_list_count_key (list_name l)) (list_tree d));
  match v with
  | Some v => ok_or (from_bytes v) PostcardError
  | None => mret (0, 0)
  end.

Definition list_count_set (start end_ : Z) : SM unit :=
  count_bytes ← ok_or (to_stdvec (start, end_)) PostcardError;
  insert_at on_list_tree (make_list_count_key (list_name l)) count_bytes.

Definition content_prefix : bytes := make_list_content_prefix (make_list_prefix (list_name l)) None.

(** [_make_clear_batch] and [_clear], which do the same *)
Definition list_make_clear_batch : SM (list (bytes * option bytes)) :=
  asks (λ d, removals (make_list_count_key (list_name l) :: (tree_scan_prefix content_prefix (list_tree d)).*1)).
Definition list_clear : SM unit := batch ← list_make_clear_batch; batch_at on_list_tree batch.

(** The end of every push. *)
Definition list_renew (now : Z) : SM unit :=
  expired ← list_is_expired now;
  if expired : bool then _remove_expire_key (list_name l) else mret tt.

(** The element at the new end. *)
Definition list_append (start end_ : Z) (data : bytes) : SM unit :=
  end_ ← arith (add_usize checks end_ 1);
  list_count_set start end_;;
  insert_at on_list_tree (make_list_content_key (list_name l) end_) data.

Definition list_push (now : Z) (data : bytes) : SM unit :=
  '(start, end_) ← list_count_get;
  list_append start end_ data;;
  list_renew now.

Definition list_pushs (now : Z) (vals : list bytes) : SM unit :=
  match vals with
  | [] => mret tt
  | _ =>
      '(start, end_) ← list_count_get;
      from ← arith (add_usize checks end_ 1);
      last ← arith (add_usize checks end_ (len vals));
      to ← arith (add_usize checks last 1);
      list_count_set start last;;
      batch_at on_list_tree
        (zip_with (λ k v, (k, Some v)) (make_list_content_keys (list_name l) from to) vals);;
      list_renew now
  end.

Definition list_push_limit (now : Z) (data : bytes) (limit : Z) (pop_front_if_limited : bool) : SM (option bytes) :=
  '(start, end_) ← list_count_get;
  count ← arith (sub_usize checks end_ start);
  removed ←
    (if count <? limit then list_append start end_ data;; mret None
     else if pop_front_if_limited then
       first ← arith (add_usize checks start 1);
       removed ← take_at list_tree on_list_tree (make_list_content_key (list_name l) first);
       list_append (if is_some removed then first else start) end_ data;;
       mret removed
     else err IsFull);
  list_renew now;;
  mret removed.

Definition list_pop (now : Z) : SM (option bytes) :=
  expired ← list_is_expired now;
  if expired : bool then mret None
  else
    '(start, end_) ← list_count_get;
    count ← arith (sub_usize checks end_ start);
    if 0 <? count then
      first ← arith (add_usize checks start 1);
      removed ← take_at list_tree on_list_tree (make_list_content_key (list_name l) first);
      match removed with
      | Some v => list_count_set first end_;; mret (Some v)
      | None => mret None
      end
    else mret None.

(** [_all], and what [iter] yields *)
Definition list_all (now : Z) : SM (list bytes) :=
  expired ← list_is_expired now;
  if expired : bool then mret []
  else asks (λ d, (tree_scan_prefix content_prefix (list_tree d)).*2).

Definition list_get_index (now : Z) (idx : Z) : SM (option bytes) :=
  expired ← list_is_expired now;
  if expired : bool then mret None
  else
    '(start, end_) ← list_count_get;
    count ← arith (sub_usize checks end_ start);
    if idx <? count then
      i ← arith (add_usize checks start idx);
      i ← arith (add_usize checks i 1);
      asks (λ d, tree_get (make_list_content_key (list_name l) i) (list_tree d))
    else mret None.

Definition list_len (now : Z) : SM Z :=
  expired ← list_is_expired now;
  if expired : bool then mret 0
  else '(start, end_) ← list_count_get; arith (sub_usize checks end_ start).

Definition list_is_empty (now : Z) : SM bool :=
  expired ← list_is_expired now;
  if expired : bool then mret true
  else asks (λ d, match tree_scan_prefix content_prefix (list_tree d) with [] => true | _ => false end).

Definition list_expire_at (at_ : Z) : SM bool := _expire_at (list_name l) at_ KeyType.List.
Definition list_ttl (now : Z) : SM (option Z) :=
  ttl ← _ttl now (list_name l) (_list_contains_key (list_name l)); mret (positive_ttl ttl).
End Lists.

(** [SledStorageList::_new_expire] *)
Definition list_new_expire (now : Z) (name : bytes) (expire_ms : option Z) : SM SledStorageList :=
  let l := mkList name in
  match expire_ms with
  | Some ms =>
      at_ ← arith (add_i64 checks now ms);
      _ ← attempt (E' := StorageError) (list_expire_at l at_);
      mret l
  | None => mret l
  end.

(** [_list_remove] of the database *)
Definition _list_remove (name : bytes) : SM unit :=
  list_clear (mkList name);; _remove_expire_key name.

(** *** Cleaning up *)

(** The first loop of [cleanup]: the entries that are due and their types. *)
Fixpoint due_entries (now limit count : Z) (items : list (bytes * bytes))
    : outcome StorageError (list (bytes * KeyType)) :=
  match items with
  | [] => Ok []
  | (expire_at_key, key_type) :: rest =>
      if limit <? count then Ok []
      else if len expire_at_key <? 8 then Panic
      else if now <? as_isize (from_be (take 8 expire_at_key)) then Ok []
      else
        match KeyType.decode key_type with
        | None => Ok []
        | Some t => outcome_map (cons (expire_at_key, t)) (due_entries now limit (count + 1) rest)
        end
  end.

Definition remove_due (key : bytes) (typ : KeyType) : SM unit :=
  match typ with
  | KeyType.Map => m ← _map key; map_clear m
  | KeyType.List => list_clear (mkList key)
  | KeyType.KV => remove_at on_kv_tree key
  end.

Definition cleanup (now limit : Z) : SM Z :=
  items ← asks (λ d, tree_scan_prefix [] (expire_key_tree d));
  entries ← lift (due_entries now limit 0 items);
  for_each (λ '(expire_at_key, t), remove_due (drop 8 expire_at_key) t) entries;;
  batch_at on_key_expire_tree (removals (map (λ e : bytes * KeyType, drop 8 e.1) entries));;
  batch_at on_expire_key_tree (removals entries.*1);;
  mret (len entries).

(** *** Commands *)

Inductive Command : Type :=
| DBInsert (key val : bytes)
| DBGet (key : bytes)
| DBRemove (key : bytes)
| DBMapNew (name : bytes) (expire_ms : option Z)
| DBMapRemove (name : bytes)
| DBMapContainsKey (key : bytes)
| DBListNew (name : bytes) (expire_ms : option Z)
| DBListRemove (name : bytes)
| DBListContainsKey (key : bytes)
| DBBatchInsert (key_vals : list (bytes * bytes))
| DBBatchRemove (keys : list bytes)
| DBCounterIncr (key : bytes) (increment : Z)
| DBCounterDecr (key : bytes) (decrement : Z)
| DBCounterGet (key : bytes)
| DBCounterSet (key : bytes) (val : Z)
| DBContainsKey (key : bytes)
| DBExpireAt (key : bytes) (at_ : Z)
| DBTtl (key : bytes)
| DBLen
| MapInsert (m : SledStorageMap) (key val : bytes)
| MapGet (m : SledStorageMap) (key : bytes)
| MapRemove (m : SledStorageMap) (key : bytes)
| MapContainsKey (m : SledStorageMap) (key : bytes)
| MapIsEmpty (m : SledStorageMap)
| MapClear (m : SledStorageMap)
| MapRemoveAndFetch (m : SledStorageMap) (key : bytes)
| MapRemoveWithPrefix (m : SledStorageMap) (prefix : bytes)
| MapBatchInsert (m : SledStorageMap) (key_vals : list (bytes * bytes))
| MapBatchRemove (m : SledStorageMap) (keys : list bytes)
| MapExpireAt (m : SledStorageMap) (at_ : Z)
| MapTTL (m : SledStorageMap)
| MapIter (m : SledStorageMap) (prefix : option bytes)
| ListPush (l : SledStorageList) (val : bytes)
| ListPushs (l : SledStorageList) (vals : list bytes)
| ListPushLimit (l : SledStorageList) (val : bytes) (limit : Z) (pop_front_if_limited : bool)
| ListPop (l : SledStorageList)
| ListAll (l : SledStorageList)
| ListGetIndex (l : SledStorageList) (idx : Z)
| ListLen (l : SledStorageList)
| ListIsEmpty (l : SledStorageList)
| ListClear (l : SledStorageList)
| ListExpireAt (l : SledStorageList) (at_ : Z)
| ListTTL (l : SledStorageList)
| Cleanup (limit : Z).

Inductive Reply : Type :=
| RUnit
| RBool (b : bool)
| RSize (n : Z)
| RInt (n : option Z)
| RVal (v : option bytes)
| RVals (vs : list bytes)
| RItems (kvs : list (bytes * bytes))
| RMap (m : SledStorageMap)
| RList (l : SledStorageList).

Definition reply {A} (f : A → Reply) (m : SM A) : SM Reply := a ← m; mret (f a).
Definition done (m : SM unit) : SM Reply := m;; mret RUnit.

(** The loop of the task over its commands, one turn at the time [now].  An
    iterator, here [MapIter], asks for its items one by one; the clean-up runs in a
    thread of its own. *)
Definition exec (now : Z) (cmd : Command) : SM Reply :=
  match cmd with
  | DBInsert key val => done (_insert key val)
  | DBGet key => reply RVal (_get now key)
  | DBRemove key => done (_kv_remove key)
  | DBMapNew name expire_ms => reply RMap (map_new_expire now name expire_ms)
  | DBMapRemove name => done (_map_remove name)
  | DBMapContainsKey key => reply RBool (_self_map_contains_key now key)
  | DBListNew name expire_ms => reply RList (list_new_expire now name expire_ms)
  | DBListRemove name => done (_list_remove name)
  | DBListContainsKey key => reply RBool (_self_list_contains_key now key)
  | DBBatchInsert key_vals => done (_batch_insert now key_vals)
  | DBBatchRemove keys => done (_batch_remove keys)
  | DBCounterIncr key increment => done (_counter_incr key increment)
  | DBCounterDecr key decrement => done (_counter_decr key decrement)
  | DBCounterGet key => reply RInt (_counter_get now key)
  | DBCounterSet key val => done (_counter_set key val)
  | DBContainsKey key => reply RBool (_self_contains_key now key)
  | DBExpireAt key at_ => reply RBool (_expire_at key at_ KeyType.KV)
  | DBTtl key => reply RInt (_self_ttl now key)
  | DBLen => reply RSize _kv_len
  | MapInsert m key val => done (map_insert m now key val)
  | MapGet m key => reply RVal (map_get m now key)
  | MapRemove m key => done (map_remove_key m key)
  | MapContainsKey m key => reply RBool (map_contains m key)
  | MapIsEmpty m => reply RBool (map_is_empty m now)
  | MapClear m => done (map_clear m)
  | MapRemoveAndFetch m key => reply RVal (map_remove_and_fetch m now key)
  | MapRemoveWithPrefix m prefix => done (map_remove_with_prefix m prefix)
  | MapBatchInsert m key_vals => done (map_batch_insert m now key_vals)
  | MapBatchRemove m keys => done (map_batch_remove m keys)
  | MapExpireAt m at_ => reply RBool (map_expire_at m at_)
  | MapTTL m => reply RInt (map_ttl m now)
  | MapIter m prefix => reply RItems (map_iter m now prefix)
  | ListPush l val => done (list_push l now val)
  | ListPushs l vals => done (list_pushs l now vals)
  | ListPushLimit l val limit pop => reply RVal (list_push_limit l now val limit pop)
  | ListPop l => reply RVal (list_pop l now)
  | ListAll l => reply RVals (list_all l now)
  | ListGetIndex l idx => reply RVal (list_get_index l now idx)
  | ListLen l => reply RSize (list_len l now)
  | ListIsEmpty l => reply RBool (list_is_empty l now)
  | ListClear l => done (list_clear l)
  | ListExpireAt l at_ => reply RBool (list_expire_at l at_)
  | ListTTL l => reply RInt (list_ttl l now)
  | Cleanup limit => reply RSize (cleanup now limit)
  end.

(** Commands at their times.  In a build that checks for overflow a [Panic] ends the
    task, and nobody answers the commands behind it; what [run] says of those is
    for builds that wrap around, where no command panics for an overflow. *)
Fixpoint run (cmds : list (Z * Command)) (d : SledStorageDB) : list (outcome StorageError Reply) * SledStorageDB :=
  match cmds with
  | [] => ([], d)
  | (now, cmd) :: cmds =>
      let '(o, d) := exec now cmd d in
      let '(os, d) := run cmds d in
      (o :: os, d)
  end.
End Sled.
