(* ===== verification/SledStore.v ===== *)
(** * What the storage on disk promises

    A [Store] has the key-value pairs, the items of each map, the elements of each
    list in order, and the deadlines, without the keys and the trees by which
    [Sled] keeps them; [apply] says what a command answers and does.  The theorem
    is that every run of [Sled] on names that are kept apart is one of the
    [Store].

    The store is the code's, with its surprises: a deadline belongs to a name, and
    a pair, a map and a list of one name share it; a new deadline leaves the entry
    of the old one among those that are due; an insertion into an expired map or
    list brings back what was in it; a map whose handle thinks that it is not empty
    is not created again after it was removed. *)

From stdpp Require Import base list numbers option gmap sorting strings.
From Stdlib Require Import ZArith Lia.
From S2P Require Import Prelude Topic Counter Postcard SledKeys Sled.

#[local] Open Scope Z_scope.

(** ** The store *)

Record Store : Type := mkStore {
  s_kv : gmap bytes bytes;
  s_items : gmap bytes (gmap bytes bytes);
  s_maps : gset bytes;
  s_lists : gmap bytes (list bytes);
  s_deadlines : gmap bytes Z;
  s_due : gmap (Z * bytes) KeyType;
  s_empties : gmap Z bool;
  s_next : Z;
}.

Definition store_new : Store := mkStore ∅ ∅ ∅ ∅ ∅ ∅ ∅ 0.

Definition on_kv f (s : Store) : Store :=
  mkStore (f (s_kv s)) (s_items s) (s_maps s) (s_lists s) (s_deadlines s) (s_due s) (s_empties s) (s_next s).
Definition on_items f (s : Store) : Store :=
  mkStore (s_kv s) (f (s_items s)) (s_maps s) (s_lists s) (s_deadlines s) (s_due s) (s_empties s) (s_next s).
Definition on_maps f (s : Store) : Store :=
  mkStore (s_kv s) (s_items s) (f (s_maps s)) (s_lists s) (s_deadlines s) (s_due s) (s_empties s) (s_next s).
Definition on_lists f (s : Store) : Store :=
  mkStore (s_kv s) (s_items s) (s_maps s) (f (s_lists s)) (s_deadlines s) (s_due s) (s_empties s) (s_next s).
Definition on_deadlines f g (s : Store) : Store :=
  mkStore (s_kv s) (s_items s) (s_maps s) (s_lists s) (f (s_deadlines s)) (g (s_due s)) (s_empties s) (s_next s).
Definition on_empties f (s : Store) : Store :=
  mkStore (s_kv s) (s_items s) (s_maps s) (s_lists s) (s_deadlines s) (s_due s) (f (s_empties s)) (s_next s).

(** The items of a map, whether it exists, the elements of a list. *)
Definition items (s : Store) (name : bytes) : gmap bytes bytes := default ∅ (s_items s !! name).
Definition elements (s : Store) (name : bytes) : list bytes := default [] (s_lists s !! name).
Definition exists_as (s : Store) (t : KeyType) (name : bytes) : bool :=
  match t with
  | KeyType.KV => is_some (s_kv s !! name)
  | KeyType.Map => bool_decide (name ∈ s_maps s)
  | KeyType.List => is_some (s_lists s !! name)
  end.

Abbreviation StM := (M Store StorageError).

Section Apply.
Context (checks : bool) (now : Z).

(** *** Deadlines *)

Definition deadline (s : Store) (t : KeyType) (name : bytes) : option Z :=
  if exists_as s t name then Some (default I64_MAX (s_deadlines s !! name)) else None.

(** What does not exist has expired. *)
Definition expired (s : Store) (t : KeyType) (name : bytes) : bool :=
  match deadline s t name with Some d => d <=? now | None => true end.

(** A time to live, whose computation may overflow. *)
Definition ttl (t : KeyType) (name : bytes) : StM (option Z) := λ s,
  match deadline s t name with
  | Some d => match sub_i64 checks d now with Some n => (Ok (Some n), s) | None => (Panic, s) end
  | None => (Ok None, s)
  end.
Definition left_of (n : option Z) : option Z := n ≫= λ n, if 0 <? n then Some n else None.

(** The deadline of a name is taken away. *)
Definition forget (name : bytes) (s : Store) : Store :=
  match s_deadlines s !! name with
  | Some d => on_deadlines (delete name) (delete (d, name)) s
  | None => s
  end.

(** A deadline is set for what exists; whether that is a new one. *)
Definition set_deadline (t : KeyType) (name : bytes) (d : Z) (s : Store) : bool * Store :=
  if exists_as s t name
  then (negb (is_some (s_due s !! (d, name))), on_deadlines <[name := d]> <[(d, name) := t]> s)
  else (false, s).

(** *** Key-value pairs *)

Definition kv_update (f : option Z → option Z) (key : bytes) : StM unit := λ s,
  match f (s_kv s !! key ≫= from_be_i64) with
  | Some n => (Ok tt, on_kv <[key := be_bytes 8 n]> s)
  | None => (Panic, s)
  end.

(** The keys whose deadline has come. *)
Fixpoint expired_keys (keys : list bytes) : StM (list bytes) :=
  match keys with
  | [] => mret []
  | k :: keys =>
      n ← ttl KeyType.KV k;
      ks ← expired_keys keys;
      s ← get_state;
      mret (if is_some (s_deadlines s !! k) && from_option (λ n, n <=? 0) false n then k :: ks else ks)
  end.

Definition insert_all (kvs : list (bytes * bytes)) (m : gmap bytes bytes) : gmap bytes bytes :=
  foldl (λ m kv, <[kv.1 := kv.2]> m) m kvs.
Definition delete_all (keys : list bytes) (m : gmap bytes bytes) : gmap bytes bytes :=
  foldl (λ m k, delete k m) m keys.
Definition forget_all (keys : list bytes) (s : Store) : Store := foldl (λ s k, forget k s) s keys.

(** *** Maps *)

Definition store_map (name : bytes) (s : Store) : SledStorageMap * Store :=
  (mkMap name (s_next s),
   mkStore (s_kv s) (s_items s) (s_maps s) (s_lists s) (s_deadlines s) (s_due s)
     (<[s_next s := true]> (s_empties s)) (s_next s + 1)).

Definition store_clear_map (name : bytes) (s : Store) : Store :=
  on_maps (λ ms, ms ∖ {[name]}) (on_items (delete name) s).

Definition renew (t : KeyType) (name : bytes) (s : Store) : Store :=
  if expired s t name then forget name s else s.

Definition store_map_insert (m : SledStorageMap) (key val : bytes) (s : Store) : Store :=
  let s := if default false (s_empties s !! map_empty m)
           then on_empties <[map_empty m := false]> (on_maps (λ ms, ms ∪ {[map_name m]}) s) else s in
  renew KeyType.Map (map_name m) (on_items <[map_name m := <[key := val]> (items s (map_name m))]> s).

Definition store_map_remove (m : SledStorageMap) (key : bytes) (s : Store) : Store :=
  on_items <[map_name m := delete key (items s (map_name m))]> s.

Definition store_map_empty (m : SledStorageMap) (s : Store) : bool :=
  expired s KeyType.Map (map_name m) || bool_decide (items s (map_name m) = ∅).

Definition new_deadline (t : KeyType) (name : bytes) (expire_ms : option Z) : StM unit :=
  match expire_ms with
  | Some ms =>
      match add_i64 checks now ms with
      | Some d => modify (λ s, (set_deadline t name d s).2)
      | None => panic
      end
  | None => mret tt
  end.

(** *** Lists *)

Definition store_push (name : bytes) (vals : list bytes) (s : Store) : Store :=
  renew KeyType.List name (on_lists <[name := elements s name ++ vals]> s).

(** *** The clean-up *)

(** Entries that are due are taken in the order of their deadlines as unsigned
    integers, then of their names. *)
Definition due_key (e : Z * bytes * KeyType) : bytes * bytes := (be_bytes 8 e.1.1 ++ e.1.2, []).
Definition due_le (e e' : Z * bytes * KeyType) : Prop := bytes_le (due_key e) (due_key e').
#[local] Instance due_le_dec : RelDecision due_le.
Proof. unfold due_le. intros e e'. apply _. Defined.
Definition due_sorted (s : Store) : list (Z * bytes * KeyType) := merge_sort due_le (map_to_list (s_due s)).

(** The first ones, up to one that is not due yet, and one more than the limit. *)
Fixpoint take_due (limit count : Z) (es : list (Z * bytes * KeyType)) : list (Z * bytes * KeyType) :=
  match es with
  | [] => []
  | e :: es => if limit <? count then [] else if now <? e.1.1 then [] else e :: take_due limit (count + 1) es
  end.

Definition remove_as (e : Z * bytes * KeyType) (s : Store) : Store :=
  match e.2 with
  | KeyType.KV => on_kv (delete e.1.2) s
  | KeyType.Map =>
      let '(m, s) := store_map e.1.2 s in
      on_empties <[map_empty m := true]> (store_clear_map e.1.2 s)
  | KeyType.List => on_lists (delete e.1.2) s
  end.

Definition store_cleanup (limit : Z) (s : Store) : Z * Store :=
  let es := take_due limit 0 (due_sorted s) in
  (len es,
   foldl (λ s e, on_deadlines (delete e.1.2) (delete e.1) s) (foldl (λ s e, remove_as e s) s es) es).

(** *** Commands *)

Definition does (f : Store → Store) : StM Reply := modify f;; mret RUnit.
Definition says (f : Store → Reply) : StM Reply := asks f.

Definition apply (cmd : Command) : StM Reply :=
  match cmd with
  | DBInsert key val => does (λ s, forget key (on_kv <[key := val]> s))
  | DBGet key => says (λ s, RVal (if expired s KeyType.KV key then None else s_kv s !! key))
  | DBRemove key => does (λ s, forget key (on_kv (delete key) s))
  | DBMapNew name expire_ms =>
      m ← state (store_map name);
      modify (λ s, on_empties <[map_empty m := store_map_empty m s]> s);;
      new_deadline KeyType.Map name expire_ms;;
      mret (RMap m)
  | DBMapRemove name => does (λ s, forget name (store_clear_map name (store_map name s).2))
  | DBMapContainsKey name => says (λ s, RBool (negb (expired s KeyType.Map name)))
  | DBListNew name expire_ms => new_deadline KeyType.List name expire_ms;; mret (RList (mkList name))
  | DBListRemove name => does (λ s, forget name (on_lists (delete name) s))
  | DBListContainsKey name => says (λ s, RBool (negb (expired s KeyType.List name)))
  | DBBatchInsert key_vals =>
      ks ← expired_keys key_vals.*1;
      does (λ s, on_kv (insert_all key_vals) (forget_all ks s))
  | DBBatchRemove keys => does (λ s, on_kv (delete_all keys) (forget_all keys s))
  | DBCounterIncr key n =>
      kv_update (λ old, match old with Some o => add_i64 checks o n | None => Some n end) key;; mret RUnit
  | DBCounterDecr key n =>
      kv_update (λ old, sub_i64 checks (default 0 old) n) key;; mret RUnit
  | DBCounterGet key => λ s,
      if expired s KeyType.KV key then (Ok (RInt None), s)
      else match s_kv s !! key with
           | Some v => match from_be_i64 v with
                       | Some n => (Ok (RInt (Some n)), s)
                       | None => (Err TryFromSlice, s)
                       end
           | None => (Ok (RInt None), s)
           end
  | DBCounterSet key n => does (λ s, on_kv <[key := be_bytes 8 n]> (forget key s))
  | DBContainsKey key => says (λ s, RBool (negb (expired s KeyType.KV key)))
  | DBExpireAt key d => state (λ s, let '(b, s) := set_deadline KeyType.KV key d s in (RBool b, s))
  | DBTtl key => n ← ttl KeyType.KV key; mret (RInt (left_of n))
  | DBLen => says (λ s, RSize (Z.of_nat (size (s_kv s))))
  | MapInsert m key val => does (store_map_insert m key val)
  | MapGet m key =>
      says (λ s, RVal (if expired s KeyType.Map (map_name m) then None else items s (map_name m) !! key))
  | MapRemove m key => does (store_map_remove m key)
  | MapContainsKey m key => says (λ s, RBool (is_some (items s (map_name m) !! key)))
  | MapIsEmpty m => says (λ s, RBool (store_map_empty m s))
  | MapClear m => does (λ s, on_empties <[map_empty m := true]> (store_clear_map (map_name m) s))
  | MapRemoveAndFetch m key => state (λ s,
      if expired s KeyType.Map (map_name m) then (RVal None, s)
      else (RVal (items s (map_name m) !! key), store_map_remove m key s))
  | MapRemoveWithPrefix m prefix =>
      does (λ s, on_items <[map_name m := filter (λ kv, ¬ prefix `prefix_of` kv.1) (items s (map_name m))]> s)
  | MapBatchInsert m key_vals => does (λ s, foldl (λ s kv, store_map_insert m kv.1 kv.2 s) s key_vals)
  | MapBatchRemove m keys => does (λ s, foldl (λ s k, store_map_remove m k s) s keys)
  | MapExpireAt m d => state (λ s, let '(b, s) := set_deadline KeyType.Map (map_name m) d s in (RBool b, s))
  | MapTTL m => n ← ttl KeyType.Map (map_name m); mret (RInt (left_of n))
  | MapIter m prefix =>
      says (λ s, RItems (if expired s KeyType.Map (map_name m) then []
                         else map_scan (default [] prefix) (items s (map_name m))))
  | ListPush l val => does (store_push (list_name l) [val])
  | ListPushs l vals => does (λ s, match vals with [] => s | _ => store_push (list_name l) vals s end)
  | ListPushLimit l val limit pop => λ s,
      let old := elements s (list_name l) in
      if len old <? limit then (Ok (RVal None), store_push (list_name l) [val] s)
      else if pop then
        (Ok (RVal (head old)), store_push (list_name l) [val] (on_lists <[list_name l := tail old]> s))
      else (Err IsFull, s)
  | ListPop l => state (λ s,
      if expired s KeyType.List (list_name l) then (RVal None, s)
      else (RVal (head (elements s (list_name l))),
            on_lists <[list_name l := tail (elements s (list_name l))]> s))
  | ListAll l =>
      says (λ s, RVals (if expired s KeyType.List (list_name l) then [] else elements s (list_name l)))
  | ListGetIndex l idx =>
      says (λ s, RVal (if expired s KeyType.List (list_name l) then None
                       else elements s (list_name l) !! Z.to_nat idx))
  | ListLen l =>
      says (λ s, RSize (if expired s KeyType.List (list_name l) then 0 else len (elements s (list_name l))))
  | ListIsEmpty l =>
      says (λ s, RBool (expired s KeyType.List (list_name l) || bool_decide (elements s (list_name l) = [])))
  | ListClear l => does (on_lists (delete (list_name l)))
  | ListExpireAt l d => state (λ s, let '(b, s) := set_deadline KeyType.List (list_name l) d s in (RBool b, s))
  | ListTTL l => n ← ttl KeyType.List (list_name l); mret (RInt (left_of n))
  | Cleanup limit => state (λ s, let '(n, s) := store_cleanup limit s in (RSize n, s))
  end.
End Apply.

Fixpoint apply_all (checks : bool) (cmds : list (Z * Command)) (s : Store) : list (outcome StorageError Reply) * Store :=
  match cmds with
  | [] => ([], s)
  | (now, cmd) :: cmds =>
      let '(o, s) := apply checks now cmd s in
      let '(os, s) := apply_all checks cmds s in
      (o :: os, s)
  end.
