(* ===== verification/SledRefine.v ===== *)
(** * The storage on disk keeps its promise

    [Sled] implements [SledStore], on names that are kept apart. *)

From stdpp Require Import base list numbers option gmap sorting strings.
From Stdlib Require Import ZArith Lia.
From S2P Require Import Prelude Topic Counter Postcard SledKeys Sled SledStore.

#[local] Open Scope Z_scope.

#[local] Opaque be_bytes.

Definition i64 (x : Z) : Prop := - 2 ^ 63 ≤ x < 2 ^ 63.

Lemma as_isize_bytes x : i64 x → as_isize (from_be (be_bytes 8 x)) = x.
Proof.
  unfold i64. intros Hx. rewrite from_be_bytes. change (256 ^ Z.of_nat 8) with (2 ^ 64). unfold as_isize.
  rewrite Zplus_mod_idemp_l. rewrite Z.mod_small by lia. lia.
Qed.

Lemma i64_bytes x : i64 x → from_be_i64 (be_bytes 8 x) = Some x.
Proof.
  intros Hx. unfold from_be_i64. by rewrite length_be_bytes, bool_decide_true, as_isize_bytes by done.
Qed.

Lemma add_i64_range checks a b c : add_i64 checks a b = Some c → i64 c.
Proof.
  unfold add_i64. case_bool_decide; [intros [= <-]; done|]. destruct checks; [done|]. intros [= <-]. apply as_isize_range.
Qed.

#[local] Opaque from_be_i64.

(** The key of a deadline determines it. *)
Lemma due_key_inj t name t' name' :
  i64 t → i64 t' → be_bytes 8 t ++ name = be_bytes 8 t' ++ name' ↔ t = t' ∧ name = name'.
Proof.
  intros Ht Ht'. split; [|by intros [-> ->]]. intros He.
  apply app_inj_1 in He as [Hb ->]; [|by rewrite !length_be_bytes]. split; [|done].
  apply (f_equal from_be_i64) in Hb. rewrite !i64_bytes in Hb by done. by injection Hb.
Qed.

Section Refine.
Context {T : Type} `{!SledTree T, !SledTreeOk T}.
Context `{!Postcard (Z * Z), !PostcardOk (Z * Z), !PostcardTotal (Z * Z)} (checks : bool).
Context (N : bytes → Prop) (Hapart : ∀ a b, N a → N b → a = b ∨ apart a b).

(** ** The relation *)

Definition map_at (m : gmap bytes bytes) (name : bytes) (here : bool) (its : gmap bytes bytes) : Prop :=
  m !! make_map_count_key_name name = (if here then Some (be_bytes 8 0) else None) ∧
  ∀ k, m !! make_map_item_key name k = its !! k.

(** The element behind the index [i] of a list that begins behind [st]. *)
Definition element_at (st : Z) (l : list bytes) (i : Z) : option bytes :=
  if bool_decide (st < i) then l !! Z.to_nat (i - st - 1) else None.

Definition list_at (n : Z) (m : gmap bytes bytes) (name : bytes) (l : option (list bytes)) : Prop :=
  match l with
  | None => m !! make_list_count_key name = None ∧
            ∀ i, 0 ≤ i < 2 ^ 64 → m !! make_list_content_key name i = None
  | Some l => ∃ st, 0 ≤ st ∧ st + len l ≤ n ∧
      m !! make_list_count_key name = to_stdvec (st, st + len l) ∧
      ∀ i, 0 ≤ i < 2 ^ 64 → m !! make_list_content_key name i = element_at st l i
  end.

(** Names of maps and lists are kept apart; keys need not be. *)
Definition named (t : KeyType) (name : bytes) : Prop := match t with KeyType.KV => True | _ => N name end.

Record repr (n : Z) (d : SledStorageDB) (s : Store) : Prop := mkRepr {
  rp_kv : contents (kv_tree d) = s_kv s;
  rp_map name : N name → map_at (contents (map_tree d)) name (bool_decide (name ∈ s_maps s)) (items s name);
  rp_map_only k : is_Some (contents (map_tree d) !! k) →
    ∃ name, N name ∧ (k = make_map_count_key_name name ∨ ∃ key, k = make_map_item_key name key);
  rp_list name : N name → list_at n (contents (list_tree d)) name (s_lists s !! name);
  rp_list_only k : is_Some (contents (list_tree d) !! k) →
    ∃ name, N name ∧ (k = make_list_count_key name ∨ ∃ i, 0 ≤ i < 2 ^ 64 ∧ k = make_list_content_key name i);
  rp_deadline key : contents (key_expire_tree d) !! key = be_bytes 8 <$> s_deadlines s !! key;
  rp_deadline_range key t : s_deadlines s !! key = Some t → i64 t;
  rp_due t name : i64 t → contents (expire_key_tree d) !! (be_bytes 8 t ++ name) = KeyType.encode <$> s_due s !! (t, name);
  rp_due_only k : is_Some (contents (expire_key_tree d) !! k) → ∃ t name, i64 t ∧ k = be_bytes 8 t ++ name;
  rp_due_range t name : is_Some (s_due s !! (t, name)) → i64 t;
  rp_due_named t name ty : s_due s !! (t, name) = Some ty → named ty name;
  rp_empties : empties d = s_empties s;
  rp_next : next_flag d = s_next s;
}.

(** A computation on the database that ends as the store says. *)
Definition ends {A} (n : Z) (m : M SledStorageDB StorageError A) (d : SledStorageDB)
    (o : outcome StorageError A) (s : Store) : Prop :=
  ∃ d', m d = (o, d') ∧ repr n d' s.

Lemma ends_ret {A} n (a : A) d s : repr n d s → ends n (mret a) d (Ok a) s.
Proof. intros Hr. by exists d. Qed.

Lemma ends_bind {A C} n n' (m : M _ StorageError A) (f : A → M _ StorageError C) d a s o s' :
  ends n m d (Ok a) s → (∀ d', repr n d' s → ends n' (f a) d' o s') → ends n' (m ≫= f) d o s'.
Proof. intros (d1 & Hm & Hr) Hf. unfold ends. rewrite (bind_ok _ _ _ _ _ Hm). by apply Hf. Qed.

Lemma ends_panic {A C} n (m : M _ StorageError A) (f : A → M _ StorageError C) d s :
  ends n m d Panic s → ends n (m ≫= f) d Panic s.
Proof. intros (d1 & Hm & Hr). exists d1. by rewrite (bind_panic _ _ _ _ Hm). Qed.

Lemma ends_err {A C} n (m : M _ StorageError A) (f : A → M _ StorageError C) d e s :
  ends n m d (Err e) s → ends n (m ≫= f) d (Err e) s.
Proof. intros (d1 & Hm & Hr). exists d1. by rewrite (bind_err _ _ _ _ _ Hm). Qed.

Lemma ends_asks {A} n (f : SledStorageDB → A) d s : repr n d s → ends n (asks f) d (Ok (f d)) s.
Proof. intros Hr. by exists d. Qed.

Lemma ends_read {A C} n (g : SledStorageDB → A) (f : A → M _ StorageError C) d o s :
  ends n (f (g d)) d o s → ends n (asks g ≫= f) d o s.
Proof. done. Qed.

Lemma ends_write {C} n (g : SledStorageDB → SledStorageDB) (f : unit → M _ StorageError C) d o s :
  ends n (f tt) (g d) o s → ends n (modify g ≫= f) d o s.
Proof. done. Qed.

Lemma arith_bind {C} o x (f : Z → M SledStorageDB StorageError C) d : o = Some x → (arith (T := T) o ≫= f) d = f x d.
Proof. by intros ->. Qed.

Lemma ends_modify n (f : SledStorageDB → SledStorageDB) d s : repr n (f d) s → ends n (modify f) d (Ok tt) s.
Proof. intros Hr. by exists (f d). Qed.

Lemma list_at_mono n n' m name l : n ≤ n' → list_at n m name l → list_at n' m name l.
Proof. intros Hn. destruct l as [l|]; [|done]. intros (st & ? & ? & ?). exists st. split; [done|]. split; [lia|done]. Qed.

Lemma repr_mono n n' d s : n ≤ n' → repr n d s → repr n' d s.
Proof. intros Hn Hr. destruct Hr. split; try done. intros. by eapply list_at_mono, rp_list0. Qed.

(** ** Changes of one tree *)

Lemma repr_kv n d s (f : T → T) g :
  repr n d s → contents (f (kv_tree d)) = g (s_kv s) → repr n (on_kv_tree f d) (on_kv g s).
Proof. intros Hr Hf. destruct Hr. by split. Qed.

(** A change of the map [name] only. *)
Lemma repr_map n d s name (f : T → T) here its :
  repr n d s → N name → map_at (contents (f (map_tree d))) name here its →
  (∀ k, (k ≠ make_map_count_key_name name ∧ ∀ key, k ≠ make_map_item_key name key) →
     contents (f (map_tree d)) !! k = contents (map_tree d) !! k) →
  ∀ s', s_kv s' = s_kv s → s_lists s' = s_lists s → s_deadlines s' = s_deadlines s → s_due s' = s_due s →
    s_empties s' = s_empties s → s_next s' = s_next s →
    (∀ name', bool_decide (name' ∈ s_maps s') = if decide (name' = name) then here else bool_decide (name' ∈ s_maps s)) →
    (∀ name', items s' name' = if decide (name' = name) then its else items s name') →
  repr n (on_map_tree f d) s'.
Proof.
  intros Hr HN Hat Hother s' E1 E2 E3 E4 E5 E6 Hmaps Hitems. destruct Hr.
  split; simpl; rewrite ?E1, ?E2, ?E3, ?E4, ?E5, ?E6; try done.
  - intros name' HN'. rewrite Hmaps, Hitems. destruct (decide (name' = name)) as [->|Hne]; [done|].
    destruct (rp_map0 name' HN') as [Hc Hi]. pose proof (Hapart _ _ HN HN') as Ha.
    pose proof (Hapart _ _ HN' HN) as Ha'.
    split; [rewrite Hother, Hc; [done|]|intros k; rewrite Hother, Hi; [done|]].
    + split; [|intros key]; intros He; [by apply count_key_inj in He|].
      symmetry in He. by apply item_key_not_count in He.
    + split; [by apply item_key_not_count|]. intros key He. by apply item_key_inj in He as [-> _].
  - intros k Hk.
    destruct (decide (make_map_prefix_name name `prefix_of` k)) as [Hp|Hp].
    + destruct (decide (k = make_map_count_key_name name)) as [->|Hnc]; [by eauto|].
      destruct (decide (make_map_item_prefix_name name `prefix_of` k)) as [[key ->]|Hni]; [by eauto 6|].
      apply rp_map_only0. rewrite <-Hother; [done|]. split; [done|]. intros key ->. apply Hni. by exists key.
    + apply rp_map_only0. rewrite <-Hother; [done|]. split.
      * intros ->. apply Hp. by apply map_prefix_count; [left|].
      * intros key ->. apply Hp. by apply map_prefix_item; [left|].
Qed.

(** A change of keys of the list [name] only. *)
Definition key_of_list (name k : bytes) : Prop :=
  k = make_list_count_key name ∨ ∃ i, 0 ≤ i < 2 ^ 64 ∧ k = make_list_content_key name i.
Definition touches (name : bytes) (m m' : gmap bytes bytes) : Prop :=
  ∀ k, m' !! k = m !! k ∨ key_of_list name k.

Lemma repr_list n n' d s name (f : T → T) l :
  repr n d s → n ≤ n' → N name → list_at n' (contents (f (list_tree d))) name l →
  touches name (contents (list_tree d)) (contents (f (list_tree d))) →
  repr n' (on_list_tree f d) (on_lists (partial_alter (λ _, l) name) s).
Proof.
  intros Hr Hn HN Hat Ht. apply (repr_mono n n') in Hr; [|done]. destruct Hr. split; simpl; try done.
  - intros name' HN'. destruct (decide (name' = name)) as [->|Hne]; [by rewrite lookup_partial_alter_eq|].
    rewrite lookup_partial_alter_ne by done. specialize (rp_list0 name' HN').
    pose proof (Hapart _ _ HN HN') as Ha. pose proof (Hapart _ _ HN' HN) as Ha'.
    assert (contents (f (list_tree d)) !! make_list_count_key name' = contents (list_tree d) !! make_list_count_key name') as Ec.
    { destruct (Ht (make_list_count_key name')) as [?|[He|(i & _ & He)]]; [done|by apply list_count_key_inj in He|].
      symmetry in He. by apply content_key_not_count in He. }
    assert (∀ i, 0 ≤ i < 2 ^ 64 → contents (f (list_tree d)) !! make_list_content_key name' i =
                                contents (list_tree d) !! make_list_content_key name' i) as Ei.
    { intros i Hi. destruct (Ht (make_list_content_key name' i)) as [?|[He|(j & Hj & He)]]; [done| |].
      - by apply content_key_not_count in He.
      - by apply content_key_inj in He as [-> _]. }
    unfold list_at in *. destruct (s_lists s !! name') as [l'|].
    + destruct rp_list0 as (st & ? & ? & Hc & He). exists st. rewrite Ec. split_and!; [done..|].
      intros i Hi. by rewrite Ei, He.
    + rewrite Ec. destruct rp_list0 as [Hc He]. split; [done|]. intros i Hi. by rewrite Ei, He.
  - intros k Hk. destruct (Ht k) as [He|Hkey]; [rewrite He in Hk; by apply rp_list_only0|]. by exists name.
Qed.

Lemma repr_empties n d s h e : repr n d s → repr n (set_empty h e d) (on_empties <[map_empty h := e]> s).
Proof. intros Hr. destruct Hr. split; simpl; try done. by f_equal. Qed.

(** *** Deadlines *)

Lemma repr_no_deadline n d s key t :
  repr n d s → s_deadlines s !! key = Some t →
  repr n (on_expire_key_tree (λ tr, (tree_remove (be_bytes 8 t ++ key) tr).2)
            (on_key_expire_tree (λ tr, (tree_remove key tr).2) d))
         (on_deadlines (delete key) (delete (t, key)) s).
Proof.
  intros Hr Ht. destruct Hr. pose proof (rp_deadline_range0 _ _ Ht) as Hrange.
  split; simpl; rewrite ?contents_remove; try done.
  - intros k. destruct (decide (k = key)) as [->|Hne]; [by rewrite !lookup_delete_eq|by rewrite !lookup_delete_ne].
  - intros k t'. rewrite lookup_delete_Some. intros [_ ?]. eauto.
  - intros t' name Ht'. destruct (decide ((t', name) = (t, key))) as [[= -> ->]|Hne]; [by rewrite !lookup_delete_eq|].
    rewrite !lookup_delete_ne; [by apply rp_due0| |]; [congruence|]. intros He. by apply due_key_inj in He as [-> ->].
  - intros k [v [_ Hk]%lookup_delete_Some]. eauto.
  - intros t' name [v [_ Hk]%lookup_delete_Some]. eauto.
  - intros t' name ty [_ Hk]%lookup_delete_Some. eauto.
Qed.

Lemma ends_forget n d s key : repr n d s → ends n (_remove_expire_key key) d (Ok tt) (forget key s).
Proof.
  intros Hr. unfold _remove_expire_key, forget. apply ends_read. rewrite get_contents, (rp_deadline _ _ _ Hr).
  destruct (s_deadlines s !! key) as [t|] eqn:Ht; simpl; [|by apply ends_ret].
  eexists. split; [reflexivity|]. by apply repr_no_deadline.
Qed.

(** The order of the two removals does not matter. *)
Lemma ends_forget' n d s key :
  repr n d s →
  ends n (expire_at_bytes ← asks (λ d, tree_get key (key_expire_tree d));
          match expire_at_bytes with
          | Some at_bytes =>
              remove_at on_expire_key_tree (at_bytes ++ key);;
              remove_at on_key_expire_tree key
          | None => mret tt
          end) d (Ok tt) (forget key s).
Proof.
  intros Hr. unfold forget. apply ends_read. rewrite get_contents, (rp_deadline _ _ _ Hr).
  destruct (s_deadlines s !! key) as [t|] eqn:Ht; simpl; [|by apply ends_ret].
  eexists. split; [reflexivity|]. by apply repr_no_deadline.
Qed.

Lemma contains_spec n d s t name :
  repr n d s → named t name → _contains_key name t d = (Ok (exists_as s t name), d).
Proof.
  intros Hr HN. destruct Hr. destruct t; simpl;
    unfold _kv_contains_key, _map_contains_key, _list_contains_key, contains_at, asks; rewrite get_contents.
  - by rewrite rp_kv0.
  - destruct (rp_map0 name HN) as [-> _]. by case_bool_decide.
  - specialize (rp_list0 name HN). destruct (s_lists s !! name) as [l|]; simpl in *.
    + destruct rp_list0 as (st & _ & _ & -> & _). by destruct (to_total (st, st + len l)) as [? ->].
    + by destruct rp_list0 as [-> _].
Qed.

Definition deadline_bytes (s : Store) (t : KeyType) (name : bytes) : option (Z * option bytes) :=
  (λ x, (x, be_bytes 8 <$> s_deadlines s !! name)) <$> deadline s t name.

Lemma ttl_at_spec n d s t name :
  repr n d s → named t name →
  _ttl_at name (_contains_key name t) d = (Ok (deadline_bytes s t name), d).
Proof.
  intros Hr HN. unfold _ttl_at, deadline_bytes, deadline, asks. unfold mbind, M_bind.
  rewrite get_contents, (rp_deadline _ _ _ Hr), (contains_spec _ _ _ _ _ Hr HN).
  destruct (s_deadlines s !! name) as [x|] eqn:Hx, (exists_as s t name); simpl; try done.
  by rewrite (i64_bytes x (rp_deadline_range _ _ _ Hr _ _ Hx)).
Qed.

Lemma is_expired_spec n d s t name now :
  repr n d s → named t name →
  _is_expired now name (_contains_key name t) d = (Ok (expired now s t name), d).
Proof.
  intros Hr HN. unfold _is_expired. rewrite (bind_ok _ _ _ _ _ (ttl_at_spec _ _ _ _ _ Hr HN)).
  unfold deadline_bytes, expired. by destruct (deadline s t name).
Qed.

Lemma ttl_spec n d s t name now :
  repr n d s → named t name →
  _ttl checks now name (_contains_key name t) d =
  (outcome_map (fmap (λ x, (x, be_bytes 8 <$> s_deadlines s !! name))) (ttl checks now t name s).1, d).
Proof.
  intros Hr HN. unfold _ttl, ttl. rewrite (bind_ok _ _ _ _ _ (ttl_at_spec _ _ _ _ _ Hr HN)).
  unfold deadline_bytes. destruct (deadline s t name) as [x|]; [|done]. simpl.
  unfold arith. by destruct (sub_i64 checks x now).
Qed.

Lemma ttl_state now t name s : (ttl checks now t name s).2 = s.
Proof. unfold ttl. destruct (deadline s t name); [|done]. by destruct (sub_i64 checks z now). Qed.

Lemma ends_ttl n d s t name now :
  repr n d s → named t name →
  ends n (ttl ← _ttl checks now name (_contains_key name t); mret (positive_ttl ttl)) d
    (outcome_map left_of (ttl checks now t name s).1) s.
Proof.
  intros Hr HN. exists d. split; [|done]. unfold mbind, M_bind. rewrite (ttl_spec _ _ _ _ _ _ Hr HN).
  by destruct (ttl checks now t name s).1 as [[x|]| |].
Qed.

Lemma ends_set_deadline n d s t name at_ :
  repr n d s → i64 at_ → named t name →
  ends n (_expire_at name at_ t) d (Ok (set_deadline t name at_ s).1) (set_deadline t name at_ s).2.
Proof.
  intros Hr Hat HN. unfold _expire_at, set_deadline.
  eapply ends_bind; [exists d; split; [by apply (contains_spec n)|exact Hr]|]. intros d' Hr'. clear d Hr.
  destruct (exists_as s t name); [|by apply ends_ret]. unfold _non_tx_expire_at.
  apply ends_write, ends_read, ends_write. cbn [expire_key_tree on_key_expire_tree].
  rewrite get_contents, (rp_due _ _ _ Hr' _ _ Hat).
  assert (is_some (KeyType.encode <$> s_due s !! (at_, name)) = is_some (s_due s !! (at_, name))) as ->
    by by destruct (s_due s !! (at_, name)).
  apply ends_ret.
  destruct Hr'. split; simpl; rewrite ?contents_insert; try done.
  - intros k. destruct (decide (k = name)) as [->|Hne]; [by rewrite !lookup_insert_eq|by rewrite !lookup_insert_ne].
  - intros k t'. rewrite lookup_insert_Some. intros [[_ <-]|[_ ?]]; [done|eauto].
  - intros t' k Ht'. destruct (decide ((t', k) = (at_, name))) as [[= -> ->]|Hne]; [by rewrite !lookup_insert_eq|].
    rewrite !lookup_insert_ne; [by apply rp_due0| |]; [congruence|]. intros He. by apply due_key_inj in He as [-> ->].
  - intros k [v Hk]. rewrite lookup_insert_Some in Hk. destruct Hk as [[<- _]|[_ Hk]]; [by eauto|by eauto].
  - intros t' k [v Hk]. rewrite lookup_insert_Some in Hk. destruct Hk as [[[= <- _] _]|[_ Hk]]; [done|by eauto].
  - intros t' k ty Hk. rewrite lookup_insert_Some in Hk. destruct Hk as [[[= _ <-] <-]|[_ Hk]]; [done|by eauto].
Qed.

(** Deadlines of several names. *)
Lemma forget_frame key s :
  s_kv (forget key s) = s_kv s ∧ s_items (forget key s) = s_items s ∧ s_maps (forget key s) = s_maps s ∧
  s_lists (forget key s) = s_lists s ∧ s_empties (forget key s) = s_empties s ∧ s_next (forget key s) = s_next s.
Proof. unfold forget. by destruct (s_deadlines s !! key). Qed.

Lemma forget_all_frame ks s :
  s_kv (forget_all ks s) = s_kv s ∧ s_items (forget_all ks s) = s_items s ∧ s_maps (forget_all ks s) = s_maps s ∧
  s_lists (forget_all ks s) = s_lists s ∧ s_empties (forget_all ks s) = s_empties s ∧
  s_next (forget_all ks s) = s_next s.
Proof.
  revert s. induction ks as [|k ks IH]; intros s; [done|]. simpl.
  destruct (IH (forget k s)) as (-> & -> & -> & -> & -> & ->). apply forget_frame.
Qed.

Lemma forget_all_deadlines ks s k :
  s_deadlines (forget_all ks s) !! k = if decide (k ∈ ks) then None else s_deadlines s !! k.
Proof.
  revert s. induction ks as [|k' ks IH]; intros s; [done|]. simpl. rewrite IH. unfold forget.
  destruct (decide (k = k')) as [->|Hne].
  - rewrite (decide_True (P := k' ∈ k' :: ks)) by set_solver.
    destruct (s_deadlines s !! k') as [t|] eqn:Ht; simpl; rewrite ?lookup_delete_eq, ?Ht; by destruct (decide _).
  - destruct (decide (k ∈ ks)); [rewrite decide_True by set_solver; done|]. rewrite decide_False by set_solver.
    destruct (s_deadlines s !! k'); simpl; [by rewrite lookup_delete_ne|done].
Qed.

Lemma forget_all_due ks s t k :
  s_due (forget_all ks s) !! (t, k) =
  if decide (k ∈ ks ∧ s_deadlines s !! k = Some t) then None else s_due s !! (t, k).
Proof.
  revert s. induction ks as [|k' ks IH]; intros s; [rewrite decide_False by set_solver; done|]. simpl. rewrite IH.
  unfold forget. destruct (s_deadlines s !! k') as [t'|] eqn:Ht; simpl.
  - destruct (decide (k = k')) as [->|Hne].
    + rewrite lookup_delete_eq, (decide_False (P := _ ∧ None = Some t)) by naive_solver.
      destruct (decide (t = t')) as [->|Hnt].
      * rewrite lookup_delete_eq, decide_True by set_solver. done.
      * rewrite lookup_delete_ne by congruence. rewrite decide_False by naive_solver. done.
    + rewrite !lookup_delete_ne by congruence. apply decide_ext. set_solver.
  - destruct (decide (k = k')) as [->|Hne]; [|apply decide_ext; set_solver].
    rewrite !decide_False by naive_solver. done.
Qed.

Lemma repr_forget_all n d s ks ks' es :
  repr n d s → (∀ k, is_Some (s_deadlines s !! k) → k ∈ ks' ↔ k ∈ ks) →
  (∀ e, e ∈ es ↔ ∃ k t, k ∈ ks ∧ s_deadlines s !! k = Some t ∧ e = be_bytes 8 t ++ k) →
  repr n (on_expire_key_tree (tree_apply_batch (removals es)) (on_key_expire_tree (tree_apply_batch (removals ks')) d))
    (forget_all ks s).
Proof.
  intros Hr Hks Hes. destruct Hr.
  pose proof (forget_all_frame ks s) as (E1 & E2 & E3 & E4 & E5 & E6).
  split; simpl; unfold items; rewrite ?E1, ?E2, ?E3, ?E4, ?E5, ?E6, ?batch_contents; try done.
  - intros k. rewrite batch_removals, forget_all_deadlines, rp_deadline0.
    destruct (s_deadlines s !! k) as [t|] eqn:Ht; [|by repeat destruct (decide _)].
    erewrite (decide_ext (k ∈ ks') (k ∈ ks)) by (apply Hks; eauto). by destruct (decide (k ∈ ks)).
  - intros k t. rewrite forget_all_deadlines. destruct (decide _); [done|]. apply rp_deadline_range0.
  - intros t k Ht. rewrite batch_removals, forget_all_due, rp_due0 by done.
    erewrite (decide_ext (be_bytes 8 t ++ k ∈ es) (k ∈ ks ∧ s_deadlines s !! k = Some t)).
    { by destruct (decide (k ∈ ks ∧ _)). }
    rewrite Hes. split; [|naive_solver]. intros (k' & t' & Hin & Hd & He).
    apply due_key_inj in He as [-> ->]; eauto.
  - intros k [v Hk]. rewrite batch_removals in Hk. destruct (decide (k ∈ es)); [done|]. eauto.
  - intros t k [v Hk]. rewrite forget_all_due in Hk. destruct (decide (k ∈ ks ∧ _)); [done|]. eauto.
  - intros t k ty Hk. rewrite forget_all_due in Hk. destruct (decide (k ∈ ks ∧ _)); [done|]. eauto.
Qed.

(** ** Key-value pairs *)

Lemma ends_done n m d s : ends n m d (Ok tt) s → ends n (done m) d (Ok RUnit) s.
Proof. intros (d' & Hm & Hr). exists d'. unfold done. by rewrite (bind_ok _ _ _ _ _ Hm). Qed.

Lemma ends_reply {A} n (f : A → Reply) m d o s : ends n m d o s → ends n (reply f m) d (outcome_map f o) s.
Proof.
  intros (d' & Hm & Hr). exists d'. unfold reply, mbind, M_bind. rewrite Hm. split; [|done]. by destruct o.
Qed.

Lemma ends_if_expired {A} n d s t name now (a : A) m o s' :
  repr n d s → named t name →
  (expired now s t name = true → o = Ok a ∧ s' = s) → (expired now s t name = false → ends n m d o s') →
  ends n (e ← _is_expired now name (_contains_key name t); if e : bool then mret a else m) d o s'.
Proof.
  intros Hr HN He Hm. unfold ends. rewrite (bind_ok _ _ _ _ _ (is_expired_spec _ _ _ _ _ now Hr HN)).
  destruct (expired now s t name); [|by apply Hm]. destruct He as [-> ->]; [done|]. by apply ends_ret.
Qed.

Lemma batch_insertions kvs m : batch_map (map (λ kv, (kv.1, Some kv.2)) kvs) m = insert_all kvs m.
Proof. revert m. induction kvs as [|[k v] kvs IH]; intros m; [done|]. apply IH. Qed.
Lemma batch_deletions ks m : batch_map (removals ks) m = delete_all ks m.
Proof. revert m. induction ks as [|k ks IH]; intros m; [done|]. apply IH. Qed.

Lemma expired_of_spec n d s now kvs :
  repr n d s →
  let o := (expired_keys checks now kvs.*1 s).1 in
  expired_of checks now kvs d =
    (outcome_map (λ ks, (ks, map (λ k, from_option (λ t, be_bytes 8 t ++ k) k (s_deadlines s !! k)) ks)) o, d) ∧
  (expired_keys checks now kvs.*1 s).2 = s ∧
  ∀ ks, o = Ok ks → ∀ k, k ∈ ks → is_Some (s_deadlines s !! k).
Proof.
  intros Hr o. subst o. induction kvs as [|[k v] kvs (IH & IHs & IHk)].
  { split; [done|]. split; [done|]. intros ks [= <-] k Hk. by apply not_elem_of_nil in Hk. }
  rewrite fmap_cons. cbn [expired_of expired_keys fst].
  pose proof (ttl_spec n d s KeyType.KV k now Hr I) as Ht. pose proof (ttl_state now KeyType.KV k s) as Hts.
  unfold mbind, M_bind, get_state, mret, M_ret. cbn [_contains_key] in Ht. rewrite Ht.
  destruct (ttl checks now KeyType.KV k s) as [o s0]. cbn [fst snd] in *. subst s0.
  destruct o as [x| |]; cbn [outcome_map fst snd]; [|split_and!; [done..|by intros ? [=]]..].
  rewrite IH. destruct (expired_keys checks now kvs.*1 s) as [o s0]. cbn [fst snd] in *. subst s0.
  destruct o as [ks| |]; cbn [outcome_map fst snd]; [|split_and!; [done..|by intros ? [=]]..].
  destruct (s_deadlines s !! k) as [t|] eqn:Hd; simpl.
  - destruct x as [x|]; simpl; [|split_and!; [done..|]; intros ks' [= <-]; by apply IHk].
    destruct (x <=? 0); simpl; (split_and!; [by rewrite ?Hd|done|]); intros ks' [= <-]; [|by apply IHk].
    intros k' [->|?]%elem_of_cons; [by rewrite Hd|by eapply IHk].
  - destruct x as [x|]; simpl; (split_and!; [done..|]); intros ks' [= <-]; by apply IHk.
Qed.

Lemma ends_insert n d s key val :
  repr n d s → ends n (_insert key val) d (Ok tt) (forget key (on_kv <[key := val]> s)).
Proof. intros Hr. apply ends_write, ends_forget', repr_kv; [done|]. by rewrite contents_insert, (rp_kv _ _ _ Hr). Qed.

Lemma ends_get n d s now key :
  repr n d s →
  ends n (_get now key) d (Ok (if expired now s KeyType.KV key then None else s_kv s !! key)) s.
Proof.
  intros Hr. apply (ends_if_expired n d s KeyType.KV); [done..|by intros ->|]. intros ->.
  exists d. split; [|done]. unfold asks. by rewrite get_contents, (rp_kv _ _ _ Hr).
Qed.

Lemma ends_kv_remove n d s key :
  repr n d s → ends n (_kv_remove key) d (Ok tt) (forget key (on_kv (delete key) s)).
Proof. intros Hr. apply ends_write, ends_forget, repr_kv; [done|]. by rewrite contents_remove, (rp_kv _ _ _ Hr). Qed.

Lemma ends_contained n d s t now name :
  repr n d s → named t name →
  ends n (e ← _is_expired now name (_contains_key name t); mret (negb e)) d (Ok (negb (expired now s t name))) s.
Proof. intros Hr HN. exists d. by rewrite (bind_ok _ _ _ _ _ (is_expired_spec _ _ _ _ _ now Hr HN)). Qed.

Lemma ends_batch_insert n d s now kvs :
  repr n d s →
  ends n (done (_batch_insert checks now kvs)) d (apply checks now (DBBatchInsert kvs) s).1
    (apply checks now (DBBatchInsert kvs) s).2.
Proof.
  intros Hr. unfold _batch_insert. destruct kvs as [|kv kvs].
  { exists d. split; [done|]. destruct s; exact Hr. }
  cbn [apply]. destruct (expired_of_spec n d s now (kv :: kvs) Hr) as (He & Hs & Hks).
  unfold done, does, ends, mbind, M_bind. rewrite He.
  destruct (expired_keys checks now (kv :: kvs).*1 s) as [[ks| |] s0]; simpl in Hs, Hks; subst s0; cbn [fst snd outcome_map];
    [|by exists d..].
  eexists. split; [reflexivity|]. cbn [snd]. apply repr_kv.
  - apply repr_forget_all; [done|done|]. intros e. rewrite list_elem_of_fmap. split.
    + intros (k & -> & Hk). destruct (Hks ks eq_refl k Hk) as [t Ht]. exists k, t. rewrite Ht. done.
    + intros (k & t & Hk & Ht & ->). exists k. by rewrite Ht.
  - cbn [kv_tree on_expire_key_tree on_key_expire_tree].
    rewrite batch_contents, batch_insertions, (rp_kv _ _ _ Hr). by rewrite (proj1 (forget_all_frame ks s)).
Qed.

Lemma ends_batch_remove n d s ks :
  repr n d s → ends n (_batch_remove ks) d (Ok tt) (on_kv (delete_all ks) (forget_all ks s)).
Proof.
  intros Hr. unfold _batch_remove. destruct ks as [|k ks]; [exists d; split; [done|by destruct s]|].
  generalize (k :: ks). clear k ks. intros ks. eexists. split; [reflexivity|]. apply repr_kv.
  - apply repr_forget_all; [done| |].
    + intros k [t Ht]. rewrite list_elem_of_fmap. split.
      * intros ([k' e] & -> & Hin). apply list_elem_of_omap in Hin as (k2 & Hk & Heq).
        destruct (tree_get k2 (key_expire_tree d)); [|done]. by injection Heq as -> _.
      * intros Hk. exists (k, be_bytes 8 t ++ k). split; [done|]. apply list_elem_of_omap. exists k.
        split; [done|]. by rewrite get_contents, (rp_deadline _ _ _ Hr), Ht.
    + intros e. rewrite list_elem_of_fmap. split.
      * intros ([k' e'] & -> & Hin). apply list_elem_of_omap in Hin as (k2 & Hk & Heq).
        rewrite get_contents, (rp_deadline _ _ _ Hr) in Heq. destruct (s_deadlines s !! k2) as [t|] eqn:Ht; [|done].
        injection Heq as -> <-. by exists k', t.
      * intros (k & t & Hk & Ht & ->). exists (k, be_bytes 8 t ++ k). split; [done|]. apply list_elem_of_omap.
        exists k. split; [done|]. by rewrite get_contents, (rp_deadline _ _ _ Hr), Ht.
  - cbn [kv_tree on_expire_key_tree on_key_expire_tree].
    rewrite batch_contents, batch_deletions, (rp_kv _ _ _ Hr). by rewrite (proj1 (forget_all_frame ks s)).
Qed.

Lemma ends_counter_update n d s f g key :
  repr n d s → (∀ o, f o = g o) →
  ends n (counter_update f key) d (kv_update g key s).1 (kv_update g key s).2.
Proof.
  intros Hr Hfg. unfold counter_update, kv_update. apply ends_read. rewrite get_contents, (rp_kv _ _ _ Hr), Hfg.
  destruct (g (s_kv s !! key ≫= from_be_i64)) as [x|]; [|by exists d].
  eexists. split; [reflexivity|]. apply repr_kv; [done|]. by rewrite contents_insert, (rp_kv _ _ _ Hr).
Qed.

Lemma ends_counter_get n d s now key :
  repr n d s →
  ends n (reply RInt (_counter_get now key)) d (apply checks now (DBCounterGet key) s).1
    (apply checks now (DBCounterGet key) s).2.
Proof.
  intros Hr. cbn [apply].
  assert (ends n (_counter_get now key) d
    (if expired now s KeyType.KV key then Ok None else
     match s_kv s !! key with
     | Some v => match from_be_i64 v with Some x => Ok (Some x) | None => Err TryFromSlice end
     | None => Ok None
     end) s) as H.
  { apply (ends_if_expired n d s KeyType.KV); [done..|by intros ->|]. intros ->. apply ends_read.
    rewrite get_contents, (rp_kv _ _ _ Hr). exists d. destruct (s_kv s !! key) as [v|]; [|done].
    by destruct (from_be_i64 v). }
  apply (ends_reply n RInt) in H. destruct (expired now s KeyType.KV key); [done|].
  destruct (s_kv s !! key) as [v|]; [|done]. by destruct (from_be_i64 v).
Qed.

Lemma ends_counter_set n d s key val :
  repr n d s → ends n (_counter_set key val) d (Ok tt) (on_kv <[key := be_bytes 8 val]> (forget key s)).
Proof.
  intros Hr. eapply ends_bind; [by apply ends_forget|]. intros d' Hr'. apply ends_modify, repr_kv; [done|].
  by rewrite contents_insert, (rp_kv _ _ _ Hr').
Qed.

(** ** Maps *)

Lemma items_insert s name its name' :
  items (on_items <[name := its]> s) name' = if decide (name' = name) then its else items s name'.
Proof.
  unfold items. simpl. destruct (decide (name' = name)) as [->|Hne]; [by rewrite lookup_insert_eq|].
  by rewrite lookup_insert_ne.
Qed.

Lemma items_delete s name name' :
  items (on_items (delete name) s) name' = if decide (name' = name) then ∅ else items s name'.
Proof.
  unfold items. simpl. destruct (decide (name' = name)) as [->|Hne]; [by rewrite lookup_delete_eq|].
  by rewrite lookup_delete_ne.
Qed.

Lemma repr_item_insert n d s name key val :
  repr n d s → N name →
  repr n (on_map_tree (λ t, (tree_insert (make_map_item_key name key) val t).2) d)
    (on_items <[name := <[key := val]> (items s name)]> s).
Proof.
  intros Hr HN. destruct (rp_map _ _ _ Hr name HN) as [Hc Hi].
  eapply (repr_map n d s name _ _ (<[key := val]> (items s name))); [done|done|split| |done..| |apply items_insert];
    rewrite ?contents_insert.
  - rewrite lookup_insert_ne; [exact Hc|]. apply item_key_not_count. by left.
  - intros k. destruct (decide (k = key)) as [->|Hne]; [by rewrite !lookup_insert_eq|].
    rewrite !lookup_insert_ne; [apply Hi|done|]. intros He. apply item_key_inj in He as [_ ->]; [done|by left].
  - intros k [_ Hk]. by rewrite lookup_insert_ne.
  - intros name'. by destruct (decide (name' = name)) as [->|].
Qed.

Lemma repr_item_delete n d s name key :
  repr n d s → N name →
  repr n (on_map_tree (λ t, (tree_remove (make_map_item_key name key) t).2) d)
    (on_items <[name := delete key (items s name)]> s).
Proof.
  intros Hr HN. destruct (rp_map _ _ _ Hr name HN) as [Hc Hi].
  eapply (repr_map n d s name _ _ (delete key (items s name))); [done|done|split| |done..| |apply items_insert];
    rewrite ?contents_remove.
  - rewrite lookup_delete_ne; [exact Hc|]. apply item_key_not_count. by left.
  - intros k. destruct (decide (k = key)) as [->|Hne]; [by rewrite !lookup_delete_eq|].
    rewrite !lookup_delete_ne; [apply Hi|done|]. intros He. apply item_key_inj in He as [_ ->]; [done|by left].
  - intros k [_ Hk]. by rewrite lookup_delete_ne.
  - intros name'. by destruct (decide (name' = name)) as [->|].
Qed.

Lemma repr_map_create n d s name :
  repr n d s → N name →
  repr n (on_map_tree (λ t, (tree_insert (make_map_count_key_name name) (be_bytes 8 0) t).2) d)
    (on_maps (λ ms, ms ∪ {[name]}) s).
Proof.
  intros Hr HN. destruct (rp_map _ _ _ Hr name HN) as [Hc Hi].
  eapply (repr_map n d s name _ true (items s name)); [done|done|split| |done..| |];
    rewrite ?contents_insert.
  - by rewrite lookup_insert_eq.
  - intros k. rewrite lookup_insert_ne; [apply Hi|]. intros He. symmetry in He. apply item_key_not_count in He; [done|by left].
  - intros k [Hk _]. by rewrite lookup_insert_ne.
  - intros name'. simpl. destruct (decide (name' = name)) as [->|Hne]; [apply bool_decide_true; set_solver|].
    apply bool_decide_ext. set_solver.
  - intros name'. by destruct (decide (name' = name)) as [->|].
Qed.

Lemma repr_map_clear n d s name :
  repr n d s → N name →
  repr n (on_map_tree (tree_apply_batch (removals (tree_scan_prefix (make_map_prefix_name name) (map_tree d)).*1)) d)
    (store_clear_map name s).
Proof.
  intros Hr HN.
  assert (∀ k, contents (tree_apply_batch (removals (tree_scan_prefix (make_map_prefix_name name) (map_tree d)).*1) (map_tree d)) !! k =
               if decide (make_map_prefix_name name `prefix_of` k) then None else contents (map_tree d) !! k) as Hl.
  { intros k. rewrite batch_contents, batch_removals. destruct (contents (map_tree d) !! k) as [v|] eqn:Hk; [|by repeat destruct (decide _)].
    erewrite decide_ext; [done|]. rewrite scan_keys, Hk. split; [by intros [_ ?]|]. intros Hp. split; [by eexists|done]. }
  eapply (repr_map n d s name _ false ∅); [done|done|split| |done..| |]; simpl.
  - rewrite Hl, decide_True; [done|]. by apply map_prefix_count; [left|].
  - intros k. rewrite Hl, decide_True; [done|]. by apply map_prefix_item; [left|].
  - intros k [Hc Hi]. rewrite Hl. destruct (decide _) as [Hp|]; [|done]. symmetry. apply eq_None_not_Some. intros Hk.
    destruct (rp_map_only _ _ _ Hr k Hk) as (name' & HN' & [->|[key ->]]).
    + apply map_prefix_count in Hp as ->; [done|by apply Hapart].
    + apply map_prefix_item in Hp as ->; [by eapply Hi|by apply Hapart].
  - intros name'. destruct (decide (name' = name)) as [->|Hne]; [apply bool_decide_false; set_solver|].
    apply bool_decide_ext. set_solver.
  - intros name'. apply (items_delete s).
Qed.

Lemma repr_remove_prefix n d s name prefix :
  repr n d s → N name →
  repr n (on_map_tree (tree_apply_batch
            (removals (tree_scan_prefix (make_map_item_prefix_name name ++ prefix) (map_tree d)).*1)) d)
    (on_items <[name := filter (λ kv, ¬ prefix `prefix_of` kv.1) (items s name)]> s).
Proof.
  intros Hr HN. destruct (rp_map _ _ _ Hr name HN) as [Hc Hi].
  assert (∀ k, contents (tree_apply_batch (removals (tree_scan_prefix (make_map_item_prefix_name name ++ prefix) (map_tree d)).*1) (map_tree d)) !! k =
               if decide (make_map_item_key name prefix `prefix_of` k) then None else contents (map_tree d) !! k) as Hl.
  { intros k. rewrite batch_contents, batch_removals. destruct (contents (map_tree d) !! k) as [v|] eqn:Hk; [|by repeat destruct (decide _)].
    erewrite decide_ext; [done|]. rewrite scan_keys, Hk. split; [by intros [_ ?]|]. intros Hp. split; [by eexists|done]. }
  eapply (repr_map n d s name _ _ (filter (λ kv, ¬ prefix `prefix_of` kv.1) (items s name)));
    [done|done|split| |done..| |apply items_insert].
  - rewrite Hl, decide_False; [exact Hc|]. apply item_prefix_count; by left.
  - intros k. rewrite Hl, Hi. erewrite (decide_ext _ (prefix `prefix_of` k)).
    2: { rewrite item_prefix_item by by left. naive_solver. }
    destruct (decide (prefix `prefix_of` k)) as [Hp|Hp]; symmetry.
    + apply map_lookup_filter_None. right. intros v _ Hn. by apply Hn.
    + destruct (items s name !! k) as [v|] eqn:Hk; [by apply map_lookup_filter_Some|apply map_lookup_filter_None; by left].
  - intros k [Hnc Hni]. rewrite Hl. destruct (decide _) as [Hp|]; [|done]. symmetry. apply eq_None_not_Some. intros Hk.
    destruct (rp_map_only _ _ _ Hr k Hk) as (name' & HN' & [->|[key ->]]).
    + apply item_prefix_count in Hp; [done|by apply Hapart].
    + apply item_prefix_item in Hp as [-> _]; [by eapply Hni|by apply Hapart].
  - intros name'. by destruct (decide (name' = name)) as [->|].
Qed.

Lemma ends_map_new n d s name :
  repr n d s → ends n (_map name) d (Ok (store_map name s).1) (store_map name s).2.
Proof.
  intros Hr. eexists. split; [unfold _map; rewrite (rp_next _ _ _ Hr); reflexivity|].
  destruct Hr. split; simpl; try done; by rewrite ?rp_empties0, ?rp_next0.
Qed.

Lemma ends_map_clear n d s m :
  repr n d s → N (map_name m) →
  ends n (map_clear m) d (Ok tt) (on_empties <[map_empty m := true]> (store_clear_map (map_name m) s)).
Proof. intros Hr HN. apply ends_read, ends_write, ends_modify. by apply repr_empties, repr_map_clear. Qed.

Lemma ends_renew n d s t name now :
  repr n d s → named t name →
  ends n (expired ← _is_expired now name (_contains_key name t); if expired : bool then _remove_expire_key name else mret tt) d
    (Ok tt) (renew now t name s).
Proof.
  intros Hr HN. unfold ends, renew. rewrite (bind_ok _ _ _ _ _ (is_expired_spec n d s t _ now Hr HN)).
  destruct (expired now s t name); [by apply ends_forget|by apply ends_ret].
Qed.

Lemma ends_map_insert n d s m now key val :
  repr n d s → N (map_name m) →
  ends n (map_insert m now key val) d (Ok tt) (store_map_insert now m key val s).
Proof.
  intros Hr HN. unfold map_insert, store_map_insert. apply ends_read. rewrite (rp_empties _ _ _ Hr).
  set (s1 := if default false (s_empties s !! map_empty m) then _ else s).
  eapply (ends_bind n n _ _ _ tt s1); [|intros d1 Hr1; apply ends_write, (ends_renew _ _ _ KeyType.Map); [by apply repr_item_insert|done]].
  subst s1. destruct (default false (s_empties s !! map_empty m)); [|by apply ends_ret].
  unfold _counter_init, contains_at, ends, mbind, M_bind, asks.
  rewrite get_contents. destruct (rp_map _ _ _ Hr _ HN) as [-> _].
  case_bool_decide as Hin; simpl; (eexists; split; [reflexivity|]); apply repr_empties; [|by apply repr_map_create].
  assert (on_maps (λ ms, ms ∪ {[map_name m]}) s = s) as ->; [|done].
  unfold on_maps. destruct s as [? ? ms ? ? ? ? ?]. simpl in *. f_equal. set_solver.
Qed.

Lemma ends_map_get n d s m now key :
  repr n d s → N (map_name m) →
  ends n (map_get m now key) d
    (Ok (if expired now s KeyType.Map (map_name m) then None else items s (map_name m) !! key)) s.
Proof.
  intros Hr HN. apply (ends_if_expired n d s KeyType.Map); [done..|by intros ->|]. intros ->.
  exists d. split; [|done]. unfold asks. rewrite get_contents. by rewrite (proj2 (rp_map _ _ _ Hr _ HN)).
Qed.

Lemma ends_map_remove n d s m key :
  repr n d s → N (map_name m) → ends n (map_remove_key m key) d (Ok tt) (store_map_remove m key s).
Proof. intros Hr HN. by apply ends_modify, repr_item_delete. Qed.

Lemma ends_map_contains n d s m key :
  repr n d s → N (map_name m) →
  ends n (map_contains m key) d (Ok (is_some (items s (map_name m) !! key))) s.
Proof.
  intros Hr HN. exists d. split; [|done]. unfold map_contains, contains_at, asks. rewrite get_contents.
  by rewrite (proj2 (rp_map _ _ _ Hr _ HN)).
Qed.

(** The items that a scan yields are those of the map, in the order of their keys. *)
Lemma scan_items n d s name prefix :
  repr n d s → N name →
  tree_scan_prefix (make_map_item_prefix_name name ++ prefix) (map_tree d) =
  map (λ kv, (make_map_item_key name kv.1, kv.2)) (map_scan prefix (items s name)).
Proof.
  intros Hr HN. apply sorted_scan_unique.
  - assert (∀ l : list (bytes * bytes),
      (map (λ kv, (make_map_item_key name kv.1, kv.2)) l).*1 = make_map_item_key name <$> l.*1) as ->.
    { intros l. induction l as [|[k v] l IH]; [done|]. simpl. by f_equal. }
    pose proof (map_scan_sorted prefix (items s name)) as Hs. revert Hs. generalize (map_scan prefix (items s name)).*1.
    intros l Hs. induction Hs as [|k l Hs IH Hall]; [constructor|]. constructor; [done|].
    apply Forall_fmap. eapply Forall_impl; [exact Hall|]. intros k' Hlt. by apply bytes_lt_app.
  - apply NoDup_fmap_2.
    + intros [k v] [k' v'] He. pose proof (f_equal fst He) as Hk. pose proof (f_equal snd He) as Hv.
      cbn [fst snd] in *. apply item_key_inj in Hk as [_ ->]; [by subst|by left].
    + rewrite map_scan_perm. apply NoDup_filter, NoDup_map_to_list.
  - intros k v. rewrite list_elem_of_fmap. split.
    + intros ([key v'] & He & Hin). pose proof (f_equal fst He) as Hk. pose proof (f_equal snd He) as Hv.
      cbn [fst snd] in *. subst k v. rewrite map_scan_perm, list_elem_of_filter, elem_of_map_to_list in Hin.
      simpl in Hin. rewrite (proj2 (rp_map _ _ _ Hr name HN)). split; [apply Hin|]. apply prefix_app, Hin.
    + intros [Hk Hp]. destruct (rp_map_only _ _ _ Hr k) as (name' & HN' & [->|[key ->]]); [by eexists| |].
      * apply (item_prefix_count name name') in Hp; [done|by apply Hapart].
      * apply (item_prefix_item name name') in Hp as [<- Hp]; [|by apply Hapart].
        rewrite (proj2 (rp_map _ _ _ Hr name HN)) in Hk. exists (key, v). split; [done|].
        by rewrite map_scan_perm, list_elem_of_filter, elem_of_map_to_list.
Qed.

Lemma map_scan_nil prefix m : map_scan prefix m = [] ↔ ∀ k, is_Some (m !! k) → ¬ prefix `prefix_of` k.
Proof.
  split.
  - intros He k [v Hk] Hp.
    assert ((k, v) ∈ map_scan prefix m) as Hin; [|rewrite He in Hin; by apply not_elem_of_nil in Hin].
    by rewrite map_scan_perm, list_elem_of_filter, elem_of_map_to_list.
  - intros H. destruct (map_scan prefix m) as [|[k v] l] eqn:He; [done|].
    assert ((k, v) ∈ map_scan prefix m) as Hin by (rewrite He; by left).
    rewrite map_scan_perm, list_elem_of_filter, elem_of_map_to_list in Hin. destruct Hin as [Hp Hk].
    destruct (H k); [by eexists|done].
Qed.

Lemma ends_map_is_empty n d s m now :
  repr n d s → N (map_name m) →
  ends n (map_is_empty m now) d (Ok (store_map_empty now m s)) s.
Proof.
  intros Hr HN. unfold store_map_empty. apply (ends_if_expired n d s KeyType.Map); [done..|by intros ->|]. intros ->.
  apply ends_read. exists d. split; [|done]. simpl.
  pose proof (scan_items n d s (map_name m) [] Hr HN) as Hs. rewrite app_nil_r in Hs. rewrite Hs.
  unfold mret, M_ret. do 2 f_equal. case_bool_decide as He; [by rewrite He|].
  destruct (map_scan [] (items s (map_name m))) as [|kv l] eqn:Hl; [|done]. destruct He.
  apply map_eq. intros k. rewrite lookup_empty. apply eq_None_not_Some. intros Hk.
  destruct (proj1 (map_scan_nil _ _) Hl k Hk). apply prefix_nil.
Qed.

Lemma ends_map_fetch n d s m now key :
  repr n d s → N (map_name m) →
  ends n (reply RVal (map_remove_and_fetch m now key)) d (apply checks now (MapRemoveAndFetch m key) s).1
    (apply checks now (MapRemoveAndFetch m key) s).2.
Proof.
  intros Hr HN.
  assert (ends n (map_remove_and_fetch m now key) d
    (Ok (if expired now s KeyType.Map (map_name m) then None else items s (map_name m) !! key))
    (if expired now s KeyType.Map (map_name m) then s else store_map_remove m key s)) as H.
  { apply (ends_if_expired n d s KeyType.Map); [done..|by intros ->|]. intros ->.
    apply ends_read.
    rewrite get_contents, (proj2 (rp_map _ _ _ Hr _ HN)). eexists. split; [reflexivity|]. by apply repr_item_delete. }
  apply (ends_reply n RVal) in H. cbn [apply]. unfold state.
  by destruct (expired now s KeyType.Map (map_name m)).
Qed.

Lemma ends_map_iter n d s m now prefix :
  repr n d s → N (map_name m) →
  ends n (map_iter m now prefix) d
    (Ok (if expired now s KeyType.Map (map_name m) then [] else map_scan (default [] prefix) (items s (map_name m)))) s.
Proof.
  intros Hr HN. apply (ends_if_expired n d s KeyType.Map); [done..|by intros ->|]. intros ->.
  apply ends_read. rewrite (scan_items n d s _ _ Hr HN). exists d. split; [|done]. unfold mret, M_ret. do 2 f_equal.
  rewrite map_map. rewrite <-(map_id (map_scan _ _)) at 2. apply map_ext. intros [k v]. simpl.
  unfold make_map_item_key. by rewrite drop_app_length.
Qed.

Lemma ends_for_each {A} n (f : A → M _ StorageError unit) (g : A → Store → Store) xs d s :
  (∀ x d s, x ∈ xs → repr n d s → ends n (f x) d (Ok tt) (g x s)) → repr n d s →
  ends n (for_each f xs) d (Ok tt) (foldl (λ s x, g x s) s xs).
Proof.
  revert d s. induction xs as [|x xs IH]; intros d s Hf Hr; [by apply ends_ret|].
  eapply ends_bind; [apply Hf; [by left|done]|]. intros d' Hr'. apply IH; [|done].
  intros y d2 s2 Hy. apply Hf. by right.
Qed.

(** ** Lists *)

Lemma touches_insert name m m' k v : key_of_list name k → touches name m m' → touches name m (<[k := v]> m').
Proof.
  intros Hk Ht k'. destruct (decide (k' = k)) as [->|Hne]; [by right|]. rewrite lookup_insert_ne by done. apply Ht.
Qed.

Lemma touches_delete name m m' k : key_of_list name k → touches name m m' → touches name m (delete k m').
Proof.
  intros Hk Ht k'. destruct (decide (k' = k)) as [->|Hne]; [by right|]. rewrite lookup_delete_ne by done. apply Ht.
Qed.

Lemma touches_refl name m : touches name m m.
Proof. intros k. by left. Qed.

Lemma element_app st l v i : 0 ≤ st →
  element_at st (l ++ [v]) i = if decide (i = st + len l + 1) then Some v else element_at st l i.
Proof.
  intros Hst. unfold element_at, len. destruct (decide (i = st + Z.of_nat (length l) + 1)) as [->|Hne].
  - rewrite bool_decide_true by lia. rewrite lookup_app_r by lia.
    replace (Z.to_nat _ - length l)%nat with 0%nat by lia. done.
  - case_bool_decide; [|done]. destruct (decide (Z.to_nat (i - st - 1) < length l)%nat) as [?|?].
    + by rewrite lookup_app_l.
    + rewrite lookup_app_r by lia. rewrite !lookup_ge_None_2; [done|lia|simpl; lia].
Qed.

Lemma element_tail st x l i : element_at (st + 1) l i = if decide (i = st + 1) then None else element_at st (x :: l) i.
Proof.
  unfold element_at. destruct (decide (i = st + 1)) as [->|Hne]; [by rewrite bool_decide_false by lia|].
  repeat case_bool_decide; try lia; [|done].
  by replace (Z.to_nat (i - st - 1)) with (S (Z.to_nat (i - (st + 1) - 1))) by lia.
Qed.

Lemma element_nil st i : element_at st [] i = None.
Proof. unfold element_at. by case_bool_decide. Qed.

(** A list as the code sees it: where it begins, and its elements behind that. *)
Definition view (d : SledStorageDB) (name : bytes) (st : Z) (l : list bytes) : Prop :=
  list_count_get (mkList name) d = (Ok (st, st + len l), d) ∧
  ∀ i, 0 ≤ i < 2 ^ 64 → contents (list_tree d) !! make_list_content_key name i = element_at st l i.

Lemma list_view n d s name :
  repr n d s → N name → 0 ≤ n →
  ∃ st, 0 ≤ st ∧ st + len (elements s name) ≤ n ∧ view d name st (elements s name).
Proof.
  intros Hr HN Hn. pose proof (rp_list _ _ _ Hr name HN) as Hl. unfold elements, view, list_count_get.
  unfold mbind, M_bind, asks. cbn [list_name]. rewrite get_contents.
  destruct (s_lists s !! name) as [l|]; cbn [list_at from_option] in *.
  - destruct Hl as (st & Hst & Hle & Hc & Hi). exists st. split_and!; [done..| |done].
    rewrite Hc. destruct (to_total (st, st + len l)) as [b Hb]. rewrite Hb. unfold ok_or. by rewrite (from_to _ _ Hb).
  - destruct Hl as [Hc Hi]. exists 0. split_and!; [done|exact Hn| |].
    + by rewrite Hc.
    + intros i Hrange. rewrite element_nil. by apply Hi.
Qed.

Lemma len_snoc {A} (l : list A) x : len (l ++ [x]) = len l + 1.
Proof. unfold len. rewrite length_app. simpl. lia. Qed.

(** Elements that are written behind the end, one by one. *)
Lemma batch_elements name st vs l m :
  0 ≤ st → st + len l + len vs < 2 ^ 64 →
  (∀ i, 0 ≤ i < 2 ^ 64 → m !! make_list_content_key name i = element_at st l i) →
  let m' := batch_map (zip_with (λ k v, (k, Some v)) (map (make_list_content_key name) (seqZ (st + len l + 1) (len vs))) vs) m in
  (∀ i, 0 ≤ i < 2 ^ 64 → m' !! make_list_content_key name i = element_at st (l ++ vs) i) ∧
  m' !! make_list_count_key name = m !! make_list_count_key name ∧ touches name m m'.
Proof.
  intros Hst. revert l m. induction vs as [|v vs IH]; intros l m Hlt Hm.
  { cbn. rewrite app_nil_r. split; [done|]. split; [done|apply touches_refl]. }
  rewrite len_cons in *. pose proof (len_nonneg l). pose proof (len_nonneg vs).
  rewrite seqZ_cons by lia. cbn [map zip_with]. unfold batch_map. cbn [foldl fst snd].
  assert (key_of_list name (make_list_content_key name (st + len l + 1))) as Hkey.
  { right. eexists. split; [|done]. lia. }
  destruct (IH (l ++ [v]) (<[make_list_content_key name (st + len l + 1) := v]> m)) as (H1 & H2 & H3).
  - rewrite len_snoc. lia.
  - intros i Hi. rewrite element_app by done. destruct (decide (i = st + len l + 1)) as [->|Hne]; [apply lookup_insert_eq|].
    rewrite lookup_insert_ne; [by apply Hm|]. intros He. apply content_key_inj in He as [_ ?]; [lia|by left|lia|done].
  - rewrite len_snoc in *. replace (st + (len l + 1) + 1) with (Z.succ (st + len l + 1)) in * by lia.
    replace (Z.pred (1 + len vs)) with (len vs) by lia. rewrite <-app_assoc in H1. simpl in H1.
    split; [exact H1|]. split.
    + etrans; [exact H2|]. apply lookup_insert_ne. apply content_key_not_count. by left.
    + intros k. destruct (H3 k) as [He|?]; [|by right].
      destruct (touches_insert name m m _ v Hkey (touches_refl _ _) k) as [?|?]; [|by right]. left. etrans; [exact He|done].
Qed.

Lemma count_set name st e d :
  ∃ b, to_stdvec (st, e) = Some b ∧
    list_count_set (mkList name) st e d =
    (Ok tt, on_list_tree (λ t, (tree_insert (make_list_count_key name) b t).2) d).
Proof.
  destruct (to_total (st, e)) as [b Hb]. exists b. split; [done|].
  unfold list_count_set, mbind, M_bind. by rewrite Hb.
Qed.

Lemma key_of_count name : key_of_list name (make_list_count_key name).
Proof. by left. Qed.
Lemma key_of_content name i : 0 ≤ i < 2 ^ 64 → key_of_list name (make_list_content_key name i).
Proof. right. by exists i. Qed.

(** The list [name] may be out of step when its elements are about to be changed. *)
Lemma ends_append n n' d s f name st l data :
  repr n d s → N name → n ≤ n' → n' < 2 ^ 64 → 0 ≤ st → st + len l + 1 ≤ n' →
  touches name (contents (list_tree d)) (contents (f (list_tree d))) →
  (∀ i, 0 ≤ i < 2 ^ 64 → contents (f (list_tree d)) !! make_list_content_key name i = element_at st l i) →
  ends n' (list_append checks (mkList name) st (st + len l) data) (on_list_tree f d) (Ok tt)
    (on_lists <[name := l ++ [data]]> s).
Proof.
  intros Hr HN Hn Hlt Hst Hle Ht Hi. pose proof (len_nonneg l). unfold list_append.
  destruct (count_set name st (st + len l + 1) (on_list_tree f d)) as (b & Hb & Hset).
  unfold ends. rewrite (arith_bind _ _ _ _ (add_usize_fits checks (st + len l) 1 ltac:(lia))), (bind_ok _ _ _ _ _ Hset).
  eexists. split; [reflexivity|].
  eapply (repr_list n n' d s name
    (λ t, (tree_insert (make_list_content_key name (st + len l + 1)) data
            (tree_insert (make_list_count_key name) b (f t)).2).2) (Some (l ++ [data]))); [done..| |].
  - exists st. rewrite len_snoc, !contents_insert. split_and!; [done|lia| |].
    + rewrite lookup_insert_ne by (apply content_key_not_count; by left). rewrite lookup_insert_eq, <-Hb.
      by rewrite Z.add_assoc.
    + intros i Hrange. rewrite element_app by done. destruct (decide (i = st + len l + 1)) as [->|Hne].
      { by rewrite lookup_insert_eq. }
      rewrite !lookup_insert_ne; [by apply Hi| |].
      * intros He. symmetry in He. apply content_key_not_count in He; [done|by left].
      * intros He. apply content_key_inj in He as [_ ?]; [lia|by left|lia|done].
  - rewrite !contents_insert. apply touches_insert, touches_insert; [|apply key_of_count|done].
    apply key_of_content. lia.
Qed.

Lemma on_list_tree_id (d : @SledStorageDB T) : on_list_tree (λ t, t) d = d.
Proof. by destruct d. Qed.

Lemma ends_push n d s l now data :
  repr n d s → N (list_name l) → 0 ≤ n → n + 1 < 2 ^ 64 →
  ends (n + 1) (list_push checks l now data) d (Ok tt) (store_push now (list_name l) [data] s).
Proof.
  intros Hr HN Hn Hlt. destruct l as [name]. simpl in HN. destruct (list_view n d s name Hr HN Hn) as (st & Hst & Hle & Hv & Hi).
  unfold list_push, ends. rewrite (bind_ok _ _ _ _ _ Hv). unfold store_push. cbn [list_name].
  eapply ends_bind; [|intros d' Hr'; by apply (ends_renew _ _ _ KeyType.List)].
  pose proof (ends_append n (n + 1) d s (λ t, t) name st (elements s name) data) as Ha. rewrite on_list_tree_id in Ha.
  apply Ha; try done; try lia. apply touches_refl.
Qed.

Lemma ends_pushs n d s l now vals :
  repr n d s → N (list_name l) → 0 ≤ n → n + len vals + 1 < 2 ^ 64 →
  ends (n + len vals) (list_pushs checks l now vals) d (Ok tt)
    (match vals with [] => s | _ => store_push now (list_name l) vals s end).
Proof.
  intros Hr HN Hn Hlt. destruct l as [name]. simpl in HN. destruct vals as [|v vals].
  { rewrite len_nil, Z.add_0_r. by apply ends_ret. }
  set (vs := v :: vals) in *. assert (0 < len vs) by (subst vs; rewrite len_cons; pose proof (len_nonneg vals); lia).
  destruct (list_view n d s name Hr HN Hn) as (st & Hst & Hle & Hv & Hi).
  set (old := elements s name) in *. pose proof (len_nonneg old).
  assert (list_pushs checks (mkList name) now vs =
    ('(start, end_) ← list_count_get (mkList name);
      from ← arith (add_usize checks end_ 1);
      last ← arith (add_usize checks end_ (len vs));
      to ← arith (add_usize checks last 1);
      list_count_set (mkList name) start last;;
      batch_at on_list_tree (zip_with (λ k v, (k, Some v)) (make_list_content_keys name from to) vs);;
      list_renew (mkList name) now)) as -> by done.
  unfold ends. rewrite (bind_ok _ _ _ _ _ Hv).
  rewrite (arith_bind _ _ _ _ (add_usize_fits checks (st + len old) 1 ltac:(lia))).
  rewrite (arith_bind _ _ _ _ (add_usize_fits checks (st + len old) (len vs) ltac:(lia))).
  rewrite (arith_bind _ _ _ _ (add_usize_fits checks (st + len old + len vs) 1 ltac:(lia))).
  destruct (count_set name st (st + len old + len vs) d) as (b & Hb & Hset).
  rewrite (bind_ok _ _ _ _ _ Hset). unfold store_push. fold old.
  eapply ends_bind; [|intros d' Hr'; by apply (ends_renew _ _ _ KeyType.List)].
  eexists. split; [reflexivity|].
  eapply (repr_list n _ d s name (λ t, tree_apply_batch _ (tree_insert (make_list_count_key name) b t).2) (Some (old ++ vs)));
    [done|lia|done| |]; rewrite batch_contents, contents_insert; unfold make_list_content_keys.
  all: replace (st + len old + len vs + 1 - (st + len old + 1)) with (len vs) by lia.
  all: destruct (batch_elements name st vs old (<[make_list_count_key name := b]> (contents (list_tree d)))) as (H1 & H2 & H3);
    [done|lia| |].
  1,3: intros i Hrange; rewrite lookup_insert_ne; [by apply Hi|]; intros He; symmetry in He;
    apply content_key_not_count in He; [done|by left].
  - exists st. rewrite len_app. split_and!; [done|lia| |exact H1].
    rewrite H2, lookup_insert_eq, <-Hb. by replace (st + (len old + len vs)) with (st + len old + len vs) by lia.
  - intros k. destruct (H3 k) as [He|?]; [|by right].
    destruct (touches_insert name _ _ (make_list_count_key name) b (key_of_count name) (touches_refl name (contents (list_tree d))) k)
      as [?|?]; [|by right]. left. etrans; [exact He|done].
Qed.

Lemma ends_list_renew n d s name now :
  repr n d s → N name → ends n (list_renew (mkList name) now) d (Ok tt) (renew now KeyType.List name s).
Proof. intros Hr HN. by apply (ends_renew n d s KeyType.List). Qed.

(** The first element is taken out of the tree. *)
Lemma take_first d name st l :
  0 ≤ st → st + 1 < 2 ^ 64 → view d name st l →
  let f := λ t : T, (tree_remove (make_list_content_key name (st + 1)) t).2 in
  take_at list_tree on_list_tree (make_list_content_key name (st + 1)) d = (Ok (head l), on_list_tree f d) ∧
  touches name (contents (list_tree d)) (contents (f (list_tree d))) ∧
  ∀ i, 0 ≤ i < 2 ^ 64 → contents (f (list_tree d)) !! make_list_content_key name i =
    element_at (if is_some (head l) then st + 1 else st) (tail l) i.
Proof.
  intros Hst Hlt [_ Hi] f. split; [|split].
  - unfold take_at, mbind, M_bind, asks, remove_at, modify. rewrite get_contents, Hi by lia.
    unfold element_at. rewrite bool_decide_true by lia. replace (Z.to_nat (st + 1 - st - 1)) with 0%nat by lia. by destruct l.
  - unfold f. rewrite contents_remove. apply touches_delete; [apply key_of_content; lia|apply touches_refl].
  - intros i Hrange. unfold f. rewrite contents_remove. destruct (decide (i = st + 1)) as [->|Hne].
    + rewrite lookup_delete_eq. symmetry. destruct l as [|x l]; simpl; [apply element_nil|].
      rewrite (element_tail st x). by rewrite decide_True.
    + rewrite lookup_delete_ne.
      2: { intros He. apply content_key_inj in He as [_ ?]; [lia|by left|lia|done]. }
      rewrite Hi by done. destruct l as [|x l]; simpl; [done|]. by rewrite (element_tail st x), decide_False.
Qed.

Lemma ends_push_limit n d s l now data limit pop :
  repr n d s → N (list_name l) → 0 ≤ n → n + 1 < 2 ^ 64 →
  ends (n + 1) (reply RVal (list_push_limit checks l now data limit pop)) d
    (apply checks now (ListPushLimit l data limit pop) s).1 (apply checks now (ListPushLimit l data limit pop) s).2.
Proof.
  intros Hr HN Hn Hlt. destruct l as [name]. simpl in HN. destruct (list_view n d s name Hr HN Hn) as (st & Hst & Hle & Hv).
  cbn [apply list_name]. set (old := elements s name) in *. pose proof (len_nonneg old) as Hlen. pose proof Hv as [Hget Hi].
  assert (∀ o s', ends (n + 1) (removed ←
      (if len old <? limit then list_append checks (mkList name) st (st + len old) data;; mret None
       else if pop then
         first ← arith (add_usize checks st 1);
         removed ← take_at list_tree on_list_tree (make_list_content_key name first);
         list_append checks (mkList name) (if is_some removed then first else st) (st + len old) data;;
         mret removed
       else err IsFull);
      list_renew (mkList name) now;; mret removed) d o s' →
    ends (n + 1) (reply RVal (list_push_limit checks (mkList name) now data limit pop)) d (outcome_map RVal o) s') as Hred.
  { intros o s' H. apply (ends_reply (n + 1) RVal). unfold list_push_limit, ends. rewrite (bind_ok _ _ _ _ _ Hget).
    rewrite (arith_bind _ _ _ _ (sub_usize_fits checks (st + len old) st ltac:(lia))).
    by replace (st + len old - st) with (len old) by lia. }
  destruct (len old <? limit).
  - apply (Hred (Ok None)). eapply (ends_bind (n + 1)); [|intros d' Hr'].
    + eapply (ends_bind (n + 1)); [|intros d' Hr'; by apply ends_ret].
      pose proof (ends_append n (n + 1) d s (λ t, t) name st old data) as Ha. rewrite on_list_tree_id in Ha.
      apply Ha; try done; try lia. apply touches_refl.
    + eapply ends_bind; [by apply ends_list_renew|]. intros d2 Hr2. by apply ends_ret.
  - destruct pop; [|apply (Hred (Err IsFull)); exists d; split; [done|by apply (repr_mono n); [lia|]]].
    destruct (take_first d name st old Hst ltac:(lia) Hv) as (Htake & Htouch & Hels).
    apply (Hred (Ok (head old))). eapply (ends_bind (n + 1)); [|intros d' Hr'].
    + unfold ends. rewrite (arith_bind _ _ _ _ (add_usize_fits checks st 1 ltac:(lia))), (bind_ok _ _ _ _ _ Htake).
      eapply (ends_bind (n + 1)); [|intros d' Hr'; by apply ends_ret].
      set (st' := if is_some (head old) then st + 1 else st) in *.
      assert (st + len old = st' + len (tail old)) as ->.
      { subst st'. destruct old as [|x r]; simpl; [done|]. rewrite len_cons. lia. }
      pose proof (len_nonneg (tail old)).
      assert (st' + len (tail old) = st + len old) as Hsum.
      { subst st'. destruct old as [|x r]; simpl; [done|]. rewrite len_cons. lia. }
      apply ends_append with (n := n); try done; try lia. subst st'. destruct (is_some (head old)); lia.
    + eapply ends_bind; [|intros d2 Hr2; by apply ends_ret].
      assert (store_push now name [data] (on_lists <[name := tail old]> s) =
              renew now KeyType.List name (on_lists <[name := tail old ++ [data]]> s)) as ->.
      { unfold store_push. f_equal. unfold elements, on_lists. simpl. rewrite lookup_insert_eq. simpl.
        by rewrite insert_insert_eq. }
      by apply ends_list_renew.
Qed.

Lemma ends_pop n d s l now :
  repr n d s → N (list_name l) → 0 ≤ n → n + 1 < 2 ^ 64 →
  ends n (reply RVal (list_pop checks l now)) d (apply checks now (ListPop l) s).1 (apply checks now (ListPop l) s).2.
Proof.
  intros Hr HN Hn Hlt. destruct l as [name]. simpl in HN. cbn [apply list_name].
  assert (ends n (list_pop checks (mkList name) now) d
    (Ok (if expired now s KeyType.List name then None else head (elements s name)))
    (if expired now s KeyType.List name then s else on_lists <[name := tail (elements s name)]> s)) as H.
  { apply (ends_if_expired n d s KeyType.List name); [done..|by intros ->|]. intros Hexp. rewrite Hexp.
    destruct (list_view n d s name Hr HN Hn) as (st & Hst & Hle & Hv). pose proof Hv as [Hget Hi].
    destruct (s_lists s !! name) as [old|] eqn:Hold.
    2: { unfold expired, deadline in Hexp. cbn [exists_as] in Hexp. by rewrite Hold in Hexp. }
    assert (elements s name = old) as Hels by (unfold elements; by rewrite Hold). rewrite Hels in *.
    pose proof (len_nonneg old). unfold ends. rewrite (bind_ok _ _ _ _ _ Hget).
    rewrite (arith_bind _ _ _ _ (sub_usize_fits checks (st + len old) st ltac:(lia))).
    replace (st + len old - st) with (len old) by lia. destruct old as [|x r]; cbn [head tail].
    { exists d. split; [done|]. assert (on_lists <[name := []]> s = s) as ->; [|done].
      unfold on_lists. rewrite insert_id by done. by destruct s. }
    rewrite len_cons in *. pose proof (len_nonneg r). rewrite (proj2 (Z.ltb_lt _ _)) by lia.
    destruct (take_first d name st (x :: r) Hst ltac:(lia) Hv) as (Htake & Htouch & Hrest).
    rewrite (arith_bind _ _ _ _ (add_usize_fits checks st 1 ltac:(lia))), (bind_ok _ _ _ _ _ Htake). cbn [head].
    set (f := λ t : T, (tree_remove (make_list_content_key name (st + 1)) t).2) in *.
    destruct (count_set name (st + 1) (st + (1 + len r)) (on_list_tree f d)) as (b & Hb & Hset).
    rewrite (bind_ok _ _ _ _ _ Hset). eexists. split; [reflexivity|].
    eapply (repr_list n n d s name (λ t, (tree_insert (make_list_count_key name) b (f t)).2) (Some r)); [done|lia|done| |];
      rewrite contents_insert.
    - exists (st + 1). split_and!; [lia|lia| |].
      + rewrite lookup_insert_eq, <-Hb. by replace (st + 1 + len r) with (st + (1 + len r)) by lia.
      + intros i Hrange. rewrite lookup_insert_ne; [by apply Hrest|].
        intros He. symmetry in He. apply content_key_not_count in He; [done|by left].
    - apply touches_insert; [apply key_of_count|done]. }
  apply (ends_reply n RVal) in H. unfold state. by destruct (expired now s KeyType.List name).
Qed.

(** The elements that a scan yields are those of the list, in their order. *)
Lemma content_keys_sorted name (k : nat) a :
  0 ≤ a → a + Z.of_nat k < 2 ^ 64 → StronglySorted bytes_lt (map (make_list_content_key name) (seqZ a (Z.of_nat k))).
Proof.
  revert a. induction k as [|k IH]; intros a Ha Hlt; [constructor|].
  rewrite seqZ_cons by lia. replace (Z.pred (Z.of_nat (S k))) with (Z.of_nat k) by lia. cbn [map].
  constructor; [apply IH; lia|]. apply Forall_fmap, Forall_forall. intros j Hj%elem_of_seqZ. cbn [compose].
  unfold compose. rewrite !content_key_eq. do 4 apply bytes_lt_app. apply be_bytes_lt; [lia|lia|]. change (256 ^ Z.of_nat 8) with (2 ^ 64). lia.
Qed.

Lemma zip_keys (key : Z → bytes) (ns : list Z) (l : list bytes) :
  length ns = length l → (zip_with (λ i v, (key i, v)) ns l).*1 = map key ns.
Proof. revert l. induction ns as [|i ns IH]; intros [|v l] Hl; try done. simpl. f_equal. apply IH. by injection Hl. Qed.

Lemma scan_elements n d s name :
  repr n d s → N name → 0 ≤ n → n + 1 < 2 ^ 64 →
  (tree_scan_prefix (content_prefix (mkList name)) (list_tree d)).*2 = elements s name.
Proof.
  intros Hr HN Hn Hlt. destruct (list_view n d s name Hr HN Hn) as (st & Hst & Hle & _ & Hi).
  set (l := elements s name) in *. pose proof (len_nonneg l).
  assert (length (seqZ (st + 1) (len l)) = length l) as Hlen by (rewrite length_seqZ; unfold len; lia).
  assert (tree_scan_prefix (content_prefix (mkList name)) (list_tree d) =
          zip_with (λ i v, (make_list_content_key name i, v)) (seqZ (st + 1) (len l)) l) as ->;
    [|apply fmap_zip_with_r; [done|lia]].
  assert (StronglySorted bytes_lt (zip_with (λ i v, (make_list_content_key name i, v)) (seqZ (st + 1) (len l)) l).*1) as Hs.
  { rewrite zip_keys by done. apply content_keys_sorted; unfold len in *; lia. }
  apply sorted_scan_unique; [done| |].
  - apply (NoDup_fmap_1 fst). revert Hs. generalize (zip_with (λ i v, (make_list_content_key name i, v)) (seqZ (st + 1) (len l)) l).*1.
    intros ks Hs. induction Hs as [|k ks Hs IH Hall]; [constructor|]. constructor; [|done].
    intros Hin. rewrite Forall_forall in Hall. by apply (irreflexivity bytes_lt k), Hall.
  - intros k v. rewrite elem_of_lookup_zip_with. split.
    + intros (j & i & v' & He & Hj & Hl). apply lookup_seqZ in Hj as [-> Hj].
      pose proof (f_equal fst He) as Hk. pose proof (f_equal snd He) as Hv. cbn [fst snd] in *. subst k v.
      rewrite Hi by lia. split; [|by apply content_prefix_content; [left|]].
      unfold element_at. rewrite bool_decide_true by lia. by replace (Z.to_nat _) with j by lia.
    + intros [Hk Hp]. destruct (rp_list_only _ _ _ Hr k) as (name' & HN' & [->|(i & Hrange & ->)]); [by eexists| |].
      * apply (content_prefix_count name name') in Hp; [done|by apply Hapart].
      * apply (content_prefix_content name name') in Hp as <-; [|by apply Hapart].
        rewrite Hi in Hk by done. unfold element_at in Hk. case_bool_decide; [|done].
        exists (Z.to_nat (i - st - 1)), i, v. split; [done|]. split; [|done]. apply lookup_seqZ.
        apply lookup_lt_Some in Hk. unfold len. lia.
Qed.

Lemma ends_all n d s l now :
  repr n d s → N (list_name l) → 0 ≤ n → n + 1 < 2 ^ 64 →
  ends n (list_all l now) d
    (Ok (if expired now s KeyType.List (list_name l) then [] else elements s (list_name l))) s.
Proof.
  intros Hr HN Hn Hlt. destruct l as [name]. cbn [list_name] in *. apply (ends_if_expired n d s KeyType.List name); [done..|by intros ->|].
  intros Hexp. rewrite Hexp. exists d. split; [|done]. unfold asks.
  by rewrite (scan_elements n d s name).
Qed.

Lemma ends_is_empty n d s l now :
  repr n d s → N (list_name l) → 0 ≤ n → n + 1 < 2 ^ 64 →
  ends n (list_is_empty l now) d
    (Ok (expired now s KeyType.List (list_name l) || bool_decide (elements s (list_name l) = []))) s.
Proof.
  intros Hr HN Hn Hlt. destruct l as [name]. cbn [list_name] in *. apply (ends_if_expired n d s KeyType.List name); [done..|by intros ->|].
  intros Hexp. rewrite Hexp. exists d. split; [|done]. unfold asks. do 2 f_equal. simpl orb.
  rewrite <-(scan_elements n d s name) by done. by destruct (tree_scan_prefix (content_prefix (mkList name)) (list_tree d)).
Qed.

Lemma ends_len n d s l now :
  repr n d s → N (list_name l) → 0 ≤ n →
  ends n (list_len checks l now) d
    (Ok (if expired now s KeyType.List (list_name l) then 0 else len (elements s (list_name l)))) s.
Proof.
  intros Hr HN Hn. destruct l as [name]. cbn [list_name] in *. apply (ends_if_expired n d s KeyType.List name); [done..|by intros ->|].
  intros Hexp. rewrite Hexp.
  destruct (list_view n d s name Hr HN Hn) as (st & Hst & Hle & [Hget _]). pose proof (len_nonneg (elements s name)).
  exists d. split; [|done]. rewrite (bind_ok _ _ _ _ _ Hget). rewrite sub_usize_fits by lia. unfold arith, mret, M_ret.
  do 2 f_equal. lia.
Qed.

Lemma ends_get_index n d s l now idx :
  repr n d s → N (list_name l) → 0 ≤ n → n + 1 < 2 ^ 64 → 0 ≤ idx →
  ends n (list_get_index checks l now idx) d
    (Ok (if expired now s KeyType.List (list_name l) then None else elements s (list_name l) !! Z.to_nat idx)) s.
Proof.
  intros Hr HN Hn Hlt Hidx. destruct l as [name]. cbn [list_name] in *. apply (ends_if_expired n d s KeyType.List name); [done..|by intros ->|].
  intros Hexp. rewrite Hexp.
  destruct (list_view n d s name Hr HN Hn) as (st & Hst & Hle & [Hget Hi]). set (l := elements s name) in *.
  pose proof (len_nonneg l). exists d. split; [|done]. rewrite (bind_ok _ _ _ _ _ Hget).
  rewrite (arith_bind _ _ _ _ (sub_usize_fits checks (st + len l) st ltac:(lia))).
  replace (st + len l - st) with (len l) by lia. destruct (idx <? len l) eqn:Hlti.
  - apply Z.ltb_lt in Hlti.
    rewrite (arith_bind _ _ _ _ (add_usize_fits checks st idx ltac:(lia))).
    rewrite (arith_bind _ _ _ _ (add_usize_fits checks (st + idx) 1 ltac:(lia))).
    unfold asks. rewrite get_contents, Hi by lia. unfold element_at. rewrite bool_decide_true by lia.
    by replace (st + idx + 1 - st - 1) with idx by lia.
  - apply Z.ltb_ge in Hlti. unfold len in Hlti. by rewrite lookup_ge_None_2 by lia.
Qed.

Lemma ends_clear n d s l :
  repr n d s → N (list_name l) → ends n (list_clear l) d (Ok tt) (on_lists (delete (list_name l)) s).
Proof.
  intros Hr HN. destruct l as [name]. simpl in HN. eexists. split; [reflexivity|].
  set (ks := make_list_count_key name :: (tree_scan_prefix (content_prefix (mkList name)) (list_tree d)).*1).
  assert (∀ k, k ∈ ks → key_of_list name k) as Hks.
  { intros k [->|Hk]%elem_of_cons; [apply key_of_count|]. apply scan_keys in Hk as [Hk Hp].
    destruct (rp_list_only _ _ _ Hr k Hk) as (name' & HN' & [->|(i & Hrange & ->)]).
    - apply (content_prefix_count name name') in Hp; [done|by apply Hapart].
    - apply (content_prefix_content name name') in Hp as <-; [|by apply Hapart]. by apply key_of_content. }
  eapply (repr_list n n d s name (tree_apply_batch (removals ks)) None); [done|done|done| |];
    cbn [list_at]; rewrite batch_contents.
  - split; [rewrite batch_removals, decide_True; [done|by left]|]. intros i Hrange. rewrite batch_removals.
    destruct (decide _) as [|Hn]; [done|]. apply eq_None_not_Some. intros Hk. apply Hn. right. apply scan_keys.
    split; [done|]. by apply content_prefix_content; [left|].
  - intros k. rewrite batch_removals. destruct (decide (k ∈ ks)); [right; by apply Hks|by left].
Qed.

(** ** Cleaning up *)

#[local] Existing Instance due_le_dec.

Lemma due_sorted_perm s : due_sorted s ≡ₚ map_to_list (s_due s).
Proof. apply merge_sort_Permutation. Qed.

Lemma elem_of_due_sorted s t name ty : (t, name, ty) ∈ due_sorted s ↔ s_due s !! (t, name) = Some ty.
Proof. rewrite due_sorted_perm. apply elem_of_map_to_list. Qed.

Lemma due_sorted_sorted s : StronglySorted bytes_le (map due_key (due_sorted s)).
Proof.
  assert (Total due_le) as Htotal by (intros e e'; apply (bytes_le_total (due_key e))).
  assert (Transitive due_le) as Htrans by (intros e1 e2 e3; apply (bytes_le_trans (due_key e1))).
  pose proof (StronglySorted_merge_sort due_le (map_to_list (s_due s))) as Hs. fold (due_sorted s) in Hs.
  induction Hs as [|e es Hs IH Hall]; [constructor|]. constructor; [done|]. by apply Forall_fmap.
Qed.

(** What the trees have of an entry that is due. *)
Definition due_entry (e : Z * bytes * KeyType) : bytes * bytes := (be_bytes 8 e.1.1 ++ e.1.2, KeyType.encode e.2).

Lemma scan_due n d s :
  repr n d s → tree_scan_prefix [] (expire_key_tree d) = map due_entry (due_sorted s).
Proof.
  intros Hr.
  assert (∀ es : list (Z * bytes * KeyType), (map due_entry es).*1 = (map due_key es).*1) as Hkeys.
  { intros es. induction es as [|e es IH]; [done|]. simpl. by f_equal. }
  assert (NoDup (map due_key (due_sorted s)).*1) as Hnd.
  { rewrite <-list_fmap_compose. apply NoDup_fmap_2_strong; [|rewrite due_sorted_perm; apply NoDup_map_to_list].
    intros [[t name] ty] [[t' name'] ty'] He%elem_of_due_sorted He'%elem_of_due_sorted Heq.
    unfold compose, due_key in Heq. simpl in Heq.
    apply due_key_inj in Heq as [-> ->]; [congruence|by eapply rp_due_range..]. }
  assert (StronglySorted bytes_lt (map due_entry (due_sorted s)).*1) as Hs.
  { rewrite Hkeys. apply sorted_strict; [apply due_sorted_sorted|done]. }
  apply sorted_scan_unique; [done| |].
  - apply (NoDup_fmap_1 fst). by rewrite Hkeys.
  - intros k v. rewrite list_elem_of_fmap. split.
    + intros ([[t name] ty] & He & Hin%elem_of_due_sorted). unfold due_entry in He. simpl in He.
      pose proof (f_equal fst He) as Hk. pose proof (f_equal snd He) as Hv. cbn [fst snd] in *. subst k v.
      split; [|apply prefix_nil]. rewrite (rp_due _ _ _ Hr) by (by eapply rp_due_range). by rewrite Hin.
    + intros [Hk _]. destruct (rp_due_only _ _ _ Hr k) as (t & name & Ht & ->); [by eexists|].
      rewrite (rp_due _ _ _ Hr) in Hk by done. destruct (s_due s !! (t, name)) as [ty|] eqn:Hd; [|done].
      exists (t, name, ty). split; [|by apply elem_of_due_sorted]. unfold due_entry. simpl. by injection Hk as <-.
Qed.

Definition due_name (e : Z * bytes * KeyType) : bytes * KeyType := (be_bytes 8 e.1.1 ++ e.1.2, e.2).

Lemma due_entries_spec now limit count es :
  (∀ e, e ∈ es → i64 e.1.1) →
  due_entries now limit count (map due_entry es) = Ok (map due_name (take_due now limit count es)).
Proof.
  revert count. induction es as [|[[t name] ty] es IH]; intros count Hes; [done|].
  unfold due_entry at 1. cbn [map due_entries take_due fst snd].
  destruct (limit <? count); [done|].
  assert (i64 t) as Ht by (apply (Hes (t, name, ty)); by left).
  rewrite (proj2 (Z.ltb_ge _ _)); [|rewrite len_app; unfold len at 1; rewrite length_be_bytes; pose proof (len_nonneg name); lia].
  rewrite (take_app_length' _ _ 8) by (by rewrite length_be_bytes). rewrite as_isize_bytes by done.
  destruct (now <? t); [done|]. rewrite IH by (intros e He; apply Hes; by right). by destruct ty.
Qed.

Lemma take_due_sub now limit count es e : e ∈ take_due now limit count es → e ∈ es ∧ e.1.1 ≤ now.
Proof.
  revert count. induction es as [|e' es IH]; intros count; cbn [take_due]; [by intros ?%not_elem_of_nil|].
  destruct (limit <? count); [by intros ?%not_elem_of_nil|].
  destruct (now <? e'.1.1) eqn:Hlt; [by intros ?%not_elem_of_nil|]. apply Z.ltb_ge in Hlt.
  intros [->|Hin]%elem_of_cons; [by split; [left|]|]. destruct (IH _ Hin). by split; [right|].
Qed.

Lemma ends_remove_due n d s e :
  repr n d s → named e.2 e.1.2 → ends n (remove_due e.1.2 e.2) d (Ok tt) (remove_as e s).
Proof.
  destruct e as [[t name] ty]. cbn [fst snd]. intros Hr HN. unfold remove_as. destruct ty; cbn [remove_due fst snd].
  - apply ends_modify, repr_kv; [done|]. by rewrite contents_remove, (rp_kv _ _ _ Hr).
  - eapply ends_bind; [by apply ends_map_new|]. intros d' Hr'. by apply ends_map_clear.
  - by apply ends_clear.
Qed.

(** The entries are taken out of both trees. *)
Definition drop_due (es : list (Z * bytes * KeyType)) (s : Store) : Store :=
  foldl (λ s e, on_deadlines (delete e.1.2) (delete e.1) s) s es.

Lemma drop_due_spec es s :
  (∀ k, s_deadlines (drop_due es s) !! k = if decide (k ∈ map (λ e, e.1.2) es) then None else s_deadlines s !! k) ∧
  (∀ x, s_due (drop_due es s) !! x = if decide (x ∈ es.*1) then None else s_due s !! x) ∧
  s_kv (drop_due es s) = s_kv s ∧ s_items (drop_due es s) = s_items s ∧ s_maps (drop_due es s) = s_maps s ∧
  s_lists (drop_due es s) = s_lists s ∧ s_empties (drop_due es s) = s_empties s ∧ s_next (drop_due es s) = s_next s.
Proof.
  unfold drop_due. revert s. induction es as [|e es IH]; intros s; [done|]. cbn [foldl map fmap list_fmap].
  destruct (IH (on_deadlines (delete e.1.2) (delete e.1) s)) as (H1 & H2 & H3). split; [|split; [|exact H3]].
  - intros k. rewrite H1. cbn [s_deadlines on_deadlines]. destruct (decide (k = e.1.2)) as [->|Hne].
    + rewrite lookup_delete_eq, (decide_True (P := e.1.2 ∈ _ :: _)) by (by left). by destruct (decide _).
    + rewrite lookup_delete_ne by done. apply decide_ext. set_solver.
  - intros x. rewrite H2. cbn [s_due on_deadlines]. destruct (decide (x = e.1)) as [->|Hne].
    + rewrite lookup_delete_eq, (decide_True (P := e.1 ∈ _ :: _)) by (by left). by destruct (decide _).
    + rewrite lookup_delete_ne by done. apply decide_ext. set_solver.
Qed.

Lemma repr_drop_due n d s es :
  repr n d s → (∀ e, e ∈ es → i64 e.1.1) →
  repr n (on_expire_key_tree (tree_apply_batch (removals (map due_name es).*1))
            (on_key_expire_tree (tree_apply_batch (removals (map (λ e : bytes * KeyType, drop 8 e.1) (map due_name es)))) d))
    (drop_due es s).
Proof.
  intros Hr Hes. destruct Hr. destruct (drop_due_spec es s) as (D1 & D2 & E1 & E2 & E3 & E4 & E5 & E6).
  assert (map (λ e : bytes * KeyType, drop 8 e.1) (map due_name es) = map (λ e, e.1.2) es) as ->.
  { rewrite map_map. apply map_ext. intros e. cbn [due_name fst]. by rewrite (drop_app_length' _ _ 8) by (by rewrite length_be_bytes). }
  split; cbn [kv_tree map_tree list_tree key_expire_tree expire_key_tree empties next_flag on_expire_key_tree on_key_expire_tree];
    unfold items; rewrite ?E1, ?E2, ?E3, ?E4, ?E5, ?E6, ?batch_contents; try done.
  - intros k. rewrite batch_removals, D1, rp_deadline0. by destruct (decide _).
  - intros k t. rewrite D1. destruct (decide _); [done|]. apply rp_deadline_range0.
  - intros t k Ht. rewrite batch_removals, D2, rp_due0 by done.
    erewrite (decide_ext _ ((t, k) ∈ es.*1)); [by destruct (decide _)|]. rewrite !list_elem_of_fmap. split.
    + intros (x & He & Hx). apply list_elem_of_fmap in Hx as ([[t' k'] ty] & -> & Hin). cbn [due_name fst snd] in He.
      apply due_key_inj in He as [-> ->]; [|done|by apply (Hes _ Hin)]. by exists (t', k', ty).
    + intros ([x ty] & He & Hin). cbn [fst] in He. subst x. exists (due_name (t, k, ty)). split; [done|].
      apply list_elem_of_fmap. by eexists.
  - intros k [v Hk]. rewrite batch_removals in Hk. destruct (decide (k ∈ _)); [done|]. eauto.
  - intros t k [v Hk]. rewrite D2 in Hk. destruct (decide _); [done|]. eauto.
  - intros t k ty Hk. rewrite D2 in Hk. destruct (decide _); [done|]. eauto.
Qed.

Lemma for_each_map {S A C} (f : A → M S StorageError unit) (g : C → A) xs d :
  for_each f (map g xs) d = for_each (λ x, f (g x)) xs d.
Proof.
  revert d. induction xs as [|x xs IH]; intros d; [done|]. cbn [map for_each]. unfold mbind, M_bind.
  destruct (f (g x) d) as [[]]; [apply IH|done..].
Qed.

Lemma ends_cleanup n d s now limit :
  repr n d s →
  ends n (cleanup now limit) d (Ok (store_cleanup now limit s).1) (store_cleanup now limit s).2.
Proof.
  intros Hr. unfold cleanup, store_cleanup. cbn [fst snd]. apply ends_read. rewrite (scan_due n d s Hr).
  assert (∀ e, e ∈ due_sorted s → i64 e.1.1 ∧ named e.2 e.1.2) as Hall.
  { intros [[t name] ty] He%elem_of_due_sorted. split; [by eapply rp_due_range|by eapply rp_due_named]. }
  unfold lift, ends. unfold mbind at 1, M_bind at 1.
  rewrite due_entries_spec by (intros e He; by apply Hall). set (es := take_due now limit 0 (due_sorted s)).
  assert (∀ e, e ∈ es → i64 e.1.1 ∧ named e.2 e.1.2) as Hes by (intros e He; by apply Hall, (take_due_sub now limit 0)).
  assert (ends n (for_each (λ '(expire_at_key, t), remove_due (drop 8 expire_at_key) t) (map due_name es)) d (Ok tt)
            (foldl (λ s e, remove_as e s) s es)) as (d1 & Hrun & Hr1).
  { unfold ends. rewrite for_each_map. apply ends_for_each; [|done]. intros e d2 s2 He Hr2. cbn [due_name].
    rewrite (drop_app_length' _ _ 8) by (by rewrite length_be_bytes). apply ends_remove_due; [done|by apply Hes]. }
  rewrite (bind_ok _ _ _ _ _ Hrun). eexists. split; [unfold mbind, M_bind, batch_at, modify; unfold len; rewrite length_map; reflexivity|].
  apply repr_drop_due; [done|]. intros e He. by apply Hes.
Qed.

(** ** Commands *)

Lemma ends_new_deadline {A} n d s t name now ms (x : A) :
  repr n d s → named t name →
  ends n (match ms with
          | Some ms =>
              at_ ← arith (add_i64 checks now ms);
              _ ← attempt (E' := StorageError) (_expire_at name at_ t);
              mret x
          | None => mret x
          end) d
    (outcome_map (λ _, x) (new_deadline checks now t name ms s).1) (new_deadline checks now t name ms s).2.
Proof.
  intros Hr HN. unfold new_deadline. destruct ms as [ms|]; [|by apply ends_ret].
  destruct (add_i64 checks now ms) as [at_|] eqn:Hat; [|by exists d]. apply add_i64_range in Hat.
  destruct (ends_set_deadline n d s t name at_ Hr Hat HN) as (d' & Hrun & Hr').
  exists d'. unfold arith, attempt, mbind, M_bind, mret, M_ret. by rewrite Hrun.
Qed.

Lemma ends_map_new_expire n d s now name ms :
  repr n d s → N name →
  ends n (reply RMap (map_new_expire checks now name ms)) d (apply checks now (DBMapNew name ms) s).1
    (apply checks now (DBMapNew name ms) s).2.
Proof.
  intros Hr HN. cbn [apply]. set (s1 := (store_map name s).2). set (m := (store_map name s).1).
  set (s2 := on_empties <[map_empty m := store_map_empty now m s1]> s1).
  assert (ends n (map_new_expire checks now name ms) d
    (outcome_map (λ _, m) (new_deadline checks now KeyType.Map name ms s2).1) (new_deadline checks now KeyType.Map name ms s2).2) as H.
  { eapply ends_bind; [by apply ends_map_new|]. fold s1 m. intros d1 Hr1.
    assert (N (map_name m)) as HNm by done.
    destruct (ends_map_is_empty n d1 s1 m now Hr1 HNm) as (d2 & Hrun & Hr2).
    unfold ends. unfold mbind at 1, M_bind at 1. unfold attempt at 1. rewrite Hrun.
    eapply (ends_bind n n); [apply ends_modify, repr_empties, Hr2|]. intros d3 Hr3. fold s2 in Hr3.
    by apply (ends_new_deadline n d3 s2 KeyType.Map name now ms m). }
  apply (ends_reply n RMap) in H. revert H. unfold state, mbind, M_bind, modify, mret, M_ret.
  destruct (store_map name s) as [m0 s0]. cbn [fst snd] in *. subst s1 m. fold s2.
  destruct (new_deadline checks now KeyType.Map name ms s2) as [[] s3]; done.
Qed.

(** What a command must be for the theorem: its maps and lists have names that are
    kept apart, its deadlines are machine integers. *)
Definition well_named (cmd : Command) : Prop :=
  match cmd with
  | DBMapNew name _ | DBMapRemove name | DBMapContainsKey name
  | DBListNew name _ | DBListRemove name | DBListContainsKey name => N name
  | DBExpireAt _ at_ => i64 at_
  | MapExpireAt m at_ => N (map_name m) ∧ i64 at_
  | MapInsert m _ _ | MapGet m _ | MapRemove m _ | MapContainsKey m _ | MapIsEmpty m | MapClear m
  | MapRemoveAndFetch m _ | MapRemoveWithPrefix m _ | MapBatchInsert m _ | MapBatchRemove m _
  | MapTTL m | MapIter m _ => N (map_name m)
  | ListExpireAt l at_ => N (list_name l) ∧ i64 at_
  | ListGetIndex l idx => N (list_name l) ∧ 0 ≤ idx
  | ListPush l _ | ListPushs l _ | ListPushLimit l _ _ _ | ListPop l | ListAll l | ListLen l
  | ListIsEmpty l | ListClear l | ListTTL l => N (list_name l)
  | _ => True
  end.

Definition pushed (cmd : Command) : Z :=
  match cmd with ListPush _ _ | ListPushLimit _ _ _ _ => 1 | ListPushs _ vals => len vals | _ => 0 end.

Lemma ends_does n m d s f : ends n m d (Ok tt) (f s) → ends n (done m) d (does f s).1 (does f s).2.
Proof. apply ends_done. Qed.

Lemma ends_says {A} n (r : A → Reply) m d s (f : Store → Reply) a :
  ends n m d (Ok a) s → f s = r a → ends n (reply r m) d (says f s).1 (says f s).2.
Proof. intros H Hf. apply (ends_reply n r) in H. unfold says, asks. simpl. by rewrite Hf. Qed.

Lemma ends_sets n d s t name at_ :
  repr n d s → i64 at_ → named t name →
  ends n (reply RBool (_expire_at name at_ t)) d
    (state (λ s, let '(b, s) := set_deadline t name at_ s in (RBool b, s)) s : outcome StorageError Reply * Store).1
    (state (λ s, let '(b, s) := set_deadline t name at_ s in (RBool b, s)) s : outcome StorageError Reply * Store).2.
Proof.
  intros Hr Hat HN. pose proof (ends_set_deadline n d s t name at_ Hr Hat HN) as H. apply (ends_reply n RBool) in H.
  unfold state. by destruct (set_deadline t name at_ s).
Qed.

Lemma ends_says_ttl n d s t name now :
  repr n d s → named t name →
  ends n (reply RInt (ttl ← _ttl checks now name (_contains_key name t); mret (positive_ttl ttl))) d
    ((x ← ttl checks now t name; mret (RInt (left_of x))) s).1 ((x ← ttl checks now t name; mret (RInt (left_of x))) s).2.
Proof.
  intros Hr HN. pose proof (ends_ttl n d s t name now Hr HN) as H. apply (ends_reply n RInt) in H.
  pose proof (ttl_state now t name s) as Hs. unfold mbind at 2 3, M_bind.
  destruct (ttl checks now t name s) as [[x| |] s0]; simpl in Hs; subst s0; exact H.
Qed.

(** Which of the trees a command is about. *)
Definition kind_of (cmd : Command) : KeyType :=
  match cmd with
  | DBMapNew _ _ | DBMapRemove _ | DBMapContainsKey _
  | MapInsert _ _ _ | MapGet _ _ | MapRemove _ _ | MapContainsKey _ _ | MapIsEmpty _ | MapClear _
  | MapRemoveAndFetch _ _ | MapRemoveWithPrefix _ _ | MapBatchInsert _ _ | MapBatchRemove _ _
  | MapExpireAt _ _ | MapTTL _ | MapIter _ _ => KeyType.Map
  | DBListNew _ _ | DBListRemove _ | DBListContainsKey _
  | ListPush _ _ | ListPushs _ _ | ListPushLimit _ _ _ _ | ListPop _ | ListAll _ | ListGetIndex _ _
  | ListLen _ | ListIsEmpty _ | ListClear _ | ListExpireAt _ _ | ListTTL _ => KeyType.List
  | _ => KeyType.KV
  end.

Section Step.
Context (now : Z) (cmd : Command) (n : Z) (d : @SledStorageDB T) (s : Store).
Context (Hr : repr n d s) (Hn : 0 ≤ n) (Hlt : n + pushed cmd + 1 < 2 ^ 64) (Hwf : well_named cmd).

Lemma step_kv :
  kind_of cmd = KeyType.KV →
  ends (n + pushed cmd) (exec checks now cmd) d (apply checks now cmd s).1 (apply checks now cmd s).2.
Proof.
  intros Hk. destruct cmd; try discriminate Hk; cbn [pushed well_named exec] in *; rewrite ?Z.add_0_r in *.
  - by apply ends_does, ends_insert.
  - eapply ends_says; [by apply ends_get|done].
  - by apply ends_does, ends_kv_remove.
  - by apply ends_batch_insert.
  - by apply ends_does, ends_batch_remove.
  - pose proof (ends_counter_update n d s _ (λ old, match old with Some o => add_i64 checks o increment | None => Some increment end)
      key Hr (λ o, eq_refl)) as H.
    cbn [apply]. unfold mbind, M_bind. destruct (kv_update _ key s) as [[[]| |] s1] eqn:Hu; destruct H as (d1 & Hrun & Hr1);
      exists d1; unfold done, _counter_incr, mbind, M_bind; by rewrite Hrun.
  - pose proof (ends_counter_update n d s
      (λ old, match old with Some n => sub_i64 checks n decrement | None => sub_i64 checks 0 decrement end)
      (λ old, sub_i64 checks (default 0 old) decrement) key Hr) as H.
    specialize (H ltac:(by intros [])). cbn [apply]. unfold mbind, M_bind.
    destruct (kv_update _ key s) as [[[]| |] s1] eqn:Hu; destruct H as (d1 & Hrun & Hr1);
      exists d1; unfold done, _counter_decr, mbind, M_bind; by rewrite Hrun.
  - by apply ends_counter_get.
  - by apply ends_does, ends_counter_set.
  - eapply ends_says; [by apply (ends_contained n d s KeyType.KV)|done].
  - by apply (ends_sets n d s KeyType.KV).
  - by apply (ends_says_ttl n d s KeyType.KV).
  - eapply ends_says; [exists d; split; [reflexivity|done]|]. by rewrite len_contents, (rp_kv _ _ _ Hr).
  - pose proof (ends_cleanup n d s now limit Hr) as H. apply (ends_reply n RSize) in H. cbn [apply]. unfold state.
    by destruct (store_cleanup now limit s).
Qed.

Lemma step_map :
  kind_of cmd = KeyType.Map →
  ends (n + pushed cmd) (exec checks now cmd) d (apply checks now cmd s).1 (apply checks now cmd s).2.
Proof.
  intros Hk. destruct cmd; try discriminate Hk; cbn [pushed well_named exec] in *; rewrite ?Z.add_0_r in *.
  - by apply ends_map_new_expire.
  - apply ends_does. eapply ends_bind; [by apply ends_map_new|]. intros d1 Hr1. apply ends_read, ends_write, ends_forget.
    by apply repr_map_clear.
  - eapply ends_says; [by apply (ends_contained n d s KeyType.Map)|done].
  - by apply ends_does, ends_map_insert.
  - eapply ends_says; [by apply ends_map_get|done].
  - by apply ends_does, ends_map_remove.
  - eapply ends_says; [by apply ends_map_contains|done].
  - eapply ends_says; [by apply ends_map_is_empty|done].
  - by apply ends_does, ends_map_clear.
  - by apply ends_map_fetch.
  - apply ends_does. by apply ends_read, ends_modify, repr_remove_prefix.
  - apply ends_does. apply (ends_for_each n (λ '(k, v), map_insert m now k v) (λ kv, store_map_insert now m kv.1 kv.2)); [|done].
    intros [k v] d1 s1 _ Hr1. by apply ends_map_insert.
  - apply ends_does. apply (ends_for_each n (map_remove_key m) (store_map_remove m)); [|done].
    intros k d1 s1 _ Hr1. by apply ends_map_remove.
  - destruct Hwf. by apply (ends_sets n d s KeyType.Map).
  - by apply (ends_says_ttl n d s KeyType.Map).
  - eapply ends_says; [by apply ends_map_iter|done].
Qed.

Lemma step_list :
  kind_of cmd = KeyType.List →
  ends (n + pushed cmd) (exec checks now cmd) d (apply checks now cmd s).1 (apply checks now cmd s).2.
Proof.
  intros Hk. destruct cmd; try discriminate Hk; cbn [pushed well_named exec] in *; rewrite ?Z.add_0_r in *.
  - pose proof (ends_new_deadline n d s KeyType.List name now expire_ms (mkList name) Hr Hwf) as H.
    apply (ends_reply n RList) in H. cbn [apply]. unfold mbind at 1 2, M_bind.
    destruct (new_deadline checks now KeyType.List name expire_ms s) as [[] s1]; exact H.
  - apply ends_does. eapply ends_bind; [by apply ends_clear|]. intros d1 Hr1. by apply ends_forget.
  - eapply ends_says; [by apply (ends_contained n d s KeyType.List)|done].
  - apply ends_does, ends_push; [done..|lia].
  - by apply ends_does, ends_pushs.
  - apply ends_push_limit; [done..|lia].
  - by apply ends_pop.
  - eapply ends_says; [by apply ends_all|done].
  - destruct Hwf. eapply ends_says; [by apply ends_get_index|done].
  - eapply ends_says; [by apply ends_len|done].
  - eapply ends_says; [by apply ends_is_empty|done].
  - apply ends_does. by apply ends_clear.
  - destruct Hwf. by apply (ends_sets n d s KeyType.List).
  - by apply (ends_says_ttl n d s KeyType.List).
Qed.

Lemma step : ends (n + pushed cmd) (exec checks now cmd) d (apply checks now cmd s).1 (apply checks now cmd s).2.
Proof. destruct (kind_of cmd) eqn:Hk; [by apply step_kv|by apply step_map|by apply step_list]. Qed.
End Step.

Definition total_pushed (cmds : list (Z * Command)) : Z := foldr (λ c n, pushed c.2 + n) 0 cmds.

Lemma pushed_nonneg cmd : 0 ≤ pushed cmd.
Proof. destruct cmd; simpl; try lia. apply len_nonneg. Qed.

Lemma total_pushed_nonneg cmds : 0 ≤ total_pushed cmds.
Proof. induction cmds as [|[now cmd] cmds IH]; simpl; [lia|]. pose proof (pushed_nonneg cmd). lia. Qed.

Lemma steps cmds n d s :
  repr n d s → 0 ≤ n → n + total_pushed cmds + 1 < 2 ^ 64 → Forall (λ c, well_named c.2) cmds →
  (run checks cmds d).1 = (apply_all checks cmds s).1 ∧
  repr (n + total_pushed cmds) (run checks cmds d).2 (apply_all checks cmds s).2.
Proof.
  revert n d s. induction cmds as [|[now cmd] cmds IH]; intros n d s Hr Hn Hlt Hwf.
  { cbn in *. by rewrite Z.add_0_r. }
  apply Forall_cons in Hwf as [Hcmd Hwf]. cbn [total_pushed foldr snd] in *. fold (total_pushed cmds) in *.
  pose proof (pushed_nonneg cmd). pose proof (total_pushed_nonneg cmds).
  destruct (step now cmd n d s Hr Hn ltac:(lia) Hcmd) as (d1 & Hrun & Hr1).
  cbn [run apply_all]. rewrite Hrun. destruct (apply checks now cmd s) as [o s1]. cbn [fst snd] in *.
  destruct (IH (n + pushed cmd) d1 s1 Hr1 ltac:(lia) ltac:(lia) Hwf) as [H1 H2].
  destruct (run checks cmds d1) as [os d2], (apply_all checks cmds s1) as [os' s2]. cbn [fst snd] in *.
  split; [by f_equal|]. by rewrite Z.add_assoc.
Qed.

(** A database whose trees are empty. *)
Definition fresh_db (d : @SledStorageDB T) : Prop :=
  contents (kv_tree d) = ∅ ∧ contents (map_tree d) = ∅ ∧ contents (list_tree d) = ∅ ∧
  contents (expire_key_tree d) = ∅ ∧ contents (key_expire_tree d) = ∅ ∧ empties d = ∅ ∧ next_flag d = 0.

Lemma repr_fresh d : fresh_db d → repr 0 d store_new.
Proof.
  intros (H1 & H2 & H3 & H4 & H5 & H6 & H7). split; rewrite ?H1, ?H2, ?H3, ?H4, ?H5; try done.
  - by intros k [v Hv].
  - by intros k [v Hv].
  - by intros k [v Hv].
  - by intros t name [v Hv].
Qed.
End Refine.
