(* ===== verification/SledSafe.v ===== *)
(** * What clients of the storage on disk may rely on

    The storage on disk is the abstract store, a clean-up spares what is not due,
    and the places where the storage surprises: what it does there, on small
    databases over finite maps. *)

From stdpp Require Import base list numbers option gmap sorting strings.
From Stdlib Require Import ZArith Lia.
From S2P Require Import Prelude Topic Counter Postcard SledKeys Sled SledStore SledRefine.

#[local] Open Scope Z_scope.

(** What a clean-up has no business with: the store is the same for [name]. *)
Definition same_for (name : bytes) (s s' : Store) : Prop :=
  s_kv s' !! name = s_kv s !! name ∧ items s' name = items s name ∧ (name ∈ s_maps s' ↔ name ∈ s_maps s) ∧
  s_lists s' !! name = s_lists s !! name ∧ s_deadlines s' !! name = s_deadlines s !! name.

#[export] Instance same_for_refl name : Reflexive (same_for name).
Proof. done. Qed.

#[export] Instance same_for_trans name : Transitive (same_for name).
Proof.
  intros s1 s2 s3 (H1 & H2 & H3 & H4 & H5) (K1 & K2 & K3 & K4 & K5).
  split; [congruence|]. split; [congruence|]. split; [tauto|]. split; congruence.
Qed.

Lemma remove_as_same e name s : e.1.2 ≠ name → same_for name s (remove_as e s).
Proof.
  destruct e as [[t k] ty]. cbn [fst snd]. intros Hne. unfold same_for, remove_as, items. cbn [snd].
  destruct ty; cbn -[delete difference]; rewrite ?lookup_delete_ne by done; try done. repeat split; set_solver.
Qed.

Lemma foldl_same {A} (f : Store → A → Store) (l : list A) name s :
  (∀ a s, a ∈ l → same_for name s (f s a)) → same_for name s (foldl f s l).
Proof.
  revert s. induction l as [|a l IH]; intros s Hf; [done|]. simpl. etransitivity; [by apply Hf, elem_of_cons; left|].
  apply IH. intros b s' Hb. apply Hf. by right.
Qed.

Lemma take_due_spec now limit count es :
  (∀ e, e ∈ take_due now limit count es → e ∈ es ∧ e.1.1 ≤ now) ∧
  (count ≤ limit + 1 → len (take_due now limit count es) ≤ limit + 1 - count).
Proof.
  revert count. induction es as [|e es IH]; intros count; [split; [by intros e ?%elem_of_nil|unfold len; simpl; lia]|]. simpl.
  destruct (Z.ltb_spec limit count); [split; [by intros e' ?%elem_of_nil|unfold len; simpl; lia]|].
  destruct (Z.ltb_spec now e.1.1); [split; [by intros e' ?%elem_of_nil|unfold len; simpl; lia]|].
  destruct (IH (count + 1)) as [IH1 IH2]. split.
  - intros e' [->|He]%elem_of_cons; [split; [by left|done]|]. destruct (IH1 e' He). split; [by right|done].
  - intros _. specialize (IH2 ltac:(lia)). unfold len in *. simpl. lia.
Qed.

(** A clean-up changes nothing for a name without an entry that is due. *)
Lemma store_cleanup_same now limit name s :
  (∀ t, t ≤ now → s_due s !! (t, name) = None) → same_for name s (store_cleanup now limit s).2.
Proof.
  intros Hnone. unfold store_cleanup. cbn [snd].
  assert (∀ e, e ∈ take_due now limit 0 (due_sorted s) → e.1.2 ≠ name) as Hes.
  { intros [[t k] ty] He Hk. apply take_due_spec in He as [He Ht]. apply elem_of_due_sorted in He. simpl in *. subst k.
    by rewrite Hnone in He. }
  transitivity (foldl (λ s e, remove_as e s) s (take_due now limit 0 (due_sorted s))).
  - apply foldl_same. intros e s' He. by apply remove_as_same, Hes.
  - apply foldl_same. intros e s' He. unfold same_for, items. cbn -[delete].
    rewrite lookup_delete_ne by (by apply Hes). done.
Qed.

(** The questions about one name: what is there, whether there is something, how much
    of it, and how long it has to live. *)
Inductive asks_about (name : bytes) : Command → Prop :=
| AskGet : asks_about name (DBGet name)
| AskKey : asks_about name (DBContainsKey name)
| AskCounter : asks_about name (DBCounterGet name)
| AskTtl : asks_about name (DBTtl name)
| AskMapKey : asks_about name (DBMapContainsKey name)
| AskListKey : asks_about name (DBListContainsKey name)
| AskItem e key : asks_about name (MapGet (mkMap name e) key)
| AskItemKey e key : asks_about name (MapContainsKey (mkMap name e) key)
| AskMapEmpty e : asks_about name (MapIsEmpty (mkMap name e))
| AskMapTtl e : asks_about name (MapTTL (mkMap name e))
| AskItems e prefix : asks_about name (MapIter (mkMap name e) prefix)
| AskElement idx : 0 ≤ idx → asks_about name (ListGetIndex (mkList name) idx)
| AskElements : asks_about name (ListAll (mkList name))
| AskLength : asks_about name (ListLen (mkList name))
| AskListEmpty : asks_about name (ListIsEmpty (mkList name))
| AskListTtl : asks_about name (ListTTL (mkList name)).

Lemma asked_same checks now name q s s' :
  asks_about name q → same_for name s s' → (apply checks now q s').1 = (apply checks now q s).1.
Proof.
  intros Hq (H1 & H2 & H3 & H4 & H5).
  assert (∀ t, exists_as s' t name = exists_as s t name) as He.
  { intros []; simpl; [by rewrite H1|by apply bool_decide_ext|by rewrite H4]. }
  assert (∀ t, deadline s' t name = deadline s t name) as Hd.
  { intros t. unfold deadline. by rewrite He, H5. }
  assert (∀ t, expired now s' t name = expired now s t name) as Hx.
  { intros t. unfold expired. by rewrite Hd. }
  assert (∀ t, (ttl checks now t name s').1 = (ttl checks now t name s).1) as Ht.
  { intros t. unfold ttl. rewrite Hd. destruct (deadline s t name); [|done]. by destruct (sub_i64 _ _ _). }
  assert (∀ t, (apply checks now (DBTtl name) s').1 = (apply checks now (DBTtl name) s).1 ∧
    ((n ← ttl checks now t name; mret (RInt (left_of n)) : StM Reply) s').1 =
    ((n ← ttl checks now t name; mret (RInt (left_of n)) : StM Reply) s).1) as Hl.
  { intros t. split; cbn -[ttl]; unfold mbind, M_bind.
    - specialize (Ht KeyType.KV). destruct (ttl checks now _ name s') as [[] ?], (ttl checks now _ name s) as [[] ?]; naive_solver.
    - specialize (Ht t). destruct (ttl checks now _ name s') as [[] ?], (ttl checks now _ name s) as [[] ?]; naive_solver. }
  destruct Hq; try (exact (proj1 (Hl KeyType.KV))); try (exact (proj2 (Hl KeyType.Map))); try (exact (proj2 (Hl KeyType.List)));
    cbn -[expired items elements]; unfold store_map_empty, elements; cbn [map_name list_name];
    rewrite ?Hx, ?H1, ?H2, ?H4; try reflexivity.
  destruct (expired now s KeyType.KV name); [done|]. destruct (s_kv s !! name) as [v|]; [|done]. by destruct (from_be_i64 v).
Qed.

(** ** The storage and the store *)

Section Claims.
Context {T : Type} `{!SledTree T, !SledTreeOk T}.
Context `{!Postcard (Z * Z), !PostcardOk (Z * Z), !PostcardTotal (Z * Z)} (checks : bool) (N : bytes → Prop).
Implicit Types (d : @SledStorageDB T) (cmds : list (Z * Command)).

(** No entry for [name] among those by which a clean-up goes. *)
Definition nothing_due (now : Z) (name : bytes) d : Prop :=
  ∀ t, i64 t → t ≤ now → contents (expire_key_tree d) !! (be_bytes 8 t ++ name) = None.

(** A run of a storage that begins empty, within what its lists can count. *)
Definition ran cmds d os d' : Prop :=
  fresh_db d ∧ total_pushed cmds + 1 < 2 ^ 64 ∧ Forall (λ c, well_named N c.2) cmds ∧ run checks cmds d = (os, d').

(** C11: a storage that begins empty answers every sequence of commands as the abstract store does. *)
Theorem sled_refines d cmds :
  (∀ a b, N a → N b → a = b ∨ apart a b) → fresh_db d → total_pushed cmds + 1 < 2 ^ 64 →
  Forall (λ c, well_named N c.2) cmds →
  (run checks cmds d).1 = (apply_all checks cmds store_new).1.
Proof.
  intros Hapart Hd Hlt Hwf. by apply (steps checks N Hapart cmds 0 d store_new (repr_fresh N d Hd)).
Qed.

End Claims.

(** ** On small databases *)

#[local] Instance ends_postcard : Postcard (Z * Z) := counted.
#[local] Instance ends_postcard_ok : PostcardOk (Z * Z) := counted_ok.
#[local] Instance ends_postcard_total : PostcardTotal (Z * Z) := counted_total.

Definition db0 : @SledStorageDB (gmap bytes bytes) := mkDB ∅ ∅ ∅ ∅ ∅ ∅ ∅ 0.

(** Names without a separator. *)
Definition plain (name : bytes) : Prop := 64 ∉ name.

Lemma plains_apart a b : plain a → plain b → a = b ∨ apart a b.
Proof. intros Ha Hb. right. by apply plain_apart. Qed.

#[local] Instance plain_dec name : Decision (plain name).
Proof. unfold plain. apply _. Defined.

Lemma nothing_due_by (now : Z) (name : bytes) (d : @SledStorageDB (gmap bytes bytes)) :
  bool_decide (map_Forall (λ k _, drop 8 k = name → now < as_isize (from_be (take 8 k))) (expire_key_tree d)) = true →
  nothing_due now name d.
Proof.
  intros Hall%bool_decide_eq_true t Ht Hle. destruct (contents _ !! _) as [v|] eqn:Hv; [|done]. exfalso.
  specialize (Hall _ _ Hv). cbn beta in Hall.
  rewrite drop_app_length', take_app_length' in Hall by (symmetry; apply length_be_bytes).
  specialize (Hall eq_refl). rewrite as_isize_bytes in Hall by done. lia.
Qed.

Definition pairs_l : SledStorageList := mkList (lit "l").

(** A key and a list with deadlines, a clean-up between the two. *)
Definition sample_cmds : list (Z * Command) :=
  [(0, DBInsert (lit "k") (lit "1")); (0, DBExpireAt (lit "k") 50);
   (1, ListPush pairs_l (lit "a")); (2, ListPush pairs_l (lit "b")); (3, ListExpireAt pairs_l 500)].

Lemma sled_refines_witness :
  (run true (sample_cmds ++ [(4, ListPop pairs_l); (100, Cleanup 10); (101, DBLen); (102, ListAll pairs_l)]) db0).1
    = [Ok RUnit; Ok (RBool true); Ok RUnit; Ok RUnit; Ok (RBool true);
       Ok (RVal (Some (lit "a"))); Ok (RSize 1); Ok (RSize 0); Ok (RVals [lit "b"])].
Proof.
  rewrite (sled_refines true plain); [vm_compute; reflexivity|exact plains_apart|repeat split; reflexivity|reflexivity|].
  repeat constructor; try (unfold i64; lia); by apply (bool_decide_unpack _).
Defined.


(** *** Where the storage surprises *)

Definition answers (cmds : list (Z * Command)) := (run true cmds db0).1.
Definition last_answer (cmds : list (Z * Command)) := last (answers cmds).

(** A later deadline leaves the entry of the earlier one, and a clean-up goes by
    the entries: the key is removed though its deadline is still to come. *)
Example extension_ignored :
  last_answer [(0, DBInsert (lit "k") (lit "1")); (0, DBExpireAt (lit "k") 50); (10, DBExpireAt (lit "k") 500);
               (100, DBGet (lit "k"))] = Some (Ok (RVal (Some (lit "1")))) ∧
  last_answer [(0, DBInsert (lit "k") (lit "1")); (0, DBExpireAt (lit "k") 50); (10, DBExpireAt (lit "k") 500);
               (100, Cleanup 10); (100, DBGet (lit "k"))] = Some (Ok (RVal None)).
Proof. split; vm_compute; reflexivity. Qed.

(** A handle that has seen its map with items does not create it again: what is
    inserted after a removal cannot be read. *)
Example insertion_lost :
  let m := mkMap (lit "m") 0 in
  last_answer [(0, DBMapNew (lit "m") None); (1, MapInsert m (lit "a") (lit "1")); (2, DBMapRemove (lit "m"));
               (3, MapInsert m (lit "b") (lit "2")); (4, MapGet m (lit "b"))] = Some (Ok (RVal None)).
Proof. vm_compute. reflexivity. Qed.

(** A push to a list that has expired brings the old elements back. *)
Example push_revives :
  last_answer [(0, ListPush pairs_l (lit "a")); (1, ListExpireAt pairs_l 50); (100, ListPush pairs_l (lit "b"));
               (100, ListAll pairs_l)] = Some (Ok (RVals [lit "a"; lit "b"])).
Proof. vm_compute. reflexivity. Qed.

(** A key, a map and a list of one name share their deadline. *)
Example deadline_shared :
  last_answer [(0, DBInsert (lit "l") (lit "1")); (0, ListPush pairs_l (lit "a")); (1, ListExpireAt pairs_l 50);
               (100, DBGet (lit "l"))] = Some (Ok (RVal None)).
Proof. vm_compute. reflexivity. Qed.

(** A batch keeps the deadlines that an insertion would take away. *)
Example batch_keeps_deadline :
  last_answer [(0, DBInsert (lit "k") (lit "1")); (0, DBExpireAt (lit "k") 50); (1, DBBatchInsert [(lit "k", lit "2")]);
               (100, DBGet (lit "k"))] = Some (Ok (RVal None)) ∧
  last_answer [(0, DBInsert (lit "k") (lit "1")); (0, DBExpireAt (lit "k") 50); (1, DBInsert (lit "k") (lit "2"));
               (100, DBGet (lit "k"))] = Some (Ok (RVal (Some (lit "2")))).
Proof. split; vm_compute; reflexivity. Qed.

(** A clean-up with the limit 0 removes one, and a list with room for nothing has
    one element. *)
Example limits_plus_one :
  last_answer [(0, DBInsert (lit "k") (lit "1")); (0, DBExpireAt (lit "k") 50); (100, Cleanup 0)] = Some (Ok (RSize 1)) ∧
  last_answer [(0, ListPushLimit pairs_l (lit "a") 0 true); (1, ListLen pairs_l)] = Some (Ok (RSize 1)).
Proof. split; vm_compute; reflexivity. Qed.

(** Names that are not apart: clearing the map [a] clears the map [a@b] as well. *)
Example cleared_by_another :
  let a := mkMap (lit "a") 0 in
  let ab := mkMap (lit "a@b") 1 in
  last_answer [(0, DBMapNew (lit "a") None); (0, DBMapNew (lit "a@b") None); (1, MapInsert ab (lit "k") (lit "1"));
               (2, MapClear a); (3, MapGet ab (lit "k"))] = Some (Ok (RVal None)).
Proof. vm_compute. reflexivity. Qed.
