(* ===== verification/SledGlob.v ===== *)
(** * Scanning for keys that match a pattern

    [scan] of [ferromq-storage/src/storage_sled.rs]: a pattern with [*] and [?] is
    parsed, the keys that begin with its literal prefix are read from the tree, and
    a table of prefixes of the pattern and the key decides which of them match. *)

From stdpp Require Import base list numbers option gmap sorting strings.
From Stdlib Require Import ZArith Lia.
From S2P Require Import Prelude Topic SledKeys.

#[local] Open Scope Z_scope.

Definition STAR : Z := 42.
Definition QUESTION : Z := 63.
Definition BACKSLASH : Z := 92.

(** ** Patterns *)

Inductive PatternChar : Type := Literal (c : Z) | Wildcard | AnyChar.

(** [Pattern::parse] *)
Fixpoint parse (pattern : bytes) : list PatternChar :=
  match pattern with
  | [] => []
  | c :: rest =>
      if c =? BACKSLASH then
        match rest with
        | [] => []
        | next_char :: rest =>
            if next_char =? QUESTION then Literal QUESTION :: parse rest
            else if next_char =? STAR then Literal STAR :: parse rest
            else Literal BACKSLASH :: Literal next_char :: parse rest
        end
      else (if c =? QUESTION then AnyChar else if c =? STAR then Wildcard else Literal c) :: parse rest
  end.

(** One row of the table behind its first column; [left] is the cell before, [prev]
    the row above from the column before on. *)
Fixpoint row_from (p : PatternChar) (left : bool) (prev : list bool) (text : bytes) : list bool :=
  match prev, text with
  | diag :: (up :: _) as prev, t :: text =>
      let cell :=
        match p with
        | Wildcard => up || left
        | AnyChar => diag
        | Literal c => ((c =? QUESTION) || (c =? t)) && diag
        end in
      cell :: row_from p cell prev text
  | _, _ => []
  end.

Definition next_row (text : bytes) (prev : list bool) (p : PatternChar) : list bool :=
  let first := match p with Wildcard => default false (head prev) | _ => false end in
  first :: row_from p first prev text.

(** [is_match]: the last cell of the last row. *)
Definition is_match (pattern : list PatternChar) (text : bytes) : bool :=
  default false (last (foldl (next_row text) (true :: replicate (length text) false) pattern)).

(** [replace], which copies what is not [from]; an empty [from] would never end. *)
Fixpoint bytes_replace (fuel : nat) (from to input : bytes) : option bytes :=
  match fuel, input with
  | _, [] => Some []
  | O, _ => None
  | S fuel, c :: rest =>
      if bool_decide (from `prefix_of` input)
      then app to <$> bytes_replace fuel from to (drop (length from) input)
      else cons c <$> bytes_replace fuel from to rest
  end.

(** The pattern up to its first [*] or [?] without a backslash before it, and
    whether there is a backslash in it. *)
Fixpoint start_pattern (last_esc_char : bool) (pattern : bytes) : bytes * bool :=
  match pattern with
  | [] => ([], false)
  | x :: pattern =>
      if negb last_esc_char && ((x =? STAR) || (x =? QUESTION)) then ([], false)
      else
        let esc := x =? BACKSLASH in
        let '(start, has_esc_char) := start_pattern esc pattern in
        (x :: start, esc || has_esc_char)
  end.

Definition replace_all (from to input : bytes) : option bytes := bytes_replace (length input) from to input.

(** The prefix of [_db_scan_prefix] *)
Definition scan_start (pattern : bytes) : option bytes :=
  let '(start, has_esc_char) := start_pattern false pattern in
  if has_esc_char then
    start ← replace_all [BACKSLASH; STAR] [STAR] start;
    replace_all [BACKSLASH; QUESTION] [QUESTION] start
  else Some start.

(** [scan] and [AsyncDbKeyIter::next] to the end *)
Definition scan {T} `{SledTree T} (pattern : bytes) (kv_tree : T) : option (list bytes) :=
  start ← scan_start pattern;
  Some (filter (λ k, is_match (parse pattern) k = true) (tree_scan_prefix start kv_tree).*1).

(** ** What a pattern means *)

(** A piece of text for each part of the pattern. *)
Definition piece (p : PatternChar) (t : bytes) : Prop :=
  match p with
  | Literal c => t = [c]
  | AnyChar => ∃ c, t = [c]
  | Wildcard => True
  end.

Definition glob (pattern : list PatternChar) (text : bytes) : Prop :=
  ∃ ts, Forall2 piece pattern ts ∧ concat ts = text.

(** The code reads an escaped question mark as one that is not escaped. *)
Definition lenient (p : PatternChar) : PatternChar :=
  match p with Literal c => if c =? QUESTION then AnyChar else p | _ => p end.

Lemma glob_nil text : glob [] text ↔ text = [].
Proof.
  split; [|intros ->; by exists []]. intros (ts & Hts & <-). by inversion Hts.
Qed.

Lemma glob_snoc ps p text : glob (ps ++ [p]) text ↔ ∃ t1 t2, text = t1 ++ t2 ∧ glob ps t1 ∧ piece p t2.
Proof.
  split.
  - intros (ts & Hts & <-). apply Forall2_app_inv_l in Hts as (ts1 & ts2 & H1 & H2 & ->).
    inversion H2 as [|? t2 ? ? Hp Hnil]; subst. inversion Hnil; subst. exists (concat ts1), t2.
    rewrite concat_app. simpl. rewrite app_nil_r. split; [done|]. split; [by exists ts1|done].
  - intros (t1 & t2 & -> & (ts & Hts & <-) & Hp). exists (ts ++ [t2]). split; [by apply Forall2_app; [|constructor]|].
    rewrite concat_app. simpl. by rewrite app_nil_r.
Qed.

Lemma glob_snoc_one ps p text :
  (∀ t, piece p t → ∃ c, t = [c]) →
  glob (ps ++ [p]) text ↔ ∃ t c, text = t ++ [c] ∧ glob ps t ∧ piece p [c].
Proof.
  intros Hone. rewrite glob_snoc. split.
  - intros (t1 & t2 & -> & Hg & Hp). destruct (Hone _ Hp) as [c ->]. eauto.
  - intros (t & c & -> & Hg & Hp). eauto.
Qed.

Lemma glob_snoc_star ps text :
  glob (ps ++ [Wildcard]) text ↔ ∃ n, (n ≤ length text)%nat ∧ glob ps (take n text).
Proof.
  rewrite glob_snoc. split.
  - intros (t1 & t2 & -> & Hg & _). exists (length t1). rewrite length_app, take_app_length. split; [lia|done].
  - intros (n & _ & Hg). exists (take n text), (drop n text). by rewrite take_drop.
Qed.

(** ** The table *)

(** Row [ps]: the cell [j] says whether the first [j] bytes match. *)
Definition row_ok (ps : list PatternChar) (text : bytes) (row : list bool) : Prop :=
  length row = S (length text) ∧
  ∀ j b, row !! j = Some b → b = true ↔ glob (map lenient ps) (take j text).

Lemma row_ok_first text : row_ok [] text (true :: replicate (length text) false).
Proof.
  split; [simpl; by rewrite length_replicate|]. intros j b Hb. cbn [map]. rewrite glob_nil. destruct j as [|j].
  - injection Hb as <-. done.
  - apply lookup_replicate in Hb as [-> Hj]. split; [done|]. destruct text; [simpl in Hj; lia|done].
Qed.

(** What the cell [j] of the next row must be. *)
Definition cell_of (p : PatternChar) (left diag up : bool) (t : Z) : bool :=
  match p with
  | Wildcard => up || left
  | AnyChar => diag
  | Literal c => ((c =? QUESTION) || (c =? t)) && diag
  end.

Lemma row_from_cons p left d u prev t text :
  row_from p left (d :: u :: prev) (t :: text) =
  cell_of p left d u t :: row_from p (cell_of p left d u t) (u :: prev) text.
Proof. done. Qed.

Lemma row_from_length p left prev text :
  length prev = S (length text) → length (row_from p left prev text) = length text.
Proof.
  revert left prev. induction text as [|t text IH]; intros left [|d [|u prev]] Hl; try done.
  rewrite row_from_cons. cbn [length]. rewrite IH; [done|]. simpl in *. lia.
Qed.

Lemma row_from_cells p left prev text j b :
  length prev = S (length text) → row_from p left prev text !! j = Some b →
  ∃ t diag up lft, text !! j = Some t ∧ prev !! j = Some diag ∧ prev !! S j = Some up ∧
    (left :: row_from p left prev text) !! j = Some lft ∧ b = cell_of p lft diag up t.
Proof.
  revert left prev j. induction text as [|t text IH]; intros left [|d [|u prev]] j Hl Hb; try done.
  rewrite row_from_cons in *. destruct j as [|j].
  - injection Hb as <-. by exists t, d, u, left.
  - cbn [lookup list_lookup] in Hb. apply IH in Hb as (t' & d' & u' & l' & H1 & H2 & H3 & H4 & ->); [|simpl in *; lia].
    by exists t', d', u', l'.
Qed.

Lemma take_S_snoc (text : bytes) j t : text !! j = Some t → take (S j) text = take j text ++ [t].
Proof. apply take_S_r. Qed.

Lemma star_step ps (text : bytes) j t :
  text !! j = Some t →
  glob (ps ++ [Wildcard]) (take (S j) text) ↔ glob ps (take (S j) text) ∨ glob (ps ++ [Wildcard]) (take j text).
Proof.
  intros Ht. pose proof (lookup_lt_Some _ _ _ Ht) as Hj. rewrite !glob_snoc_star. split.
  - intros (n & Hn & Hg). rewrite length_take in Hn. rewrite take_take in Hg.
    destruct (decide (n = S j)) as [->|Hne]; [left; by rewrite Nat.min_id in Hg|].
    right. exists n. rewrite length_take, take_take. split; [lia|].
    by replace (n `min` j)%nat with (n `min` S j)%nat by lia.
  - intros [Hg|(n & Hn & Hg)].
    + exists (S j). rewrite length_take, take_take, Nat.min_id. split; [lia|done].
    + rewrite length_take in Hn. rewrite take_take in Hg. exists n. rewrite length_take, take_take. split; [lia|].
      by replace (n `min` S j)%nat with (n `min` j)%nat by lia.
Qed.

Lemma one_step ps p (text : bytes) j t :
  (∀ t, piece p t → ∃ c, t = [c]) → text !! j = Some t →
  glob (ps ++ [p]) (take (S j) text) ↔ glob ps (take j text) ∧ piece p [t].
Proof.
  intros Hone Ht. rewrite glob_snoc_one by done. rewrite (take_S_snoc _ _ _ Ht). split.
  - intros (t' & c & He & Hg & Hp). apply app_inj_tail in He as [-> ->]. done.
  - intros [Hg Hp]. eauto.
Qed.

Lemma one_not_empty ps p : (∀ t, piece p t → ∃ c, t = [c]) → ¬ glob (ps ++ [p]) [].
Proof. intros Hone. rewrite glob_snoc_one by done. intros (t & c & He & _). by destruct t. Qed.

Lemma lenient_literal c : lenient (Literal c) = if c =? QUESTION then AnyChar else Literal c.
Proof. done. Qed.

Lemma cell_ok ps p (text : bytes) j t left diag up :
  text !! j = Some t →
  diag = true ↔ glob (map lenient ps) (take j text) →
  up = true ↔ glob (map lenient ps) (take (S j) text) →
  left = true ↔ glob (map lenient (ps ++ [p])) (take j text) →
  cell_of p left diag up t = true ↔ glob (map lenient (ps ++ [p])) (take (S j) text).
Proof.
  intros Ht Hd Hu Hl. rewrite map_app in *. cbn [map] in *. unfold cell_of. destruct p as [c| |].
  - rewrite andb_true_iff, orb_true_iff, Hd, lenient_literal.
    destruct (Z.eqb_spec c QUESTION) as [->|Hc].
    + rewrite (one_step _ AnyChar text j t) by (try done; by intros ? [? ->]; eauto). cbn [piece]. naive_solver.
    + rewrite (one_step _ (Literal c) text j t) by (try done; by intros ? ->; eauto). cbn [piece].
      rewrite Z.eqb_eq. naive_solver.
  - by rewrite orb_true_iff, Hu, Hl, star_step.
  - rewrite Hd, (one_step _ AnyChar text j t) by (try done; by intros ? [? ->]; eauto). cbn [piece]. naive_solver.
Qed.

Lemma next_row_ok ps p text prev : row_ok ps text prev → row_ok (ps ++ [p]) text (next_row text prev p).
Proof.
  intros [Hlen Hcells]. unfold next_row. set (first := match p with Wildcard => _ | _ => false end).
  split; [cbn [length]; by rewrite row_from_length|]. intros j. induction j as [|j IH]; intros b Hb.
  - cbn in Hb. injection Hb as <-. rewrite take_0. subst first. rewrite map_app. cbn [map]. destruct p as [c| |]; rewrite ?lenient_literal.
    + split; [done|]. intros Hg. exfalso. revert Hg.
      destruct (c =? QUESTION); apply one_not_empty; [by intros ? [? ->]; eauto|by intros ? ->; eauto].
    + destruct prev as [|b0 prev]; [done|]. cbn [head default]. rewrite (Hcells 0%nat b0 eq_refl), take_0, glob_snoc_star.
      split; [intros Hg; by exists 0%nat|]. intros (n & _ & Hg). by rewrite take_nil in Hg.
    + split; [done|]. intros Hg. exfalso. revert Hg. apply one_not_empty. by intros ? [? ->]; eauto.
  - cbn [lookup list_lookup] in Hb. destruct (row_from_cells _ _ _ _ _ _ Hlen Hb) as (t & d & u & l & Ht & Hd & Hu & Hl & ->).
    apply cell_ok; [done|by apply Hcells|by apply Hcells|by apply IH].
Qed.

Lemma rows_ok ps qs text row : row_ok ps text row → row_ok (ps ++ qs) text (foldl (next_row text) row qs).
Proof.
  revert ps row. induction qs as [|q qs IH]; intros ps row Hr; [by rewrite app_nil_r|]. simpl.
  rewrite cons_middle, app_assoc. by apply IH, next_row_ok.
Qed.

(** The table decides whether the text matches. *)
Lemma is_match_spec ps text : is_match ps text = true ↔ glob (map lenient ps) text.
Proof.
  unfold is_match. destruct (rows_ok [] ps text _ (row_ok_first text)) as [Hlen Hcells]. cbn [app] in *.
  set (row := foldl _ _ ps) in *. rewrite last_lookup, Hlen. cbn [pred].
  destruct (row !! length text) as [b|] eqn:Hb; [|apply lookup_ge_None in Hb; lia].
  cbn [default from_option]. by rewrite (Hcells _ _ Hb), firstn_all.
Qed.

(** ** The scan *)

Lemma glob_prefix start rest text : glob (map Literal start ++ rest) text → start `prefix_of` text.
Proof.
  intros (ts & Hts & <-). revert ts Hts. induction start as [|c start IH]; intros ts Hts; [apply prefix_nil|].
  inversion Hts as [|? t ? ts' Hc Hts']; subst. cbn [piece] in Hc. subst t. by apply prefix_cons, IH.
Qed.

(** Without a backslash the parts of a pattern are its bytes, and the prefix that is
    scanned for is the one that every match begins with. *)
Lemma parse_plain c pattern :
  c ≠ BACKSLASH →
  parse (c :: pattern) = (if c =? QUESTION then AnyChar else if c =? STAR then Wildcard else Literal c) :: parse pattern.
Proof. intros Hc. cbn [parse]. by rewrite (proj2 (Z.eqb_neq _ _)) by done. Qed.

Lemma parse_lenient pattern : BACKSLASH ∉ pattern → map lenient (parse pattern) = parse pattern.
Proof.
  induction pattern as [|c pattern IH]; [done|]. intros [Hc Hp]%not_elem_of_cons.
  rewrite parse_plain by done. cbn [map]. rewrite IH by done. f_equal.
  destruct (c =? QUESTION) eqn:Hq; [done|]. destruct (c =? STAR); [done|]. by rewrite lenient_literal, Hq.
Qed.

Lemma start_plain pattern :
  BACKSLASH ∉ pattern →
  ∃ start rest, start_pattern false pattern = (start, false) ∧ parse pattern = map Literal start ++ rest.
Proof.
  induction pattern as [|c pattern IH]; [intros _; by exists [], []|]. intros [Hc Hp]%not_elem_of_cons.
  destruct (IH Hp) as (start & rest & Hs & Hr). rewrite parse_plain by done. cbn [start_pattern negb andb].
  destruct (c =? STAR) eqn:Hst; [by exists [], ((if c =? QUESTION then AnyChar else Wildcard) :: parse pattern)|].
  destruct (c =? QUESTION) eqn:Hq; [by exists [], (AnyChar :: parse pattern)|]. cbn [orb].
  rewrite (proj2 (Z.eqb_neq c BACKSLASH)) by done. rewrite Hs. exists (c :: start), rest. by rewrite Hr.
Qed.

(** What a pattern without a backslash describes, byte by byte: [*] (42) any bytes,
    [?] (63) one byte, every other byte itself. *)
Inductive describes : bytes → bytes → Prop :=
| describes_end : describes [] []
| describes_star any pattern text : describes pattern text → describes (42 :: pattern) (any ++ text)
| describes_question c pattern text : describes pattern text → describes (63 :: pattern) (c :: text)
| describes_byte c pattern text : c ≠ 42 → c ≠ 63 → describes pattern text → describes (c :: pattern) (c :: text).

Lemma glob_cons p ps text : glob (p :: ps) text ↔ ∃ t1 t2, text = t1 ++ t2 ∧ piece p t1 ∧ glob ps t2.
Proof.
  split.
  - intros (ts & Hts & <-). inversion Hts as [|? t1 ? ts' Hp Hts']; subst. exists t1, (concat ts').
    split; [done|]. split; [done|by exists ts'].
  - intros (t1 & t2 & -> & Hp & ts & Hts & <-). exists (t1 :: ts). by split; [constructor|].
Qed.

Lemma glob_describes pattern text :
  BACKSLASH ∉ pattern → glob (parse pattern) text ↔ describes pattern text.
Proof.
  revert text. induction pattern as [|c pattern IH]; intros text.
  { intros _. cbn [parse]. rewrite glob_nil. split; [intros ->; constructor|by inversion 1]. }
  intros [Hc Hp]%not_elem_of_cons. rewrite parse_plain, glob_cons by done. split.
  - intros (t1 & t2 & -> & Hpc & Hg). apply IH in Hg; [|done].
    destruct (Z.eqb_spec c QUESTION) as [->|Hq]; [destruct Hpc as [d ->]; by constructor|].
    destruct (Z.eqb_spec c STAR) as [->|Hs]; [by constructor|]. cbn [piece] in Hpc. subst t1. by constructor.
  - intros Hd. inversion Hd as [|any p' t Ht|d p' t Ht|d p' t Hs Hq Ht]; subst.
    + exists any, t. split; [done|]. split; [done|by apply IH].
    + exists [d], t. split; [done|]. split; [by eexists|by apply IH].
    + exists [c], t. split; [done|]. split; [|by apply IH].
      rewrite (proj2 (Z.eqb_neq c QUESTION)), (proj2 (Z.eqb_neq c STAR)) by done. done.
Qed.

Section Scan.
Context {T : Type} `{!SledTree T, !SledTreeOk T}.

(** C30: scanning with a pattern without a backslash yields, in order and once each, exactly the
    keys in the tree that the pattern describes: [*] stands for any bytes, [?] for
    one byte, and every other byte for itself. *)
Theorem scan_exact (pattern : bytes) (t : T) :
  BACKSLASH ∉ pattern →
  ∃ keys, scan pattern t = Some keys ∧ StronglySorted bytes_lt keys ∧
    ∀ k, k ∈ keys ↔ is_Some (contents t !! k) ∧ describes pattern k.
Proof.
  intros Hp. destruct (start_plain pattern Hp) as (start & rest & Hs & Hr).
  unfold scan, scan_start. rewrite Hs. cbn [mbind option_bind]. eexists. split; [reflexivity|]. split.
  - by apply StronglySorted_filter, scan_sorted.
  - intros k. rewrite list_elem_of_filter, is_match_spec, parse_lenient, scan_keys by done.
    rewrite <-glob_describes by done. split; [tauto|].
    intros [Hk Hg]. split; [done|]. split; [done|]. rewrite Hr in Hg. by apply glob_prefix in Hg.
Qed.
End Scan.

Definition sample_tree : gmap bytes bytes := list_to_map (map (λ k, (lit k, [])) ["a1"; "a22b"; "a2"; "b1"; "a\\b"]%string).

Lemma scan_exact_witness :
  BACKSLASH ∉ lit "a?*" ∧ describes (lit "a?*") (lit "a22b") ∧ ¬ describes (lit "a?*") (lit "b1") ∧
  scan (lit "a?") sample_tree = Some [lit "a1"; lit "a2"].
Proof.
  assert (BACKSLASH ∉ lit "a?*") as Hn by (by apply (bool_decide_unpack _)).
  destruct (scan_exact (lit "a?*") sample_tree Hn) as (keys & Hk & _ & Hkeys). vm_compute in Hk. injection Hk as <-.
  split; [done|]. split; [|split].
  - apply (Hkeys (lit "a22b")). by apply (bool_decide_unpack _).
  - intros Hg. assert (lit "b1" ∈ [lit "a1"; lit "a2"; lit "a22b"; lit "a\\b"]) as Hin.
    { apply (Hkeys (lit "b1")). split; [|done]. vm_compute. eauto. }
    revert Hin. by apply (bool_decide_unpack _).
  - vm_compute. reflexivity.
Defined.

(** *** With backslashes *)

(** An escaped question mark matches every byte, a backslash at the end is
    dropped, and after two of them a key that the pattern describes is not found. *)
Example backslash_patterns :
  is_match (parse (lit "\?")) (lit "x") = true ∧
  is_match (parse (lit "a\")) (lit "a") = true ∧
  is_match (parse (lit "a\\*")) (lit "a\\b") = true ∧ scan (lit "a\\*") sample_tree = Some [].
Proof. repeat split; vm_compute; reflexivity. Qed.
